(* ===== verification/_CoqProject ===== *)
-Q . S2P
Prelude.v
GoText.v
Json.v
Routing.v
Resolver.v
Catalog.v
ResolverTheory.v
CatalogTheory.v
Workflow.v
Topology.v
Template.v
Validate.v
TemplateTheory.v
ValidateTheory.v
WorkflowTheory.v
Context.v
ContextCompiler.v
ContextTheory.v
Backend.v
RunState.v
Scheduler.v
SchedulerTheory.v
Layers.v
RunConclusion.v
Files.v
JsonTree.v
JsonTreeTheory.v
JsonSound.v
JsonStrings.v
Lease.v
LeaseTheory.v
CancelRequest.v
TeamContract.v
TeamStore.v
TeamTurns.v
Handoff.v
TeamRounds.v
TeamCancel.v
TeamSystem.v
TeamStart.v
HandoffTheory.v
TeamSteps.v
TeamExamples.v
TeamRoundsTheory.v
TeamOutcome.v
TeamStartTheory.v
HandoffPages.v
Journal.v
JournalTheory.v
AppRequests.v
AppCodecs.v
Cursor.v
RunStore.v
Application.v
ApplicationTheory.v
ApplicationOnce.v
ApplicationRecovery.v
RunQueries.v
RunQueriesTheory.v
RunOps.v
RunActions.v
RunReceipts.v
Cancellation.v
RunService.v
RunExamples.v
RunLogic.v
RunHistory.v
RunRecovery.v
RunTheory.v
CancelTheory.v
RouteConfig.v
TeamRoutes.v
RoutingConfig.v
RoutingSystem.v
RoutingConfigTheory.v
RoutingRefusals.v
RoutingExamples.v
MemoryRecord.v
MemoryCatalog.v
MemoryTheory.v
