(* ===== verification/Prelude.v ===== *)
(** * Fishyume engine: a verification library

    Fishyume runs workflows of AI agents.  Its engine, the Go module under
    src/wf-engine/internal/, validates a workflow document, routes every node to
    a model, compiles the context of each attempt, schedules the nodes, launches
    them on backends, records everything in JSON files and survives crashes by
    reading them again.  This library translates that logic, function by
    function, into executable definitions and proves what it promises.  Go paths
    below are relative to src/wf-engine/internal/.

    ** How the code is read

    - A function that returns (value, error) is a value of [result]; an error is
      a constructor of the component's error type, one per message of the code.
      [x ← m; k] is "if err != nil return", [fail_if] is a guard.
    - A Go map is a [gmap]; where the code ranges over a map the order is the
      parameter [GoRange], any enumeration without repetition, and the theorems
      hold for each.
    - int and uint64 are [Z]; where a sum can leave the range it is wrapped
      ([wrap_int64], [wrap_uint64]).  Times are nanoseconds as [Z]; where zero
      times are told apart they count from the beginning of year 1, time.Time's
      zero.
    - SHA-256, the clock, random ids, backends, drivers and processAlive are
      parameters or inputs of the operations.  The standard library is modelled
      where the code uses it (GoText, Json): UTF-8 validity, the JSON encoder and
      validator, path cleaning, sort.Slice.
    - Recursion that is not structural runs on fuel: the topological loop and the
      ancestor search (the number of nodes), the JSON validator (the length of
      the text), the level search and the filling of the context compiler (see
      ContextCompiler) and the eviction of receipts (their number).  The theorems
      state the results for this fuel, so that it is enough is part of them.
    - Effects come in two monads, both with a list of faults that says for every
      write or system call whether it happens, reports an error or finds the
      process dead: [eff] (RunStore) for the run service and [io] (Files) for the
      other files of the store.  A theorem that quantifies over the faults speaks
      about every crash and every failing call.

    ** The parts

    Prelude has the notations ([go_scope]), the tactics [bool_props] and
    [go_run], and the lemmas on loops, sorting and strings that the parts share.

    - Routing (routing/contract.go, defaults.go, product_policy.go): the routing
      vocabulary and its validators, with what each validator accepts.  Resolver (resolver.go, accounting.go): selection of a model, cost
      reservation and fallback.  Catalog (catalog.go, catalog_registry.go,
      execution_profile.go): canonical catalogs and the content-addressed
      registry.  ResolverTheory: the selected model is suitable and none that is
      suitable is preferred to it, each outcome of [ResolveV1], exact
      reservations, sound fallback chains.  CatalogTheory: the registry.
    - Workflow (workflow/model.go, parse.go): documents, inputs, results, their
      normalisation.  Topology (model.go): TopologicalOrder is the smallest
      topological order, exists exactly for acyclic documents, and ancestors are
      the transitive needs.  Template (template.go): references, rendering,
      conditions.  Validate (validate.go).  TemplateTheory, ValidateTheory and
      WorkflowTheory: rendering is one pass, a validated template renders, a
      validated condition has its boolean meaning, Validate accepts exactly the
      documents of its specification, normalisation is idempotent.
    - Context, ContextCompiler (contextcompiler/contract_v2.go, compiler_v2.go,
      budget_policy_v1.go): context envelopes.  ContextTheory: allocation is
      max-min fair, a truncated text is a valid UTF-8 suffix, every source is
      placed exactly once, each tier within its part of the budget, valid input
      compiles.
    - Backend (backend/backend.go): handles, observations, results.
    - RunState (run/lifecycle.go, m4_compat.go, aggregation.go), Scheduler
      (run/scheduler.go): snapshots and the pure scheduling decision.
      SchedulerTheory: a node is ready, waiting or skipped exactly when its
      upstream says so, capacity is respected, some node moves unless the run has
      ended or waits, and the order of enumeration does not matter.
      RunConclusion: the phase and conclusion of a run.
    - RunStore (store/json_store.go for one run), RunOps (run/service.go,
      parallel_launch.go, reconcile.go), RunActions (run/service.go, routing.go),
      Cancellation (run/cancellation.go), composed in RunService.  RunLogic is a
      crash Hoare logic for them: [triple] for partial and [sure] for total
      correctness.  RunHistory: over every sequence of operations and crashes the
      event log only grows, is numbered without gaps and stays in step with the
      state version.  RunRecovery refines an interrupted action to an atomic one:
      a request repeated until it succeeds applies its plan once.  RunReceipts:
      which receipts are kept.  RunTheory: a controller never touches a run it no
      longer controls; the reset of what a retried node held up.  CancelTheory:
      a cancellation settles every node.  RunExamples: a run to evaluate, and
      two requests outside the exactly-once theorem.
    - Files: system calls that can fail.  Lease and LeaseTheory (store/lease.go):
      a lease renewed in time is exclusive under every schedule of the other
      processes, a lost one is out of reach of its former holder.  CancelRequest
      (store/cancel_request.go): the files of a cancellation refine a handshake,
      what is made, answered or read is its state, and a request is never lost.
    - JsonTree: JSON values as trees, with JsonTreeTheory, JsonSound and
      JsonStrings: what is printed parses, with and without indentation, and what
      parses is well formed.  Journal (store/application_journal.go) and
      JournalTheory: an entry goes from begun to answered to committed and stays
      bound to its request.  AppRequests (application/types.go, errors.go),
      AppCodecs: requests and responses as JSON and back.
      Application (application/service.go): RunStart, RunAction and Recover over
      the journal and the interface [Core].  ApplicationTheory and
      ApplicationOnce: over all histories with failures the calls for one request
      agree, and a request that has been answered calls no more and gets the same
      answer.  ApplicationRecovery: what is recovered is what was asked for; a
      start that is refused blocks recovery.  ApplicationTheory has a core to
      evaluate.
    - Layers, Cursor, RunQueries (application/service.go): how a workflow's graph
      is shown, and the listings of runs and events.  Layers are longest chains of
      needs and the sources shown to a node are those its attempt is given
      (Layers); the cursors of RunList lead through every selected run once, and
      RunEvents delivers every event that fits a response (RunQueriesTheory).
    - RouteConfig, TeamRoutes (routingconfig/team_routes.go), RoutingConfig
      (routingconfig/service.go): the configured routes, discovery, probes,
      receipts of mutations and the catalogs on disk, with writes that fail and
      the array that two copies of a configuration share.  RoutingSystem composes
      the operations with crashes and starts, and has the argument for
      invariance.  RoutingConfigTheory: of two updates of one revision only one
      applies, across crashes.  A catalog that was reported can
      be found for ever, and the catalog of Team routes is total.
      RoutingRefusals: what refused calls leave behind, for as long as the
      process serves requests.  RoutingExamples.
    - MemoryRecord (contextcompiler/contract_v2.go), MemoryCatalog
      (store/memory_catalog.go, application/memory.go): the records of a project's
      Memory, times in RFC 3339, the catalog with its receipts, and the six
      methods, with calls that fail and processes that die.  MemoryTheory: what a
      catalog that is accepted looks like; a mutation that has been answered is
      not carried out again; a record stays and only goes from active to
      superseded to deleted; its uses are bounded across crashes.
    - TeamContract (teamcontract/contract.go, api.go), TeamStore
      (store/team_store.go) and Handoff (team/handoff.go): the records of a team,
      their validators and JSON, their files, and the four methods on handoffs.
      HandoffTheory: over all histories with failures a handoff is bound to one
      run, its artifact never changes and is announced once.  HandoffPages:
      paging shows every handoff once.  It also has two limits of the store
      that are smaller than what the contract lets in, and an interrupted binding
      that stops recovery.  Handoff ends with a team to evaluate.
    - TeamTurns (team_store.go, explorationdriver/contract.go), TeamRounds
      (team/service.go, public.go) and TeamCancel (public.go): the turns of a team
      in panel mode, every critical section of its service as a function.
      TeamSystem interleaves them in a step relation: goroutines take turns, the
      driver answers as the step chooses, requests arrive, calls fail, the process
      dies and is started again.  TeamSteps says what a section and a step
      change, for invariants by induction over [reachable].
      TeamRoundsTheory: the driver is asked to run a turn at most once.
      TeamOutcome: a participant contributes one message at most, a panel whose
      participants have settled is closed; two ways in which a failure is lost.
      TeamExamples: a panel to evaluate, and a cancellation that is overtaken.
      TeamStart (service.go, public.go) and TeamStartTheory, over all teams: a
      client's request names one team for ever, a new panel is one that TeamSystem
      starts from, a crash inside a start blocks every later one.

    ** What is not modelled

    - Reading documents and catalogs from YAML and JSON text (yaml.v3 and
      encoding/json decode them), start-up and launching: materialising an
      attempt (prompt files, the selection of memory records, outputs), goroutines, timers and the
      calls of drivers.  The transitions that follow their outcomes are modelled.
    - Locks inside a process: each guarded method is one step.  Locks between
      processes (file locks) are modelled as critical sections.
    - The loss of written data that was not synced, torn lines of a run's event
      log, and the bounds on what is read back of a file (4 MB) or a line (1 MB).
    - The times of a process that is started again: its clock begins anew, so a
      plan that is made twice has the same times.
    - Teams in session mode (session_mode.go, session_actions.go), the registration
      of drivers, the source registry, the reports of the
      application layer (RunGet, Capabilities, WorkflowExplain but for its
      layers), RPC, drivers and control plane, command line and the TypeScript clients: see the list of components. *)

From stdpp Require Export base gmap strings list sorting pretty.
From Stdlib Require Export Ascii ZArith Lia.

(** ** Results: Go's [(value, error)] pairs *)

Inductive result (E A : Type) : Type :=
| Ok (a : A)
| Err (e : E).
Arguments Ok {E A} a.
Arguments Err {E A} e.

#[global] Instance result_ret {E} : MRet (result E) := fun A a => Ok a.
#[global] Instance result_bind {E} : MBind (result E) := fun A B k m =>
  match m with Ok a => k a | Err e => Err e end.

Definition rmap_err {E F A} (f : E -> F) (m : result E A) : result F A :=
  match m with Ok a => Ok a | Err e => Err (f e) end.

Definition is_ok {E A} (m : result E A) : bool :=
  match m with Ok _ => true | Err _ => false end.

Declare Scope go_scope.
Delimit Scope go_scope with go.

(** [x ← m; k] (stdpp's bind) is "x, err := m; if err != nil { return err }; k";
    [fail_if c with e ;; k] is "if c { return e }; k". *)
Notation "'fail_if' c 'with' e ;; k" := (if c then Err e else k)
  (at level 100, c at level 99, e at level 99, k at level 200, right associativity) : go_scope.
Infix "=s" := String.eqb (at level 70) : go_scope.
Notation "a ≠s b" := (negb (String.eqb a b)) (at level 70) : go_scope.
Open Scope go_scope.

(** A Go [for _, x := range xs] loop with early return: the state [s] is what
    the loop body keeps in variables declared before the loop. *)
Fixpoint range_loop {E S A} (body : S -> A -> result E S) (s : S) (xs : list A)
    : result E S :=
  match xs with
  | [] => Ok s
  | x :: xs' => s' ← body s x; range_loop body s' xs'
  end.

(** ** Integers at their width *)

Definition wrap_int64 (z : Z) : Z := ((z + 2 ^ 63) mod 2 ^ 64 - 2 ^ 63)%Z.
Definition wrap_uint64 (z : Z) : Z := (z mod 2 ^ 64)%Z.

Lemma wrap_int64_id z : (- 2 ^ 63 <= z < 2 ^ 63)%Z -> wrap_int64 z = z.
Proof. intros Hz. unfold wrap_int64. rewrite Z.mod_small; lia. Qed.

Lemma wrap_uint64_id z : (0 <= z < 2 ^ 64)%Z -> wrap_uint64 z = z.
Proof. intros Hz. unfold wrap_uint64. rewrite Z.mod_small; lia. Qed.

(** ** Iteration over a Go map

    The order in which [range] enumerates a map is unspecified by the
    language.  A definition that ranges over a map takes an instance of this
    class; every theorem holds for every instance.  [site] names the [range]
    statement, so that two statements may enumerate one map differently. *)
Class GoRange := {
  go_range : string -> forall {A}, gmap string A -> list (string * A);
  go_range_perm : forall site A (m : gmap string A),
    go_range site m ≡ₚ map_to_list m }.

(** One enumeration that is allowed, used to evaluate concrete inputs. *)
Definition canonical_range : GoRange.
Proof.
  refine {| go_range := fun _ A m => map_to_list m |}. done.
Defined.

(** ** Characters and strings *)

Definition char_in (lo hi : N) (c : ascii) : bool :=
  (lo <=? N_of_ascii c)%N && (N_of_ascii c <=? hi)%N.
Definition is_lower (c : ascii) : bool := char_in 97 122 c.
Definition is_upper (c : ascii) : bool := char_in 65 90 c.
Definition is_digit (c : ascii) : bool := char_in 48 57 c.
Definition is_hex (c : ascii) : bool := is_digit c || char_in 97 102 c || char_in 65 70 c.
Definition is_alpha (c : ascii) : bool := is_lower c || is_upper c.
Definition one_of (s : string) (c : ascii) : bool :=
  existsb (Ascii.eqb c) (String.list_ascii_of_string s).

(** The regular expressions of the form [^F R{0,n}$] of the engine: one byte
    of class [first] followed by at most [n] bytes of class [rest]. *)
Definition match_ident (first rest : ascii -> bool) (n : nat) (s : string) : bool :=
  match String.list_ascii_of_string s with
  | [] => false
  | c :: cs => first c && forallb rest cs && (length cs <=? n)
  end.

(** [strings.TrimSpace]: removes the UTF-8 encodings of the Unicode
    White_Space characters from both ends. *)
Definition bytes (l : list N) : list ascii := map ascii_of_N l.
Definition space_encodings : list (list ascii) :=
  map bytes
    ([[9]; [10]; [11]; [12]; [13]; [32]; [194; 133]; [194; 160]; [225; 154; 128]] ++
     map (fun n => [226; 128; n]%N) [128; 129; 130; 131; 132; 133; 134; 135; 136; 137; 138; 168; 169; 175]%N ++
     [[226; 129; 159]; [227; 128; 128]])%N.

Fixpoint strip_prefix (p l : list ascii) : option (list ascii) :=
  match p, l with
  | [], _ => Some l
  | _, [] => None
  | a :: p', b :: l' => if Ascii.eqb a b then strip_prefix p' l' else None
  end.
Definition strip_one (encs : list (list ascii)) (l : list ascii) : option (list ascii) :=
  fold_right (fun e acc => match strip_prefix e l with Some r => Some r | None => acc end) None encs.
Fixpoint trim_with (encs : list (list ascii)) (fuel : nat) (l : list ascii) : list ascii :=
  match fuel with
  | O => l
  | S f => match strip_one encs l with Some r => trim_with encs f r | None => l end
  end.
Definition trim_left (l : list ascii) : list ascii := trim_with space_encodings (length l) l.
Definition trim_right (l : list ascii) : list ascii :=
  rev (trim_with (map (@rev _) space_encodings) (length l) (rev l)).
Definition trim_space (s : string) : string :=
  String.string_of_list_ascii (trim_right (trim_left (String.list_ascii_of_string s))).

(** ** Sorting: [sort.Slice], [sort.SliceStable], [sort.Strings]

    A stable insertion sort.  Go's [sort.Slice] is not stable; where the
    engine uses it the keys are distinct or equal elements are identical, so
    that the sorted permutation is unique. *)
Section Sort.
Context {A : Type} (less : A -> A -> bool).

Fixpoint insert_sorted (x : A) (l : list A) : list A :=
  match l with
  | [] => [x]
  | y :: l' => if less y x then y :: insert_sorted x l' else x :: l
  end.
Definition sort_slice (l : list A) : list A := fold_right insert_sorted [] l.

(** "not greater", the order the result is sorted for *)
Definition not_after (x y : A) : Prop := less y x = false.
End Sort.

Definition sort_strings (l : list string) : list string := sort_slice String.ltb l.

(** ** Lists *)

Definition contains_string (values : list string) (wanted : string) : bool :=
  existsb (String.eqb wanted) values.

(** The loop "seen[x]; seen[x] = true": is an element repeated? *)
Fixpoint has_dup (seen : list string) (l : list string) : bool :=
  match l with
  | [] => false
  | x :: l' => contains_string seen x || has_dup (x :: seen) l'
  end.

(** ** Lemmas and automation *)

Create HintDb fishyume discriminated.

(** Decide the boolean tests of the hypotheses and the goal into
    propositions.  [go_simpl] is the workhorse of the development. *)
Ltac bool_props :=
  repeat match goal with
  | H : _ && _ = true |- _ => apply andb_true_iff in H; destruct H
  | H : _ && _ = false |- _ => apply andb_false_iff in H
  | H : _ || _ = false |- _ => apply orb_false_iff in H; destruct H
  | H : _ || _ = true |- _ => apply orb_true_iff in H
  | H : negb _ = true |- _ => apply negb_true_iff in H
  | H : negb _ = false |- _ => apply negb_false_iff in H
  | H : String.eqb _ _ = true |- _ => apply String.eqb_eq in H
  | H : String.eqb _ _ = false |- _ => apply String.eqb_neq in H
  | H : Nat.leb _ _ = true |- _ => apply Nat.leb_le in H
  | H : Nat.leb _ _ = false |- _ => apply Nat.leb_gt in H
  | H : Nat.ltb _ _ = true |- _ => apply Nat.ltb_lt in H
  | H : Nat.ltb _ _ = false |- _ => apply Nat.ltb_ge in H
  | H : Nat.eqb _ _ = true |- _ => apply Nat.eqb_eq in H
  | H : Nat.eqb _ _ = false |- _ => apply Nat.eqb_neq in H
  | H : Z.leb _ _ = true |- _ => apply Z.leb_le in H
  | H : Z.leb _ _ = false |- _ => apply Z.leb_gt in H
  | H : Z.ltb _ _ = true |- _ => apply Z.ltb_lt in H
  | H : Z.ltb _ _ = false |- _ => apply Z.ltb_ge in H
  | H : Z.eqb _ _ = true |- _ => apply Z.eqb_eq in H
  | H : Z.eqb _ _ = false |- _ => apply Z.eqb_neq in H
  | H : bool_decide _ = true |- _ => apply bool_decide_eq_true in H
  | H : bool_decide _ = false |- _ => apply bool_decide_eq_false in H
  end.

(** One step of symbolic execution of a Go function in hypothesis [H]: decide
    the next guard or open the next call, keeping an equation for it. *)
Ltac go_step H :=
  match type of H with
  | Ok _ = Ok _ => injection H as H; try subst
  | Ok _ = Err _ => discriminate H
  | Err _ = Ok _ => discriminate H
  | Some _ = Some _ => injection H as H; subst
  | None = Some _ => discriminate H
  | Some _ = None => discriminate H
  | (if ?c then _ else _) = _ => let E := fresh "G" in destruct c eqn:E
  | match ?m with _ => _ end = _ => let E := fresh "G" in destruct m eqn:E
  | mbind _ ?m = _ =>
      unfold mbind at 1, result_bind at 1 in H; cbv beta iota in H
  | mret _ = _ => unfold mret, result_ret in H
  end.
Ltac go_run H := repeat go_step H.

Section RangeLoop.
Context {E S A : Type} (body : S -> A -> result E S).

(** The invariant rule for a loop that runs to its end. *)
Lemma range_loop_inv (P : S -> list A -> Prop) s xs s' :
  (forall s x xs s', P s (x :: xs) -> body s x = Ok s' -> P s' xs) ->
  P s xs -> range_loop body s xs = Ok s' -> P s' [].
Proof.
  intros Hstep. revert s. induction xs as [|x xs IH]; intros s HP Hrun; simpl in Hrun.
  - go_run Hrun. done.
  - go_run Hrun. eapply IH; eauto.
Qed.

Lemma range_loop_app s xs ys :
  range_loop body s (xs ++ ys) = (s' ← range_loop body s xs; range_loop body s' ys).
Proof.
  revert s. induction xs as [|x xs IH]; intros s; simpl; [done|].
  destruct (body s x); simpl; [apply IH|done].
Qed.
End RangeLoop.

(** A loop whose body can only fail in one way. *)
Lemma range_loop_const_err {E S A} (body : S -> A -> result E S) s xs e :
  (forall s x, (exists s', body s x = Ok s') \/ body s x = Err e) ->
  (exists s', range_loop body s xs = Ok s') \/ range_loop body s xs = Err e.
Proof.
  intros Hbody. revert s. induction xs as [|x xs IH]; intros s; simpl; [eauto|].
  destruct (Hbody s x) as [[s' ->]| ->]; simpl; [apply IH|by right].
Qed.

(** A loop without state is a conjunction of its bodies. *)
Lemma range_loop_unit {E A} (body : A -> result E unit) xs :
  range_loop (fun _ x => body x) tt xs = Ok tt <-> Forall (fun x => body x = Ok tt) xs.
Proof.
  induction xs as [|x xs IH]; simpl; [by split|].
  rewrite Forall_cons, <-IH. unfold mbind, result_bind. destruct (body x) as [[]|]; intuition congruence.
Qed.

Section SortFacts.
Context {A : Type} (less : A -> A -> bool).

Lemma insert_sorted_perm x l : insert_sorted less x l ≡ₚ x :: l.
Proof.
  induction l as [|y l IH]; simpl; [done|].
  destruct (less y x); [|done]. rewrite IH. apply Permutation_swap.
Qed.

Lemma sort_slice_perm l : sort_slice less l ≡ₚ l.
Proof.
  induction l as [|x l IH]; simpl; [done|]. by rewrite insert_sorted_perm, IH.
Qed.

Lemma sort_slice_elem x l : x ∈ sort_slice less l <-> x ∈ l.
Proof. by rewrite sort_slice_perm. Qed.

Lemma sort_slice_length l : length (sort_slice less l) = length l.
Proof. apply Permutation_length, sort_slice_perm. Qed.

Hypothesis less_asym : forall x y, less x y = true -> less y x = false.
Hypothesis less_ntrans : forall x y z,
  not_after less x y -> not_after less y z -> not_after less x z.

Lemma insert_sorted_sorted x l :
  StronglySorted (not_after less) l -> StronglySorted (not_after less) (insert_sorted less x l).
Proof.
  induction 1 as [|y l Hs IH Hall]; simpl; [by repeat constructor|].
  destruct (less y x) eqn:Hyx.
  - constructor; [done|]. rewrite insert_sorted_perm. constructor; [|done].
    by apply less_asym.
  - constructor; [by constructor|]. constructor; [done|].
    eapply Forall_impl; [exact Hall|]. intros z Hz. by eapply less_ntrans.
Qed.

Lemma sort_slice_sorted l : StronglySorted (not_after less) (sort_slice less l).
Proof. induction l; simpl; [constructor|]. by apply insert_sorted_sorted. Qed.

(** The first element of the sorted list is a least element. *)
Lemma sort_slice_head l x xs y :
  sort_slice less l = x :: xs -> y ∈ l -> y = x \/ not_after less x y.
Proof.
  intros Heq Hy. pose proof (sort_slice_sorted l) as Hs. rewrite Heq in Hs.
  apply sort_slice_elem in Hy. rewrite Heq in Hy.
  inversion Hs as [|? ? _ Hall]; subst. apply elem_of_cons in Hy as [->|Hy]; [by left|].
  right. rewrite Forall_forall in Hall. by apply Hall.
Qed.
End SortFacts.

(** *** The byte order on strings *)

Lemma string_ltb_irrefl s : String.ltb s s = false.
Proof.
  destruct (String.ltb s s) eqn:E; [|done]. unfold String.ltb in E.
  pose proof (String.compare_antisym s s) as Ha. by destruct (String.compare s s).
Qed.

Lemma string_not_ltb s t : String.ltb s t = false <-> String.le t s.
Proof.
  unfold String.ltb, String.le, String.leb. rewrite (String.compare_antisym s t).
  destruct (String.compare t s); simpl; naive_solver.
Qed.

Lemma string_ltb_asym s t : String.ltb s t = true -> String.ltb t s = false.
Proof.
  unfold String.ltb. rewrite (String.compare_antisym s t).
  destruct (String.compare t s); simpl; naive_solver.
Qed.

Lemma string_ltb_total s t : s <> t -> String.ltb s t = false -> String.ltb t s = true.
Proof.
  intros Hne Hlt. destruct (String.ltb t s) eqn:E; [done|]. exfalso. apply Hne.
  apply (anti_symm String.le); by apply string_not_ltb.
Qed.

Lemma string_ltb_ntrans s t u :
  not_after String.ltb s t -> not_after String.ltb t u -> not_after String.ltb s u.
Proof. unfold not_after. rewrite !string_not_ltb. intros. by etrans. Qed.

Lemma sort_strings_sorted l : StronglySorted String.le (sort_strings l).
Proof.
  pose proof (sort_slice_sorted _ string_ltb_asym string_ltb_ntrans l) as Hs.
  unfold sort_strings. induction Hs as [|x xs Hs IH Hall]; constructor; [done|].
  eapply Forall_impl; [exact Hall|]. intros y Hy. by apply string_not_ltb.
Qed.

Lemma sort_strings_perm l : sort_strings l ≡ₚ l.
Proof. apply sort_slice_perm. Qed.

(** Sorting forgets the order of its argument: this is what makes the
    engine's "collect from a map, then sort" idiom deterministic. *)
Lemma sort_strings_proper : Proper ((≡ₚ) ==> (=)) sort_strings.
Proof.
  intros l1 l2 Hl. apply (StronglySorted_unique String.le).
  - apply sort_strings_sorted.
  - apply sort_strings_sorted.
  - by rewrite !sort_strings_perm.
Qed.
#[export] Existing Instance sort_strings_proper.

Lemma sort_strings_id l : StronglySorted String.le l -> sort_strings l = l.
Proof.
  intros Hl. apply (StronglySorted_unique String.le);
    [apply sort_strings_sorted|done|apply sort_strings_perm].
Qed.

(** *** Membership tests *)

Lemma contains_string_spec l x : contains_string l x = true <-> x ∈ l.
Proof.
  unfold contains_string. rewrite existsb_exists. setoid_rewrite String.eqb_eq.
  setoid_rewrite <-list_elem_of_In. naive_solver.
Qed.

Lemma has_dup_spec seen l :
  has_dup seen l = false <-> NoDup l /\ (forall x, x ∈ l -> x ∉ seen).
Proof.
  revert seen. induction l as [|x l IH]; intros seen; simpl.
  - split; [|done]. split; [constructor|]. set_solver.
  - rewrite orb_false_iff, IH, NoDup_cons, <-not_true_iff_false, contains_string_spec. set_solver.
Qed.

Lemma NoDup_map_inj {A B} (f : A -> B) (l : list A) x y :
  NoDup (map f l) -> x ∈ l -> y ∈ l -> f x = f y -> x = y.
Proof.
  induction l as [|z l IH]; [set_solver|]. simpl. rewrite NoDup_cons, list_elem_of_fmap.
  intros [Hz Hnd] [->|Hx]%elem_of_cons [->|Hy]%elem_of_cons Heq; [done| | |by apply IH].
  - exfalso. apply Hz. eauto.
  - exfalso. apply Hz. eauto.
Qed.

Lemma has_dup_NoDup l : has_dup [] l = false -> NoDup l.
Proof. by intros [? _]%has_dup_spec. Qed.

(** *** Ranging over a map *)

Lemma go_range_elem `{GoRange} site {A} (m : gmap string A) k v :
  (k, v) ∈ go_range site m <-> m !! k = Some v.
Proof. rewrite go_range_perm. apply elem_of_map_to_list. Qed.

Lemma go_range_NoDup `{GoRange} site {A} (m : gmap string A) : NoDup (go_range site m).*1.
Proof. rewrite go_range_perm. apply NoDup_fst_map_to_list. Qed.

Lemma go_range_length `{GoRange} site {A} (m : gmap string A) :
  length (go_range site m) = size m.
Proof. rewrite go_range_perm. apply length_map_to_list. Qed.

(** A stateless check of every entry succeeds in every enumeration order or
    in none. *)
Lemma go_range_check `{GoRange} {E A} site (m : gmap string A) (body : string * A -> result E unit) :
  range_loop (fun _ kv => body kv) tt (go_range site m) = Ok tt <->
  map_Forall (fun k v => body (k, v) = Ok tt) m.
Proof.
  rewrite range_loop_unit, go_range_perm, map_Forall_to_list.
  apply Forall_proper; [|done]. intros [k v]. done.
Qed.

(** [len(s)] of a Go string and [len(xs)] of a slice *)
Definition len (s : string) : Z := Z.of_nat (String.length s).
Definition len_slice {A} (l : list A) : Z := Z.of_nat (length l).

(** Set membership as a Go "seen" map test *)
Definition seen_in (x : string) (seen : gset string) : bool := bool_decide (x ∈ seen).

(** ** The two "seen" loops of the engine's validators *)

Lemma is_ok_unit {E} (m : result E unit) : is_ok m = true <-> m = Ok tt.
Proof. destruct m as [[]|]; simpl; split; congruence. Qed.

Lemma is_ok_Ok {E A} (m : result E A) : is_ok m = true <-> exists a, m = Ok a.
Proof. destruct m as [a|]; simpl; split; [eauto|done|done|by intros [? ?]]. Qed.

Lemma is_ok_bind_unit {E A} (m : result E A) :
  (_ ← m; Ok tt) = Ok tt <-> is_ok m = true.
Proof. destruct m; simpl; split; congruence. Qed.

Lemma bind_ok {E A B} (m : result E A) (k : A -> result E B) b :
  (x ← m; k x) = Ok b <-> exists a, m = Ok a /\ k a = Ok b.
Proof. destruct m; simpl; split; [eauto|by intros (?&[= ->]&?)|done|by intros (?&?&?)]. Qed.

Lemma bind_unit_ok {E B} (m : result E unit) (k : result E B) b :
  (_ ← m; k) = Ok b <-> m = Ok tt /\ k = Ok b.
Proof. rewrite bind_ok. split; [intros ([]&?&?); done|intros [? ?]; by exists tt]. Qed.

Lemma bind_any_ok {E A B} (m : result E A) (k : result E B) b :
  (_ ← m; k) = Ok b <-> is_ok m = true /\ k = Ok b.
Proof. destruct m; simpl; intuition congruence. Qed.

Lemma fail_if_ok {E A} (c : bool) (e : E) (k : result E A) a :
  (fail_if c with e ;; k) = Ok a <-> c = false /\ k = Ok a.
Proof. destruct c; split; [done|by intros [? _]|done|by intros [_ ?]]. Qed.

(** Strictly ascending in the byte order *)
Definition strictly_sorted (l : list string) : Prop :=
  StronglySorted (fun a b => String.ltb a b = true) l.

Lemma string_leb_false s t : String.leb s t = false <-> String.ltb t s = true.
Proof.
  unfold String.leb, String.ltb. rewrite (String.compare_antisym s t).
  destruct (String.compare t s); simpl; intuition congruence.
Qed.

Lemma string_ltb_trans s t u :
  String.ltb s t = true -> String.ltb t u = true -> String.ltb s u = true.
Proof.
  rewrite <-!string_leb_false. intros H1 H2.
  destruct (String.leb u s) eqn:E; [|done]. exfalso.
  assert (String.le s t) as Hst.
  { destruct (String.leb_total s t) as [Ht|Ht]; [by unfold String.le; rewrite Ht|congruence]. }
  assert (String.le u t) as Hut by (transitivity s; [by unfold String.le; rewrite E|done]).
  unfold String.le in Hut. by rewrite H2 in Hut.
Qed.

Lemma strictly_sorted_cons2 x y l :
  strictly_sorted (x :: y :: l) <-> String.ltb x y = true /\ strictly_sorted (y :: l).
Proof.
  unfold strictly_sorted. rewrite StronglySorted_cons, Forall_cons. split; [naive_solver|].
  intros [Hxy Hs]. split; [|done]. split; [done|].
  apply StronglySorted_cons in Hs as [Hall _]. eapply Forall_impl; [exact Hall|].
  intros z. by apply string_ltb_trans.
Qed.

Lemma strictly_sorted_le l : strictly_sorted l -> StronglySorted String.le l.
Proof.
  unfold strictly_sorted. induction 1 as [|x l Hs IH Hall]; constructor; [done|].
  eapply Forall_impl; [exact Hall|]. simpl. intros y Hy%string_ltb_asym. by apply string_not_ltb.
Qed.

Lemma strictly_sorted_NoDup l : strictly_sorted l -> NoDup l.
Proof.
  unfold strictly_sorted. induction 1 as [|x l Hs IH Hall]; constructor; [|done].
  intros Hin. rewrite Forall_forall in Hall. specialize (Hall x Hin).
  by rewrite string_ltb_irrefl in Hall.
Qed.

Section SeenLoop.
Context {E A : Type} (key : A -> string) (P : A -> Prop).

Lemma seen_loop_ok (body : gset string -> A -> result E (gset string)) seen xs :
  (forall seen x s', body seen x = Ok s' <-> P x /\ key x ∉ seen /\ s' = {[key x]} ∪ seen) ->
  is_ok (range_loop body seen xs) = true <->
  Forall P xs /\ NoDup (map key xs) /\ Forall (fun x => key x ∉ seen) xs.
Proof.
  intros Hbody. revert seen. induction xs as [|x xs IH]; intros seen; simpl.
  - split; [|done]. intros _. repeat constructor.
  - rewrite !Forall_cons, NoDup_cons, is_ok_Ok. setoid_rewrite bind_ok.
    setoid_rewrite Hbody. rewrite list_elem_of_fmap. split.
    + intros (a & s & (HP & Hk & ->) & Hr).
      assert (is_ok (range_loop body ({[key x]} ∪ seen) xs) = true) as Hok by (apply is_ok_Ok; eauto).
      apply IH in Hok as (HPs & Hnd & Hall). rewrite Forall_forall in Hall.
      repeat split; try done.
      * intros (y & Hy & Hin). apply (Hall y Hin). rewrite <-Hy. set_solver.
      * rewrite Forall_forall. intros y Hy. specialize (Hall y Hy). set_solver.
    + intros ([HP HPs] & [Hni Hnd] & [Hk Hall]).
      assert (is_ok (range_loop body ({[key x]} ∪ seen) xs) = true) as Hok.
      { apply IH. split; [done|]. split; [done|]. rewrite Forall_forall in Hall |- *.
        intros y Hy. specialize (Hall y Hy). rewrite not_elem_of_union, not_elem_of_singleton.
        split; [|done]. intros Heq. apply Hni. by exists y. }
      apply is_ok_Ok in Hok as [a Ha]. by exists a, ({[key x]} ∪ seen).
Qed.

Lemma ordered_loop_from (body : gset string * string -> A -> result E (gset string * string)) seen last xs :
  (forall x, P x -> key x <> "") ->
  (forall seen last x s', body (seen, last) x = Ok s' <->
     P x /\ key x ∉ seen /\ (last = "" \/ String.leb (key x) last = false) /\
     s' = ({[key x]} ∪ seen, key x)) ->
  last <> "" -> (forall y, y ∈ seen -> String.le y last) ->
  is_ok (range_loop body (seen, last) xs) = true <->
  Forall P xs /\ strictly_sorted (last :: map key xs).
Proof.
  intros Hne Hbody. revert seen last. induction xs as [|x xs IH]; intros seen last Hl Hseen; simpl.
  - split; [|done]. intros _. by repeat constructor.
  - rewrite is_ok_Ok. setoid_rewrite bind_ok. setoid_rewrite Hbody.
    assert (forall y, y ∈ {[key x]} ∪ seen -> String.leb (key x) last = false -> String.le y (key x)) as Hs.
    { intros y Hy Hlt. apply elem_of_union in Hy as [->%elem_of_singleton|Hy]; [done|].
      transitivity last; [by apply Hseen|]. destruct (String.leb_total last (key x)) as [Ht|Ht]; [by unfold String.le; rewrite Ht|].
      congruence. }
    rewrite strictly_sorted_cons2, Forall_cons. split.
    + intros (a & s & (HP & Hk & Hlt & ->) & Hr).
      assert (String.leb (key x) last = false) as Hlt' by (by destruct Hlt).
      destruct (IH ({[key x]} ∪ seen) (key x)) as [IH1 _]; [by apply Hne|eauto|].
      destruct IH1 as [HPs Hss]; [apply is_ok_Ok; eauto|].
      apply string_leb_false in Hlt'. done.
    + intros ([HP HPs] & Hlt & Hss). apply string_leb_false in Hlt.
      destruct (IH ({[key x]} ∪ seen) (key x)) as [_ IH2]; [by apply Hne|eauto|].
      destruct (proj1 (is_ok_Ok _) (IH2 (conj HPs Hss))) as [a Ha].
      exists a, ({[key x]} ∪ seen, key x). split; [|done]. repeat split; [done| |by right].
      intros Hin%Hseen. unfold String.le in Hin. by rewrite Hlt in Hin.
Qed.

Lemma ordered_loop_ok (body : gset string * string -> A -> result E (gset string * string)) xs :
  (forall x, P x -> key x <> "") ->
  (forall seen last x s', body (seen, last) x = Ok s' <->
     P x /\ key x ∉ seen /\ (last = "" \/ String.leb (key x) last = false) /\
     s' = ({[key x]} ∪ seen, key x)) ->
  is_ok (range_loop body (∅, "") xs) = true <-> Forall P xs /\ strictly_sorted (map key xs).
Proof.
  intros Hne Hbody. destruct xs as [|x xs]; simpl.
  { split; [|done]. intros _. repeat constructor. }
  rewrite is_ok_Ok. setoid_rewrite bind_ok. setoid_rewrite Hbody. rewrite Forall_cons.
  split.
  - intros (a & s & (HP & Hk & Hlt & ->) & Hr).
    destruct (ordered_loop_from body ({[key x]} ∪ ∅) (key x) xs) as [H1 _]; [done..|by apply Hne|set_solver|].
    destruct H1 as [HPs Hss]; [apply is_ok_Ok; eauto|]. done.
  - intros ([HP HPs] & Hss).
    destruct (ordered_loop_from body ({[key x]} ∪ ∅) (key x) xs) as [_ H2]; [done..|by apply Hne|set_solver|].
    destruct (proj1 (is_ok_Ok _) (H2 (conj HPs Hss))) as [a Ha].
    exists a, ({[key x]} ∪ ∅, key x). split; [|done]. repeat split; [done|set_solver|by left].
Qed.
End SeenLoop.
