(* ===== verification/GoText.v ===== *)
(** * The text routines of Go's standard library that the engine uses

    strings.Split and strings.Join at a one-byte separator, strings.ToLower
    on ASCII, the UTF-8 validity test of unicode/utf8, and the encoding/json
    encoder on strings, numbers, string slices and flat objects. *)

From S2P Require Import Prelude.
#[local] Open Scope string_scope.
#[local] Open Scope list_scope.

Notation to_list := String.list_ascii_of_string.
Notation of_list := String.string_of_list_ascii.

(** ** Splitting and joining *)

Fixpoint split_list (sep : ascii) (l : list ascii) : list (list ascii) :=
  match l with
  | [] => [[]]
  | c :: l' =>
      if Ascii.eqb c sep then [] :: split_list sep l'
      else match split_list sep l' with
           | [] => [[c]]
           | w :: ws => (c :: w) :: ws
           end
  end.
Definition split_on (sep : ascii) (s : string) : list string := map of_list (split_list sep (to_list s)).

Fixpoint join (sep : string) (l : list string) : string :=
  match l with
  | [] => ""
  | [s] => s
  | s :: l' => s +:+ sep +:+ join sep l'
  end.

(** strings.ToLower, on the ASCII words the engine compares with *)
Definition lower_char (c : ascii) : ascii :=
  if is_upper c then ascii_of_N (N_of_ascii c + 32) else c.
Definition to_lower (s : string) : string := of_list (map lower_char (to_list s)).

(** ** UTF-8 *)

Definition cont (c : ascii) : bool := char_in 128 191 c.

(** The length of the valid UTF-8 sequence at the head of the list, [None]
    when the head is not one (Go's RuneError of width 1). *)
Definition utf8_width (l : list ascii) : option nat :=
  match l with
  | [] => None
  | a :: l =>
      let n := N_of_ascii a in
      if (n <? 128)%N then Some 1
      else match l with
      | [] => None
      | b :: l =>
          let m := N_of_ascii b in
          if (194 <=? n)%N && (n <=? 223)%N then if cont b then Some 2 else None
          else match l with
          | [] => None
          | c :: l =>
              let lo := (if (n =? 224)%N then 160 else 128)%N in
              let hi := (if (n =? 237)%N then 159 else 191)%N in
              if (224 <=? n)%N && (n <=? 239)%N
              then if char_in lo hi b && cont c then Some 3 else None
              else match l with
              | [] => None
              | d :: _ =>
                  let lo := (if (n =? 240)%N then 144 else 128)%N in
                  let hi := (if (n =? 244)%N then 143 else 191)%N in
                  if (240 <=? n)%N && (n <=? 244)%N && char_in lo hi b && cont c && cont d
                  then Some 4 else None
              end
          end
      end
  end.

(** utf8.ValidString: [skip] counts the bytes of the current sequence that
    are still to be passed over. *)
Fixpoint valid_utf8_from (skip : nat) (l : list ascii) : bool :=
  match l with
  | [] => true
  | _ :: l' =>
      match skip with
      | S k => valid_utf8_from k l'
      | O => match utf8_width l with
             | Some w => valid_utf8_from (w - 1) l'
             | None => false
             end
      end
  end.
Definition valid_utf8 (s : string) : bool := valid_utf8_from 0 (to_list s).

(** ** encoding/json *)

Definition hex_digit (n : N) : ascii :=
  if (n <? 10)%N then ascii_of_N (48 + n) else ascii_of_N (87 + n).
Definition ch (n : N) : ascii := ascii_of_N n.
Definition backslash := ch 92.
Definition quote := ch 34.

(** One ASCII byte of a JSON string; [html] is the encoder's HTML escaping. *)
Definition json_escape (html : bool) (c : ascii) : list ascii :=
  let n := N_of_ascii c in
  if (n =? 92)%N || (n =? 34)%N then [backslash; c]
  else if (n =? 8)%N then [backslash; "b"%char]
  else if (n =? 12)%N then [backslash; "f"%char]
  else if (n =? 10)%N then [backslash; "n"%char]
  else if (n =? 13)%N then [backslash; "r"%char]
  else if (n =? 9)%N then [backslash; "t"%char]
  else if (n <? 32)%N || html && ((n =? 60)%N || (n =? 62)%N || (n =? 38)%N)
  then [backslash; "u"%char; "0"%char; "0"%char; hex_digit (n / 16); hex_digit (n mod 16)]
  else [c].

Fixpoint json_chars (html : bool) (skip : nat) (l : list ascii) : list ascii :=
  match l with
  | [] => []
  | c :: l' =>
      match skip with
      | S k => json_chars html k l'
      | O =>
          match utf8_width l with
          | None => backslash :: to_list "ufffd" ++ json_chars html 0 l'
          | Some 1 => json_escape html c ++ json_chars html 0 l'
          | Some w =>
              let seq := take w l in
              (if bool_decide (seq = bytes [226; 128; 168]%N) then backslash :: to_list "u2028"
               else if bool_decide (seq = bytes [226; 128; 169]%N) then backslash :: to_list "u2029"
               else seq) ++ json_chars html (w - 1) l'
          end
      end
  end.
Definition json_string_with (html : bool) (s : string) : string :=
  of_list (quote :: json_chars html 0 (to_list s) ++ [quote]).
Definition json_string (s : string) : string := json_string_with true s.

Definition json_bool (b : bool) : string := if b then "true" else "false".
Definition json_array (elements : list string) : string := "[" +:+ join "," elements +:+ "]".

(** A nil slice is encoded as null. *)
Definition json_strings (o : option (list string)) : string :=
  match o with None => "null" | Some l => json_array (map json_string l) end.
Definition json_object (fields : list (string * string)) : string :=
  "{" +:+ join "," (map (fun '(k, v) => json_string k +:+ ":" +:+ v) fields) +:+ "}".

(** [%q] of fmt, for text without characters to escape *)
Definition quoted (s : string) : string := of_list (quote :: to_list s ++ [quote]).

(** Valid JSON number literals (encoding/json isValidNumber) *)
Fixpoint digits (l : list ascii) : list ascii :=
  match l with c :: l' => if is_digit c then digits l' else l | [] => [] end.
Definition digits1 (l : list ascii) : option (list ascii) :=
  match l with c :: l' => if is_digit c then Some (digits l') else None | [] => None end.
Definition number_int (l : list ascii) : option (list ascii) :=
  match l with
  | c :: l' => if Ascii.eqb c "0" then Some l' else digits1 l
  | [] => None
  end.
Definition number_frac (l : list ascii) : option (list ascii) :=
  match l with c :: l' => if Ascii.eqb c "." then digits1 l' else Some l | [] => Some [] end.
Definition number_exp (l : list ascii) : option (list ascii) :=
  match l with
  | c :: l' =>
      if Ascii.eqb c "e" || Ascii.eqb c "E"
      then match l' with
           | s :: l'' => if Ascii.eqb s "+" || Ascii.eqb s "-" then digits1 l'' else digits1 l'
           | [] => None
           end
      else Some l
  | [] => Some []
  end.
Definition valid_number (s : string) : bool :=
  let l := to_list s in
  let l := match l with c :: l' => if Ascii.eqb c "-" then l' else l | [] => l end in
  match (l ← number_int l; l ← number_frac l; number_exp l) with
  | Some [] => true
  | _ => false
  end.

(** ** Facts *)

Lemma split_list_nonempty sep l : split_list sep l <> [].
Proof. induction l as [|c l IH]; simpl; [done|]. destruct (Ascii.eqb c sep); [done|]. by destruct (split_list sep l). Qed.

Lemma split_list_no_sep sep l : Forall (fun c => Ascii.eqb c sep = false) l -> split_list sep l = [l].
Proof. induction 1 as [|c l Hc _ IH]; simpl; [done|]. by rewrite Hc, IH. Qed.

Lemma split_list_app sep l1 l2 :
  Forall (fun c => Ascii.eqb c sep = false) l1 ->
  split_list sep (l1 ++ sep :: l2) = l1 :: split_list sep l2.
Proof.
  induction 1 as [|c l Hc _ IH]; simpl; [by rewrite Ascii.eqb_refl|]. by rewrite Hc, IH.
Qed.

Lemma of_to_list s : of_list (to_list s) = s.
Proof. apply String.string_of_list_ascii_of_string. Qed.
Lemma to_of_list l : to_list (of_list l) = l.
Proof. apply String.list_ascii_of_string_of_list_ascii. Qed.
Lemma len_of_list l : len (of_list l) = Z.of_nat (length l).
Proof. unfold len. induction l as [|c l IH]; [done|]. cbn [of_list String.length length]. lia. Qed.
Lemma len_to_list s : len s = Z.of_nat (length (to_list s)).
Proof. by rewrite <-len_of_list, of_to_list. Qed.

Lemma to_list_app s t : to_list (s +:+ t) = to_list s ++ to_list t.
Proof. induction s as [|c s IH]; simpl; [done|]. by rewrite IH. Qed.
