(* ===== verification/Json.v ===== *)
(** * encoding/json: validity and decoding into map[string]any

    json.Valid and the success of json.Unmarshal into a map, on bytes.  The
    recursion runs on fuel; the length of the input is enough, since every
    call passes over a byte ([json_fuel]). *)

From S2P Require Import Prelude GoText.
#[local] Open Scope string_scope.
#[local] Open Scope list_scope.
#[local] Open Scope Z_scope.

Definition json_space (c : ascii) : bool := one_of (of_list (bytes [9; 10; 13; 32]%N)) c.
Fixpoint skip_space (l : list ascii) : list ascii :=
  match l with c :: l' => if json_space c then skip_space l' else l | [] => [] end.

(** The rest of a string literal, after its opening quote *)
Fixpoint string_rest (l : list ascii) : option (list ascii) :=
  match l with
  | [] => None
  | c :: l' =>
      if Ascii.eqb c quote then Some l'
      else if Ascii.eqb c backslash then
        match l' with
        | e :: l'' =>
            if Ascii.eqb e "u" then
              match l'' with
              | a :: b :: c :: d :: r =>
                  if is_hex a && is_hex b && is_hex c && is_hex d then string_rest r else None
              | _ => None
              end
            else if Ascii.eqb e quote || Ascii.eqb e backslash || one_of "/bfnrt" e then string_rest l''
            else None
        | [] => None
        end
      else if (N_of_ascii c <? 32)%N then None
      else string_rest l'
  end.

(** *** Numbers that do not fit a float64 *)

Definition decimal (l : list ascii) : Z :=
  foldl (fun acc c => acc * 10 + (Z.of_N (N_of_ascii c) - 48)) 0 l.
Definition run_of_digits (l : list ascii) : list ascii := take (length l - length (digits l)) l.

(** The literal as mantissa * 10 ^ exponent *)
Definition literal_value (l : list ascii) : Z * Z :=
  let l := match l with c :: l' => if Ascii.eqb c "-" then l' else l | [] => [] end in
  let whole := run_of_digits l in
  let l := drop (length whole) l in
  let '(fraction, l) :=
    match l with
    | c :: l' => if Ascii.eqb c "." then (run_of_digits l', drop (length (run_of_digits l')) l') else ([], l)
    | [] => ([], [])
    end in
  let exponent :=
    match l with
    | _ :: s :: l' =>
        if Ascii.eqb s "-" then - decimal l' else if Ascii.eqb s "+" then decimal l' else decimal (s :: l')
    | _ => 0
    end in
  (decimal (whole ++ fraction), exponent - Z.of_nat (length fraction)).

(** Rounding to the nearest float64 overflows from 2^1024 - 2^970 on.  The
    first two cases decide it by the number of digits alone. *)
Definition overflows (l : list ascii) : bool :=
  let '(mantissa, exponent) := literal_value l in
  let size := Z.log2 mantissa + 1 in (* bits *)
  if mantissa =? 0 then false
  else if 310 <? exponent then true
  else if exponent <? - (size + 1) then false
  else if 0 <=? exponent then (2 ^ 1024 - 2 ^ 970 <=? mantissa * 10 ^ exponent)
  else ((2 ^ 1024 - 2 ^ 970) * 10 ^ (- exponent) <=? mantissa).

Definition number_rest (l : list ascii) : option (list ascii) :=
  let l := match l with c :: l' => if Ascii.eqb c "-" then l' else l | [] => l end in
  l ← number_int l; l ← number_frac l; number_exp l.

Definition maxNestingDepth := 10000.

(** [decode]: are the numbers decoded into float64?  The result is what
    follows the value. *)
Fixpoint value (decode : bool) (fuel : nat) (depth : Z) (l : list ascii) : option (list ascii) :=
  match fuel with
  | O => None
  | S fuel =>
      match skip_space l with
      | [] => None
      | c :: r =>
          if Ascii.eqb c "{" then
            if maxNestingDepth <? depth + 1 then None else
            match skip_space r with
            | d :: r' => if Ascii.eqb d "}" then Some r' else members decode fuel (depth + 1) r
            | [] => None
            end
          else if Ascii.eqb c "[" then
            if maxNestingDepth <? depth + 1 then None else
            match skip_space r with
            | d :: r' => if Ascii.eqb d "]" then Some r' else elements decode fuel (depth + 1) r
            | [] => None
            end
          else if Ascii.eqb c quote then string_rest r
          else if Ascii.eqb c "t" then strip_prefix (to_list "rue") r
          else if Ascii.eqb c "f" then strip_prefix (to_list "alse") r
          else if Ascii.eqb c "n" then strip_prefix (to_list "ull") r
          else
            r' ← number_rest (c :: r);
            if decode && overflows (take (length (c :: r) - length r') (c :: r)) then None else Some r'
      end
  end
with members (decode : bool) (fuel : nat) (depth : Z) (l : list ascii) : option (list ascii) :=
  match fuel with
  | O => None
  | S fuel =>
      l ← strip_prefix [quote] (skip_space l);
      l ← string_rest l;
      l ← strip_prefix [":"%char] (skip_space l);
      l ← value decode fuel depth l;
      match skip_space l with
      | c :: r =>
          if Ascii.eqb c "," then members decode fuel depth r
          else if Ascii.eqb c "}" then Some r else None
      | [] => None
      end
  end
with elements (decode : bool) (fuel : nat) (depth : Z) (l : list ascii) : option (list ascii) :=
  match fuel with
  | O => None
  | S fuel =>
      l ← value decode fuel depth l;
      match skip_space l with
      | c :: r =>
          if Ascii.eqb c "," then elements decode fuel depth r
          else if Ascii.eqb c "]" then Some r else None
      | [] => None
      end
  end.

Definition json_fuel (l : list ascii) : nat := S (length l).

Definition json_accepts (decode : bool) (s : string) : bool :=
  match value decode (json_fuel (to_list s)) 0 (to_list s) with
  | Some rest => match skip_space rest with [] => true | _ => false end
  | None => false
  end.

(** json.Valid *)
Definition json_valid (s : string) : bool := json_accepts false s.

(** json.Unmarshal into a [map[string]any] succeeds and the map is not nil *)
Definition json_decodes_object (s : string) : bool :=
  json_accepts true s &&
  match skip_space (to_list s) with c :: _ => Ascii.eqb c "{" | [] => false end.

Example object_decodes : json_decodes_object ("{ " +:+ quoted "pid" +:+ " : [1.5e3, -0, null, {}] }") = true.
Proof. vm_compute. reflexivity. Qed.
Example array_rejected : json_decodes_object "[1]" = false /\ json_valid "[1]" = true.
Proof. vm_compute. split; reflexivity. Qed.
Example overflow_rejected :
  json_decodes_object ("{" +:+ quoted "n" +:+ ":1e309}") = false /\ json_valid ("{" +:+ quoted "n" +:+ ":1e309}") = true.
Proof. vm_compute. split; reflexivity. Qed.

(** ** json.Compact and json.Indent

    On valid JSON, character by character: inside a string literal everything
    is kept. *)

Fixpoint json_compact (in_string escaped : bool) (l : list ascii) : list ascii :=
  match l with
  | [] => []
  | c :: l' =>
      if in_string then
        c :: (if escaped then json_compact true false l'
              else if Ascii.eqb c backslash then json_compact true true l'
              else json_compact (negb (Ascii.eqb c quote)) false l')
      else if json_space c then json_compact false false l'
      else c :: json_compact (Ascii.eqb c quote) false l'
  end.

(** A line break and [depth] times the two spaces of MarshalIndent *)
Definition json_newline (depth : nat) : list ascii :=
  bytes [10%N] ++ concat (repeat (bytes [32; 32]%N) depth).

(** The loop of appendIndent on compact text, from nesting depth [depth];
    [need] is needIndent, the flag that an object or array was just opened. *)
Fixpoint json_indent_from (in_string escaped need : bool) (depth : nat) (l : list ascii) : list ascii :=
  match l with
  | [] => []
  | c :: l' =>
      if in_string then
        c :: (if escaped then json_indent_from true false false depth l'
              else if Ascii.eqb c backslash then json_indent_from true true false depth l'
              else json_indent_from (negb (Ascii.eqb c quote)) false false depth l')
      else
        let closing := one_of "]}" c in
        let opened := need && negb closing in
        let depth := if opened then S depth else depth in
        let prefix := if opened then json_newline depth else [] in
        prefix ++
        (if one_of "{[" c then c :: json_indent_from false false true depth l'
         else if Ascii.eqb c "," then c :: json_newline depth ++ json_indent_from false false false depth l'
         else if Ascii.eqb c ":" then c :: bytes [32%N] ++ json_indent_from false false false depth l'
         else if closing then
           if need then c :: json_indent_from false false false depth l'
           else json_newline (pred depth) ++ c :: json_indent_from false false false (pred depth) l'
         else c :: json_indent_from (Ascii.eqb c quote) false false depth l')
  end.

(** The text of a json.RawMessage inside the output of MarshalIndent, at
    nesting depth [depth] *)
Definition json_indented (depth : nat) (raw : string) : string :=
  of_list (json_indent_from false false false depth (json_compact false false (to_list raw))).

Example indented_array :
  json_indented 1 "[[1], {}]" = of_list (to_list "[" ++ json_newline 2 ++ to_list "[" ++ json_newline 3 ++ to_list "1" ++
    json_newline 2 ++ to_list "]," ++ json_newline 2 ++ to_list "{}" ++ json_newline 1 ++ to_list "]").
Proof. vm_compute. reflexivity. Qed.
