(* ===== verification/Routing.v ===== *)
(** * Routing contract: vocabulary and validators (internal/routing/contract.go)

    The provider-neutral routing vocabulary (targets, capability catalogs,
    requirements, budgets, fallback policies, prompt profiles, decisions and
    usage records) and the [Validate*] functions that decide which of them
    the engine accepts, with the error each guard returns.  Go's string-typed
    enumerations stay strings, so that unknown values are representable. *)

From S2P Require Import Prelude.
#[local] Open Scope string_scope.
#[local] Open Scope list_scope.
#[local] Open Scope Z_scope.

Definition CapabilityCatalogV1Version := "fishyume.capability-catalog/v1".
Definition RoutingRequirementV1Version := "fishyume.routing-requirement/v1".
Definition RoutingDecisionV1Version := "fishyume.routing-decision/v1".
Definition RoutingUsageV1Version := "fishyume.routing-usage/v1".
Definition PromptProfileV1Version := "fishyume.prompt-profile/v1".
Definition RoutingPolicyV1Version := "fishyume.routing-policy/v1".
Definition MaxCatalogModels := 256.
Definition MaxCandidates := 32.
Definition MaxFallbacks := 8.
Definition MaxReasonCodes := 32.
Definition MaxPromptComponents := 32.
Definition MaxRoutingBudgetBytes := 16 * 1024 * 1024.
Definition MaxCostUnits := 1000000.

Definition CodeInvalidContract := "routing_invalid_contract".
Definition CodeUnsupportedVersion := "routing_unsupported_version".
Definition CodeDuplicateIdentity := "routing_duplicate_identity".
Definition CodeInvalidTarget := "routing_invalid_target".
Definition CodeInvalidCapability := "routing_invalid_capability".
Definition CodeInvalidBudget := "routing_invalid_budget".
Definition CodeInvalidFallback := "routing_invalid_fallback".
Definition CodeInvalidPromptProfile := "routing_invalid_prompt_profile".
Definition CodeCatalogHashMismatch := "routing_catalog_hash_mismatch".
Definition StableErrorCodes : list string :=
  [CodeInvalidContract; CodeUnsupportedVersion; CodeDuplicateIdentity;
   CodeInvalidTarget; CodeInvalidCapability; CodeInvalidBudget;
   CodeInvalidFallback; CodeInvalidPromptProfile; CodeCatalogHashMismatch].

Record ContractError := { Code : string; Message : string; SubjectID : string }.
Definition ContractError_Error (e : ContractError) : string :=
  if SubjectID e =s "" then Code e +:+ ": " +:+ Message e
  else Code e +:+ ": " +:+ Message e +:+ " (" +:+ SubjectID e +:+ ")".
Definition contractError (code message subject : string) : ContractError :=
  {| Code := code; Message := message; SubjectID := subject |}.

Definition CapabilityRepoRead := "repo_read".
Definition CapabilityRepoEdit := "repo_edit".
Definition CapabilityToolUse := "tool_use".
Definition CapabilityStructuredOutput := "structured_output".
Definition CapabilityStreaming := "streaming".
Definition CapabilityNeedsInput := "needs_input".
Definition StableCapabilities : list string :=
  [CapabilityRepoRead; CapabilityRepoEdit; CapabilityToolUse;
   CapabilityStructuredOutput; CapabilityStreaming; CapabilityNeedsInput].

Definition ComplexitySimple := "simple".
Definition ComplexityStandard := "standard".
Definition ComplexityComplex := "complex".
Definition QualityEconomy := "economy".
Definition QualityBalanced := "balanced".
Definition QualityPremium := "premium".
Definition CostLow := "low".
Definition CostMedium := "medium".
Definition CostHigh := "high".
Definition LatencyFast := "fast".
Definition LatencyBalanced := "balanced".
Definition LatencySlow := "slow".

Record Target := { Driver : string; Provider : string; Model : string }.
#[export] Instance Target_eq_dec : EqDecision Target.
Proof. solve_decision. Defined.

Record ModelCapabilityV1 := {
  mc_ID : string;
  mc_Target : Target;
  mc_Capabilities : list string;
  mc_ContextLimitBytes : Z;
  mc_MaxOutputBytes : Z;
  mc_Quality : string;
  mc_Cost : string;
  mc_Latency : string;
  mc_SupportsCancellation : bool }.

Record CapabilityCatalogV1 := {
  cat_SchemaVersion : string;
  cat_PolicyVersion : string;
  cat_Models : list ModelCapabilityV1 }.

Record RoutingRequirementV1 := {
  rr_SchemaVersion : string;
  rr_Capabilities : list string;
  rr_Complexity : string;
  rr_Quality : string;
  rr_Latency : string;
  rr_MaxCostUnits : Z;
  rr_MaxContextBytes : Z;
  rr_MaxOutputBytes : Z;
  rr_Candidates : list string;
  rr_PromptProfile : string;
  rr_AllowModelFallback : bool }.

Record BudgetGrantV1 := { bg_MaxCostUnits : Z; bg_ContextBytes : Z; bg_OutputBytes : Z }.

Definition FallbackNone := "none".
Definition FallbackEligible := "eligible".

Record FallbackPolicyV1 := {
  fp_Mode : string;
  fp_MaxAttempts : Z;
  fp_RequireNoSideEffect : bool;
  fp_RequireApproval : bool }.

Record PromptComponentV1 := { pc_ID : string; pc_Required : bool }.
Record PromptProfileV1 := {
  pp_SchemaVersion : string;
  pp_ID : string;
  pp_Version : string;
  pp_Components : list PromptComponentV1;
  pp_Description : string }.

Record RoutingDecisionV1 := {
  rd_SchemaVersion : string;
  rd_CatalogHash : string;
  rd_Requirement : RoutingRequirementV1;
  rd_Selected : Target;
  rd_ReasonCodes : list string;
  rd_Budget : BudgetGrantV1;
  rd_Fallback : list Target;
  rd_FallbackPolicy : FallbackPolicyV1;
  rd_PromptProfile : string }.

Record RoutingUsageV1 := {
  ru_SchemaVersion : string;
  ru_Target : Target;
  ru_RouteIndex : Z;
  ru_CostUnits : Z;
  ru_CumulativeCostUnits : Z }.

#[export] Instance FallbackPolicyV1_eq_dec : EqDecision FallbackPolicyV1.
Proof. solve_decision. Defined.
#[export] Instance RoutingRequirementV1_eq_dec : EqDecision RoutingRequirementV1.
Proof. solve_decision. Defined.
#[export] Instance BudgetGrantV1_eq_dec : EqDecision BudgetGrantV1.
Proof. solve_decision. Defined.
#[export] Instance RoutingDecisionV1_eq_dec : EqDecision RoutingDecisionV1.
Proof. solve_decision. Defined.
#[export] Instance RoutingUsageV1_eq_dec : EqDecision RoutingUsageV1.
Proof. solve_decision. Defined.

(** ** Elementary validators *)

Definition identity_rest (c : ascii) : bool := is_lower c || is_digit c || one_of "._:/-" c.
Definition reason_rest (c : ascii) : bool := is_lower c || is_digit c || one_of "._-" c.
(** identityPattern and reasonPattern *)
Definition validIdentity (value : string) : bool := match_ident is_lower identity_rest 127 value.
Definition validReason (value : string) : bool := match_ident is_lower reason_rest 63 value.

Definition validTarget (t : Target) : bool :=
  validIdentity (Driver t) && validIdentity (Provider t) && validIdentity (Model t).

Definition validHash (value : string) : bool :=
  if negb (len value =? 64) then false
  else forallb is_hex (String.list_ascii_of_string value).

Definition containsCapability (value : string) : bool :=
  existsb (fun known => value =s known) StableCapabilities.
Definition validComplexity (v : string) : bool :=
  (v =s ComplexitySimple) || (v =s ComplexityStandard) || (v =s ComplexityComplex).
Definition validQuality (v : string) : bool :=
  (v =s QualityEconomy) || (v =s QualityBalanced) || (v =s QualityPremium).
Definition validCost (v : string) : bool :=
  (v =s CostLow) || (v =s CostMedium) || (v =s CostHigh).
Definition validLatency (v : string) : bool :=
  (v =s LatencyFast) || (v =s LatencyBalanced) || (v =s LatencySlow).

Definition validateCapabilities (values : list string) : result ContractError unit :=
  _ ← range_loop (fun '(seen, last) value =>
        fail_if negb (containsCapability value) || seen_in value seen
          with contractError CodeInvalidCapability "capability is unsupported or duplicated" value ;;
        fail_if (last ≠s "") && String.leb value last
          with contractError CodeInvalidCapability "capabilities are not in canonical order" value ;;
        Ok ({[value]} ∪ seen, value))
      (∅, "") values;
  Ok tt.

Definition SortCapabilities (values : list string) : list string := sort_strings values.

(** ** Validate*: each guard in source order *)

Definition ValidateModelCapability (model : ModelCapabilityV1) : result ContractError unit :=
  fail_if negb (validIdentity (mc_ID model)) || negb (validTarget (mc_Target model))
    with contractError CodeInvalidTarget "model identity or target is invalid" (mc_ID model) ;;
  fail_if (mc_ContextLimitBytes model <? 1) || (MaxRoutingBudgetBytes <? mc_ContextLimitBytes model)
          || (mc_MaxOutputBytes model <? 1) || (mc_ContextLimitBytes model <? mc_MaxOutputBytes model)
    with contractError CodeInvalidBudget "model context/output limits are invalid" (mc_ID model) ;;
  fail_if negb (validQuality (mc_Quality model)) || negb (validCost (mc_Cost model))
          || negb (validLatency (mc_Latency model))
    with contractError CodeInvalidCapability "model quality, cost, or latency class is invalid" (mc_ID model) ;;
  fail_if len_slice (mc_Capabilities model) =? 0
    with contractError CodeInvalidCapability "model must declare at least one capability" (mc_ID model) ;;
  validateCapabilities (mc_Capabilities model).

Definition ValidateCatalog (catalog : CapabilityCatalogV1) : result ContractError unit :=
  fail_if (cat_SchemaVersion catalog ≠s CapabilityCatalogV1Version)
          || (cat_PolicyVersion catalog ≠s RoutingPolicyV1Version)
    with contractError CodeUnsupportedVersion "unsupported capability catalog or policy version" "" ;;
  fail_if (len_slice (cat_Models catalog) =? 0) || (MaxCatalogModels <? len_slice (cat_Models catalog))
    with contractError CodeInvalidContract "catalog model count is outside its bound" "" ;;
  _ ← range_loop (fun '(seen, lastID) model =>
        _ ← ValidateModelCapability model;
        fail_if seen_in (mc_ID model) seen
          with contractError CodeDuplicateIdentity "catalog model ID is duplicated" (mc_ID model) ;;
        fail_if (lastID ≠s "") && String.leb (mc_ID model) lastID
          with contractError CodeInvalidContract "catalog models are not in canonical ID order" (mc_ID model) ;;
        Ok ({[mc_ID model]} ∪ seen, mc_ID model))
      (∅, "") (cat_Models catalog);
  Ok tt.

Definition ValidateTarget (target : Target) : result ContractError unit :=
  fail_if negb (validTarget target)
    with contractError CodeInvalidTarget "routing target is invalid" (Model target) ;;
  Ok tt.

Definition ValidateRequirement (requirement : RoutingRequirementV1) : result ContractError unit :=
  fail_if rr_SchemaVersion requirement ≠s RoutingRequirementV1Version
    with contractError CodeUnsupportedVersion "unsupported routing requirement version" "" ;;
  fail_if len_slice (rr_Capabilities requirement) =? 0
    with contractError CodeInvalidCapability "routing requirement must declare capabilities" "" ;;
  _ ← validateCapabilities (rr_Capabilities requirement);
  fail_if negb (validComplexity (rr_Complexity requirement)) || negb (validQuality (rr_Quality requirement))
          || negb (validLatency (rr_Latency requirement))
    with contractError CodeInvalidContract "routing requirement class is invalid" "" ;;
  fail_if (rr_MaxCostUnits requirement <? 1) || (MaxCostUnits <? rr_MaxCostUnits requirement)
          || (rr_MaxContextBytes requirement <? 1) || (MaxRoutingBudgetBytes <? rr_MaxContextBytes requirement)
          || (rr_MaxOutputBytes requirement <? 1) || (rr_MaxContextBytes requirement <? rr_MaxOutputBytes requirement)
    with contractError CodeInvalidBudget "routing requirement budget must be positive" "" ;;
  fail_if MaxCandidates <? len_slice (rr_Candidates requirement)
    with contractError CodeInvalidTarget "routing candidate count exceeds its bound" "" ;;
  _ ← range_loop (fun seen candidate =>
        fail_if negb (validIdentity candidate)
          with contractError CodeInvalidTarget "routing candidate identity is invalid" candidate ;;
        fail_if seen_in candidate seen
          with contractError CodeDuplicateIdentity "routing candidate is duplicated" candidate ;;
        Ok ({[candidate]} ∪ seen))
      ∅ (rr_Candidates requirement);
  fail_if (rr_PromptProfile requirement ≠s "") && negb (validIdentity (rr_PromptProfile requirement))
    with contractError CodeInvalidPromptProfile "prompt profile identity is invalid" (rr_PromptProfile requirement) ;;
  Ok tt.

Definition ValidateBudgetGrant (b : BudgetGrantV1) : result ContractError unit :=
  fail_if (bg_MaxCostUnits b <? 1) || (MaxCostUnits <? bg_MaxCostUnits b)
          || (bg_ContextBytes b <? 1) || (MaxRoutingBudgetBytes <? bg_ContextBytes b)
          || (bg_OutputBytes b <? 1) || (bg_ContextBytes b <? bg_OutputBytes b)
    with contractError CodeInvalidBudget "budget grant values must be positive" "" ;;
  Ok tt.

Definition ValidateFallbackPolicy (p : FallbackPolicyV1) : result ContractError unit :=
  fail_if (fp_Mode p ≠s FallbackNone) && (fp_Mode p ≠s FallbackEligible)
    with contractError CodeInvalidFallback "unsupported fallback mode" "" ;;
  fail_if (fp_MaxAttempts p <? 1) || (MaxFallbacks + 1 <? fp_MaxAttempts p)
    with contractError CodeInvalidFallback "fallback attempt count is outside its bound" "" ;;
  fail_if (fp_Mode p =s FallbackNone) && negb (fp_MaxAttempts p =? 1)
    with contractError CodeInvalidFallback "fallback-none policy must allow exactly one attempt" "" ;;
  fail_if (fp_Mode p =s FallbackEligible) && negb (fp_RequireNoSideEffect p)
    with contractError CodeInvalidFallback "eligible fallback must require no side effects" "" ;;
  Ok tt.

Definition ValidatePromptProfile (p : PromptProfileV1) : result ContractError unit :=
  fail_if (pp_SchemaVersion p ≠s PromptProfileV1Version) || negb (validIdentity (pp_ID p))
          || (trim_space (pp_Version p) =s "") || (pp_Version p ≠s trim_space (pp_Version p))
          || (64 <? len (pp_Version p)) || (len_slice (pp_Components p) =? 0)
          || (MaxPromptComponents <? len_slice (pp_Components p))
    with contractError CodeInvalidPromptProfile "prompt profile identity or bounds are invalid" (pp_ID p) ;;
  _ ← range_loop (fun seen component =>
        fail_if negb (validIdentity (pc_ID component)) || seen_in (pc_ID component) seen
          with contractError CodeInvalidPromptProfile "prompt profile component is invalid or duplicated" (pc_ID component) ;;
        Ok ({[pc_ID component]} ∪ seen))
      ∅ (pp_Components p);
  Ok tt.

Definition ValidateDecision (d : RoutingDecisionV1) : result ContractError unit :=
  fail_if (rd_SchemaVersion d ≠s RoutingDecisionV1Version) || negb (validHash (rd_CatalogHash d))
          || negb (validTarget (rd_Selected d))
    with contractError CodeInvalidContract "routing decision identity is invalid" "" ;;
  _ ← ValidateRequirement (rd_Requirement d);
  _ ← ValidateBudgetGrant (rd_Budget d);
  _ ← ValidateFallbackPolicy (rd_FallbackPolicy d);
  fail_if (len_slice (rd_ReasonCodes d) =? 0) || (MaxReasonCodes <? len_slice (rd_ReasonCodes d))
    with contractError CodeInvalidContract "routing decision must contain bounded reason codes" "" ;;
  _ ← range_loop (fun seen reason =>
        fail_if negb (validReason reason) || seen_in reason seen
          with contractError CodeInvalidContract "routing reason code is invalid or duplicated" reason ;;
        Ok ({[reason]} ∪ seen))
      ∅ (rd_ReasonCodes d);
  fail_if (MaxFallbacks <? len_slice (rd_Fallback d))
          || (fp_Mode (rd_FallbackPolicy d) =s FallbackNone) && negb (len_slice (rd_Fallback d) =? 0)
    with contractError CodeInvalidFallback "fallback targets do not match policy" "" ;;
  _ ← range_loop (fun _ target =>
        fail_if negb (validTarget target) || bool_decide (target = rd_Selected d)
          with contractError CodeInvalidFallback "fallback target is invalid or duplicates the selected target" "" ;;
        Ok tt)
      tt (rd_Fallback d);
  fail_if (rd_PromptProfile d ≠s "") && negb (validIdentity (rd_PromptProfile d))
    with contractError CodeInvalidPromptProfile "decision prompt profile identity is invalid" (rd_PromptProfile d) ;;
  Ok tt.

Definition ValidateRoutingUsage (usage : RoutingUsageV1) : result ContractError unit :=
  fail_if (ru_SchemaVersion usage ≠s RoutingUsageV1Version) || negb (validTarget (ru_Target usage))
    with contractError CodeInvalidContract "routing usage identity is invalid" "" ;;
  fail_if (ru_RouteIndex usage <? 0) || (MaxFallbacks <? ru_RouteIndex usage)
    with contractError CodeInvalidFallback "routing usage route index is outside its bound" "" ;;
  fail_if (ru_CostUnits usage <? 1) || (MaxCostUnits <? ru_CostUnits usage)
          || (ru_CumulativeCostUnits usage <? ru_CostUnits usage) || (MaxCostUnits <? ru_CumulativeCostUnits usage)
    with contractError CodeInvalidBudget "routing usage cost is outside its bound" "" ;;
  Ok tt.

(** ** Defaults and product policy *)

(** DefaultRequirementV1 (defaults.go) *)
Definition DefaultRequirementV1 : RoutingRequirementV1 := {|
  rr_SchemaVersion := RoutingRequirementV1Version;
  rr_Capabilities := [CapabilityRepoEdit; CapabilityRepoRead; CapabilityStructuredOutput; CapabilityToolUse];
  rr_Complexity := ComplexityStandard;
  rr_Quality := QualityBalanced;
  rr_Latency := LatencyBalanced;
  rr_MaxCostUnits := 20;
  rr_MaxContextBytes := 128 * 1024;
  rr_MaxOutputBytes := 32 * 1024;
  rr_Candidates := [];
  rr_PromptProfile := "";
  rr_AllowModelFallback := false |}.

Definition set_candidates (r : RoutingRequirementV1) (c : list string) : RoutingRequirementV1 := {|
  rr_SchemaVersion := rr_SchemaVersion r; rr_Capabilities := rr_Capabilities r;
  rr_Complexity := rr_Complexity r; rr_Quality := rr_Quality r; rr_Latency := rr_Latency r;
  rr_MaxCostUnits := rr_MaxCostUnits r; rr_MaxContextBytes := rr_MaxContextBytes r;
  rr_MaxOutputBytes := rr_MaxOutputBytes r; rr_Candidates := c;
  rr_PromptProfile := rr_PromptProfile r; rr_AllowModelFallback := rr_AllowModelFallback r |}.

(** cloneRequirement copies the two slices: with immutable lists the copy is
    the requirement itself. *)
Definition cloneRequirement (source : RoutingRequirementV1) : RoutingRequirementV1 := source.

(** ApplyCodexProductPreference (product_policy.go) *)
Definition ApplyCodexProductPreference (catalog : CapabilityCatalogV1) (driver : string)
    (requirement : RoutingRequirementV1) : RoutingRequirementV1 :=
  if negb (len_slice (rr_Candidates requirement) =? 0) || (driver ≠s "codex") then requirement
  else
    let ids : gset string := list_to_set (map mc_ID (cat_Models catalog)) in
    if negb (seen_in "codex/local/gpt-5.6-sol" ids) then requirement
    else
      let result := cloneRequirement requirement in
      fold_left (fun result id =>
          if seen_in id ids then set_candidates result (rr_Candidates result ++ [id]) else result)
        ["codex/local/gpt-5.6-sol"; "codex/local/gpt-5.6-terra"; "codex/local/gpt-5.6-luna"] result.

(** * Declarative well-formedness of the routing contract

    For each validator of Routing.v a [Prop] record that says what it
    accepts, and the proof that the validator accepts exactly that.  The
    resolver, accounting and registry theorems are stated with these. *)

Definition capabilities_wf (l : list string) : Prop :=
  Forall (fun c => containsCapability c = true) l /\ strictly_sorted l.

Record model_wf (m : ModelCapabilityV1) : Prop := {
  mw_id : validIdentity (mc_ID m) = true;
  mw_target : validTarget (mc_Target m) = true;
  mw_context : 1 <= mc_ContextLimitBytes m <= MaxRoutingBudgetBytes;
  mw_output : 1 <= mc_MaxOutputBytes m <= mc_ContextLimitBytes m;
  mw_quality : validQuality (mc_Quality m) = true;
  mw_cost : validCost (mc_Cost m) = true;
  mw_latency : validLatency (mc_Latency m) = true;
  mw_nonempty : mc_Capabilities m <> [];
  mw_caps : capabilities_wf (mc_Capabilities m) }.

Record catalog_wf (c : CapabilityCatalogV1) : Prop := {
  cw_schema : cat_SchemaVersion c = CapabilityCatalogV1Version;
  cw_policy : cat_PolicyVersion c = RoutingPolicyV1Version;
  cw_count : 1 <= len_slice (cat_Models c) <= MaxCatalogModels;
  cw_models : Forall model_wf (cat_Models c);
  cw_order : strictly_sorted (map mc_ID (cat_Models c)) }.

Definition budget_range (cost context output : Z) : Prop :=
  1 <= cost <= MaxCostUnits /\ 1 <= context <= MaxRoutingBudgetBytes /\ 1 <= output <= context.

Record requirement_wf (r : RoutingRequirementV1) : Prop := {
  rw_schema : rr_SchemaVersion r = RoutingRequirementV1Version;
  rw_nonempty : rr_Capabilities r <> [];
  rw_caps : capabilities_wf (rr_Capabilities r);
  rw_complexity : validComplexity (rr_Complexity r) = true;
  rw_quality : validQuality (rr_Quality r) = true;
  rw_latency : validLatency (rr_Latency r) = true;
  rw_budget : budget_range (rr_MaxCostUnits r) (rr_MaxContextBytes r) (rr_MaxOutputBytes r);
  rw_candidate_count : len_slice (rr_Candidates r) <= MaxCandidates;
  rw_candidates : Forall (fun c => validIdentity c = true) (rr_Candidates r);
  rw_candidates_nodup : NoDup (rr_Candidates r);
  rw_profile : rr_PromptProfile r = "" \/ validIdentity (rr_PromptProfile r) = true }.

Definition budget_wf (b : BudgetGrantV1) : Prop :=
  budget_range (bg_MaxCostUnits b) (bg_ContextBytes b) (bg_OutputBytes b).

Record policy_wf (p : FallbackPolicyV1) : Prop := {
  pw_mode : fp_Mode p = FallbackNone \/ fp_Mode p = FallbackEligible;
  pw_attempts : 1 <= fp_MaxAttempts p <= MaxFallbacks + 1;
  pw_none : fp_Mode p = FallbackNone -> fp_MaxAttempts p = 1;
  pw_side_effect : fp_Mode p = FallbackEligible -> fp_RequireNoSideEffect p = true }.

Record decision_wf (d : RoutingDecisionV1) : Prop := {
  dw_schema : rd_SchemaVersion d = RoutingDecisionV1Version;
  dw_hash : validHash (rd_CatalogHash d) = true;
  dw_selected : validTarget (rd_Selected d) = true;
  dw_requirement : requirement_wf (rd_Requirement d);
  dw_budget : budget_wf (rd_Budget d);
  dw_policy : policy_wf (rd_FallbackPolicy d);
  dw_reason_count : 1 <= len_slice (rd_ReasonCodes d) <= MaxReasonCodes;
  dw_reasons : Forall (fun c => validReason c = true) (rd_ReasonCodes d);
  dw_reasons_nodup : NoDup (rd_ReasonCodes d);
  dw_fallback_count : len_slice (rd_Fallback d) <= MaxFallbacks;
  dw_fallback_none : fp_Mode (rd_FallbackPolicy d) = FallbackNone -> rd_Fallback d = [];
  dw_fallback : Forall (fun t => validTarget t = true /\ t <> rd_Selected d) (rd_Fallback d);
  dw_profile : rd_PromptProfile d = "" \/ validIdentity (rd_PromptProfile d) = true }.

Record usage_wf (u : RoutingUsageV1) : Prop := {
  uw_schema : ru_SchemaVersion u = RoutingUsageV1Version;
  uw_target : validTarget (ru_Target u) = true;
  uw_index : 0 <= ru_RouteIndex u <= MaxFallbacks;
  uw_cost : 1 <= ru_CostUnits u <= MaxCostUnits;
  uw_cumulative : ru_CostUnits u <= ru_CumulativeCostUnits u <= MaxCostUnits }.

(** ** The validators decide these predicates *)

Lemma len_slice_0 {A} (l : list A) : (len_slice l =? 0) = false <-> l <> [].
Proof. unfold len_slice. rewrite Z.eqb_neq. destruct l; simpl; split; try done; lia. Qed.

Lemma len_slice_0_true {A} (l : list A) : (len_slice l =? 0) = true <-> l = [].
Proof. unfold len_slice. rewrite Z.eqb_eq. destruct l; simpl; split; try done; lia. Qed.

Lemma seen_in_false x s : seen_in x s = false <-> x ∉ s.
Proof. unfold seen_in. by rewrite bool_decide_eq_false. Qed.

(** Turn a validator in monadic form into the conjunction of its guards. *)
Ltac validator_unfold :=
  repeat first
    [ rewrite fail_if_ok | rewrite bind_unit_ok | rewrite is_ok_bind_unit
    | rewrite orb_false_iff | rewrite andb_false_iff | rewrite negb_false_iff
    | rewrite negb_true_iff | rewrite Z.ltb_ge | rewrite String.eqb_eq
    | rewrite len_slice_0 ].

Lemma containsCapability_nonempty c : containsCapability c = true -> c <> "".
Proof. intros H ->. discriminate H. Qed.

Lemma validIdentity_nonempty s : validIdentity s = true -> s <> "".
Proof. intros H ->. discriminate H. Qed.

Lemma validateCapabilities_spec l : validateCapabilities l = Ok tt <-> capabilities_wf l.
Proof.
  unfold validateCapabilities, capabilities_wf. rewrite is_ok_bind_unit.
  rewrite (ordered_loop_ok id (fun c => containsCapability c = true)), list_fmap_id; [done|..].
  - apply containsCapability_nonempty.
  - intros seen last x s'. rewrite !fail_if_ok, orb_false_iff, negb_false_iff, seen_in_false,
      andb_false_iff, negb_false_iff, String.eqb_eq. unfold id. naive_solver.
Qed.

Lemma ValidateModelCapability_spec m : ValidateModelCapability m = Ok tt <-> model_wf m.
Proof.
  unfold ValidateModelCapability. rewrite !fail_if_ok, validateCapabilities_spec, len_slice_0.
  rewrite !orb_false_iff, !negb_false_iff, !Z.ltb_ge. split.
  - intros ([] & [[[]]] & [[]] & ? & ?). by constructor.
  - intros []. intuition.
Qed.

Theorem ValidateCatalog_spec c : ValidateCatalog c = Ok tt <-> catalog_wf c.
Proof.
  unfold ValidateCatalog. rewrite !fail_if_ok, is_ok_bind_unit.
  rewrite (ordered_loop_ok mc_ID model_wf).
  - rewrite !orb_false_iff, !negb_false_iff, !String.eqb_eq, Z.ltb_ge, Z.eqb_neq. unfold len_slice. split.
    + intros ([] & [] & ? & ?). constructor; try done. unfold len_slice. lia.
    + intros [? ? Hc ? ?]. unfold len_slice in Hc. repeat split; try done; lia.
  - intros x []. by apply validIdentity_nonempty.
  - intros seen last x s'. rewrite bind_unit_ok, ValidateModelCapability_spec, !fail_if_ok,
      seen_in_false, andb_false_iff, negb_false_iff, String.eqb_eq. naive_solver.
Qed.

Lemma ValidateTarget_spec t : ValidateTarget t = Ok tt <-> validTarget t = true.
Proof. unfold ValidateTarget. rewrite fail_if_ok, negb_false_iff. naive_solver. Qed.

Lemma budget_range_spec cost context output :
  (cost <? 1) || (MaxCostUnits <? cost) || (context <? 1) || (MaxRoutingBudgetBytes <? context)
  || (output <? 1) || (context <? output) = false <-> budget_range cost context output.
Proof. rewrite !orb_false_iff, !Z.ltb_ge. unfold budget_range. lia. Qed.

Lemma ValidateBudgetGrant_spec b : ValidateBudgetGrant b = Ok tt <-> budget_wf b.
Proof. unfold ValidateBudgetGrant, budget_wf. rewrite fail_if_ok, budget_range_spec. naive_solver. Qed.

(** The "seen" loop over plain identities *)
Lemma identity_loop_ok {E} (valid : string -> bool) (body : gset string -> string -> result E (gset string)) xs :
  (forall seen x s', body seen x = Ok s' <-> valid x = true /\ x ∉ seen /\ s' = {[x]} ∪ seen) ->
  is_ok (range_loop body ∅ xs) = true <-> Forall (fun x => valid x = true) xs /\ NoDup xs.
Proof.
  intros Hbody. rewrite (seen_loop_ok id (fun x => valid x = true)); [|done]. rewrite list_fmap_id.
  split; [naive_solver|]. intros [? ?]. split_and!; [done..|]. apply Forall_true. set_solver.
Qed.

Lemma ValidateRequirement_spec r : ValidateRequirement r = Ok tt <-> requirement_wf r.
Proof.
  unfold ValidateRequirement.
  rewrite !fail_if_ok, bind_unit_ok, !fail_if_ok, bind_any_ok, fail_if_ok, validateCapabilities_spec,
    len_slice_0, budget_range_spec.
  rewrite (identity_loop_ok validIdentity).
  - rewrite negb_false_iff, String.eqb_eq, !orb_false_iff, !negb_false_iff, andb_false_iff,
      !negb_false_iff, Z.ltb_ge, String.eqb_eq. split.
    + intros (? & ? & ? & [[]] & ? & ? & [] & ? & ?). by constructor.
    + intros []. by split_and!.
  - intros seen x s'. rewrite !fail_if_ok, negb_false_iff, seen_in_false. naive_solver.
Qed.

Lemma ValidateFallbackPolicy_spec p : ValidateFallbackPolicy p = Ok tt <-> policy_wf p.
Proof.
  unfold ValidateFallbackPolicy. rewrite !fail_if_ok, !andb_false_iff, orb_false_iff,
    !negb_false_iff, !Z.ltb_ge, !String.eqb_eq, !String.eqb_neq, Z.eqb_eq. split.
  - intros (? & ? & ? & ? & _). constructor; [done|lia|naive_solver..].
  - intros [Hm ? Hn Hs]. split_and!; try done; try lia; destruct Hm as [Hm|Hm]; rewrite Hm; auto.
Qed.

Lemma ValidateRoutingUsage_spec u : ValidateRoutingUsage u = Ok tt <-> usage_wf u.
Proof.
  unfold ValidateRoutingUsage. rewrite !fail_if_ok, !orb_false_iff, !negb_false_iff, !Z.ltb_ge, String.eqb_eq.
  split; [intros ([] & [] & ? & _); constructor; try done; lia|intros []; split_and!; try done; lia].
Qed.

Theorem ValidateDecision_spec d : ValidateDecision d = Ok tt <-> decision_wf d.
Proof.
  unfold ValidateDecision.
  rewrite fail_if_ok, !bind_unit_ok, fail_if_ok, bind_any_ok, fail_if_ok, bind_unit_ok, fail_if_ok,
    ValidateRequirement_spec, ValidateBudgetGrant_spec, ValidateFallbackPolicy_spec, range_loop_unit.
  rewrite (identity_loop_ok validReason).
  - rewrite !orb_false_iff, !andb_false_iff, !negb_false_iff, !Z.ltb_ge, !String.eqb_eq, String.eqb_neq,
      len_slice_0, len_slice_0_true.
    assert (forall l, Forall (fun t => (fail_if negb (validTarget t) || bool_decide (t = rd_Selected d)
        with contractError CodeInvalidFallback "fallback target is invalid or duplicates the selected target" "" ;;
        @Ok ContractError unit tt) = Ok tt) l <->
      Forall (fun t => validTarget t = true /\ t <> rd_Selected d) l) as ->.
    { intros l. apply Forall_proper; [|done]. intros t.
      rewrite fail_if_ok, orb_false_iff, negb_false_iff, bool_decide_eq_false. naive_solver. }
    assert (rd_ReasonCodes d <> [] <-> 1 <= len_slice (rd_ReasonCodes d)) as ->.
    { unfold len_slice. destruct (rd_ReasonCodes d); simpl; split; try done; lia. }
    split.
    + intros ([[]] & ? & ? & ? & [] & [] & [? ?] & ? & ? & _). constructor; try done. naive_solver.
    + intros []. split_and!; try done; try lia; try naive_solver.
      destruct (decide (fp_Mode (rd_FallbackPolicy d) = FallbackNone)); naive_solver.
  - intros seen x s'. rewrite fail_if_ok, orb_false_iff, negb_false_iff, seen_in_false. naive_solver.
Qed.
