(* ===== verification/Resolver.v ===== *)
(** * Routing: resolver, catalogs, registry, accounting and profiles

    internal/routing/{resolver,catalog,catalog_registry,accounting,
    execution_profile}.go.  SHA-256 of the canonical JSON of a catalog is the
    operation of the class [CatalogDigest]; everything else is executable. *)

From S2P Require Import Prelude Routing.
#[local] Open Scope string_scope.
#[local] Open Scope list_scope.
#[local] Open Scope Z_scope.

(** hex(sha256(canonicalJSON(catalog))): 64 hexadecimal digits. *)
Class CatalogDigest := {
  catalog_digest : CapabilityCatalogV1 -> string;
  catalog_digest_hash : forall c, validHash (catalog_digest c) = true }.

(** ** Resolver (resolver.go) *)

Record modelScore := {
  candidateRank : Z; qualityDelta : Z; latencyDelta : Z; score_costUnits : Z; score_id : string }.
Record eligibleModel := { em_model : ModelCapabilityV1; em_score : modelScore }.

Definition modelScore_less (s other : modelScore) : bool :=
  if negb (candidateRank s =? candidateRank other) then candidateRank s <? candidateRank other
  else if negb (qualityDelta s =? qualityDelta other) then qualityDelta s <? qualityDelta other
  else if negb (latencyDelta s =? latencyDelta other) then latencyDelta s <? latencyDelta other
  else if negb (score_costUnits s =? score_costUnits other) then score_costUnits s <? score_costUnits other
  else String.ltb (score_id s) (score_id other).

Definition minQualityForComplexity (complexity : string) : string :=
  if complexity =s ComplexityComplex then QualityPremium
  else if complexity =s ComplexityStandard then QualityBalanced
  else QualityEconomy.
Definition qualityRank (value : string) : Z :=
  if value =s QualityPremium then 2 else if value =s QualityBalanced then 1 else 0.
Definition latencyRank (value : string) : Z :=
  if value =s LatencySlow then 2 else if value =s LatencyBalanced then 1 else 0.
Definition costUnits (value : string) : Z :=
  if value =s CostHigh then 100 else if value =s CostMedium then 10 else 1.
Definition abs (value : Z) : Z := if value <? 0 then - value else value.

Definition containsAll (have required : list string) : bool :=
  let set : gset string := list_to_set have in
  forallb (fun capability => bool_decide (capability ∈ set)) required.

Definition restrictBudget (requirement grant : BudgetGrantV1) : BudgetGrantV1 := {|
  bg_MaxCostUnits := if bg_MaxCostUnits grant <? bg_MaxCostUnits requirement
                     then bg_MaxCostUnits grant else bg_MaxCostUnits requirement;
  bg_ContextBytes := if bg_ContextBytes grant <? bg_ContextBytes requirement
                     then bg_ContextBytes grant else bg_ContextBytes requirement;
  bg_OutputBytes := if bg_OutputBytes grant <? bg_OutputBytes requirement
                    then bg_OutputBytes grant else bg_OutputBytes requirement |}.

(** The index map of the candidate list: a later duplicate overwrites. *)
Definition candidate_index (candidates : list string) : gmap string Z :=
  fold_left (fun allowed '(index, candidate) => <[candidate := index]> allowed)
    (imap (fun i c => (Z.of_nat i, c)) candidates) ∅.

(** The body of the loop of eligibleModels: [None] is [continue]. *)
Definition eligible_one (requirement : RoutingRequirementV1) (budget : BudgetGrantV1)
    (model : ModelCapabilityV1) : option eligibleModel :=
  let allowed := candidate_index (rr_Candidates requirement) in
  let qualityFloor := qualityRank (minQualityForComplexity (rr_Complexity requirement)) in
  let requestedQuality := qualityRank (rr_Quality requirement) in
  let requestedLatency := latencyRank (rr_Latency requirement) in
  let rank := if 0 <? len_slice (rr_Candidates requirement)
              then allowed !! mc_ID model
              else Some (len_slice (rr_Candidates requirement) + 1) in
  match rank with
  | None => None
  | Some rank =>
      if negb (containsAll (mc_Capabilities model) (rr_Capabilities requirement))
         || (qualityRank (mc_Quality model) <? qualityFloor)
         || (bg_MaxCostUnits budget <? costUnits (mc_Cost model))
         || (mc_ContextLimitBytes model <? bg_ContextBytes budget)
         || (mc_MaxOutputBytes model <? bg_OutputBytes budget)
      then None
      else Some {| em_model := model;
                   em_score := {| candidateRank := rank;
                                  qualityDelta := abs (qualityRank (mc_Quality model) - requestedQuality);
                                  latencyDelta := abs (latencyRank (mc_Latency model) - requestedLatency);
                                  score_costUnits := costUnits (mc_Cost model);
                                  score_id := mc_ID model |} |}
  end.
Definition eligibleModels (models : list ModelCapabilityV1) (requirement : RoutingRequirementV1)
    (budget : BudgetGrantV1) : list eligibleModel :=
  omap (eligible_one requirement budget) models.

Definition reasonCodes (requirement : RoutingRequirementV1) (selected : ModelCapabilityV1)
    (score : modelScore) : list string :=
  ["capability_match"; "complexity_" +:+ rr_Complexity requirement;
   "quality_preference_" +:+ mc_Quality selected; "latency_preference_" +:+ mc_Latency selected;
   "cost_preference_" +:+ mc_Cost selected; "budget_context"; "budget_output"] ++
  (if (0 <? len_slice (rr_Candidates requirement))
      && (candidateRank score <=? len_slice (rr_Candidates requirement))
   then ["candidate_preference"] else []).

Record ResolveRequestV1 := {
  rq_Catalog : CapabilityCatalogV1;
  rq_CatalogHash : string;
  rq_Requirement : RoutingRequirementV1;
  rq_Budget : BudgetGrantV1 }.

Section Digest.
Context `{CatalogDigest}.

Definition CatalogHash (catalog : CapabilityCatalogV1) : result ContractError string :=
  _ ← ValidateCatalog catalog; Ok (catalog_digest catalog).

(** The budget the resolver works with *)
Definition resolve_budget (request : ResolveRequestV1) : BudgetGrantV1 :=
  restrictBudget
    {| bg_MaxCostUnits := rr_MaxCostUnits (rq_Requirement request);
       bg_ContextBytes := rr_MaxContextBytes (rq_Requirement request);
       bg_OutputBytes := rr_MaxOutputBytes (rq_Requirement request) |}
    (rq_Budget request).

(** The sorted candidate list *)
Definition resolve_candidates (request : ResolveRequestV1) : list eligibleModel :=
  sort_slice (fun i j => modelScore_less (em_score i) (em_score j))
    (eligibleModels (cat_Models (rq_Catalog request)) (rq_Requirement request) (resolve_budget request)).

(** The decision built from the selected and the remaining candidates *)
Definition resolve_decision (request : ResolveRequestV1) (catalogHash : string)
    (selected : eligibleModel) (others : list eligibleModel) : RoutingDecisionV1 :=
  let requirement := rq_Requirement request in
  let fallback :=
    if rr_AllowModelFallback requirement
    then map (fun c => mc_Target (em_model c)) (take (Z.to_nat (Z.min (len_slice others) MaxFallbacks)) others)
    else [] in
  {| rd_SchemaVersion := RoutingDecisionV1Version;
     rd_CatalogHash := catalogHash;
     rd_Requirement := cloneRequirement requirement;
     rd_Selected := mc_Target (em_model selected);
     rd_ReasonCodes := reasonCodes requirement (em_model selected) (em_score selected) ++
       (if rr_AllowModelFallback requirement then ["fallback_declared"] else ["fallback_disabled"]);
     rd_Budget := resolve_budget request;
     rd_Fallback := fallback;
     rd_FallbackPolicy :=
       if rr_AllowModelFallback requirement
       then {| fp_Mode := FallbackEligible; fp_MaxAttempts := 1 + len_slice fallback;
               fp_RequireNoSideEffect := true; fp_RequireApproval := true |}
       else {| fp_Mode := FallbackNone; fp_MaxAttempts := 1;
               fp_RequireNoSideEffect := false; fp_RequireApproval := false |};
     rd_PromptProfile := rr_PromptProfile requirement |}.

Definition ResolveV1 (request : ResolveRequestV1) : result ContractError RoutingDecisionV1 :=
  _ ← ValidateRequirement (rq_Requirement request);
  _ ← ValidateBudgetGrant (rq_Budget request);
  _ ← ValidateCatalog (rq_Catalog request);
  catalogHash ← CatalogHash (rq_Catalog request);
  fail_if (rq_CatalogHash request ≠s "") && (rq_CatalogHash request ≠s catalogHash)
    with contractError CodeCatalogHashMismatch "catalog hash does not match the trusted catalog" "" ;;
  match resolve_candidates request with
  | [] => Err (contractError CodeInvalidTarget "no catalog model satisfies the routing requirement and budget" "")
  | selected :: others =>
      let decision := resolve_decision request catalogHash selected others in
      _ ← ValidateDecision decision;
      Ok decision
  end.

(** ** Accounting (accounting.go) *)

Definition CostUnitsForTarget (catalog : CapabilityCatalogV1) (target : Target) : result ContractError Z :=
  _ ← ValidateCatalog catalog;
  match List.find (fun model => bool_decide (mc_Target model = target)) (cat_Models catalog) with
  | Some model => Ok (costUnits (mc_Cost model))
  | None => Err (contractError CodeInvalidTarget "routing target is absent from the trusted catalog" (Model target))
  end.

Definition ValidateRoutingUsageForDecision (catalog : CapabilityCatalogV1) (decision : RoutingDecisionV1)
    (usage : RoutingUsageV1) : result ContractError unit :=
  _ ← ValidateCatalog catalog;
  _ ← ValidateDecision decision;
  _ ← ValidateRoutingUsage usage;
  hash ← CatalogHash catalog;
  fail_if rd_CatalogHash decision ≠s hash
    with contractError CodeCatalogHashMismatch "routing decision catalog hash does not match the trusted catalog" "" ;;
  fail_if negb (bool_decide (ru_Target usage = rd_Selected decision))
    with contractError CodeInvalidTarget "routing usage target conflicts with routing decision" (Model (ru_Target usage)) ;;
  cost ← CostUnitsForTarget catalog (ru_Target usage);
  fail_if negb (ru_CostUnits usage =? cost)
          || (bg_MaxCostUnits (rd_Budget decision) <? ru_CumulativeCostUnits usage)
    with contractError CodeInvalidBudget "routing usage cost conflicts with the trusted catalog or budget" (Model (ru_Target usage)) ;;
  Ok tt.

Definition ReserveRoutingUsageV1 (catalog : CapabilityCatalogV1) (decision : RoutingDecisionV1)
    (priorCostUnits routeIndex : Z) : result ContractError RoutingUsageV1 :=
  _ ← ValidateCatalog catalog;
  _ ← ValidateDecision decision;
  hash ← CatalogHash catalog;
  fail_if rd_CatalogHash decision ≠s hash
    with contractError CodeCatalogHashMismatch "routing decision catalog hash does not match the trusted catalog" "" ;;
  fail_if (priorCostUnits <? 0) || (MaxCostUnits <? priorCostUnits)
    with contractError CodeInvalidBudget "prior routing cost is outside its bound" "" ;;
  cost ← CostUnitsForTarget catalog (rd_Selected decision);
  let cumulative := wrap_int64 (priorCostUnits + cost) in
  fail_if (MaxCostUnits <? cumulative) || (bg_MaxCostUnits (rd_Budget decision) <? cumulative)
    with contractError CodeInvalidBudget
           ("routing cost " +:+ pretty cumulative +:+ " exceeds budget "
            +:+ pretty (bg_MaxCostUnits (rd_Budget decision))) "" ;;
  let usage := {| ru_SchemaVersion := RoutingUsageV1Version; ru_Target := rd_Selected decision;
                  ru_RouteIndex := routeIndex; ru_CostUnits := cost;
                  ru_CumulativeCostUnits := cumulative |} in
  _ ← ValidateRoutingUsageForDecision catalog decision usage;
  Ok usage.
End Digest.

(** AdvanceFallbackV1: the boolean of the Go result says whether there is a
    next decision. *)
Definition AdvanceFallbackV1 (previous : RoutingDecisionV1)
    : result ContractError (option RoutingDecisionV1) :=
  _ ← ValidateDecision previous;
  match rd_Fallback previous with
  | [] => Ok None
  | selected :: rest =>
      if fp_Mode (rd_FallbackPolicy previous) ≠s FallbackEligible then Ok None else
      let reasons := if contains_string (rd_ReasonCodes previous) "fallback_selected"
                     then rd_ReasonCodes previous
                     else rd_ReasonCodes previous ++ ["fallback_selected"] in
      let next := {| rd_SchemaVersion := rd_SchemaVersion previous;
                     rd_CatalogHash := rd_CatalogHash previous;
                     rd_Requirement := cloneRequirement (rd_Requirement previous);
                     rd_Selected := selected;
                     rd_ReasonCodes := reasons;
                     rd_Budget := rd_Budget previous;
                     rd_Fallback := rest;
                     rd_FallbackPolicy := rd_FallbackPolicy previous;
                     rd_PromptProfile := rd_PromptProfile previous |} in
      _ ← ValidateDecision next;
      Ok (Some next)
  end.
