(* ===== verification/Catalog.v ===== *)
(** * Routing: built-in catalogs, the hash-addressed registry, execution profiles

    internal/routing/{catalog,catalog_registry,execution_profile}.go.  Reading
    a catalog file and the environment is not modelled. *)

From S2P Require Import Prelude Routing Resolver.
#[local] Open Scope string_scope.
#[local] Open Scope list_scope.
#[local] Open Scope Z_scope.

Definition BuiltinCatalogSourceV1 := "fishyume.builtin".
Definition DynamicCatalogSourceV1 := "fishyume.dynamic".

(** cloneCatalog copies the slices: the identity on immutable lists. *)
Definition cloneCatalog (source : CapabilityCatalogV1) : CapabilityCatalogV1 := source.

Definition set_capabilities (m : ModelCapabilityV1) (caps : list string) : ModelCapabilityV1 := {|
  mc_ID := mc_ID m; mc_Target := mc_Target m; mc_Capabilities := caps;
  mc_ContextLimitBytes := mc_ContextLimitBytes m; mc_MaxOutputBytes := mc_MaxOutputBytes m;
  mc_Quality := mc_Quality m; mc_Cost := mc_Cost m; mc_Latency := mc_Latency m;
  mc_SupportsCancellation := mc_SupportsCancellation m |}.

Definition model_less (left right : ModelCapabilityV1) : bool := String.ltb (mc_ID left) (mc_ID right).

Definition CanonicalCatalogV1 (source : CapabilityCatalogV1) : CapabilityCatalogV1 :=
  let result := cloneCatalog source in
  {| cat_SchemaVersion := cat_SchemaVersion result;
     cat_PolicyVersion := cat_PolicyVersion result;
     cat_Models := sort_slice model_less
       (map (fun m => set_capabilities m (sort_strings (mc_Capabilities m))) (cat_Models result)) |}.

Definition codex_target (model : string) : Target :=
  {| Driver := "codex"; Provider := "local"; Model := model |}.

Definition BuiltinCatalogV1 : CapabilityCatalogV1 := cloneCatalog {|
  cat_SchemaVersion := CapabilityCatalogV1Version;
  cat_PolicyVersion := RoutingPolicyV1Version;
  cat_Models := [
    {| mc_ID := "codex/local/gpt-5.6";
       mc_Target := codex_target "gpt-5.6";
       mc_Capabilities := [CapabilityNeedsInput; CapabilityRepoEdit; CapabilityRepoRead;
                           CapabilityStreaming; CapabilityStructuredOutput; CapabilityToolUse];
       mc_ContextLimitBytes := 256 * 1024; mc_MaxOutputBytes := 64 * 1024;
       mc_Quality := QualityPremium; mc_Cost := CostHigh; mc_Latency := LatencyBalanced;
       mc_SupportsCancellation := true |};
    {| mc_ID := "codex/local/gpt-5.6-luna";
       mc_Target := codex_target "gpt-5.6-luna";
       mc_Capabilities := [CapabilityRepoEdit; CapabilityRepoRead;
                           CapabilityStructuredOutput; CapabilityToolUse];
       mc_ContextLimitBytes := 128 * 1024; mc_MaxOutputBytes := 32 * 1024;
       mc_Quality := QualityBalanced; mc_Cost := CostLow; mc_Latency := LatencyFast;
       mc_SupportsCancellation := true |} ] |}.

Definition BuiltinCodexCatalogV2 : CapabilityCatalogV1 :=
  let capabilities := [CapabilityNeedsInput; CapabilityRepoEdit; CapabilityRepoRead;
                       CapabilityStreaming; CapabilityStructuredOutput; CapabilityToolUse] in
  let model name quality cost latency contextBytes outputBytes := {|
    mc_ID := "codex/local/" +:+ name; mc_Target := codex_target name;
    mc_Capabilities := capabilities;
    mc_ContextLimitBytes := contextBytes; mc_MaxOutputBytes := outputBytes;
    mc_Quality := quality; mc_Cost := cost; mc_Latency := latency;
    mc_SupportsCancellation := true |} in
  CanonicalCatalogV1 {|
    cat_SchemaVersion := CapabilityCatalogV1Version;
    cat_PolicyVersion := RoutingPolicyV1Version;
    cat_Models := [
      model "gpt-5.6-sol" QualityPremium CostMedium LatencyBalanced (256 * 1024) (64 * 1024);
      model "gpt-5.6-terra" QualityPremium CostHigh LatencySlow (256 * 1024) (64 * 1024);
      model "gpt-5.6-luna" QualityEconomy CostLow LatencyFast (128 * 1024) (32 * 1024) ] |}.

Definition BuiltinTeamCatalogV1 : CapabilityCatalogV1 :=
  let capabilities := [CapabilityNeedsInput; CapabilityRepoRead; CapabilityStreaming; CapabilityToolUse] in
  let model id := {|
    mc_ID := id; mc_Target := codex_target "gpt-5.6-sol";
    mc_Capabilities := capabilities;
    mc_ContextLimitBytes := 256 * 1024; mc_MaxOutputBytes := 64 * 1024;
    mc_Quality := QualityPremium; mc_Cost := CostHigh; mc_Latency := LatencyBalanced;
    mc_SupportsCancellation := true |} in
  {| cat_SchemaVersion := CapabilityCatalogV1Version;
     cat_PolicyVersion := RoutingPolicyV1Version;
     cat_Models := [model "codex/architect/gpt-5.6-sol"; model "codex/reviewer/gpt-5.6-sol"] |}.

(** ** Registry *)

Inductive RegistryError :=
| ErrValidate (e : ContractError)   (* "validate routing catalog: %w" *)
| ErrHash (e : ContractError)       (* "hash routing catalog: %w" *)
| ErrInconsistent (hash : string)   (* "routing catalog registry is inconsistent for hash %q" *)
| ErrActiveUnavailable (hash : string).

Record CatalogRegistry := {
  reg_activeHash : string;
  reg_catalogs : gmap string CapabilityCatalogV1 }.

Section Registry.
Context `{CatalogDigest}.

(** register: the registry after the call and the hash *)
Definition register (r : CatalogRegistry) (catalog : CapabilityCatalogV1)
    : result RegistryError (CatalogRegistry * string) :=
  let catalog := CanonicalCatalogV1 catalog in
  _ ← rmap_err ErrValidate (ValidateCatalog catalog);
  hash ← rmap_err ErrHash (CatalogHash catalog);
  match reg_catalogs r !! hash with
  | Some existing =>
      match CatalogHash existing with
      | Ok existingHash => if existingHash ≠s hash then Err (ErrInconsistent hash) else Ok (r, hash)
      | Err _ => Err (ErrInconsistent hash)
      end
  | None => Ok ({| reg_activeHash := reg_activeHash r;
                   reg_catalogs := <[hash := cloneCatalog catalog]> (reg_catalogs r) |}, hash)
  end.

Definition Register := register.
Definition SetActive (r : CatalogRegistry) (catalog : CapabilityCatalogV1)
    : result RegistryError (CatalogRegistry * string) :=
  '(r', hash) ← register r catalog;
  Ok ({| reg_activeHash := hash; reg_catalogs := reg_catalogs r' |}, hash).

Definition NewCatalogRegistry (active : CapabilityCatalogV1) (historical : list CapabilityCatalogV1)
    : result RegistryError CatalogRegistry :=
  registry ← range_loop (fun registry catalog => '(r', _) ← register registry catalog; Ok r')
               {| reg_activeHash := ""; reg_catalogs := ∅ |} historical;
  '(r', hash) ← register registry active;
  Ok {| reg_activeHash := hash; reg_catalogs := reg_catalogs r' |}.

Definition BuiltinCatalogRegistry : result RegistryError CatalogRegistry :=
  NewCatalogRegistry BuiltinCatalogV1 [].

Definition ActiveCatalog (r : CatalogRegistry) : result RegistryError (CapabilityCatalogV1 * string) :=
  match reg_catalogs r !! reg_activeHash r with
  | None => Err (ErrActiveUnavailable (reg_activeHash r))
  | Some catalog => Ok (cloneCatalog catalog, reg_activeHash r)
  end.
Definition CatalogByHash (r : CatalogRegistry) (hash : string) : option CapabilityCatalogV1 :=
  cloneCatalog <$> reg_catalogs r !! hash.
End Registry.

(** ** Execution profiles *)

Definition ExecutionProfileV1Version := "fishyume.execution-profile/v1".
Record ExecutionProfileV1 := {
  ep_SchemaVersion : string; ep_Target : Target; ep_ReasoningEffort : string }.

Inductive ProfileError :=
| ErrProfileIdentity
| ErrProfileEffort (effort : string)
| ErrProfileTarget.

Definition ExecutionProfileForDecision (decision : RoutingDecisionV1)
    : result ContractError ExecutionProfileV1 :=
  _ ← ValidateDecision decision;
  let complexity := rr_Complexity (rd_Requirement decision) in
  let effort := if complexity =s ComplexitySimple then "low"
                else if complexity =s ComplexityComplex then "high" else "medium" in
  Ok {| ep_SchemaVersion := ExecutionProfileV1Version; ep_Target := rd_Selected decision;
        ep_ReasoningEffort := effort |}.

Definition ValidateExecutionProfile (profile : ExecutionProfileV1) (decision : option RoutingDecisionV1)
    : result ProfileError unit :=
  fail_if (ep_SchemaVersion profile ≠s ExecutionProfileV1Version)
          || negb (is_ok (ValidateTarget (ep_Target profile)))
    with ErrProfileIdentity ;;
  fail_if negb (contains_string ["low"; "medium"; "high"; "xhigh"; "max"; "ultra"] (ep_ReasoningEffort profile))
    with ErrProfileEffort (ep_ReasoningEffort profile) ;;
  fail_if match decision with
          | Some d => negb (bool_decide (ep_Target profile = rd_Selected d))
          | None => false
          end
    with ErrProfileTarget ;;
  Ok tt.
