(* ===== verification/ResolverTheory.v ===== *)
(** * The resolver selects the preferred suitable model

    What internal/routing/resolver.go and accounting.go promise their
    callers: the outcome of [ResolveV1] on every branch, that a selected model
    satisfies the requirement inside the budget, that no suitable model is
    preferred to it, that reservations stay inside the granted budget, and
    that the fallback chain is finite and stays valid. *)

From S2P Require Import Prelude Routing Resolver Catalog.
#[local] Open Scope string_scope.
#[local] Open Scope list_scope.
#[local] Open Scope Z_scope.

(** ** Specification *)

(** What a requirement and a budget ask of a model. *)
Record suitable (r : RoutingRequirementV1) (b : BudgetGrantV1) (m : ModelCapabilityV1) : Prop := {
  su_candidate : rr_Candidates r = [] \/ mc_ID m ∈ rr_Candidates r;
  su_caps : forall c, c ∈ rr_Capabilities r -> c ∈ mc_Capabilities m;
  su_quality : qualityRank (minQualityForComplexity (rr_Complexity r)) <= qualityRank (mc_Quality m);
  su_cost : costUnits (mc_Cost m) <= bg_MaxCostUnits b;
  su_context : bg_ContextBytes b <= mc_ContextLimitBytes m;
  su_output : bg_OutputBytes b <= mc_MaxOutputBytes m }.

(** The preference key of a model: its position in the candidate list, the
    distance to the requested quality and latency, its cost, its ID. *)
Definition preference (r : RoutingRequirementV1) (m : ModelCapabilityV1) : modelScore := {|
  candidateRank :=
    if 0 <? len_slice (rr_Candidates r)
    then default 0 (candidate_index (rr_Candidates r) !! mc_ID m)
    else len_slice (rr_Candidates r) + 1;
  qualityDelta := Z.abs (qualityRank (mc_Quality m) - qualityRank (rr_Quality r));
  latencyDelta := Z.abs (latencyRank (mc_Latency m) - latencyRank (rr_Latency r));
  score_costUnits := costUnits (mc_Cost m);
  score_id := mc_ID m |}.

(** ** The score order *)

Lemma modelScore_less_spec s t :
  modelScore_less s t = true <->
  candidateRank s < candidateRank t \/ candidateRank s = candidateRank t /\
  (qualityDelta s < qualityDelta t \/ qualityDelta s = qualityDelta t /\
   (latencyDelta s < latencyDelta t \/ latencyDelta s = latencyDelta t /\
    (score_costUnits s < score_costUnits t \/ score_costUnits s = score_costUnits t /\
     String.ltb (score_id s) (score_id t) = true))).
Proof.
  unfold modelScore_less.
  repeat match goal with |- context [negb (?a =? ?b)] => destruct (Z.eqb_spec a b); simpl end;
    rewrite ?Z.ltb_lt; intuition lia.
Qed.

Lemma modelScore_less_asym s t : modelScore_less s t = true -> modelScore_less t s = false.
Proof.
  intros Hst. apply not_true_iff_false. rewrite modelScore_less_spec in *.
  intros Hts. assert (String.ltb (score_id s) (score_id t) = true -> String.ltb (score_id t) (score_id s) = false)
    by apply string_ltb_asym. intuition (lia || congruence).
Qed.

Lemma string_ltb_trichotomy s t : s = t \/ String.ltb s t = true \/ String.ltb t s = true.
Proof.
  destruct (String.ltb s t) eqn:E1; [by auto|]. destruct (String.ltb t s) eqn:E2; [by auto|].
  left. apply string_not_ltb in E1, E2. by apply (anti_symm String.le).
Qed.

Ltac lex_cases s t :=
  destruct (Z.lt_trichotomy (candidateRank s) (candidateRank t)) as [?|[?|?]];
  destruct (Z.lt_trichotomy (qualityDelta s) (qualityDelta t)) as [?|[?|?]];
  destruct (Z.lt_trichotomy (latencyDelta s) (latencyDelta t)) as [?|[?|?]];
  destruct (Z.lt_trichotomy (score_costUnits s) (score_costUnits t)) as [?|[?|?]].

Lemma modelScore_less_total s t :
  s = t \/ modelScore_less s t = true \/ modelScore_less t s = true.
Proof.
  rewrite !modelScore_less_spec.
  destruct (string_ltb_trichotomy (score_id s) (score_id t)) as [?|[?|?]]; lex_cases s t;
    try (right; solve [intuition lia]).
  left. destruct s, t; simpl in *; by subst.
Qed.

Lemma modelScore_less_trans s t u :
  modelScore_less s t = true -> modelScore_less t u = true -> modelScore_less s u = true.
Proof.
  rewrite !modelScore_less_spec. intros H1 H2.
  pose proof (string_ltb_trans (score_id s) (score_id t) (score_id u)).
  lex_cases s u; try lia; intuition lia.
Qed.

Lemma modelScore_less_ntrans s t u :
  modelScore_less t s = false -> modelScore_less u t = false -> modelScore_less u s = false.
Proof.
  intros H1 H2. destruct (modelScore_less u s) eqn:E; [|done].
  destruct (modelScore_less_total s t) as [->|[Hst|Hts]]; [congruence| |congruence].
  by rewrite (modelScore_less_trans u s t E Hst) in H2.
Qed.

(** ** Eligibility *)

Lemma containsAll_spec have required :
  containsAll have required = true <-> forall c, c ∈ required -> c ∈ have.
Proof.
  unfold containsAll. rewrite forallb_forall. setoid_rewrite bool_decide_eq_true.
  setoid_rewrite elem_of_list_to_set. setoid_rewrite <-list_elem_of_In. done.
Qed.

Lemma abs_spec z : abs z = Z.abs z.
Proof. unfold abs. destruct (Z.ltb_spec z 0); lia. Qed.

(** The index map finds a candidate's position, and only candidates. *)
Lemma candidate_index_app l1 l2 m k :
  fold_left (fun allowed '(index, candidate) => <[candidate := index]> allowed)
    (imap (fun i c => (Z.of_nat (k + i), c)) (l1 ++ l2)) (m : gmap string Z) =
  fold_left (fun allowed '(index, candidate) => <[candidate := index]> allowed)
    (imap (fun i c => (Z.of_nat (k + length l1 + i), c)) l2)
    (fold_left (fun allowed '(index, candidate) => <[candidate := index]> allowed)
       (imap (fun i c => (Z.of_nat (k + i), c)) l1) m).
Proof.
  rewrite imap_app, fold_left_app. f_equal. apply imap_ext. intros i x _. simpl. f_equal. lia.
Qed.

Lemma candidate_index_is_Some l id : is_Some (candidate_index l !! id) <-> id ∈ l.
Proof.
  unfold candidate_index. induction l as [|c l IH] using rev_ind.
  - simpl. rewrite lookup_empty. split; [by intros []|set_solver].
  - pose proof (candidate_index_app l [c] ∅ 0) as Heq. simpl in Heq. rewrite Heq. clear Heq.
    rewrite elem_of_app, list_elem_of_singleton. destruct (decide (c = id)) as [->|Hne].
    + rewrite lookup_insert_eq. naive_solver.
    + rewrite lookup_insert_ne by done. rewrite IH. naive_solver.
Qed.

Definition candidate_rank (r : RoutingRequirementV1) (m : ModelCapabilityV1) : option Z :=
  if 0 <? len_slice (rr_Candidates r)
  then candidate_index (rr_Candidates r) !! mc_ID m
  else Some (len_slice (rr_Candidates r) + 1).

Lemma candidate_rank_spec r m rank :
  candidate_rank r m = Some rank <->
  (rr_Candidates r = [] \/ mc_ID m ∈ rr_Candidates r) /\ rank = candidateRank (preference r m).
Proof.
  unfold candidate_rank, preference. simpl.
  pose proof (candidate_index_is_Some (rr_Candidates r) (mc_ID m)) as Hc.
  destruct (candidate_index (rr_Candidates r) !! mc_ID m) as [i|] eqn:E.
  - apply proj1 in Hc. specialize (Hc (ltac:(by eexists))).
    destruct (0 <? len_slice _); naive_solver.
  - assert (mc_ID m ∉ rr_Candidates r) by (rewrite <-Hc; by intros []).
    unfold len_slice. destruct (rr_Candidates r); simpl; [naive_solver|].
    split; [done|]. naive_solver.
Qed.

Lemma eligible_one_spec r b m e :
  eligible_one r b m = Some e <->
  suitable r b m /\ e = {| em_model := m; em_score := preference r m |}.
Proof.
  unfold eligible_one. cbv zeta. fold (candidate_rank r m). rewrite !abs_spec.
  destruct (candidate_rank r m) as [rank|] eqn:Hr.
  - apply candidate_rank_spec in Hr as [Hc ->].
    match goal with |- context [if ?c then None else _] => destruct c eqn:E end.
    + split; [done|]. intros [[_ H1 H2 H3 H4 H5] _]. exfalso.
      rewrite <-containsAll_spec in H1. rewrite H1, !orb_true_iff, !Z.ltb_lt in E. simpl in E.
      intuition (lia || congruence).
    + rewrite !orb_false_iff, negb_false_iff, containsAll_spec, !Z.ltb_ge in E.
      split; [intros [= <-]; split; [|done]; constructor; intuition|by intros [_ ->]].
  - split; [done|]. intros [[Hc _ _ _ _ _] _].
    assert (candidate_rank r m = Some (candidateRank (preference r m))) as Hs
      by by apply candidate_rank_spec.
    congruence.
Qed.

(** The decision with another fallback list *)
Definition decision_set_fallback (d : RoutingDecisionV1) (f : list Target) : RoutingDecisionV1 := {|
  rd_SchemaVersion := rd_SchemaVersion d; rd_CatalogHash := rd_CatalogHash d;
  rd_Requirement := rd_Requirement d; rd_Selected := rd_Selected d;
  rd_ReasonCodes := rd_ReasonCodes d; rd_Budget := rd_Budget d; rd_Fallback := f;
  rd_FallbackPolicy := rd_FallbackPolicy d; rd_PromptProfile := rd_PromptProfile d |}.

Section Resolver.
Context `{CatalogDigest}.
Implicit Types (rq : ResolveRequestV1) (d : RoutingDecisionV1).

(** The inputs [ResolveV1] accepts. *)
Record request_wf rq : Prop := {
  rqw_requirement : requirement_wf (rq_Requirement rq);
  rqw_budget : budget_wf (rq_Budget rq);
  rqw_catalog : catalog_wf (rq_Catalog rq);
  rqw_hash : rq_CatalogHash rq = "" \/ rq_CatalogHash rq = catalog_digest (rq_Catalog rq) }.

Lemma resolve_candidates_elem rq e :
  e ∈ resolve_candidates rq <->
  exists m, m ∈ cat_Models (rq_Catalog rq) /\
    suitable (rq_Requirement rq) (resolve_budget rq) m /\
    e = {| em_model := m; em_score := preference (rq_Requirement rq) m |}.
Proof.
  unfold resolve_candidates, eligibleModels. rewrite sort_slice_elem, list_elem_of_omap.
  setoid_rewrite eligible_one_spec. done.
Qed.

Lemma CatalogHash_ok c h : CatalogHash c = Ok h <-> catalog_wf c /\ h = catalog_digest c.
Proof. unfold CatalogHash. rewrite bind_unit_ok, ValidateCatalog_spec. naive_solver. Qed.

Lemma resolve_budget_wf rq : request_wf rq -> budget_wf (resolve_budget rq).
Proof.
  intros [[] Hb _ _]. unfold resolve_budget, restrictBudget, budget_wf, budget_range in *. simpl.
  repeat case_match; bool_props; lia.
Qed.

Lemma ResolveV1_ok_iff rq d :
  ResolveV1 rq = Ok d <->
  request_wf rq /\ exists selected others,
    resolve_candidates rq = selected :: others /\
    d = resolve_decision rq (catalog_digest (rq_Catalog rq)) selected others /\
    decision_wf d.
Proof.
  unfold ResolveV1. rewrite !bind_unit_ok, bind_ok, ValidateRequirement_spec,
    ValidateBudgetGrant_spec, ValidateCatalog_spec. setoid_rewrite CatalogHash_ok. split.
  - intros (Hr & Hb & Hc & h & [_ ->] & Hrun). apply fail_if_ok in Hrun as [Hh Hrun].
    split; [constructor; try done; bool_props; rewrite !negb_false_iff, !String.eqb_eq in Hh; naive_solver|].
    destruct (resolve_candidates rq) as [|selected others]; [done|].
    apply bind_unit_ok in Hrun as [Hd [= <-]]. apply ValidateDecision_spec in Hd. eauto 10.
  - intros ([Hr Hb Hc Hh] & selected & others & Hcs & -> & Hd). split_and!; [done..|].
    eexists. split; [done|]. rewrite Hcs. apply fail_if_ok. split.
    + rewrite andb_false_iff, !negb_false_iff, !String.eqb_eq. naive_solver.
    + apply bind_unit_ok. by rewrite ValidateDecision_spec.
Qed.

(** *** The decision record *)

Lemma reasonCodes_valid r m score (b : bool) reasons :
  reasons = reasonCodes r m score ++ (if b then ["fallback_declared"] else ["fallback_disabled"]) ->
  validComplexity (rr_Complexity r) = true -> validQuality (mc_Quality m) = true ->
  validLatency (mc_Latency m) = true -> validCost (mc_Cost m) = true ->
  1 <= len_slice reasons <= MaxReasonCodes /\
  Forall (fun c => validReason c = true) reasons /\ NoDup reasons.
Proof.
  unfold validComplexity, validQuality, validLatency, validCost, reasonCodes.
  rewrite !orb_true_iff, !String.eqb_eq. intros Hreasons Hc Hq Hl Hk.
  assert (forall l, forallb validReason l && negb (has_dup [] l) = true ->
            Forall (fun c => validReason c = true) l /\ NoDup l) as Hdec.
  { intros l [Hf Hd]%andb_true_iff. apply negb_true_iff, has_dup_spec in Hd as [? _].
    split; [|done]. rewrite Forall_forall. intros x Hx%list_elem_of_In.
    rewrite forallb_forall in Hf. by apply Hf. }
  split; [subst reasons; unfold len_slice; repeat case_match; simpl; unfold MaxReasonCodes; lia|].
  apply Hdec. subst reasons.
  destruct Hc as [[->| ->]| ->], Hq as [[->| ->]| ->], Hl as [[->| ->]| ->], Hk as [[->| ->]| ->], b,
    ((0 <? len_slice (rr_Candidates r)) && (candidateRank score <=? len_slice (rr_Candidates r)));
    vm_compute; reflexivity.
Qed.

(** A fallback route that names the selected target again. *)
Definition fallback_clash rq (selected : eligibleModel) (others : list eligibleModel) : bool :=
  rr_AllowModelFallback (rq_Requirement rq) &&
  existsb (fun c => bool_decide (mc_Target (em_model c) = mc_Target (em_model selected)))
    (take (Z.to_nat MaxFallbacks) others).

Lemma take_fallbacks {A} (l : list A) :
  take (Z.to_nat (Z.min (len_slice l) MaxFallbacks)) l = take (Z.to_nat MaxFallbacks) l.
Proof.
  unfold len_slice. destruct (decide (Z.of_nat (length l) <= MaxFallbacks)).
  - rewrite Z.min_l, Nat2Z.id by done. rewrite !take_ge by lia. done.
  - by rewrite Z.min_r by lia.
Qed.

Lemma resolve_decision_wf' rq selected others :
  request_wf rq -> (forall e, e ∈ selected :: others -> e ∈ resolve_candidates rq) ->
  decision_wf (resolve_decision rq (catalog_digest (rq_Catalog rq)) selected others) <->
  fallback_clash rq selected others = false.
Proof.
  intros Hrq Hcs.
  assert (forall e, e ∈ selected :: others -> model_wf (em_model e)) as Hmodels.
  { intros e He%Hcs. apply resolve_candidates_elem in He as (m & Hm & _ & ->).
    destruct Hrq as [_ _ [_ _ _ Hall _] _]. rewrite Forall_forall in Hall. by apply Hall. }
  assert (model_wf (em_model selected)) as [? Ht ? ? ? ? ? ? ?] by (apply Hmodels; set_solver).
  pose proof (rqw_requirement _ Hrq) as Hreq. pose proof Hreq as [].
  destruct (reasonCodes_valid (rq_Requirement rq) (em_model selected) (em_score selected)
    (rr_AllowModelFallback (rq_Requirement rq)) _ eq_refl) as (? & ? & ?); [done..|].
  pose proof (catalog_digest_hash (rq_Catalog rq)). pose proof (resolve_budget_wf rq Hrq).
  unfold fallback_clash, resolve_decision. rewrite take_fallbacks.
  set (fb := take (Z.to_nat MaxFallbacks) others).
  assert (Forall (fun c => model_wf (em_model c)) fb) as Hfb.
  { rewrite Forall_forall. intros c Hc. apply Hmodels. right. by eapply elem_of_take in Hc as (? & ?%list_elem_of_lookup_2 & _). }
  assert (len_slice fb <= MaxFallbacks) as Hlen.
  { unfold len_slice, fb. rewrite length_take. unfold MaxFallbacks. lia. }
  destruct (rr_AllowModelFallback (rq_Requirement rq)) eqn:Hallow; simpl.
  - assert (len_slice (map (λ c : eligibleModel, mc_Target (em_model c)) fb) = len_slice fb) as Hl
      by (unfold len_slice; by rewrite length_map).
    split.
    + intros [? ? ? ? ? ? ? ? ? ? ? Hf ?]. simpl in *. apply not_true_iff_false.
      rewrite existsb_exists. intros (c & Hc%list_elem_of_In & Heq%bool_decide_eq_true).
      rewrite Forall_forall in Hf. destruct (Hf (mc_Target (em_model c))) as [_ Hne]; [|done].
      apply list_elem_of_fmap. eauto.
    + intros Hclash. apply not_true_iff_false in Hclash. rewrite existsb_exists in Hclash.
      constructor; simpl; rewrite ?Hl; try done.
      * constructor; simpl; [by right| |done|done]. unfold MaxFallbacks, len_slice in *. lia.
      * rewrite Forall_forall. intros t Ht'. apply list_elem_of_fmap in Ht' as (c & -> & Hc).
        rewrite Forall_forall in Hfb. destruct (Hfb c Hc). split; [done|]. intros Heq. apply Hclash.
        exists c. rewrite <-list_elem_of_In. split; [done|]. by apply bool_decide_eq_true.
  - split; [done|]. intros _. constructor; simpl; try done.
    constructor; simpl; [by left|unfold MaxFallbacks; lia|done|done].
Qed.


Lemma resolve_decision_wf rq selected others :
  request_wf rq -> resolve_candidates rq = selected :: others ->
  decision_wf (resolve_decision rq (catalog_digest (rq_Catalog rq)) selected others) <->
  fallback_clash rq selected others = false.
Proof. intros Hrq Hcs. apply resolve_decision_wf'; [done|]. by rewrite Hcs. Qed.

(** A decision that is well formed but for a clashing fallback target. *)
Lemma ValidateDecision_clash d :
  decision_wf (decision_set_fallback d []) -> fp_Mode (rd_FallbackPolicy d) = FallbackEligible ->
  len_slice (rd_Fallback d) <= MaxFallbacks -> ~ decision_wf d ->
  ValidateDecision d = Err (contractError CodeInvalidFallback
    "fallback target is invalid or duplicates the selected target" "").
Proof.
  intros Hok Hmode Hlen Hbad. rewrite <-ValidateDecision_spec in Hok, Hbad.
  unfold ValidateDecision in *. simpl in Hok.
  do 7 (match type of Hok with
        | (?m ≫= _) = _ => destruct m; [|discriminate Hok]; simpl in Hok, Hbad |- *
        | (if ?c then _ else _) = _ => destruct c; [discriminate Hok|]
        end).
  assert (MaxFallbacks <? len_slice (rd_Fallback d) = false) as Hl by (by apply Z.ltb_ge).
  rewrite Hl, Hmode in *. simpl in *.
  destruct (if _ : bool then Err _ else Ok tt) as [[]|] eqn:Hp in Hok; [|discriminate Hok].
  rewrite Hp in Hbad |- *.
  match goal with |- range_loop ?body tt ?l ≫= _ = Err ?e =>
    destruct (range_loop_const_err body tt l e) as [[[] Hr]|Hr] end.
  - intros [] t. destruct (negb _ || _); [by right|left; by eexists].
  - rewrite Hr in Hbad. by destruct Hbad.
  - by rewrite Hr.
Qed.

(** *** The properties of the resolver *)

Lemma resolve_no_request rq d : ResolveV1 rq = Ok d -> request_wf rq.
Proof. by intros (? & _)%ResolveV1_ok_iff. Qed.

(** For an accepted request the resolver fails exactly when no model is
    suitable, or when fallback is allowed and one of the next eight
    candidates names the selected target again; otherwise it returns the
    decision built from the sorted candidates. *)
Theorem resolve_outcome rq :
  request_wf rq ->
  ResolveV1 rq =
    match resolve_candidates rq with
    | [] => Err (contractError CodeInvalidTarget
                   "no catalog model satisfies the routing requirement and budget" "")
    | selected :: others =>
        if fallback_clash rq selected others
        then Err (contractError CodeInvalidFallback
                    "fallback target is invalid or duplicates the selected target" "")
        else Ok (resolve_decision rq (catalog_digest (rq_Catalog rq)) selected others)
    end.
Proof.
  intros Hrq. pose proof (resolve_decision_wf rq) as Hwf. destruct Hrq as [Hr Hb Hc Hh] eqn:E.
  unfold ResolveV1.
  rewrite (proj2 (ValidateRequirement_spec _) Hr), (proj2 (ValidateBudgetGrant_spec _) Hb),
    (proj2 (ValidateCatalog_spec _) Hc), (proj2 (CatalogHash_ok _ _) (conj Hc eq_refl)). simpl.
  assert ((rq_CatalogHash rq ≠s "") && (rq_CatalogHash rq ≠s catalog_digest (rq_Catalog rq)) = false) as ->.
  { rewrite andb_false_iff, !negb_false_iff, !String.eqb_eq. naive_solver. }
  destruct (resolve_candidates rq) as [|selected others] eqn:Hcs; [done|].
  specialize (Hwf _ _ Hrq eq_refl). destruct (fallback_clash rq selected others) eqn:Hclash.
  - assert (rr_AllowModelFallback (rq_Requirement rq) = true) as Hallow
      by (unfold fallback_clash in Hclash; by apply andb_true_iff in Hclash as [? _]).
    rewrite ValidateDecision_clash; [done|..].
    + assert (decision_wf (resolve_decision rq (catalog_digest (rq_Catalog rq)) selected [])) as Hd.
      { apply (resolve_decision_wf' rq selected []); [done|by rewrite Hcs; set_solver|].
        unfold fallback_clash. by rewrite take_nil, andb_false_r. }
      destruct Hd as [? ? ? ? ? Hp ? ? ? ? ? ? ?].
      unfold resolve_decision, decision_set_fallback in *. rewrite Hallow in *. simpl in *.
      constructor; try done. constructor; simpl; [by right| |done|done].
      rewrite take_fallbacks. unfold len_slice. rewrite length_map, length_take. unfold MaxFallbacks. lia.
    + unfold resolve_decision. by rewrite Hallow.
    + unfold resolve_decision. rewrite Hallow, take_fallbacks. simpl. unfold len_slice.
      rewrite length_map, length_take. unfold MaxFallbacks. lia.
    + intros Hd%Hwf. congruence.
  - rewrite (proj2 (ValidateDecision_spec _) (proj2 Hwf eq_refl)). done.
Qed.

(** C39: a decision selects a model of the catalog that satisfies the
    requirement inside a budget which expands neither the requirement nor
    the grant, and the decision passes the contract's own validation. *)
Theorem resolve_selects_suitable rq d :
  ResolveV1 rq = Ok d ->
  ValidateDecision d = Ok tt /\
  (exists m, m ∈ cat_Models (rq_Catalog rq) /\ mc_Target m = rd_Selected d /\
     suitable (rq_Requirement rq) (rd_Budget d) m) /\
  (forall t, t ∈ rd_Fallback d ->
     exists m, m ∈ cat_Models (rq_Catalog rq) /\ mc_Target m = t /\
       suitable (rq_Requirement rq) (rd_Budget d) m) /\
  bg_MaxCostUnits (rd_Budget d) = Z.min (rr_MaxCostUnits (rq_Requirement rq)) (bg_MaxCostUnits (rq_Budget rq)) /\
  bg_ContextBytes (rd_Budget d) = Z.min (rr_MaxContextBytes (rq_Requirement rq)) (bg_ContextBytes (rq_Budget rq)) /\
  bg_OutputBytes (rd_Budget d) = Z.min (rr_MaxOutputBytes (rq_Requirement rq)) (bg_OutputBytes (rq_Budget rq)).
Proof.
  intros (Hrq & selected & others & Hcs & -> & Hd)%ResolveV1_ok_iff.
  rewrite ValidateDecision_spec. split; [done|]. simpl.
  assert (forall e, e ∈ selected :: others -> exists m, m ∈ cat_Models (rq_Catalog rq) /\
    mc_Target m = mc_Target (em_model e) /\ suitable (rq_Requirement rq) (resolve_budget rq) m) as He.
  { intros e He. rewrite <-Hcs in He. apply resolve_candidates_elem in He as (m & ? & ? & ->). eauto. }
  split; [apply He; set_solver|]. split.
  - intros t Ht. destruct (rr_AllowModelFallback _); [|set_solver].
    apply list_elem_of_fmap in Ht as (e & -> & (? & ?%list_elem_of_lookup_2 & _)%elem_of_take).
    apply He. by right.
  - split_and!; repeat case_match; bool_props; lia.
Qed.

(** No suitable model of the catalog is preferred to the selected one:
    every other suitable model comes strictly later in the preference order
    (candidate position, quality distance, latency distance, cost, ID). *)
Theorem resolve_optimal rq d :
  ResolveV1 rq = Ok d ->
  exists m, m ∈ cat_Models (rq_Catalog rq) /\ mc_Target m = rd_Selected d /\
    forall m', m' ∈ cat_Models (rq_Catalog rq) ->
      suitable (rq_Requirement rq) (rd_Budget d) m' ->
      m' = m \/ modelScore_less (preference (rq_Requirement rq) m)
                               (preference (rq_Requirement rq) m') = true.
Proof.
  intros (Hrq & selected & others & Hcs & -> & Hd)%ResolveV1_ok_iff.
  assert (selected ∈ resolve_candidates rq) as Hsel by (rewrite Hcs; set_solver).
  apply resolve_candidates_elem in Hsel as (m & Hm & Hsm & ->).
  exists m. split; [done|]. split; [done|]. intros m' Hm' Hs'. simpl in Hs'.
  assert ({| em_model := m'; em_score := preference (rq_Requirement rq) m' |} ∈ resolve_candidates rq) as Hin
    by (apply resolve_candidates_elem; eauto).
  unfold resolve_candidates in Hcs, Hin. apply sort_slice_elem in Hin.
  eapply sort_slice_head in Hcs; [|..|exact Hin].
  - destruct Hcs as [[= -> _]|Hle]; [by left|]. unfold not_after in Hle. simpl in Hle.
    destruct (modelScore_less_total (preference (rq_Requirement rq) m) (preference (rq_Requirement rq) m'))
      as [Heq|[?|?]]; [|by right|congruence].
    left. apply (f_equal score_id) in Heq. simpl in Heq.
    destruct Hrq as [_ _ [_ _ _ _ Hss] _].
    eapply (NoDup_map_inj mc_ID); [|done..]. by apply strictly_sorted_NoDup.
  - intros x y. apply modelScore_less_asym.
  - intros x y z. unfold not_after. apply modelScore_less_ntrans.
Qed.

(** *** Accounting *)

Lemma CostUnitsForTarget_ok c t k :
  CostUnitsForTarget c t = Ok k ->
  catalog_wf c /\ exists m, m ∈ cat_Models c /\ mc_Target m = t /\ k = costUnits (mc_Cost m).
Proof.
  unfold CostUnitsForTarget. intros [Hc Hf]%bind_unit_ok. apply ValidateCatalog_spec in Hc.
  split; [done|]. destruct (List.find _ _) as [m|] eqn:Hm; [|done]. injection Hf as <-.
  apply find_some in Hm as [Hin Heq%bool_decide_eq_true]. apply list_elem_of_In in Hin. eauto.
Qed.

Lemma costUnits_range q : 1 <= costUnits q <= 100.
Proof. unfold costUnits. repeat case_match; lia. Qed.

(** a reservation accounts exactly the catalog's cost of the selected
    route on top of the prior cost, without overflow and inside both the
    global and the granted budget, and it is the record that
    [ValidateRoutingUsageForDecision] accepts. *)
Theorem reserve_exact c d prior index u :
  ReserveRoutingUsageV1 c d prior index = Ok u ->
  0 <= prior /\ 0 <= index <= MaxFallbacks /\
  (exists m, m ∈ cat_Models c /\ mc_Target m = rd_Selected d /\
     ru_CostUnits u = costUnits (mc_Cost m)) /\
  ru_CumulativeCostUnits u = prior + ru_CostUnits u /\
  ru_CumulativeCostUnits u <= Z.min MaxCostUnits (bg_MaxCostUnits (rd_Budget d)) /\
  prior < ru_CumulativeCostUnits u /\
  ru_Target u = rd_Selected d /\
  ValidateRoutingUsageForDecision c d u = Ok tt.
Proof.
  unfold ReserveRoutingUsageV1. rewrite !bind_unit_ok. intros (Hc & Hd & Hrun).
  apply bind_ok in Hrun as (h & Hh & Hrun). apply fail_if_ok in Hrun as [Hhash Hrun].
  apply fail_if_ok in Hrun as [Hprior Hrun]. apply bind_ok in Hrun as (k & Hk & Hrun).
  apply fail_if_ok in Hrun as [Hcum Hrun]. apply bind_unit_ok in Hrun as [Hval [= <-]].
  rewrite orb_false_iff, !Z.ltb_ge in Hprior. rewrite orb_false_iff, !Z.ltb_ge in Hcum.
  apply CostUnitsForTarget_ok in Hk as (_ & m & Hm & Ht & ->).
  pose proof (costUnits_range (mc_Cost m)).
  assert (wrap_int64 (prior + costUnits (mc_Cost m)) = prior + costUnits (mc_Cost m)) as Hw
    by (apply wrap_int64_id; unfold MaxCostUnits in *; lia).
  simpl. rewrite Hw in *.
  assert (0 <= index <= MaxFallbacks) as Hidx.
  { unfold ValidateRoutingUsageForDecision in Hval. rewrite !bind_unit_ok in Hval.
    destruct Hval as (_ & _ & Hu & _). apply ValidateRoutingUsage_spec in Hu as [_ _ Hu _ _]. done. }
  split_and!; try done; try lia. eauto.
Qed.
End Resolver.

(** ** The fallback chain *)

(** [advances d ds]: successive calls of [AdvanceFallbackV1], starting at
    [d], produced the decisions [ds]. *)
Inductive advances : RoutingDecisionV1 -> list RoutingDecisionV1 -> Prop :=
| advances_nil d : advances d []
| advances_cons d d' ds :
    AdvanceFallbackV1 d = Ok (Some d') -> advances d' ds -> advances d (d' :: ds).

Lemma AdvanceFallbackV1_Some d d' :
  AdvanceFallbackV1 d = Ok (Some d') ->
  decision_wf d /\ decision_wf d' /\
  rd_Fallback d = rd_Selected d' :: rd_Fallback d' /\
  rd_Budget d' = rd_Budget d /\ rd_CatalogHash d' = rd_CatalogHash d /\
  rd_Requirement d' = rd_Requirement d /\ rd_FallbackPolicy d' = rd_FallbackPolicy d.
Proof.
  unfold AdvanceFallbackV1. intros [Hd Hrun]%bind_unit_ok.
  destruct (rd_Fallback d) as [|t rest] eqn:Hf; [done|].
  destruct (fp_Mode (rd_FallbackPolicy d) ≠s FallbackEligible); [done|].
  apply bind_unit_ok in Hrun as [Hd' [= <-]].
  apply ValidateDecision_spec in Hd, Hd'. done.
Qed.

(** Along the fallback chain no route is tried twice; the routes are the
    declared fallbacks in their order, at most eight of them; every decision
    on the way is valid and keeps the budget, the catalog and the requirement
    of the first one. *)
Theorem fallback_chain_sound d ds :
  advances d ds ->
  map rd_Selected ds = take (length ds) (rd_Fallback d) /\
  (ds <> [] -> NoDup (map rd_Selected (d :: ds)) /\ Z.of_nat (length ds) <= MaxFallbacks) /\
  Forall (fun d' => ValidateDecision d' = Ok tt /\ rd_Budget d' = rd_Budget d /\
            rd_CatalogHash d' = rd_CatalogHash d /\ rd_Requirement d' = rd_Requirement d) ds.
Proof.
  induction 1 as [d|d d' ds Hadv Hch (IHs & IHn & IHall)]; [done|].
  apply AdvanceFallbackV1_Some in Hadv as (Hd & Hd' & Hf & Hb & Hh & Hr & Hp).
  simpl. rewrite Hf. simpl. rewrite <-IHs. split; [done|]. split.
  - intros _. destruct Hd as [_ _ _ _ _ _ _ _ _ Hcount _ Hall _]. rewrite Hf in Hall, Hcount.
    apply (f_equal length) in IHs as Hlen. rewrite length_map, length_take in Hlen.
    split; [|unfold len_slice in Hcount; simpl in Hcount; lia].
    assert (forall t, t ∈ rd_Selected d' :: map rd_Selected ds -> t <> rd_Selected d) as Hne.
    { intros t Ht. rewrite Forall_forall in Hall. apply Hall.
      rewrite IHs in Ht. apply elem_of_cons in Ht as [->|Ht]; [left|right].
      by apply elem_of_take in Ht as (? & ?%list_elem_of_lookup_2 & _). }
    constructor; [intros Hin; by destruct (Hne _ Hin)|].
    destruct ds as [|d'' ds]; [repeat constructor; set_solver|]. by apply IHn.
  - constructor; [by rewrite ValidateDecision_spec|].
    eapply Forall_impl; [exact IHall|]. simpl. intros e (?&?&?&?). split_and!; congruence.
Qed.

(** The chain of a valid decision cannot be stuck: it ends, or names the
    reason the contract gives. *)
Lemma advance_fallback_ends d :
  rd_Fallback d = [] -> decision_wf d -> AdvanceFallbackV1 d = Ok None.
Proof.
  intros Hf Hd%ValidateDecision_spec. unfold AdvanceFallbackV1. by rewrite Hd, Hf.
Qed.

(** ** Witnesses *)

Definition zero_digest : CatalogDigest := {|
  catalog_digest := fun _ => "0000000000000000000000000000000000000000000000000000000000000000";
  catalog_digest_hash := fun _ => eq_refl |}.

Definition demo_request (fallback : bool) (catalog : CapabilityCatalogV1) : ResolveRequestV1 := {|
  rq_Catalog := catalog; rq_CatalogHash := "";
  rq_Requirement := {|
    rr_SchemaVersion := RoutingRequirementV1Version;
    rr_Capabilities := [CapabilityRepoRead; CapabilityToolUse];
    rr_Complexity := ComplexitySimple; rr_Quality := QualityPremium; rr_Latency := LatencyFast;
    rr_MaxCostUnits := 200; rr_MaxContextBytes := 1024; rr_MaxOutputBytes := 512;
    rr_Candidates := []; rr_PromptProfile := ""; rr_AllowModelFallback := fallback |};
  rq_Budget := {| bg_MaxCostUnits := 150; bg_ContextBytes := 2048; bg_OutputBytes := 256 |} |}.

Definition demo_decision (selected : string) (fallback reasons : list string) : RoutingDecisionV1 := {|
  rd_SchemaVersion := RoutingDecisionV1Version;
  rd_CatalogHash := @catalog_digest zero_digest BuiltinCodexCatalogV2;
  rd_Requirement := rq_Requirement (demo_request true BuiltinCodexCatalogV2);
  rd_Selected := codex_target selected;
  rd_ReasonCodes := ["capability_match"; "complexity_simple"; "quality_preference_premium";
    "latency_preference_balanced"; "cost_preference_medium"; "budget_context"; "budget_output";
    "fallback_declared"] ++ reasons;
  rd_Budget := {| bg_MaxCostUnits := 150; bg_ContextBytes := 1024; bg_OutputBytes := 256 |};
  rd_Fallback := map codex_target fallback;
  rd_FallbackPolicy := {| fp_Mode := FallbackEligible; fp_MaxAttempts := 3;
                          fp_RequireNoSideEffect := true; fp_RequireApproval := true |};
  rd_PromptProfile := "" |}.

Lemma demo_resolves :
  @ResolveV1 zero_digest (demo_request true BuiltinCodexCatalogV2) =
  Ok (demo_decision "gpt-5.6-sol" ["gpt-5.6-terra"; "gpt-5.6-luna"] []).
Proof. vm_compute. reflexivity. Qed.

Lemma resolve_selects_suitable_witness :
  exists m, m ∈ cat_Models BuiltinCodexCatalogV2 /\ mc_Target m = codex_target "gpt-5.6-sol".
Proof.
  destruct (@resolve_selects_suitable zero_digest _ _ demo_resolves) as (_ & (m & ? & ? & _) & _).
  by exists m.
Defined.

Lemma resolve_optimal_witness :
  exists m, m ∈ cat_Models BuiltinCodexCatalogV2 /\ mc_Target m = codex_target "gpt-5.6-sol".
Proof.
  destruct (@resolve_optimal zero_digest _ _ demo_resolves) as (m & ? & ? & _).
  by exists m.
Defined.

Lemma demo_request_wf fallback catalog :
  ValidateCatalog catalog = Ok tt -> @request_wf zero_digest (demo_request fallback catalog).
Proof.
  intros Hc. constructor.
  - apply ValidateRequirement_spec. by destruct fallback; vm_compute.
  - apply ValidateBudgetGrant_spec. by vm_compute.
  - by apply ValidateCatalog_spec.
  - by left.
Qed.

(** The team catalog declares two models with one target: with fallback
    allowed the resolver can only refuse. *)
Lemma resolve_outcome_witness :
  @ResolveV1 zero_digest (demo_request true BuiltinTeamCatalogV1) =
  Err (contractError CodeInvalidFallback "fallback target is invalid or duplicates the selected target" "").
Proof.
  rewrite (@resolve_outcome zero_digest); [vm_compute; reflexivity|].
  apply demo_request_wf. vm_compute. reflexivity.
Defined.

Lemma reserve_exact_witness :
  let u := {| ru_SchemaVersion := RoutingUsageV1Version; ru_Target := codex_target "gpt-5.6-sol";
              ru_RouteIndex := 0; ru_CostUnits := 10; ru_CumulativeCostUnits := 50 |} in
  ValidateRoutingUsage u = Ok tt /\ ru_CumulativeCostUnits u = 40 + ru_CostUnits u.
Proof.
  intros u. split; [vm_compute; reflexivity|].
  apply (@reserve_exact zero_digest BuiltinCodexCatalogV2
    (demo_decision "gpt-5.6-sol" ["gpt-5.6-terra"; "gpt-5.6-luna"] []) 40 0 u).
  vm_compute. reflexivity.
Defined.

Lemma fallback_chain_sound_witness :
  NoDup (map rd_Selected
    [demo_decision "gpt-5.6-sol" ["gpt-5.6-terra"; "gpt-5.6-luna"] [];
     demo_decision "gpt-5.6-terra" ["gpt-5.6-luna"] ["fallback_selected"];
     demo_decision "gpt-5.6-luna" [] ["fallback_selected"]]).
Proof.
  refine (proj1 (proj1 (proj2 (fallback_chain_sound
    (demo_decision "gpt-5.6-sol" ["gpt-5.6-terra"; "gpt-5.6-luna"] [])
    [demo_decision "gpt-5.6-terra" ["gpt-5.6-luna"] ["fallback_selected"];
     demo_decision "gpt-5.6-luna" [] ["fallback_selected"]] _)) _)); [|done].
  apply advances_cons; [vm_compute; reflexivity|].
  apply advances_cons; [vm_compute; reflexivity|]. apply advances_nil.
Defined.
