(* ===== verification/CatalogTheory.v ===== *)
(** * Canonical catalogs and the content-addressed registry

    CanonicalCatalogV1 depends only on the set of declared models, and the
    registry (internal/routing/catalog_registry.go) is an append-only,
    content-addressed store: what a historical decision's hash resolves to
    never changes. *)

From S2P Require Import Prelude Routing Resolver Catalog ResolverTheory.
#[local] Open Scope string_scope.
#[local] Open Scope list_scope.
#[local] Open Scope Z_scope.

(** ** Canonical form *)

Lemma model_less_asym x y : model_less x y = true -> model_less y x = false.
Proof. apply string_ltb_asym. Qed.
Lemma model_less_ntrans x y z :
  not_after model_less x y -> not_after model_less y z -> not_after model_less x z.
Proof. apply string_ltb_ntrans. Qed.

Definition canonical_model (m : ModelCapabilityV1) : ModelCapabilityV1 :=
  set_capabilities m (sort_strings (mc_Capabilities m)).

(** Two lists of models with distinct IDs, sorted, are equal when they are
    permutations of each other. *)
Lemma sorted_models_unique l1 l2 :
  NoDup (map mc_ID l1) -> l1 ≡ₚ l2 ->
  StronglySorted (not_after model_less) l1 -> StronglySorted (not_after model_less) l2 -> l1 = l2.
Proof.
  intros Hnd Hp Hs1 Hs2. eapply StronglySorted_unique_strong; [|exact Hs1|exact Hs2|exact Hp].
  intros x y Hx Hy Hxy Hyx. eapply (NoDup_map_inj mc_ID); [done|done|by rewrite Hp|].
  unfold not_after, model_less in *. apply string_not_ltb in Hxy, Hyx. by apply (anti_symm String.le).
Qed.

(** the canonical form of a catalog does not depend on the order in which
    its models are declared, nor on the order of their capabilities, and a
    catalog the contract accepts is already canonical. *)
Theorem canonical_catalog_unique c1 c2 :
  cat_SchemaVersion c1 = cat_SchemaVersion c2 -> cat_PolicyVersion c1 = cat_PolicyVersion c2 ->
  map canonical_model (cat_Models c1) ≡ₚ map canonical_model (cat_Models c2) ->
  NoDup (map mc_ID (cat_Models c1)) ->
  CanonicalCatalogV1 c1 = CanonicalCatalogV1 c2 /\
  (ValidateCatalog c1 = Ok tt -> CanonicalCatalogV1 c1 = c1).
Proof.
  intros Hs Hp Hm Hnd.
  assert (forall l, map mc_ID (map canonical_model l) = map mc_ID l) as Hids
    by (intros l; rewrite map_map; by apply map_ext).
  assert (forall l, StronglySorted (not_after model_less) (sort_slice model_less l)) as Hsorted
    by (intros l; apply sort_slice_sorted; [apply model_less_asym|apply model_less_ntrans]).
  split.
  - unfold CanonicalCatalogV1, cloneCatalog. rewrite Hs, Hp. f_equal.
    apply sorted_models_unique; [|by rewrite !sort_slice_perm|apply Hsorted..].
    rewrite sort_slice_perm. fold canonical_model. by rewrite Hids.
  - intros [_ _ _ Hwf Hord]%ValidateCatalog_spec. destruct c1 as [sv pv models]. simpl in *.
    unfold CanonicalCatalogV1, cloneCatalog. simpl. f_equal.
    assert (map canonical_model models = models) as Heq.
    { clear -Hwf. induction Hwf as [|m l [? ? ? ? ? ? ? ? [_ Hc]] _ IH]; [done|]. simpl. rewrite IH. f_equal.
      unfold canonical_model. rewrite sort_strings_id; [by destruct m|]. by apply strictly_sorted_le. }
    fold canonical_model. rewrite Heq. apply sorted_models_unique.
    + by rewrite sort_slice_perm.
    + apply sort_slice_perm.
    + apply Hsorted.
    + clear -Hord. induction models as [|m l IH]; [constructor|].
      simpl in Hord. inversion Hord as [|? ? Hs Hall]; subst. constructor; [by apply IH|].
      rewrite Forall_forall in Hall. rewrite Forall_forall. intros x Hx. apply string_ltb_asym, Hall.
      apply list_elem_of_fmap. eauto.
Qed.

(** ** The registry *)

Section Registry.
Context `{CatalogDigest}.
Implicit Types (r : CatalogRegistry) (c : CapabilityCatalogV1).

(** The operations that change a registry *)
Inductive registry_step : CatalogRegistry -> CatalogRegistry -> Prop :=
| step_register r c r' h : Register r c = Ok (r', h) -> registry_step r r'
| step_set_active r c r' h : SetActive r c = Ok (r', h) -> registry_step r r'.

(** Every entry is stored under its own hash and is accepted by the contract. *)
Definition registry_inv r : Prop :=
  forall h c, reg_catalogs r !! h = Some c -> catalog_wf c /\ catalog_digest c = h.

Lemma register_ok r c r' h :
  register r c = Ok (r', h) ->
  h = catalog_digest (CanonicalCatalogV1 c) /\ catalog_wf (CanonicalCatalogV1 c) /\
  reg_activeHash r' = reg_activeHash r /\
  reg_catalogs r' = match reg_catalogs r !! h with
                    | Some _ => reg_catalogs r
                    | None => <[h := CanonicalCatalogV1 c]> (reg_catalogs r)
                    end.
Proof.
  unfold register. cbv zeta.
  destruct (ValidateCatalog (CanonicalCatalogV1 c)) as [[]|] eqn:Hv; simpl; [|done].
  apply ValidateCatalog_spec in Hv.
  rewrite (proj2 (CatalogHash_ok _ _) (conj Hv eq_refl)). simpl.
  destruct (reg_catalogs r !! catalog_digest (CanonicalCatalogV1 c)) as [c'|] eqn:Hl.
  - intros Hrun. go_run Hrun. by rewrite Hl.
  - intros [= <- <-]. by rewrite Hl.
Qed.

Lemma register_inv r c r' h : registry_inv r -> register r c = Ok (r', h) -> registry_inv r'.
Proof.
  intros Hinv (-> & Hwf & _ & Hcs)%register_ok h' c'. rewrite Hcs.
  destruct (reg_catalogs r !! _) as [c0|] eqn:Hl; [apply Hinv|].
  destruct (decide (h' = catalog_digest (CanonicalCatalogV1 c))) as [->|Hne].
  - rewrite lookup_insert_eq. by intros [= <-].
  - rewrite lookup_insert_ne by done. apply Hinv.
Qed.

Lemma register_mono r c r' h : register r c = Ok (r', h) -> reg_catalogs r ⊆ reg_catalogs r'.
Proof.
  intros (-> & _ & _ & ->)%register_ok. destruct (reg_catalogs r !! _) eqn:Hl; [done|].
  by apply insert_subseteq.
Qed.

Lemma registry_step_preserves r r' :
  registry_step r r' -> registry_inv r -> registry_inv r' /\ reg_catalogs r ⊆ reg_catalogs r'.
Proof.
  intros [r1 c r2 h Hr|r1 c r2 h Hr] Hinv.
  - split; [by eapply register_inv|by eapply register_mono].
  - unfold SetActive in Hr. apply bind_ok in Hr as ([r3 h3] & Hr & [= <- <-]).
    split; [exact (register_inv _ _ _ _ Hinv Hr)|exact (register_mono _ _ _ _ Hr)].
Qed.

Lemma registry_new_inv active historical r :
  NewCatalogRegistry active historical = Ok r -> registry_inv r.
Proof.
  unfold NewCatalogRegistry. intros (r0 & Hloop & Hr)%bind_ok.
  apply bind_ok in Hr as ([r1 h1] & Hr & [= <-]).
  assert (registry_inv r0) as Hinv.
  { eapply (range_loop_inv _ (fun s _ => registry_inv s)); [| |exact Hloop].
    - intros s c xs s' Hs Hb. apply bind_ok in Hb as ([s1 h] & Hb & [= <-]). by eapply register_inv.
    - intros h0 c0 Hl. simpl in Hl. by rewrite lookup_empty in Hl. }
  exact (register_inv _ _ _ _ Hinv Hr).
Qed.

(** in every registry reached from a new one, a hash resolves only to a
    valid catalog with that very hash; whatever a hash resolved to, it still
    resolves to after any further registrations and activations. *)
Theorem registry_content_addressed active historical r r' h c :
  NewCatalogRegistry active historical = Ok r ->
  rtc registry_step r r' ->
  (CatalogByHash r h = Some c -> CatalogByHash r' h = Some c) /\
  (CatalogByHash r' h = Some c -> ValidateCatalog c = Ok tt /\ CatalogHash c = Ok h).
Proof.
  intros Hinv%registry_new_inv Hsteps.
  assert (registry_inv r' /\ reg_catalogs r ⊆ reg_catalogs r') as [Hinv' Hsub].
  { clear -Hinv Hsteps. induction Hsteps as [|r1 r2 r3 Hs _ IH]; [done|].
    apply registry_step_preserves in Hs as [Hi Hs]; [|done].
    destruct (IH Hi) as [? ?]. split; [done|]. by transitivity (reg_catalogs r2). }
  unfold CatalogByHash, cloneCatalog. rewrite !option_fmap_id.
  split; [intros Hl; by eapply lookup_weaken|]. intros Hl. apply Hinv' in Hl as [Hwf <-].
  split; [by apply ValidateCatalog_spec|]. by apply CatalogHash_ok.
Qed.

(** after SetActive the active catalog is served under the returned
    hash; it is the canonical form of the argument unless an older catalog
    has the same SHA-256. *)
Theorem set_active_serves r c r' h :
  registry_inv r -> SetActive r c = Ok (r', h) ->
  h = catalog_digest (CanonicalCatalogV1 c) /\
  exists c', ActiveCatalog r' = Ok (c', h) /\ CatalogHash c' = Ok h /\
    (reg_catalogs r !! h = None -> c' = CanonicalCatalogV1 c).
Proof.
  intros Hinv Hr. unfold SetActive in Hr. apply bind_ok in Hr as ([r1 h1] & Hr & [= <- <-]).
  pose proof (register_inv _ _ _ _ Hinv Hr) as Hinv'. apply register_ok in Hr as (-> & Hwf & Hact & Hcs).
  split; [done|]. unfold ActiveCatalog. simpl.
  destruct (reg_catalogs r !! catalog_digest (CanonicalCatalogV1 c)) as [c0|] eqn:Hl.
  - rewrite Hcs, Hl. exists c0. split; [done|]. split; [|done].
    apply CatalogHash_ok. destruct (Hinv _ _ Hl). done.
  - rewrite Hcs, lookup_insert_eq. exists (CanonicalCatalogV1 c). split; [done|]. split; [|done].
    by apply CatalogHash_ok.
Qed.
End Registry.

(** ** Witnesses *)

Definition demo_registry : CatalogRegistry :=
  {| reg_activeHash := ""; reg_catalogs := ∅ |}.

Definition reversed_catalog : CapabilityCatalogV1 := {|
  cat_SchemaVersion := cat_SchemaVersion BuiltinCatalogV1;
  cat_PolicyVersion := cat_PolicyVersion BuiltinCatalogV1;
  cat_Models := rev (cat_Models BuiltinCatalogV1) |}.

Lemma canonical_catalog_unique_witness :
  CanonicalCatalogV1 BuiltinCatalogV1 = CanonicalCatalogV1 reversed_catalog.
Proof.
  refine (proj1 (canonical_catalog_unique BuiltinCatalogV1 reversed_catalog eq_refl eq_refl _ _)).
  - apply Permutation_map, Permutation_rev.
  - apply has_dup_NoDup. vm_compute. reflexivity.
Defined.

Lemma registry_content_addressed_witness :
  exists r, @BuiltinCatalogRegistry zero_digest = Ok r /\
    @CatalogByHash r (@catalog_digest zero_digest BuiltinCatalogV1) = Some BuiltinCatalogV1 /\
    ValidateCatalog BuiltinCatalogV1 = Ok tt.
Proof.
  destruct (@BuiltinCatalogRegistry zero_digest) as [r|] eqn:Hr; [|by vm_compute in Hr].
  exists r. split; [done|].
  assert (CatalogByHash r (@catalog_digest zero_digest BuiltinCatalogV1) = Some BuiltinCatalogV1) as Hc.
  { vm_compute in Hr. injection Hr as <-. vm_compute. reflexivity. }
  split; [exact Hc|].
  exact (proj1 (proj2 (@registry_content_addressed zero_digest _ _ _ _ _ _ Hr (rtc_refl _ r)) Hc)).
Defined.

Lemma set_active_serves_witness :
  exists r, @SetActive zero_digest demo_registry BuiltinTeamCatalogV1 = Ok r /\
    snd r = @catalog_digest zero_digest BuiltinTeamCatalogV1.
Proof.
  destruct (@SetActive zero_digest demo_registry BuiltinTeamCatalogV1) as [[r h]|] eqn:Hr; [|by vm_compute in Hr].
  exists (r, h). split; [done|].
  exact (proj1 (@set_active_serves zero_digest demo_registry _ r h ltac:(intros ? ? Hl; discriminate Hl) Hr)).
Defined.
