(* ===== verification/Workflow.v ===== *)
(** * Workflow documents: data, normalisation and agent resolution

    internal/workflow/model.go and the document part of parse.go.  A value of
    Go type [any] is one of the shapes a JSON or YAML decoder produces;
    [AOther] stands for the shapes no function of the package accepts (maps,
    slices other than []string, structs).  A float64 is represented by its
    shortest decimal renderings, with strconv.FormatFloat(v, 'g', -1, 64) and
    with encoding/json.  Decoding of files is not modelled. *)

From S2P Require Import Prelude GoText Routing.
#[local] Open Scope string_scope.
#[local] Open Scope list_scope.
#[local] Open Scope Z_scope.

Definition APIVersion := "fishyume/v1".
Definition ContextPolicyAPIVersion := "fishyume/v2".
Definition LegacyAPIVersion := "wf/v1".
Definition MaxAllowedConcurrency := 32.
Definition MaxSummaryBytes := 16 * 1024.
Definition MaxPromptBytes := 128 * 1024.
Definition MaxResultBytes := 64 * 1024.
Definition MaxResultItems := 256.
Definition MaxArtifactBytes := 4096.

(** ** Values *)

Inductive any :=
| ANil
| AString (s : string)
| ABool (b : bool)
| ANumber (literal : string)
| AFloat (g_format json_format : string)
| AInt (z : Z)
| AStrings (o : option (list string))
| AOther.
#[export] Instance any_eq_dec : EqDecision any.
Proof. solve_decision. Defined.

Definition is_nil (v : any) : bool := match v with ANil => true | _ => false end.

Inductive ScalarError := ErrNullScalar | ErrUnsupportedScalar.

Definition normalizeScalar (value : any) : result ScalarError any :=
  match value with
  | AString _ | ABool _ | ANumber _ => Ok value
  | AFloat g _ => Ok (ANumber g)
  | AInt z => Ok (ANumber (pretty z))
  | ANil => Err ErrNullScalar
  | AStrings _ | AOther => Err ErrUnsupportedScalar
  end.

Definition scalarKind (value : any) : string :=
  match value with
  | AString _ => "string"
  | ABool _ => "boolean"
  | ANumber _ => "number"
  | _ => "unknown"
  end.

(** json.Marshal on a value; [None] is an error. *)
Definition json_marshal (value : any) : option string :=
  match value with
  | ANil => Some "null"
  | AString s => Some (json_string s)
  | ABool b => Some (json_bool b)
  | ANumber lit => if lit =s "" then Some "0" else if valid_number lit then Some lit else None
  | AFloat _ j => Some j
  | AInt z => Some (pretty z)
  | AStrings o => Some (json_strings o)
  | AOther => None
  end.

(** ** Documents *)

Record ContextPolicy := {
  cp_ProjectInstructions : list string;
  cp_Dependencies : list string }.

Record InputDeclaration := { in_Required : bool; in_Default : any }.

Record AgentSelection := {
  as_Driver : string;
  as_Target : string;
  as_Routing : option RoutingRequirementV1 }.

Record Defaults := {
  df_Agent : AgentSelection;
  df_Backend : string;
  df_Tool : string;
  df_Runtime : string }.

(** [All] and [Any] are slices whose nil value is tested. *)
Inductive Condition := mkCondition {
  c_Node : string;
  c_Field : string;
  c_Equals : any;
  c_All : option (list Condition);
  c_Any : option (list Condition);
  c_Not : option Condition }.

Record Node := {
  n_Type : string;
  n_DependsOn : list string;
  n_When : option Condition;
  n_Task : string;
  n_Prompt : string;
  n_Agent : AgentSelection;
  n_Tool : string;
  n_Runtime : string;
  n_RequiredSkills : list string;
  n_Context : option ContextPolicy }.

Record Document := {
  d_APIVersion : string;
  d_Name : string;
  d_Inputs : gmap string InputDeclaration;
  d_Defaults : Defaults;
  d_MaxConcurrency : Z;  (* Execution.MaxConcurrency *)
  d_Context : option ContextPolicy;
  d_Nodes : gmap string Node }.

Record InputQuestion := {
  q_ID : string; q_Prompt : string; q_Choices : list string; q_Required : bool }.
Record Usage := { us_InputTokensEstimated : Z; us_OutputTokensEstimated : Z }.
Record Result := {
  r_Summary : string;
  r_Artifacts : option (list string);
  r_Warnings : option (list string);
  r_Checks : option (list string);
  r_Questions : list InputQuestion;
  r_Usage : Usage;
  r_Decision : string;
  r_Reason : string }.
#[export] Instance InputQuestion_eq_dec : EqDecision InputQuestion.
Proof. solve_decision. Defined.
#[export] Instance Usage_eq_dec : EqDecision Usage.
Proof. solve_decision. Defined.
#[export] Instance Result_eq_dec : EqDecision Result.
Proof. solve_decision. Defined.

Record MemoryBinding := { mb_ID : string; mb_Reason : string }.
(** ContextBindings.MemoryByNode *)
Notation ContextBindings := (gmap string (list MemoryBinding)).

Record Normalized := {
  nz_Document : Document;
  nz_Inputs : gmap string any;
  nz_TopologicalOrder : list string;
  nz_Warnings : list string;
  nz_ContextPolicyVersion : string;
  nz_ContextBindings : ContextBindings }.

(** The zero values of Go *)
Definition no_agent : AgentSelection := {| as_Driver := ""; as_Target := ""; as_Routing := None |}.
Definition zero_node : Node := {|
  n_Type := ""; n_DependsOn := []; n_When := None; n_Task := ""; n_Prompt := "";
  n_Agent := no_agent; n_Tool := ""; n_Runtime := ""; n_RequiredSkills := []; n_Context := None |}.
(** [doc.Nodes[id]]: the zero Node for a missing key *)
Definition node_at (doc : Document) (id : string) : Node := default zero_node (d_Nodes doc !! id).

(** nodeIDPattern *)
Definition id_rest (c : ascii) : bool := is_alpha c || is_digit c || one_of "_-" c.
Definition valid_node_id (s : string) : bool := match_ident is_alpha id_rest 63 s.

(** ** Effective policies and agent resolution *)

Definition EffectiveContextPolicy (document : Document) (node : Node) : ContextPolicy :=
  let policy := {| cp_ProjectInstructions := []; cp_Dependencies := [] |} in
  let policy := match d_Context document with Some p => p | None => policy end in
  match n_Context node with Some p => p | None => policy end.

Definition EffectiveRoutingRequirement (document : Document) (node : Node) : RoutingRequirementV1 :=
  let requirement := DefaultRequirementV1 in
  let requirement := match as_Routing (df_Agent (d_Defaults document)) with
                     | Some r => cloneRequirement r | None => requirement end in
  match as_Routing (n_Agent node) with Some r => cloneRequirement r | None => requirement end.

(** The first string that is not empty after TrimSpace, trimmed *)
Definition first_trimmed (a b : string) : string :=
  if trim_space a =s "" then trim_space b else trim_space a.

Inductive ResolveError :=
| ErrUnsupportedTool (tool : string)
| ErrDriverConflict (driver legacy : string)
| ErrUnsupportedRuntime (runtime : string)
| ErrTargetConflict (target legacy : string).

Definition ResolveAgent (defaults : Defaults) (node : Node) : result ResolveError (string * string) :=
  let driver := first_trimmed (as_Driver (n_Agent node)) (as_Driver (df_Agent defaults)) in
  let legacyTool := first_trimmed (n_Tool node) (df_Tool defaults) in
  fail_if (legacyTool ≠s "") && (legacyTool ≠s "codex") && (legacyTool ≠s "claude") && (legacyTool ≠s "opencode")
    with ErrUnsupportedTool legacyTool ;;
  let legacyBackend := trim_space (df_Backend defaults) in
  let legacyDriver := if legacyBackend =s "direct" then "codex" else legacyBackend in
  let legacyDriver := if legacyDriver =s "" then legacyTool else legacyDriver in
  fail_if (driver ≠s "") && (legacyDriver ≠s "") && (driver ≠s legacyDriver)
    with ErrDriverConflict driver legacyDriver ;;
  let driver := if driver =s "" then legacyDriver else driver in
  let target := first_trimmed (as_Target (n_Agent node)) (as_Target (df_Agent defaults)) in
  let legacyTarget := first_trimmed (n_Runtime node) (df_Runtime defaults) in
  fail_if (legacyTarget ≠s "") && (legacyTarget ≠s "local") && (legacyTarget ≠s "wsl") && (legacyTarget ≠s "ssh")
    with ErrUnsupportedRuntime legacyTarget ;;
  fail_if (target ≠s "") && (legacyTarget ≠s "") && (target ≠s legacyTarget)
    with ErrTargetConflict target legacyTarget ;;
  let target := if target =s "" then legacyTarget else target in
  let target := if target =s "" then "local" else target in
  Ok (driver, target).

(** ** Inputs *)

Inductive InputError :=
| ErrUndeclared (name : string)
| ErrMissing (name : string)
| ErrInput (name : string) (e : ScalarError)
| ErrInputDefault (name : string) (e : ScalarError)
| ErrInputType (name have want : string).

Section Ranged.
Context `{GoRange}.

(** The body of the second loop of ResolveInputs *)
Definition resolve_input (provided : gmap string any) (resolved : gmap string any)
    (name : string) (declaration : InputDeclaration) : result InputError (gmap string any) :=
  let value := match provided !! name with
               | Some v => Some v
               | None => if is_nil (in_Default declaration) then None else Some (in_Default declaration)
               end in
  match value with
  | None => fail_if in_Required declaration with ErrMissing name ;; Ok resolved
  | Some value =>
      normalized ← rmap_err (ErrInput name) (normalizeScalar value);
      if is_nil (in_Default declaration) then Ok (<[name := normalized]> resolved) else
      defaultValue ← rmap_err (ErrInputDefault name) (normalizeScalar (in_Default declaration));
      fail_if scalarKind defaultValue ≠s scalarKind normalized
        with ErrInputType name (scalarKind normalized) (scalarKind defaultValue) ;;
      Ok (<[name := normalized]> resolved)
  end.

Definition ResolveInputs (doc : Document) (provided : gmap string any) : result InputError (gmap string any) :=
  _ ← range_loop (fun _ '(name, _) =>
        fail_if match d_Inputs doc !! name with Some _ => false | None => true end
          with ErrUndeclared name ;; Ok tt)
      tt (go_range "ResolveInputs.provided" provided);
  range_loop (fun resolved '(name, declaration) => resolve_input provided resolved name declaration)
    ∅ (go_range "ResolveInputs.inputs" (d_Inputs doc)).

(** ** normalizeDocument (parse.go) *)

Inductive NormalizeError :=
| ErrUnsupportedAPIVersion (v : string)
| ErrInvalidInputName (name : string)
| ErrNormalizeDefault (name : string) (e : ScalarError)
| ErrNormalizeDefaults (e : ResolveError)
| ErrNormalizeNode (id : string) (e : ResolveError).

Inductive Warning := WarnDefaultsDeprecated | WarnNodeDeprecated (id : string).

Definition set_inputs (doc : Document) (inputs : gmap string InputDeclaration) : Document := {|
  d_APIVersion := d_APIVersion doc; d_Name := d_Name doc; d_Inputs := inputs;
  d_Defaults := d_Defaults doc; d_MaxConcurrency := d_MaxConcurrency doc;
  d_Context := d_Context doc; d_Nodes := d_Nodes doc |}.
Definition set_defaults (doc : Document) (defaults : Defaults) : Document := {|
  d_APIVersion := d_APIVersion doc; d_Name := d_Name doc; d_Inputs := d_Inputs doc;
  d_Defaults := defaults; d_MaxConcurrency := d_MaxConcurrency doc;
  d_Context := d_Context doc; d_Nodes := d_Nodes doc |}.
Definition set_nodes (doc : Document) (nodes : gmap string Node) : Document := {|
  d_APIVersion := d_APIVersion doc; d_Name := d_Name doc; d_Inputs := d_Inputs doc;
  d_Defaults := d_Defaults doc; d_MaxConcurrency := d_MaxConcurrency doc;
  d_Context := d_Context doc; d_Nodes := nodes |}.
Definition set_api_version (doc : Document) (v : string) : Document := {|
  d_APIVersion := v; d_Name := d_Name doc; d_Inputs := d_Inputs doc;
  d_Defaults := d_Defaults doc; d_MaxConcurrency := d_MaxConcurrency doc;
  d_Context := d_Context doc; d_Nodes := d_Nodes doc |}.
Definition set_agent (node : Node) (agent : AgentSelection) : Node := {|
  n_Type := n_Type node; n_DependsOn := n_DependsOn node; n_When := n_When node;
  n_Task := n_Task node; n_Prompt := n_Prompt node; n_Agent := agent;
  n_Tool := ""; n_Runtime := ""; n_RequiredSkills := n_RequiredSkills node;
  n_Context := n_Context node |}.

Definition supported_api_version (v : string) : bool :=
  (v =s APIVersion) || (v =s ContextPolicyAPIVersion) || (v =s LegacyAPIVersion).

Definition normalize_input (inputs : gmap string InputDeclaration) (name : string)
    (declaration : InputDeclaration) : result NormalizeError (gmap string InputDeclaration) :=
  fail_if negb (valid_node_id name) with ErrInvalidInputName name ;;
  if is_nil (in_Default declaration) then Ok inputs else
  value ← rmap_err (ErrNormalizeDefault name) (normalizeScalar (in_Default declaration));
  Ok (<[name := {| in_Required := in_Required declaration; in_Default := value |}]> inputs).

Definition normalize_node (defaults : Defaults) (s : gmap string Node * list Warning)
    (id : string) (node : Node) : result NormalizeError (gmap string Node * list Warning) :=
  let '(nodes, warnings) := s in
  if (n_Tool node ≠s "") || (n_Runtime node ≠s "") then
    '(driver, target) ← rmap_err (ErrNormalizeNode id) (ResolveAgent defaults node);
    Ok (<[id := set_agent node {| as_Driver := driver; as_Target := target; as_Routing := None |}]> nodes,
        warnings ++ [WarnNodeDeprecated id])
  else Ok (<[id := node]> nodes, warnings).

Definition normalizeDocument (doc : Document) : result NormalizeError (Document * list Warning) :=
  fail_if negb (supported_api_version (d_APIVersion doc))
    with ErrUnsupportedAPIVersion (d_APIVersion doc) ;;
  let doc := if d_APIVersion doc =s LegacyAPIVersion then set_api_version doc APIVersion else doc in
  inputs ← range_loop (fun inputs '(name, declaration) => normalize_input inputs name declaration)
             (d_Inputs doc) (go_range "normalizeDocument.inputs" (d_Inputs doc));
  let doc := set_inputs doc inputs in
  '(doc, warnings) ←
    (if (df_Backend (d_Defaults doc) ≠s "") || (df_Tool (d_Defaults doc) ≠s "") || (df_Runtime (d_Defaults doc) ≠s "") then
       '(driver, target) ← rmap_err ErrNormalizeDefaults (ResolveAgent (d_Defaults doc) zero_node);
       Ok (set_defaults doc {| df_Agent := {| as_Driver := driver; as_Target := target; as_Routing := None |};
                               df_Backend := ""; df_Tool := ""; df_Runtime := "" |},
           [WarnDefaultsDeprecated])
     else Ok (doc, []));
  '(nodes, warnings) ← range_loop (fun s '(id, node) => normalize_node (d_Defaults doc) s id node)
             (d_Nodes doc, warnings) (go_range "normalizeDocument.nodes" (d_Nodes doc));
  Ok (set_nodes doc nodes, warnings).
End Ranged.

(** ** Results *)

Inductive ResultError :=
| ErrSummaryRequired | ErrSummaryTooLong | ErrListTooLong | ErrTooManyQuestions
| ErrQuestionIdentity | ErrQuestionDuplicated (id : string) | ErrTooManyChoices
| ErrArtifactTooLong | ErrResultTooLong.

Definition omit_empty_string (k s : string) : list (string * string) :=
  if s =s "" then [] else [(k, json_string s)].
Definition omit_empty_strings (k : string) (o : option (list string)) : list (string * string) :=
  match o with Some (_ :: _) => [(k, json_strings o)] | _ => [] end.
Definition omit_empty_int (k : string) (z : Z) : list (string * string) :=
  if z =? 0 then [] else [(k, pretty z)].

Definition json_InputQuestion (q : InputQuestion) : string :=
  json_object ([("id", json_string (q_ID q)); ("prompt", json_string (q_Prompt q))] ++
    omit_empty_strings "choices" (Some (q_Choices q)) ++
    [("required", json_bool (q_Required q))]).

(** json.Marshal of a Result, in field order with omitempty *)
Definition json_Result (r : Result) : string :=
  json_object (
    omit_empty_string "summary" (r_Summary r) ++
    omit_empty_strings "artifacts" (r_Artifacts r) ++
    omit_empty_strings "warnings" (r_Warnings r) ++
    omit_empty_strings "checks" (r_Checks r) ++
    (match r_Questions r with [] => [] | qs => [("questions", json_array (map json_InputQuestion qs))] end) ++
    [("usage", json_object (omit_empty_int "inputTokensEstimated" (us_InputTokensEstimated (r_Usage r)) ++
                            omit_empty_int "outputTokensEstimated" (us_OutputTokensEstimated (r_Usage r))))] ++
    omit_empty_string "decision" (r_Decision r) ++
    omit_empty_string "reason" (r_Reason r)).

Definition slice_len (o : option (list string)) : Z := len_slice (default [] o).

Definition ValidateResult (result : Result) : Prelude.result ResultError unit :=
  fail_if trim_space (r_Summary result) =s "" with ErrSummaryRequired ;;
  fail_if MaxSummaryBytes <? len (r_Summary result) with ErrSummaryTooLong ;;
  fail_if (MaxResultItems <? slice_len (r_Artifacts result)) || (MaxResultItems <? slice_len (r_Warnings result))
          || (MaxResultItems <? slice_len (r_Checks result)) with ErrListTooLong ;;
  fail_if 32 <? len_slice (r_Questions result) with ErrTooManyQuestions ;;
  _ ← range_loop (fun questionIDs question =>
        fail_if (trim_space (q_ID question) =s "") || (trim_space (q_Prompt question) =s "")
          with ErrQuestionIdentity ;;
        fail_if seen_in (q_ID question) questionIDs with ErrQuestionDuplicated (q_ID question) ;;
        fail_if MaxResultItems <? len_slice (q_Choices question) with ErrTooManyChoices ;;
        Ok ({[q_ID question]} ∪ questionIDs))
      ∅ (r_Questions result);
  _ ← range_loop (fun _ artifact =>
        fail_if MaxArtifactBytes <? len artifact with ErrArtifactTooLong ;; Ok tt)
      tt (default [] (r_Artifacts result));
  fail_if MaxResultBytes <? len (json_Result result) with ErrResultTooLong ;;
  Ok tt.
