(* ===== verification/Topology.v ===== *)
(** * The dependency graph of a workflow

    TopologicalOrder and ancestors of internal/workflow/model.go.  The loop
    of TopologicalOrder and the recursion of ancestors run on fuel; the
    theorems [TopologicalOrder_spec] and [ancestors_spec] include that the
    fuel is enough.  An indegree is a Go int; it counts elements of one slice
    and only decreases to 0, so that it does not leave the range of an int. *)

From S2P Require Import Prelude GoText Routing Workflow.
#[local] Open Scope string_scope.
#[local] Open Scope list_scope.
#[local] Open Scope Z_scope.

Inductive TopologyError :=
| ErrDependencyCycle
| ErrOutOfFuel.  (* not an error of the code: see [TopologicalOrder_spec] *)

Notation depends doc id := (n_DependsOn (node_at doc id)).

Section Ranged.
Context `{GoRange}.

Definition add_child (id : string) (children : gmap string (list string)) (dependency : string) :=
  <[dependency := default [] (children !! dependency) ++ [id]]> children.

(** The first loop: indegrees and children *)
Definition topo_node (s : gmap string Z * gmap string (list string)) (entry : string * Node) :=
  let '(indegree, children) := s in
  let '(id, node) := entry in
  (<[id := len_slice (n_DependsOn node)]> indegree,
   foldl (add_child id) children (n_DependsOn node)).

Definition topo_init (doc : Document) : gmap string Z * gmap string (list string) :=
  foldl topo_node (∅, ∅) (go_range "TopologicalOrder.nodes" (d_Nodes doc)).

(** The body of the loop over [children[id]] *)
Definition release (s : gmap string Z * list string) (child : string) : gmap string Z * list string :=
  let '(indegree, ready) := s in
  let degree := default 0 (indegree !! child) - 1 in
  (<[child := degree]> indegree,
   if degree =? 0 then sort_strings (ready ++ [child]) else ready).

Fixpoint topo_loop (fuel : nat) (children : gmap string (list string))
    (indegree : gmap string Z) (ready order : list string) : option (list string) :=
  match ready with
  | [] => Some order
  | id :: ready =>
      match fuel with
      | O => None
      | S fuel =>
          let '(indegree, ready) := foldl release (indegree, ready) (default [] (children !! id)) in
          topo_loop fuel children indegree ready (order ++ [id])
      end
  end.

Definition TopologicalOrder (doc : Document) : result TopologyError (list string) :=
  let '(indegree, children) := topo_init doc in
  let ready := map fst (base.filter (fun '(_, degree) => degree = 0)
                          (go_range "TopologicalOrder.indegree" indegree)) in
  match topo_loop (size (d_Nodes doc)) children indegree (sort_strings ready) [] with
  | None => Err ErrOutOfFuel
  | Some order =>
      fail_if negb (Nat.eqb (length order) (size (d_Nodes doc))) with ErrDependencyCycle ;;
      Ok order
  end.
End Ranged.

(** ** ancestors *)

Fixpoint visit (doc : Document) (fuel : nat) (id : string) (result : gset string) : option (gset string) :=
  match fuel with
  | O => None
  | S fuel =>
      foldl (fun acc dependency =>
               result ← acc;
               if decide (dependency ∈ result) then Some result
               else visit doc fuel dependency ({[dependency]} ∪ result))
            (Some result) (depends doc id)
  end.

(** All names that occur in a dependsOn list *)
Definition all_dependencies (doc : Document) : list string :=
  concat (map (fun '(_, node) => n_DependsOn node) (map_to_list (d_Nodes doc))).

Definition ancestors (doc : Document) (nodeID : string) : gset string :=
  default ∅ (visit doc (S (length (all_dependencies doc))) nodeID ∅).

(** ** Specifications *)

(** [x] depends on [y], directly *)
Definition depends_on (doc : Document) (x y : string) : Prop := y ∈ depends doc x.

(** The nodes that can come next after the nodes of [order] *)
Definition next_ready (doc : Document) (order : list string) (id : string) : Prop :=
  is_Some (d_Nodes doc !! id) /\ id ∉ order /\ Forall (fun y => y ∈ order) (depends doc id).

(** The order Kahn's algorithm with a sorted queue promises: every step takes
    the least node whose dependencies are all done. *)
Inductive greedy (doc : Document) : list string -> Prop :=
| greedy_nil : greedy doc []
| greedy_snoc order id :
    greedy doc order -> next_ready doc order id ->
    (forall y, next_ready doc order y -> String.le id y) ->
    greedy doc (order ++ [id]).

(** Every dependency of an element of the list comes before it. *)
Definition dependencies_first (doc : Document) (order : list string) : Prop :=
  forall i id, order !! i = Some id -> Forall (fun y => y ∈ take i order) (depends doc id).

(** ** Occurrences *)

Definition occ (x : string) (l : list string) : nat := count_occ String.string_dec l x.
#[local] Arguments occ _ _ : simpl never.

Lemma occ_app x l k : occ x (l ++ k) = (occ x l + occ x k)%nat.
Proof. apply count_occ_app. Qed.

Lemma occ_cons x y l : occ x (y :: l) = ((if decide (x = y) then 1 else 0) + occ x l)%nat.
Proof.
  unfold occ. simpl. destruct (String.string_dec y x) as [->|Hne]; case_decide; try congruence; done.
Qed.

Lemma occ_nil x : occ x [] = 0%nat.
Proof. done. Qed.

Lemma occ_pos x l : (0 < occ x l)%nat <-> x ∈ l.
Proof. unfold occ. rewrite list_elem_of_In. symmetry. apply count_occ_In. Qed.

(** The number of elements of [l] that are not in [done] *)
Fixpoint pending (done l : list string) : nat :=
  match l with
  | [] => 0
  | y :: l' => (if decide (y ∈ done) then 0 else 1) + pending done l'
  end%nat.

Lemma pending_nil l : pending [] l = length l.
Proof. induction l as [|y l IH]; simpl; [done|]. by rewrite IH. Qed.

Lemma pending_snoc order id l :
  id ∉ order -> pending order l = (pending (order ++ [id]) l + occ id l)%nat.
Proof.
  intros Hid. induction l as [|y l IH]; simpl; [done|]. rewrite occ_cons, IH.
  destruct (decide (y ∈ order)) as [Hy|Hy].
  - rewrite decide_True by set_solver. rewrite decide_False by (intros ->; done). lia.
  - destruct (decide (id = y)) as [->|Hne].
    + rewrite decide_True by set_solver. lia.
    + rewrite decide_False by set_solver. lia.
Qed.

Lemma pending_zero order l : pending order l = 0%nat <-> Forall (fun y => y ∈ order) l.
Proof.
  induction l as [|y l IH]; simpl; [done|]. rewrite Forall_cons, <-IH.
  destruct (decide (y ∈ order)); split; try lia; naive_solver.
Qed.

(** ** The first loop *)

Section InitFacts.
Definition children_of (C : gmap string (list string)) (id : string) : list string :=
  default [] (C !! id).

Lemma children_of_add id C d x :
  children_of (add_child id C d) x = children_of C x ++ (if decide (x = d) then [id] else []).
Proof.
  unfold children_of, add_child. case_decide as Hx; subst.
  - by rewrite lookup_insert_eq.
  - rewrite lookup_insert_ne by done. by rewrite app_nil_r.
Qed.

Lemma occ_add_children id C deps c x :
  occ c (children_of (foldl (add_child id) C deps) x) =
  (occ c (children_of C x) + if decide (c = id) then occ x deps else 0)%nat.
Proof.
  revert C. induction deps as [|d deps IH]; intros C; simpl.
  - case_decide; unfold occ; simpl; lia.
  - rewrite IH, children_of_add, occ_app, occ_cons.
    repeat case_decide; subst; rewrite ?occ_cons; repeat case_decide; try congruence;
      rewrite ?occ_nil; lia.
Qed.

Lemma topo_init_fold l I C I' C' :
  NoDup l.*1 -> foldl topo_node (I, C) l = (I', C') ->
  (forall id n, (id, n) ∈ l -> I' !! id = Some (len_slice (n_DependsOn n)) /\
     forall x, occ id (children_of C' x) = (occ id (children_of C x) + occ x (n_DependsOn n))%nat) /\
  (forall id, id ∉ l.*1 -> I' !! id = I !! id /\
     forall x, occ id (children_of C' x) = occ id (children_of C x)).
Proof.
  revert I C. induction l as [|[k m] l IH]; intros I C Hnd Hf.
  - simpl in Hf. injection Hf as <- <-. split; [set_solver|done].
  - cbn in Hnd, Hf. apply NoDup_cons in Hnd as [Hk Hnd].
    destruct (IH _ _ Hnd Hf) as [Hin Hout]. split.
    + intros id n [[= -> ->]|Hn]%elem_of_cons.
      * destruct (Hout k Hk) as [HI HC]. split; [by rewrite HI, lookup_insert_eq|].
        intros x. rewrite HC, occ_add_children, decide_True by done. lia.
      * destruct (Hin id n Hn) as [HI HC]. split; [done|]. intros x.
        assert (id <> k) by (intros ->; apply Hk, list_elem_of_fmap; by exists (k, n)).
        rewrite HC, occ_add_children, decide_False by done. lia.
    + intros id. cbn. intros [Hne Hid]%not_elem_of_cons. destruct (Hout id Hid) as [HI HC].
      split; [by rewrite HI, lookup_insert_ne|]. intros x.
      rewrite HC, occ_add_children, decide_False by done. lia.
Qed.

Context `{GoRange}.

Lemma node_at_elem doc id n : d_Nodes doc !! id = Some n -> node_at doc id = n.
Proof. unfold node_at. by intros ->. Qed.

Lemma topo_init_spec doc I C :
  topo_init doc = (I, C) ->
  (forall id, I !! id = (fun n => len_slice (n_DependsOn n)) <$> d_Nodes doc !! id) /\
  (forall c x, occ c (children_of C x) = occ x (depends doc c)).
Proof.
  intros Hf. apply topo_init_fold in Hf as [Hin Hout]; [|apply go_range_NoDup].
  assert (forall id, d_Nodes doc !! id = None ->
            id ∉ (go_range "TopologicalOrder.nodes" (d_Nodes doc)).*1) as Hnone.
  { intros id Hid ([? n] & -> & Hn%go_range_elem)%list_elem_of_fmap. simpl in Hid. congruence. }
  split.
  - intros id. destruct (d_Nodes doc !! id) as [n|] eqn:E; simpl.
    + by apply (Hin id n), go_range_elem.
    + destruct (Hout id) as [-> _]; [by apply Hnone|apply lookup_empty].
  - intros c x. unfold node_at. destruct (d_Nodes doc !! c) as [n|] eqn:E; simpl.
    + destruct (Hin c n) as [_ ->]; [by apply go_range_elem|].
      unfold children_of. by rewrite lookup_empty.
    + destruct (Hout c) as [_ ->]; [by apply Hnone|]. unfold children_of. by rewrite lookup_empty.
Qed.
End InitFacts.

(** ** The main loop *)

Section GreedyFacts.
Context (doc : Document).

Lemma greedy_closed order :
  greedy doc order ->
  NoDup order /\ forall x, x ∈ order -> is_Some (d_Nodes doc !! x) /\ Forall (fun y => y ∈ order) (depends doc x).
Proof.
  induction 1 as [|order id _ [Hnd IH] (Hid & Hni & Hdeps) _]; [split; [constructor|set_solver]|].
  split.
  - apply NoDup_app. split; [done|]. split; [set_solver|]. apply NoDup_singleton.
  - intros x [Hx| ->%list_elem_of_singleton]%elem_of_app.
    + destruct (IH x Hx) as [? Hall]. split; [done|]. eapply Forall_impl; [exact Hall|]. set_solver.
    + split; [done|]. eapply Forall_impl; [exact Hdeps|]. set_solver.
Qed.

Lemma greedy_dependencies_first order : greedy doc order -> dependencies_first doc order.
Proof.
  induction 1 as [|order id Hg IH (Hid & Hni & Hdeps) _]; intros i x Hi; [done|].
  apply lookup_app_Some in Hi as [Hi|[Hlen Hi]].
  - rewrite take_app_le by (apply lookup_lt_Some in Hi; lia). by apply IH.
  - apply list_lookup_singleton_Some in Hi as [Hi <-].
    rewrite take_app_ge by done. eapply Forall_impl; [exact Hdeps|]. set_solver.
Qed.

Lemma greedy_length order : greedy doc order -> (length order <= size (d_Nodes doc))%nat.
Proof.
  intros [Hnd Hin]%greedy_closed. rewrite <-length_map_to_list, <-(length_map fst).
  apply submseteq_length, NoDup_submseteq; [done|]. intros x Hx.
  destruct (Hin x Hx) as [[n Hn] _]. apply list_elem_of_fmap. exists (x, n).
  split; [done|]. by apply elem_of_map_to_list.
Qed.

Lemma greedy_all order :
  greedy doc order -> length order = size (d_Nodes doc) -> order ≡ₚ (map_to_list (d_Nodes doc)).*1.
Proof.
  intros [Hnd Hin]%greedy_closed Hlen. apply submseteq_length_Permutation.
  - apply NoDup_submseteq; [done|]. intros x Hx.
    destruct (Hin x Hx) as [[n Hn] _]. apply list_elem_of_fmap. exists (x, n).
    split; [done|]. by apply elem_of_map_to_list.
  - rewrite length_fmap, length_map_to_list. lia.
Qed.

Lemma greedy_unique o1 o2 : greedy doc o1 -> greedy doc o2 -> length o1 = length o2 -> o1 = o2.
Proof.
  intros H1. revert o2. induction H1 as [|o1 x _ IH Hx Hmin1]; intros o2 H2 Hlen.
  - by destruct o2.
  - destruct H2 as [|o2 y H2 Hy Hmin2]; rewrite !length_app in Hlen; simpl in Hlen; [lia|].
    assert (o1 = o2) as -> by (apply IH; [done|lia]). do 2 f_equal.
    apply (anti_symm String.le); auto.
Qed.

(** The state of the loop of TopologicalOrder, [rest] being what is still to
    be released of the children of the last node of [order]. *)
Record topo_inv (order : list string) (I : gmap string Z) (ready rest : list string) : Prop := {
  inv_indegree : forall c, is_Some (d_Nodes doc !! c) ->
    I !! c = Some (Z.of_nat (pending order (depends doc c) + occ c rest));
  inv_sorted : StronglySorted String.le ready;
  inv_nodup : NoDup ready;
  inv_ready : forall c, c ∈ ready <-> next_ready doc order c /\ occ c rest = 0%nat;
  inv_rest : forall c, c ∈ rest -> is_Some (d_Nodes doc !! c) /\ c ∉ order }.

Lemma release_inv order I ready x rest I' ready' :
  topo_inv order I ready (x :: rest) -> release (I, ready) x = (I', ready') ->
  topo_inv order I' ready' rest.
Proof.
  intros [Hin Hs Hnd Hr Hrest] [= <- <-].
  destruct (Hrest x) as [Hx Hxo]; [set_solver|]. rewrite (Hin x Hx), occ_cons, decide_True by done. simpl.
  replace (Z.of_nat (pending order (depends doc x) + S (occ x rest)) - 1)
    with (Z.of_nat (pending order (depends doc x) + occ x rest)) by lia.
  assert (x ∉ ready) as Hxr.
  { intros [_ Hocc]%Hr. rewrite occ_cons, decide_True in Hocc by done. lia. }
  assert (forall c, c <> x -> occ c (x :: rest) = occ c rest) as Hocc.
  { intros c Hc. rewrite occ_cons. by rewrite decide_False. }
  split.
  - intros c Hc. destruct (decide (c = x)) as [->|Hne]; [by rewrite lookup_insert_eq|].
    rewrite lookup_insert_ne by done. by rewrite Hin, Hocc.
  - case_match; [apply sort_strings_sorted|done].
  - case_match; [|done]. rewrite sort_strings_perm, NoDup_app.
    split; [done|]. split; [set_solver|]. apply NoDup_singleton.
  - intros c. transitivity (c ∈ ready \/ c = x /\ (pending order (depends doc x) + occ x rest = 0)%nat).
    + case_match; bool_props; [rewrite sort_strings_perm, elem_of_app, list_elem_of_singleton|]; naive_solver lia.
    + rewrite Hr. destruct (decide (c = x)) as [->|Hne].
      * rewrite occ_cons, decide_True by done. unfold next_ready. rewrite <-pending_zero. naive_solver lia.
      * rewrite Hocc by done. naive_solver.
  - intros c Hc. apply Hrest. set_solver.
Qed.

Lemma release_all order I ready rest I' ready' :
  topo_inv order I ready rest -> foldl release (I, ready) rest = (I', ready') ->
  topo_inv order I' ready' [].
Proof.
  revert I ready. induction rest as [|x rest IH]; intros I ready Hinv Hf; [by injection Hf as <- <-|].
  cbn [foldl] in Hf. destruct (release (I, ready) x) as [I1 ready1] eqn:E.
  eapply IH; [|exact Hf]. by eapply release_inv.
Qed.

Lemma topo_pop order I id ready rest :
  greedy doc order -> topo_inv order I (id :: ready) [] ->
  (forall c, occ c rest = occ id (depends doc c)) ->
  greedy doc (order ++ [id]) /\ topo_inv (order ++ [id]) I ready rest.
Proof.
  intros Hg [Hin Hs Hnd Hr _] Hrest.
  assert (next_ready doc order id) as Hid by (apply Hr; set_solver).
  assert (id ∉ order) as Hni by apply Hid.
  apply NoDup_cons in Hnd as [Hidr Hnd]. apply StronglySorted_cons in Hs as [Hall Hs].
  split; [constructor; [done|done|]|split; [|done|done| |]].
  - intros y Hy. assert (y ∈ id :: ready) as [->|Hyr]%elem_of_cons by (by apply Hr); [done|].
    rewrite Forall_forall in Hall. by apply Hall.
  - intros c Hc. rewrite (Hin c Hc), Hrest, (pending_snoc order id) by done. do 2 f_equal. rewrite occ_nil. lia.
  - intros c. rewrite Hrest. specialize (Hr c). rewrite elem_of_cons in Hr. rewrite occ_nil in Hr.
    assert (c ∈ ready <-> next_ready doc order c /\ c <> id) as -> by (destruct (decide (c = id)); [subst|]; tauto).
    unfold next_ready. rewrite <-!pending_zero, (pending_snoc order id) by done.
    rewrite not_elem_of_app, list_elem_of_singleton. intuition lia.
  - intros c Hc. apply occ_pos in Hc. rewrite Hrest in Hc. apply occ_pos in Hc.
    split.
    + destruct (d_Nodes doc !! c) eqn:E; [eauto|]. unfold node_at in Hc. rewrite E in Hc. simpl in Hc. set_solver.
    + destruct (greedy_closed _ Hg) as [_ Hcl]. destruct Hid as (_ & _ & Hdeps).
      intros [Ho| ->%list_elem_of_singleton]%elem_of_app.
      * destruct (Hcl c Ho) as [_ Hd]. rewrite Forall_forall in Hd. by apply Hni, Hd.
      * rewrite Forall_forall in Hdeps. by apply Hni, Hdeps.
Qed.

(** With fuel for every node that is not in [order] the loop ends, with an
    order to which no node can be added. *)
Lemma topo_loop_spec C fuel I ready order :
  (forall c x, occ c (children_of C x) = occ x (depends doc c)) ->
  greedy doc order -> topo_inv order I ready [] ->
  (size (d_Nodes doc) <= length order + fuel)%nat ->
  exists order', topo_loop fuel C I ready order = Some order' /\ greedy doc order' /\
    forall c, ~ next_ready doc order' c.
Proof.
  intros HC. revert I ready order. induction fuel as [|fuel IH]; intros I ready order Hg Hinv Hfuel.
  - destruct ready as [|id ready].
    + exists order. split; [done|]. split; [done|]. intros c Hc.
      assert (c ∈ []) by (by apply (inv_ready _ _ _ _ Hinv)). set_solver.
    + destruct (topo_pop _ _ _ _ _ Hg Hinv (fun c => HC c id)) as [Hg' _].
      apply greedy_length in Hg'. rewrite length_app in Hg'. simpl in Hg'. lia.
  - destruct ready as [|id ready].
    + exists order. split; [done|]. split; [done|]. intros c Hc.
      assert (c ∈ []) by (by apply (inv_ready _ _ _ _ Hinv)). set_solver.
    + destruct (topo_pop _ _ _ _ _ Hg Hinv (fun c => HC c id)) as [Hg' Hinv'].
      cbn [topo_loop]. fold (children_of C id).
      destruct (foldl release (I, ready) (children_of C id)) as [I' ready'] eqn:E.
      apply (IH I' ready' (order ++ [id])); [done| |rewrite length_app; simpl; lia].
      by eapply release_all.
Qed.
End GreedyFacts.

(** ** The order *)

Section OrderTheorems.
Context `{GoRange} (doc : Document).

(** What TopologicalOrder computes; the theorems below are read off it. *)
Lemma TopologicalOrder_greedy :
  exists order, greedy doc order /\ (forall c, ~ next_ready doc order c) /\
    TopologicalOrder doc = (if Nat.eqb (length order) (size (d_Nodes doc)) then Ok order else Err ErrDependencyCycle).
Proof.
  unfold TopologicalOrder. destruct (topo_init doc) as [I C] eqn:Einit.
  destruct (topo_init_spec _ _ _ Einit) as [HI HC].
  match goal with |- context [topo_loop _ _ _ (sort_strings ?r)] => set (ready := r) end.
  assert (NoDup ready) as Hnd.
  { unfold ready. eapply sublist_NoDup; [apply (go_range_NoDup "TopologicalOrder.indegree" I)|].
    apply (fmap_sublist fst), sublist_filter. }
  assert (forall c, c ∈ ready <-> next_ready doc [] c) as Hready.
  { intros c. unfold ready, next_ready. rewrite <-pending_zero, pending_nil, list_elem_of_fmap. split.
    - intros ([k z] & -> & [Hz Hk%go_range_elem]%list_elem_of_filter). simpl. rewrite HI in Hk.
      unfold node_at. destruct (d_Nodes doc !! k) as [n|]; [|done]. injection Hk as Hk. simpl.
      unfold len_slice in Hk. split; [eauto|]. split; [set_solver|lia].
    - intros ([n Hn] & _ & Hlen). unfold node_at in Hlen. rewrite Hn in Hlen. simpl in Hlen.
      exists (c, 0). split; [done|]. apply list_elem_of_filter. split; [done|].
      apply go_range_elem. rewrite HI, Hn. simpl. unfold len_slice. by rewrite Hlen. }
  destruct (topo_loop_spec doc C (size (d_Nodes doc)) I (sort_strings ready) []) as (order & -> & Hg & Hmax);
    [done|constructor| |simpl; lia|].
  - split; [|apply sort_strings_sorted|by rewrite sort_strings_perm| |set_solver].
    + intros c [n Hn]. rewrite HI, Hn, pending_nil. unfold node_at. rewrite Hn. simpl.
      unfold len_slice. do 2 f_equal. rewrite occ_nil. lia.
    + intros c. rewrite sort_strings_perm, Hready. rewrite occ_nil. tauto.
  - exists order. split; [done|]. split; [done|]. by destruct (Nat.eqb _ _).
Qed.

Lemma valid_order_complete order o :
  (forall c, ~ next_ready doc order c) ->
  o ≡ₚ (map_to_list (d_Nodes doc)).*1 -> dependencies_first doc o -> forall x, x ∈ o -> x ∈ order.
Proof.
  intros Hmax Ho Hdf.
  assert (forall i, Forall (fun x => x ∈ order) (take i o)) as Hall.
  { induction i as [|i IH]; [constructor|]. destruct (o !! i) as [x|] eqn:Ei.
    - rewrite (take_S_r _ _ _ Ei), Forall_app. split; [done|]. constructor; [|constructor].
      destruct (decide (x ∈ order)) as [|Hx]; [done|]. exfalso. apply (Hmax x).
      split; [|split; [done|]].
      + apply list_elem_of_lookup_2 in Ei. rewrite Ho in Ei.
        apply list_elem_of_fmap in Ei as ([k n] & -> & Hk%elem_of_map_to_list). simpl. eauto.
      + eapply Forall_impl; [exact (Hdf i x Ei)|]. intros y Hy. rewrite Forall_forall in IH. by apply IH.
    - rewrite take_ge by (by apply lookup_ge_None in Ei; lia).
      rewrite take_ge in IH by (by apply lookup_ge_None in Ei). done. }
  intros x Hx. specialize (Hall (length o)). rewrite take_ge, Forall_forall in Hall by done. by apply Hall.
Qed.

(** Property 1 *)
Lemma TopologicalOrder_cases :
  match TopologicalOrder doc with
  | Ok order => greedy doc order /\ order ≡ₚ (map_to_list (d_Nodes doc)).*1 /\ dependencies_first doc order
  | Err ErrDependencyCycle =>
      forall order, order ≡ₚ (map_to_list (d_Nodes doc)).*1 -> ~ dependencies_first doc order
  | Err ErrOutOfFuel => False
  end.
Proof.
  destruct TopologicalOrder_greedy as (order & Hg & Hmax & ->).
  destruct (Nat.eqb _ _) eqn:E; bool_props.
  - split; [done|]. split; [by apply greedy_all|by apply greedy_dependencies_first].
  - intros o Ho Hdf. apply E. pose proof (greedy_length _ _ Hg).
    assert (length o <= length order)%nat.
    { apply submseteq_length, NoDup_submseteq.
      - rewrite Ho. apply NoDup_fst_map_to_list.
      - by apply valid_order_complete. }
    apply Permutation_length in Ho. rewrite length_fmap, length_map_to_list in Ho. lia.
Qed.

Lemma TopologicalOrder_ok order :
  TopologicalOrder doc = Ok order ->
  greedy doc order /\ order ≡ₚ (map_to_list (d_Nodes doc)).*1 /\ dependencies_first doc order.
Proof. intros E. pose proof TopologicalOrder_cases as Hc. by rewrite E in Hc. Qed.
End OrderTheorems.

(** ** ancestors *)

Section Ancestors.
Context (doc : Document).

Lemma depends_all x y : y ∈ depends doc x -> y ∈ all_dependencies doc.
Proof.
  unfold node_at. destruct (d_Nodes doc !! x) as [n|] eqn:E; [|simpl; set_solver]. simpl. intros Hy.
  unfold all_dependencies. apply list_elem_of_In, in_concat. exists (n_DependsOn n).
  split; [|by apply list_elem_of_In]. apply list_elem_of_In, list_elem_of_fmap.
  exists (x, n). split; [done|]. by apply elem_of_map_to_list.
Qed.

(** The fold inside [visit], from any accumulator *)
Definition visit_list (fuel : nat) (acc : option (gset string)) (l : list string) : option (gset string) :=
  foldl (fun acc dependency =>
           result ← acc;
           if decide (dependency ∈ result) then Some result
           else visit doc fuel dependency ({[dependency]} ∪ result)) acc l.

Lemma visit_list_none fuel l : visit_list fuel None l = None.
Proof. unfold visit_list. induction l as [|x l IH]; simpl; [done|]. apply IH. Qed.

Lemma visit_list_cons fuel R x l :
  visit_list fuel (Some R) (x :: l) =
  visit_list fuel (if decide (x ∈ R) then Some R else visit doc fuel x ({[x]} ∪ R)) l.
Proof. done. Qed.

(** Closed up to the elements of [R] *)
Definition closed_from (R R' : gset string) : Prop :=
  R ⊆ R' /\ forall x, x ∈ R' -> x ∉ R -> forall y, depends_on doc x y -> y ∈ R'.

Lemma visit_list_sound fuel :
  (forall id R R', visit doc fuel id R = Some R' ->
     closed_from R R' /\ (forall y, depends_on doc id y -> y ∈ R') /\
     forall y, y ∈ R' -> y ∈ R \/ tc (depends_on doc) id y) ->
  forall l R R', visit_list fuel (Some R) l = Some R' ->
     closed_from R R' /\ (forall y, y ∈ l -> y ∈ R') /\
     forall y, y ∈ R' -> y ∈ R \/ exists x, x ∈ l /\ rtc (depends_on doc) x y.
Proof.
  intros Hv l. induction l as [|x l IH]; intros R R' Hr.
  - injection Hr as <-. split; [split; [done|set_solver]|]. split; [set_solver|]. by left.
  - rewrite visit_list_cons in Hr. destruct (decide (x ∈ R)) as [Hx|Hx].
    + destruct (IH R R' Hr) as ([Hsub Hcl] & Hl & Hb). split; [done|]. split; [set_solver|].
      intros y [?|(z & Hz & Hzy)]%Hb; [by left|]. right. exists z. set_solver.
    + destruct (visit doc fuel x ({[x]} ∪ R)) as [R1|] eqn:E; [|by rewrite visit_list_none in Hr].
      destruct (Hv _ _ _ E) as ([Hs1 Hc1] & Hd1 & Hb1). destruct (IH R1 R' Hr) as ([Hs2 Hc2] & Hl2 & Hb2).
      split; [split; [set_solver|]|split].
      * intros z Hz HzR y Hzy. destruct (decide (z ∈ R1)) as [Hz1|Hz1]; [|by eapply Hc2].
        apply Hs2. destruct (decide (z = x)) as [->|Hne]; [by apply Hd1|].
        eapply Hc1; [done| |exact Hzy]. set_solver.
      * intros y [->|Hy]%elem_of_cons; [set_solver|by apply Hl2].
      * intros y [Hy|(z & Hz & Hzy)]%Hb2; [|right; exists z; set_solver].
        destruct (Hb1 y Hy) as [[->%elem_of_singleton|?]%elem_of_union|Ht].
        -- right. exists x. split; [set_solver|constructor].
        -- by left.
        -- right. exists x. split; [set_solver|]. by apply tc_rtc.
Qed.

Lemma visit_sound fuel : forall id R R', visit doc fuel id R = Some R' ->
  closed_from R R' /\ (forall y, depends_on doc id y -> y ∈ R') /\
  forall y, y ∈ R' -> y ∈ R \/ tc (depends_on doc) id y.
Proof.
  induction fuel as [|fuel IH]; intros id R R' Hr; [done|].
  destruct (visit_list_sound fuel IH (depends doc id) R R' Hr) as (Hcl & Hl & Hb).
  split; [done|]. split; [exact Hl|].
  intros y [Hy|(x & Hx & Hxy)]%Hb; [by left|]. right. by eapply tc_rtc_r; [apply tc_once|].
Qed.

Lemma size_list_le (l : list string) : (size (list_to_set l : gset string) <= length l)%nat.
Proof.
  induction l as [|x l IH]; simpl; [done|].
  rewrite size_union_alt, size_singleton.
  assert (size ((list_to_set l : gset string) ∖ {[x]}) <= size (list_to_set l : gset string))%nat
    by (apply subseteq_size; set_solver). lia.
Qed.

(** The fuel counts the dependencies that are not yet in the result. *)
Lemma visit_total fuel : forall id R,
  R ⊆ list_to_set (all_dependencies doc) ->
  (size (list_to_set (all_dependencies doc) ∖ R) < fuel)%nat ->
  exists R', visit doc fuel id R = Some R' /\ R' ⊆ list_to_set (all_dependencies doc).
Proof.
  induction fuel as [|fuel IH]; intros id R HR Hsize; [lia|].
  assert (forall l R1, (forall y, y ∈ l -> y ∈ all_dependencies doc) -> R ⊆ R1 ->
            R1 ⊆ list_to_set (all_dependencies doc) ->
            exists R', visit_list fuel (Some R1) l = Some R' /\ R' ⊆ list_to_set (all_dependencies doc)) as Hl.
  { induction l as [|x l IHl]; intros R1 Hl Hsub HR1; [by exists R1|].
    rewrite visit_list_cons. destruct (decide (x ∈ R1)) as [|Hx]; [by apply IHl; set_solver|].
    assert (x ∈ all_dependencies doc) as Hxa by set_solver.
    destruct (IH x ({[x]} ∪ R1)) as (R2 & HR2 & HR2sub).
    - set_solver.
    - assert (list_to_set (all_dependencies doc) ∖ ({[x]} ∪ R1) ⊂
              (list_to_set (all_dependencies doc) ∖ R : gset string)) as Hlt%subset_size by set_solver.
      lia.
    - rewrite HR2. apply IHl; [set_solver| |done].
      destruct (visit_sound _ _ _ _ HR2) as ([Hs _] & _). set_solver. }
  apply (Hl (depends doc id) R); [|done|done]. intros y. by apply depends_all.
Qed.

Lemma elem_of_ancestors nodeID y : y ∈ ancestors doc nodeID <-> tc (depends_on doc) nodeID y.
Proof.
  unfold ancestors.
  destruct (visit_total (S (length (all_dependencies doc))) nodeID ∅) as (R' & E & _).
  { set_solver. }
  { rewrite difference_empty_L. pose proof (size_list_le (all_dependencies doc)). lia. }
  rewrite E. simpl. destruct (visit_sound _ _ _ _ E) as ([_ Hcl] & Hd & Hb). split.
  - intros Hy. destruct (Hb y Hy); [set_solver|done].
  - intros Ht. assert (forall x, x ∈ R' -> forall y, rtc (depends_on doc) x y -> y ∈ R') as Hr.
    { intros x Hx z Hz. induction Hz as [|? ? ? ? _ IH]; [done|]. apply IH. eapply Hcl; [done|set_solver|done]. }
    inversion Ht; subst; [by apply Hd|].
    eapply Hr; [by apply Hd|]. by apply tc_rtc.
Qed.

#[export] Instance tc_depends_dec x y : Decision (tc (depends_on doc) x y).
Proof. refine (cast_if (decide (y ∈ ancestors doc x))); by rewrite <-elem_of_ancestors. Defined.
End Ancestors.

(** ** Properties *)

(** C33: TopologicalOrder returns the order that takes, at every step, the least
    node id whose dependencies are all done; that order lists every node once,
    each after all its dependencies.  It reports a cycle exactly when no such
    listing exists, and its loop always ends. *)
Theorem TopologicalOrder_spec `{GoRange} (doc : Document) :
  match TopologicalOrder doc with
  | Ok order =>
      greedy doc order /\ order ≡ₚ (map_to_list (d_Nodes doc)).*1 /\ dependencies_first doc order
  | Err ErrDependencyCycle =>
      forall order, order ≡ₚ (map_to_list (d_Nodes doc)).*1 -> ~ dependencies_first doc order
  | Err ErrOutOfFuel => False
  end.
Proof. apply TopologicalOrder_cases. Qed.

(** The order does not depend on the enumeration order of Go's maps. *)
Theorem TopologicalOrder_deterministic (R1 R2 : GoRange) (doc : Document) :
  @TopologicalOrder R1 doc = @TopologicalOrder R2 doc.
Proof.
  pose proof (@TopologicalOrder_cases R1 doc) as H1. pose proof (@TopologicalOrder_cases R2 doc) as H2.
  destruct (@TopologicalOrder R1 doc) as [o1|[]], (@TopologicalOrder R2 doc) as [o2|[]]; try done.
  - destruct H1 as (Hg1 & Hp1 & _), H2 as (Hg2 & Hp2 & _). f_equal.
    eapply greedy_unique; [done|done|]. apply Permutation_length. by rewrite Hp1, Hp2.
  - destruct H1 as (_ & Hp & Hd). by destruct (H2 o1).
  - destruct H2 as (_ & Hp & Hd). by destruct (H1 o2).
Qed.

(** ancestors is the transitive closure of dependsOn. *)
Theorem ancestors_spec (doc : Document) (nodeID y : string) :
  y ∈ ancestors doc nodeID <-> tc (depends_on doc) nodeID y.
Proof. apply elem_of_ancestors. Qed.

(** A list closed under dependencies that lists them first has no cycle. *)
Lemma dependencies_first_tc doc order :
  dependencies_first doc order ->
  forall x y, tc (depends_on doc) x y -> forall i, order !! i = Some x -> y ∈ take i order.
Proof.
  intros Hdf x y Ht. induction Ht as [x y Hxy|x z y Hxz _ IH]; intros i Hi.
  - specialize (Hdf i x Hi). rewrite Forall_forall in Hdf. by apply Hdf.
  - specialize (Hdf i x Hi). rewrite Forall_forall in Hdf. specialize (Hdf z Hxz).
    apply elem_of_take in Hdf as (j & Hj & Hlt). specialize (IH j Hj).
    apply elem_of_take in IH as (k & Hk & Hlt'). apply elem_of_take. exists k. split; [done|lia].
Qed.

Lemma dependencies_first_irrefl doc order x :
  NoDup order -> dependencies_first doc order -> x ∈ order -> ~ tc (depends_on doc) x x.
Proof.
  intros Hnd Hdf [i Hi]%list_elem_of_lookup Ht.
  pose proof (dependencies_first_tc doc order Hdf x x Ht i Hi) as (j & Hj & Hlt)%elem_of_take.
  pose proof (NoDup_lookup _ _ _ _ Hnd Hi Hj). lia.
Qed.

Lemma dependencies_exist doc :
  bool_decide (map_Forall (fun _ n => Forall (fun y => is_Some (d_Nodes doc !! y)) (n_DependsOn n)) (d_Nodes doc)) = true ->
  forall x y, depends_on doc x y -> is_Some (d_Nodes doc !! y).
Proof.
  intros Hall%bool_decide_eq_true x y. unfold depends_on, node_at.
  destruct (d_Nodes doc !! x) as [n|] eqn:E; simpl; [|set_solver].
  specialize (Hall x n E). simpl in Hall. rewrite Forall_forall in Hall. apply Hall.
Qed.

(** C40: When every dependency names a node, TopologicalOrder succeeds exactly
    on the graphs without cycles. *)
Theorem TopologicalOrder_acyclic `{GoRange} (doc : Document)
    (Hdeps : forall x y, depends_on doc x y -> is_Some (d_Nodes doc !! y)) :
  (exists order, TopologicalOrder doc = Ok order) <-> forall x, ~ tc (depends_on doc) x x.
Proof.
  split.
  - intros [order E] x Ht. apply TopologicalOrder_ok in E as (Hg & Hp & Hdf).
    assert (is_Some (d_Nodes doc !! x)) as [n Hn].
    { clear -Ht Hdeps. revert Ht. generalize x at 1. intros z Ht. induction Ht; eauto. }
    apply (dependencies_first_irrefl doc order x); [apply (greedy_closed _ _ Hg)|done| |done].
    rewrite Hp. apply list_elem_of_fmap. exists (x, n). split; [done|]. by apply elem_of_map_to_list.
  - intros Hac. destruct (TopologicalOrder_greedy doc) as (order & Hg & Hmax & ->).
    destruct (Nat.eqb _ _) eqn:E; [eauto|]. exfalso. bool_props. apply E.
    set (X := (dom (d_Nodes doc) : gset string) ∖ list_to_set order).
    destruct (decide (X = ∅)) as [HX|HX].
    + assert (forall x, is_Some (d_Nodes doc !! x) -> x ∈ order) as Hall.
      { intros x Hx. destruct (decide (x ∈ order)); [done|]. assert (x ∈ X) by (apply elem_of_dom in Hx; set_solver). set_solver. }
      apply Nat.le_antisymm; [by apply greedy_length|].
      rewrite <-length_map_to_list, <-(length_fmap fst). apply submseteq_length, NoDup_submseteq;
        [apply NoDup_fst_map_to_list|].
      intros x ([k n] & -> & Hk%elem_of_map_to_list)%list_elem_of_fmap. simpl. eauto.
    + destruct (minimal_exists_elem_of_L (flip (tc (depends_on doc))) X HX) as (x & Hx & Hmin).
      exfalso. apply (Hmax x). unfold X in Hx. apply elem_of_difference in Hx as [Hx%elem_of_dom Hxo].
      split; [done|]. split; [set_solver|]. rewrite Forall_forall. intros y Hy.
      destruct (decide (y ∈ order)) as [|Hyo]; [done|]. exfalso.
      assert (y ∈ X) as HyX by (apply Hdeps, elem_of_dom in Hy; set_solver).
      assert (tc (depends_on doc) x y) as Hxy by (by apply tc_once).
      specialize (Hmin y HyX Hxy). unfold flip in Hmin. apply (Hac x). by eapply tc_transitive.
Qed.

(** A diamond with the names against the dependency order *)
Definition chain_node (deps : list string) : Node := {|
  n_Type := "agent"; n_DependsOn := deps; n_When := None; n_Task := "t"; n_Prompt := "";
  n_Agent := no_agent; n_Tool := ""; n_Runtime := ""; n_RequiredSkills := []; n_Context := None |}.
Definition diamond : Document := {|
  d_APIVersion := APIVersion; d_Name := "diamond"; d_Inputs := ∅;
  d_Defaults := {| df_Agent := no_agent; df_Backend := ""; df_Tool := ""; df_Runtime := "" |};
  d_MaxConcurrency := 2; d_Context := None;
  d_Nodes := {[ "z" := chain_node []; "c" := chain_node ["z"]; "b" := chain_node ["z"];
                "a" := chain_node ["b"; "c"] ]} |}.

Example diamond_order : @TopologicalOrder canonical_range diamond = Ok ["z"; "b"; "c"; "a"].
Proof. vm_compute. reflexivity. Qed.

Lemma TopologicalOrder_acyclic_witness :
  (exists order, @TopologicalOrder canonical_range diamond = Ok order) <->
  forall x, ~ tc (depends_on diamond) x x.
Proof.
  apply (@TopologicalOrder_acyclic canonical_range diamond).
  apply dependencies_exist. vm_compute. reflexivity.
Defined.
