(* ===== verification/Template.v ===== *)
(** * Templates and conditions

    internal/workflow/template.go.  A Go set [map[string]bool] whose stored
    values are all true is a [gset string].  The regular expression of a
    reference is: two opening braces, white space, an identifier followed by
    one or more dots and identifiers (the submatch), white space, two closing
    braces.  [match_at] matches it: white space, the longest run of the
    characters of a path, white space.  The three character sets are disjoint,
    so the match at a position is unique and no alternative has to be tried. *)

From S2P Require Import Prelude GoText Routing Workflow.
#[local] Open Scope string_scope.
#[local] Open Scope list_scope.
#[local] Open Scope Z_scope.

Definition allowedResultFields : list string :=
  ["result.summary"; "result.artifacts"; "result.warnings"; "result.checks"; "result.decision";
   "result.reason"; "result.usage.inputTokensEstimated"; "result.usage.outputTokensEstimated"].

(** ** The expression *)

Fixpoint span (p : ascii -> bool) (l : list ascii) : list ascii * list ascii :=
  match l with
  | c :: l' => if p c then let '(a, b) := span p l' in (c :: a, b) else ([], l)
  | [] => ([], [])
  end.

(** [\s] of Go's regexp: no vertical tab *)
Definition re_space (c : ascii) : bool := existsb (Ascii.eqb c) (bytes [9; 10; 12; 13; 32]%N).
Definition path_char (c : ascii) : bool := id_rest c || Ascii.eqb c ".".
Definition is_identifier (l : list ascii) : bool :=
  match l with c :: cs => is_alpha c && forallb id_rest cs | [] => false end.
Definition is_path (l : list ascii) : bool :=
  let parts := split_list "." l in (2 <=? length parts)%nat && forallb is_identifier parts.

Definition open_braces : list ascii := ["{"; "{"]%char.
Definition close_braces : list ascii := ["}"; "}"]%char.

(** A match at the head of the list: the submatch and what follows *)
Definition match_at (l : list ascii) : option (list ascii * list ascii) :=
  l ← strip_prefix open_braces l;
  let '(_, l) := span re_space l in
  let '(path, l) := span path_char l in
  let '(_, l) := span re_space l in
  l ← strip_prefix close_braces l;
  if is_path path then Some (path, l) else None.

Inductive segment :=
| Char (c : ascii)
| Ref (path source : list ascii).

(** The text cut at the leftmost non-overlapping matches; [skip] counts the
    bytes of the current match that are still to be passed over. *)
Fixpoint segments (skip : nat) (l : list ascii) : list segment :=
  match l with
  | [] => []
  | c :: l' =>
      match skip with
      | S k => segments k l'
      | O =>
          match match_at l with
          | Some (path, rest) =>
              let width := (length l - length rest)%nat in
              Ref path (take width l) :: segments (width - 1) l'
          | None => Char c :: segments 0 l'
          end
      end
  end.
Definition segments_of (text : string) : list segment := segments 0 (to_list text).

Definition segment_source (s : segment) : list ascii :=
  match s with Char c => [c] | Ref _ source => source end.
Definition segment_covered (s : segment) : list bool :=
  match s with Char _ => [false] | Ref _ source => map (fun _ => true) source end.
Definition segment_refs (s : segment) : list string :=
  match s with Char _ => [] | Ref path _ => [of_list path] end.

(** ** Parsing *)

Record Template := { t_text : string; t_references : list string }.

Inductive TemplateError :=
| ErrUndeclaredInput (name : string)
| ErrNotAncestor (name : string)
| ErrNotPublic (field : string)
| ErrUnsupportedReference (path : string)
| ErrUnsupportedExpression (near : string)
| ErrUnmatchedClosing
| ErrMissingInput (path : string)
| ErrMissingResult (path : string)
| ErrUnsupportedResult (path : string)
| ErrRender
| ErrPromptTooLong
| ErrEquals (e : ScalarError).

Definition validateReference (path : string) (inputs : gmap string InputDeclaration)
    (ancestors : gset string) : result TemplateError unit :=
  let parts := split_on "." path in
  let part i := nth i parts "" in
  if Nat.eqb (length parts) 2 && (part 0%nat =s "inputs") then
    match inputs !! part 1%nat with
    | None => Err (ErrUndeclaredInput (part 1%nat))
    | Some _ => Ok tt
    end
  else if (4 <=? length parts)%nat && (part 0%nat =s "nodes") then
    fail_if negb (seen_in (part 1%nat) ancestors) with ErrNotAncestor (part 1%nat) ;;
    let field := join "." (drop 2 parts) in
    fail_if negb (contains_string allowedResultFields field) with ErrNotPublic field ;;
    Ok tt
  else Err (ErrUnsupportedReference path).

(** The loop that looks for delimiters outside of the matches *)
Fixpoint check_delimiters (l : list ascii) (covered : list bool) : result TemplateError unit :=
  match l, covered with
  | a :: ((b :: _) as l'), c :: covered' =>
      fail_if Ascii.eqb a "{" && Ascii.eqb b "{" && negb c with ErrUnsupportedExpression (of_list l) ;;
      fail_if Ascii.eqb a "}" && Ascii.eqb b "}" && negb c with ErrUnmatchedClosing ;;
      check_delimiters l' covered'
  | _, _ => Ok tt
  end.

Definition ParseTemplate (text : string) (inputs : gmap string InputDeclaration)
    (ancestors : gset string) : result TemplateError Template :=
  let matches := segments_of text in
  references ← range_loop (fun references path =>
        _ ← validateReference path inputs ancestors; Ok (references ++ [path]))
      [] (concat (map segment_refs matches));
  _ ← check_delimiters (to_list text) (concat (map segment_covered matches));
  Ok {| t_text := text; t_references := references |}.

(** ** Rendering *)

Definition referenceValue (path : string) (inputs : gmap string any)
    (results : gmap string Result) : result TemplateError any :=
  let parts := split_on "." path in
  let part i := nth i parts "" in
  if part 0%nat =s "inputs" then
    match inputs !! part 1%nat with
    | None => Err (ErrMissingInput path)
    | Some value => Ok value
    end
  else
    match results !! part 1%nat with
    | None => Err (ErrMissingResult path)
    | Some r =>
        let field := join "." (drop 2 parts) in
        if field =s "result.summary" then
          fail_if r_Summary r =s "" with ErrMissingResult path ;; Ok (AString (r_Summary r))
        else if field =s "result.artifacts" then Ok (AStrings (r_Artifacts r))
        else if field =s "result.warnings" then Ok (AStrings (r_Warnings r))
        else if field =s "result.checks" then Ok (AStrings (r_Checks r))
        else if field =s "result.decision" then
          fail_if r_Decision r =s "" with ErrMissingResult path ;; Ok (AString (r_Decision r))
        else if field =s "result.reason" then Ok (AString (r_Reason r))
        else if field =s "result.usage.inputTokensEstimated" then Ok (AInt (us_InputTokensEstimated (r_Usage r)))
        else if field =s "result.usage.outputTokensEstimated" then Ok (AInt (us_OutputTokensEstimated (r_Usage r)))
        else Err (ErrUnsupportedResult path)
    end.

Definition renderValue (value : any) : result TemplateError string :=
  match value with
  | AString text => Ok text
  | _ => match json_marshal value with Some data => Ok data | None => Err ErrRender end
  end.

(** The callback of ReplaceAllStringFunc, with the captured [renderErr]: once
    it is set the remaining matches are replaced by "". *)
Definition replace (inputs : gmap string any) (results : gmap string Result)
    (s : option TemplateError * string) (seg : segment) : option TemplateError * string :=
  let '(renderErr, out) := s in
  match seg with
  | Char c => (renderErr, out +:+ String c "")
  | Ref path _ =>
      match renderErr with
      | Some e => (Some e, out)
      | None =>
          match (value ← referenceValue (of_list path) inputs results; renderValue value) with
          | Err e => (Some e, out)
          | Ok text => (None, out +:+ text)
          end
      end
  end.

Definition Render (t : Template) (inputs : gmap string any) (results : gmap string Result)
    : result TemplateError string :=
  let '(renderErr, rendered) := foldl (replace inputs results) (None, "") (segments_of (t_text t)) in
  match renderErr with
  | Some e => Err e
  | None => fail_if MaxPromptBytes <? len rendered with ErrPromptTooLong ;; Ok rendered
  end.

(** ** Conditions *)

Fixpoint Evaluate (results : gmap string Result) (condition : Condition) : result TemplateError bool :=
  match condition with
  | mkCondition node field equals all any not =>
      match not with
      | Some child => value ← Evaluate results child; Ok (negb value)
      | None =>
      match all with
      | Some children =>
          (fix go l := match l with
           | [] => Ok true
           | child :: l' => value ← Evaluate results child; if negb value then Ok value else go l'
           end) children
      | None =>
      match any with
      | Some children =>
          (fix go l := match l with
           | [] => Ok false
           | child :: l' => value ← Evaluate results child; if (value : bool) then Ok true else go l'
           end) children
      | None =>
          value ← referenceValue ("nodes." +:+ node +:+ "." +:+ field) ∅ results;
          want ← rmap_err ErrEquals (normalizeScalar equals);
          Ok (default "" (json_marshal value) =s default "" (json_marshal want))
      end end end
  end.
