(* ===== verification/Validate.v ===== *)
(** * Validation of a workflow document

    internal/workflow/validate.go.  path/filepath is modelled for a system
    whose separator is the slash; on Windows filepath.IsAbs and
    filepath.Clean are different functions. *)

From S2P Require Import Prelude GoText Routing Workflow Topology Template.
#[local] Open Scope string_scope.
#[local] Open Scope list_scope.
#[local] Open Scope Z_scope.

Definition maxContextMemoryBindingsPerNode := 32.

(** ** strings and path/filepath *)

Definition has_prefix_list (p l : list ascii) : bool :=
  match strip_prefix p l with Some _ => true | None => false end.
Definition has_prefix (s p : string) : bool := has_prefix_list (to_list p) (to_list s).
Fixpoint contains_list (l p : list ascii) : bool :=
  has_prefix_list p l || match l with [] => false | _ :: l' => contains_list l' p end.
Definition contains (s p : string) : bool := contains_list (to_list s) (to_list p).

Definition is_abs (path : string) : bool := has_prefix path "/".

(** One component of a path; [out] is the cleaned path so far, reversed *)
Definition clean_step (rooted : bool) (out : list string) (component : string) : list string :=
  if (component =s "") || (component =s ".") then out
  else if component =s ".." then
    match out with
    | last :: out' => if last =s ".." then component :: out else out'
    | [] => if rooted then [] else [component]
    end
  else component :: out.
Definition clean (path : string) : string :=
  let out := rev (foldl (clean_step (is_abs path)) [] (split_on "/" path)) in
  if is_abs path then "/" +:+ join "/" out
  else match out with [] => "." | _ => join "/" out end.

(** ** Errors *)

Inductive ConditionError :=
| ErrForms | ErrCompareIncomplete | ErrConditionAncestor (node : string) | ErrConditionField (field : string)
| ErrConditionEquals (e : ScalarError) | ErrGroupEmpty.

Inductive ValidateError :=
| ErrAPIVersion (v : string)
| ErrNameRequired
| ErrContextVersion
| ErrMaxConcurrency
| ErrNoNodes
| ErrDefaultAgent (e : ResolveError)
| ErrDefaultRouting (e : ContractError)
| ErrNodeContextVersion (id : string)
| ErrNodeID (id : string)
| ErrDependencyMissing (id dependency : string)
| ErrDependsOnItself (id : string)
| ErrDependencyRepeated (id dependency : string)
| ErrInstructionPath (id path : string)
| ErrInstructionRepeated (id path : string)
| ErrContextDependency (id dependency : string)
| ErrContextDependencyRepeated (id dependency : string)
| ErrTaskRequired (id : string)
| ErrPromptForbidden (id : string)
| ErrNodeAgent (id : string) (e : ResolveError)
| ErrNodeRouting (id : string) (e : ContractError)
| ErrPromptRequired (id : string)
| ErrAgentFields (id : string)
| ErrNodeType (id type : string)
| ErrEmptySkill (id : string)
| ErrTopology (e : TopologyError)
| ErrCondition (id : string) (e : ConditionError)
| ErrTemplate (id : string) (e : TemplateError).

(** ** Context policies *)

Definition unsafe_path (relative : string) : bool :=
  (trim_space relative =s "") || is_abs relative || (clean relative ≠s relative) || (relative =s ".") ||
  has_prefix relative "../" || contains relative "/../".

Definition validateContextPolicy (doc : Document) (nodeID : string) (policy : ContextPolicy)
    : result ValidateError unit :=
  _ ← range_loop (fun seenFiles relative =>
        fail_if unsafe_path relative with ErrInstructionPath nodeID relative ;;
        fail_if seen_in relative seenFiles with ErrInstructionRepeated nodeID relative ;;
        Ok ({[relative]} ∪ seenFiles))
      ∅ (cp_ProjectInstructions policy);
  let ancestors := ancestors doc nodeID in
  _ ← range_loop (fun seenDeps dependency =>
        fail_if negb (seen_in dependency ancestors) with ErrContextDependency nodeID dependency ;;
        fail_if seen_in dependency seenDeps with ErrContextDependencyRepeated nodeID dependency ;;
        Ok ({[dependency]} ∪ seenDeps))
      ∅ (cp_Dependencies policy);
  Ok tt.

(** ** Conditions *)

Definition b2z (b : bool) : Z := if b then 1 else 0.
Definition is_some {A} (o : option A) : bool := match o with Some _ => true | None => false end.

Fixpoint validateCondition (ancestors : gset string) (condition : Condition) : result ConditionError unit :=
  match condition with
  | mkCondition node field equals all any not =>
      let compare := (node ≠s "") || (field ≠s "") || negb (is_nil equals) in
      let forms := b2z compare + b2z (is_some all) + b2z (is_some any) + b2z (is_some not) in
      let validate_group :=
        (fix go l := match l with
         | [] => Ok tt
         | child :: l' => _ ← validateCondition ancestors child; go l'
         end) in
      fail_if negb (forms =? 1) with ErrForms ;;
      if compare then
        fail_if (node =s "") || (field =s "") || is_nil equals with ErrCompareIncomplete ;;
        fail_if negb (seen_in node ancestors) with ErrConditionAncestor node ;;
        fail_if negb (contains_string allowedResultFields field) with ErrConditionField field ;;
        _ ← rmap_err ErrConditionEquals (normalizeScalar equals);
        Ok tt
      else
        match any, all, not with
        | Some children, _, _ | None, Some children, _ =>
            fail_if Nat.eqb (length children) 0 with ErrGroupEmpty ;;
            validate_group children
        | None, None, Some child => validateCondition ancestors child
        | None, None, None => Err ErrForms (* forms is not 1 *)
        end
  end.

(** ** Documents *)

Definition is_agent_only (node : Node) : bool :=
  (n_Task node ≠s "") || (as_Driver (n_Agent node) ≠s "") || (as_Target (n_Agent node) ≠s "") ||
  is_some (as_Routing (n_Agent node)) || (n_Tool node ≠s "") || (n_Runtime node ≠s "") ||
  (0 <? len_slice (n_RequiredSkills node)).

Definition validate_routing (wrap : ContractError -> ValidateError) (o : option RoutingRequirementV1)
    : result ValidateError unit :=
  match o with
  | Some requirement => rmap_err wrap (ValidateRequirement requirement)
  | None => Ok tt
  end.

(** The switch on node.Type *)
Definition validate_type (doc : Document) (id : string) (node : Node) : result ValidateError unit :=
  if n_Type node =s "agent" then
    fail_if trim_space (n_Task node) =s "" with ErrTaskRequired id ;;
    fail_if n_Prompt node ≠s "" with ErrPromptForbidden id ;;
    _ ← rmap_err (ErrNodeAgent id) (ResolveAgent (d_Defaults doc) node);
    validate_routing (ErrNodeRouting id) (as_Routing (n_Agent node))
  else if n_Type node =s "approval" then
    fail_if trim_space (n_Prompt node) =s "" with ErrPromptRequired id ;;
    fail_if is_agent_only node with ErrAgentFields id ;;
    Ok tt
  else Err (ErrNodeType id (n_Type node)).

(** The body of the first loop over doc.Nodes *)
Definition validate_node (doc : Document) (id : string) (node : Node) : result ValidateError unit :=
  fail_if (d_APIVersion doc ≠s ContextPolicyAPIVersion) && is_some (n_Context node)
    with ErrNodeContextVersion id ;;
  fail_if negb (valid_node_id id) with ErrNodeID id ;;
  _ ← range_loop (fun seenDependencies dependency =>
        fail_if negb (is_some (d_Nodes doc !! dependency)) with ErrDependencyMissing id dependency ;;
        fail_if dependency =s id with ErrDependsOnItself id ;;
        fail_if seen_in dependency seenDependencies with ErrDependencyRepeated id dependency ;;
        Ok ({[dependency]} ∪ seenDependencies))
      ∅ (n_DependsOn node);
  let policy := EffectiveContextPolicy doc node in
  _ ← validateContextPolicy doc id policy;
  _ ← validate_type doc id node;
  range_loop (fun _ skill => fail_if trim_space skill =s "" with ErrEmptySkill id ;; Ok tt)
    tt (n_RequiredSkills node).

(** The template of a node: the task of an agent, the prompt of an approval *)
Definition node_template (node : Node) : string :=
  if n_Type node =s "approval" then n_Prompt node else n_Task node.

(** The body of the second loop over doc.Nodes *)
Definition validate_expressions (doc : Document) (id : string) (node : Node) : result ValidateError unit :=
  let ancestors := ancestors doc id in
  _ ← match n_When node with
      | Some condition => rmap_err (ErrCondition id) (validateCondition ancestors condition)
      | None => Ok tt
      end;
  _ ← rmap_err (ErrTemplate id) (ParseTemplate (node_template node) (d_Inputs doc) ancestors);
  Ok tt.

Section Ranged.
Context `{GoRange}.

Definition Validate (doc : Document) : result ValidateError (list string) :=
  fail_if negb (supported_api_version (d_APIVersion doc)) with ErrAPIVersion (d_APIVersion doc) ;;
  fail_if trim_space (d_Name doc) =s "" with ErrNameRequired ;;
  fail_if (d_APIVersion doc ≠s ContextPolicyAPIVersion) && is_some (d_Context doc) with ErrContextVersion ;;
  fail_if (d_MaxConcurrency doc <? 1) || (MaxAllowedConcurrency <? d_MaxConcurrency doc)
    with ErrMaxConcurrency ;;
  fail_if Nat.eqb (size (d_Nodes doc)) 0 with ErrNoNodes ;;
  _ ← rmap_err ErrDefaultAgent (ResolveAgent (d_Defaults doc) zero_node);
  _ ← validate_routing ErrDefaultRouting (as_Routing (df_Agent (d_Defaults doc)));
  _ ← range_loop (fun _ '(id, node) => validate_node doc id node)
        tt (go_range "Validate.nodes" (d_Nodes doc));
  order ← rmap_err ErrTopology (TopologicalOrder doc);
  _ ← range_loop (fun _ '(id, node) => validate_expressions doc id node)
        tt (go_range "Validate.expressions" (d_Nodes doc));
  Ok order.

(** ** Context bindings *)

Inductive BindingError :=
| ErrBindingVersion | ErrBindingNode (id : string) | ErrTooManyBindings (id : string)
| ErrMemoryID (id : string) | ErrMemoryRepeated (id memory : string) | ErrMemoryReason (id : string).

Definition validate_selections (nodeID : string) (selections : list MemoryBinding) : result BindingError unit :=
  fail_if maxContextMemoryBindingsPerNode <? len_slice selections with ErrTooManyBindings nodeID ;;
  _ ← range_loop (fun seen selection =>
        fail_if (trim_space (mb_ID selection) =s "") || (mb_ID selection ≠s trim_space (mb_ID selection)) ||
                (128 <? len (mb_ID selection)) with ErrMemoryID nodeID ;;
        fail_if seen_in (mb_ID selection) seen with ErrMemoryRepeated nodeID (mb_ID selection) ;;
        let seen := {[mb_ID selection]} ∪ seen in
        fail_if (trim_space (mb_Reason selection) =s "") || (mb_Reason selection ≠s trim_space (mb_Reason selection)) ||
                (1024 <? len (mb_Reason selection)) with ErrMemoryReason nodeID ;;
        Ok seen)
      ∅ selections;
  Ok tt.

Definition ValidateContextBindings (doc : Document) (bindings : ContextBindings) : result BindingError unit :=
  fail_if (0 <? Z.of_nat (size bindings)) && (d_APIVersion doc ≠s ContextPolicyAPIVersion)
    with ErrBindingVersion ;;
  range_loop (fun _ '(nodeID, selections) =>
      fail_if negb (is_some (d_Nodes doc !! nodeID)) with ErrBindingNode nodeID ;;
      validate_selections nodeID selections)
    tt (go_range "ValidateContextBindings" bindings).
End Ranged.
