(* ===== verification/TemplateTheory.v ===== *)
(** * Templates and conditions: theorems

    The cut of a text into matches loses nothing, rendering replaces every
    match by its value in one pass, a template that was parsed renders
    whenever its inputs and results are there, and a validated condition has
    the truth value of its boolean reading. *)

From S2P Require Import Prelude GoText Routing Workflow Topology Template Validate.
#[local] Open Scope string_scope.
#[local] Open Scope list_scope.
#[local] Open Scope Z_scope.

(** ** Splitting and joining *)

Lemma join_cons sep s t l : join sep (s :: t :: l) = s +:+ sep +:+ join sep (t :: l).
Proof. done. Qed.

Lemma of_list_app l k : of_list (l ++ k) = of_list l +:+ of_list k.
Proof. induction l as [|c l IH]; simpl; [done|]. by rewrite IH. Qed.

Lemma join_split_list sep l :
  join (String sep "") (map of_list (split_list sep l)) = of_list l.
Proof.
  induction l as [|c l IH]; [done|]. simpl. destruct (Ascii.eqb c sep) eqn:E.
  - apply Ascii.eqb_eq in E as ->. pose proof (split_list_nonempty sep l).
    destruct (split_list sep l) as [|w ws]; [done|]. cbn [map] in *. rewrite join_cons, IH. done.
  - pose proof (split_list_nonempty sep l). destruct (split_list sep l) as [|w ws]; [done|]. simpl of_list.
    change (of_list (c :: l)) with (String c (of_list l)). rewrite <-IH. by destruct ws.
Qed.

Lemma join_split_on s : join "." (split_on "." s) = s.
Proof. unfold split_on. by rewrite join_split_list, of_to_list. Qed.

Lemma split_on_app a b :
  Forall (fun c => Ascii.eqb c "." = false) (to_list a) ->
  split_on "." (a +:+ "." +:+ b) = a :: split_on "." b.
Proof.
  intros Ha. unfold split_on. rewrite !to_list_app. simpl. rewrite split_list_app by done.
  simpl. by rewrite of_to_list.
Qed.

(** ** The expression *)

Lemma strip_prefix_app p l r : strip_prefix p l = Some r <-> l = p ++ r.
Proof.
  revert l. induction p as [|a p IH]; intros l; simpl; [naive_solver|].
  destruct l as [|b l]; [split; discriminate|]. destruct (Ascii.eqb a b) eqn:E.
  - apply Ascii.eqb_eq in E as ->. rewrite IH. naive_solver.
  - apply Ascii.eqb_neq in E. naive_solver.
Qed.

Lemma span_app p l a b : span p l = (a, b) -> l = a ++ b /\ Forall (fun c => p c = true) a.
Proof.
  revert a b. induction l as [|c l IH]; intros a b; simpl; [intros [= <- <-]; repeat constructor|].
  destruct (p c) eqn:E; [|intros [= <- <-]; repeat constructor].
  destruct (span p l) as [a' b']. intros [= <- <-]. destruct (IH a' b' eq_refl) as [-> Hall].
  split; [done|by constructor].
Qed.

Lemma match_at_spec l path rest :
  match_at l = Some (path, rest) ->
  is_path path = true /\ exists ws1 ws2,
    l = open_braces ++ ws1 ++ path ++ ws2 ++ close_braces ++ rest /\
    Forall (fun c => re_space c = true) ws1 /\ Forall (fun c => re_space c = true) ws2.
Proof.
  unfold match_at. intros (l1 & E1 & Hm)%bind_Some.
  destruct (span re_space l1) as [ws1 l2] eqn:E2. destruct (span path_char l2) as [p l3] eqn:E3.
  destruct (span re_space l3) as [ws2 l4] eqn:E4. apply bind_Some in Hm as (l5 & E5 & Hm).
  destruct (is_path p) eqn:Ep; [|done]. injection Hm as <- <-. split; [done|]. exists ws1, ws2.
  apply strip_prefix_app in E1 as ->. apply strip_prefix_app in E5 as ->.
  apply span_app in E2 as [-> ?], E3 as [-> ?], E4 as [-> ?]. done.
Qed.

Lemma match_at_width l path rest :
  match_at l = Some (path, rest) -> (4 <= length l - length rest <= length l)%nat.
Proof.
  intros (_ & ws1 & ws2 & -> & _)%match_at_spec. rewrite !length_app. simpl. lia.
Qed.

(** Cutting loses nothing: the sources of the segments are the text. *)
Lemma segments_source skip l : concat (map segment_source (segments skip l)) = drop skip l.
Proof.
  revert skip. induction l as [|c l IH]; intros skip; [by destruct skip|].
  cbn [segments]. destruct skip as [|k]; [|apply IH].
  destruct (match_at (c :: l)) as [[path rest]|] eqn:E.
  - apply match_at_width in E. cbn [map concat segment_source]. rewrite IH.
    set (w := (length (c :: l) - length rest)%nat) in *.
    destruct w as [|w]; [lia|]. simpl. rewrite Nat.sub_0_r. by rewrite take_drop.
  - simpl. by rewrite IH.
Qed.

Lemma segments_paths skip l path source :
  Ref path source ∈ segments skip l -> is_path path = true.
Proof.
  revert skip. induction l as [|c l IH]; intros skip; [destruct skip; set_solver|].
  cbn [segments]. destruct skip as [|k]; [|apply IH].
  destruct (match_at (c :: l)) as [[p rest]|] eqn:E.
  - apply match_at_spec in E as [Hp _]. intros [[= -> ->]|Hin]%elem_of_cons; [done|by eapply IH].
  - intros [?|Hin]%elem_of_cons; [done|by eapply IH].
Qed.

(** ** Parsing *)

Lemma references_loop inputs anc refs acc t :
  range_loop (fun references path =>
      _ ← validateReference path inputs anc; Ok (references ++ [path])) acc refs = Ok t <->
  Forall (fun path => validateReference path inputs anc = Ok tt) refs /\ t = acc ++ refs.
Proof.
  revert acc. induction refs as [|r refs IH]; intros acc.
  - simpl. rewrite app_nil_r. naive_solver.
  - cbn [range_loop]. rewrite bind_ok, Forall_cons. setoid_rewrite bind_unit_ok. setoid_rewrite IH. split.
    + intros (a & [Hr [= <-]] & Hall & ->). by rewrite <-app_assoc.
    + intros ([Hr Hall] & ->). exists (acc ++ [r]). split; [done|]. split; [done|]. by rewrite <-app_assoc.
Qed.

Definition references_of (text : string) : list string := concat (map segment_refs (segments_of text)).

Lemma ParseTemplate_ok text inputs anc t :
  ParseTemplate text inputs anc = Ok t <->
  Forall (fun path => validateReference path inputs anc = Ok tt) (references_of text) /\
  check_delimiters (to_list text) (concat (map segment_covered (segments_of text))) = Ok tt /\
  t = {| t_text := text; t_references := references_of text |}.
Proof.
  unfold ParseTemplate. rewrite bind_ok. setoid_rewrite references_loop. setoid_rewrite bind_unit_ok.
  split.
  - intros (? & [Hall ->] & Hd & [= <-]). done.
  - intros (Hall & Hd & ->). exists (references_of text). done.
Qed.

(** ** Rendering *)

Definition reference_text (inputs : gmap string any) (results : gmap string Result) (path : string)
    : result TemplateError string :=
  value ← referenceValue path inputs results; renderValue value.

(** What a segment becomes *)
Definition piece (inputs : gmap string any) (results : gmap string Result) (seg : segment)
    : result TemplateError string :=
  match seg with
  | Char c => Ok (String c "")
  | Ref path _ => reference_text inputs results (of_list path)
  end.

(** The specification of Render: the pieces in order, the first error first *)
Definition render_pieces (text : string) (inputs : gmap string any) (results : gmap string Result)
    : result TemplateError string :=
  pieces ← mapM (piece inputs results) (segments_of text);
  let out := join "" pieces in
  if MaxPromptBytes <? len out then Err ErrPromptTooLong else Ok out.

Lemma string_app_cons c s t : String c s +:+ t = String c (s +:+ t).
Proof. done. Qed.

Lemma string_app_nil_r s : s +:+ "" = s.
Proof. induction s as [|c s IH]; [done|]. by rewrite string_app_cons, IH. Qed.

Lemma string_app_assoc s t u : (s +:+ t) +:+ u = s +:+ (t +:+ u).
Proof. induction s as [|c s IH]; [done|]. by rewrite !string_app_cons, IH. Qed.

Lemma join_empty_cons s l : join "" (s :: l) = s +:+ join "" l.
Proof. destruct l as [|t l]; cbn [join]; [by rewrite string_app_nil_r|done]. Qed.

Lemma replace_err inputs results segs e out :
  (foldl (replace inputs results) (Some e, out) segs).1 = Some e.
Proof. revert out. induction segs as [|[c|p s] segs IH]; intros out; simpl; [done|apply IH|apply IH]. Qed.

Lemma replace_fold inputs results segs out :
  match mapM (piece inputs results) segs with
  | Ok pieces => foldl (replace inputs results) (None, out) segs = (None, out +:+ join "" pieces)
  | Err e => (foldl (replace inputs results) (None, out) segs).1 = Some e
  end.
Proof.
  revert out. induction segs as [|seg segs IH]; intros out; [simpl; by rewrite string_app_nil_r|].
  cbn [mapM foldl]. destruct seg as [c|p s]; cbn [piece replace].
  - specialize (IH (out +:+ String c "")).
    change (mbind ?f (Ok ?a)) with (f a). cbv beta.
    destruct (mapM _ segs) as [pieces|e]; cbn in *; [|done].
    by rewrite IH, string_app_assoc; destruct pieces.
  - fold (reference_text inputs results (of_list p)).
    destruct (reference_text inputs results (of_list p)) as [t|e]; cbn; [|apply replace_err].
    specialize (IH (out +:+ t)). destruct (mapM _ segs) as [pieces|e]; cbn in *; [|done].
    rewrite IH, string_app_assoc. do 2 f_equal. by destruct pieces; simpl; rewrite ?string_app_nil_r.
Qed.

Lemma Render_pieces t inputs results : Render t inputs results = render_pieces (t_text t) inputs results.
Proof.
  unfold Render, render_pieces. pose proof (replace_fold inputs results (segments_of (t_text t)) "") as Hf.
  destruct (mapM _ _) as [pieces|e]; cbn.
  - by rewrite Hf.
  - destruct (foldl _ _ _) as [o out]. simpl in Hf. by subst.
Qed.

Lemma mapM_ok {E A B} (f : A -> result E B) l :
  (forall x, x ∈ l -> is_ok (f x) = true) -> exists k, mapM f l = Ok k.
Proof.
  induction l as [|x l IH]; intros Hl; [by eexists|]. cbn [mapM].
  destruct (proj1 (is_ok_Ok _) (Hl x ltac:(set_solver))) as [y ->].
  destruct IH as [k ->]; [set_solver|]. by eexists.
Qed.

(** ** References that resolve *)

(** Results have two fields that must not be empty when they are referenced. *)
Definition defined_field (r : Result) (field : string) : Prop :=
  (field = "result.summary" -> r_Summary r <> "") /\ (field = "result.decision" -> r_Decision r <> "").

Definition result_values (r : Result) : list (string * any) :=
  [("result.summary", AString (r_Summary r)); ("result.artifacts", AStrings (r_Artifacts r));
   ("result.warnings", AStrings (r_Warnings r)); ("result.checks", AStrings (r_Checks r));
   ("result.decision", AString (r_Decision r)); ("result.reason", AString (r_Reason r));
   ("result.usage.inputTokensEstimated", AInt (us_InputTokensEstimated (r_Usage r)));
   ("result.usage.outputTokensEstimated", AInt (us_OutputTokensEstimated (r_Usage r)))].

(** The value of a public field, [ANil] for any other *)
Definition field_value (r : Result) (field : string) : any :=
  match list_find (fun '(k, _) => k = field) (result_values r) with
  | Some (_, (_, v)) => v
  | None => ANil
  end.

(** What a reference needs at run time *)
Definition resolves (inputs : gmap string any) (results : gmap string Result) (path : string) : Prop :=
  (exists name v, split_on "." path = ["inputs"; name] /\ inputs !! name = Some v /\ is_ok (renderValue v) = true) \/
  (exists node parts r, split_on "." path = "nodes" :: node :: parts /\ results !! node = Some r /\
     defined_field r (join "." parts)).

Lemma referenceValue_node path inputs results node parts :
  split_on "." path = "nodes" :: node :: parts -> join "." parts ∈ allowedResultFields ->
  match results !! node with
  | None => is_ok (referenceValue path inputs results) = false
  | Some r => (defined_field r (join "." parts) /\
               referenceValue path inputs results = Ok (field_value r (join "." parts))) \/
              (~ defined_field r (join "." parts) /\ is_ok (referenceValue path inputs results) = false)
  end.
Proof.
  intros Hp Hf. unfold referenceValue. rewrite Hp. cbn [nth].
  replace ("nodes" =s "inputs") with false by reflexivity. destruct (results !! node) as [r|]; [|done].
  change (drop 2 ("nodes" :: node :: parts)) with parts.
  revert Hf. generalize (join "." parts). intros field Hf. unfold defined_field.
  unfold allowedResultFields in Hf. rewrite !elem_of_cons in Hf.
  destruct Hf as [->|[->|[->|[->|[->|[->|[->|[->|[]%not_elem_of_nil]]]]]]]]; simpl; try (left; done).
  - destruct (r_Summary r =s "") eqn:E; bool_props; [right; split; [tauto|done]|left; done].
  - destruct (r_Decision r =s "") eqn:E; bool_props; [right; split; [tauto|done]|left; done].
Qed.

Lemma field_value_renders r field : field ∈ allowedResultFields -> is_ok (renderValue (field_value r field)) = true.
Proof.
  unfold allowedResultFields. rewrite !elem_of_cons.
  intros [->|[->|[->|[->|[->|[->|[->|[->|[]%not_elem_of_nil]]]]]]]]; done.
Qed.

Lemma validateReference_ok path inputs anc :
  validateReference path inputs anc = Ok tt ->
  (exists name, split_on "." path = ["inputs"; name] /\ is_Some (inputs !! name)) \/
  (exists node parts, split_on "." path = "nodes" :: node :: parts /\
     node ∈ anc /\ join "." parts ∈ allowedResultFields).
Proof.
  unfold validateReference. intros Hv. generalize (split_on "." path), Hv. clear Hv.
  intros parts Hv. destruct (Nat.eqb _ 2 && _) eqn:E1.
  - left. bool_props. destruct parts as [|p0 [|p1 [|]]]; try done. simpl in *. subst.
    exists p1. split; [done|]. destruct (inputs !! p1); [eauto|done].
  - destruct ((4 <=? _)%nat && _) eqn:E2; [|done]. right. clear E1. bool_props.
    go_run Hv. bool_props. apply contains_string_spec in G0. unfold seen_in in G. bool_props.
    destruct parts as [|p0 [|p1 parts]]; simpl in *; [lia|lia|]. subst. by exists p1, parts.
Qed.

Lemma reference_text_ok path inputs results declared anc :
  validateReference path declared anc = Ok tt ->
  is_ok (reference_text inputs results path) = true <-> resolves inputs results path.
Proof.
  intros Hv. unfold reference_text, resolves.
  apply validateReference_ok in Hv as [(name & Hp & Hn)|(node & parts & Hp & Hn & Hf)].
  - rewrite Hp. assert (referenceValue path inputs results =
      match inputs !! name with None => Err (ErrMissingInput path) | Some value => Ok value end) as ->.
    { unfold referenceValue. by rewrite Hp. }
    destruct (inputs !! name) as [v|] eqn:E; cbn; split.
    + intros Hr. left. by exists name, v.
    + intros [(n & w & [= <-] & Hw & Hr)|(? & ? & ? & ? & _)]; [congruence|done].
    + done.
    + intros [(n & w & [= <-] & Hw & Hr)|(? & ? & ? & ? & _)]; [congruence|done].
  - pose proof (referenceValue_node path inputs results node parts Hp Hf) as Hr. rewrite Hp. split.
    + intros Hok. right. exists node, parts. destruct (results !! node) as [r|].
      * exists r. destruct Hr as [[Hd _]|[_ Hr]]; [done|]. by destruct (referenceValue _ _ _).
      * by destruct (referenceValue _ _ _).
    + intros [(? & ? & ? & _)|(n & p & r & [= <- <-] & Hn' & Hd)]; [done|]. rewrite Hn' in Hr.
      destruct Hr as [[_ ->]|[Hnd _]]; [|done]. cbn. by apply field_value_renders.
Qed.

(** ** Conditions *)

Section ConditionInd.
Context (P : Condition -> Prop).
Definition children (o : option (list Condition)) : list Condition := default [] o.
Hypothesis step : forall node field equals all any not,
  Forall P (children all) -> Forall P (children any) -> (forall c, not = Some c -> P c) ->
  P (mkCondition node field equals all any not).

Fixpoint condition_induction (c : Condition) : P c.
Proof.
  destruct c as [node field equals all any not]. apply step.
  - destruct all as [l|]; [|constructor]. simpl. induction l as [|x l IHl]; constructor; auto.
  - destruct any as [l|]; [|constructor]. simpl. induction l as [|x l IHl]; constructor; auto.
  - destruct not as [d|]; [|discriminate]. intros c [= <-]. apply condition_induction.
Defined.
End ConditionInd.

(** The scalar of a comparison, as JSON *)
Definition scalar_text (equals : any) : string :=
  match normalizeScalar equals with Ok v => default "" (json_marshal v) | Err _ => "" end.

(** The boolean reading of a condition *)
Fixpoint holds (results : gmap string Result) (condition : Condition) : bool :=
  match condition with
  | mkCondition node field equals all any not =>
      match not, all, any with
      | Some child, _, _ => negb (holds results child)
      | None, Some l, _ => forallb (holds results) l
      | None, None, Some l => existsb (holds results) l
      | None, None, None =>
          match results !! node with
          | Some r => default "" (json_marshal (field_value r field)) =s scalar_text equals
          | None => false
          end
      end
  end.

Lemma field_value_wants r field equals :
  is_ok (normalizeScalar equals) = true ->
  (want ← rmap_err ErrEquals (normalizeScalar equals);
   Ok (default "" (json_marshal (field_value r field)) =s default "" (json_marshal want)) : result TemplateError bool) =
  Ok (default "" (json_marshal (field_value r field)) =s scalar_text equals).
Proof. unfold scalar_text. by destruct (normalizeScalar equals). Qed.

(** The inversion of validateCondition *)
Lemma validateCondition_ok anc node field equals all any not :
  validateCondition anc (mkCondition node field equals all any not) = Ok tt ->
  (all = None /\ any = None /\ not = None /\ node ∈ anc /\ field ∈ allowedResultFields /\
   is_ok (normalizeScalar equals) = true) \/
  (exists l, all = Some l /\ any = None /\ not = None /\ l <> [] /\
     Forall (fun c => validateCondition anc c = Ok tt) l) \/
  (exists l, all = None /\ any = Some l /\ not = None /\ l <> [] /\
     Forall (fun c => validateCondition anc c = Ok tt) l) \/
  (exists c, all = None /\ any = None /\ not = Some c /\ validateCondition anc c = Ok tt).
Proof.
  assert (forall l, (fix go l := match l with
            | [] => Ok tt
            | child :: l' => _ ← validateCondition anc child; go l' end) l = Ok tt ->
          Forall (fun c => validateCondition anc c = Ok tt) l) as Hgo.
  { induction l as [|c l IH]; [constructor|]. rewrite bind_unit_ok. intros [? ?]. constructor; auto. }
  cbn [validateCondition]. set (compare := (node ≠s "") || (field ≠s "") || negb (is_nil equals)).
  intros Hv. destruct (negb _) eqn:Ef in Hv; [done|]. apply negb_false_iff, Z.eqb_eq in Ef.
  destruct compare eqn:Ec.
  - destruct all, any, not; simpl in Ef; try lia. left. go_run Hv. bool_props.
    unfold seen_in in G0. bool_props. apply contains_string_spec in G1.
    repeat split; try done. by destruct (normalizeScalar equals).
  - right. destruct any as [l|].
    + destruct all, not; simpl in Ef; try lia. right. left. exists l. go_run Hv.
      repeat split; try done; [by destruct l|]. by apply Hgo.
    + destruct all as [l|].
      * destruct not; simpl in Ef; try lia. left. exists l. go_run Hv.
        repeat split; try done; [by destruct l|]. by apply Hgo.
      * destruct not as [c|]; [|simpl in Ef; lia]. right. right. by exists c.
Qed.

Lemma path_of_node node field :
  valid_node_id node = true ->
  split_on "." ("nodes." +:+ node +:+ "." +:+ field) = "nodes" :: node :: split_on "." field.
Proof.
  intros Hn. change ("nodes." +:+ node +:+ "." +:+ field) with ("nodes" +:+ "." +:+ (node +:+ "." +:+ field)).
  rewrite split_on_app by (repeat constructor). f_equal. apply split_on_app.
  unfold valid_node_id, match_ident in Hn. destruct (to_list node) as [|c cs]; [done|].
  bool_props. assert (forall x, is_alpha x = true \/ id_rest x = true -> Ascii.eqb x "." = false) as Hdot.
  { intros x Hx. destruct (Ascii.eqb x ".") eqn:E; [|done]. apply Ascii.eqb_eq in E as ->.
    by destruct Hx. }
  constructor; [auto|]. rewrite Forall_forall. rewrite forallb_forall in H1.
  intros x Hx. apply Hdot. right. by apply H1, list_elem_of_In.
Qed.

(** The comparisons of a condition *)
Fixpoint atoms (condition : Condition) : list (string * string) :=
  match condition with
  | mkCondition node field equals all any not =>
      match not, all, any with
      | Some child, _, _ => atoms child
      | None, Some l, _ | None, None, Some l => concat (map atoms l)
      | None, None, None => [(node, field)]
      end
  end.

Definition atom_resolves (results : gmap string Result) (atom : string * string) : Prop :=
  exists r, results !! atom.1 = Some r /\ defined_field r atom.2.

Lemma Evaluate_holds results anc condition :
  (forall a, a ∈ anc -> valid_node_id a = true) ->
  validateCondition anc condition = Ok tt ->
  Forall (atom_resolves results) (atoms condition) ->
  Evaluate results condition = Ok (holds results condition).
Proof.
  intros Hid. induction condition as [node field equals all any not IHall IHany IHnot] using condition_induction.
  intros [(-> & -> & -> & Hn & Hf & He)|[(l & -> & -> & -> & _ & Hl)|[(l & -> & -> & -> & _ & Hl)|(c & -> & -> & -> & Hc)]]]%validateCondition_ok;
    cbn [Evaluate holds atoms].
  - intros [(r & Hr & Hd) _]%Forall_cons. simpl in Hr, Hd.
    pose proof (referenceValue_node _ ∅ results node (split_on "." field) (path_of_node _ field (Hid _ Hn))) as Hv.
    rewrite join_split_on, Hr in Hv. destruct (Hv Hf) as [[_ ->]|[Hnd _]]; [|done]. rewrite Hr.
    change (mbind ?f (Ok ?a)) with (f a). cbv beta. by apply field_value_wants.
  - simpl in IHall. clear IHany IHnot. induction Hl as [|c l Hc Hl IH]; [done|].
    apply Forall_cons in IHall as [Hh IHall]. cbn [map concat]. rewrite Forall_app. intros [Hac Hal].
    rewrite Hh by done. cbn. destruct (holds results c); cbn; [by apply IH|done].
  - simpl in IHany. clear IHall IHnot. induction Hl as [|c l Hc Hl IH]; [done|].
    apply Forall_cons in IHany as [Hh IHany]. cbn [map concat]. rewrite Forall_app. intros [Hac Hal].
    rewrite Hh by done. cbn. destruct (holds results c); cbn; [done|by apply IH].
  - intros Ha. by rewrite (IHnot c) by done.
Qed.

Lemma mapM_err {E A B} (f : A -> result E B) l k x :
  mapM f l = Ok k -> x ∈ l -> is_ok (f x) = true.
Proof.
  revert k. induction l as [|y l IH]; intros k Hm; [set_solver|]. cbn [mapM] in Hm.
  apply bind_ok in Hm as (b & Hb & Hm). apply bind_ok in Hm as (bs & Hbs & _).
  intros [->|Hx]%elem_of_cons; [by rewrite Hb|by eapply IH].
Qed.

Lemma reference_text_err inputs results path e :
  reference_text inputs results path = Err e -> e <> ErrPromptTooLong.
Proof.
  unfold reference_text, mbind, result_bind. destruct (referenceValue path inputs results) as [v|e'] eqn:E.
  - unfold renderValue. intros Hr. by destruct v; simpl in Hr; go_run Hr; simplify_eq.
  - intros [= ->]. unfold referenceValue in E. go_run E; by simplify_eq.
Qed.

Lemma mapM_piece_err inputs results segs e :
  mapM (piece inputs results) segs = Err e -> e <> ErrPromptTooLong.
Proof.
  induction segs as [|seg segs IH]; [done|]. cbn [mapM]. unfold mbind, result_bind.
  destruct (piece inputs results seg) as [t|e'] eqn:E.
  - destruct (mapM _ segs); [done|]. intros [= ->]. by apply IH.
  - intros [= ->]. destruct seg as [c|p s]; [done|]. by eapply reference_text_err.
Qed.

Lemma elem_of_references text path :
  path ∈ references_of text <-> exists p source, Ref p source ∈ segments_of text /\ path = of_list p.
Proof.
  unfold references_of. generalize (segments_of text). intros l. induction l as [|[c|p source] l IH]; simpl.
  - set_solver.
  - rewrite IH. set_solver.
  - rewrite elem_of_cons, IH. split.
    + intros [->|(p' & s' & Hin & ->)]; [exists p, source; set_solver|exists p', s'; set_solver].
    + intros (p' & s' & [[= <- <-]|Hin]%elem_of_cons & ->); [by left|right; by exists p', s'].
Qed.

(** ** Properties *)

(** Render replaces every reference of the text by its value, in one pass
    (a value is never scanned again), keeps all other bytes, and returns the
    error of the first reference that has none. *)
Theorem Render_one_pass (t : Template) (inputs : gmap string any) (results : gmap string Result) :
  Render t inputs results = render_pieces (t_text t) inputs results /\
  concat (map segment_source (segments_of (t_text t))) = to_list (t_text t).
Proof.
  split; [apply Render_pieces|]. unfold segments_of. by rewrite segments_source, drop_0.
Qed.

(** A template that ParseTemplate accepted fails to render only when one of
    its references has no value, or the prompt is too long. *)
Theorem parsed_template_renders (text : string) declared anc t inputs results
    (Hparse : ParseTemplate text declared anc = Ok t) :
  Forall (resolves inputs results) (t_references t) <->
  is_ok (Render t inputs results) = true \/ Render t inputs results = Err ErrPromptTooLong.
Proof.
  apply ParseTemplate_ok in Hparse as (Hrefs & _ & ->). rewrite Render_pieces. unfold render_pieces. cbn [t_text t_references].
  rewrite Forall_forall in Hrefs. rewrite Forall_forall. split.
  - intros Hall. destruct (mapM_ok (piece inputs results) (segments_of text)) as [pieces ->].
    + intros [c|p source] Hin; [done|]. simpl.
      assert (of_list p ∈ references_of text) as Hp by (apply elem_of_references; eauto).
      eapply reference_text_ok; eauto.
    + cbn. destruct (_ <? _); [by right|by left].
  - intros Hr path Hp. apply (reference_text_ok _ _ _ _ _ (Hrefs path Hp)).
    apply elem_of_references in Hp as (p & source & Hin & ->).
    destruct (mapM (piece inputs results) (segments_of text)) as [pieces|e] eqn:E.
    + exact (mapM_err _ _ _ (Ref p source) E Hin).
    + cbn in Hr. destruct Hr as [|[= ->]]; [done|]. by destruct (mapM_piece_err _ _ _ _ E).
Qed.

Definition sample_result (summary decision : string) (tokens : Z) : Result := {|
  r_Summary := summary; r_Artifacts := Some ["a.go"; "b.go"]; r_Warnings := None; r_Checks := None;
  r_Questions := []; r_Usage := {| us_InputTokensEstimated := tokens; us_OutputTokensEstimated := 0 |};
  r_Decision := decision; r_Reason := "" |}.
Definition sample_text : string :=
  "Review {{ nodes.build.result.summary }} of {{inputs.ticket}}: {{nodes.build.result.artifacts}}".
Definition sample_inputs : gmap string InputDeclaration :=
  {[ "ticket" := {| in_Required := true; in_Default := ANil |} ]}.

Example sample_rendering :
  (t ← ParseTemplate sample_text sample_inputs {["build"]};
   Render t {["ticket" := ANumber "42"]} {["build" := sample_result "{{inputs.ticket}}" "" 0]}) =
  Ok (of_list (to_list "Review {{inputs.ticket}} of 42: [" ++ quote :: to_list "a.go" ++ [quote; ","%char; quote] ++
      to_list "b.go" ++ [quote; "]"%char])).
Proof. vm_compute. reflexivity. Qed.

Lemma parsed_template_renders_witness :
  exists t, ParseTemplate sample_text sample_inputs {["build"]} = Ok t /\
  (Forall (resolves {["ticket" := ANumber "42"]} {["build" := sample_result "done" "" 0]}) (t_references t) <->
   is_ok (Render t {["ticket" := ANumber "42"]} {["build" := sample_result "done" "" 0]}) = true \/
   Render t {["ticket" := ANumber "42"]} {["build" := sample_result "done" "" 0]} = Err ErrPromptTooLong).
Proof.
  exists {| t_text := sample_text; t_references := references_of sample_text |}.
  assert (ParseTemplate sample_text sample_inputs {["build"]} =
          Ok {| t_text := sample_text; t_references := references_of sample_text |}) as Hp by (vm_compute; reflexivity).
  split; [exact Hp|]. exact (parsed_template_renders sample_text _ _ _ _ _ Hp).
Defined.

(** A validated condition whose comparisons find their results evaluates,
    without an error, to its boolean reading; short-circuiting changes
    nothing. *)
Theorem Evaluate_valid (results : gmap string Result) (anc : gset string) (condition : Condition)
    (Hids : forall a, a ∈ anc -> valid_node_id a = true)
    (Hvalid : validateCondition anc condition = Ok tt)
    (Hatoms : Forall (atom_resolves results) (atoms condition)) :
  Evaluate results condition = Ok (holds results condition).
Proof. by eapply Evaluate_holds. Qed.

Definition compare_with (node field : string) (equals : any) : Condition :=
  mkCondition node field equals None None None.
Definition sample_condition : Condition :=
  mkCondition "" "" ANil None
    (Some [compare_with "gate" "result.decision" (AString "approved");
           mkCondition "" "" ANil None None
             (Some (compare_with "gate" "result.usage.inputTokensEstimated" (AFloat "7" "7")))]) None.

Lemma Evaluate_valid_witness :
  Evaluate {["gate" := sample_result "ok" "rejected" 7]} sample_condition =
  Ok (holds {["gate" := sample_result "ok" "rejected" 7]} sample_condition).
Proof.
  apply (Evaluate_valid {["gate" := sample_result "ok" "rejected" 7]} {["gate"]} sample_condition).
  - intros a ->%elem_of_singleton. reflexivity.
  - vm_compute. reflexivity.
  - repeat constructor; (exists (sample_result "ok" "rejected" 7); repeat split; done).
Defined.

(** A count of a million never equals the condition's number once the
    condition has passed through a float64: FormatFloat with format 'g'
    writes it with an exponent. *)
Example million_tokens :
  Evaluate {["build" := sample_result "ok" "" 1000000]}
    (compare_with "build" "result.usage.inputTokensEstimated" (AFloat "1e+06" "1000000")) = Ok false.
Proof. vm_compute. reflexivity. Qed.
