(* ===== verification/ValidateTheory.v ===== *)
(** * Validation: theorems

    What a document that Validate accepts is, and what the rest of the engine
    may rely on: references and conditions point to earlier nodes of the
    order, project instructions stay below the project root. *)

From S2P Require Import Prelude GoText Routing Workflow Topology Template Validate TemplateTheory.
#[local] Open Scope string_scope.
#[local] Open Scope list_scope.
#[local] Open Scope Z_scope.

(** ** Well-formed documents *)

Record policy_ok (doc : Document) (id : string) (policy : ContextPolicy) : Prop := {
  policy_paths : Forall (fun p => unsafe_path p = false) (cp_ProjectInstructions policy);
  policy_paths_unique : NoDup (cp_ProjectInstructions policy);
  policy_dependencies : Forall (fun d => tc (depends_on doc) id d) (cp_Dependencies policy);
  policy_dependencies_unique : NoDup (cp_Dependencies policy) }.

Record agent_ok (doc : Document) (node : Node) : Prop := {
  agent_task : trim_space (n_Task node) <> "";
  agent_prompt : n_Prompt node = "";
  agent_resolves : is_ok (ResolveAgent (d_Defaults doc) node) = true;
  agent_routing : forall r, as_Routing (n_Agent node) = Some r -> ValidateRequirement r = Ok tt }.

Record approval_ok (node : Node) : Prop := {
  approval_prompt : trim_space (n_Prompt node) <> "";
  approval_plain : is_agent_only node = false }.

Record node_ok (doc : Document) (id : string) (node : Node) : Prop := {
  node_context : n_Context node = None \/ d_APIVersion doc = ContextPolicyAPIVersion;
  node_id : valid_node_id id = true;
  node_dependencies : Forall (fun d => is_Some (d_Nodes doc !! d) /\ d <> id) (n_DependsOn node);
  node_dependencies_unique : NoDup (n_DependsOn node);
  node_policy : policy_ok doc id (EffectiveContextPolicy doc node);
  node_type : (n_Type node = "agent" /\ agent_ok doc node) \/ (n_Type node = "approval" /\ approval_ok node);
  node_skills : Forall (fun s => trim_space s <> "") (n_RequiredSkills node) }.

Record expressions_ok (doc : Document) (id : string) (node : Node) : Prop := {
  node_condition : forall c, n_When node = Some c -> validateCondition (ancestors doc id) c = Ok tt;
  node_parses : is_ok (ParseTemplate (node_template node) (d_Inputs doc) (ancestors doc id)) = true }.

Record document_ok (doc : Document) : Prop := {
  doc_version : d_APIVersion doc ∈ [APIVersion; ContextPolicyAPIVersion; LegacyAPIVersion];
  doc_name : trim_space (d_Name doc) <> "";
  doc_context : d_Context doc = None \/ d_APIVersion doc = ContextPolicyAPIVersion;
  doc_concurrency : 1 <= d_MaxConcurrency doc <= MaxAllowedConcurrency;
  doc_nodes : d_Nodes doc <> ∅;
  doc_agent : is_ok (ResolveAgent (d_Defaults doc) zero_node) = true;
  doc_routing : forall r, as_Routing (df_Agent (d_Defaults doc)) = Some r -> ValidateRequirement r = Ok tt;
  doc_node : map_Forall (node_ok doc) (d_Nodes doc);
  doc_expressions : map_Forall (expressions_ok doc) (d_Nodes doc) }.

(** ** Each check decides its property *)

Lemma seen_in_absent x s : seen_in x s = false <-> x ∉ s.
Proof. unfold seen_in. apply bool_decide_eq_false. Qed.
Lemma seen_in_present x s : seen_in x s = true <-> x ∈ s.
Proof. unfold seen_in. apply bool_decide_eq_true. Qed.
Lemma is_some_true {A} (o : option A) : is_some o = true <-> is_Some o.
Proof. destruct o; simpl; split; [eauto|done|done|by intros [? ?]]. Qed.
Lemma is_some_false {A} (o : option A) : is_some o = false <-> o = None.
Proof. by destruct o. Qed.
Lemma negb_eqb_false a b : (a ≠s b) = false <-> a = b.
Proof. rewrite negb_false_iff. apply String.eqb_eq. Qed.
Lemma rmap_err_ok {E F A} (f : E -> F) (m : result E A) a : rmap_err f m = Ok a <-> m = Ok a.
Proof. destruct m; simpl; naive_solver. Qed.
Lemma rmap_err_is_ok {E F A} (f : E -> F) (m : result E A) : is_ok (rmap_err f m) = is_ok m.
Proof. by destruct m. Qed.

(** A loop that collects strings in a "seen" map and checks each *)
Lemma unique_loop_ok {E} (body : gset string -> string -> result E (gset string)) (P : string -> Prop) l :
  (forall seen x s', body seen x = Ok s' <-> P x /\ x ∉ seen /\ s' = {[x]} ∪ seen) ->
  is_ok (range_loop body ∅ l) = true <-> Forall P l /\ NoDup l.
Proof.
  intros Hb. rewrite (seen_loop_ok (fun x => x) P body ∅ l Hb).
  rewrite (list_fmap_id l : map (fun x => x) l = l).
  split; [tauto|]. intros [? ?]. repeat split; try done. rewrite Forall_forall. set_solver.
Qed.

Lemma validateContextPolicy_ok doc id policy :
  validateContextPolicy doc id policy = Ok tt <-> policy_ok doc id policy.
Proof.
  unfold validateContextPolicy. rewrite bind_any_ok, is_ok_bind_unit.
  rewrite (unique_loop_ok _ (fun p => unsafe_path p = false)).
  2:{ intros. rewrite !fail_if_ok, seen_in_absent. naive_solver. }
  rewrite (unique_loop_ok _ (fun d => tc (depends_on doc) id d)).
  2:{ intros. rewrite !fail_if_ok, seen_in_absent, negb_false_iff, seen_in_present, elem_of_ancestors. naive_solver. }
  split; [intros [[? ?] [? ?]]; by constructor|by intros []].
Qed.

Lemma validate_routing_ok wrap o :
  validate_routing wrap o = Ok tt <-> forall r, o = Some r -> ValidateRequirement r = Ok tt.
Proof.
  unfold validate_routing. destruct o as [r|]; [|naive_solver]. rewrite rmap_err_ok. naive_solver.
Qed.

Lemma validate_type_ok doc id node :
  validate_type doc id node = Ok tt <->
  (n_Type node = "agent" /\ agent_ok doc node) \/ (n_Type node = "approval" /\ approval_ok node).
Proof.
  unfold validate_type. destruct (n_Type node =s "agent") eqn:Ea; bool_props; [|destruct (n_Type node =s "approval") eqn:Eb; bool_props].
  - rewrite Ea, !fail_if_ok, bind_any_ok, rmap_err_is_ok, validate_routing_ok, negb_eqb_false, String.eqb_neq.
    split; [intros (? & ? & ? & ?); left; by repeat split|]. intros [[_ []]|[? _]]; [done|congruence].
  - rewrite Eb, !fail_if_ok, String.eqb_neq.
    split; [intros (? & ? & _); right; by repeat split|]. intros [[? _]|[_ []]]; [congruence|done].
  - naive_solver.
Qed.

Lemma validate_node_ok doc id node : validate_node doc id node = Ok tt <-> node_ok doc id node.
Proof.
  unfold validate_node. rewrite !fail_if_ok, bind_any_ok, !bind_unit_ok.
  rewrite (unique_loop_ok _ (fun d => is_Some (d_Nodes doc !! d) /\ d <> id)).
  2:{ intros. rewrite !fail_if_ok, seen_in_absent, negb_false_iff, is_some_true, String.eqb_neq. naive_solver. }
  rewrite validateContextPolicy_ok, validate_type_ok, (range_loop_unit (fun skill => fail_if trim_space skill =s "" with ErrEmptySkill id ;; Ok tt)).
  rewrite andb_false_iff, negb_eqb_false, is_some_false, negb_false_iff.
  assert (Forall (fun x => (fail_if trim_space x =s "" with ErrEmptySkill id ;; Ok tt) = Ok tt) (n_RequiredSkills node) <->
          Forall (fun s => trim_space s <> "") (n_RequiredSkills node)) as ->.
  { apply Forall_proper; [|done]. intros s. rewrite fail_if_ok, String.eqb_neq. tauto. }
  split; [intros (? & ? & [? ?] & ? & ? & ?); constructor; tauto|intros []; tauto].
Qed.

Lemma validate_expressions_ok doc id node :
  validate_expressions doc id node = Ok tt <-> expressions_ok doc id node.
Proof.
  unfold validate_expressions. rewrite bind_unit_ok, is_ok_bind_unit, rmap_err_is_ok.
  destruct (n_When node) as [c|] eqn:E.
  - rewrite rmap_err_ok. split; [intros [? ?]; constructor; naive_solver|intros []; auto].
  - split; [intros [? ?]; constructor; naive_solver|intros []; auto].
Qed.

Lemma supported_api_version_spec v :
  supported_api_version v = true <-> v ∈ [APIVersion; ContextPolicyAPIVersion; LegacyAPIVersion].
Proof.
  unfold supported_api_version. rewrite !orb_true_iff, !String.eqb_eq, !elem_of_cons, elem_of_nil. tauto.
Qed.

Lemma Validate_ok `{GoRange} doc order :
  Validate doc = Ok order <-> document_ok doc /\ TopologicalOrder doc = Ok order.
Proof.
  unfold Validate. rewrite !fail_if_ok, bind_any_ok, !bind_unit_ok, bind_ok, rmap_err_is_ok, validate_routing_ok.
  rewrite (go_range_check _ _ (fun '(id, node) => validate_node doc id node)).
  setoid_rewrite bind_unit_ok. setoid_rewrite rmap_err_ok.
  setoid_rewrite (go_range_check _ _ (fun '(id, node) => validate_expressions doc id node)).
  rewrite negb_false_iff, supported_api_version_spec, String.eqb_neq, andb_false_iff, negb_eqb_false, is_some_false.
  rewrite orb_false_iff, !Z.ltb_ge, Nat.eqb_neq.
  assert (size (d_Nodes doc) ≠ 0%nat <-> d_Nodes doc <> ∅) as -> by (by rewrite map_size_non_empty_iff).
  assert (map_Forall (fun id node => validate_node doc id node = Ok tt) (d_Nodes doc) <->
          map_Forall (node_ok doc) (d_Nodes doc)) as ->.
  { unfold map_Forall. setoid_rewrite validate_node_ok. done. }
  assert (map_Forall (fun id node => validate_expressions doc id node = Ok tt) (d_Nodes doc) <->
          map_Forall (expressions_ok doc) (d_Nodes doc)) as Hexp.
  { unfold map_Forall. setoid_rewrite validate_expressions_ok. done. }
  setoid_rewrite Hexp. split.
  - intros (? & ? & ? & ? & ? & ? & ? & ? & o & ? & ? & [= ->]). split; [|done]. constructor; tauto.
  - intros [[] ?]. do 8 (split; [tauto|]). exists order. tauto.
Qed.

(** ** Paths *)

Definition plain_component (c : string) : Prop := c <> "" /\ c <> "." /\ c <> "..".
Definition no_slash (c : string) : Prop := Forall (fun a => Ascii.eqb a "/" = false) (to_list c).

Lemma split_list_no_slash l : Forall (Forall (fun a => Ascii.eqb a "/" = false)) (split_list "/" l).
Proof.
  induction l as [|c l IH]; simpl; [by repeat constructor|].
  destruct (Ascii.eqb c "/") eqn:E; [by repeat constructor|].
  destruct (split_list "/" l) as [|w ws]; [by repeat constructor|].
  apply Forall_cons in IH as [? ?]. by repeat constructor.
Qed.

Lemma split_on_no_slash s : Forall no_slash (split_on "/" s).
Proof.
  unfold split_on, no_slash. rewrite Forall_map. eapply Forall_impl; [apply split_list_no_slash|].
  simpl. intros l. by rewrite to_of_list.
Qed.

Lemma split_join l : l <> [] -> Forall no_slash l -> split_on "/" (join "/" l) = l.
Proof.
  intros Hne Hall. unfold split_on. induction Hall as [|s l Hs Hall IH]; [done|].
  destruct l as [|t l].
  - cbn [join]. rewrite split_list_no_sep by done. simpl. by rewrite of_to_list.
  - rewrite join_cons, !to_list_app. change (to_list "/") with ["/"%char]. cbn [app].
    rewrite split_list_app by done.
    cbn [map]. rewrite of_to_list, IH; done.
Qed.

(** The cleaned path of a relative path: parent components come first. *)
Lemma clean_step_shape out comps :
  Forall no_slash comps ->
  (exists k ws, out = ws ++ repeat ".." k /\ Forall plain_component ws /\ Forall no_slash out) ->
  exists k ws, foldl (clean_step false) out comps = ws ++ repeat ".." k /\ Forall plain_component ws /\
    Forall no_slash (foldl (clean_step false) out comps).
Proof.
  intros Hc. revert out. induction Hc as [|c comps Hc Hcs IH]; intros out Hout; [done|].
  cbn [foldl]. apply IH. destruct Hout as (k & ws & -> & Hws & Hns). unfold clean_step.
  destruct ((c =s "") || (c =s ".")) eqn:E1; [by exists k, ws|].
  apply orb_false_iff in E1 as [E1 E2]. bool_props.
  destruct (c =s "..") eqn:E3; bool_props.
  - subst. destruct ws as [|w ws]; simpl.
    + exists (S k), []. simpl in *. destruct k; simpl in *; repeat split; try done; by constructor.
    + apply Forall_cons in Hws as [[_ [_ Hw]] Hws]. apply String.eqb_neq in Hw as ->.
      simpl in Hns. apply Forall_cons in Hns as [_ Hns]. by exists k, ws.
  - exists k, (c :: ws). repeat split; [by constructor|]. simpl. by constructor.
Qed.

Lemma rev_repeat {A} (x : A) k : rev (repeat x k) = repeat x k.
Proof.
  induction k as [|k IH]; simpl; [done|]. rewrite IH. clear IH. induction k as [|k IH]; simpl; [done|]. by rewrite IH.
Qed.

Lemma has_prefix_app p s : has_prefix (p +:+ s) p = true.
Proof.
  unfold has_prefix, has_prefix_list. rewrite to_list_app.
  destruct (strip_prefix (to_list p) (to_list p ++ to_list s)) as [r|] eqn:E; [done|].
  assert (strip_prefix (to_list p) (to_list p ++ to_list s) = Some (to_list s)) by (by apply strip_prefix_app).
  congruence.
Qed.

(** A project instruction path that validation accepts is relative and has
    neither empty nor dot components; the only parent component it can have is
    the whole path "..". *)
Theorem instruction_path_confined (path : string) (Hsafe : unsafe_path path = false) :
  is_abs path = false /\ (path = ".." \/ Forall plain_component (split_on "/" path)).
Proof.
  unfold unsafe_path in Hsafe. rewrite !orb_false_iff in Hsafe.
  destruct Hsafe as [[[[[_ Habs] Hclean] Hdot] Hpre] _]. split; [done|].
  apply negb_false_iff, String.eqb_eq in Hclean. apply String.eqb_neq in Hdot.
  unfold clean in Hclean. rewrite Habs in Hclean.
  destruct (clean_step_shape [] (split_on "/" path)) as (k & ws & Hshape & Hws & Hns);
    [apply split_on_no_slash|by exists 0%nat, []|].
  rewrite Hshape in Hclean, Hns. rewrite rev_app_distr, rev_repeat in Hclean.
  assert (Forall no_slash (repeat ".." k ++ rev ws)) as Hout.
  { rewrite Forall_app in Hns. rewrite Forall_app. split; [tauto|]. apply Forall_rev; tauto. }
  destruct (repeat ".." k ++ rev ws) as [|c cs] eqn:Eo; [congruence|].
  assert (split_on "/" path = c :: cs) as Hsplit by (rewrite <-Hclean; apply split_join; [discriminate|exact Hout]).
  destruct k as [|k].
  - right. rewrite Hsplit, <-Eo. simpl. by apply Forall_rev.
  - left. simpl in Eo. injection Eo as <- Eo. destruct cs as [|c2 cs]; [by rewrite <-Hclean|].
    rewrite join_cons in Hclean. rewrite <-Hclean in Hpre.
    change (".." +:+ "/" +:+ ?t) with ("../" +:+ t) in Hpre. by rewrite has_prefix_app in Hpre.
Qed.

Lemma instruction_path_confined_witness :
  is_abs "docs/guide.md" = false /\
  ("docs/guide.md" = ".." \/ Forall plain_component (split_on "/" "docs/guide.md")).
Proof. apply (instruction_path_confined "docs/guide.md"). vm_compute. reflexivity. Defined.

(** The parent directory itself is accepted. *)
Example parent_accepted : unsafe_path ".." = false.
Proof. vm_compute. reflexivity. Qed.

(** ** Accepted documents *)

(** C36: Validate accepts exactly the well-formed documents whose graph has a
    complete dependency order, and returns the greedy one; neither the verdict
    nor the order depends on how Go enumerates maps. *)
Theorem Validate_spec `{GoRange} (doc : Document) (order : list string) :
  Validate doc = Ok order <->
  document_ok doc /\ greedy doc order /\ order ≡ₚ (map_to_list (d_Nodes doc)).*1.
Proof.
  rewrite Validate_ok. split.
  - intros [? (? & ? & _)%TopologicalOrder_ok]. done.
  - intros (Hd & Hg & Hp). split; [done|].
    pose proof (TopologicalOrder_cases doc) as Hc. destruct (TopologicalOrder doc) as [o|[]]; [|exfalso|done].
    + destruct Hc as (Hg' & Hp' & _). f_equal. eapply greedy_unique; [done|done|].
      apply Permutation_length. by rewrite Hp, Hp'.
    + apply (Hc order Hp). by apply greedy_dependencies_first.
Qed.

(** The nodes a template refers to *)
Definition referenced_node (text node : string) : Prop :=
  exists path parts, path ∈ references_of text /\ split_on "." path = "nodes" :: node :: parts.

(** In an accepted document a template, a condition or a context policy of a
    node mentions only nodes that come before it in the order. *)
Theorem references_point_backwards `{GoRange} (doc : Document) order i id node other
    (Hvalid : Validate doc = Ok order)
    (Hi : order !! i = Some id) (Hnode : d_Nodes doc !! id = Some node)
    (Hother : referenced_node (node_template node) other \/
              (exists c field, n_When node = Some c /\ (other, field) ∈ atoms c) \/
              other ∈ cp_Dependencies (EffectiveContextPolicy doc node)) :
  other ∈ take i order.
Proof.
  apply Validate_ok in Hvalid as [Hd (_ & _ & Hdf)%TopologicalOrder_ok].
  eapply dependencies_first_tc; [done| |done].
  destruct (doc_expressions _ Hd id node Hnode) as [Hcond Hparse].
  destruct Hother as [(path & parts & Hpath & Hsplit)|[(c & field & Hc & Ha)|Hp]].
  - apply is_ok_Ok in Hparse as [t Ht]. apply ParseTemplate_ok in Ht as (Hrefs & _ & _).
    rewrite Forall_forall in Hrefs. specialize (Hrefs path Hpath).
    apply validateReference_ok in Hrefs as [(? & Hs & _)|(n & ps & Hs & Hn & _)]; rewrite Hsplit in Hs; [done|].
    injection Hs as -> ->. by apply elem_of_ancestors.
  - specialize (Hcond c Hc). apply elem_of_ancestors. clear -Hcond Ha. revert Hcond Ha.
    induction c as [nd fd eq all any not IHall IHany IHnot] using condition_induction.
    intros [(-> & -> & -> & Hn & _)|[(l & -> & -> & -> & _ & Hl)|[(l & -> & -> & -> & _ & Hl)|(c & -> & -> & -> & Hc)]]]%validateCondition_ok;
      cbn [atoms].
    + intros [= -> ->]%list_elem_of_singleton. done.
    + simpl in IHall. rewrite list_elem_of_In, in_concat. intros (x & (c & <- & Hc)%in_map_iff & Hx).
      apply list_elem_of_In in Hc, Hx. rewrite Forall_forall in IHall, Hl. eauto.
    + simpl in IHany. rewrite list_elem_of_In, in_concat. intros (x & (c & <- & Hc)%in_map_iff & Hx).
      apply list_elem_of_In in Hc, Hx. rewrite Forall_forall in IHany, Hl. eauto.
    + by eapply IHnot.
  - destruct (doc_node _ Hd id node Hnode) as [_ _ _ _ [_ _ Hdeps _] _ _].
    rewrite Forall_forall in Hdeps. by apply Hdeps.
Qed.

(** Two nodes, the second reviews the first. *)
Definition review_document : Document := {|
  d_APIVersion := ContextPolicyAPIVersion; d_Name := "review"; d_Inputs := sample_inputs;
  d_Defaults := {| df_Agent := no_agent; df_Backend := ""; df_Tool := "codex"; df_Runtime := "" |};
  d_MaxConcurrency := 2;
  d_Context := Some {| cp_ProjectInstructions := ["AGENTS.md"]; cp_Dependencies := [] |};
  d_Nodes := {[ "build" := chain_node [];
                "accept" := {| n_Type := "approval"; n_DependsOn := ["build"];
                  n_When := Some (compare_with "build" "result.summary" (AString "done"));
                  n_Task := ""; n_Prompt := "Accept {{nodes.build.result.artifacts}}?"; n_Agent := no_agent;
                  n_Tool := ""; n_Runtime := ""; n_RequiredSkills := [];
                  n_Context := Some {| cp_ProjectInstructions := []; cp_Dependencies := ["build"] |} |} ]} |}.

Lemma references_point_backwards_witness : "build" ∈ take 1 ["build"; "accept"].
Proof.
  apply (@references_point_backwards canonical_range review_document ["build"; "accept"] 1%nat "accept"
           (node_at review_document "accept") "build").
  - vm_compute. reflexivity.
  - reflexivity.
  - vm_compute. reflexivity.
  - right. left. exists (compare_with "build" "result.summary" (AString "done")), "result.summary".
    split; [vm_compute; reflexivity|]. set_solver.
Defined.
