(* ===== verification/WorkflowTheory.v ===== *)
(** * Inputs, normalisation and results: theorems

    ResolveInputs, normalizeDocument and ValidateResult against
    specifications that do not mention the order in which Go enumerates a
    map. *)

From S2P Require Import Prelude GoText Routing Workflow.
#[local] Open Scope string_scope.
#[local] Open Scope list_scope.
#[local] Open Scope Z_scope.

(** ** A loop over a map that treats every key by itself *)

Section PerKey.
Context {E A B : Type} (entry : string -> A -> result E (option B)).

(** Each entry is inserted, or leaves the map as it is. *)
Definition per_key (m : gmap string B) (kv : string * A) : result E (gmap string B) :=
  e ← entry kv.1 kv.2; Ok (match e with Some v => <[kv.1 := v]> m | None => m end).

#[local] Arguments per_key _ _ : simpl never.
Lemma per_key_eq m k v :
  per_key m (k, v) = (e ← entry k v; Ok (match e with Some b => <[k := b]> m | None => m end)).
Proof. done. Qed.

Lemma per_key_loop l m0 m :
  NoDup l.*1 ->
  range_loop per_key m0 l = Ok m <->
  (forall k v, (k, v) ∈ l -> exists e, entry k v = Ok e /\ m !! k = match e with Some b => Some b | None => m0 !! k end) /\
  (forall k, k ∉ l.*1 -> m !! k = m0 !! k).
Proof.
  revert m0. induction l as [|[k v] l IH]; intros m0; cbn.
  - intros _. split; [intros [= ->]; split; [set_solver|done]|].
    intros [_ Heq]. f_equal. apply map_eq. intros k. symmetry. apply Heq. set_solver.
  - intros [Hk Hnd]%NoDup_cons. rewrite per_key_eq. destruct (entry k v) as [e|] eqn:Ee; cbn.
    + rewrite IH by done. split.
      * intros [Hin Hout]. split.
        -- intros k' v' [[= -> ->]|Hkv]%elem_of_cons.
           ++ exists e. split; [done|]. rewrite Hout by done. destruct e; [by rewrite lookup_insert_eq|done].
           ++ destruct (Hin k' v' Hkv) as (e' & ? & ->). exists e'. split; [done|].
              destruct e'; [done|]. destruct e; [|done]. rewrite lookup_insert_ne; [done|].
              intros ->. apply Hk, list_elem_of_fmap. by exists (k', v').
        -- intros k' [Hne Hk']%not_elem_of_cons. rewrite Hout by done.
           destruct e; [by rewrite lookup_insert_ne|done].
      * intros [Hin Hout]. split.
        -- intros k' v' Hkv. destruct (Hin k' v') as (e' & ? & ->); [set_solver|]. exists e'. split; [done|].
           destruct e'; [done|]. destruct e; [|done]. rewrite lookup_insert_ne; [done|].
           intros ->. apply Hk, list_elem_of_fmap. by exists (k', v').
        -- intros k' Hk'. destruct (decide (k' = k)) as [->|Hne].
           ++ destruct (Hin k v) as (e' & Ee' & Hm); [set_solver|]. rewrite Ee in Ee'. injection Ee' as <-.
              rewrite Hm. destruct e; [by rewrite lookup_insert_eq|done].
           ++ rewrite Hout by set_solver. destruct e; [by rewrite lookup_insert_ne|done].
    + split; [done|]. intros [Hin _]. destruct (Hin k v) as (e' & ? & _); [set_solver|]. congruence.
Qed.

Lemma per_key_range `{GoRange} site (src : gmap string A) m0 m :
  range_loop per_key m0 (go_range site src) = Ok m <->
  forall k, match src !! k with
            | Some v => exists e, entry k v = Ok e /\ m !! k = match e with Some b => Some b | None => m0 !! k end
            | None => m !! k = m0 !! k
            end.
Proof.
  rewrite per_key_loop by apply go_range_NoDup. split.
  - intros [Hin Hout] k. destruct (src !! k) as [v|] eqn:Ek; [by apply Hin, go_range_elem|].
    apply Hout. intros ([k' v] & -> & Hkv%go_range_elem)%list_elem_of_fmap. simpl in Ek. congruence.
  - intros Hall. split.
    + intros k v Hkv%go_range_elem. specialize (Hall k). by rewrite Hkv in Hall.
    + intros k Hk. specialize (Hall k). destruct (src !! k) as [v|] eqn:Ek; [|done].
      destruct Hk. apply list_elem_of_fmap. exists (k, v). split; [done|]. by apply go_range_elem.
Qed.
End PerKey.

Lemma rmap_err_ok' {E F A} (f : E -> F) (m : result E A) a : rmap_err f m = Ok a -> m = Ok a.
Proof. destruct m; simpl; congruence. Qed.

Lemma range_loop_ext {E S A} (f g : S -> A -> result E S) s l :
  (forall s x, f s x = g s x) -> range_loop f s l = range_loop g s l.
Proof.
  intros Hfg. revert s. induction l as [|x l IH]; intros s; cbn; [done|]. rewrite Hfg.
  destruct (g s x); cbn; auto.
Qed.

Lemma range_loop_is_ok {E S A} (body : S -> A -> result E S) s l :
  (forall s x, x ∈ l -> is_ok (body s x) = true) -> is_ok (range_loop body s l) = true.
Proof.
  revert s. induction l as [|x l IH]; intros s Hb; [done|]. cbn [range_loop].
  destruct (proj1 (is_ok_Ok _) (Hb s x ltac:(set_solver))) as [s' ->]. apply IH. set_solver.
Qed.

(** ** ResolveInputs *)

(** The value of one declared input; [None] is an optional input without one *)
Definition input_entry (provided : gmap string any) (name : string) (declaration : InputDeclaration)
    : result InputError (option any) :=
  match (match provided !! name with
         | Some v => Some v
         | None => if is_nil (in_Default declaration) then None else Some (in_Default declaration) end) with
  | None => if in_Required declaration then Err (ErrMissing name) else Ok None
  | Some value =>
      v ← rmap_err (ErrInput name) (normalizeScalar value);
      if is_nil (in_Default declaration) then Ok (Some v) else
      d ← rmap_err (ErrInputDefault name) (normalizeScalar (in_Default declaration));
      if scalarKind d ≠s scalarKind v then Err (ErrInputType name (scalarKind v) (scalarKind d)) else Ok (Some v)
  end.

Lemma resolve_input_entry provided m name declaration :
  resolve_input provided m name declaration = per_key (input_entry provided) m (name, declaration).
Proof.
  unfold resolve_input, per_key, input_entry. cbn. destruct (provided !! name) as [v|]; cbn.
  - destruct (normalizeScalar v); cbn; [|done]. destruct (is_nil _); cbn; [done|].
    destruct (normalizeScalar (in_Default declaration)); cbn; [|done]. by destruct (_ ≠s _).
  - destruct (is_nil (in_Default declaration)) eqn:E; cbn; [by destruct (in_Required declaration)|].
    destruct (normalizeScalar (in_Default declaration)); cbn; [|done]. by destruct (_ ≠s _).
Qed.

Lemma ResolveInputs_entries `{GoRange} doc provided m :
  ResolveInputs doc provided = Ok m <->
  map_Forall (fun name _ => is_Some (d_Inputs doc !! name)) provided /\
  forall name, match d_Inputs doc !! name with
    | Some declaration => input_entry provided name declaration = Ok (m !! name)
    | None => m !! name = None
    end.
Proof.
  unfold ResolveInputs. rewrite bind_unit_ok.
  rewrite (go_range_check _ _ (fun '(name, _) => fail_if match d_Inputs doc !! name with Some _ => false | None => true end
            with ErrUndeclared name ;; Ok tt)).
  assert (range_loop (fun resolved '(name, declaration) => resolve_input provided resolved name declaration) ∅
            (go_range "ResolveInputs.inputs" (d_Inputs doc)) =
          range_loop (per_key (input_entry provided)) ∅ (go_range "ResolveInputs.inputs" (d_Inputs doc))) as ->.
  { apply range_loop_ext. intros s [k d]. apply resolve_input_entry. }
  rewrite per_key_range. f_equiv.
  - split; intros Hall k v Hv; specialize (Hall k v Hv); cbn in *; destruct (d_Inputs doc !! k); naive_solver.
  - apply forall_proper. intros k. rewrite lookup_empty. destruct (d_Inputs doc !! k) as [d|]; [|done]. split.
    + intros (e & -> & ->). by destruct e.
    + intros ->. exists (m !! k). by destruct (m !! k).
Qed.

(** ** Scalars *)

Definition is_scalar (v : any) : Prop :=
  match v with AString _ | ABool _ | ANumber _ => True | _ => False end.

Lemma normalizeScalar_scalar v w : normalizeScalar v = Ok w -> is_scalar w.
Proof. destruct v; intros [= <-]; done. Qed.

Lemma normalizeScalar_idem v w : normalizeScalar v = Ok w -> normalizeScalar w = Ok w.
Proof. destruct v; intros [= <-]; done. Qed.

(** ** normalizeDocument *)

Definition has_legacy (node : Node) : bool := (n_Tool node ≠s "") || (n_Runtime node ≠s "").
Definition defaults_legacy (d : Defaults) : bool :=
  (df_Backend d ≠s "") || (df_Tool d ≠s "") || (df_Runtime d ≠s "").

(** A document that normalisation leaves alone *)
Record normal (doc : Document) : Prop := {
  normal_version : d_APIVersion doc ∈ [APIVersion; ContextPolicyAPIVersion];
  normal_inputs : map_Forall (fun name decl => valid_node_id name = true /\
      (in_Default decl = ANil \/ is_scalar (in_Default decl))) (d_Inputs doc);
  normal_defaults : defaults_legacy (d_Defaults doc) = false;
  normal_nodes : map_Forall (fun _ node => has_legacy node = false) (d_Nodes doc) }.

Definition normal_input (name : string) (decl : InputDeclaration) : result NormalizeError (option InputDeclaration) :=
  if negb (valid_node_id name) then Err (ErrInvalidInputName name) else
  if is_nil (in_Default decl) then Ok None else
  v ← rmap_err (ErrNormalizeDefault name) (normalizeScalar (in_Default decl));
  Ok (Some {| in_Required := in_Required decl; in_Default := v |}).

Lemma normalize_input_entry m name decl :
  normalize_input m name decl = per_key normal_input m (name, decl).
Proof.
  unfold normalize_input, per_key, normal_input. cbn. destruct (valid_node_id name); cbn; [|done].
  destruct (is_nil _); cbn; [done|]. by destruct (normalizeScalar _).
Qed.

Lemma normalize_nodes_loop defaults l nodes w nodes' w' :
  NoDup l.*1 ->
  range_loop (fun s '(id, node) => normalize_node defaults s id node) (nodes, w) l = Ok (nodes', w') ->
  (forall k, k ∉ l.*1 -> nodes' !! k = nodes !! k) /\
  (forall k n, (k, n) ∈ l -> exists n', nodes' !! k = Some n' /\ has_legacy n' = false /\ (has_legacy n = false -> n' = n)) /\
  (Forall (fun kn => has_legacy kn.2 = false) l -> w' = w).
Proof.
  revert nodes w. induction l as [|[k n] l IH]; intros nodes w Hnd Hr.
  - injection Hr as <- <-. split; [done|]. split; [set_solver|done].
  - cbn in Hnd, Hr. apply NoDup_cons in Hnd as [Hk Hnd].
    apply bind_ok in Hr as ([nodes1 w1] & H1 & Hr). destruct (IH _ _ Hnd Hr) as (Hout & Hin & Hw).
    assert (exists n', nodes1 = <[k := n']> nodes /\ has_legacy n' = false /\
              (has_legacy n = false -> n' = n /\ w1 = w)) as (n' & -> & Hl & Heq).
    { unfold normalize_node in H1. fold (has_legacy n) in H1. destruct (has_legacy n) eqn:El.
      - apply bind_ok in H1 as ([d t] & _ & H1). injection H1 as <- <-. by eexists.
      - injection H1 as <- <-. by exists n. }
    split; [|split].
    + cbn. intros x [Hne Hx]%not_elem_of_cons. rewrite Hout by done. by rewrite lookup_insert_ne.
    + intros x m [[= -> ->]|Hx]%elem_of_cons; [|by apply Hin].
      exists n'. rewrite Hout by done. rewrite lookup_insert_eq. naive_solver.
    + intros [Hn Hl']%Forall_cons. rewrite Hw by done. by destruct (Heq Hn).
Qed.

Lemma normalize_nodes `{GoRange} defaults site nodes w nodes' w' :
  range_loop (fun s '(id, node) => normalize_node defaults s id node) (nodes, w) (go_range site nodes) = Ok (nodes', w') ->
  dom nodes' = dom nodes /\ map_Forall (fun _ node => has_legacy node = false) nodes' /\
  (map_Forall (fun _ node => has_legacy node = false) nodes -> nodes' = nodes /\ w' = w).
Proof.
  intros Hr. apply normalize_nodes_loop in Hr as (Hout & Hin & Hw); [|apply go_range_NoDup].
  assert (forall k, match nodes !! k with
            | Some n => exists n', nodes' !! k = Some n' /\ has_legacy n' = false /\ (has_legacy n = false -> n' = n)
            | None => nodes' !! k = None end) as Hk.
  { intros k. destruct (nodes !! k) as [n|] eqn:En; [by apply Hin, go_range_elem|].
    rewrite Hout; [done|]. intros ([k' n] & -> & Hkn%go_range_elem)%list_elem_of_fmap. simpl in En. congruence. }
  split; [|split].
  - apply set_eq. intros k. rewrite !elem_of_dom. specialize (Hk k). destruct (nodes !! k).
    + destruct Hk as (n' & -> & _). split; eauto.
    + by rewrite Hk.
  - intros k n' Hn'. specialize (Hk k). destruct (nodes !! k); [|congruence].
    destruct Hk as (n'' & ? & ? & _). congruence.
  - intros Hall. split.
    + apply map_eq. intros k. specialize (Hk k). specialize (Hall k). destruct (nodes !! k) as [n|]; [|done].
      destruct Hk as (n' & -> & _ & Heq). f_equal. by apply Heq, Hall.
    + apply Hw. rewrite Forall_forall. intros [k n] Hkn%go_range_elem. by eapply Hall.
Qed.

Lemma normal_fixed `{GoRange} doc : normal doc -> normalizeDocument doc = Ok (doc, []).
Proof.
  intros [Hv Hi Hd Hn]. unfold normalizeDocument.
  assert (supported_api_version (d_APIVersion doc) = true) as ->.
  { unfold supported_api_version. rewrite !elem_of_cons in Hv. destruct Hv as [->|[->|?]]; [done..|set_solver]. }
  assert ((d_APIVersion doc =s LegacyAPIVersion) = false) as ->.
  { rewrite !elem_of_cons in Hv. destruct Hv as [->|[->|?]]; [done..|set_solver]. }
  cbn [negb].
  destruct (range_loop (fun inputs '(name, declaration) => normalize_input inputs name declaration) (d_Inputs doc)
              (go_range "normalizeDocument.inputs" (d_Inputs doc))) as [inputs|e] eqn:E.
  - assert (inputs = d_Inputs doc) as ->.
    { rewrite (range_loop_ext _ (per_key normal_input)) in E by (intros s [k d]; apply normalize_input_entry).
      rewrite per_key_range in E. apply map_eq. intros k. specialize (E k).
      destruct (d_Inputs doc !! k) as [decl|] eqn:Ek; [|done]. destruct E as (o & Ho & ->).
      destruct (Hi k decl Ek) as [Hk Hdef]. unfold normal_input in Ho. rewrite Hk in Ho. cbn in Ho.
      destruct Hdef as [Hnil|Hs]; [rewrite Hnil in Ho; by injection Ho as <-|].
      destruct decl as [req def]. cbn in *. destruct def; try done; cbn in Ho; by injection Ho as <-. }
    change (mbind ?f (Ok ?a)) with (f a). cbv beta zeta.
    assert (set_inputs doc (d_Inputs doc) = doc) as -> by (by destruct doc).
    fold (defaults_legacy (d_Defaults doc)). rewrite Hd.
    change (mbind ?f (Ok ?a)) with (f a). cbv beta iota.
    destruct (range_loop (fun s '(id, node) => normalize_node (d_Defaults doc) s id node) (d_Nodes doc, [])
                (go_range "normalizeDocument.nodes" (d_Nodes doc))) as [[nodes w]|e] eqn:En.
    + apply normalize_nodes in En as (_ & _ & Hsame). destruct (Hsame Hn) as [-> ->].
      cbn. by destruct doc.
    + exfalso. assert (is_ok (range_loop (fun s '(id, node) => normalize_node (d_Defaults doc) s id node) (d_Nodes doc, [])
                (go_range "normalizeDocument.nodes" (d_Nodes doc))) = true) as Hok; [|by rewrite En in Hok].
      apply range_loop_is_ok. intros [nodes w] [k n] Hkn%go_range_elem.
      unfold normalize_node. fold (has_legacy n). by rewrite (Hn k n Hkn).
  - exfalso. assert (is_ok (range_loop (fun inputs '(name, declaration) => normalize_input inputs name declaration) (d_Inputs doc)
              (go_range "normalizeDocument.inputs" (d_Inputs doc))) = true) as Hok; [|by rewrite E in Hok].
    apply range_loop_is_ok. intros m [k d] Hkd%go_range_elem. destruct (Hi k d Hkd) as [Hk Hdef].
    unfold normalize_input. rewrite Hk. cbn.
    destruct Hdef as [->|Hs]; [done|]. by destruct (in_Default d).
Qed.

Lemma normalizeDocument_normal `{GoRange} doc doc' w :
  normalizeDocument doc = Ok (doc', w) ->
  normal doc' /\ dom (d_Nodes doc') = dom (d_Nodes doc) /\ dom (d_Inputs doc') = dom (d_Inputs doc) /\
  d_Name doc' = d_Name doc /\ d_MaxConcurrency doc' = d_MaxConcurrency doc /\ d_Context doc' = d_Context doc.
Proof.
  unfold normalizeDocument. intros Hn. destruct (negb _) eqn:Hv in Hn; [done|]. apply negb_false_iff in Hv.
  set (doc0 := if d_APIVersion doc =s LegacyAPIVersion then set_api_version doc APIVersion else doc) in *.
  assert (d_APIVersion doc0 ∈ [APIVersion; ContextPolicyAPIVersion] /\ d_Nodes doc0 = d_Nodes doc /\
          d_Inputs doc0 = d_Inputs doc /\ d_Name doc0 = d_Name doc /\ d_MaxConcurrency doc0 = d_MaxConcurrency doc /\
          d_Context doc0 = d_Context doc) as (Hv0 & <- & <- & <- & <- & <-).
  { unfold doc0. unfold supported_api_version in Hv. destruct (d_APIVersion doc =s LegacyAPIVersion) eqn:El.
    - repeat split; simpl; set_solver.
    - rewrite orb_false_r in Hv. bool_props. repeat split. rewrite !elem_of_cons.
      destruct Hv as [?%String.eqb_eq|?%String.eqb_eq]; tauto. }
  clearbody doc0. clear Hv.
  apply bind_ok in Hn as (inputs & Hi & Hn).
  apply bind_ok in Hn as ([doc1 w1] & Hd & Hn).
  apply bind_ok in Hn as ([nodes w2] & Hnodes & Hn). injection Hn as <- <-.
  assert (d_APIVersion doc1 = d_APIVersion doc0 /\ d_Inputs doc1 = inputs /\ d_Nodes doc1 = d_Nodes doc0 /\
          defaults_legacy (d_Defaults doc1) = false /\ d_Name doc1 = d_Name doc0 /\
          d_MaxConcurrency doc1 = d_MaxConcurrency doc0 /\ d_Context doc1 = d_Context doc0) as (Hv1 & Hi1 & Hn1 & Hd1 & ? & ? & ?).
  { fold (defaults_legacy (d_Defaults (set_inputs doc0 inputs))) in Hd.
    destruct (defaults_legacy (d_Defaults (set_inputs doc0 inputs))) eqn:El.
    - apply bind_ok in Hd as ([dr ta] & _ & Hd). injection Hd as <- <-. done.
    - injection Hd as <- <-. done. }
  rewrite Hn1 in Hnodes. apply normalize_nodes in Hnodes as (Hdom & Hleg & _).
  rewrite (range_loop_ext _ (per_key normal_input)) in Hi by (intros s [k d]; apply normalize_input_entry).
  rewrite per_key_range in Hi.
  assert (forall k, match d_Inputs doc0 !! k with
            | Some decl => exists decl', inputs !! k = Some decl' /\ valid_node_id k = true /\
                             (in_Default decl' = ANil \/ is_scalar (in_Default decl'))
            | None => inputs !! k = None end) as Hk.
  { intros k. specialize (Hi k). destruct (d_Inputs doc0 !! k) as [decl|]; [|done].
    destruct Hi as (e & He & ->). unfold normal_input in He. destruct (valid_node_id k); cbn in He; [|done].
    destruct (is_nil (in_Default decl)) eqn:En.
    - injection He as <-. exists decl. split; [done|]. split; [done|]. left. by destruct (in_Default decl).
    - apply bind_ok in He as (v & Hv & He). injection He as <-. eexists. split; [done|]. split; [done|].
      right. cbn. apply rmap_err_ok' in Hv. by eapply normalizeScalar_scalar. }
  split; [constructor; cbn|].
  - by rewrite Hv1.
  - rewrite Hi1. intros k decl' Hdecl'. specialize (Hk k). destruct (d_Inputs doc0 !! k); [|congruence].
    destruct Hk as (d' & Hd' & ? & ?). rewrite Hdecl' in Hd'. by injection Hd' as <-.
  - done.
  - done.
  - cbn. rewrite Hdom. split; [done|]. split; [|done]. rewrite Hi1. apply set_eq. intros k.
    rewrite !elem_of_dom. specialize (Hk k). destruct (d_Inputs doc0 !! k).
    + destruct Hk as (d' & -> & _). split; eauto.
    + by rewrite Hk.
Qed.

(** ** Properties *)

(** What an input is worth: the provided value, else a default that is not null *)
Definition input_value (provided : gmap string any) (name : string) (decl : InputDeclaration) : option any :=
  match provided !! name with
  | Some v => Some v
  | None => if is_nil (in_Default decl) then None else Some (in_Default decl)
  end.

Lemma input_entry_ok provided name decl o :
  input_entry provided name decl = Ok o <->
  match input_value provided name decl with
  | None => in_Required decl = false /\ o = None
  | Some v => exists w, normalizeScalar v = Ok w /\ o = Some w /\
      (is_nil (in_Default decl) = false ->
       exists d, normalizeScalar (in_Default decl) = Ok d /\ scalarKind d = scalarKind w)
  end.
Proof.
  unfold input_entry, input_value.
  destruct (match provided !! name with Some v => Some v | None => _ end) as [v|].
  - destruct (normalizeScalar v) as [w|]; cbn; [|naive_solver].
    destruct (is_nil (in_Default decl)); cbn; [naive_solver|].
    destruct (normalizeScalar (in_Default decl)) as [d|]; cbn; [|naive_solver].
    destruct (scalarKind d =s scalarKind w) eqn:E; cbn; bool_props; naive_solver.
  - destruct (in_Required decl); naive_solver.
Qed.

(** ResolveInputs succeeds exactly when every provided input is declared,
    every required input has a value, and every value is a scalar of its
    default's kind; the result holds the normalised value of each input that
    has one and nothing else, in every enumeration order. *)
Theorem ResolveInputs_spec `{GoRange} (doc : Document) (provided m : gmap string any) :
  ResolveInputs doc provided = Ok m <->
  map_Forall (fun name _ => is_Some (d_Inputs doc !! name)) provided /\
  forall name,
    match d_Inputs doc !! name with
    | None => m !! name = None
    | Some decl =>
        match input_value provided name decl with
        | None => in_Required decl = false /\ m !! name = None
        | Some v => exists w, normalizeScalar v = Ok w /\ m !! name = Some w /\
            (is_nil (in_Default decl) = false ->
             exists d, normalizeScalar (in_Default decl) = Ok d /\ scalarKind d = scalarKind w)
        end
    end.
Proof.
  rewrite ResolveInputs_entries. apply and_iff_compat_l, forall_proper. intros name.
  destruct (d_Inputs doc !! name) as [decl|]; [|done]. apply input_entry_ok.
Qed.

(** Normalisation keeps nodes, inputs and limits, removes every deprecated
    field and version, and reaches a fixed point: normalising the result again
    changes nothing and warns about nothing. *)
Theorem normalizeDocument_idempotent (R1 R2 : GoRange) (doc doc' : Document) (warnings : list Warning)
    (Hnorm : @normalizeDocument R1 doc = Ok (doc', warnings)) :
  normal doc' /\ dom (d_Nodes doc') = dom (d_Nodes doc) /\ dom (d_Inputs doc') = dom (d_Inputs doc) /\
  d_Name doc' = d_Name doc /\ d_MaxConcurrency doc' = d_MaxConcurrency doc /\ d_Context doc' = d_Context doc /\
  @normalizeDocument R2 doc' = Ok (doc', []).
Proof.
  apply normalizeDocument_normal in Hnorm as (Hn & ? & ? & ? & ? & ?).
  repeat (split; [done|]). by apply normal_fixed.
Qed.

(** A wf/v1 document with a deprecated tool and a routing requirement *)
Definition legacy_document : Document := {|
  d_APIVersion := LegacyAPIVersion; d_Name := "legacy";
  d_Inputs := {[ "n" := {| in_Required := false; in_Default := AInt 3 |} ]};
  d_Defaults := {| df_Agent := {| as_Driver := ""; as_Target := ""; as_Routing := Some DefaultRequirementV1 |};
                   df_Backend := "direct"; df_Tool := ""; df_Runtime := "wsl" |};
  d_MaxConcurrency := 1; d_Context := None; d_Nodes := {[ "a" := zero_node ]} |}.

Lemma normalizeDocument_idempotent_witness :
  exists doc', @normalizeDocument canonical_range legacy_document = Ok (doc', [WarnDefaultsDeprecated]) /\
    @normalizeDocument canonical_range doc' = Ok (doc', []).
Proof.
  eexists. split; [vm_compute; reflexivity|].
  eapply (normalizeDocument_idempotent canonical_range canonical_range legacy_document _ [WarnDefaultsDeprecated]).
  vm_compute. reflexivity.
Defined.

(** The requirement is not in the normalised document. *)
Example routing_dropped :
  match @normalizeDocument canonical_range legacy_document with
  | Ok (doc', _) => as_Routing (df_Agent (d_Defaults doc')) = None
  | Err _ => False
  end.
Proof. vm_compute. reflexivity. Qed.

(** ** ValidateResult *)

Record result_wf (r : Result) : Prop := {
  rwf_summary : trim_space (r_Summary r) <> "" /\ len (r_Summary r) <= MaxSummaryBytes;
  rwf_lists : slice_len (r_Artifacts r) <= MaxResultItems /\ slice_len (r_Warnings r) <= MaxResultItems /\
              slice_len (r_Checks r) <= MaxResultItems;
  rwf_questions : len_slice (r_Questions r) <= 32 /\ NoDup (map q_ID (r_Questions r)) /\
     Forall (fun q => trim_space (q_ID q) <> "" /\ trim_space (q_Prompt q) <> "" /\
                      len_slice (q_Choices q) <= MaxResultItems) (r_Questions r);
  rwf_artifacts : Forall (fun a => len a <= MaxArtifactBytes) (default [] (r_Artifacts r));
  rwf_size : len (json_Result r) <= MaxResultBytes }.

(** ValidateResult accepts exactly the results within every limit, with
    named and distinct questions. *)
Theorem ValidateResult_spec (r : Result) : ValidateResult r = Ok tt <-> result_wf r.
Proof.
  unfold ValidateResult. rewrite !fail_if_ok, bind_any_ok, bind_unit_ok, fail_if_ok.
  rewrite (seen_loop_ok q_ID (fun q => trim_space (q_ID q) <> "" /\ trim_space (q_Prompt q) <> "" /\
                      len_slice (q_Choices q) <= MaxResultItems)).
  2:{ intros seen q s'. rewrite !fail_if_ok, orb_false_iff, !String.eqb_neq, Z.ltb_ge.
      unfold seen_in. rewrite bool_decide_eq_false. naive_solver. }
  rewrite (range_loop_unit (fun artifact => fail_if MaxArtifactBytes <? len artifact with ErrArtifactTooLong ;; Ok tt)).
  assert (Forall (fun x => (fail_if MaxArtifactBytes <? len x with ErrArtifactTooLong ;; Ok tt) = Ok tt)
            (default [] (r_Artifacts r)) <-> Forall (fun a => len a <= MaxArtifactBytes) (default [] (r_Artifacts r))) as ->.
  { apply Forall_proper; [|done]. intros a. rewrite fail_if_ok, Z.ltb_ge. tauto. }
  rewrite !orb_false_iff, !Z.ltb_ge, String.eqb_neq. split.
  - intros (? & ? & [[? ?] ?] & ? & (? & ? & _) & ? & ? & _). by constructor.
  - intros [[? ?] (? & ? & ?) (? & ? & ?) ? ?]. do 4 (split; [done|]). split; [|done].
    split; [done|]. split; [done|]. rewrite Forall_forall. set_solver.
Qed.
