(* ===== verification/Context.v ===== *)
(** * Context envelopes: data and contract

    internal/contextcompiler/contract_v2.go, without the Memory records, and
    budget_policy_v1.go.  Component kinds, tiers, sensitivities and truncation
    modes are the strings of the code, so that a value that is none of the
    constants can be validated.  SHA-256 is a parameter ([Sha256]).  Byte
    counts are Go ints that the first checks bound by 128 KiB; they do not
    leave the range of an int. *)

From S2P Require Import Prelude GoText.
#[local] Open Scope string_scope.
#[local] Open Scope list_scope.
#[local] Open Scope Z_scope.

Definition EnvelopeV2Version := "fishyume.context/v2".
Definition CompilerV2Version := "context-compiler/v2".
Definition ManifestV2Version := "fishyume.context-manifest/v2".
Definition MaxContextPayloadBytes := 128 * 1024.
Definition MaxContextComponents := 128.
Definition MaxContextOmissions := 256.
Definition MaxComponentContentBytes := 64 * 1024.
Definition MaxSelectedMemoryRecords := 32.
Definition MaxProvenanceRefBytes := 1024.

Inductive ContextErrorCode :=
| CodeContextInvalidComponent
| CodeContextRequiredMissing
| CodeContextBudgetUnsatisfiable
| CodeContextSourceUnavailable
| CodeContextHashMismatch
| CodeContextVersionUnsupported
| CodeMemoryInvalidRecord
| CodeMemoryConflict
| CodeMemoryNotFound.

Record ContextError := contractError {
  ce_Code : ContextErrorCode; ce_Message : string; ce_SubjectID : string }.

Definition TierRequired := "required".
Definition TierImportant := "important".
Definition TierOptional := "optional".
Definition SensitivityPublic := "public".
Definition SensitivityProject := "project".
Definition SensitivitySensitive := "sensitive".
Definition KindExecutionContract := "execution_contract".
Definition KindProjectInstructions := "project_instructions".
Definition KindWorkflowPolicy := "workflow_policy".
Definition KindNodeTask := "node_task".
Definition KindUserAnswer := "user_answer".
Definition KindDependencyResult := "dependency_result".
Definition KindSkillInstructions := "skill_instructions".
Definition KindMemory := "memory".
Definition KindOutputContract := "output_contract".
Definition TruncationNone := "none".
Definition TruncationTail := "tail".
Definition OmissionBudgetExhausted := "budget_exhausted".
Definition omission_reasons : list string :=
  [OmissionBudgetExhausted; "superseded"; "expired"; "irrelevant"; "unavailable"; "sensitivity_policy"; "duplicate"].

Record ComponentProvenanceV2 := {
  pv_Source : string; pv_SourceVersion : string; pv_SourceHash : string; pv_Reason : string }.
Record ContextComponentV2 := {
  co_ID : string; co_Kind : string; co_Tier : string; co_Sensitivity : string;
  co_Provenance : ComponentProvenanceV2; co_Content : string; co_ContentHash : string;
  co_OriginalBytes : Z; co_IncludedBytes : Z; co_Truncation : string }.
Record ContextOmissionV2 := {
  om_ComponentID : string; om_Kind : string; om_Tier : string; om_Reason : string;
  om_SourceHash : string; om_OriginalBytes : Z }.
Record AttentionBudgetV2 := {
  ab_TotalBytes : Z; ab_RequiredBytes : Z; ab_ImportantBytes : Z; ab_OptionalBytes : Z }.
Record AttemptIdentity := { id_RunID : string; id_NodeID : string; id_Attempt : Z }.
Record ContextEnvelopeV2 := {
  en_SchemaVersion : string; en_CompilerVersion : string; en_Identity : AttemptIdentity;
  en_Budget : AttentionBudgetV2; en_Components : list ContextComponentV2;
  en_Omissions : list ContextOmissionV2 }.
Record ContextComponentManifestV2 := {
  cm_ID : string; cm_Kind : string; cm_Tier : string; cm_Sensitivity : string;
  cm_Provenance : ComponentProvenanceV2; cm_ContentHash : string;
  cm_OriginalBytes : Z; cm_IncludedBytes : Z; cm_Truncation : string }.
Record AttentionUsageV2 := {
  au_TotalBytes : Z; au_RequiredBytes : Z; au_ImportantBytes : Z; au_OptionalBytes : Z }.
Record ContextManifestV2 := {
  mf_SchemaVersion : string; mf_CompilerVersion : string; mf_EnvelopeHash : string;
  mf_Budget : AttentionBudgetV2; mf_Usage : AttentionUsageV2;
  mf_Components : list ContextComponentManifestV2; mf_Omissions : list ContextOmissionV2 }.

#[export] Instance ComponentProvenanceV2_eq_dec : EqDecision ComponentProvenanceV2.
Proof. solve_decision. Defined.
#[export] Instance ContextComponentV2_eq_dec : EqDecision ContextComponentV2.
Proof. solve_decision. Defined.
#[export] Instance ContextOmissionV2_eq_dec : EqDecision ContextOmissionV2.
Proof. solve_decision. Defined.
#[export] Instance AttentionBudgetV2_eq_dec : EqDecision AttentionBudgetV2.
Proof. solve_decision. Defined.
#[export] Instance AttentionUsageV2_eq_dec : EqDecision AttentionUsageV2.
Proof. solve_decision. Defined.
#[export] Instance ContextComponentManifestV2_eq_dec : EqDecision ContextComponentManifestV2.
Proof. solve_decision. Defined.
#[export] Instance ContextManifestV2_eq_dec : EqDecision ContextManifestV2.
Proof. solve_decision. Defined.

(** ** Predicates *)

Definition hex_char (c : ascii) : bool := is_digit c || char_in 97 102 c || char_in 65 70 c.
Definition validHash (value : string) : bool := (len value =? 64) && forallb hex_char (to_list value).

(** hashBytes: SHA-256 in lower-case hexadecimal.  All that is assumed of it is its shape. *)
Class Sha256 := {
  hashBytes : string -> string;
  hashBytes_hex : forall s, validHash (hashBytes s) = true;
  hashBytes_lower : forall s, to_lower (hashBytes s) = hashBytes s }.

(** contractIDPattern *)
Definition contract_id (s : string) : bool :=
  match_ident is_lower (fun c => is_lower c || is_digit c || one_of "._:-" c) 127 s.

Definition validTier (value : string) : bool :=
  (value =s TierRequired) || (value =s TierImportant) || (value =s TierOptional).
Definition validSensitivity (value : string) : bool :=
  (value =s SensitivityPublic) || (value =s SensitivityProject) || (value =s SensitivitySensitive).
Definition validOmissionReason (value : string) : bool := contains_string omission_reasons value.

Definition componentRank (kind : string) : Z :=
  if kind =s KindExecutionContract then 0
  else if kind =s KindProjectInstructions then 1
  else if kind =s KindWorkflowPolicy then 2
  else if kind =s KindNodeTask then 3
  else if kind =s KindUserAnswer then 4
  else if kind =s KindDependencyResult then 5
  else if kind =s KindSkillInstructions then 6
  else if kind =s KindMemory then 7
  else if kind =s KindOutputContract then 8
  else -1.

Definition tierAllowed (kind tier : string) : bool :=
  if contains_string [KindExecutionContract; KindProjectInstructions; KindNodeTask; KindUserAnswer; KindOutputContract] kind
  then tier =s TierRequired
  else if contains_string [KindWorkflowPolicy; KindDependencyResult; KindSkillInstructions] kind
  then (tier =s TierRequired) || (tier =s TierImportant)
  else if kind =s KindMemory then tier =s TierOptional
  else false.

(** Untrimmed or blank *)
Definition unclean (s : string) : bool := (trim_space s =s "") || (s ≠s trim_space s).

(** validateProvenance; true is an error *)
Definition bad_provenance (source version sourceHash : string) : bool :=
  unclean source || (MaxProvenanceRefBytes <? len source) ||
  unclean version || (128 <? len version) || negb (validHash sourceHash).

Definition no_usage : AttentionUsageV2 :=
  {| au_TotalBytes := 0; au_RequiredBytes := 0; au_ImportantBytes := 0; au_OptionalBytes := 0 |}.

Definition addUsage (usage : AttentionUsageV2) (tier : string) (bytes : Z) : AttentionUsageV2 := {|
  au_TotalBytes := au_TotalBytes usage + bytes;
  au_RequiredBytes := au_RequiredBytes usage + (if tier =s TierRequired then bytes else 0);
  au_ImportantBytes := au_ImportantBytes usage + (if tier =s TierImportant then bytes else 0);
  au_OptionalBytes := au_OptionalBytes usage + (if tier =s TierOptional then bytes else 0) |}.

(** ** Validators *)

Definition budget_message := "attention tier budgets must be non-negative, bounded, and sum to totalBytes".

Definition validateBudgetV2 (budget : AttentionBudgetV2) : result ContextError unit :=
  let total := ab_TotalBytes budget in
  let required := ab_RequiredBytes budget in
  let important := ab_ImportantBytes budget in
  let optional := ab_OptionalBytes budget in
  fail_if (total <? 1) || (MaxContextPayloadBytes <? total) || (required <? 1) || (important <? 0) || (optional <? 0) ||
          (total <? required) || (total <? important) || (total <? optional)
    with contractError CodeContextBudgetUnsatisfiable budget_message "" ;;
  fail_if (total - important <? required) || (total - optional <? required + important) ||
          negb (required + important + optional =? total)
    with contractError CodeContextBudgetUnsatisfiable budget_message "" ;;
  Ok tt.

Section Hashing.
Context `{Sha256}.

Definition validateComponentV2 (component : ContextComponentV2) : result ContextError unit :=
  let id := co_ID component in
  let provenance := co_Provenance component in
  let included := len (co_Content component) in
  fail_if negb (contract_id id) || (componentRank (co_Kind component) <? 0) ||
          negb (validTier (co_Tier component)) || negb (validSensitivity (co_Sensitivity component))
    with contractError CodeContextInvalidComponent "Context component identity or enum is invalid" id ;;
  fail_if negb (tierAllowed (co_Kind component) (co_Tier component))
    with contractError CodeContextInvalidComponent "Context component kind cannot use this attention tier" id ;;
  fail_if bad_provenance (pv_Source provenance) (pv_SourceVersion provenance) (pv_SourceHash provenance) ||
          unclean (pv_Reason provenance) || (1024 <? len (pv_Reason provenance))
    with contractError CodeContextInvalidComponent "Context component provenance is invalid" id ;;
  fail_if negb (valid_utf8 (co_Content component))
    with contractError CodeContextInvalidComponent "Context component content is not valid UTF-8" id ;;
  fail_if (included =? 0) || (MaxComponentContentBytes <? included) ||
          negb (co_IncludedBytes component =? included) || (co_OriginalBytes component <? included)
    with contractError CodeContextInvalidComponent "Context component byte accounting is invalid" id ;;
  fail_if co_ContentHash component ≠s hashBytes (co_Content component)
    with contractError CodeContextHashMismatch "Context component content hash does not match" id ;;
  if co_Truncation component =s TruncationNone then
    fail_if negb (co_OriginalBytes component =? co_IncludedBytes component)
      with contractError CodeContextInvalidComponent "untruncated component byte counts differ" id ;;
    Ok tt
  else if co_Truncation component =s TruncationTail then
    fail_if (co_Tier component =s TierRequired) || (co_OriginalBytes component <=? co_IncludedBytes component)
      with contractError CodeContextInvalidComponent
        "required components cannot be truncated and tail truncation must remove bytes" id ;;
    Ok tt
  else Err (contractError CodeContextInvalidComponent "unsupported truncation mode" id).

Definition validateOmissionV2 (omission : ContextOmissionV2) : result ContextError unit :=
  let id := om_ComponentID omission in
  fail_if negb (contract_id id) || (componentRank (om_Kind omission) <? 0) || negb (validTier (om_Tier omission)) ||
          negb (tierAllowed (om_Kind omission) (om_Tier omission)) || negb (validOmissionReason (om_Reason omission)) ||
          negb (validHash (om_SourceHash omission)) || (om_OriginalBytes omission <? 0)
    with contractError CodeContextInvalidComponent "Context omission is invalid" id ;;
  fail_if om_Tier omission =s TierRequired
    with contractError CodeContextRequiredMissing "required context cannot be represented as an omission" id ;;
  Ok tt.

(** The variables of the first loop of ValidateContextEnvelopeV2 *)
Record envelope_state := {
  es_seen : gset string; es_kinds : gset string; es_usage : AttentionUsageV2;
  es_lastRank : Z; es_lastID : string; es_memoryCount : Z }.
Definition envelope_start : envelope_state := {|
  es_seen := ∅; es_kinds := ∅; es_usage := no_usage; es_lastRank := -1; es_lastID := ""; es_memoryCount := 0 |}.

Definition envelope_component (s : envelope_state) (component : ContextComponentV2)
    : result ContextError envelope_state :=
  let id := co_ID component in
  _ ← validateComponentV2 component;
  fail_if seen_in id (es_seen s)
    with contractError CodeContextInvalidComponent "Context component ID is duplicated" id ;;
  let rank := componentRank (co_Kind component) in
  fail_if (rank <? es_lastRank s) || ((rank =? es_lastRank s) && String.leb id (es_lastID s))
    with contractError CodeContextInvalidComponent "Context components are not in canonical order" id ;;
  Ok {| es_seen := {[id]} ∪ es_seen s; es_kinds := {[co_Kind component]} ∪ es_kinds s;
        es_usage := addUsage (es_usage s) (co_Tier component) (co_IncludedBytes component);
        es_lastRank := rank; es_lastID := id;
        es_memoryCount := es_memoryCount s + (if co_Kind component =s KindMemory then 1 else 0) |}.

Definition envelope_omission (s : gset string * string) (omission : ContextOmissionV2)
    : result ContextError (gset string * string) :=
  let '(seen, lastOmissionID) := s in
  let id := om_ComponentID omission in
  _ ← validateOmissionV2 omission;
  fail_if seen_in id seen
    with contractError CodeContextInvalidComponent "included and omitted component IDs overlap" id ;;
  fail_if String.leb id lastOmissionID
    with contractError CodeContextInvalidComponent "Context omissions are not in canonical ID order" id ;;
  Ok ({[id]} ∪ seen, id).

Definition over_budget (usage : AttentionUsageV2) (budget : AttentionBudgetV2) : bool :=
  (ab_TotalBytes budget <? au_TotalBytes usage) || (ab_RequiredBytes budget <? au_RequiredBytes usage) ||
  (ab_ImportantBytes budget <? au_ImportantBytes usage) || (ab_OptionalBytes budget <? au_OptionalBytes usage).

Definition incomplete_identity (trim : string -> string) (identity : AttemptIdentity) : bool :=
  (trim (id_RunID identity) =s "") || (trim (id_NodeID identity) =s "") || (id_Attempt identity <? 1).

Definition ValidateContextEnvelopeV2 (envelope : ContextEnvelopeV2) : result ContextError unit :=
  fail_if (en_SchemaVersion envelope ≠s EnvelopeV2Version) || (en_CompilerVersion envelope ≠s CompilerV2Version)
    with contractError CodeContextVersionUnsupported "unsupported Context Envelope or compiler version" "" ;;
  fail_if incomplete_identity trim_space (en_Identity envelope)
    with contractError CodeContextInvalidComponent "Attempt identity is incomplete" "" ;;
  _ ← validateBudgetV2 (en_Budget envelope);
  fail_if (len_slice (en_Components envelope) =? 0) || (MaxContextComponents <? len_slice (en_Components envelope))
    with contractError CodeContextInvalidComponent "Context component count is outside its bounds" "" ;;
  fail_if MaxContextOmissions <? len_slice (en_Omissions envelope)
    with contractError CodeContextInvalidComponent "Context omission count exceeds its bound" "" ;;
  s ← range_loop envelope_component envelope_start (en_Components envelope);
  _ ← range_loop (fun _ required =>
        fail_if negb (seen_in required (es_kinds s))
          with contractError CodeContextRequiredMissing ("required component kind " +:+ quoted required +:+ " is missing") "" ;;
        Ok tt)
      tt [KindExecutionContract; KindNodeTask; KindOutputContract];
  fail_if MaxSelectedMemoryRecords <? es_memoryCount s
    with contractError CodeContextBudgetUnsatisfiable "selected Memory record count exceeds its bound" "" ;;
  fail_if over_budget (es_usage s) (en_Budget envelope)
    with contractError CodeContextBudgetUnsatisfiable "Context components exceed an attention tier budget" "" ;;
  _ ← range_loop envelope_omission (es_seen s, "") (en_Omissions envelope);
  Ok tt.

(** ** Canonical bytes, hash and manifest *)

(** canonicalJSON of an envelope: the JSON encoder with HTML escaping off,
    in the field order of the struct types.  A nil slice is not
    distinguished from an empty one: both slices of an envelope that the
    compiler builds are non-nil. *)
Definition canonical_string (s : string) : string := json_string_with false s.
Definition json_provenance (p : ComponentProvenanceV2) : string := json_object [
  ("source", canonical_string (pv_Source p)); ("sourceVersion", canonical_string (pv_SourceVersion p));
  ("sourceHash", canonical_string (pv_SourceHash p)); ("reason", canonical_string (pv_Reason p))].
Definition json_component (c : ContextComponentV2) : string := json_object [
  ("id", canonical_string (co_ID c)); ("kind", canonical_string (co_Kind c)); ("tier", canonical_string (co_Tier c));
  ("sensitivity", canonical_string (co_Sensitivity c)); ("provenance", json_provenance (co_Provenance c));
  ("content", canonical_string (co_Content c)); ("contentHash", canonical_string (co_ContentHash c));
  ("originalBytes", pretty (co_OriginalBytes c)); ("includedBytes", pretty (co_IncludedBytes c));
  ("truncation", canonical_string (co_Truncation c))].
Definition json_omission (o : ContextOmissionV2) : string := json_object [
  ("componentId", canonical_string (om_ComponentID o)); ("kind", canonical_string (om_Kind o));
  ("tier", canonical_string (om_Tier o)); ("reason", canonical_string (om_Reason o));
  ("sourceHash", canonical_string (om_SourceHash o)); ("originalBytes", pretty (om_OriginalBytes o))].
Definition json_envelope (e : ContextEnvelopeV2) : string := json_object [
  ("schemaVersion", canonical_string (en_SchemaVersion e)); ("compilerVersion", canonical_string (en_CompilerVersion e));
  ("identity", json_object [("runId", canonical_string (id_RunID (en_Identity e)));
     ("nodeId", canonical_string (id_NodeID (en_Identity e))); ("attempt", pretty (id_Attempt (en_Identity e)))]);
  ("budget", json_object [("totalBytes", pretty (ab_TotalBytes (en_Budget e)));
     ("requiredBytes", pretty (ab_RequiredBytes (en_Budget e)));
     ("importantBytes", pretty (ab_ImportantBytes (en_Budget e)));
     ("optionalBytes", pretty (ab_OptionalBytes (en_Budget e)))]);
  ("components", json_array (map json_component (en_Components e)));
  ("omissions", json_array (map json_omission (en_Omissions e)))].

Definition CanonicalEnvelopeHashV2 (envelope : ContextEnvelopeV2) : result ContextError string :=
  _ ← ValidateContextEnvelopeV2 envelope;
  Ok (hashBytes (json_envelope envelope)).

Definition manifest_component (c : ContextComponentV2) : ContextComponentManifestV2 := {|
  cm_ID := co_ID c; cm_Kind := co_Kind c; cm_Tier := co_Tier c; cm_Sensitivity := co_Sensitivity c;
  cm_Provenance := co_Provenance c; cm_ContentHash := co_ContentHash c;
  cm_OriginalBytes := co_OriginalBytes c; cm_IncludedBytes := co_IncludedBytes c; cm_Truncation := co_Truncation c |}.

Definition BuildContextManifestV2 (envelope : ContextEnvelopeV2) : result ContextError ContextManifestV2 :=
  hash ← CanonicalEnvelopeHashV2 envelope;
  Ok {| mf_SchemaVersion := ManifestV2Version; mf_CompilerVersion := en_CompilerVersion envelope;
        mf_EnvelopeHash := hash; mf_Budget := en_Budget envelope;
        mf_Usage := foldl (fun usage c => addUsage usage (co_Tier c) (co_IncludedBytes c)) no_usage (en_Components envelope);
        mf_Components := map manifest_component (en_Components envelope);
        mf_Omissions := en_Omissions envelope |}.
End Hashing.

(** ** The stable budget *)

Record BudgetPolicyV1 := { bp_TotalBytes : Z; bp_RequiredBytes : Z; bp_ImportantBytes : Z; bp_OptionalBytes : Z }.
#[export] Instance BudgetPolicyV1_eq_dec : EqDecision BudgetPolicyV1.
Proof. solve_decision. Defined.

Definition DefaultBudgetPolicyV1 : BudgetPolicyV1 := {|
  bp_TotalBytes := 128 * 1024; bp_RequiredBytes := 64 * 1024; bp_ImportantBytes := 48 * 1024; bp_OptionalBytes := 16 * 1024 |}.

Definition AttentionBudget (p : BudgetPolicyV1) : result ContextError AttentionBudgetV2 :=
  let budget := {| ab_TotalBytes := bp_TotalBytes p; ab_RequiredBytes := bp_RequiredBytes p;
                   ab_ImportantBytes := bp_ImportantBytes p; ab_OptionalBytes := bp_OptionalBytes p |} in
  _ ← validateBudgetV2 budget;
  Ok budget.

Definition ValidateBudgetPolicyV1 (policy : BudgetPolicyV1) : result ContextError unit :=
  fail_if negb (bool_decide (policy = DefaultBudgetPolicyV1))
    with contractError CodeContextBudgetUnsatisfiable "BudgetPolicyV1 must use the stable 128 KiB 4:3:1 default" "" ;;
  _ ← AttentionBudget policy;
  Ok tt.
