(* ===== verification/ContextCompiler.v ===== *)
(** * The context compiler

    internal/contextcompiler/compiler_v2.go.  The compiler is a pure function
    of resolved sources and a budget.  Its loops run on fuel that the
    theorems of ContextTheory show to be enough. *)

From S2P Require Import Prelude GoText Context.
#[local] Open Scope string_scope.
#[local] Open Scope list_scope.
#[local] Open Scope Z_scope.

Record ContextSourceResolutionV2 := {
  sr_Components : list ContextComponentV2; sr_Omissions : list ContextOmissionV2 }.
Record ContextCompilerInputV2 := {
  ci_Identity : AttemptIdentity; ci_Resolution : ContextSourceResolutionV2;
  ci_ExecutionContract : ContextComponentV2; ci_OutputContract : ContextComponentV2;
  ci_Budget : AttentionBudgetV2 }.
Record CompilationV2 := {
  cv_Envelope : ContextEnvelopeV2; cv_Manifest : ContextManifestV2; cv_Hash : string }.

(** ** Text *)

Definition trim_char (c : ascii) : bool := existsb (Ascii.eqb c) (bytes [32; 9; 13; 10]%N).
Fixpoint drop_while {A} (p : A -> bool) (l : list A) : list A :=
  match l with c :: l' => if p c then drop_while p l' else l | [] => [] end.
Definition stringsTrim (s : string) : string :=
  of_list (rev (drop_while trim_char (rev (drop_while trim_char (to_list s))))).

(** The last [maxBytes] bytes, less what is left of a rune cut in two *)
Definition validTail (content : string) (maxBytes : Z) : string :=
  if len content <=? maxBytes then content
  else if maxBytes <=? 0 then ""
  else of_list (drop_while cont (drop (Z.to_nat (len content - maxBytes)) (to_list content))).

(** ** The balanced allocation *)

(** The sum of min(s, mid), left early when it exceeds the budget *)
Fixpoint level_total (budget mid total : Z) (sizes : list Z) : Z :=
  match sizes with
  | [] => total
  | s :: sizes' =>
      let total := total + (if s <? mid then s else mid) in
      if budget <? total then total else level_total budget mid total sizes'
  end.

(** The binary search for the water level *)
Fixpoint search_level (fuel : nat) (budget : Z) (sizes : list Z) (lo hi : Z) : option Z :=
  if lo <? hi then
    match fuel with
    | O => None
    | S fuel =>
        let mid := (lo + hi + 1) / 2 in
        if level_total budget mid 0 sizes <=? budget then search_level fuel budget sizes mid hi
        else search_level fuel budget sizes lo (mid - 1)
    end
  else Some lo.

(** One more unit for each unsatisfied size, while units are left *)
Fixpoint give_one (units : Z) (sizes a : list Z) : Z * list Z :=
  match sizes, a with
  | s :: sizes', x :: a' =>
      if units =? 0 then (units, a)
      else if x <? s then let '(units', r) := give_one (units - 1) sizes' a' in (units', (x + 1) :: r)
      else let '(units', r) := give_one units sizes' a' in (units', x :: r)
  | _, _ => (units, a)
  end.

(** Equal shares, the first [remainder] of them one larger, capped *)
Fixpoint give_shares (share remainder seen units : Z) (sizes a : list Z) : Z * list Z :=
  match sizes, a with
  | s :: sizes', x :: a' =>
      if s <=? x then
        let '(units', r) := give_shares share remainder seen units sizes' a' in (units', x :: r)
      else
        let add := share + (if seen <? remainder then 1 else 0) in
        let add := if s - x <? add then s - x else add in
        let '(units', r) := give_shares share remainder (seen + 1) (units - add) sizes' a' in
        (units', (x + add) :: r)
  | _, _ => (units, a)
  end.

Fixpoint count_active (sizes a : list Z) : Z :=
  match sizes, a with
  | s :: sizes', x :: a' => (if x <? s then 1 else 0) + count_active sizes' a'
  | _, _ => 0
  end.

(** The loop "for left > 0" *)
Fixpoint fill (fuel : nat) (units : Z) (sizes a : list Z) : option (list Z) :=
  if units <=? 0 then Some a else
  match fuel with
  | O => None
  | S fuel =>
      let active := count_active sizes a in
      if active =? 0 then Some a else
      let share := units / active in
      let remainder := units mod active in
      if share =? 0 then
        let '(units, a) := give_one units sizes a in fill fuel units sizes a
      else
        let before := units in
        let '(units, a) := give_shares share remainder 0 units sizes a in
        if units =? before then Some a else fill fuel units sizes a
  end.

Definition sum (l : list Z) : Z := foldr Z.add 0 l.

(** balancedAlloc on the sizes of the components; [None] is fuel exhaustion *)
Definition balanced (sizes : list Z) (budget : Z) : option (list Z) :=
  if (Nat.eqb (length sizes) 0) || (budget <=? 0) then Some (map (fun _ => 0) sizes) else
  let max := foldl (fun max s => if max <? s then s else max) 0 sizes in
  level ← search_level (Z.to_nat max) budget sizes 0 max;
  let a := map (fun s => if s <? level then s else level) sizes in
  let units := budget - sum a in
  fill (Z.to_nat units) units sizes a.

Definition content_sizes (cs : list ContextComponentV2) : list Z := map (fun c => len (co_Content c)) cs.

Definition balancedAlloc (cs : list ContextComponentV2) (budget : Z) : list Z :=
  default [] (balanced (content_sizes cs) budget).

(** ** Allocation *)

Definition sumBytes (cs : list ContextComponentV2) : Z := sum (content_sizes cs).

Definition omissionFor (c : ContextComponentV2) : ContextOmissionV2 := {|
  om_ComponentID := co_ID c; om_Kind := co_Kind c; om_Tier := co_Tier c; om_Reason := OmissionBudgetExhausted;
  om_SourceHash := pv_SourceHash (co_Provenance c); om_OriginalBytes := co_OriginalBytes c |}.

(** canonicalComponents *)
Definition canonical_less (a b : ContextComponentV2) : bool :=
  let r1 := componentRank (co_Kind a) in
  let r2 := componentRank (co_Kind b) in
  if negb (r1 =? r2) then r1 <? r2 else String.ltb (co_ID a) (co_ID b).
Definition id_less (a b : ContextComponentV2) : bool := String.ltb (co_ID a) (co_ID b).
Definition omission_less (a b : ContextOmissionV2) : bool := String.ltb (om_ComponentID a) (om_ComponentID b).

Definition in_tier (tier : string) (sources : list ContextComponentV2) : list ContextComponentV2 :=
  base.filter (fun c => (co_Tier c =s tier) = true) sources.

Section Hashing.
Context `{Sha256}.

Definition truncate (c : ContextComponentV2) (content : string) : ContextComponentV2 := {|
  co_ID := co_ID c; co_Kind := co_Kind c; co_Tier := co_Tier c; co_Sensitivity := co_Sensitivity c;
  co_Provenance := co_Provenance c; co_Content := content; co_ContentHash := hashBytes content;
  co_OriginalBytes := co_OriginalBytes c; co_IncludedBytes := len content; co_Truncation := TruncationTail |}.

(** The first loop over the important components *)
Definition place_important (s : list ContextComponentV2 * list ContextOmissionV2) (entry : ContextComponentV2 * Z)
    : list ContextComponentV2 * list ContextOmissionV2 :=
  let '(result, omissions) := s in
  let '(c, n) := entry in
  if n =? 0 then (result, omissions)
  else if n <? len (co_Content c) then
    let content := validTail (co_Content c) n in
    if content =s "" then (result, omissions ++ [omissionFor c])
    else (result ++ [truncate c content], omissions)
  else (result ++ [c], omissions).

(** The loop over the optional components *)
Definition place_optional (s : list ContextComponentV2 * list ContextOmissionV2 * Z) (c : ContextComponentV2)
    : list ContextComponentV2 * list ContextOmissionV2 * Z :=
  let '(result, omissions, remaining) := s in
  let size := len (co_Content c) in
  if size <=? remaining then (result ++ [c], omissions, remaining - size)
  else (result, omissions ++ [omissionFor c], remaining).

Definition allocateV2 (sources : list ContextComponentV2) (budget : AttentionBudgetV2)
    : result ContextError (list ContextComponentV2 * list ContextOmissionV2) :=
  let required := sort_slice canonical_less (in_tier TierRequired sources) in
  let important := sort_slice canonical_less (in_tier TierImportant sources) in
  let optional := in_tier TierOptional sources in
  fail_if ab_RequiredBytes budget <? sumBytes required
    with contractError CodeContextBudgetUnsatisfiable "required Context exceeds required tier budget" "" ;;
  let impAlloc := balancedAlloc important (ab_ImportantBytes budget) in
  let '(result, omissions) := foldl place_important (required, []) (zip important impAlloc) in
  let omissions := foldl (fun omissions '(c, n) => if n =? 0 then omissions ++ [omissionFor c] else omissions)
                     omissions (zip important impAlloc) in
  let optional := sort_slice id_less optional in
  let '(result, omissions, _) := foldl place_optional (result, omissions, ab_OptionalBytes budget) optional in
  Ok (sort_slice canonical_less result, sort_slice omission_less omissions).

(** ** Compilation *)

Definition validateEngineContract (component : ContextComponentV2) (kind : string) : result ContextError unit :=
  fail_if (co_Kind component ≠s kind) || (co_Tier component ≠s TierRequired)
    with contractError CodeContextInvalidComponent ("engine-owned " +:+ kind +:+ " contract must be required") (co_ID component) ;;
  fail_if negb (valid_utf8 (co_Content component))
    with contractError CodeContextInvalidComponent "engine contract content is not valid UTF-8" (co_ID component) ;;
  validateComponentV2 component.

Definition compile_source (seen : gset string) (component : ContextComponentV2) : result ContextError (gset string) :=
  fail_if (co_Kind component =s KindExecutionContract) || (co_Kind component =s KindOutputContract)
    with contractError CodeContextInvalidComponent "source resolution cannot provide engine-owned contracts" (co_ID component) ;;
  _ ← validateComponentV2 component;
  fail_if (co_Truncation component ≠s TruncationNone) || negb (co_OriginalBytes component =? co_IncludedBytes component)
    with contractError CodeContextInvalidComponent "source resolution components must be complete and untruncated" (co_ID component) ;;
  fail_if seen_in (co_ID component) seen
    with contractError CodeContextInvalidComponent "duplicate Context component ID" (co_ID component) ;;
  Ok ({[co_ID component]} ∪ seen).

Definition compile_omission (seen : gset string) (omission : ContextOmissionV2) : result ContextError (gset string) :=
  _ ← validateOmissionV2 omission;
  fail_if seen_in (om_ComponentID omission) seen
    with contractError CodeContextInvalidComponent "included and omitted component IDs overlap" (om_ComponentID omission) ;;
  Ok ({[om_ComponentID omission]} ∪ seen).

Definition CompileContextV2 (input : ContextCompilerInputV2) : result ContextError CompilationV2 :=
  let sources := sr_Components (ci_Resolution input) in
  let omissions := sr_Omissions (ci_Resolution input) in
  let execution := ci_ExecutionContract input in
  let output := ci_OutputContract input in
  _ ← validateBudgetV2 (ci_Budget input);
  fail_if incomplete_identity stringsTrim (ci_Identity input)
    with contractError CodeContextInvalidComponent "Attempt identity is incomplete" "" ;;
  fail_if (MaxContextComponents <? len_slice sources) || (MaxContextOmissions <? len_slice omissions)
    with contractError CodeContextInvalidComponent "Context source count exceeds its bound" "" ;;
  seen ← range_loop compile_source ∅ sources;
  seen ← range_loop compile_omission seen omissions;
  _ ← validateEngineContract execution KindExecutionContract;
  _ ← validateEngineContract output KindOutputContract;
  fail_if seen_in (co_ID execution) seen
    with contractError CodeContextInvalidComponent "engine contract ID overlaps source resolution" (co_ID execution) ;;
  fail_if seen_in (co_ID output) seen || (co_ID output =s co_ID execution)
    with contractError CodeContextInvalidComponent "engine contract IDs overlap source resolution" (co_ID output) ;;
  '(components, budgetOmissions) ← allocateV2 (sources ++ [execution; output]) (ci_Budget input);
  let omissions := sort_slice omission_less (omissions ++ budgetOmissions) in
  fail_if MaxContextOmissions <? len_slice omissions
    with contractError CodeContextInvalidComponent "Context omission count exceeds its bound" "" ;;
  let envelope := {| en_SchemaVersion := EnvelopeV2Version; en_CompilerVersion := CompilerV2Version;
                     en_Identity := ci_Identity input; en_Budget := ci_Budget input;
                     en_Components := components; en_Omissions := omissions |} in
  _ ← ValidateContextEnvelopeV2 envelope;
  hash ← CanonicalEnvelopeHashV2 envelope;
  manifest ← BuildContextManifestV2 envelope;
  Ok {| cv_Envelope := envelope; cv_Manifest := manifest; cv_Hash := hash |}.
End Hashing.
