(* ===== verification/ContextTheory.v ===== *)
(** * The context compiler: theorems

    The balanced allocation is max-min fair, a truncated content is a suffix
    that is still valid UTF-8, and a compilation places every source exactly
    once within the budget. *)

From S2P Require Import Prelude GoText Context ContextCompiler.
#[local] Open Scope string_scope.
#[local] Open Scope list_scope.
#[local] Open Scope Z_scope.

(** ** Water levels *)

(** What a level of [mid] costs *)
Definition level_sum (mid : Z) (sizes : list Z) : Z := sum (map (fun s => if s <? mid then s else mid) sizes).

Lemma sum_cons x l : sum (x :: l) = x + sum l.
Proof. done. Qed.

Lemma level_sum_cons mid s sizes :
  level_sum mid (s :: sizes) = (if s <? mid then s else mid) + level_sum mid sizes.
Proof. done. Qed.

Lemma level_sum_nonneg mid sizes : 0 <= mid -> Forall (fun s => 0 <= s) sizes -> 0 <= level_sum mid sizes.
Proof.
  intros Hm. induction 1 as [|s sizes Hs _ IH]; [done|]. rewrite level_sum_cons.
  destruct (s <? mid); lia.
Qed.

Lemma level_total_spec budget mid total sizes :
  0 <= mid -> Forall (fun s => 0 <= s) sizes ->
  (level_total budget mid total sizes <=? budget) = (total + level_sum mid sizes <=? budget) \/ budget < total.
Proof.
  intros Hm Hs. revert total. induction Hs as [|s sizes Hs Hss IH]; intros total; cbn [level_total].
  - left. change (level_sum mid []) with 0. f_equal. lia.
  - rewrite level_sum_cons. set (d := if s <? mid then s else mid).
    assert (0 <= d) by (unfold d; destruct (s <? mid); lia).
    pose proof (level_sum_nonneg mid sizes Hm Hss).
    destruct (budget <? total + d) eqn:E; bool_props.
    + left. transitivity false; [|symmetry]; apply Z.leb_gt; lia.
    + destruct (IH (total + d)) as [->|]; [|lia]. left. f_equal. lia.
Qed.

Lemma level_total_within budget mid sizes :
  0 <= mid -> 0 <= budget -> Forall (fun s => 0 <= s) sizes ->
  (level_total budget mid 0 sizes <=? budget) = (level_sum mid sizes <=? budget).
Proof. intros Hm Hb Hs. destruct (level_total_spec budget mid 0 sizes Hm Hs) as [->|]; [done|lia]. Qed.

Lemma level_sum_0 sizes : Forall (fun s => 0 <= s) sizes -> level_sum 0 sizes = 0.
Proof.
  induction 1 as [|s sizes Hs _ IH]; [done|]. rewrite level_sum_cons, IH. destruct (s <? 0) eqn:E; bool_props; lia.
Qed.

(** The binary search finds the highest level within the budget. *)
Lemma search_level_spec fuel budget sizes lo hi :
  0 <= budget -> Forall (fun s => 0 <= s) sizes -> 0 <= lo <= hi -> (Z.to_nat (hi - lo) <= fuel)%nat ->
  level_sum lo sizes <= budget ->
  exists level, search_level fuel budget sizes lo hi = Some level /\ lo <= level <= hi /\
    level_sum level sizes <= budget /\ (level < hi -> budget < level_sum (level + 1) sizes).
Proof.
  intros Hb Hs. revert lo hi. induction fuel as [|fuel IH]; intros lo hi Hlh Hf Hlo; cbn [search_level].
  - replace (lo <? hi) with false by (symmetry; apply Z.ltb_ge; lia). exists lo. repeat split; lia.
  - destruct (lo <? hi) eqn:E; bool_props; [|exists lo; repeat split; lia].
    set (mid := (lo + hi + 1) / 2).
    assert (lo < mid <= hi) as Hmid by (unfold mid; Z.div_mod_to_equations; lia).
    rewrite level_total_within by (done || lia).
    destruct (level_sum mid sizes <=? budget) eqn:Em; bool_props.
    + destruct (IH mid hi) as (level & Hl & Hr & Hok & Hmax); [lia..|]. exists level. repeat split; auto; lia.
    + destruct (IH lo (mid - 1)) as (level & Hl & Hr & Hok & Hmax); [lia|lia|done|].
      exists level. split; [done|]. split; [lia|]. split; [done|]. intros _.
      destruct (decide (level < mid - 1)) as [Hlt|Hge]; [by apply Hmax|].
      replace (level + 1) with mid by lia. done.
Qed.

(** One level up costs one unit for every size above the level. *)
Lemma level_sum_succ level sizes :
  level_sum (level + 1) sizes =
  level_sum level sizes + count_active sizes (map (fun s => if s <? level then s else level) sizes).
Proof.
  induction sizes as [|s sizes IH]; [done|]. rewrite !level_sum_cons, IH. cbn [map count_active].
  destruct (s <? level) eqn:E1, (s <? level + 1) eqn:E2; bool_props; try lia.
  - replace (s <? s) with false by (symmetry; apply Z.ltb_ge; lia). lia.
  - replace (level <? s) with false by (symmetry; apply Z.ltb_ge; lia). lia.
  - replace (level <? s) with true by (symmetry; apply Z.ltb_lt; lia). lia.
Qed.

Lemma count_active_nonneg sizes a : 0 <= count_active sizes a.
Proof.
  revert a. induction sizes as [|s sizes IH]; intros [|x a]; simpl; try lia.
  specialize (IH a). destruct (x <? s); lia.
Qed.

(** ** Max-min fairness *)

(** [a] shares [budget] among demands [sizes]: nobody gets more than it asks
    for, nothing is left over, and who is not satisfied is at most one unit
    below anybody else, and not at all below those that come later. *)
Record max_min (sizes : list Z) (budget : Z) (a : list Z) : Prop := {
  mm_bounds : Forall2 (fun s x => 0 <= x <= s) sizes a;
  mm_total : sum a = Z.min budget (sum sizes);
  mm_fair : forall i j s x y, sizes !! i = Some s -> a !! i = Some x -> a !! j = Some y -> x < s -> y <= x + 1;
  mm_order : forall i j s x y, (i < j)%nat -> sizes !! i = Some s -> a !! i = Some x -> a !! j = Some y -> x < s -> y <= x }.

(** At the level, or one above it *)
Definition near_level (level s x : Z) : Prop := x = Z.min s level \/ (x = level + 1 /\ level < s).

Lemma min_level s level : (if s <? level then s else level) = Z.min s level.
Proof. destruct (s <? level) eqn:E; bool_props; lia. Qed.

Lemma give_one_zero sizes a : length sizes = length a -> give_one 0 sizes a = (0, a).
Proof. destruct sizes, a; done. Qed.

Lemma give_one_level level sizes units :
  0 <= units <= count_active sizes (map (fun s => if s <? level then s else level) sizes) ->
  exists r, give_one units sizes (map (fun s => if s <? level then s else level) sizes) = (0, r) /\
    Forall2 (near_level level) sizes r /\ sum r = level_sum level sizes + units /\
    (forall i j s x y, (i < j)%nat -> sizes !! i = Some s -> r !! i = Some x -> r !! j = Some y ->
       x <= level -> level < s -> y <= level).
Proof.
  revert units. induction sizes as [|s sizes IH]; intros units Hu.
  - simpl in Hu. exists []. simpl. split; [f_equal; lia|]. split; [constructor|]. split; [cbn; lia|done].
  - cbn [map give_one]. destruct (units =? 0) eqn:E0; bool_props.
    + subst. exists (map (fun s => if s <? level then s else level) (s :: sizes)). split; [done|].
      split; [|split].
      * clear. induction (s :: sizes) as [|t l IH]; constructor; [|done]. left. apply min_level.
      * unfold level_sum. lia.
      * intros i j s' x y _ _ _ Hy _ _. apply list_lookup_fmap_Some in Hy as (t & -> & _) ||
          (rewrite list_lookup_fmap in Hy; apply fmap_Some in Hy as (t & _ & ->)). rewrite min_level. lia.
    + cbn [map count_active] in Hu. pose proof (min_level s level) as Hm.
      destruct ((if s <? level then s else level) <? s) eqn:E; rewrite Hm in *; bool_props.
      * destruct (IH (units - 1)) as (r & Hr & Hn & Hsum & Hord); [lia|]. rewrite Hr.
        exists ((Z.min s level + 1) :: r). split; [done|]. split; [|split].
        -- constructor; [|done]. right. lia.
        -- rewrite sum_cons, Hsum, level_sum_cons, min_level. lia.
        -- intros [|i] [|j] s' x y Hij Hs Hx Hy Hxl Hls; simpl in *; try lia.
           ++ injection Hs as <-. injection Hx as <-. lia.
           ++ eapply (Hord i j); eauto; lia.
      * destruct (IH units) as (r & Hr & Hn & Hsum & Hord); [lia|]. rewrite Hr.
        exists (Z.min s level :: r). split; [done|]. split; [|split].
        -- constructor; [|done]. by left.
        -- rewrite sum_cons, Hsum, level_sum_cons, min_level. lia.
        -- intros [|i] [|j] s' x y Hij Hs Hx Hy Hxl Hls; simpl in *; try lia.
           ++ injection Hs as <-. injection Hx as <-. lia.
           ++ eapply (Hord i j); eauto; lia.
Qed.

Lemma near_level_bounds level sizes r :
  0 <= level -> Forall (fun s => 0 <= s) sizes -> Forall2 (near_level level) sizes r ->
  Forall2 (fun s x => 0 <= x <= s) sizes r.
Proof.
  intros Hl Hs Hn. induction Hn as [|s x sizes r Hx _ IH]; constructor; apply Forall_cons in Hs as [? ?]; [|auto].
  destruct Hx as [->|[-> ?]]; lia.
Qed.

Lemma Forall2_pair {A B} (P : A -> B -> Prop) l k i x y :
  Forall2 P l k -> l !! i = Some x -> k !! i = Some y -> P x y.
Proof. intros HP Hx Hy. by eapply Forall2_lookup_lr. Qed.

Lemma foldl_max_ge l m : m <= foldl (fun max s => if max <? s then s else max) m l /\
  Forall (fun s => s <= foldl (fun max s => if max <? s then s else max) m l) l.
Proof.
  revert m. induction l as [|s l IH]; intros m; cbn [foldl]; [split; [lia|constructor]|].
  destruct (IH (if m <? s then s else m)) as [H1 H2].
  destruct (m <? s) eqn:E; bool_props; (split; [lia|]); constructor; (lia || done).
Qed.

Lemma level_sum_max level sizes : Forall (fun s => s <= level) sizes -> level_sum level sizes = sum sizes.
Proof.
  induction 1 as [|s sizes Hs _ IH]; [done|]. rewrite level_sum_cons, sum_cons, IH, min_level. lia.
Qed.

Lemma count_active_max level sizes :
  Forall (fun s => s <= level) sizes ->
  count_active sizes (map (fun s => if s <? level then s else level) sizes) = 0.
Proof.
  induction 1 as [|s sizes Hs _ IH]; [done|]. cbn [map count_active]. rewrite IH, min_level.
  destruct (Z.min s level <? s) eqn:E; bool_props; lia.
Qed.

Lemma level_sum_le_sum level sizes : level_sum level sizes <= sum sizes.
Proof.
  induction sizes as [|s sizes IH]; [done|]. rewrite level_sum_cons, sum_cons, min_level. lia.
Qed.

Lemma near_level_le level sizes r :
  Forall2 (near_level level) sizes r -> sum r <= sum sizes.
Proof.
  induction 1 as [|s x sizes r Hx _ IH]; [done|]. rewrite !sum_cons. destruct Hx as [->|[-> ?]]; lia.
Qed.

Lemma near_level_max_min level sizes budget r :
  0 <= level -> Forall (fun s => 0 <= s) sizes -> Forall2 (near_level level) sizes r ->
  sum r = Z.min budget (sum sizes) ->
  (forall i j s x y, (i < j)%nat -> sizes !! i = Some s -> r !! i = Some x -> r !! j = Some y ->
     x <= level -> level < s -> y <= level) ->
  max_min sizes budget r.
Proof.
  intros Hl Hs Hn Htot Hord.
  assert (forall j y, r !! j = Some y -> y <= level + 1) as Htop.
  { intros j y Hy. destruct (Forall2_lookup_r _ _ _ _ _ Hn Hy) as (s & _ & [->|[-> _]]); lia. }
  split; [by eapply near_level_bounds|done| |].
  - intros i j s x y Hi Hx Hy Hlt. specialize (Htop j y Hy).
    destruct (Forall2_pair _ _ _ _ _ _ Hn Hi Hx) as [->|[-> ?]]; lia.
  - intros i j s x y Hij Hi Hx Hy Hlt. pose proof (Htop j y Hy).
    destruct (Forall2_pair _ _ _ _ _ _ Hn Hi Hx) as [->|[-> ?]]; [|lia].
    assert (y <= level) by (eapply (Hord i j); eauto; lia). lia.
Qed.

Lemma near_level_self level sizes :
  Forall2 (near_level level) sizes (map (fun s => if s <? level then s else level) sizes).
Proof. induction sizes as [|s sizes IH]; constructor; [|done]. left. apply min_level. Qed.

Lemma balanced_max_min sizes budget :
  Forall (fun s => 0 <= s) sizes -> 0 <= budget ->
  exists a, balanced sizes budget = Some a /\ max_min sizes budget a.
Proof.
  intros Hs Hb. unfold balanced.
  assert (0 <= sum sizes) as Hsum.
  { clear Hb. induction Hs as [|s sizes ? _ IH]; [done|]. rewrite sum_cons. lia. }
  destruct (Nat.eqb (length sizes) 0 || (budget <=? 0)) eqn:E0.
  - eexists. split; [done|]. assert (Forall2 (near_level 0) sizes (map (fun _ => 0) sizes)) as Hn.
    { clear -Hs. induction Hs as [|s sizes Hs _ IH]; constructor; [|done]. left. lia. }
    assert (sum (map (fun _ => 0) sizes) = 0) as H0 by (clear; induction sizes; simpl; auto).
    apply (near_level_max_min 0); [done|done|done| |].
    + rewrite H0. apply orb_true_iff in E0 as [E0|E0]; bool_props; [|lia].
      destruct sizes; [|done]. cbn. lia.
    + intros i j s x y _ _ _ Hy _ _. rewrite list_lookup_fmap in Hy. apply fmap_Some in Hy as (? & _ & ->). lia.
  - apply orb_false_iff in E0 as [_ E0]. bool_props.
    destruct (foldl_max_ge sizes 0) as [Hm Hall]. set (max := foldl _ 0 sizes) in *.
    destruct (search_level_spec (Z.to_nat max) budget sizes 0 max) as (level & -> & Hlev & Hle & Hmax);
      [done|done|lia|lia|by rewrite level_sum_0|]. cbn.
    set (a := map (fun s => if s <? level then s else level) sizes).
    change (sum a) with (level_sum level sizes).
    destruct (decide (level < max)) as [Hlt|Hge].
    + specialize (Hmax Hlt). rewrite level_sum_succ in Hmax. fold a in Hmax.
      destruct (Z.to_nat (budget - level_sum level sizes)) as [|fuel] eqn:Ef.
      * assert (budget = level_sum level sizes) as Hbe by lia. exists a. split.
        { cbn [fill]. replace (budget - level_sum level sizes <=? 0) with true by (symmetry; apply Z.leb_le; lia). done. }
        apply (near_level_max_min level); [lia|done|apply near_level_self| |].
        -- pose proof (level_sum_le_sum level sizes). unfold a. fold (level_sum level sizes). lia.
        -- intros i j s x y _ _ _ Hy _ _. unfold a in Hy. rewrite list_lookup_fmap in Hy.
           apply fmap_Some in Hy as (t & _ & ->). rewrite min_level. lia.
      * cbn [fill]. replace (budget - level_sum level sizes <=? 0) with false by (symmetry; apply Z.leb_gt; lia).
        replace (count_active sizes a =? 0) with false by (symmetry; apply Z.eqb_neq; lia).
        rewrite (Z.div_small (budget - level_sum level sizes)) by lia. cbn [Z.eqb].
        destruct (give_one_level level sizes (budget - level_sum level sizes)) as (r & Hr & Hn & Hrs & Hord); [fold a; lia|].
        fold a in Hr. rewrite Hr. exists r. split; [by destruct fuel|].
        apply (near_level_max_min level); [lia|done|done| |done].
        pose proof (near_level_le _ _ _ Hn). lia.
    + assert (level = max) as -> by lia. exists a. split.
      { unfold fill. assert (count_active sizes a = 0) as Hc by (by apply count_active_max).
        destruct (Z.to_nat _) eqn:Ef.
        - by replace (budget - level_sum max sizes <=? 0) with true by (symmetry; apply Z.leb_le; lia).
        - rewrite Hc. cbn. by destruct (budget - level_sum max sizes <=? 0). }
      apply (near_level_max_min max); [lia|done|apply near_level_self| |].
      * unfold a. fold (level_sum max sizes). rewrite level_sum_max by done.
        rewrite level_sum_max in Hle by done. lia.
      * intros i j s x y _ _ _ Hy _ _. unfold a in Hy. rewrite list_lookup_fmap in Hy.
        apply fmap_Some in Hy as (t & _ & ->). rewrite min_level. lia.
Qed.

(** ** Tails *)

Lemma char_in_spec lo hi c : char_in lo hi c = true <-> (lo <= N_of_ascii c <= hi)%N.
Proof. unfold char_in. rewrite andb_true_iff, !N.leb_le. tauto. Qed.

Lemma char_in_cont lo hi c : (128 <= lo)%N -> (hi <= 191)%N -> char_in lo hi c = true -> cont c = true.
Proof. unfold cont. rewrite !char_in_spec. lia. Qed.

Lemma cont_high c : cont c = false -> forall n, n = N_of_ascii c -> (n < 128 \/ 191 < n)%N.
Proof. unfold cont. intros Hc n ->. apply not_true_iff_false in Hc. rewrite char_in_spec in Hc. lia. Qed.

(** A sequence is a byte that is no continuation, then continuations. *)
Lemma utf8_width_shape a l w :
  utf8_width (a :: l) = Some w ->
  (1 <= w)%nat /\ cont a = false /\ Forall (fun c => cont c = true) (take (w - 1) l).
Proof.
  assert (forall n, N_of_ascii a = n -> (n < 128 \/ 191 < n)%N -> cont a = false) as Hca.
  { intros n Hn Hr. apply not_true_iff_false. unfold cont. rewrite char_in_spec. lia. }
  cbn [utf8_width]. destruct (N_of_ascii a <? 128)%N eqn:E1.
  { intros [= <-]. apply N.ltb_lt in E1. repeat split; [done|by eapply Hca; [done|lia]|constructor]. }
  destruct l as [|b l]; [done|].
  destruct ((194 <=? N_of_ascii a)%N && (N_of_ascii a <=? 223)%N) eqn:E2.
  { destruct (cont b) eqn:Eb; [|done]. intros [= <-]. apply andb_true_iff in E2 as [E2 _]. apply N.leb_le in E2.
    repeat split; [lia|by eapply Hca; [done|lia]|by repeat constructor]. }
  destruct l as [|c l]; [done|].
  destruct ((224 <=? N_of_ascii a)%N && (N_of_ascii a <=? 239)%N) eqn:E3.
  { match goal with |- (if ?t then _ else _) = _ -> _ => destruct t eqn:Ec; [|done] end.
    intros [= <-]. apply andb_true_iff in E3 as [E3 _]. apply N.leb_le in E3. apply andb_true_iff in Ec as [Eb Ec].
    repeat split; [lia|by eapply Hca; [done|lia]|]. repeat constructor; [|done].
    eapply char_in_cont; [| |exact Eb]; match goal with |- context [if ?t then _ else _] => destruct t end; lia. }
  destruct l as [|d l]; [done|].
  match goal with |- (if ?t then _ else _) = _ -> _ => destruct t eqn:Ed; [|done] end.
  intros [= <-]. rewrite !andb_true_iff, !N.leb_le in Ed. destruct Ed as [[[[E4 _] Eb] Ec] Ed].
  repeat split; [lia|by eapply Hca; [done|lia]|]. repeat constructor; [|done|done].
  eapply char_in_cont; [| |exact Eb]; match goal with |- context [if ?t then _ else _] => destruct t end; lia.
Qed.

(** Valid text cut anywhere is valid after the continuations at the cut. *)
Lemma valid_utf8_suffix l : forall skip k,
  valid_utf8_from skip l = true -> Forall (fun c => cont c = true) (take skip l) ->
  valid_utf8_from 0 (drop_while cont (drop k l)) = true.
Proof.
  induction l as [|a l IH]; intros skip k Hv Hc; [by destruct k|].
  assert (exists skip', valid_utf8_from skip' l = true /\ Forall (fun c => cont c = true) (take skip' l) /\
            (cont a = true \/ (cont a = false /\ skip = 0%nat))) as (skip' & Hv' & Hc' & Ha).
  { destruct skip as [|skip].
    - cbn [valid_utf8_from] in Hv. destruct (utf8_width (a :: l)) as [w|] eqn:Ew; [|done].
      destruct (utf8_width_shape _ _ _ Ew) as (_ & Ha & Hw). exists (w - 1)%nat. auto.
    - simpl in Hc. apply Forall_cons in Hc as [Ha Hc]. exists skip. auto. }
  destruct k as [|k]; cbn [drop]; [|by eapply IH].
  cbn [drop_while]. destruct Ha as [Ha|[Ha ->]]; rewrite Ha; [|exact Hv].
  apply (IH skip' 0%nat); done.
Qed.

Lemma drop_while_suffix {A} (p : A -> bool) l : exists n, drop_while p l = drop n l.
Proof.
  induction l as [|x l [n IH]]; [by exists 0%nat|]. cbn. destruct (p x); [|by exists 0%nat].
  exists (S n). done.
Qed.


(** validTail keeps a suffix of at most [maxBytes] bytes, drops no more than
    the cut needs when the text is short enough, and never cuts a character:
    the tail of valid UTF-8 is valid UTF-8. *)
Theorem validTail_spec (content : string) (maxBytes : Z) :
  (exists n, to_list (validTail content maxBytes) = drop n (to_list content)) /\
  (0 <= maxBytes -> len (validTail content maxBytes) <= maxBytes) /\
  (len content <= maxBytes -> validTail content maxBytes = content) /\
  (valid_utf8 content = true -> valid_utf8 (validTail content maxBytes) = true).
Proof.
  unfold validTail. destruct (len content <=? maxBytes) eqn:E1; bool_props.
  - split; [by exists 0%nat|]. split; [lia|]. done.
  - destruct (maxBytes <=? 0) eqn:E2; bool_props.
    + split; [exists (length (to_list content)); by rewrite drop_all|]. split; [intros; change (len "") with 0; lia|]. split; [intros; lia|done].
    + destruct (drop_while_suffix cont (drop (Z.to_nat (len content - maxBytes)) (to_list content))) as [n Hn].
      split; [|split; [|split]].
      * rewrite to_of_list, Hn, drop_drop. eauto.
      * intros _. rewrite len_of_list, Hn, !length_drop. pose proof (len_to_list content). lia.
      * lia.
      * unfold valid_utf8. rewrite to_of_list. intros Hv. by eapply valid_utf8_suffix; [exact Hv|constructor].
Qed.

(** The important tier is shared max-min fairly: nobody gets more than its
    size, the budget is used up unless everything fits, and a component that
    is cut is at most one byte behind any other. *)
Theorem balancedAlloc_fair (cs : list ContextComponentV2) (budget : Z) (Hbudget : 0 <= budget) :
  max_min (content_sizes cs) budget (balancedAlloc cs budget).
Proof.
  unfold balancedAlloc. destruct (balanced_max_min (content_sizes cs) budget) as (a & -> & Ha); [|done|done].
  apply Forall_fmap, Forall_forall. intros c _. unfold len. simpl. lia.
Qed.

Definition sized (id : string) (n : nat) : ContextComponentV2 := {|
  co_ID := id; co_Kind := KindDependencyResult; co_Tier := TierImportant; co_Sensitivity := SensitivityProject;
  co_Provenance := {| pv_Source := "s"; pv_SourceVersion := "1"; pv_SourceHash := ""; pv_Reason := "r" |};
  co_Content := of_list (repeat "x"%char n); co_ContentHash := ""; co_OriginalBytes := Z.of_nat n;
  co_IncludedBytes := Z.of_nat n; co_Truncation := TruncationNone |}.

Example balanced_shares : balancedAlloc [sized "a" 7; sized "b" 2; sized "c" 9; sized "d" 9] 20 = [6; 2; 6; 6].
Proof. vm_compute. reflexivity. Qed.
Example balanced_remainder : balancedAlloc [sized "a" 7; sized "b" 2; sized "c" 9; sized "d" 9] 19 = [6; 2; 6; 5].
Proof. vm_compute. reflexivity. Qed.

Lemma balancedAlloc_fair_witness :
  0 <= 19 /\ max_min [7; 2; 9; 9] 19 (balancedAlloc [sized "a" 7; sized "b" 2; sized "c" 9; sized "d" 9] 19).
Proof.
  split; [lia|]. apply (balancedAlloc_fair [sized "a" 7; sized "b" 2; sized "c" 9; sized "d" 9] 19). lia.
Defined.

(** ** Allocation *)

Section Allocation.
Context `{Sha256}.

(** What the first loop makes of an important component *)
Definition placed (entry : ContextComponentV2 * Z) : option ContextComponentV2 :=
  let '(c, n) := entry in
  if n =? 0 then None
  else if n <? len (co_Content c) then
    if validTail (co_Content c) n =s "" then None else Some (truncate c (validTail (co_Content c) n))
  else Some c.

Definition is_none {A} (o : option A) : bool := match o with None => true | _ => false end.

Lemma place_important_fold l r o :
  foldl place_important (r, o) l =
  (r ++ omap placed l,
   o ++ map (fun e => omissionFor e.1) (base.filter (fun e => negb (e.2 =? 0) && is_none (placed e) = true) l)).
Proof.
  revert r o. induction l as [|[c n] l IH]; intros r o; cbn [foldl]; [by rewrite !app_nil_r|].
  rewrite filter_cons. cbn [omap list_omap place_important placed fst snd].
  destruct (n =? 0) eqn:E0; cbn.
  - rewrite IH. done.
  - destruct (n <? len (co_Content c)).
    + destruct (validTail (co_Content c) n =s ""); cbn; rewrite IH, <-?app_assoc; done.
    + cbn. rewrite IH, <-app_assoc. done.
Qed.

Lemma unallocated_fold l o :
  foldl (fun omissions '(c, n) => if n =? 0 then omissions ++ [omissionFor c] else omissions) o l =
  o ++ map (fun e => omissionFor e.1) (base.filter (fun e => (e.2 =? 0) = true) l).
Proof.
  revert o. induction l as [|[c n] l IH]; intros o; cbn [foldl]; [by rewrite app_nil_r|].
  rewrite filter_cons. cbn [snd]. destruct (n =? 0); cbn; rewrite IH, <-?app_assoc; done.
Qed.

(** Both loops omit the components that are not placed. *)
Lemma important_omissions l :
  map (fun e => omissionFor e.1) (base.filter (fun e => negb (e.2 =? 0) && is_none (placed e) = true) l) ++
  map (fun e => omissionFor e.1) (base.filter (fun e => (e.2 =? 0) = true) l) ≡ₚ
  map (fun e => omissionFor e.1) (base.filter (fun e => is_none (placed e) = true) l).
Proof.
  rewrite <-map_app. apply Permutation_map. induction l as [|[c n] l IH]; [done|].
  rewrite !filter_cons. cbn [snd placed]. destruct (n =? 0) eqn:E0; cbn [negb andb is_none].
  - rewrite decide_False, !decide_True by done. by rewrite <-Permutation_middle, IH.
  - rewrite (decide_False (P := false = true)) by done.
    destruct (decide _); cbn [app]; by rewrite IH.
Qed.

Lemma place_optional_fold l r o rem :
  0 <= rem ->
  exists inc exc, l ≡ₚ inc ++ exc /\
    foldl place_optional (r, o, rem) l = (r ++ inc, o ++ map omissionFor exc, rem - sumBytes inc) /\
    sumBytes inc <= rem.
Proof.
  revert r o rem. induction l as [|c l IH]; intros r o rem Hrem.
  - exists [], []. change (sumBytes []) with 0. cbn [foldl map]. rewrite !app_nil_r, Z.sub_0_r. done.
  - cbn [foldl place_optional]. destruct (len (co_Content c) <=? rem) eqn:E; bool_props.
    + destruct (IH (r ++ [c]) o (rem - len (co_Content c))) as (inc & exc & Hp & -> & Hle); [lia|].
      exists (c :: inc), exc. split; [by rewrite Hp|].
      change (sumBytes (c :: inc)) with (len (co_Content c) + sumBytes inc).
      rewrite <-app_assoc, Z.sub_add_distr. split; [done|lia].
    + destruct (IH r (o ++ [omissionFor c]) rem) as (inc & exc & Hp & -> & Hle); [lia|].
      exists inc, (c :: exc). split; [by rewrite Hp, Permutation_middle|].
      rewrite <-app_assoc. done.
Qed.

(** How a list of sources is placed within a budget *)
Record placement (sources : list ContextComponentV2) (budget : AttentionBudgetV2)
    (required important optional unimportant unoptional : list ContextComponentV2)
    (cut : list (ContextComponentV2 * string)) : Prop := {
  pl_required : required ≡ₚ in_tier TierRequired sources /\ sumBytes required <= ab_RequiredBytes budget;
  pl_important : important ++ map fst cut ++ unimportant ≡ₚ in_tier TierImportant sources /\
    sumBytes important + sum (map (fun e => len e.2) cut) <= ab_ImportantBytes budget;
  pl_cut : Forall (fun e => (exists n, e.2 = validTail (co_Content e.1) n) /\ e.2 <> "" /\
                            len e.2 < len (co_Content e.1)) cut;
  pl_optional : optional ++ unoptional ≡ₚ in_tier TierOptional sources /\
    sumBytes optional <= ab_OptionalBytes budget }.

Lemma placed_split l :
  Forall (fun e => 0 <= e.2 <= len (co_Content e.1)) l ->
  exists important cut unimportant,
    map fst l ≡ₚ important ++ map fst cut ++ unimportant /\
    omap placed l ≡ₚ important ++ map (fun e => truncate e.1 e.2) cut /\
    map (fun e => omissionFor e.1) (base.filter (fun e => is_none (placed e) = true) l) = map omissionFor unimportant /\
    sumBytes important + sum (map (fun e => len e.2) cut) <= sum (map snd l) /\
    Forall (fun e => (exists n, e.2 = validTail (co_Content e.1) n) /\ e.2 <> "" /\ len e.2 < len (co_Content e.1)) cut.
Proof.
  induction 1 as [|[c n] l Hn _ (imp & cut & un & H1 & H2 & H3 & H4 & H5)].
  - exists [], [], []. cbn. repeat split; done || constructor.
  - cbn [fst snd] in Hn. rewrite filter_cons. cbn [map fst snd omap list_omap].
    destruct (placed (c, n)) as [c'|] eqn:Ep; cbn [is_none].
    + rewrite decide_False by done. cbn [placed] in Ep. destruct (n =? 0) eqn:E0; [done|].
      destruct (n <? len (co_Content c)) eqn:E1.
      * destruct (validTail (co_Content c) n =s "") eqn:E2; [done|]. injection Ep as <-. bool_props.
        destruct (validTail_spec (co_Content c) n) as (_ & Hlen & _ & _). specialize (Hlen ltac:(lia)).
        exists imp, ((c, validTail (co_Content c) n) :: cut), un. split; [|split; [|split; [|split]]].
        -- cbn [map fst app]. by rewrite H1, Permutation_middle.
        -- cbn [map fst snd]. by rewrite H2, Permutation_middle.
        -- done.
        -- cbn [map snd]. rewrite !sum_cons. lia.
        -- constructor; [|done]. cbn. split; [eauto|]. split; [done|lia].
      * injection Ep as <-. bool_props. exists (c :: imp), cut, un. split; [|split; [|split; [|split]]].
        -- cbn. by rewrite H1.
        -- cbn. by rewrite H2.
        -- done.
        -- change (sumBytes (c :: imp)) with (len (co_Content c) + sumBytes imp). rewrite sum_cons. lia.
        -- done.
    + rewrite decide_True by done. exists imp, cut, (c :: un). split; [|split; [|split; [|split]]].
      * cbn. rewrite H1. rewrite !app_assoc. apply Permutation_middle.
      * done.
      * cbn. by rewrite H3.
      * rewrite sum_cons. lia.
      * done.
Qed.

Lemma map_fst_zip_sizes (cs : list ContextComponentV2) (a : list Z) :
  Forall2 (fun s x => 0 <= x <= s) (content_sizes cs) a ->
  map fst (zip cs a) = cs /\ map snd (zip cs a) = a /\
  Forall (fun e => 0 <= e.2 <= len (co_Content e.1)) (zip cs a).
Proof.
  revert a. induction cs as [|c cs IH]; intros a Ha; cbn in Ha; inversion Ha as [|? x ? a' Hx Ha']; subst; [done|].
  destruct (IH a' Ha') as (H1 & H2 & H3). cbn. rewrite H1, H2. repeat split. by constructor.
Qed.

Lemma sumBytes_cons c l : sumBytes (c :: l) = len (co_Content c) + sumBytes l.
Proof. done. Qed.

Lemma sumBytes_perm l k : l ≡ₚ k -> sumBytes l = sumBytes k.
Proof. induction 1; rewrite ?sumBytes_cons; lia. Qed.

Lemma allocateV2_spec sources budget :
  0 <= ab_ImportantBytes budget -> 0 <= ab_OptionalBytes budget ->
  sumBytes (in_tier TierRequired sources) <= ab_RequiredBytes budget ->
  exists required important optional unimportant unoptional cut components omissions,
    placement sources budget required important optional unimportant unoptional cut /\
    allocateV2 sources budget = Ok (sort_slice canonical_less components, sort_slice omission_less omissions) /\
    components ≡ₚ required ++ important ++ map (fun e => truncate e.1 e.2) cut ++ optional /\
    omissions ≡ₚ map omissionFor (unimportant ++ unoptional).
Proof.
  intros Hi Ho Hr. unfold allocateV2.
  set (imp := sort_slice canonical_less (in_tier TierImportant sources)).
  set (alloc := balancedAlloc imp (ab_ImportantBytes budget)).
  assert (max_min (content_sizes imp) (ab_ImportantBytes budget) alloc) as [Hb Ht _ _].
  { unfold alloc, balancedAlloc. destruct (balanced_max_min (content_sizes imp) (ab_ImportantBytes budget)) as (a & -> & Ha); [|done|done].
    apply Forall_fmap, Forall_forall. intros c _. unfold len. simpl. lia. }
  destruct (map_fst_zip_sizes imp alloc Hb) as (Hfst & Hsnd & Hall).
  destruct (placed_split _ Hall) as (important & cut & unimportant & H1 & H2 & H3 & H4 & H5).
  rewrite Hfst in H1. rewrite Hsnd in H4.
  assert (sumBytes (sort_slice canonical_less (in_tier TierRequired sources)) = sumBytes (in_tier TierRequired sources)) as Hsum
    by apply sumBytes_perm, sort_slice_perm.
  rewrite Hsum. replace (ab_RequiredBytes budget <? sumBytes (in_tier TierRequired sources)) with false
    by (symmetry; apply Z.ltb_ge; lia).
  rewrite place_important_fold, unallocated_fold.
  destruct (place_optional_fold (sort_slice id_less (in_tier TierOptional sources))
              (sort_slice canonical_less (in_tier TierRequired sources) ++ omap placed (zip imp alloc))
              (([] ++ map (fun e => omissionFor e.1) (base.filter (fun e => negb (e.2 =? 0) && is_none (placed e) = true) (zip imp alloc))) ++
               map (fun e => omissionFor e.1) (base.filter (fun e => (e.2 =? 0) = true) (zip imp alloc)))
              (ab_OptionalBytes budget) Ho) as (optional & unoptional & Hp & -> & Hle).
  exists (sort_slice canonical_less (in_tier TierRequired sources)), important, optional, unimportant, unoptional, cut.
  eexists _, _. split; [|split; [reflexivity|split]].
  - split; [|split; [rewrite <-H1; apply sort_slice_perm|lia]|done|split; [|done]].
    + split; [apply sort_slice_perm|]. by rewrite Hsum.
    + rewrite <-Hp. apply sort_slice_perm.
  - rewrite H2, <-!app_assoc. done.
  - cbn [app]. rewrite important_omissions, H3, map_app. done.
Qed.
End Allocation.

(** ** Canonical order *)

Lemma canonical_less_spec a b :
  canonical_less a b = true <->
  componentRank (co_Kind a) < componentRank (co_Kind b) \/
  (componentRank (co_Kind a) = componentRank (co_Kind b) /\ String.ltb (co_ID a) (co_ID b) = true).
Proof.
  unfold canonical_less. destruct (componentRank (co_Kind a) =? componentRank (co_Kind b)) eqn:E; simpl; bool_props.
  - split; [auto|]. intros [?|[_ ?]]; [lia|done].
  - rewrite Z.ltb_lt. split; [auto|]. intros [?|[? _]]; [done|lia].
Qed.

Lemma canonical_less_asym a b : canonical_less a b = true -> canonical_less b a = false.
Proof.
  rewrite <-not_true_iff_false, !canonical_less_spec. intros [?|[? Hlt]] [?|[? Hlt']]; try lia.
  by rewrite (string_ltb_asym _ _ Hlt) in Hlt'.
Qed.

Lemma canonical_less_total a b : co_ID a <> co_ID b -> canonical_less a b = false -> canonical_less b a = true.
Proof.
  rewrite <-not_true_iff_false, !canonical_less_spec. intros Hne Hn.
  destruct (Z.lt_trichotomy (componentRank (co_Kind a)) (componentRank (co_Kind b))) as [?|[Heq|?]]; [tauto| |tauto].
  right. split; [done|]. apply string_ltb_total; [done|]. apply not_true_iff_false. tauto.
Qed.

Lemma canonical_less_ntrans a b c :
  not_after canonical_less a b -> not_after canonical_less b c -> not_after canonical_less a c.
Proof.
  unfold not_after. rewrite <-!not_true_iff_false, !canonical_less_spec. intros H1 H2 [H3|[H3 H4]].
  - destruct (Z.lt_trichotomy (componentRank (co_Kind b)) (componentRank (co_Kind a))) as [?|[?|?]]; [tauto| |];
      (destruct (Z.lt_trichotomy (componentRank (co_Kind c)) (componentRank (co_Kind b))) as [?|[?|?]]; [tauto|lia|lia]).
  - destruct (Z.lt_trichotomy (componentRank (co_Kind b)) (componentRank (co_Kind a))) as [?|[E1|?]]; [tauto| |];
      destruct (Z.lt_trichotomy (componentRank (co_Kind c)) (componentRank (co_Kind b))) as [?|[E2|?]]; try tauto; try lia.
    assert (String.ltb (co_ID b) (co_ID a) = false) as Hba by (apply not_true_iff_false; tauto).
    assert (String.ltb (co_ID c) (co_ID b) = false) as Hcb by (apply not_true_iff_false; tauto).
    pose proof (string_ltb_ntrans (co_ID a) (co_ID b) (co_ID c) Hba Hcb) as Hn. unfold not_after in Hn. congruence.
Qed.

Definition strictly_canonical (cs : list ContextComponentV2) : Prop :=
  StronglySorted (fun a b => canonical_less a b = true) cs.

Lemma sort_canonical cs : NoDup (map co_ID cs) -> strictly_canonical (sort_slice canonical_less cs).
Proof.
  intros Hnd. pose proof (sort_slice_sorted _ canonical_less_asym canonical_less_ntrans cs) as Hs.
  assert (NoDup (map co_ID (sort_slice canonical_less cs))) as Hnd' by (by rewrite sort_slice_perm).
  unfold strictly_canonical. induction Hs as [|c l Hs IH Hall]; [constructor|].
  cbn in Hnd'. apply NoDup_cons in Hnd' as [Hc Hnd']. constructor; [auto|].
  rewrite Forall_forall in Hall |- *. intros d Hd. specialize (Hall d Hd). unfold not_after in Hall.
  apply canonical_less_total; [|done]. intros Heq. apply Hc. rewrite <-Heq. apply list_elem_of_fmap. eauto.
Qed.

Lemma sort_omissions os : NoDup (map om_ComponentID os) -> strictly_sorted (map om_ComponentID (sort_slice omission_less os)).
Proof.
  intros Hnd.
  assert (StronglySorted (not_after omission_less) (sort_slice omission_less os)) as Hs.
  { apply sort_slice_sorted; unfold omission_less, not_after; intros; [by apply string_ltb_asym|by eapply string_ltb_ntrans]. }
  assert (NoDup (map om_ComponentID (sort_slice omission_less os))) as Hnd' by (by rewrite sort_slice_perm).
  unfold strictly_sorted. induction Hs as [|c l Hs IH Hall]; [constructor|].
  cbn in Hnd'. apply NoDup_cons in Hnd' as [Hc Hnd']. cbn. constructor; [auto|].
  apply Forall_fmap. rewrite Forall_forall in Hall |- *. intros d Hd. specialize (Hall d Hd).
  unfold not_after, omission_less in Hall. cbn.
  apply string_ltb_total; [|done]. intros Heq. apply Hc. rewrite <-Heq. apply list_elem_of_fmap. eauto.
Qed.

(** ** Envelopes that validate *)

Definition tier_bytes (tier : string) (cs : list ContextComponentV2) : Z :=
  sum (map (fun c => if co_Tier c =s tier then co_IncludedBytes c else 0) cs).
Definition memory_count (cs : list ContextComponentV2) : Z :=
  sum (map (fun c => if co_Kind c =s KindMemory then 1 else 0) cs).

Lemma sum_perm l k : l ≡ₚ k -> sum l = sum k.
Proof. induction 1; rewrite ?sum_cons; lia. Qed.

Section Envelopes.
Context `{Sha256}.

Lemma componentRank_ge kind : -1 <= componentRank kind.
Proof. unfold componentRank. repeat case_match; lia. Qed.

Definition after_component (s : envelope_state) (c : ContextComponentV2) : envelope_state := {|
  es_seen := {[co_ID c]} ∪ es_seen s; es_kinds := {[co_Kind c]} ∪ es_kinds s;
  es_usage := addUsage (es_usage s) (co_Tier c) (co_IncludedBytes c);
  es_lastRank := componentRank (co_Kind c); es_lastID := co_ID c;
  es_memoryCount := es_memoryCount s + (if co_Kind c =s KindMemory then 1 else 0) |}.

Lemma envelope_component_ok s c :
  validateComponentV2 c = Ok tt -> co_ID c ∉ es_seen s ->
  (es_lastRank s < componentRank (co_Kind c) \/
   (es_lastRank s = componentRank (co_Kind c) /\ String.ltb (es_lastID s) (co_ID c) = true)) ->
  envelope_component s c = Ok (after_component s c).
Proof.
  intros Hc Hcs Hord. unfold envelope_component. rewrite Hc. cbn [mbind result_bind].
  replace (seen_in (co_ID c) (es_seen s)) with false by (symmetry; unfold seen_in; by apply bool_decide_eq_false).
  replace ((componentRank (co_Kind c) <? es_lastRank s) ||
           ((componentRank (co_Kind c) =? es_lastRank s) && String.leb (co_ID c) (es_lastID s))) with false; [done|].
  symmetry. apply orb_false_iff. destruct Hord as [Hr|[Hr Hid]].
  - split; [apply Z.ltb_ge; lia|]. apply andb_false_iff. left. apply Z.eqb_neq. lia.
  - split; [apply Z.ltb_ge; lia|]. apply andb_false_iff. right. by apply string_leb_false.
Qed.

Lemma union_front (x : string) l (s : gset string) :
  list_to_set l ∪ ({[x]} ∪ s) = list_to_set (x :: l) ∪ s.
Proof. cbn. by rewrite (assoc_L (∪)), (comm_L (∪) _ {[x]}). Qed.

Lemma envelope_loop cs s :
  Forall (fun c => validateComponentV2 c = Ok tt) cs -> strictly_canonical cs -> NoDup (map co_ID cs) ->
  Forall (fun c => co_ID c ∉ es_seen s /\
            (es_lastRank s < componentRank (co_Kind c) \/
             (es_lastRank s = componentRank (co_Kind c) /\ String.ltb (es_lastID s) (co_ID c) = true))) cs ->
  exists s', range_loop envelope_component s cs = Ok s' /\
    es_seen s' = list_to_set (map co_ID cs) ∪ es_seen s /\
    es_kinds s' = list_to_set (map co_Kind cs) ∪ es_kinds s /\
    es_memoryCount s' = es_memoryCount s + memory_count cs /\
    au_TotalBytes (es_usage s') = au_TotalBytes (es_usage s) + sum (map co_IncludedBytes cs) /\
    au_RequiredBytes (es_usage s') = au_RequiredBytes (es_usage s) + tier_bytes TierRequired cs /\
    au_ImportantBytes (es_usage s') = au_ImportantBytes (es_usage s) + tier_bytes TierImportant cs /\
    au_OptionalBytes (es_usage s') = au_OptionalBytes (es_usage s) + tier_bytes TierOptional cs.
Proof.
  revert s. induction cs as [|c cs IH]; intros s Hv Hs Hnd Hall.
  - exists s. cbn. repeat split; try set_solver; change (memory_count []) with 0; change (sum []) with 0;
      change (tier_bytes _ []) with 0; lia.
  - apply Forall_cons in Hv as [Hc Hv]. apply StronglySorted_cons in Hs as [Hlt Hs].
    cbn in Hnd. apply NoDup_cons in Hnd as [Hci Hnd]. apply Forall_cons in Hall as [[Hcs Hord] Hall].
    cbn [range_loop]. rewrite envelope_component_ok by done.
    change (mbind ?f (Ok ?a)) with (f a). cbv beta.
    edestruct IH as (s' & -> & Hseen & Hkinds & Hmem & Ht & Hr & Hi & Ho); [done|done|done| |].
    2:{ exists s'. split; [done|]. cbn [es_seen es_kinds es_memoryCount es_usage after_component] in *.
        cbn [au_TotalBytes au_RequiredBytes au_ImportantBytes au_OptionalBytes addUsage] in *.
        split; [by rewrite Hseen, union_front|]. split; [by rewrite Hkinds, union_front|].
        unfold memory_count, tier_bytes in *. cbn [map]. rewrite !sum_cons. lia. }
    rewrite Forall_forall in Hall, Hlt |- *. intros d Hd. cbn [es_seen es_lastRank es_lastID after_component].
    destruct (Hall d Hd) as [Hds _]. split.
    + rewrite not_elem_of_union, not_elem_of_singleton. split; [|done]. intros Heq. apply Hci.
      apply list_elem_of_fmap. eauto.
    + specialize (Hlt d Hd). by apply canonical_less_spec in Hlt.
Qed.

Lemma envelope_omission_ok seen last o :
  validateOmissionV2 o = Ok tt -> om_ComponentID o ∉ seen -> String.ltb last (om_ComponentID o) = true ->
  envelope_omission (seen, last) o = Ok ({[om_ComponentID o]} ∪ seen, om_ComponentID o).
Proof.
  intros Ho Hni Hl. unfold envelope_omission. rewrite Ho. cbn [mbind result_bind].
  replace (seen_in (om_ComponentID o) seen) with false by (symmetry; unfold seen_in; by apply bool_decide_eq_false).
  by replace (String.leb (om_ComponentID o) last) with false by (symmetry; by apply string_leb_false).
Qed.

Lemma omission_loop os seen last :
  Forall (fun o => validateOmissionV2 o = Ok tt) os -> strictly_sorted (map om_ComponentID os) ->
  Forall (fun o => om_ComponentID o ∉ seen /\ String.ltb last (om_ComponentID o) = true) os ->
  is_ok (range_loop envelope_omission (seen, last) os) = true.
Proof.
  revert seen last. induction os as [|o os IH]; intros seen last Hv Hs Hall; [done|].
  apply Forall_cons in Hv as [Ho Hv]. cbn in Hs. apply StronglySorted_cons in Hs as [Hlt Hs].
  apply Forall_cons in Hall as [[Hni Hl] Hall].
  cbn [range_loop]. rewrite envelope_omission_ok by done.
  change (mbind ?f (Ok ?a)) with (f a). cbv beta. apply IH; [done|done|]. apply Forall_fmap in Hlt.
  rewrite Forall_forall in Hall, Hlt |- *. intros p Hp. specialize (Hlt p Hp). cbn in Hlt. split; [|done].
  rewrite not_elem_of_union, not_elem_of_singleton. split; [|by apply Hall].
  intros Heq. rewrite Heq, string_ltb_irrefl in Hlt. done.
Qed.
End Envelopes.

(** ** Compilation *)

Section Compile.
Context `{Sha256}.

Lemma validateBudgetV2_ok b :
  validateBudgetV2 b = Ok tt ->
  1 <= ab_TotalBytes b <= MaxContextPayloadBytes /\ 1 <= ab_RequiredBytes b /\ 0 <= ab_ImportantBytes b /\
  0 <= ab_OptionalBytes b /\ ab_RequiredBytes b + ab_ImportantBytes b + ab_OptionalBytes b = ab_TotalBytes b.
Proof.
  unfold validateBudgetV2. rewrite !fail_if_ok, !orb_false_iff, !Z.ltb_ge, negb_false_iff, Z.eqb_eq. lia.
Qed.

Lemma valid_component_tier c : validateComponentV2 c = Ok tt -> validTier (co_Tier c) = true.
Proof.
  unfold validateComponentV2. rewrite fail_if_ok, !orb_false_iff, !negb_false_iff. tauto.
Qed.

Lemma tier_partition sources :
  Forall (fun c => validTier (co_Tier c) = true) sources ->
  sources ≡ₚ in_tier TierRequired sources ++ in_tier TierImportant sources ++ in_tier TierOptional sources.
Proof.
  induction 1 as [|c l Hc _ IH]; [done|]. unfold in_tier in *. rewrite !filter_cons.
  unfold validTier in Hc. rewrite !orb_true_iff, !String.eqb_eq in Hc. destruct Hc as [[->| ->]| ->].
  - rewrite decide_True, !decide_False by done. cbn. by rewrite <-IH.
  - rewrite (decide_False (P := (TierImportant =s TierRequired) = true)), decide_True, decide_False by done.
    cbn. rewrite <-Permutation_middle. by rewrite <-IH.
  - rewrite !(decide_False (P := (TierOptional =s _) = true)), decide_True by done.
    rewrite app_assoc, <-Permutation_middle, <-app_assoc. by rewrite <-IH.
Qed.

Definition all_sources (input : ContextCompilerInputV2) : list ContextComponentV2 :=
  sr_Components (ci_Resolution input) ++ [ci_ExecutionContract input; ci_OutputContract input].

Lemma in_tier_elem tier c sources : c ∈ in_tier tier sources -> c ∈ sources /\ co_Tier c = tier.
Proof. unfold in_tier. rewrite list_elem_of_filter, String.eqb_eq. tauto. Qed.

Lemma in_tier_perm tier l k : l ≡ₚ k -> in_tier tier l ≡ₚ in_tier tier k.
Proof. unfold in_tier. by intros ->. Qed.

Lemma sumBytes_app l k : sumBytes (l ++ k) = sumBytes l + sumBytes k.
Proof. induction l as [|x l IH]; [done|]. cbn [app]. rewrite !sumBytes_cons, IH. lia. Qed.

Lemma in_tier_app tier l k : in_tier tier (l ++ k) = in_tier tier l ++ in_tier tier k.
Proof. apply filter_app. Qed.

(** The bytes of one tier among sources that all are of the tier [t] *)
Lemma bytes_of_tier tier t l :
  Forall (fun c => co_Tier c = t) l -> sumBytes (in_tier tier l) = if t =s tier then sumBytes l else 0.
Proof.
  intros Hl. destruct (t =s tier) eqn:E.
  - f_equal. induction Hl as [|c l Hc _ IH]; [done|]. unfold in_tier in *.
    by rewrite filter_cons, decide_True, IH by (by rewrite Hc).
  - induction Hl as [|c l Hc _ IH]; [done|]. unfold in_tier in *.
    by rewrite filter_cons, decide_False by (by rewrite Hc, E).
Qed.

Lemma same_tier tier l k sources : l ++ k ≡ₚ in_tier tier sources -> Forall (fun c => co_Tier c = tier) l.
Proof.
  intros Hp. apply Forall_forall. intros c Hc. assert (c ∈ in_tier tier sources) as [_ ?]%in_tier_elem; [|done].
  rewrite <-Hp. set_solver.
Qed.

Lemma cut_bytes (cut : list (ContextComponentV2 * string)) :
  sumBytes (map (fun e => truncate e.1 e.2) cut) = sum (map (fun e => len e.2) cut).
Proof. induction cut as [|e cut IH]; [done|]. cbn [map]. by rewrite sumBytes_cons, sum_cons, IH. Qed.

(** What is included of each tier stays within its part of the budget. *)
Lemma placement_bytes sources budget req imp opt unimp unopt cut comps :
  placement sources budget req imp opt unimp unopt cut ->
  comps ≡ₚ req ++ imp ++ map (fun e => truncate e.1 e.2) cut ++ opt ->
  sumBytes (in_tier TierRequired comps) <= ab_RequiredBytes budget /\
  sumBytes (in_tier TierImportant comps) <= ab_ImportantBytes budget /\
  sumBytes (in_tier TierOptional comps) <= ab_OptionalBytes budget.
Proof.
  intros [[Hreq Hreqb] [Himp Himpb] _ [Hopt Hoptb]] Hc.
  assert (Forall (fun c => co_Tier c = TierRequired) req) as Hr by (eapply (same_tier _ _ []); by rewrite app_nil_r).
  assert (Forall (fun c => co_Tier c = TierImportant) imp) as Hi by (by eapply same_tier).
  assert (Forall (fun c => co_Tier c = TierImportant) (map fst cut)) as Hcf.
  { eapply (same_tier _ _ (unimp ++ imp)). rewrite <-Himp. by rewrite app_assoc, Permutation_app_comm. }
  assert (Forall (fun c => co_Tier c = TierImportant) (map (fun e => truncate e.1 e.2) cut)) as Hct.
  { rewrite Forall_map in Hcf |- *. by eapply Forall_impl. }
  assert (Forall (fun c => co_Tier c = TierOptional) opt) as Ho by (by eapply same_tier).
  assert (forall t, sumBytes (in_tier t comps) =
    (if TierRequired =s t then sumBytes req else 0) + (if TierImportant =s t then sumBytes imp else 0) +
    (if TierImportant =s t then sum (map (fun e => len e.2) cut) else 0) + (if TierOptional =s t then sumBytes opt else 0)) as Ht.
  { intros t. rewrite (sumBytes_perm _ _ (in_tier_perm t _ _ Hc)), !in_tier_app, !sumBytes_app, <-cut_bytes.
    rewrite (bytes_of_tier t _ _ Hr), (bytes_of_tier t _ _ Hi), (bytes_of_tier t _ _ Hct), (bytes_of_tier t _ _ Ho). lia. }
  rewrite !Ht. cbn. lia.
Qed.

Definition source_ok (c : ContextComponentV2) : Prop :=
  co_Kind c <> KindExecutionContract /\ co_Kind c <> KindOutputContract /\ validateComponentV2 c = Ok tt /\
  co_Truncation c = TruncationNone /\ co_OriginalBytes c = co_IncludedBytes c.

Lemma compile_source_ok seen c s' :
  compile_source seen c = Ok s' <-> source_ok c /\ co_ID c ∉ seen /\ s' = {[co_ID c]} ∪ seen.
Proof.
  unfold compile_source, source_ok. rewrite fail_if_ok, bind_unit_ok, !fail_if_ok, !orb_false_iff, !String.eqb_neq.
  rewrite !negb_false_iff, String.eqb_eq, Z.eqb_eq. unfold seen_in. rewrite bool_decide_eq_false. naive_solver.
Qed.

Lemma compile_omission_ok seen o s' :
  compile_omission seen o = Ok s' <->
  validateOmissionV2 o = Ok tt /\ om_ComponentID o ∉ seen /\ s' = {[om_ComponentID o]} ∪ seen.
Proof.
  unfold compile_omission. rewrite bind_unit_ok, fail_if_ok. unfold seen_in. rewrite bool_decide_eq_false. naive_solver.
Qed.

Lemma validateEngineContract_ok c kind :
  validateEngineContract c kind = Ok tt ->
  co_Kind c = kind /\ co_Tier c = TierRequired /\ validateComponentV2 c = Ok tt.
Proof.
  unfold validateEngineContract. rewrite !fail_if_ok, orb_false_iff, !negb_false_iff, !String.eqb_eq. tauto.
Qed.

Lemma CompileContextV2_inv input out :
  CompileContextV2 input = Ok out ->
  exists components budgetOmissions,
    validateBudgetV2 (ci_Budget input) = Ok tt /\
    Forall (fun c => validateComponentV2 c = Ok tt) (all_sources input) /\
    allocateV2 (all_sources input) (ci_Budget input) = Ok (components, budgetOmissions) /\
    en_Components (cv_Envelope out) = components /\
    en_Omissions (cv_Envelope out) = sort_slice omission_less (sr_Omissions (ci_Resolution input) ++ budgetOmissions) /\
    en_Budget (cv_Envelope out) = ci_Budget input /\
    ValidateContextEnvelopeV2 (cv_Envelope out) = Ok tt.
Proof.
  unfold CompileContextV2. rewrite bind_unit_ok, !fail_if_ok. intros (Hb & _ & _ & Hc).
  apply bind_ok in Hc as (seen1 & Hs1 & Hc). apply bind_ok in Hc as (seen2 & Hs2 & Hc).
  apply bind_unit_ok in Hc as [He Hc]. apply bind_unit_ok in Hc as [Ho Hc].
  rewrite !fail_if_ok in Hc. destruct Hc as (_ & _ & Hc).
  apply bind_ok in Hc as ([components oms] & Ha & Hc). rewrite fail_if_ok in Hc. destruct Hc as [_ Hc].
  apply bind_unit_ok in Hc as [Hv Hc]. apply bind_ok in Hc as (hash & _ & Hc).
  apply bind_ok in Hc as (mf & _ & Hc). injection Hc as <-.
  exists components, oms. split; [done|]. split; [|done].
  unfold all_sources. apply Forall_app. split.
  - assert (is_ok (range_loop compile_source ∅ (sr_Components (ci_Resolution input))) = true) as Hok by (apply is_ok_Ok; eauto).
    rewrite (seen_loop_ok co_ID source_ok) in Hok by apply compile_source_ok.
    destruct Hok as [Hok _]. eapply Forall_impl; [exact Hok|]. intros c Hsc. apply Hsc.
  - apply validateEngineContract_ok in He as (_ & _ & He), Ho as (_ & _ & Ho). by repeat constructor.
Qed.

(** C38: A compilation accounts for every source: each is included as it is, or
    is important and included cut to a shorter, non-empty suffix, or is
    reported as an omission; required sources are always included as they
    are, and what is included of each tier stays within its own part of the
    budget (so the whole within the total). *)
Theorem compile_places_every_source (input : ContextCompilerInputV2) (out : CompilationV2)
    (Hcompile : CompileContextV2 input = Ok out) :
  exists whole cut omitted,
    all_sources input ≡ₚ whole ++ map fst cut ++ omitted /\
    en_Components (cv_Envelope out) ≡ₚ whole ++ map (fun e => truncate e.1 e.2) cut /\
    en_Omissions (cv_Envelope out) ≡ₚ sr_Omissions (ci_Resolution input) ++ map omissionFor omitted /\
    Forall (fun e => co_Tier e.1 = TierImportant /\ (exists n, e.2 = validTail (co_Content e.1) n) /\
                     e.2 <> "" /\ len e.2 < len (co_Content e.1)) cut /\
    Forall (fun c => co_Tier c <> TierRequired) omitted /\
    (sumBytes (in_tier TierRequired (en_Components (cv_Envelope out))) <= ab_RequiredBytes (ci_Budget input) /\
     sumBytes (in_tier TierImportant (en_Components (cv_Envelope out))) <= ab_ImportantBytes (ci_Budget input) /\
     sumBytes (in_tier TierOptional (en_Components (cv_Envelope out))) <= ab_OptionalBytes (ci_Budget input)) /\
    sumBytes (en_Components (cv_Envelope out)) <= ab_TotalBytes (ci_Budget input).
Proof.
  apply CompileContextV2_inv in Hcompile as (comps & oms & Hb & Hv & Ha & Hcomps & Homs & _ & _).
  apply validateBudgetV2_ok in Hb as (_ & _ & Hi & Ho & Htot).
  assert (sumBytes (in_tier TierRequired (all_sources input)) <= ab_RequiredBytes (ci_Budget input)) as Hr.
  { unfold allocateV2 in Ha. rewrite fail_if_ok in Ha. destruct Ha as [Hr _]. apply Z.ltb_ge in Hr.
    by erewrite sumBytes_perm in Hr by apply sort_slice_perm. }
  destruct (allocateV2_spec (all_sources input) (ci_Budget input) Hi Ho Hr)
    as (req & imp & opt & unimp & unopt & cut & cs & os & Hplace & Hal & Hcs & Hos).
  rewrite Ha in Hal. injection Hal as -> ->.
  assert (Forall (fun c => validTier (co_Tier c) = true) (all_sources input)) as Htier
    by (eapply Forall_impl; [exact Hv|apply valid_component_tier]).
  pose proof (tier_partition _ Htier) as Hpart. pose proof Hplace as [Hreq Himp Hcut Hopt]. destruct Hreq as [Hreq Hreqb], Himp as [Himp Himpb], Hopt as [Hopt Hoptb].
  rewrite <-Hreq, <-Himp, <-Hopt in Hpart.
  exists (req ++ imp ++ opt), cut, (unimp ++ unopt). split; [|split; [|split; [|split; [|split; [|split]]]]].
  - rewrite Hpart. rewrite <-!app_assoc. apply Permutation_app_head, Permutation_app_head.
    rewrite (app_assoc (map fst cut)), (Permutation_app_comm (map fst cut ++ unimp)), <-app_assoc.
    apply Permutation_app_head. rewrite (Permutation_app_comm unopt), <-app_assoc. done.
  - rewrite Hcomps, sort_slice_perm, Hcs. rewrite <-!app_assoc. apply Permutation_app_head, Permutation_app_head.
    apply Permutation_app_comm.
  - by rewrite Homs, sort_slice_perm, (sort_slice_perm omission_less os), Hos.
  - rewrite Forall_forall in Hcut |- *. intros e He. split; [|by apply Hcut].
    assert (e.1 ∈ in_tier TierImportant (all_sources input)) as [_ ?]%in_tier_elem; [|done].
    rewrite <-Himp. rewrite !elem_of_app. right. left. apply list_elem_of_fmap. eauto.
  - rewrite Forall_app, !Forall_forall. split; intros c Hc.
    + assert (c ∈ in_tier TierImportant (all_sources input)) as [_ ->]%in_tier_elem; [|done]. rewrite <-Himp. set_solver.
    + assert (c ∈ in_tier TierOptional (all_sources input)) as [_ ->]%in_tier_elem; [|done]. rewrite <-Hopt. set_solver.
  - rewrite Hcomps. apply (placement_bytes _ _ _ _ _ _ _ _ _ Hplace). by rewrite sort_slice_perm.
  - rewrite Hcomps, (sumBytes_perm _ _ (sort_slice_perm _ _)), (sumBytes_perm _ _ Hcs), !sumBytes_app, cut_bytes. lia.
Qed.
End Compile.

(** ** Compilations that succeed *)

Section Success.
Context `{Sha256}.

Record component_ok (c : ContextComponentV2) : Prop := {
  ck_identity : contract_id (co_ID c) = true /\ 0 <= componentRank (co_Kind c) /\ validTier (co_Tier c) = true /\
    validSensitivity (co_Sensitivity c) = true /\ tierAllowed (co_Kind c) (co_Tier c) = true;
  ck_provenance : bad_provenance (pv_Source (co_Provenance c)) (pv_SourceVersion (co_Provenance c)) (pv_SourceHash (co_Provenance c)) = false /\
    unclean (pv_Reason (co_Provenance c)) = false /\ len (pv_Reason (co_Provenance c)) <= 1024;
  ck_content : valid_utf8 (co_Content c) = true /\ 0 <> len (co_Content c) /\ len (co_Content c) <= MaxComponentContentBytes /\
    co_IncludedBytes c = len (co_Content c) /\ len (co_Content c) <= co_OriginalBytes c;
  ck_hash : co_ContentHash c = hashBytes (co_Content c);
  ck_truncation : (co_Truncation c = TruncationNone /\ co_OriginalBytes c = co_IncludedBytes c) \/
    (co_Truncation c = TruncationTail /\ co_Tier c <> TierRequired /\ co_IncludedBytes c < co_OriginalBytes c) }.

Lemma validateComponentV2_ok c : validateComponentV2 c = Ok tt <-> component_ok c.
Proof.
  unfold validateComponentV2. rewrite !fail_if_ok, !orb_false_iff, !negb_false_iff, !Z.ltb_ge, Z.eqb_eq, Z.eqb_neq, String.eqb_eq.
  split.
  - intros ([[[? ?] ?] ?] & ? & [[? ?] ?] & ? & [[[? ?] ?] ?] & ? & Ht).
    constructor; [tauto|tauto|intuition lia|done|].
    destruct (co_Truncation c =s TruncationNone) eqn:E1; bool_props.
    + rewrite fail_if_ok, negb_false_iff, Z.eqb_eq in Ht. tauto.
    + destruct (co_Truncation c =s TruncationTail) eqn:E2; bool_props; [|done].
      rewrite fail_if_ok, orb_false_iff, String.eqb_neq, Z.leb_gt in Ht. tauto.
  - intros [? ? (? & ? & ? & ? & ?) ? Ht]. repeat (split; [intuition (lia || auto)|]).
    destruct Ht as [[-> ?]|(-> & ? & ?)].
    + cbn. by rewrite fail_if_ok, negb_false_iff, Z.eqb_eq.
    + change (TruncationTail =s TruncationNone) with false. change (TruncationTail =s TruncationTail) with true.
      cbv iota. rewrite fail_if_ok, orb_false_iff, String.eqb_neq, Z.leb_gt. tauto.
Qed.

Lemma truncate_ok c n :
  component_ok c -> co_Tier c = TierImportant -> validTail (co_Content c) n <> "" ->
  len (validTail (co_Content c) n) < len (co_Content c) -> component_ok (truncate c (validTail (co_Content c) n)).
Proof.
  intros [? ? (Hu & ? & ? & ? & ?) ? ?] Ht Hne Hlen. destruct (validTail_spec (co_Content c) n) as (_ & _ & _ & Hv).
  split; cbn; [done|done| |done|].
  - split; [by apply Hv|]. split; [|lia]. destruct (validTail (co_Content c) n); [done|]. unfold len. cbn. lia.
  - right. rewrite Ht. split; [done|]. split; [done|]. lia.
Qed.

Lemma omissionFor_ok c :
  component_ok c -> co_Tier c <> TierRequired -> validateOmissionV2 (omissionFor c) = Ok tt.
Proof.
  intros [(? & ? & ? & ? & ?) [Hp _] (? & ? & ? & ? & ?) ? _] Ht. unfold validateOmissionV2. cbn.
  rewrite !fail_if_ok, !orb_false_iff, !negb_false_iff, !Z.ltb_ge, String.eqb_neq.
  unfold bad_provenance in Hp. rewrite !orb_false_iff, negb_false_iff in Hp.
  repeat split; try tauto; try reflexivity; unfold len in *; lia.
Qed.

(** Sufficient conditions, none of which is about how much optional or
    important content there is *)
Record compilable (input : ContextCompilerInputV2) : Prop := {
  cb_budget : validateBudgetV2 (ci_Budget input) = Ok tt;
  cb_identity : incomplete_identity trim_space (ci_Identity input) = false /\
                incomplete_identity stringsTrim (ci_Identity input) = false;
  cb_counts : len_slice (all_sources input) <= MaxContextComponents /\
    len_slice (sr_Omissions (ci_Resolution input)) + len_slice (all_sources input) <= MaxContextOmissions;
  cb_sources : Forall source_ok (sr_Components (ci_Resolution input));
  cb_omissions : Forall (fun o => validateOmissionV2 o = Ok tt) (sr_Omissions (ci_Resolution input));
  cb_execution : validateEngineContract (ci_ExecutionContract input) KindExecutionContract = Ok tt;
  cb_output : validateEngineContract (ci_OutputContract input) KindOutputContract = Ok tt;
  cb_ids : NoDup (map co_ID (all_sources input) ++ map om_ComponentID (sr_Omissions (ci_Resolution input)));
  cb_required : sumBytes (in_tier TierRequired (all_sources input)) <= ab_RequiredBytes (ci_Budget input);
  cb_task : KindNodeTask ∈ map co_Kind (sr_Components (ci_Resolution input));
  cb_memory : memory_count (all_sources input) <= MaxSelectedMemoryRecords }.

Lemma seen_loop_value {E A} (key : A -> string) (P : A -> Prop) (body : gset string -> A -> result E (gset string)) seen xs :
  (forall seen x s', body seen x = Ok s' <-> P x /\ key x ∉ seen /\ s' = {[key x]} ∪ seen) ->
  Forall P xs -> NoDup (map key xs) -> Forall (fun x => key x ∉ seen) xs ->
  range_loop body seen xs = Ok (list_to_set (map key xs) ∪ seen).
Proof.
  intros Hb. revert seen. induction xs as [|x xs IH]; intros seen HP Hnd Hs; [cbn; f_equal; set_solver|].
  apply Forall_cons in HP as [Hx HP]. cbn in Hnd. apply NoDup_cons in Hnd as [Hni Hnd]. apply Forall_cons in Hs as [Hxs Hs].
  cbn [range_loop]. rewrite (proj2 (Hb seen x ({[key x]} ∪ seen))) by done.
  change (mbind ?f (Ok ?a)) with (f a). cbv beta. rewrite IH; [cbn; f_equal; set_solver|done|done|].
  rewrite Forall_forall in Hs |- *. intros y Hy. rewrite not_elem_of_union, not_elem_of_singleton.
  split; [|by apply Hs]. intros Heq. apply Hni. rewrite <-Heq. apply list_elem_of_fmap. eauto.
Qed.

Lemma tier_bytes_app t l k : tier_bytes t (l ++ k) = tier_bytes t l + tier_bytes t k.
Proof. unfold tier_bytes. induction l as [|c l IH]; [done|]. cbn [app map]. rewrite !sum_cons. lia. Qed.

Lemma tier_bytes_const t u l :
  Forall (fun c => component_ok c /\ co_Tier c = u) l -> tier_bytes t l = if u =s t then sumBytes l else 0.
Proof.
  induction 1 as [|c l [Hc Hu] _ IH]; [by destruct (u =s t)|]. rewrite sumBytes_cons.
  unfold tier_bytes in *. cbn [map]. rewrite sum_cons, IH, Hu.
  destruct Hc as [_ _ (_ & _ & _ & -> & _) _ _]. destruct (u =s t); lia.
Qed.

Lemma included_bytes l : Forall component_ok l -> sum (map co_IncludedBytes l) = sumBytes l.
Proof.
  induction 1 as [|c l [_ _ (_ & _ & _ & Hc & _) _ _] _ IH]; [done|]. cbn [map]. by rewrite sum_cons, sumBytes_cons, IH, Hc.
Qed.

Lemma tier_bytes_perm t l k : l ≡ₚ k -> tier_bytes t l = tier_bytes t k.
Proof. intros Hp. by apply sum_perm, Permutation_map. Qed.
Lemma memory_count_perm l k : l ≡ₚ k -> memory_count l = memory_count k.
Proof. intros Hp. by apply sum_perm, Permutation_map. Qed.
Lemma memory_count_app l k : memory_count (l ++ k) = memory_count l + memory_count k.
Proof. unfold memory_count. induction l as [|c l IH]; [done|]. cbn [app map]. rewrite !sum_cons. lia. Qed.
Lemma memory_count_nonneg l : 0 <= memory_count l.
Proof. unfold memory_count. induction l as [|c l IH]; [done|]. cbn [map]. rewrite sum_cons. destruct (_ =s _); lia. Qed.
Lemma memory_count_cut cut : memory_count (map (fun e => truncate e.1 e.2) cut) = memory_count (map fst cut).
Proof. unfold memory_count. induction cut as [|e cut IH]; [done|]. cbn [map]. rewrite !sum_cons, IH. done. Qed.

(** The components an allocation of valid sources makes are valid. *)
Lemma placement_valid sources budget req imp opt unimp unopt cut :
  placement sources budget req imp opt unimp unopt cut -> Forall component_ok sources ->
  Forall (fun c => component_ok c /\ co_Tier c = TierRequired) req /\
  Forall (fun c => component_ok c /\ co_Tier c = TierImportant) (imp ++ map (fun e => truncate e.1 e.2) cut) /\
  Forall (fun c => component_ok c /\ co_Tier c = TierOptional) opt /\
  Forall (fun c => component_ok c /\ co_Tier c <> TierRequired) (unimp ++ unopt).
Proof.
  intros [[Hreq _] [Himp _] Hcut [Hopt _]] Hok. rewrite Forall_forall in Hok.
  assert (forall t c, c ∈ in_tier t sources -> component_ok c /\ co_Tier c = t) as Hin.
  { intros t c [Hc Ht]%in_tier_elem. auto. }
  split; [|split; [|split]].
  - rewrite Forall_forall. intros c Hc. rewrite Hreq in Hc. auto.
  - rewrite Forall_app, !Forall_forall. split; intros c Hc.
    + apply Hin. rewrite <-Himp. set_solver.
    + apply list_elem_of_fmap in Hc as (e & -> & He). rewrite Forall_forall in Hcut.
      destruct (Hcut e He) as ((n & Hn) & Hne & Hlen).
      destruct (Hin TierImportant e.1) as [Hok1 Ht]; [rewrite <-Himp, !elem_of_app; right; left; apply list_elem_of_fmap; eauto|].
      split; [|by cbn]. rewrite Hn in *. by apply truncate_ok.
  - rewrite Forall_forall. intros c Hc. apply Hin. rewrite <-Hopt. set_solver.
  - rewrite Forall_app, !Forall_forall. split; intros c Hc.
    + destruct (Hin TierImportant c) as [? ->]; [rewrite <-Himp; set_solver|done].
    + destruct (Hin TierOptional c) as [? ->]; [rewrite <-Hopt; set_solver|done].
Qed.

Lemma envelope_valid env :
  en_SchemaVersion env = EnvelopeV2Version -> en_CompilerVersion env = CompilerV2Version ->
  incomplete_identity trim_space (en_Identity env) = false -> validateBudgetV2 (en_Budget env) = Ok tt ->
  1 <= len_slice (en_Components env) <= MaxContextComponents ->
  len_slice (en_Omissions env) <= MaxContextOmissions ->
  Forall component_ok (en_Components env) -> strictly_canonical (en_Components env) ->
  NoDup (map co_ID (en_Components env) ++ map om_ComponentID (en_Omissions env)) ->
  Forall (fun k => k ∈ map co_Kind (en_Components env)) [KindExecutionContract; KindNodeTask; KindOutputContract] ->
  memory_count (en_Components env) <= MaxSelectedMemoryRecords ->
  sumBytes (en_Components env) <= ab_TotalBytes (en_Budget env) ->
  tier_bytes TierRequired (en_Components env) <= ab_RequiredBytes (en_Budget env) ->
  tier_bytes TierImportant (en_Components env) <= ab_ImportantBytes (en_Budget env) ->
  tier_bytes TierOptional (en_Components env) <= ab_OptionalBytes (en_Budget env) ->
  Forall (fun o => validateOmissionV2 o = Ok tt) (en_Omissions env) ->
  strictly_sorted (map om_ComponentID (en_Omissions env)) ->
  ValidateContextEnvelopeV2 env = Ok tt.
Proof.
  intros Hsv Hcv Hid Hb Hlen Hol Hok Hs Hnd Hkinds Hmem Ht Hr Hi Ho Hom Hos.
  apply NoDup_app in Hnd as (Hnd & Hdisj & _).
  unfold ValidateContextEnvelopeV2. rewrite Hsv, Hcv, Hid, Hb. cbn [String.eqb negb orb].
  change ((EnvelopeV2Version ≠s EnvelopeV2Version) || (CompilerV2Version ≠s CompilerV2Version)) with false.
  change (mbind ?f (Ok ?a)) with (f a). cbv beta iota.
  rewrite !fail_if_ok, orb_false_iff, Z.eqb_neq, !Z.ltb_ge.
  split; [split; lia|]. split; [done|].
  destruct (envelope_loop (en_Components env) envelope_start) as (s & -> & Hseen & Hkd & Hmc & Hut & Hur & Hui & Huo).
  { eapply Forall_impl; [exact Hok|]. intros c. apply validateComponentV2_ok. }
  { done. }
  { done. }
  { eapply Forall_impl; [exact Hok|]. intros c [(? & ? & _) _ _ _ _]. cbn. split; [set_solver|]. left. lia. }
  change (mbind ?f (Ok ?a)) with (f a). cbv beta. apply bind_unit_ok. split.
  { rewrite (range_loop_unit (fun required => fail_if negb (seen_in required (es_kinds s))
          with contractError CodeContextRequiredMissing ("required component kind " +:+ quoted required +:+ " is missing") "" ;; Ok tt)).
    eapply Forall_impl; [exact Hkinds|]. intros k Hk. cbn beta. unfold seen_in. rewrite bool_decide_eq_true_2; [done|].
    rewrite Hkd. set_solver. }
  rewrite fail_if_ok, Z.ltb_ge. cbn [envelope_start es_memoryCount es_usage] in *.
  cbn [no_usage au_TotalBytes au_RequiredBytes au_ImportantBytes au_OptionalBytes] in *.
  rewrite included_bytes in Hut by done. split; [lia|].
  rewrite fail_if_ok. split.
  { unfold over_budget. rewrite !orb_false_iff, !Z.ltb_ge. lia. }
  apply is_ok_bind_unit. apply omission_loop; [done|done|].
  rewrite Forall_forall. intros o Hin. rewrite Hseen. split.
  - rewrite not_elem_of_union, elem_of_list_to_set. split; [|set_solver]. intros Hc.
    apply (Hdisj _ Hc). apply list_elem_of_fmap. eauto.
  - rewrite Forall_forall in Hom. specialize (Hom o Hin). unfold validateOmissionV2 in Hom.
    rewrite fail_if_ok, !orb_false_iff, negb_false_iff in Hom. destruct Hom as [[[[[[[Hc _] _] _] _] _] _] _].
    unfold contract_id, match_ident in Hc. by destruct (om_ComponentID o).
Qed.

Lemma all_sources_ok input : compilable input -> Forall component_ok (all_sources input).
Proof.
  intros Hc. unfold all_sources. apply Forall_app. split.
  - eapply Forall_impl; [exact (cb_sources _ Hc)|]. intros c (_ & _ & Hv & _). by apply validateComponentV2_ok.
  - pose proof (cb_execution _ Hc) as (_ & _ & He)%validateEngineContract_ok.
    pose proof (cb_output _ Hc) as (_ & _ & Ho)%validateEngineContract_ok.
    apply validateComponentV2_ok in He, Ho. by rewrite !Forall_cons, Forall_nil.
Qed.

(** The checks before the allocation pass. *)
Lemma compilable_prefix input :
  compilable input ->
  CompileContextV2 input =
  ('(components, budgetOmissions) ← allocateV2 (all_sources input) (ci_Budget input);
   let omissions := sort_slice omission_less (sr_Omissions (ci_Resolution input) ++ budgetOmissions) in
   fail_if MaxContextOmissions <? len_slice omissions
     with contractError CodeContextInvalidComponent "Context omission count exceeds its bound" "" ;;
   let envelope := {| en_SchemaVersion := EnvelopeV2Version; en_CompilerVersion := CompilerV2Version;
                     en_Identity := ci_Identity input; en_Budget := ci_Budget input;
                     en_Components := components; en_Omissions := omissions |} in
   _ ← ValidateContextEnvelopeV2 envelope;
   hash ← CanonicalEnvelopeHashV2 envelope;
   manifest ← BuildContextManifestV2 envelope;
   Ok {| cv_Envelope := envelope; cv_Manifest := manifest; cv_Hash := hash |}).
Proof.
  intros Hc. pose proof (cb_ids _ Hc) as Hnd. unfold all_sources in Hnd. rewrite map_app, <-app_assoc in Hnd.
  apply NoDup_app in Hnd as (Hnd1 & Hd1 & Hnd2). cbn in Hnd2, Hd1.
  apply NoDup_cons in Hnd2 as [He Hnd2]. apply NoDup_cons in Hnd2 as [Ho Hnd2].
  rewrite not_elem_of_cons in He. destruct He as [Heo He].
  pose proof (cb_counts _ Hc) as [Hn1 Hn2]. unfold all_sources, len_slice in Hn1, Hn2. rewrite length_app in Hn1, Hn2.
  unfold CompileContextV2. rewrite (cb_budget _ Hc). change (mbind ?f (Ok ?a)) with (f a). cbv beta.
  rewrite (proj2 (cb_identity _ Hc)).
  replace ((MaxContextComponents <? len_slice (sr_Components (ci_Resolution input))) ||
           (MaxContextOmissions <? len_slice (sr_Omissions (ci_Resolution input)))) with false.
  2:{ symmetry. rewrite orb_false_iff, !Z.ltb_ge. unfold len_slice. cbn in Hn1, Hn2. lia. }
  rewrite (seen_loop_value co_ID source_ok) by (apply compile_source_ok || apply Hc || done || (rewrite Forall_forall; set_solver)).
  change (mbind ?f (Ok ?a)) with (f a). cbv beta.
  rewrite (seen_loop_value om_ComponentID (fun o => validateOmissionV2 o = Ok tt)); [|apply compile_omission_ok|apply Hc|done|].
  2:{ rewrite Forall_forall. intros o Hin. rewrite not_elem_of_union, elem_of_list_to_set. split; [|set_solver].
      intros Hin'. apply (Hd1 _ Hin'). rewrite !elem_of_cons. do 2 right. apply list_elem_of_fmap. eauto. }
  change (mbind ?f (Ok ?a)) with (f a). cbv beta.
  rewrite (cb_execution _ Hc), (cb_output _ Hc). change (mbind ?f (Ok ?a)) with (f a). cbv beta.
  assert (forall id, id ∉ map co_ID (sr_Components (ci_Resolution input)) ->
            id ∉ map om_ComponentID (sr_Omissions (ci_Resolution input)) ->
            seen_in id (list_to_set (map om_ComponentID (sr_Omissions (ci_Resolution input))) ∪
                        (list_to_set (map co_ID (sr_Components (ci_Resolution input))) ∪ ∅)) = false) as Hseen.
  { intros id H1 H2. unfold seen_in. apply bool_decide_eq_false. rewrite !not_elem_of_union, !elem_of_list_to_set. set_solver. }
  rewrite !Hseen; [|intros Hin; apply (Hd1 _ Hin); set_solver|done|intros Hin; apply (Hd1 _ Hin); set_solver|done].
  replace (co_ID (ci_OutputContract input) =s co_ID (ci_ExecutionContract input)) with false; [done|].
  symmetry. apply String.eqb_neq. congruence.
Qed.

(** Compilation cannot fail for want of room: whatever the amount of
    optional and important content, well-formed sources with distinct ids
    compile as soon as the required ones fit their tier. *)
Theorem compile_succeeds (input : ContextCompilerInputV2) (Hinput : compilable input) :
  exists out, CompileContextV2 input = Ok out.
Proof.
  rewrite (compilable_prefix _ Hinput). pose proof (all_sources_ok _ Hinput) as Hok.
  pose proof (validateBudgetV2_ok _ (cb_budget _ Hinput)) as (_ & _ & Hi & Ho & Htot).
  destruct (allocateV2_spec (all_sources input) (ci_Budget input) Hi Ho (cb_required _ Hinput))
    as (req & imp & opt & unimp & unopt & cut & cs & os & Hpl & -> & Hcs & Hos).
  destruct (placement_valid _ _ _ _ _ _ _ _ Hpl Hok) as (Vreq & Vimp & Vopt & Vom).
  destruct Hpl as [[Hreq Hreqb] [Himp Himpb] _ [Hopt Hoptb]].
  assert (Forall (fun c => validTier (co_Tier c) = true) (all_sources input)) as Htier.
  { eapply Forall_impl; [exact Hok|]. intros c [(_ & _ & ? & _) _ _ _ _]. done. }
  pose proof (tier_partition _ Htier) as Hpart. rewrite <-Hreq, <-Himp, <-Hopt in Hpart.
  set (comps := sort_slice canonical_less cs).
  assert (comps ≡ₚ req ++ (imp ++ map (fun e => truncate e.1 e.2) cut) ++ opt) as Hcomps.
  { unfold comps. rewrite sort_slice_perm, Hcs. by rewrite <-!app_assoc. }
  change (mbind ?f (Ok ?a)) with (f a). cbv beta iota zeta.
  set (oms := sort_slice omission_less (sr_Omissions (ci_Resolution input) ++ sort_slice omission_less os)).
  assert (oms ≡ₚ sr_Omissions (ci_Resolution input) ++ map omissionFor (unimp ++ unopt)) as Homs.
  { unfold oms. by rewrite sort_slice_perm, (sort_slice_perm omission_less os), Hos. }
  assert (map co_ID comps ++ map om_ComponentID oms ≡ₚ
          map co_ID (all_sources input) ++ map om_ComponentID (sr_Omissions (ci_Resolution input))) as Hids.
  { rewrite Hcomps, Homs, Hpart, !map_app, !map_map.
    change (map (fun x => om_ComponentID (omissionFor x))) with (map co_ID).
    change (map (fun x => co_ID (truncate x.1 x.2)) cut) with (map (fun x : ContextComponentV2 * string => co_ID x.1) cut).
    solve_Permutation. }
  assert (NoDup (map co_ID comps ++ map om_ComponentID oms)) as Hnd by (rewrite Hids; apply Hinput).
  pose proof (cb_counts _ Hinput) as [Hn1 Hn2]. unfold len_slice in Hn1, Hn2.
  pose proof (Permutation_length Hpart) as Hlp. pose proof (Permutation_length Hcomps) as Hlc.
  pose proof (Permutation_length Homs) as Hlo.
  repeat (rewrite length_app in Hlp || rewrite length_map in Hlp).
  repeat (rewrite length_app in Hlc || rewrite length_map in Hlc).
  repeat (rewrite length_app in Hlo || rewrite length_map in Hlo).
  replace (MaxContextOmissions <? len_slice oms) with false by (symmetry; apply Z.ltb_ge; unfold len_slice; lia).
  assert (KindExecutionContract ∈ map co_Kind req /\ KindNodeTask ∈ map co_Kind req /\ KindOutputContract ∈ map co_Kind req) as (K1 & K2 & K3).
  { assert (forall k, tierAllowed k TierImportant = false -> tierAllowed k TierOptional = false ->
              k ∈ map co_Kind (all_sources input) -> k ∈ map co_Kind req) as Hk.
    { intros k N1 N2 (c & -> & Hc)%list_elem_of_fmap. apply list_elem_of_fmap. exists c. split; [done|].
      rewrite Forall_forall in Hok. destruct (Hok c Hc) as [(_ & _ & Hvt & _ & Hta) _ _ _ _].
      rewrite Hreq. unfold in_tier. apply list_elem_of_filter. split; [|done]. apply String.eqb_eq.
      unfold validTier in Hvt. rewrite !orb_true_iff, !String.eqb_eq in Hvt.
      destruct Hvt as [[?|Ht]|Ht]; [done|rewrite Ht in Hta; congruence..]. }
    pose proof (validateEngineContract_ok _ _ (cb_execution _ Hinput)) as (E1 & _).
    pose proof (validateEngineContract_ok _ _ (cb_output _ Hinput)) as (E2 & _).
    unfold all_sources in Hk. rewrite map_app in Hk. cbn [map] in Hk. rewrite E1, E2 in Hk.
    pose proof (cb_task _ Hinput). split; [|split]; apply Hk; try reflexivity; set_solver. }
  assert (ValidateContextEnvelopeV2 {| en_SchemaVersion := EnvelopeV2Version; en_CompilerVersion := CompilerV2Version;
            en_Identity := ci_Identity input; en_Budget := ci_Budget input;
            en_Components := comps; en_Omissions := oms |} = Ok tt) as Hvalid.
  { apply envelope_valid; cbn [en_SchemaVersion en_CompilerVersion en_Identity en_Budget en_Components en_Omissions]; try done.
    - apply (cb_identity _ Hinput).
    - apply Hinput.
    - unfold len_slice. destruct req; [set_solver|]. cbn in *. lia.
    - unfold len_slice. lia.
    - rewrite Hcomps, Forall_app, (Forall_app _ (imp ++ _)).
      split; [|split]; (eapply Forall_impl; [first [exact Vreq|exact Vimp|exact Vopt]|]; by intros c []).
    - apply sort_canonical. apply NoDup_app in Hnd as (Hnd & _). unfold comps in Hnd. by rewrite sort_slice_perm in Hnd.
    - repeat constructor; rewrite Hcomps, map_app; set_solver.
    - pose proof (cb_memory _ Hinput) as Hmem.
      rewrite (memory_count_perm _ _ Hpart) in Hmem. rewrite (memory_count_perm _ _ Hcomps).
      rewrite !memory_count_app in *. rewrite memory_count_cut.
      pose proof (memory_count_nonneg unimp). pose proof (memory_count_nonneg unopt). lia.
    - rewrite (sumBytes_perm _ _ Hcomps), !sumBytes_app, cut_bytes. lia.
    - rewrite (tier_bytes_perm _ _ _ Hcomps), (tier_bytes_app _ req), (tier_bytes_app _ (imp ++ _)), (tier_bytes_const _ _ _ Vreq), (tier_bytes_const _ _ _ Vimp), (tier_bytes_const _ _ _ Vopt).
      change (TierImportant =s TierRequired) with false. change (TierOptional =s TierRequired) with false.
      change (TierRequired =s TierRequired) with true. cbv iota. lia.
    - rewrite (tier_bytes_perm _ _ _ Hcomps), (tier_bytes_app _ req), (tier_bytes_app _ (imp ++ _)), (tier_bytes_const _ _ _ Vreq), (tier_bytes_const _ _ _ Vimp), (tier_bytes_const _ _ _ Vopt).
      change (TierRequired =s TierImportant) with false. change (TierOptional =s TierImportant) with false.
      change (TierImportant =s TierImportant) with true. cbv iota. rewrite sumBytes_app, cut_bytes. lia.
    - rewrite (tier_bytes_perm _ _ _ Hcomps), (tier_bytes_app _ req), (tier_bytes_app _ (imp ++ _)), (tier_bytes_const _ _ _ Vreq), (tier_bytes_const _ _ _ Vimp), (tier_bytes_const _ _ _ Vopt).
      change (TierRequired =s TierOptional) with false. change (TierImportant =s TierOptional) with false.
      change (TierOptional =s TierOptional) with true. cbv iota. lia.
    - rewrite Homs, Forall_app. split; [apply Hinput|]. apply Forall_fmap. eapply Forall_impl; [exact Vom|].
      intros c [? ?]. by apply omissionFor_ok.
    - apply sort_omissions. apply NoDup_app in Hnd as (_ & _ & Hnd). unfold oms in Hnd. by rewrite sort_slice_perm in Hnd. }
  unfold CanonicalEnvelopeHashV2, BuildContextManifestV2, CanonicalEnvelopeHashV2. rewrite Hvalid.
  repeat (change (mbind ?f (Ok ?a)) with (f a); cbv beta). by eexists.
Qed.
End Success.

(** ** A concrete compilation *)

(** A digest function with the documented shape *)
Definition constant_digest : Sha256.
Proof.
  refine {| hashBytes := fun _ => of_list (repeat "0"%char 64) |}; intros _; vm_compute; reflexivity.
Defined.

Definition sample_component (id kind tier content : string) : ContextComponentV2 := {|
  co_ID := id; co_Kind := kind; co_Tier := tier; co_Sensitivity := SensitivityProject;
  co_Provenance := {| pv_Source := "workflow"; pv_SourceVersion := "1"; pv_SourceHash := of_list (repeat "0"%char 64);
                      pv_Reason := "needed" |};
  co_Content := content; co_ContentHash := of_list (repeat "0"%char 64);
  co_OriginalBytes := len content; co_IncludedBytes := len content; co_Truncation := TruncationNone |}.

Definition sample_compilation : ContextCompilerInputV2 := {|
  ci_Identity := {| id_RunID := "run-1"; id_NodeID := "a"; id_Attempt := 1 |};
  ci_Resolution := {|
    sr_Components := [sample_component "task" KindNodeTask TierRequired "do the work";
                      sample_component "dep.long" KindDependencyResult TierImportant "a result that is too long to be kept";
                      sample_component "dep.short" KindDependencyResult TierImportant "ok";
                      sample_component "mem.1" KindMemory TierOptional "too large for the tier"];
    sr_Omissions := [] |};
  ci_ExecutionContract := sample_component "contract" KindExecutionContract TierRequired "execute";
  ci_OutputContract := sample_component "output" KindOutputContract TierRequired "return json";
  ci_Budget := {| ab_TotalBytes := 64; ab_RequiredBytes := 32; ab_ImportantBytes := 16; ab_OptionalBytes := 16 |} |}.

Example sample_contents :
  match @CompileContextV2 constant_digest sample_compilation with
  | Ok out => map (fun c => (co_ID c, co_Content c)) (en_Components (cv_Envelope out)) =
      [("contract", "execute"); ("task", "do the work"); ("dep.long", "ong to be kept"); ("dep.short", "ok"); ("output", "return json")] /\
      map om_ComponentID (en_Omissions (cv_Envelope out)) = ["mem.1"]
  | Err _ => False
  end.
Proof. vm_compute. split; reflexivity. Qed.

Lemma compile_places_every_source_witness :
  exists out, @CompileContextV2 constant_digest sample_compilation = Ok out /\
    sumBytes (in_tier TierImportant (en_Components (cv_Envelope out))) <= 16 /\
    sumBytes (en_Components (cv_Envelope out)) <= 64.
Proof.
  destruct (@CompileContextV2 constant_digest sample_compilation) as [out|e] eqn:E.
  - exists out. split; [reflexivity|].
    destruct (@compile_places_every_source constant_digest sample_compilation out E)
      as (? & ? & ? & _ & _ & _ & _ & _ & (_ & Himp & _) & Hsum).
    exact (conj Himp Hsum).
  - exfalso. revert E. vm_compute. discriminate.
Defined.

Lemma compile_succeeds_witness : exists out, @CompileContextV2 constant_digest sample_compilation = Ok out.
Proof.
  apply (@compile_succeeds constant_digest sample_compilation). constructor.
  - vm_compute. reflexivity.
  - vm_compute. split; reflexivity.
  - vm_compute. split; discriminate.
  - repeat (apply Forall_cons; split; [vm_compute; repeat split; discriminate|]). constructor.
  - constructor.
  - vm_compute. reflexivity.
  - vm_compute. reflexivity.
  - apply (bool_decide_eq_true_1 _). vm_compute. reflexivity.
  - vm_compute. discriminate.
  - apply (bool_decide_eq_true_1 _). vm_compute. reflexivity.
  - vm_compute. discriminate.
Defined.
