(* ===== verification/Backend.v ===== *)
(** * The contract of Agent backends

    internal/backend/backend.go: execution handles, results, observations and
    cancellations as a Driver reports them, and their validators. *)

From S2P Require Import Prelude GoText Json Workflow.
#[local] Open Scope string_scope.
#[local] Open Scope list_scope.
#[local] Open Scope Z_scope.

Definition MaxExecutionHandleDataSize := 64 * 1024.

(** A nil json.RawMessage is the empty string: only its length is tested. *)
Record ExecutionHandle := {
  eh_Driver : string; eh_Target : string; eh_Backend : string; eh_SchemaVersion : Z; eh_ID : string; eh_Data : string }.
#[export] Instance ExecutionHandle_eq_dec : EqDecision ExecutionHandle.
Proof. solve_decision. Defined.

Definition DriverName (handle : ExecutionHandle) : string :=
  if trim_space (eh_Driver handle) ≠s "" then eh_Driver handle else eh_Backend handle.

Definition SideEffectNone := "none".
Definition SideEffectUnknown := "unknown".
Definition FailureModelUnavailablePreExecution := "model_unavailable_pre_execution".

Record BackendQuestion := { bq_ID : string; bq_Prompt : string; bq_Choices : list string; bq_Required : bool }.

Record AgentResult := {
  ar_Status : string; ar_Summary : string; ar_Artifacts : option (list string); ar_Warnings : option (list string);
  ar_Checks : option (list string); ar_Questions : list BackendQuestion; ar_InputTokensEstimated : Z;
  ar_OutputTokensEstimated : Z; ar_SideEffectStatus : string; ar_FailureClass : string }.

Definition ObservationActive := "active".
Definition ObservationWaitingInput := "waiting_input".
Definition ObservationResultPending := "result_pending".
Definition ObservationTerminal := "terminal".
Definition ObservationLost := "lost".

Record ExecutionObservation := { ob_State : string; ob_Result : option AgentResult; ob_Diagnostic : string }.

Definition CancelConfirmed := "confirmed".
Definition CancelNotConfirmed := "not_confirmed".
Record CancelResult := { ca_State : string; ca_Diagnostic : string }.

Inductive BackendError :=
| ErrHandleBackend | ErrHandleVersion | ErrHandleID | ErrHandleTooLarge | ErrHandleNotJSON | ErrHandleNotObject
| ErrResultStatus (status : string) | ErrResultSummary | ErrQuestionsRequired | ErrQuestionsUnexpected
| ErrQuestionsTooMany | ErrQuestionIncomplete | ErrQuestionDuplicate (id : string) | ErrChoicesTooMany
| ErrUsageNegative | ErrSideEffectStatus (status : string) | ErrFailureClassStatus | ErrFailureClass (class : string)
| ErrFailureClassEffects | ErrObservationResult (state : string) | ErrTerminalResult | ErrObservationState (state : string)
| ErrCancelState (state : string).

Definition ValidateExecutionHandle (handle : ExecutionHandle) : result BackendError unit :=
  fail_if trim_space (DriverName handle) =s "" with ErrHandleBackend ;;
  fail_if eh_SchemaVersion handle <? 1 with ErrHandleVersion ;;
  fail_if trim_space (eh_ID handle) =s "" with ErrHandleID ;;
  fail_if MaxExecutionHandleDataSize <? len (eh_Data handle) with ErrHandleTooLarge ;;
  if len (eh_Data handle) =? 0 then Ok tt else
  fail_if negb (json_valid (eh_Data handle)) with ErrHandleNotJSON ;;
  fail_if negb (json_decodes_object (eh_Data handle)) with ErrHandleNotObject ;;
  Ok tt.

Definition validate_question (seen : gset string) (question : BackendQuestion) : result BackendError (gset string) :=
  fail_if (trim_space (bq_ID question) =s "") || (trim_space (bq_Prompt question) =s "") with ErrQuestionIncomplete ;;
  fail_if seen_in (bq_ID question) seen with ErrQuestionDuplicate (bq_ID question) ;;
  fail_if 256 <? len_slice (bq_Choices question) with ErrChoicesTooMany ;;
  Ok ({[bq_ID question]} ∪ seen).

Definition ValidateAgentResult (result : AgentResult) : Prelude.result BackendError unit :=
  fail_if negb (contains_string ["succeeded"; "failed"; "needs_input"; "indeterminate"] (ar_Status result))
    with ErrResultStatus (ar_Status result) ;;
  fail_if trim_space (ar_Summary result) =s "" with ErrResultSummary ;;
  fail_if (ar_Status result =s "needs_input") && (len_slice (ar_Questions result) =? 0) with ErrQuestionsRequired ;;
  fail_if (ar_Status result ≠s "needs_input") && (0 <? len_slice (ar_Questions result)) with ErrQuestionsUnexpected ;;
  fail_if 32 <? len_slice (ar_Questions result) with ErrQuestionsTooMany ;;
  _ ← range_loop validate_question ∅ (ar_Questions result);
  fail_if (ar_InputTokensEstimated result <? 0) || (ar_OutputTokensEstimated result <? 0) with ErrUsageNegative ;;
  fail_if (ar_SideEffectStatus result ≠s "") && (ar_SideEffectStatus result ≠s SideEffectNone) &&
          (ar_SideEffectStatus result ≠s SideEffectUnknown) with ErrSideEffectStatus (ar_SideEffectStatus result) ;;
  if ar_FailureClass result =s "" then Ok tt else
  fail_if ar_Status result ≠s "failed" with ErrFailureClassStatus ;;
  fail_if ar_FailureClass result ≠s FailureModelUnavailablePreExecution with ErrFailureClass (ar_FailureClass result) ;;
  fail_if ar_SideEffectStatus result ≠s SideEffectNone with ErrFailureClassEffects ;;
  Ok tt.

Definition ValidateExecutionObservation (observation : ExecutionObservation) : result BackendError unit :=
  if contains_string [ObservationActive; ObservationWaitingInput; ObservationResultPending; ObservationLost] (ob_State observation) then
    match ob_Result observation with
    | Some _ => Err (ErrObservationResult (ob_State observation))
    | None => Ok tt
    end
  else if ob_State observation =s ObservationTerminal then
    match ob_Result observation with
    | None => Err ErrTerminalResult
    | Some result => ValidateAgentResult result
    end
  else Err (ErrObservationState (ob_State observation)).

(** The texts of the errors *)
Definition BackendError_Error (e : BackendError) : string :=
  match e with
  | ErrResultStatus status => "unsupported Agent result status " +:+ quoted status
  | ErrResultSummary => "Agent result summary is required"
  | ErrQuestionsRequired => "needs_input result requires at least one question"
  | ErrQuestionsUnexpected => "only needs_input result may carry questions"
  | ErrQuestionsTooMany => "Agent result questions exceed 32 items"
  | ErrQuestionIncomplete => "Agent input question identity is incomplete"
  | ErrQuestionDuplicate id => "Agent input question ID " +:+ quoted id +:+ " is duplicated"
  | ErrChoicesTooMany => "Agent input question choices exceed 256 items"
  | ErrUsageNegative => "Agent result usage cannot be negative"
  | ErrSideEffectStatus status => "unsupported side-effect status " +:+ quoted status
  | ErrFailureClassStatus => "only failed Agent results may carry a failure class"
  | ErrFailureClass class => "unsupported Agent failure class " +:+ quoted class
  | ErrFailureClassEffects => "model-unavailable pre-execution failure requires no side effects"
  | ErrObservationResult state => "observation state " +:+ quoted state +:+ " cannot carry a terminal result"
  | ErrTerminalResult => "terminal observation requires an Agent result"
  | ErrObservationState state => "unsupported observation state " +:+ quoted state
  | ErrCancelState state => "unsupported cancel state " +:+ quoted state
  | ErrHandleBackend => "handle backend is required"
  | ErrHandleVersion => "handle schema version must be positive"
  | ErrHandleID => "handle ID is required"
  | ErrHandleTooLarge => "handle data exceeds 65536 bytes"
  | ErrHandleNotJSON => "handle data is not valid JSON"
  | ErrHandleNotObject => "handle data must be a JSON object"
  end.

Definition ValidateCancelResult (result : CancelResult) : Prelude.result BackendError unit :=
  fail_if negb (contains_string [CancelConfirmed; CancelNotConfirmed] (ca_State result)) with ErrCancelState (ca_State result) ;;
  Ok tt.
