(* ===== verification/RunState.v ===== *)
(** * The durable state of a run

    internal/run/lifecycle.go, model of the snapshots of a run, its nodes and
    their attempts with the validators that every read and write goes
    through; internal/run/m4_compat.go and the small helpers of service.go on
    snapshots.  Phases, conclusions and reasons are the strings of the code.
    Times are integers.  The fields of type contextcompiler.Manifest are not
    read by this package and are left out. *)

From S2P Require Import Prelude GoText Routing Resolver Catalog Workflow Context Backend.
#[local] Open Scope string_scope.
#[local] Open Scope list_scope.
#[local] Open Scope Z_scope.

Definition protocolVersion := 2.
Definition stateSchemaVersion := 3.
Definition maxActionReceipts : nat := 256.

Definition PhaseCreated := "created".
Definition PhaseRunning := "running".
Definition PhaseWaiting := "waiting".
Definition PhasePaused := "paused".
Definition PhaseCancelling := "cancelling".
Definition PhaseCompleted := "completed".

Definition NodePhasePending := "pending".
Definition NodePhaseReady := "ready".
Definition NodePhaseRunning := "running".
Definition NodePhaseWaiting := "waiting".
Definition NodePhaseCompleted := "completed".
Definition NodePhaseSkipped := "skipped".

Definition ConclusionSucceeded := "succeeded".
Definition ConclusionFailed := "failed".
Definition ConclusionCancelled := "cancelled".
Definition ConclusionRejected := "rejected".
Definition ConclusionIndeterminate := "indeterminate".

Definition ReasonApprovalRequired := "approval_required".
Definition ReasonAgentWaitingInput := "agent_waiting_input".
Definition ReasonCompletionMissing := "completion_missing".
Definition ReasonInvalidResult := "invalid_result".
Definition ReasonCancelFailed := "cancel_failed".
Definition ReasonConditionFalse := "condition_false".
Definition ReasonUpstreamFailed := "upstream_failed".
Definition ReasonFailurePolicy := "failure_policy".
Definition ReasonWorkflowCancelled := "workflow_cancelled".
Definition ReasonControllerDetach := "controller_detached".
Definition ReasonUserRequested := "user_requested".

Definition LaunchPrepared := "prepared".
Definition LaunchDispatching := "dispatching".
Definition LaunchHandlePersisted := "handle_persisted".
Definition LaunchFinishedWithoutHandle := "finished_without_handle".

Definition validPhase (phase : string) : bool :=
  contains_string [PhaseCreated; PhaseRunning; PhaseWaiting; PhasePaused; PhaseCancelling; PhaseCompleted] phase.
Definition validNodePhase (phase : string) : bool :=
  contains_string [NodePhasePending; NodePhaseReady; NodePhaseRunning; NodePhaseWaiting; NodePhaseCompleted; NodePhaseSkipped] phase.
Definition validConclusion (conclusion : string) : bool :=
  contains_string [ConclusionSucceeded; ConclusionFailed; ConclusionCancelled; ConclusionRejected; ConclusionIndeterminate] conclusion.
Definition validReason (reason : string) : bool :=
  contains_string [ReasonApprovalRequired; ReasonAgentWaitingInput; ReasonCompletionMissing; ReasonInvalidResult;
    ReasonCancelFailed; ReasonConditionFalse; ReasonUpstreamFailed; ReasonFailurePolicy; ReasonWorkflowCancelled;
    ReasonControllerDetach; ReasonUserRequested] reason.

(** ** Snapshots *)

Record ActionReceipt := {
  rc_ActionID : string; rc_RequestHash : string; rc_StateVersion : Z; rc_Phase : string; rc_Conclusion : string }.
#[export] Instance ActionReceipt_eq_dec : EqDecision ActionReceipt.
Proof. solve_decision. Defined.

Record NodeSummary := {
  sm_ID : string; sm_Type : string; sm_Phase : string; sm_Conclusion : string; sm_Reason : string;
  sm_Diagnostic : string; sm_CurrentAttempt : Z }.
#[export] Instance NodeSummary_eq_dec : EqDecision NodeSummary.
Proof. solve_decision. Defined.

Record WorkflowSnapshot := {
  ws_ProtocolVersion : Z; ws_StateSchemaVersion : Z; ws_StateVersion : Z; ws_ID : string; ws_WorkflowName : string;
  ws_Project : string; ws_ResolvedDriver : string; ws_ResolvedTarget : string; ws_DeprecationWarnings : list string;
  ws_Backend : string; ws_EffectiveConcurrency : Z; ws_Phase : string; ws_Conclusion : string; ws_Reason : string;
  ws_Summary : string; ws_Inputs : gmap string any; ws_TopologicalOrder : list string;
  ws_Nodes : gmap string NodeSummary; ws_ActiveNodeID : string; ws_CancelRequested : bool;
  ws_ActionReceipts : gmap string ActionReceipt; ws_StateDir : string; ws_CreatedAt : Z; ws_UpdatedAt : Z }.

Record NodeSnapshot := {
  ns_ProtocolVersion : Z; ns_StateSchemaVersion : Z; ns_RunID : string; ns_ID : string; ns_Type : string;
  ns_Phase : string; ns_Conclusion : string; ns_Reason : string; ns_Diagnostic : string; ns_Result : option Result;
  ns_PendingInputAnswer : option string; ns_PendingRoutingTarget : option Target; ns_CurrentAttempt : Z;
  ns_CreatedAt : Z; ns_UpdatedAt : Z }.
#[export] Instance NodeSnapshot_eq_dec : EqDecision NodeSnapshot.
Proof. solve_decision. Defined.

Record MemoryUsageReceipt := {
  mu_SchemaVersion : string; mu_MutationID : string; mu_RecordIDs : list string; mu_Committed : bool }.

Record AttemptSnapshot := {
  at_ProtocolVersion : Z; at_StateSchemaVersion : Z; at_RunID : string; at_NodeID : string; at_Number : Z;
  at_Phase : string; at_Conclusion : string; at_Reason : string; at_ResolvedDriver : string; at_ResolvedTarget : string;
  at_Backend : string; at_LaunchState : string; at_Execution : option ExecutionHandle; at_ResultConsumed : bool;
  at_ContextCompilerVersion : string; at_ContextCompilerVersionV2 : string;
  at_ContextManifestV2 : option ContextManifestV2; at_ContextHash : string;
  at_RoutingDecision : option RoutingDecisionV1; at_ExecutionProfile : option ExecutionProfileV1;
  at_RoutingUsage : option RoutingUsageV1; at_SideEffectStatus : string; at_FailureClass : string;
  at_MemoryUsage : option MemoryUsageReceipt; at_PromptHash : string; at_StartedAt : Z; at_UpdatedAt : Z;
  at_CompletedAt : option Z }.

Record WorkflowEvent := {
  ev_ProtocolVersion : Z; ev_RunID : string; ev_Sequence : Z; ev_Type : string; ev_Phase : string;
  ev_Conclusion : string; ev_Reason : string; ev_NodeID : string; ev_NodePhase : string; ev_Message : string;
  ev_Timestamp : Z }.

(** ** Compatibility names (m4_compat.go) *)

Definition runDriver (snapshot : WorkflowSnapshot) : string :=
  if ws_ResolvedDriver snapshot ≠s "" then ws_ResolvedDriver snapshot else ws_Backend snapshot.
Definition runTarget (snapshot : WorkflowSnapshot) : string :=
  if ws_ResolvedTarget snapshot ≠s "" then ws_ResolvedTarget snapshot else "local".
Definition attemptDriver (snapshot : AttemptSnapshot) : string :=
  if at_ResolvedDriver snapshot ≠s "" then at_ResolvedDriver snapshot else at_Backend snapshot.
Definition attemptTarget (snapshot : AttemptSnapshot) : string :=
  if at_ResolvedTarget snapshot ≠s "" then at_ResolvedTarget snapshot else "local".
Definition executionTarget (handle : ExecutionHandle) : string :=
  if eh_Target handle ≠s "" then eh_Target handle else "local".

(** ** Validators *)

Inductive SnapshotError :=
| ErrStateSchema (kind : string) (version : Z)
| ErrRunPhase (phase : string) | ErrRunConclusion (conclusion : string) | ErrRunReason (reason : string)
| ErrRunInconsistent (phase conclusion : string) | ErrRunActiveReason (phase reason : string)
| ErrReceipt (id : string) | ErrReceiptConclusion (id : string)
| ErrNodePhase (phase : string) | ErrNodeConclusion (conclusion : string) | ErrNodeReason (reason : string)
| ErrNodeNoConclusion | ErrNodeActiveConclusion (phase conclusion : string) | ErrNodeSkippedReason
| ErrPendingTarget (e : ContractError) | ErrPendingTargetState
| ErrAttemptNumber | ErrAttemptPhase (phase : string) | ErrAttemptConclusion (conclusion : string)
| ErrAttemptReason (reason : string) | ErrAttemptNoConclusion | ErrAttemptActiveConclusion (conclusion : string)
| ErrAttemptWaitingReason | ErrAttemptAlias (driver backend : string) | ErrAttemptDecision (e : ContractError)
| ErrAttemptDecisionDriver (driver selected : string) | ErrAttemptUsageDecision | ErrAttemptCatalog (hash : string)
| ErrAttemptUsage (e : ContractError) | ErrAttemptProfile (e : ProfileError) | ErrAttemptSideEffect (status : string)
| ErrAttemptFailureClass (class : string) | ErrAttemptHandle (e : BackendError)
| ErrAttemptHandleDriver (driver handle : string) | ErrAttemptHandleTarget (target handle : string)
| ErrAttemptLaunchState (state : string) | ErrMemoryLegacy | ErrMemorySchema | ErrMemoryMutation | ErrMemoryRecords
| ErrMemoryRecordID | ErrMemoryMismatch.

Definition validateStateSchemaVersion (version : Z) (kind : string) : result SnapshotError unit :=
  fail_if (version <? 0) || (stateSchemaVersion <? version) with ErrStateSchema kind version ;; Ok tt.

Definition validate_receipt (stateVersion : Z) (actionID : string) (receipt : ActionReceipt) : result SnapshotError unit :=
  fail_if (actionID =s "") || (rc_ActionID receipt ≠s actionID) || (rc_RequestHash receipt =s "") ||
          (rc_StateVersion receipt =? 0) || (stateVersion <? rc_StateVersion receipt) || negb (validPhase (rc_Phase receipt))
    with ErrReceipt actionID ;;
  fail_if negb (Bool.eqb (rc_Phase receipt =s PhaseCompleted) (rc_Conclusion receipt ≠s "")) ||
          ((rc_Conclusion receipt ≠s "") && negb (validConclusion (rc_Conclusion receipt)))
    with ErrReceiptConclusion actionID ;;
  Ok tt.

Definition ValidateWorkflowSnapshot `{GoRange} (snapshot : WorkflowSnapshot) : result SnapshotError unit :=
  let phase := ws_Phase snapshot in
  let conclusion := ws_Conclusion snapshot in
  let reason := ws_Reason snapshot in
  _ ← validateStateSchemaVersion (ws_StateSchemaVersion snapshot) "run";
  fail_if negb (validPhase phase) with ErrRunPhase phase ;;
  fail_if (conclusion ≠s "") && negb (validConclusion conclusion) with ErrRunConclusion conclusion ;;
  fail_if (reason ≠s "") && negb (validReason reason) with ErrRunReason reason ;;
  let terminal := phase =s PhaseCompleted in
  fail_if negb (Bool.eqb terminal (conclusion ≠s "")) with ErrRunInconsistent phase conclusion ;;
  fail_if (phase ≠s PhaseWaiting) && (phase ≠s PhasePaused) && (phase ≠s PhaseCancelling) && (reason ≠s "") && negb terminal
    with ErrRunActiveReason phase reason ;;
  range_loop (fun _ '(actionID, receipt) => validate_receipt (ws_StateVersion snapshot) actionID receipt)
    tt (go_range "ValidateWorkflowSnapshot" (ws_ActionReceipts snapshot)).

Definition ValidateNodeSnapshot (snapshot : NodeSnapshot) : result SnapshotError unit :=
  let phase := ns_Phase snapshot in
  let conclusion := ns_Conclusion snapshot in
  let reason := ns_Reason snapshot in
  _ ← validateStateSchemaVersion (ns_StateSchemaVersion snapshot) "node";
  fail_if negb (validNodePhase phase) with ErrNodePhase phase ;;
  fail_if (conclusion ≠s "") && negb (validConclusion conclusion) with ErrNodeConclusion conclusion ;;
  fail_if (reason ≠s "") && negb (validReason reason) with ErrNodeReason reason ;;
  fail_if (phase =s NodePhaseCompleted) && (conclusion =s "") with ErrNodeNoConclusion ;;
  fail_if (phase ≠s NodePhaseCompleted) && (conclusion ≠s "") with ErrNodeActiveConclusion phase conclusion ;;
  fail_if (phase =s NodePhaseSkipped) && (reason =s "") with ErrNodeSkippedReason ;;
  match ns_PendingRoutingTarget snapshot with
  | None => Ok tt
  | Some target =>
      _ ← rmap_err ErrPendingTarget (ValidateTarget target);
      fail_if (phase ≠s NodePhaseReady) || (ns_Type snapshot ≠s "agent") || (ns_CurrentAttempt snapshot <? 1)
        with ErrPendingTargetState ;;
      Ok tt
  end.

(** The sorted ids of the Memory components of a manifest *)
Definition included_memory (manifest : ContextManifestV2) : list string :=
  sort_strings (map cm_ID (base.filter (fun c => cm_Kind c = KindMemory) (mf_Components manifest))).

Definition strings_are_sorted (l : list string) : bool := bool_decide (sort_strings l = l).

Definition validateAttemptMemoryUsage (snapshot : AttemptSnapshot) : result SnapshotError unit :=
  match at_MemoryUsage snapshot with
  | None => Ok tt
  | Some usage =>
      match at_ContextManifestV2 snapshot with
      | None => Err ErrMemoryLegacy
      | Some manifest =>
          fail_if at_ContextCompilerVersionV2 snapshot ≠s CompilerV2Version with ErrMemoryLegacy ;;
          fail_if (mu_SchemaVersion usage ≠s "fishyume.memory-usage/v1") || negb (mu_Committed usage) with ErrMemorySchema ;;
          fail_if negb (valid_utf8 (mu_MutationID usage)) || unclean (mu_MutationID usage) || (256 <? len (mu_MutationID usage))
            with ErrMemoryMutation ;;
          fail_if (len_slice (mu_RecordIDs usage) <? 1) || (MaxSelectedMemoryRecords <? len_slice (mu_RecordIDs usage)) ||
                  negb (strings_are_sorted (mu_RecordIDs usage)) with ErrMemoryRecords ;;
          _ ← range_loop (fun previous id =>
                fail_if negb (valid_utf8 id) || unclean id || (128 <? len id) ||
                        match previous with Some p => p =s id | None => false end
                  with ErrMemoryRecordID ;;
                Ok (Some id))
              None (mu_RecordIDs usage);
          fail_if negb (bool_decide (included_memory manifest = mu_RecordIDs usage)) with ErrMemoryMismatch ;;
          Ok tt
      end
  end.

Section Attempts.
(** routing.CatalogProvider: what ValidateAttemptSnapshotWithCatalogs uses of it *)
Context `{CatalogDigest} (CatalogByHash : string -> option CapabilityCatalogV1).

Definition ValidateAttemptSnapshotWithCatalogs (snapshot : AttemptSnapshot) : result SnapshotError unit :=
  let phase := at_Phase snapshot in
  let conclusion := at_Conclusion snapshot in
  let reason := at_Reason snapshot in
  _ ← validateStateSchemaVersion (at_StateSchemaVersion snapshot) "Attempt";
  fail_if at_Number snapshot <? 1 with ErrAttemptNumber ;;
  fail_if (phase ≠s NodePhaseRunning) && (phase ≠s NodePhaseWaiting) && (phase ≠s NodePhaseCompleted) with ErrAttemptPhase phase ;;
  fail_if (conclusion ≠s "") && negb (validConclusion conclusion) with ErrAttemptConclusion conclusion ;;
  fail_if (reason ≠s "") && negb (validReason reason) with ErrAttemptReason reason ;;
  fail_if (phase =s NodePhaseCompleted) && (conclusion =s "") with ErrAttemptNoConclusion ;;
  fail_if (phase ≠s NodePhaseCompleted) && (conclusion ≠s "") with ErrAttemptActiveConclusion conclusion ;;
  fail_if (phase =s NodePhaseWaiting) && (reason =s "") with ErrAttemptWaitingReason ;;
  fail_if (at_ResolvedDriver snapshot ≠s "") && (at_Backend snapshot ≠s "") && (at_ResolvedDriver snapshot ≠s at_Backend snapshot)
    with ErrAttemptAlias (at_ResolvedDriver snapshot) (at_Backend snapshot) ;;
  _ ← match at_RoutingDecision snapshot with
      | None => Ok tt
      | Some decision =>
          _ ← rmap_err ErrAttemptDecision (ValidateDecision decision);
          fail_if (at_ResolvedDriver snapshot ≠s "") && (Driver (rd_Selected decision) ≠s at_ResolvedDriver snapshot)
            with ErrAttemptDecisionDriver (at_ResolvedDriver snapshot) (Driver (rd_Selected decision)) ;;
          Ok tt
      end;
  _ ← match at_RoutingUsage snapshot with
      | None => Ok tt
      | Some usage =>
          match at_RoutingDecision snapshot with
          | None => Err ErrAttemptUsageDecision
          | Some decision =>
              match CatalogByHash (rd_CatalogHash decision) with
              | None => Err (ErrAttemptCatalog (rd_CatalogHash decision))
              | Some catalog => rmap_err ErrAttemptUsage (ValidateRoutingUsageForDecision catalog decision usage)
              end
          end
      end;
  _ ← match at_ExecutionProfile snapshot with
      | None => Ok tt
      | Some profile => rmap_err ErrAttemptProfile (ValidateExecutionProfile profile (at_RoutingDecision snapshot))
      end;
  fail_if (at_SideEffectStatus snapshot ≠s "") && (at_SideEffectStatus snapshot ≠s SideEffectNone) &&
          (at_SideEffectStatus snapshot ≠s SideEffectUnknown) with ErrAttemptSideEffect (at_SideEffectStatus snapshot) ;;
  fail_if (at_FailureClass snapshot ≠s "") &&
          ((conclusion ≠s ConclusionFailed) || (at_FailureClass snapshot ≠s FailureModelUnavailablePreExecution) ||
           (at_SideEffectStatus snapshot ≠s SideEffectNone)) with ErrAttemptFailureClass (at_FailureClass snapshot) ;;
  _ ← match at_Execution snapshot with
      | None => Ok tt
      | Some handle =>
          _ ← rmap_err ErrAttemptHandle (ValidateExecutionHandle handle);
          fail_if DriverName handle ≠s attemptDriver snapshot
            with ErrAttemptHandleDriver (attemptDriver snapshot) (DriverName handle) ;;
          fail_if executionTarget handle ≠s attemptTarget snapshot
            with ErrAttemptHandleTarget (attemptTarget snapshot) (executionTarget handle) ;;
          Ok tt
      end;
  fail_if (at_LaunchState snapshot ≠s "") &&
          negb (contains_string [LaunchPrepared; LaunchDispatching; LaunchHandlePersisted; LaunchFinishedWithoutHandle] (at_LaunchState snapshot))
    with ErrAttemptLaunchState (at_LaunchState snapshot) ;;
  validateAttemptMemoryUsage snapshot.
End Attempts.

(** ** Helpers of service.go *)

Definition summarizeNode (node : NodeSnapshot) : NodeSummary := {|
  sm_ID := ns_ID node; sm_Type := ns_Type node; sm_Phase := ns_Phase node; sm_Conclusion := ns_Conclusion node;
  sm_Reason := ns_Reason node; sm_Diagnostic := ns_Diagnostic node; sm_CurrentAttempt := ns_CurrentAttempt node |}.

(** findNode: the index of the node in the slice *)
Fixpoint findNode (nodes : list NodeSnapshot) (nodeID : string) : option (nat * NodeSnapshot) :=
  match nodes with
  | [] => None
  | node :: nodes' =>
      if ns_ID node =s nodeID then Some (0%nat, node)
      else match findNode nodes' nodeID with Some (i, n) => Some (S i, n) | None => None end
  end.

Definition findActiveNode (nodes : list NodeSnapshot) : option NodeSnapshot :=
  match list_find (fun node => (ns_Phase node =s NodePhaseRunning) ||
                               ((ns_Phase node =s NodePhaseWaiting) && (ns_Type node =s "agent")) = true) nodes with
  | Some (_, node) => Some node
  | None => None
  end.

Fixpoint mentionsRejected (condition : Condition) : bool :=
  match condition with
  | mkCondition node field equals all any not =>
      ((node ≠s "") && (field =s "result.decision") && match equals with AString s | ANumber s => s =s "rejected" | _ => false end) ||
      match all with Some l => existsb mentionsRejected l | None => false end ||
      match any with Some l => existsb mentionsRejected l | None => false end ||
      match not with Some c => mentionsRejected c | None => false end
  end.

(** A failed, indeterminate or cancelled conclusion *)
Definition failing (conclusion : string) : bool :=
  (conclusion =s ConclusionFailed) || (conclusion =s ConclusionIndeterminate) || (conclusion =s ConclusionCancelled).

Definition zero_snapshot : NodeSnapshot := {|
  ns_ProtocolVersion := 0; ns_StateSchemaVersion := 0; ns_RunID := ""; ns_ID := ""; ns_Type := ""; ns_Phase := "";
  ns_Conclusion := ""; ns_Reason := ""; ns_Diagnostic := ""; ns_Result := None; ns_PendingInputAnswer := None;
  ns_PendingRoutingTarget := None; ns_CurrentAttempt := 0; ns_CreatedAt := 0; ns_UpdatedAt := 0 |}.

(** A map built from the slice, a later element replacing an earlier one *)
Definition by_id {A} (f : NodeSnapshot -> option A) (nodes : list NodeSnapshot) : gmap string A :=
  foldl (fun m node => match f node with Some a => <[ns_ID node := a]> m | None => m end) ∅ nodes.

(** Does [f] hold of an entry that a range over the document meets? *)
Definition hasEligibleRejectedBranch `{GoRange} (doc : Document) (nodes : list NodeSnapshot) : bool :=
  let state := by_id Some nodes in
  existsb (fun '(id, definition) =>
      match n_When definition with
      | Some condition =>
          mentionsRejected condition && (ns_Reason (default zero_snapshot (state !! id)) ≠s ReasonConditionFalse)
      | None => false
      end)
    (go_range "hasEligibleRejectedBranch" (d_Nodes doc)).

(** parallel_launch.go *)
Fixpoint conclude (conclusion : string) (nodes : list NodeSnapshot) : string + string :=
  match nodes with
  | [] => inl conclusion
  | node :: nodes' =>
      if ns_Conclusion node =s ConclusionFailed then inr ConclusionFailed
      else
        let conclusion := if ns_Conclusion node =s ConclusionIndeterminate then ConclusionIndeterminate else conclusion in
        let conclusion := if (ns_Conclusion node =s ConclusionRejected) && (conclusion =s ConclusionSucceeded)
                          then ConclusionRejected else conclusion in
        conclude conclusion nodes'
  end.

Definition aggregateConclusion `{GoRange} (nodes : list NodeSnapshot) (doc : Document) : string * string :=
  match conclude ConclusionSucceeded nodes with
  | inr conclusion => (conclusion, ReasonUpstreamFailed)
  | inl conclusion =>
      if (conclusion =s ConclusionRejected) && hasEligibleRejectedBranch doc nodes
      then (ConclusionSucceeded, "") else (conclusion, "")
  end.

(** ** Aggregation (aggregation.go) *)

(** The assignment to the six fields of a run that the engine updates together *)
Definition set_run (run : WorkflowSnapshot) (phase conclusion reason active summary : string) (now : Z) : WorkflowSnapshot := {|
  ws_ProtocolVersion := ws_ProtocolVersion run; ws_StateSchemaVersion := ws_StateSchemaVersion run;
  ws_StateVersion := ws_StateVersion run; ws_ID := ws_ID run; ws_WorkflowName := ws_WorkflowName run;
  ws_Project := ws_Project run; ws_ResolvedDriver := ws_ResolvedDriver run; ws_ResolvedTarget := ws_ResolvedTarget run;
  ws_DeprecationWarnings := ws_DeprecationWarnings run; ws_Backend := ws_Backend run;
  ws_EffectiveConcurrency := ws_EffectiveConcurrency run; ws_Phase := phase; ws_Conclusion := conclusion;
  ws_Reason := reason; ws_Summary := summary; ws_Inputs := ws_Inputs run;
  ws_TopologicalOrder := ws_TopologicalOrder run; ws_Nodes := ws_Nodes run; ws_ActiveNodeID := active;
  ws_CancelRequested := ws_CancelRequested run; ws_ActionReceipts := ws_ActionReceipts run;
  ws_StateDir := ws_StateDir run; ws_CreatedAt := ws_CreatedAt run; ws_UpdatedAt := now |}.

Definition aggregateRunStateChanged (before after : WorkflowSnapshot) : bool :=
  (ws_Phase before ≠s ws_Phase after) || (ws_Conclusion before ≠s ws_Conclusion after) ||
  (ws_Reason before ≠s ws_Reason after) || (ws_Summary before ≠s ws_Summary after) ||
  (ws_ActiveNodeID before ≠s ws_ActiveNodeID after).

(** The variables of the loop of aggregateRunState *)
Record aggregate := {
  ag_activeRunning : Z; ag_waitingAgents : list NodeSnapshot; ag_waitingApprovals : list NodeSnapshot;
  ag_pending : Z; ag_failure : bool; ag_activeIDs : list string }.
Definition aggregate_start : aggregate := {|
  ag_activeRunning := 0; ag_waitingAgents := []; ag_waitingApprovals := []; ag_pending := 0;
  ag_failure := false; ag_activeIDs := [] |}.

Definition aggregate_node (s : aggregate) (node : NodeSnapshot) : aggregate :=
  let running := ns_Phase node =s NodePhaseRunning in
  let waiting := ns_Phase node =s NodePhaseWaiting in
  let is_agent := ns_Type node =s "agent" in
  {| ag_activeRunning := ag_activeRunning s + (if running && is_agent then 1 else 0);
     ag_waitingAgents := ag_waitingAgents s ++ (if waiting && is_agent then [node] else []);
     ag_waitingApprovals := ag_waitingApprovals s ++ (if waiting && negb is_agent then [node] else []);
     ag_pending := ag_pending s + (if (ns_Phase node =s NodePhasePending) || (ns_Phase node =s NodePhaseReady) then 1 else 0);
     ag_failure := ag_failure s || ((ns_Phase node =s NodePhaseCompleted) && failing (ns_Conclusion node));
     ag_activeIDs := ag_activeIDs s ++ (if (running && is_agent) || waiting then [ns_ID node] else []) |}.

(** The updated run, the event type and whether the controller stops *)
Definition aggregateRunState `{GoRange} (run : WorkflowSnapshot) (nodes : list NodeSnapshot) (doc : Document) (now : Z)
    : WorkflowSnapshot * string * bool :=
  let s := foldl aggregate_node aggregate_start nodes in
  let compatActive := match ag_activeIDs s with [id] => id | _ => "" end in
  if 0 <? ag_activeRunning s then
    let summary := if ag_failure s then "workflow failure detected; draining active sibling executions" else ws_Summary run in
    (set_run run PhaseRunning "" "" compatActive summary now, "run.running", false)
  else match ag_waitingAgents s with
  | node :: _ =>
      let summary := if ns_Diagnostic node =s "" then "Agent execution is waiting" else ns_Diagnostic node in
      (set_run run PhaseWaiting "" (ns_Reason node) compatActive summary now, "run.waiting", true)
  | [] =>
  match ag_waitingApprovals s with
  | node :: _ =>
      let summary := if ns_Diagnostic node =s "" then "approval required" else ns_Diagnostic node in
      (set_run run PhaseWaiting "" ReasonApprovalRequired compatActive summary now, "run.waiting", true)
  | [] =>
  if 0 <? ag_pending s then (set_run run PhaseRunning "" "" compatActive (ws_Summary run) now, "run.running", false)
  else
    let '(conclusion, reason) := aggregateConclusion nodes doc in
    (set_run run PhaseCompleted conclusion reason "" "workflow completed" now, "run.completed", true)
  end end.
