(* ===== verification/Scheduler.v ===== *)
(** * The scheduler

    internal/run/scheduler.go: the pure decision which nodes of a run start,
    wait for approval or are skipped next. *)

From S2P Require Import Prelude GoText Routing Workflow Topology Template Backend RunState.
#[local] Open Scope string_scope.
#[local] Open Scope list_scope.
#[local] Open Scope Z_scope.

Definition FishyumeSafetyConcurrencyCeiling := 8.

Record SchedulingDecision := {
  sd_ReadyAgents : list string; sd_ReadyApprovals : list string; sd_SkipUpstream : list string;
  sd_SkipConditions : list string; sd_SkipFailurePolicy : list string; sd_EffectiveLimit : Z;
  sd_ActiveAgents : Z; sd_AvailableAgents : Z; sd_StopScheduling : bool; sd_Complete : bool }.

Inductive ScheduleError :=
| ErrWorkflowLimit | ErrBackendLimit | ErrEffectiveLimit | ErrScheduleCondition (id : string) (e : TemplateError).

Fixpoint conditionResultMissing (results : gmap string Result) (condition : Condition) : bool :=
  match condition with
  | mkCondition node _ _ all any not =>
      if node ≠s "" then match results !! node with Some _ => false | None => true end
      else match all with Some l => existsb (conditionResultMissing results) l | None => false end ||
           match any with Some l => existsb (conditionResultMissing results) l | None => false end ||
           match not with Some c => conditionResultMissing results c | None => false end
  end.

Definition EffectiveConcurrency (workflowLimit backendLimit : Z) : result ScheduleError Z :=
  fail_if workflowLimit <? 1 with ErrWorkflowLimit ;;
  fail_if backendLimit <? 0 with ErrBackendLimit ;;
  let limit := FishyumeSafetyConcurrencyCeiling in
  let limit := if workflowLimit <? limit then workflowLimit else limit in
  Ok (if (0 <? backendLimit) && (backendLimit <? limit) then backendLimit else limit).

(** What the first loop collects from the nodes *)
Definition is_active (node : NodeSnapshot) : bool :=
  (ns_Type node =s "agent") && ((ns_Phase node =s NodePhaseRunning) || (ns_Phase node =s NodePhaseWaiting)) &&
  (0 <? ns_CurrentAttempt node).
Definition has_failed (node : NodeSnapshot) : bool :=
  (ns_Phase node =s NodePhaseCompleted) && failing (ns_Conclusion node).
Definition results_of (nodes : list NodeSnapshot) : gmap string Result := by_id ns_Result nodes.
Definition active_agents (nodes : list NodeSnapshot) : Z :=
  foldl (fun active node => if is_active node then active + 1 else active) 0 nodes.

Definition finished (node : NodeSnapshot) : bool :=
  (ns_Phase node =s NodePhaseCompleted) || (ns_Phase node =s NodePhaseSkipped).
Definition fails_downstream (node : NodeSnapshot) : bool :=
  failing (ns_Conclusion node) || (ns_Reason node =s ReasonUpstreamFailed).

(** The loop over the dependencies: [None] is "not stable", otherwise whether
    one of them failed *)
Fixpoint upstream (byID : gmap string NodeSnapshot) (failed : bool) (dependencies : list string) : option bool :=
  match dependencies with
  | [] => Some failed
  | dependency :: rest =>
      let node := default zero_snapshot (byID !! dependency) in
      if negb (finished node) then None
      else upstream byID (failed || fails_downstream node) rest
  end.

Definition push_agent (d : SchedulingDecision) (id : string) : SchedulingDecision := {|
  sd_ReadyAgents := sd_ReadyAgents d ++ [id]; sd_ReadyApprovals := sd_ReadyApprovals d;
  sd_SkipUpstream := sd_SkipUpstream d; sd_SkipConditions := sd_SkipConditions d;
  sd_SkipFailurePolicy := sd_SkipFailurePolicy d; sd_EffectiveLimit := sd_EffectiveLimit d;
  sd_ActiveAgents := sd_ActiveAgents d; sd_AvailableAgents := sd_AvailableAgents d - 1;
  sd_StopScheduling := sd_StopScheduling d; sd_Complete := sd_Complete d |}.
Definition push (d : SchedulingDecision) (approvals upstream conditions policy : list string) : SchedulingDecision := {|
  sd_ReadyAgents := sd_ReadyAgents d; sd_ReadyApprovals := sd_ReadyApprovals d ++ approvals;
  sd_SkipUpstream := sd_SkipUpstream d ++ upstream; sd_SkipConditions := sd_SkipConditions d ++ conditions;
  sd_SkipFailurePolicy := sd_SkipFailurePolicy d ++ policy; sd_EffectiveLimit := sd_EffectiveLimit d;
  sd_ActiveAgents := sd_ActiveAgents d; sd_AvailableAgents := sd_AvailableAgents d;
  sd_StopScheduling := sd_StopScheduling d; sd_Complete := sd_Complete d |}.

(** The body of the loop over the topological order *)
Definition schedule_node (doc : Document) (byID : gmap string NodeSnapshot) (results : gmap string Result)
    (d : SchedulingDecision) (nodeID : string) : result ScheduleError SchedulingDecision :=
  match byID !! nodeID with
  | None => Ok d
  | Some node =>
      if sd_StopScheduling d && (ns_Type node =s "approval") && (ns_Phase node =s NodePhaseWaiting)
      then Ok (push d [] [] [] [nodeID])
      else if (ns_Phase node ≠s NodePhasePending) && (ns_Phase node ≠s NodePhaseReady) then Ok d
      else
        let definition := node_at doc nodeID in
        match upstream byID false (n_DependsOn definition) with
        | None => Ok d
        | Some upstreamFailed =>
            let place (eligibleFailureBranch : bool) :=
              if sd_StopScheduling d && negb eligibleFailureBranch then Ok (push d [] [] [] [nodeID])
              else if n_Type definition =s "approval" then Ok (push d [nodeID] [] [] [])
              else if 0 <? sd_AvailableAgents d then Ok (push_agent d nodeID)
              else Ok d in
            match n_When definition with
            | Some condition =>
                match Evaluate results condition with
                | Err e =>
                    if upstreamFailed && conditionResultMissing results condition
                    then Ok (push d [] [nodeID] [] [])
                    else Err (ErrScheduleCondition nodeID e)
                | Ok matches => if negb matches then Ok (push d [] [] [nodeID] []) else place upstreamFailed
                end
            | None => if upstreamFailed then Ok (push d [] [nodeID] [] []) else place false
            end
        end
  end.

Definition PlanSchedule (normalized : Normalized) (run : WorkflowSnapshot) (nodes : list NodeSnapshot) (backendLimit : Z)
    : result ScheduleError SchedulingDecision :=
  let doc := nz_Document normalized in
  fail_if d_MaxConcurrency doc <? 1 with ErrWorkflowLimit ;;
  fail_if backendLimit <? 0 with ErrBackendLimit ;;
  let effective := FishyumeSafetyConcurrencyCeiling in
  let effective := if d_MaxConcurrency doc <? effective then d_MaxConcurrency doc else effective in
  let effective := if (0 <? backendLimit) && (backendLimit <? effective) then backendLimit else effective in
  fail_if effective <? 1 with ErrEffectiveLimit ;;
  let byID := by_id Some nodes in
  let results := results_of nodes in
  let active := active_agents nodes in
  let failure := failing (ws_Conclusion run) || existsb has_failed nodes in
  let available := effective - active in
  let available := if available <? 0 then 0 else available in
  d ← range_loop (schedule_node doc byID results)
        {| sd_ReadyAgents := []; sd_ReadyApprovals := []; sd_SkipUpstream := []; sd_SkipConditions := [];
           sd_SkipFailurePolicy := []; sd_EffectiveLimit := effective; sd_ActiveAgents := active;
           sd_AvailableAgents := available; sd_StopScheduling := failure; sd_Complete := false |}
        (nz_TopologicalOrder normalized);
  Ok {| sd_ReadyAgents := sd_ReadyAgents d; sd_ReadyApprovals := sd_ReadyApprovals d;
        sd_SkipUpstream := sd_SkipUpstream d; sd_SkipConditions := sd_SkipConditions d;
        sd_SkipFailurePolicy := sd_SkipFailurePolicy d; sd_EffectiveLimit := sd_EffectiveLimit d;
        sd_ActiveAgents := sd_ActiveAgents d; sd_AvailableAgents := sd_AvailableAgents d;
        sd_StopScheduling := sd_StopScheduling d; sd_Complete := forallb finished nodes |}.
