(* ===== verification/SchedulerTheory.v ===== *)
(** * The scheduler: theorems

    The decision is the classification of every node by itself, the agents
    cut to the free capacity; from it follow soundness, capacity and progress. *)

From S2P Require Import Prelude GoText Routing Workflow Topology Template Backend RunState Scheduler.
#[local] Open Scope string_scope.
#[local] Open Scope list_scope.
#[local] Open Scope Z_scope.

(** ** The classification of one node *)

Inductive verdict := VNone | VSkipUpstream | VSkipCondition | VSkipPolicy | VApproval | VAgent.
#[export] Instance verdict_eq_dec : EqDecision verdict.
Proof. solve_decision. Defined.

Definition eligible_verdict (stop eligibleFailureBranch : bool) (definition : Node) : verdict :=
  if stop && negb eligibleFailureBranch then VSkipPolicy
  else if n_Type definition =s "approval" then VApproval else VAgent.

(** What becomes of a node, capacity aside *)
Definition classify (doc : Document) (byID : gmap string NodeSnapshot) (results : gmap string Result)
    (stop : bool) (nodeID : string) : result ScheduleError verdict :=
  match byID !! nodeID with
  | None => Ok VNone
  | Some node =>
      if stop && (ns_Type node =s "approval") && (ns_Phase node =s NodePhaseWaiting) then Ok VSkipPolicy
      else if (ns_Phase node ≠s NodePhasePending) && (ns_Phase node ≠s NodePhaseReady) then Ok VNone
      else match upstream byID false (depends doc nodeID) with
      | None => Ok VNone
      | Some upstreamFailed =>
          match n_When (node_at doc nodeID) with
          | Some condition =>
              match Evaluate results condition with
              | Err e => if upstreamFailed && conditionResultMissing results condition then Ok VSkipUpstream
                         else Err (ErrScheduleCondition nodeID e)
              | Ok false => Ok VSkipCondition
              | Ok true => Ok (eligible_verdict stop upstreamFailed (node_at doc nodeID))
              end
          | None => if upstreamFailed then Ok VSkipUpstream
                    else Ok (eligible_verdict stop false (node_at doc nodeID))
          end
      end
  end.

Definition apply_verdict (d : SchedulingDecision) (id : string) (v : verdict) : SchedulingDecision :=
  match v with
  | VNone => d
  | VSkipUpstream => push d [] [id] [] []
  | VSkipCondition => push d [] [] [id] []
  | VSkipPolicy => push d [] [] [] [id]
  | VApproval => push d [id] [] [] []
  | VAgent => if 0 <? sd_AvailableAgents d then push_agent d id else d
  end.

Lemma schedule_node_classify doc byID results d id :
  schedule_node doc byID results d id =
  (v ← classify doc byID results (sd_StopScheduling d) id; Ok (apply_verdict d id v)).
Proof.
  unfold schedule_node, classify. destruct (byID !! id) as [node|]; [|done].
  destruct (sd_StopScheduling d && _ && _); [done|].
  destruct ((ns_Phase node ≠s NodePhasePending) && _); [done|].
  destruct (upstream _ _ _) as [failed|]; [|done].
  assert (forall b, (if sd_StopScheduling d && negb b then Ok (push d [] [] [] [id])
     else if n_Type (node_at doc id) =s "approval" then Ok (push d [id] [] [] [])
     else if 0 <? sd_AvailableAgents d then Ok (push_agent d id) else Ok d) =
     (Ok (apply_verdict d id (eligible_verdict (sd_StopScheduling d) b (node_at doc id))) : result ScheduleError SchedulingDecision)) as Hplace.
  { intros b. unfold eligible_verdict. destruct (sd_StopScheduling d && negb b); [done|].
    destruct (_ =s _); [done|]. simpl. by destruct (0 <? _). }
  destruct (n_When (node_at doc id)) as [c|].
  - destruct (Evaluate results c) as [[|]|e]; cbn [negb]; [apply Hplace|done|].
    by destruct (failed && _).
  - destruct failed; [done|]. apply Hplace.
Qed.

Definition with_verdict (vs : list (string * verdict)) (v : verdict) : list string :=
  map fst (base.filter (fun e => e.2 = v) vs).

Lemma with_verdict_cons id v vs w :
  with_verdict ((id, v) :: vs) w = (if decide (v = w) then [id] else []) ++ with_verdict vs w.
Proof. unfold with_verdict. rewrite filter_cons. cbn. by destruct (decide (v = w)). Qed.

(** The decision a list of verdicts leads to *)
Definition decide_all (d : SchedulingDecision) (vs : list (string * verdict)) : SchedulingDecision := {|
  sd_ReadyAgents := sd_ReadyAgents d ++ take (Z.to_nat (sd_AvailableAgents d)) (with_verdict vs VAgent);
  sd_ReadyApprovals := sd_ReadyApprovals d ++ with_verdict vs VApproval;
  sd_SkipUpstream := sd_SkipUpstream d ++ with_verdict vs VSkipUpstream;
  sd_SkipConditions := sd_SkipConditions d ++ with_verdict vs VSkipCondition;
  sd_SkipFailurePolicy := sd_SkipFailurePolicy d ++ with_verdict vs VSkipPolicy;
  sd_EffectiveLimit := sd_EffectiveLimit d; sd_ActiveAgents := sd_ActiveAgents d;
  sd_AvailableAgents := sd_AvailableAgents d - Z.of_nat (length (take (Z.to_nat (sd_AvailableAgents d)) (with_verdict vs VAgent)));
  sd_StopScheduling := sd_StopScheduling d; sd_Complete := sd_Complete d |}.

Lemma decide_all_nil d : decide_all d [] = d.
Proof. unfold decide_all, with_verdict. cbn. rewrite take_nil, !app_nil_r, Z.sub_0_r. by destruct d. Qed.

Lemma decide_all_cons d id v vs :
  0 <= sd_AvailableAgents d -> decide_all d ((id, v) :: vs) = decide_all (apply_verdict d id v) vs.
Proof.
  intros Ha. unfold decide_all. rewrite !with_verdict_cons.
  destruct v; cbn [apply_verdict]; repeat case_decide; try congruence; cbn [app push sd_ReadyAgents sd_ReadyApprovals
    sd_SkipUpstream sd_SkipConditions sd_SkipFailurePolicy sd_EffectiveLimit sd_ActiveAgents sd_AvailableAgents
    sd_StopScheduling sd_Complete]; rewrite <-?app_assoc, ?app_nil_r; try done.
  destruct (0 <? sd_AvailableAgents d) eqn:E; bool_props.
  - cbn [push_agent sd_ReadyAgents sd_ReadyApprovals sd_SkipUpstream sd_SkipConditions sd_SkipFailurePolicy
      sd_EffectiveLimit sd_ActiveAgents sd_AvailableAgents sd_StopScheduling sd_Complete].
    replace (Z.to_nat (sd_AvailableAgents d)) with (S (Z.to_nat (sd_AvailableAgents d - 1))) by lia.
    cbn [take length]. rewrite <-app_assoc. f_equal. lia.
  - assert (sd_AvailableAgents d = 0) as -> by lia. cbn. done.
Qed.

Lemma schedule_loop doc byID results d order d' :
  0 <= sd_AvailableAgents d ->
  range_loop (schedule_node doc byID results) d order = Ok d' <->
  exists vs, Forall2 (fun id v => classify doc byID results (sd_StopScheduling d) id = Ok v) order vs /\
    d' = decide_all d (zip order vs).
Proof.
  revert d. induction order as [|id order IH]; intros d Ha.
  - cbn. split.
    + intros [= <-]. exists []. split; [constructor|]. by rewrite decide_all_nil.
    + intros (vs & Hvs & ->). inversion Hvs. cbn. by rewrite decide_all_nil.
  - cbn [range_loop]. rewrite schedule_node_classify.
    destruct (classify doc byID results (sd_StopScheduling d) id) as [v|e] eqn:Ev; cbn.
    + rewrite IH.
      2:{ destruct v; cbn; try done. destruct (0 <? _) eqn:E; bool_props; [cbn; lia|lia]. }
      assert (sd_StopScheduling (apply_verdict d id v) = sd_StopScheduling d) as ->
        by (destruct v; cbn; try done; by destruct (0 <? _)).
      split.
      * intros (vs & Hvs & ->). exists (v :: vs). split; [by constructor|]. cbn. by rewrite decide_all_cons.
      * intros (vs & Hvs & ->). inversion Hvs as [|? w ? vs' Hw Hvs']; subst. exists vs'. split; [done|].
        cbn. rewrite decide_all_cons by done. congruence.
    + split; [done|]. intros (vs & Hvs & _). inversion Hvs. congruence.
Qed.

(** ** The whole decision *)

Definition effective_limit (doc : Document) (backendLimit : Z) : Z :=
  let limit := Z.min FishyumeSafetyConcurrencyCeiling (d_MaxConcurrency doc) in
  if 0 <? backendLimit then Z.min limit backendLimit else limit.

Definition run_failed (run : WorkflowSnapshot) (nodes : list NodeSnapshot) : bool :=
  failing (ws_Conclusion run) || existsb has_failed nodes.

Definition classify_in (doc : Document) (run : WorkflowSnapshot) (nodes : list NodeSnapshot) (id : string)
    : result ScheduleError verdict :=
  classify doc (by_id Some nodes) (results_of nodes) (run_failed run nodes) id.

Definition free_agents (doc : Document) (nodes : list NodeSnapshot) (backendLimit : Z) : Z :=
  Z.max 0 (effective_limit doc backendLimit - active_agents nodes).

Lemma PlanSchedule_verdicts normalized run nodes backendLimit d :
  PlanSchedule normalized run nodes backendLimit = Ok d <->
  1 <= d_MaxConcurrency (nz_Document normalized) /\ 0 <= backendLimit /\
  exists vs,
    Forall2 (fun id v => classify_in (nz_Document normalized) run nodes id = Ok v) (nz_TopologicalOrder normalized) vs /\
    d = {| sd_ReadyAgents := take (Z.to_nat (free_agents (nz_Document normalized) nodes backendLimit))
                               (with_verdict (zip (nz_TopologicalOrder normalized) vs) VAgent);
           sd_ReadyApprovals := with_verdict (zip (nz_TopologicalOrder normalized) vs) VApproval;
           sd_SkipUpstream := with_verdict (zip (nz_TopologicalOrder normalized) vs) VSkipUpstream;
           sd_SkipConditions := with_verdict (zip (nz_TopologicalOrder normalized) vs) VSkipCondition;
           sd_SkipFailurePolicy := with_verdict (zip (nz_TopologicalOrder normalized) vs) VSkipPolicy;
           sd_EffectiveLimit := effective_limit (nz_Document normalized) backendLimit;
           sd_ActiveAgents := active_agents nodes;
           sd_AvailableAgents := free_agents (nz_Document normalized) nodes backendLimit -
             Z.of_nat (length (take (Z.to_nat (free_agents (nz_Document normalized) nodes backendLimit))
                               (with_verdict (zip (nz_TopologicalOrder normalized) vs) VAgent)));
           sd_StopScheduling := run_failed run nodes; sd_Complete := forallb finished nodes |}.
Proof.
  unfold PlanSchedule. set (doc := nz_Document normalized). rewrite !fail_if_ok, !Z.ltb_ge.
  set (e1 := if d_MaxConcurrency doc <? FishyumeSafetyConcurrencyCeiling then d_MaxConcurrency doc else FishyumeSafetyConcurrencyCeiling).
  assert (e1 = Z.min FishyumeSafetyConcurrencyCeiling (d_MaxConcurrency doc)) as He1
    by (unfold e1; destruct (_ <? _) eqn:E; bool_props; lia).
  set (e2 := if (0 <? backendLimit) && (backendLimit <? e1) then backendLimit else e1).
  assert (e2 = effective_limit doc backendLimit) as He2.
  { unfold e2, effective_limit. rewrite <-He1. destruct (0 <? backendLimit) eqn:E0; cbn; [|done].
    destruct (backendLimit <? e1) eqn:E1; bool_props; lia. }
  set (av := if e2 - active_agents nodes <? 0 then 0 else e2 - active_agents nodes).
  assert (av = free_agents doc nodes backendLimit) as Hav.
  { unfold av, free_agents. rewrite <-He2. destruct (_ <? 0) eqn:E; bool_props; lia. }
  assert (0 <= av) as Hav0 by (rewrite Hav; unfold free_agents; lia).
  rewrite He2, Hav in *. split.
  - intros (H1 & H2 & _ & Hl). apply bind_ok in Hl as (d1 & Hl & Hd). injection Hd as <-.
    split; [done|]. split; [done|]. apply schedule_loop in Hl as (vs & Hvs & ->); [|done].
    exists vs. done.
  - intros (H1 & H2 & vs & Hvs & ->). split; [done|]. split; [done|]. split.
    { unfold effective_limit, FishyumeSafetyConcurrencyCeiling. destruct (0 <? backendLimit) eqn:E; bool_props; lia. }
    apply bind_ok. eexists. split; [apply schedule_loop; [done|]; exists vs; split; [exact Hvs|reflexivity]|].
    reflexivity.
Qed.


(** ** Facts on the parts *)

Lemma by_id_snoc {A} (f : NodeSnapshot -> option A) l n :
  by_id f (l ++ [n]) = match f n with Some a => <[ns_ID n := a]> (by_id f l) | None => by_id f l end.
Proof. unfold by_id. by rewrite foldl_app. Qed.

Lemma by_id_lookup {A} (f : NodeSnapshot -> option A) nodes id a :
  NoDup (map ns_ID nodes) ->
  by_id f nodes !! id = Some a <-> exists n, n ∈ nodes /\ ns_ID n = id /\ f n = Some a.
Proof.
  revert a. induction nodes as [|n nodes IH] using rev_ind; intros a Hnd.
  - split; [done|]. intros (n & Hn & _). inversion Hn.
  - rewrite map_app in Hnd. apply NoDup_app in Hnd as (Hnd & Hdis & _). specialize (fun a => IH a Hnd).
    assert (forall m, m ∈ nodes -> ns_ID m <> ns_ID n) as Hne.
    { intros m Hm Heq. apply (Hdis (ns_ID m)); [by apply list_elem_of_fmap_2|]. rewrite Heq. by left. }
    setoid_rewrite elem_of_app. setoid_rewrite list_elem_of_singleton. rewrite by_id_snoc.
    destruct (f n) as [b|] eqn:Ef; [destruct (decide (ns_ID n = id)) as [<-|Hid]|].
    + rewrite lookup_insert_eq. split; [intros [= <-]; eauto|].
      intros (m & [Hm| ->] & Hid & Hf); [by apply Hne in Hm|congruence].
    + rewrite lookup_insert_ne by done. rewrite IH. split; intros (m & Hm & Hid' & Hf).
      * eauto.
      * destruct Hm as [Hm| ->]; [eauto|done].
    + rewrite IH. split; intros (m & Hm & Hid' & Hf).
      * eauto.
      * destruct Hm as [Hm| ->]; [eauto|congruence].
Qed.

Lemma by_id_perm {A} (f : NodeSnapshot -> option A) nodes nodes' :
  nodes ≡ₚ nodes' -> NoDup (map ns_ID nodes) -> by_id f nodes = by_id f nodes'.
Proof.
  intros Hp Hnd. apply map_eq. intros id. apply option_eq. intros a.
  rewrite !by_id_lookup; [by setoid_rewrite Hp| |done]. by rewrite <-Hp.
Qed.

Lemma active_agents_filter nodes :
  active_agents nodes = Z.of_nat (length (base.filter (fun n => is_active n = true) nodes)).
Proof.
  unfold active_agents. induction nodes as [|n nodes IH] using rev_ind; [done|].
  rewrite foldl_app, filter_app, length_app, IH. cbn [foldl].
  destruct (is_active n) eqn:E.
  - rewrite filter_cons_True by done. cbn. lia.
  - rewrite filter_cons_False by congruence. cbn. lia.
Qed.

(** The dependencies of a node are stable; [failed] says whether one failed *)
Lemma upstream_spec byID deps failed0 failed :
  upstream byID failed0 deps = Some failed <->
  Forall (fun y => finished (default zero_snapshot (byID !! y)) = true) deps /\
  failed = failed0 || existsb (fun y => fails_downstream (default zero_snapshot (byID !! y))) deps.
Proof.
  revert failed0. induction deps as [|y deps IH]; intros failed0; cbn.
  - rewrite orb_false_r. split; [intros [= ->]; done|]. by intros [_ ->].
  - rewrite Forall_cons. destruct (finished _) eqn:E; cbn.
    + rewrite IH, orb_assoc. tauto.
    + split; [done|]. by intros [[? _] _].
Qed.

Lemma with_verdict_elem order vs v id (P : string -> verdict -> Prop) :
  Forall2 P order vs -> id ∈ with_verdict (zip order vs) v -> id ∈ order /\ P id v.
Proof.
  induction 1 as [|x w order vs Hx _ IH]; cbn [zip zip_with]; [intros H; inversion H|].
  rewrite with_verdict_cons, elem_of_app. intros [Hid|Hid].
  - case_decide; [|inversion Hid]. apply list_elem_of_singleton in Hid as ->. subst. split; [by left|done].
  - apply IH in Hid as [? ?]. split; [by right|done].
Qed.

Lemma elem_with_verdict order vs v id (f : string -> result ScheduleError verdict) :
  Forall2 (fun id v => f id = Ok v) order vs -> id ∈ with_verdict (zip order vs) v <-> id ∈ order /\ f id = Ok v.
Proof.
  intros HF. split; [by apply (with_verdict_elem _ _ _ _ (fun id v => f id = Ok v))|]. intros [Hin Hv]. induction HF as [|x w order vs Hx _ IH]; [done|].
  cbn [zip zip_with]. rewrite with_verdict_cons, elem_of_app. apply elem_of_cons in Hin as [->|Hin]; [left|auto].
  rewrite Hx in Hv. injection Hv as ->. rewrite decide_True by done. by left.
Qed.

Lemma with_verdict_sublist order vs v :
  length order = length vs -> with_verdict (zip order vs) v `sublist_of` order.
Proof.
  revert vs. induction order as [|x order IH]; intros [|w vs] Hl; try done.
  cbn [zip zip_with]. rewrite with_verdict_cons. injection Hl as Hl. case_decide; cbn [app].
  - by apply sublist_skip, IH.
  - by apply sublist_cons, IH.
Qed.

Lemma zip_key_unique {A B} (l : list A) (k : list B) x y z :
  NoDup l -> (x, y) ∈ zip l k -> (x, z) ∈ zip l k -> y = z.
Proof.
  intros Hl [i Hi]%list_elem_of_lookup [j Hj]%list_elem_of_lookup.
  apply lookup_zip_Some in Hi as [Hi Hi'], Hj as [Hj Hj']. cbn in *.
  pose proof (NoDup_lookup _ _ _ _ Hl Hi Hj) as ->. congruence.
Qed.

Lemma with_verdicts_NoDup order vs verdicts :
  NoDup order -> length order = length vs -> NoDup verdicts ->
  NoDup (concat (map (with_verdict (zip order vs)) verdicts)).
Proof.
  intros Ho Hl. induction 1 as [|v verdicts Hv _ IH]; cbn; [constructor|].
  apply NoDup_app. split; [|split; [|done]].
  - eapply sublist_NoDup; [exact Ho|by apply with_verdict_sublist].
  - intros id Hid Hc. apply list_elem_of_In, in_concat in Hc as (l & Hl' & Hil).
    apply in_map_iff in Hl' as (w & <- & Hw). apply list_elem_of_In in Hil, Hw.
    unfold with_verdict in *. apply list_elem_of_fmap in Hid as ([i1 v1] & -> & H1).
    apply list_elem_of_fmap in Hil as ([i2 v2] & Heq & H2). cbn in Heq. subst i2.
    apply list_elem_of_filter in H1 as [H1v H1], H2 as [H2v H2]. cbn in *. subst v1 v2.
    assert (v = w); [|by subst]. exact (zip_key_unique _ _ _ _ _ Ho H1 H2).
Qed.

Section Decision.
Context (normalized : Normalized) (run : WorkflowSnapshot) (nodes : list NodeSnapshot) (backendLimit : Z).
Context (Hids : NoDup (map ns_ID nodes)).
Let doc := nz_Document normalized.
Let order := nz_TopologicalOrder normalized.

(** What the verdicts that let a node start mean *)
Record startable (id : string) (node : NodeSnapshot) : Prop := {
  start_node : node ∈ nodes /\ ns_ID node = id;
  start_phase : ns_Phase node = NodePhasePending \/ ns_Phase node = NodePhaseReady;
  start_deps : forall y, y ∈ depends doc id -> exists n, n ∈ nodes /\ ns_ID n = y /\ finished n = true;
  start_when : forall c, n_When (node_at doc id) = Some c -> Evaluate (results_of nodes) c = Ok true;
  start_upstream : n_When (node_at doc id) = None ->
    forall y n, y ∈ depends doc id -> n ∈ nodes -> ns_ID n = y -> fails_downstream n = false;
  start_failure : run_failed run nodes = true ->
    is_Some (n_When (node_at doc id)) /\
    exists n, n ∈ nodes /\ ns_ID n ∈ depends doc id /\ fails_downstream n = true }.

Lemma finished_dep id :
  Forall (fun y => finished (default zero_snapshot (by_id Some nodes !! y)) = true) (depends doc id) <->
  forall y, y ∈ depends doc id -> exists n, n ∈ nodes /\ ns_ID n = y /\ finished n = true.
Proof.
  rewrite Forall_forall. apply forall_proper. intros y. apply imp_iff_compat_l. split.
  - destruct (by_id Some nodes !! y) as [n|] eqn:E; [|done]. cbn. intros Hf.
    apply by_id_lookup in E as (n' & Hn & Hid & [= ->]); [eauto|done].
  - intros (n & Hn & Hid & Hf). assert (by_id Some nodes !! y = Some n) as -> by (apply by_id_lookup; eauto). done.
Qed.

Lemma failed_dep id :
  existsb (fun y => fails_downstream (default zero_snapshot (by_id Some nodes !! y))) (depends doc id) = true <->
  exists n, n ∈ nodes /\ ns_ID n ∈ depends doc id /\ fails_downstream n = true.
Proof.
  rewrite existsb_exists. split.
  - intros (y & Hy%list_elem_of_In & Hf). destruct (by_id Some nodes !! y) as [n|] eqn:E; [|done].
    apply by_id_lookup in E as (n' & Hn & <- & [= ->]); [eauto|done].
  - intros (n & Hn & Hd & Hf). exists (ns_ID n). rewrite <-list_elem_of_In. split; [done|].
    assert (by_id Some nodes !! ns_ID n = Some n) as -> by (apply by_id_lookup; eauto). done.
Qed.

Lemma start_verdict id :
  (exists node, startable id node) <->
  classify_in doc run nodes id = Ok (if n_Type (node_at doc id) =s "approval" then VApproval else VAgent).
Proof.
  unfold classify_in, classify. split.
  - intros [node [[Hn Hid] Hph Hdeps Hwhen Hup Hfail]].
    assert (by_id Some nodes !! id = Some node) as -> by (apply by_id_lookup; eauto).
    assert ((ns_Phase node ≠s NodePhasePending) && (ns_Phase node ≠s NodePhaseReady) = false) as ->
      by (destruct Hph as [-> | ->]; done).
    assert ((ns_Phase node =s NodePhaseWaiting) = false) as -> by (destruct Hph as [-> | ->]; done).
    rewrite andb_false_r.
    destruct (upstream _ _ _) as [failed|] eqn:Eu.
    2:{ exfalso. apply finished_dep in Hdeps. assert (exists b, upstream (by_id Some nodes) false (depends doc id) = Some b)
          as [b Hb]; [|congruence]. eexists. apply upstream_spec. split; [exact Hdeps|reflexivity]. }
    apply upstream_spec in Eu as [_ Hfailed]. cbn [orb] in Hfailed.
    destruct (n_When (node_at doc id)) as [c|] eqn:Ew.
    + rewrite (Hwhen c) by done. unfold eligible_verdict.
      destruct (run_failed run nodes) eqn:Er; cbn [andb]; [|done].
      destruct Hfail as [_ Hex]; [done|]. apply failed_dep in Hex. rewrite <-Hfailed in Hex. by rewrite Hex.
    + assert (failed = false) as ->.
      { apply not_true_is_false. rewrite Hfailed, failed_dep. intros (n & Hn' & Hd & Hf).
        rewrite (Hup eq_refl _ n Hd Hn' eq_refl) in Hf. done. }
      unfold eligible_verdict. destruct (run_failed run nodes) eqn:Er; cbn [andb negb]; [|done].
      destruct Hfail as [[? ?] _]; done.
  - set (v := if n_Type (node_at doc id) =s "approval" then VApproval else VAgent).
    assert (Hv : v <> VNone /\ v <> VSkipPolicy /\ v <> VSkipUpstream /\ v <> VSkipCondition)
      by (unfold v; by destruct (_ =s _)). destruct Hv as (Hv1 & Hv2 & Hv3 & Hv4).
    destruct (by_id Some nodes !! id) as [node|] eqn:En; [|congruence].
    apply by_id_lookup in En as (node' & Hn & Hid & [= ->]); [|done].
    destruct (_ && _ && _) eqn:E1; [congruence|].
    destruct ((ns_Phase node ≠s _) && _) eqn:E2; [congruence|].
    destruct (upstream _ _ _) as [failed|] eqn:Eu; [|congruence].
    apply upstream_spec in Eu as [Hdone Hfailed]. cbn [orb] in Hfailed. pose proof (proj1 (finished_dep id) Hdone) as Hdeps.
    intros Hc. exists node.
    assert (Hel : forall b, Ok (eligible_verdict (run_failed run nodes) b (node_at doc id)) = (Ok v : result ScheduleError verdict) ->
              run_failed run nodes = true -> b = true).
    { intros b [= Hb] Hr. unfold eligible_verdict in Hb. rewrite Hr in Hb. cbn [andb] in Hb.
      destruct b; [done|]. cbn in Hb. congruence. }
    split; [done| | done | | | ].
    + by rewrite andb_false_iff, !negb_false_iff, !String.eqb_eq in E2.
    + intros c Ew. rewrite Ew in Hc. destruct (Evaluate _ _) as [[|]|e]; [done|congruence|].
      destruct (_ && _) in Hc; congruence.
    + intros Ew y n Hy Hn' <-. rewrite Ew in Hc. destruct (fails_downstream n) eqn:Ef; [|done].
      assert (failed = true) as -> by (rewrite Hfailed; apply failed_dep; eauto). congruence.
    + intros Hr. destruct (n_When (node_at doc id)) as [c|].
      * split; [done|]. apply failed_dep. rewrite <-Hfailed. destruct (Evaluate _ _) as [[|]|e]; [|congruence|].
        { by apply (Hel failed). }
        { destruct (_ && _) in Hc; congruence. }
      * destruct failed; [congruence|]. by apply Hel in Hc.
Qed.

Lemma classify_type id v :
  classify_in doc run nodes id = Ok v ->
  (v = VAgent -> n_Type (node_at doc id) <> "approval") /\ (v = VApproval -> n_Type (node_at doc id) = "approval").
Proof.
  assert (forall stop b, let w := eligible_verdict stop b (node_at doc id) in
    (w = VAgent -> n_Type (node_at doc id) <> "approval") /\ (w = VApproval -> n_Type (node_at doc id) = "approval")) as Hel.
  { intros stop b. cbv zeta. unfold eligible_verdict. destruct (stop && _); [done|].
    destruct (n_Type (node_at doc id) =s "approval") eqn:E; bool_props; done. }
  unfold classify_in, classify. intros Hc.
  destruct (by_id Some nodes !! id) as [node|]; [|by injection Hc as <-].
  destruct (_ && _ && _) in Hc; [by injection Hc as <-|].
  destruct ((ns_Phase node ≠s _) && _) in Hc; [by injection Hc as <-|].
  destruct (upstream _ _ _) as [failed|]; [|by injection Hc as <-].
  destruct (n_When _) as [c|].
  - destruct (Evaluate _ _) as [[|]|e]; [|by injection Hc as <-|].
    + injection Hc as <-. apply Hel.
    + destruct (_ && _) in Hc; [by injection Hc as <-|done].
  - destruct failed; injection Hc as <-; [done|apply Hel].
Qed.

Lemma classify_total id :
  (exists v, classify_in doc run nodes id = Ok v) <->
  forall node c, node ∈ nodes -> ns_ID node = id ->
    ns_Phase node = NodePhasePending \/ ns_Phase node = NodePhaseReady ->
    (forall y, y ∈ depends doc id -> exists n, n ∈ nodes /\ ns_ID n = y /\ finished n = true) ->
    n_When (node_at doc id) = Some c ->
    is_ok (Evaluate (results_of nodes) c) = true \/
    conditionResultMissing (results_of nodes) c = true /\
    exists n, n ∈ nodes /\ ns_ID n ∈ depends doc id /\ fails_downstream n = true.
Proof.
  unfold classify_in, classify. split.
  - intros [v Hc] node c Hn Hid Hph Hdeps Hw.
    assert (by_id Some nodes !! id = Some node) as E by (apply by_id_lookup; eauto). rewrite E in Hc.
    assert ((ns_Phase node =s NodePhaseWaiting) = false) as Ew by (destruct Hph as [-> | ->]; done).
    assert ((ns_Phase node ≠s NodePhasePending) && (ns_Phase node ≠s NodePhaseReady) = false) as Ep
      by (destruct Hph as [-> | ->]; done).
    rewrite Ew, andb_false_r, Ep in Hc.
    destruct (upstream _ _ _) as [failed|] eqn:Eu.
    2:{ apply finished_dep in Hdeps. rewrite (proj2 (upstream_spec _ _ _ _) (conj Hdeps eq_refl)) in Eu. done. }
    apply upstream_spec in Eu as [_ Hfailed]. cbn [orb] in Hfailed. rewrite Hw in Hc.
    destruct (Evaluate _ _) as [b|e]; [by left|]. right.
    destruct (failed && _) eqn:Eb in Hc; [|done]. apply andb_true_iff in Eb as [-> Hm]. split; [done|].
    by apply failed_dep.
  - intros Hall. destruct (by_id Some nodes !! id) as [node|] eqn:E; [|eauto].
    apply by_id_lookup in E as (node' & Hn & Hid & [= ->]); [|done].
    destruct (_ && _ && _); [eauto|]. destruct ((ns_Phase node ≠s _) && _) eqn:Ep; [eauto|].
    rewrite andb_false_iff, !negb_false_iff, !String.eqb_eq in Ep.
    destruct (upstream _ _ _) as [failed|] eqn:Eu; [|eauto].
    apply upstream_spec in Eu as [Hdone Hfailed]. cbn [orb] in Hfailed.
    pose proof (proj1 (finished_dep id) Hdone) as Hdeps.
    destruct (n_When (node_at doc id)) as [c|] eqn:Hw; [|destruct failed; eauto].
    destruct (Hall node c Hn Hid Ep Hdeps eq_refl) as [Hok|[Hm Hf]].
    + apply is_ok_Ok in Hok as [b ->]. destruct b; eauto.
    + apply failed_dep in Hf. rewrite <-Hfailed in Hf. rewrite Hf, Hm. destruct (Evaluate _ _) as [[|]|e]; eauto.
Qed.

Lemma starts_as id v :
  v = VAgent \/ v = VApproval ->
  classify_in doc run nodes id = Ok v <->
  (n_Type (node_at doc id) = "approval" <-> v = VApproval) /\ exists node, startable id node.
Proof.
  intros Hv. rewrite start_verdict. split.
  - intros Hc. destruct (classify_type id v Hc) as [H1 H2].
    destruct (n_Type (node_at doc id) =s "approval") eqn:E; bool_props; intuition congruence.
  - intros [Ht ->]. destruct (n_Type (node_at doc id) =s "approval") eqn:E; bool_props; intuition congruence.
Qed.

Lemma classify_progress id node v :
  node ∈ nodes -> ns_ID node = id -> ns_Phase node = NodePhasePending \/ ns_Phase node = NodePhaseReady ->
  (forall y, y ∈ depends doc id -> exists n, n ∈ nodes /\ ns_ID n = y /\ finished n = true) ->
  classify_in doc run nodes id = Ok v -> v <> VNone.
Proof.
  intros Hn Hid Hph Hdeps. unfold classify_in, classify.
  assert (by_id Some nodes !! id = Some node) as -> by (apply by_id_lookup; eauto).
  destruct (_ && _ && _); [congruence|].
  assert ((ns_Phase node ≠s NodePhasePending) && (ns_Phase node ≠s NodePhaseReady) = false) as ->
    by (destruct Hph as [-> | ->]; done).
  assert (upstream (by_id Some nodes) false (depends doc id) = Some
    (existsb (fun y => fails_downstream (default zero_snapshot (by_id Some nodes !! y))) (depends doc id))) as ->.
  { apply upstream_spec. split; [by apply finished_dep|done]. }
  assert (forall b, eligible_verdict (run_failed run nodes) b (node_at doc id) <> VNone) as Hel.
  { intros b. unfold eligible_verdict. destruct (_ && negb b); [done|]. by destruct (_ =s _). }
  destruct (n_When _) as [c|].
  - destruct (Evaluate _ _) as [[|]|e]; [|congruence|].
    + intros [= <-]. apply Hel.
    + destruct (_ && _); congruence.
  - destruct (existsb _ _); [congruence|]. intros [= <-]. apply Hel.
Qed.

Lemma classify_skips id v :
  classify_in doc run nodes id = Ok v ->
  (v = VSkipUpstream \/ v = VSkipCondition \/ v = VSkipPolicy) ->
  exists node, node ∈ nodes /\ ns_ID node = id /\
    (ns_Phase node = NodePhasePending \/ ns_Phase node = NodePhaseReady \/
     v = VSkipPolicy /\ ns_Phase node = NodePhaseWaiting /\ ns_Type node = "approval") /\
    (v = VSkipPolicy -> run_failed run nodes = true) /\
    (v = VSkipUpstream -> exists n, n ∈ nodes /\ ns_ID n ∈ depends doc id /\ fails_downstream n = true) /\
    (v = VSkipCondition -> exists c, n_When (node_at doc id) = Some c /\ Evaluate (results_of nodes) c = Ok false) /\
    (ns_Phase node <> NodePhaseWaiting ->
     forall y, y ∈ depends doc id -> exists n, n ∈ nodes /\ ns_ID n = y /\ finished n = true).
Proof.
  unfold classify_in, classify. intros Hc Hv.
  destruct (by_id Some nodes !! id) as [node|] eqn:En; [|intuition congruence].
  apply by_id_lookup in En as (node' & Hn & Hid & [= ->]); [|done]. exists node. split; [done|]. split; [done|].
  destruct (_ && _ && _) eqn:E1.
  { injection Hc as <-. rewrite !andb_true_iff, !String.eqb_eq in E1. destruct E1 as [[? ?] ?].
    split; [tauto|]. split; [done|]. split; [done|]. split; [done|]. congruence. }
  destruct ((ns_Phase node ≠s _) && _) eqn:E2; [intuition congruence|].
  rewrite andb_false_iff, !negb_false_iff, !String.eqb_eq in E2.
  destruct (upstream _ _ _) as [failed|] eqn:Eu; [|intuition congruence].
  apply upstream_spec in Eu as [Hdone Hfailed]. cbn [orb] in Hfailed.
  pose proof (proj1 (finished_dep id) Hdone) as Hdeps.
  assert (forall b w, eligible_verdict (run_failed run nodes) b (node_at doc id) = w ->
     w = VSkipUpstream \/ w = VSkipCondition \/ w = VSkipPolicy -> w = VSkipPolicy /\ run_failed run nodes = true) as Hel.
  { intros b w <-. unfold eligible_verdict. destruct (run_failed _ _); cbn.
    - destruct (negb b); [done|]. destruct (n_Type _ =s _); intuition congruence.
    - destruct (n_Type _ =s _); intuition congruence. }
  split; [tauto|].
  assert (failed = true -> exists n, n ∈ nodes /\ ns_ID n ∈ depends doc id /\ fails_downstream n = true) as Hf.
  { intros ->. by apply failed_dep. }
  destruct (n_When (node_at doc id)) as [c|].
  - destruct (Evaluate _ _) as [[|]|e] eqn:Ee.
    + injection Hc as Hc. destruct (Hel _ _ Hc Hv) as [-> Hr]. repeat split; try done.
    + injection Hc as <-. repeat split; try done. eauto.
    + destruct (_ && _) eqn:Eb in Hc; [|done]. injection Hc as <-. apply andb_true_iff in Eb as [-> _].
      repeat split; try done. auto.
  - destruct failed.
    + injection Hc as <-. repeat split; try done. auto.
    + injection Hc as Hc. destruct (Hel _ _ Hc Hv) as [-> Hr]. repeat split; try done.
Qed.
End Decision.

(** ** Progress *)

Lemma Forall2_elem_l {A B} (P : A -> B -> Prop) l k x : Forall2 P l k -> x ∈ l -> exists y, P x y.
Proof. intros HF Hx. apply list_elem_of_lookup in Hx as [i Hi]. eapply Forall2_lookup_l in HF as (y & _ & Hy); eauto. Qed.

Lemma Forall_choice {A B} (P : A -> B -> Prop) l : Forall (fun x => exists y, P x y) l -> exists k, Forall2 P l k.
Proof. induction 1 as [|x l [y Hy] _ [k IH]]; [by exists []|]. exists (y :: k). by constructor. Qed.

(** The first node of the order that has not finished *)
Lemma first_unfinished normalized nodes :
  NoDup (map ns_ID nodes) ->
  nz_TopologicalOrder normalized ≡ₚ map ns_ID nodes ->
  dependencies_first (nz_Document normalized) (nz_TopologicalOrder normalized) ->
  forallb finished nodes = false ->
  exists node, node ∈ nodes /\ ns_ID node ∈ nz_TopologicalOrder normalized /\ finished node = false /\
    forall y, y ∈ depends (nz_Document normalized) (ns_ID node) -> exists n, n ∈ nodes /\ ns_ID n = y /\ finished n = true.
Proof.
  intros Hids Hperm Hfirst Hunf. set (order := nz_TopologicalOrder normalized) in *.
  set (P id := Exists (fun n => ns_ID n = id /\ finished n = false) nodes).
  destruct (list_find P order) as [[i id]|] eqn:Ef.
  - apply list_find_Some in Ef as (Hi & HP & Hbefore).
    unfold P in HP. apply Exists_exists in HP as (node & Hn & <- & Hu). exists node. split; [done|].
    split; [by eapply list_elem_of_lookup_2|]. split; [done|]. intros y Hy.
    specialize (Hfirst i _ Hi). rewrite Forall_forall in Hfirst. specialize (Hfirst y Hy).
    apply elem_of_take in Hfirst as (j & Hj & Hlt).
    assert (y ∈ map ns_ID nodes) as Hym by (rewrite <-Hperm; by eapply list_elem_of_lookup_2).
    apply list_elem_of_fmap in Hym as (n & -> & Hn'). exists n. split; [done|]. split; [done|].
    destruct (finished n) eqn:E; [done|]. exfalso. apply (Hbefore j _ Hj Hlt), Exists_exists. eauto.
  - apply list_find_None in Ef. exfalso. rewrite Forall_forall in Ef.
    assert (forallb finished nodes = true); [|congruence]. apply forallb_forall. intros n Hn%list_elem_of_In.
    destruct (finished n) eqn:E; [done|]. exfalso. apply (Ef (ns_ID n)).
    + rewrite Hperm. by apply list_elem_of_fmap_2.
    + apply Exists_exists. eauto.
Qed.

Lemma unfinished_phase n :
  is_ok (ValidateNodeSnapshot n) = true -> finished n = false ->
  ns_Phase n <> NodePhaseRunning /\ ns_Phase n <> NodePhaseWaiting ->
  ns_Phase n = NodePhasePending \/ ns_Phase n = NodePhaseReady.
Proof.
  intros [[] Hok]%is_ok_Ok Hf [Hr Hw]. unfold ValidateNodeSnapshot in Hok.
  apply bind_ok in Hok as (? & _ & Hok). apply fail_if_ok in Hok as [Hph _].
  apply negb_false_iff, contains_string_spec in Hph.
  unfold finished in Hf. apply orb_false_iff in Hf as [Hc Hs]. apply String.eqb_neq in Hc, Hs.
  rewrite !elem_of_cons in Hph. set_solver.
Qed.

Lemma quiet_active nodes :
  Forall (fun n => ns_Phase n <> NodePhaseRunning /\ ns_Phase n <> NodePhaseWaiting) nodes -> active_agents nodes = 0.
Proof.
  intros HF. induction HF as [|n nodes [Hr Hw] _ IH]; [done|]. unfold active_agents. cbn [foldl].
  assert (is_active n = false) as ->; [|exact IH].
  unfold is_active. apply String.eqb_neq in Hr, Hw. rewrite Hr, Hw. cbn. by rewrite andb_false_r.
Qed.

(** ** Properties *)

(** C1: A node becomes ready exactly when it is pending, all its dependencies
    have finished, its condition holds (without a condition: no dependency
    failed), and, once the run has failed, it has a condition and a failed
    dependency.  Every ready approval is returned, and of the ready agents
    the first ones of the topological order that the free capacity admits. *)
Theorem PlanSchedule_ready normalized run nodes backendLimit d
    (Hids : NoDup (map ns_ID nodes))
    (Hplan : PlanSchedule normalized run nodes backendLimit = Ok d) :
  exists agents,
    agents `sublist_of` nz_TopologicalOrder normalized /\
    (forall id, id ∈ agents <-> id ∈ nz_TopologicalOrder normalized /\
       n_Type (node_at (nz_Document normalized) id) <> "approval" /\ exists node, startable normalized run nodes id node) /\
    sd_ReadyAgents d =
      take (Z.to_nat (effective_limit (nz_Document normalized) backendLimit - active_agents nodes)) agents /\
    (forall id, id ∈ sd_ReadyApprovals d <-> id ∈ nz_TopologicalOrder normalized /\
       n_Type (node_at (nz_Document normalized) id) = "approval" /\ exists node, startable normalized run nodes id node).
Proof.
  apply PlanSchedule_verdicts in Hplan as (_ & _ & vs & Hvs & ->). cbn.
  exists (with_verdict (zip (nz_TopologicalOrder normalized) vs) VAgent). split.
  { apply with_verdict_sublist. by eapply Forall2_length. }
  setoid_rewrite (elem_with_verdict _ _ _ _ _ Hvs).
  split; [|split].
  - intros id. rewrite starts_as by auto. intuition congruence.
  - f_equal. unfold free_agents. lia.
  - intros id. rewrite starts_as by auto. intuition congruence.
Qed.

(** C29: The agents that are active together with the ones a decision starts
    never exceed the limit, unless more were active before; the limit is what
    EffectiveConcurrency computes, at most 8, the workflow's limit and a
    declared limit of the backend, and AvailableAgents is what remains. *)
Theorem PlanSchedule_capacity normalized run nodes backendLimit d
    (Hplan : PlanSchedule normalized run nodes backendLimit = Ok d) :
  EffectiveConcurrency (d_MaxConcurrency (nz_Document normalized)) backendLimit = Ok (sd_EffectiveLimit d) /\
  1 <= sd_EffectiveLimit d <= 8 /\ sd_EffectiveLimit d <= d_MaxConcurrency (nz_Document normalized) /\
  (0 < backendLimit -> sd_EffectiveLimit d <= backendLimit) /\
  sd_ActiveAgents d = Z.of_nat (length (base.filter (fun n => is_active n = true) nodes)) /\
  sd_ActiveAgents d + Z.of_nat (length (sd_ReadyAgents d)) <= Z.max (sd_ActiveAgents d) (sd_EffectiveLimit d) /\
  sd_AvailableAgents d = Z.max 0 (sd_EffectiveLimit d - sd_ActiveAgents d) - Z.of_nat (length (sd_ReadyAgents d)) /\
  0 <= sd_AvailableAgents d.
Proof.
  apply PlanSchedule_verdicts in Hplan as (H1 & H2 & vs & _ & ->). cbn.
  rewrite length_take, <-active_agents_filter. unfold free_agents, effective_limit, EffectiveConcurrency, FishyumeSafetyConcurrencyCeiling.
  rewrite !fail_if_ok, !Z.ltb_ge.
  assert ((if d_MaxConcurrency (nz_Document normalized) <? 8 then d_MaxConcurrency (nz_Document normalized) else 8)
          = Z.min 8 (d_MaxConcurrency (nz_Document normalized))) as -> by (destruct (_ <? 8) eqn:E; bool_props; lia).
  destruct (0 <? backendLimit) eqn:Eb; bool_props; cbn [andb].
  - destruct (backendLimit <? _) eqn:E; bool_props; split_and!; first [f_equal; lia | lia].
  - split_and!; first [f_equal; lia | lia].
Qed.

(** What a decision skips.  A node is skipped for its upstream only when a
    dependency failed, for its condition only when the condition is false on
    the results, and for the failure policy only when the run has failed; in
    each case all its dependencies have finished (a waiting approval is
    skipped at once).  No node is in two lists of a decision. *)
Theorem PlanSchedule_skips normalized run nodes backendLimit d
    (Hids : NoDup (map ns_ID nodes)) (Horder : NoDup (nz_TopologicalOrder normalized))
    (Hplan : PlanSchedule normalized run nodes backendLimit = Ok d) :
  let doc := nz_Document normalized in
  NoDup (sd_ReadyAgents d ++ sd_ReadyApprovals d ++ sd_SkipUpstream d ++ sd_SkipConditions d ++ sd_SkipFailurePolicy d) /\
  forall id, id ∈ sd_SkipUpstream d ++ sd_SkipConditions d ++ sd_SkipFailurePolicy d ->
    exists node, node ∈ nodes /\ ns_ID node = id /\
      ((ns_Phase node = NodePhasePending \/ ns_Phase node = NodePhaseReady) /\
         (forall y, y ∈ depends doc id -> exists n, n ∈ nodes /\ ns_ID n = y /\ finished n = true) \/
       id ∈ sd_SkipFailurePolicy d /\ ns_Phase node = NodePhaseWaiting /\ ns_Type node = "approval") /\
      (id ∈ sd_SkipFailurePolicy d -> run_failed run nodes = true) /\
      (id ∈ sd_SkipUpstream d -> exists n, n ∈ nodes /\ ns_ID n ∈ depends doc id /\ fails_downstream n = true) /\
      (id ∈ sd_SkipConditions d -> exists c, n_When (node_at doc id) = Some c /\ Evaluate (results_of nodes) c = Ok false).
Proof.
  apply PlanSchedule_verdicts in Hplan as (_ & _ & vs & Hvs & ->). cbn. set (zs := zip (nz_TopologicalOrder normalized) vs).
  split.
  - eapply sublist_NoDup; [apply (with_verdicts_NoDup (nz_TopologicalOrder normalized) vs [VAgent; VApproval; VSkipUpstream; VSkipCondition; VSkipPolicy]);
      [done|by eapply Forall2_length|repeat constructor; set_solver]|].
    cbn [map concat]. rewrite app_nil_r. apply sublist_app; [|done]. apply sublist_take.
  - intros id Hid.
    assert (exists v, (v = VSkipUpstream \/ v = VSkipCondition \/ v = VSkipPolicy) /\ id ∈ with_verdict zs v) as (v & Hv & Hin).
    { rewrite !elem_of_app in Hid. destruct Hid as [?|[?|?]]; eauto 10. }
    subst zs. setoid_rewrite (elem_with_verdict _ _ _ _ _ Hvs). apply (elem_with_verdict _ _ _ _ _ Hvs) in Hin as [Hio Hc].
    destruct (classify_skips normalized run nodes Hids id v Hc Hv) as (node & Hn & Hi & Hph & Hp & Hu & Hcd & Hdeps).
    exists node. split; [done|]. split; [done|].
    assert (forall w, id ∈ nz_TopologicalOrder normalized /\ classify_in (nz_Document normalized) run nodes id = Ok w -> v = w) as Hw
      by (intros w [_ Hw]; congruence).
    split; [|split; [|split]].
    + destruct Hph as [Hph|[Hph|(-> & Hph & Hty)]].
      * left. split; [by left|]. apply Hdeps. rewrite Hph. discriminate.
      * left. split; [by right|]. apply Hdeps. rewrite Hph. discriminate.
      * right. split; [split; done|done].
    + intros H%Hw. auto.
    + intros H%Hw. auto.
    + intros H%Hw. auto.
Qed.

(** C30: The scheduler cannot deadlock.  When the order lists the nodes of the
    run with dependencies first, some node has not finished, and no node runs
    or waits, then the decision starts or skips at least one node. *)
Theorem PlanSchedule_progress normalized run nodes backendLimit d
    (Hids : NoDup (map ns_ID nodes))
    (Horder : nz_TopologicalOrder normalized ≡ₚ map ns_ID nodes)
    (Hfirst : dependencies_first (nz_Document normalized) (nz_TopologicalOrder normalized))
    (Hvalid : Forall (fun n => is_ok (ValidateNodeSnapshot n) = true) nodes)
    (Hquiet : Forall (fun n => ns_Phase n <> NodePhaseRunning /\ ns_Phase n <> NodePhaseWaiting) nodes)
    (Hplan : PlanSchedule normalized run nodes backendLimit = Ok d)
    (Hunfinished : sd_Complete d = false) :
  sd_ReadyAgents d ++ sd_ReadyApprovals d ++ sd_SkipUpstream d ++ sd_SkipConditions d ++ sd_SkipFailurePolicy d <> [].
Proof.
  apply PlanSchedule_verdicts in Hplan as (H1 & H2 & vs & Hvs & ->). cbn in *. intros Hnil.
  destruct (first_unfinished normalized nodes Hids Horder Hfirst Hunfinished) as (node & Hn & Hio & Hu & Hdeps).
  rewrite Forall_forall in Hvalid, Hquiet.
  pose proof (unfinished_phase node (Hvalid _ Hn) Hu (Hquiet _ Hn)) as Hph.
  destruct (Forall2_elem_l _ _ _ _ Hvs Hio) as (v & Hv).
  pose proof (classify_progress normalized run nodes Hids _ node v Hn eq_refl Hph Hdeps Hv) as Hne.
  assert (ns_ID node ∈ with_verdict (zip (nz_TopologicalOrder normalized) vs) v) as Hin
    by (apply (elem_with_verdict _ _ _ _ _ Hvs); done).
  apply app_nil in Hnil as [Ha [Hb [Hcc [Hd He]%app_nil]%app_nil]%app_nil].
  destruct v; try done; rewrite ?Hb, ?Hcc, ?Hd, ?He in Hin; try by inversion Hin.
  assert (active_agents nodes = 0) as Hact by (apply quiet_active, Forall_forall; intros; by apply Hquiet).
  destruct (Z.to_nat (free_agents (nz_Document normalized) nodes backendLimit)) eqn:Ef.
  - unfold free_agents, effective_limit, FishyumeSafetyConcurrencyCeiling in Ef. rewrite Hact in Ef.
    destruct (0 <? backendLimit) eqn:E; bool_props; lia.
  - destruct (with_verdict _ VAgent); [inversion Hin|done].
Qed.

(** The decision does not depend on the order in which the node snapshots
    are given. *)
Theorem PlanSchedule_order_independent normalized run nodes nodes' backendLimit
    (Hids : NoDup (map ns_ID nodes)) (Hperm : nodes ≡ₚ nodes') :
  PlanSchedule normalized run nodes backendLimit = PlanSchedule normalized run nodes' backendLimit.
Proof.
  unfold PlanSchedule, results_of.
  rewrite (by_id_perm Some _ _ Hperm), (by_id_perm ns_Result _ _ Hperm) by done.
  assert (active_agents nodes = active_agents nodes') as -> by (rewrite !active_agents_filter; by rewrite Hperm).
  assert (existsb has_failed nodes = existsb has_failed nodes') as ->.
  { apply eq_true_iff_eq. rewrite !existsb_exists. setoid_rewrite <-list_elem_of_In. by setoid_rewrite Hperm. }
  assert (forallb finished nodes = forallb finished nodes') as ->.
  { apply eq_true_iff_eq. rewrite !forallb_forall. setoid_rewrite <-list_elem_of_In. by setoid_rewrite Hperm. }
  done.
Qed.

(** When scheduling fails: only for a limit out of range, or for a node that
    is due and whose condition does not evaluate, unless the missing result is
    the consequence of a failed dependency. *)
Theorem PlanSchedule_total normalized run nodes backendLimit (Hids : NoDup (map ns_ID nodes)) :
  let doc := nz_Document normalized in
  (exists d, PlanSchedule normalized run nodes backendLimit = Ok d) <->
  1 <= d_MaxConcurrency doc /\ 0 <= backendLimit /\
  forall id node c, id ∈ nz_TopologicalOrder normalized -> node ∈ nodes -> ns_ID node = id ->
    ns_Phase node = NodePhasePending \/ ns_Phase node = NodePhaseReady ->
    (forall y, y ∈ depends doc id -> exists n, n ∈ nodes /\ ns_ID n = y /\ finished n = true) ->
    n_When (node_at doc id) = Some c ->
    is_ok (Evaluate (results_of nodes) c) = true \/
    conditionResultMissing (results_of nodes) c = true /\
    exists n, n ∈ nodes /\ ns_ID n ∈ depends doc id /\ fails_downstream n = true.
Proof.
  intros doc. setoid_rewrite PlanSchedule_verdicts.
  transitivity (1 <= d_MaxConcurrency doc /\ 0 <= backendLimit /\
    Forall (fun id => exists v, classify_in doc run nodes id = Ok v) (nz_TopologicalOrder normalized)).
  { split.
    - intros (d & H1 & H2 & vs & Hvs & _). split_and!; [done..|]. apply Forall_forall. intros id Hid.
      exact (Forall2_elem_l _ _ _ _ Hvs Hid).
    - intros (H1 & H2 & Hall). destruct (Forall_choice _ _ Hall) as [vs Hvs]. eauto 10. }
  rewrite Forall_forall. unfold doc. setoid_rewrite (classify_total normalized run nodes Hids). split; intros (? & ? & Hall); (split; [done|split; [done|]]); eauto.
Qed.

(** ** A run of the diamond: "z" has succeeded, "b" and "c" are due *)

Definition sample_node (id phase conclusion : string) : NodeSnapshot := {|
  ns_ProtocolVersion := 2; ns_StateSchemaVersion := 3; ns_RunID := "r"; ns_ID := id; ns_Type := "agent";
  ns_Phase := phase; ns_Conclusion := conclusion; ns_Reason := ""; ns_Diagnostic := ""; ns_Result := None;
  ns_PendingInputAnswer := None; ns_PendingRoutingTarget := None; ns_CurrentAttempt := 1;
  ns_CreatedAt := 0; ns_UpdatedAt := 0 |}.
Definition sample_run (order : list string) : WorkflowSnapshot := {|
  ws_ProtocolVersion := 2; ws_StateSchemaVersion := 3; ws_StateVersion := 7; ws_ID := "r"; ws_WorkflowName := "diamond";
  ws_Project := "p"; ws_ResolvedDriver := "codex"; ws_ResolvedTarget := "local"; ws_DeprecationWarnings := [];
  ws_Backend := "codex"; ws_EffectiveConcurrency := 2; ws_Phase := PhaseRunning; ws_Conclusion := ""; ws_Reason := "";
  ws_Summary := ""; ws_Inputs := ∅; ws_TopologicalOrder := order; ws_Nodes := ∅; ws_ActiveNodeID := "";
  ws_CancelRequested := false; ws_ActionReceipts := ∅; ws_StateDir := "d"; ws_CreatedAt := 0; ws_UpdatedAt := 0 |}.
Definition sample_normalized : Normalized := {|
  nz_Document := diamond; nz_Inputs := ∅; nz_TopologicalOrder := ["z"; "b"; "c"; "a"]; nz_Warnings := [];
  nz_ContextPolicyVersion := ""; nz_ContextBindings := ∅ |}.
Definition sample_nodes : list NodeSnapshot :=
  [sample_node "a" "pending" ""; sample_node "b" "pending" ""; sample_node "c" "ready" "";
   sample_node "z" "completed" "succeeded"].

(** The decision with a backend that declares one agent *)
Definition sample_decision : SchedulingDecision := {|
  sd_ReadyAgents := ["b"]; sd_ReadyApprovals := []; sd_SkipUpstream := []; sd_SkipConditions := [];
  sd_SkipFailurePolicy := []; sd_EffectiveLimit := 1; sd_ActiveAgents := 0; sd_AvailableAgents := 0;
  sd_StopScheduling := false; sd_Complete := false |}.

Lemma sample_plan :
  PlanSchedule sample_normalized (sample_run ["z"; "b"; "c"; "a"]) sample_nodes 1 = Ok sample_decision.
Proof. vm_compute. reflexivity. Qed.

Lemma sample_ids : NoDup (map ns_ID sample_nodes).
Proof. apply (bool_decide_unpack _). vm_compute. exact I. Qed.

(** The same node failed: "b" and "c" are skipped *)
Definition failed_nodes : list NodeSnapshot :=
  [sample_node "a" "pending" ""; sample_node "b" "pending" ""; sample_node "c" "ready" "";
   sample_node "z" "completed" "failed"].
Definition failed_decision : SchedulingDecision := {|
  sd_ReadyAgents := []; sd_ReadyApprovals := []; sd_SkipUpstream := ["b"; "c"]; sd_SkipConditions := [];
  sd_SkipFailurePolicy := []; sd_EffectiveLimit := 2; sd_ActiveAgents := 0; sd_AvailableAgents := 2;
  sd_StopScheduling := true; sd_Complete := false |}.

Lemma PlanSchedule_ready_witness :
  exists agents,
    agents `sublist_of` ["z"; "b"; "c"; "a"] /\
    (forall id, id ∈ agents <-> id ∈ ["z"; "b"; "c"; "a"] /\ n_Type (node_at diamond id) <> "approval" /\
       exists node, startable sample_normalized (sample_run ["z"; "b"; "c"; "a"]) sample_nodes id node) /\
    ["b"] = take 1 agents /\
    (forall id, id ∈ [] <-> id ∈ ["z"; "b"; "c"; "a"] /\ n_Type (node_at diamond id) = "approval" /\
       exists node, startable sample_normalized (sample_run ["z"; "b"; "c"; "a"]) sample_nodes id node).
Proof. exact (PlanSchedule_ready _ _ _ _ _ sample_ids sample_plan). Defined.

Lemma PlanSchedule_capacity_witness :
  EffectiveConcurrency 2 1 = Ok 1 /\ 1 <= 1 <= 8 /\ 1 <= 2 /\ (0 < 1 -> 1 <= 1) /\
  0 = Z.of_nat (length (base.filter (fun n => is_active n = true) sample_nodes)) /\
  0 + Z.of_nat (length ["b"]) <= Z.max 0 1 /\ 0 = Z.max 0 (1 - 0) - Z.of_nat (length ["b"]) /\ 0 <= 0.
Proof. exact (PlanSchedule_capacity _ _ _ _ _ sample_plan). Defined.

Lemma PlanSchedule_skips_witness :
  NoDup (["b"; "c"] : list string) /\
  forall id, id ∈ ["b"; "c"] -> exists n, n ∈ failed_nodes /\ ns_ID n ∈ depends diamond id /\ fails_downstream n = true.
Proof.
  assert (PlanSchedule sample_normalized (sample_run ["z"; "b"; "c"; "a"]) failed_nodes 0 = Ok failed_decision) as Hplan
    by (vm_compute; reflexivity).
  assert (NoDup (map ns_ID failed_nodes)) as Hids by (apply (bool_decide_unpack _); vm_compute; exact I).
  assert (NoDup ["z"; "b"; "c"; "a"]) as Ho by (apply (bool_decide_unpack _); vm_compute; exact I).
  destruct (PlanSchedule_skips sample_normalized _ _ _ _ Hids Ho Hplan) as [Hnd Hall]. split; [exact Hnd|].
  intros id Hid. destruct (Hall id Hid) as (node & _ & _ & _ & _ & Hup & _). exact (Hup Hid).
Defined.

Lemma PlanSchedule_progress_witness :
  sd_Complete sample_decision = false /\
  sd_ReadyAgents sample_decision ++ sd_ReadyApprovals sample_decision ++ sd_SkipUpstream sample_decision ++
    sd_SkipConditions sample_decision ++ sd_SkipFailurePolicy sample_decision <> [].
Proof.
  split; [reflexivity|].
  apply (PlanSchedule_progress sample_normalized (sample_run ["z"; "b"; "c"; "a"]) sample_nodes 1).
  - exact sample_ids.
  - apply (bool_decide_unpack _). vm_compute. exact I.
  - destruct (TopologicalOrder_ok _ _ diamond_order) as (_ & _ & Hfirst). exact Hfirst.
  - repeat constructor.
  - repeat (constructor; [split; discriminate|]). constructor.
  - exact sample_plan.
  - reflexivity.
Defined.

Lemma PlanSchedule_order_independent_witness :
  PlanSchedule sample_normalized (sample_run ["z"; "b"; "c"; "a"]) sample_nodes 1 =
  PlanSchedule sample_normalized (sample_run ["z"; "b"; "c"; "a"]) (reverse sample_nodes) 1.
Proof. apply PlanSchedule_order_independent; [exact sample_ids|]. symmetry. apply reverse_Permutation. Defined.

Lemma PlanSchedule_total_witness :
  exists d, PlanSchedule sample_normalized (sample_run ["z"; "b"; "c"; "a"]) sample_nodes 0 = Ok d.
Proof.
  apply PlanSchedule_total; [exact sample_ids|]. split; [vm_compute; discriminate|]. split; [done|].
  intros id node c Hid _ _ _ _. repeat (apply elem_of_cons in Hid as [->|Hid]; [discriminate|]). inversion Hid.
Defined.
