(* ===== verification/Layers.v ===== *)
(** * Layers and context sources

    How internal/application/service.go shows the graph of a workflow:
    topologyProjection (and the same loop of WorkflowExplain) puts every node into
    a layer that can run in parallel, orderedAncestors and orderedContextSources
    list the nodes whose results a node may see. *)

From S2P Require Import Prelude GoText Routing Workflow Topology Validate ValidateTheory.
#[local] Open Scope string_scope.
#[local] Open Scope list_scope.
#[local] Open Scope nat_scope.

(** ** Layers *)

Record topologyNodeView := { tv_DependsOn : list string; tv_ParallelLayer : nat }.

(** The loop over the dependencies: one more than the highest level among them *)
Definition node_level (levels : gmap string nat) (dependencies : list string) : nat :=
  foldl (fun level dependency =>
           let candidate := default 0 (levels !! dependency) + 1 in if level <? candidate then candidate else level)
        0 dependencies.
(** Appending to a layer, the list of layers being extended up to it *)
Definition add_to_layer (level : nat) (id : string) (layers : list (list string)) : list (list string) :=
  alter (fun layer => layer ++ [id]) level (layers ++ replicate (S level - length layers) []).

Notation projection := (gmap string nat * gmap string topologyNodeView * list (list string))%type.
Definition project_node (doc : Document) (s : projection) (nodeID : string) : projection :=
  let '(levels, projected, layers) := s in
  match d_Nodes doc !! nodeID with
  | None => s
  | Some definition =>
      let level := node_level levels (n_DependsOn definition) in
      (<[nodeID := level]> levels,
       <[nodeID := {| tv_DependsOn := n_DependsOn definition; tv_ParallelLayer := level |}]> projected,
       add_to_layer level nodeID layers)
  end.
Definition topologyProjection (doc : Document) (order : list string) : gmap string topologyNodeView * list (list string) :=
  let '(_, projected, layers) := foldl (project_node doc) (∅, ∅, []) order in (projected, layers).

(** ** Context sources *)

Definition orderedAncestors (normalized : Normalized) (nodeID : string) : list string :=
  base.filter (fun id => id ∈ ancestors (nz_Document normalized) nodeID) (nz_TopologicalOrder normalized).
Definition orderedContextSources (normalized : Normalized) (nodeID : string) (policy : ContextPolicy) : list string :=
  if nz_ContextPolicyVersion normalized ≠s "context-policy/v1" then orderedAncestors normalized nodeID
  else List.filter (fun candidate => contains_string (cp_Dependencies policy) candidate) (nz_TopologicalOrder normalized).

(** What an attempt of a node is given of the results so far (run/service.go) *)
Definition contextDependencySet (normalized : Normalized) (nodeID : string) : gset string :=
  let doc := nz_Document normalized in
  if nz_ContextPolicyVersion normalized ≠s "context-policy/v1" then ancestors doc nodeID
  else list_to_set (cp_Dependencies (EffectiveContextPolicy doc (node_at doc nodeID))).
Definition dependencyResults (normalized : Normalized) (nodeID : string) (results : gmap string Result) : gmap string Result :=
  base.filter (fun entry => entry.1 ∈ contextDependencySet normalized nodeID) results.

Example diamond_layers :
  (topologyProjection diamond ["z"; "b"; "c"; "a"]).2 = [["z"]; ["b"; "c"]; ["a"]].
Proof. vm_compute. reflexivity. Qed.

(** ** The longest chain *)

(** [n] is the length of the longest chain of dependencies below [id]. *)
Definition longest (doc : Document) (id : string) (n : nat) : Prop :=
  (exists y, nsteps (depends_on doc) n id y) /\ forall m y, nsteps (depends_on doc) m id y -> m <= n.

Lemma node_level_spec levels dependencies :
  let level := node_level levels dependencies in
  (level = 0 /\ dependencies = [] \/ exists d, d ∈ dependencies /\ level = default 0 (levels !! d) + 1) /\
  forall d, d ∈ dependencies -> default 0 (levels !! d) + 1 <= level.
Proof.
  unfold node_level. induction dependencies as [|d dependencies IH] using rev_ind; [split; [by left|by intros ? ?%elem_of_nil]|].
  rewrite foldl_app. cbn [foldl]. cbv zeta. destruct IH as [Hmax Hall]. set (level := foldl _ _ _) in *.
  destruct (Nat.ltb_spec level (default 0 (levels !! d) + 1)).
  - split; [right; exists d; split; [apply elem_of_app; right; apply list_elem_of_here|done]|]. intros e [He|He%list_elem_of_singleton]%elem_of_app; [specialize (Hall e He); lia|by subst].
  - split.
    + right. destruct Hmax as [[-> ->]|(e & He & ->)]; [lia|]. exists e. split; [by apply elem_of_app; left|done].
    + intros e [He|He%list_elem_of_singleton]%elem_of_app; [by apply Hall|by subst].
Qed.

Lemma longest_next doc levels id :
  (forall d, d ∈ depends doc id -> exists n, levels !! d = Some n /\ longest doc d n) ->
  longest doc id (node_level levels (depends doc id)).
Proof.
  intros Hdeps. destruct (node_level_spec levels (depends doc id)) as [Hmax Hall]. split.
  - destruct Hmax as [[-> Hnil]|(d & Hd & ->)]; [exists id; constructor|].
    destruct (Hdeps d Hd) as (n & -> & [(y & Hy) _]). exists y. cbn. rewrite Nat.add_1_r. by eapply nsteps_l.
  - intros m y Hy. destruct Hy as [|m x d y Hd Hy]; [lia|]. specialize (Hall d Hd). destruct (Hdeps d Hd) as (n & Hn & [_ Hlong]).
    rewrite Hn in Hall. cbn in Hall. specialize (Hlong m y Hy). lia.
Qed.

(** ** Appending to a layer *)

Section add.
  Context (level : nat) (id : string) (layers : list (list string)).

Lemma add_to_layer_elsewhere k : k <> level -> k < length layers -> add_to_layer level id layers !! k = layers !! k.
Proof. intros Hk Hl. unfold add_to_layer. rewrite list_lookup_alter_ne by done. by rewrite lookup_app_l. Qed.

Lemma add_to_layer_length : length (add_to_layer level id layers) = max (length layers) (S level).
Proof. unfold add_to_layer. rewrite length_alter, length_app, length_replicate. lia. Qed.

Lemma add_to_layer_at : level <= length layers -> add_to_layer level id layers !! level = Some (default [] (layers !! level) ++ [id]).
Proof.
  intros Hl. unfold add_to_layer. rewrite list_lookup_alter, decide_True by done. destruct (decide (level = length layers)) as [Heq|Hne].
  - rewrite lookup_app_r by lia. rewrite (lookup_ge_None_2 layers) by lia. replace (S level - length layers) with 1 by lia.
    by replace (level - length layers) with 0 by lia.
  - rewrite lookup_app_l by lia. destruct (lookup_lt_is_Some_2 layers level) as [l ->]; [lia|done].
Qed.

Lemma add_to_layer_concat : concat (add_to_layer level id layers) ≡ₚ id :: concat layers.
Proof.
  unfold add_to_layer. set (more := layers ++ _).
  assert (concat more = concat layers) as <-.
  { subst more. rewrite concat_app. assert (forall n, concat (replicate n (@nil string)) = []) as -> by (by induction n). by rewrite app_nil_r. }
  assert (level < length more) as Hl by (subst more; rewrite length_app, length_replicate; lia).
  clearbody more. revert more Hl. clear. induction level as [|n IH]; intros [|l more] Hl; cbn in Hl; [lia| |lia|].
  - cbn. rewrite <-app_assoc. symmetry. apply Permutation_middle.
  - cbn. change (alter _ (S n) (l :: more)) with (l :: alter (fun layer => layer ++ [id]) n more). cbn.
    rewrite IH by lia. symmetry. apply Permutation_middle.
Qed.
End add.

(** ** The projection *)

Section projection.
  Context (doc : Document).

(** The loop has placed the nodes [done]. *)
Record placed (done : list string) (s : projection) : Prop := {
  pl_levels : forall id, id ∈ done -> exists n, s.1.1 !! id = Some n /\ longest doc id n /\
    s.1.2 !! id = Some {| tv_DependsOn := depends doc id; tv_ParallelLayer := n |};
  pl_known : forall id n, s.1.1 !! id = Some n -> id ∈ done;
  pl_layers : forall k layer, s.2 !! k = Some layer ->
    layer <> [] /\ forall id, id ∈ layer <-> s.1.1 !! id = Some k;
  pl_bounded : forall id n, s.1.1 !! id = Some n -> n < length s.2;
  pl_all : concat s.2 ≡ₚ done }.

Lemma project_node_placed done s id :
  placed done s -> is_Some (d_Nodes doc !! id) -> id ∉ done -> (forall d, d ∈ depends doc id -> d ∈ done) ->
  placed (done ++ [id]) (project_node doc s id).
Proof.
  destruct s as [[levels projected] layers]. intros [Hlev Hkn Hlay Hbound Hall] [definition Hdef] Hnew Hdeps. cbn [fst snd] in *.
  unfold project_node. rewrite Hdef.
  assert (n_DependsOn definition = depends doc id) as Hn by (by unfold node_at; rewrite Hdef). rewrite Hn.
  set (level := node_level levels (depends doc id)).
  assert (longest doc id level) as Hlong.
  { apply longest_next. intros d Hd. destruct (Hlev d (Hdeps d Hd)) as (n & ? & ? & _). eauto. }
  assert (level <= length layers) as Hle.
  { destruct (node_level_spec levels (depends doc id)) as [[[? _]|(d & Hd & Hl)] _]; subst level; [lia|].
    destruct (Hlev d (Hdeps d Hd)) as (n & Hd' & _). specialize (Hbound d n Hd'). rewrite Hd' in Hl. cbn in Hl. lia. }
  assert (levels !! id = None) as Hnone by (destruct (levels !! id) as [n|] eqn:E; [by apply Hkn in E|done]).
  clearbody level. constructor; cbn [fst snd].
  - intros x [Hx|Hx%list_elem_of_singleton]%elem_of_app.
    + assert (id <> x) as Hne by (intros ->; done). rewrite !lookup_insert_ne by done. by apply Hlev.
    + subst x. exists level. rewrite !lookup_insert_eq. done.
  - intros x n. destruct (decide (id = x)) as [->|Hne]; [set_solver|]. rewrite lookup_insert_ne by done. intros Hx%Hkn. set_solver.
  - intros k layer Hk. destruct (decide (k = level)) as [->|Hne].
    + rewrite add_to_layer_at in Hk by done. injection Hk as <-. split; [by destruct (default [] (layers !! level))|].
      intros x. rewrite elem_of_app, list_elem_of_singleton. destruct (decide (id = x)) as [->|Hx].
      * rewrite lookup_insert_eq. split; [done|by right].
      * rewrite lookup_insert_ne by done. split; [intros [Hin|?]; [|congruence]|intros Hin; left].
        -- destruct (layers !! level) as [l|] eqn:Hl; cbn in Hin; [|by apply elem_of_nil in Hin]. by apply (Hlay level l).
        -- destruct (lookup_lt_is_Some_2 layers level (Hbound x level Hin)) as [l Hl]. rewrite Hl. cbn. by apply (Hlay level l).
    + apply lookup_lt_Some in Hk as Hlt. rewrite add_to_layer_length in Hlt.
      rewrite add_to_layer_elsewhere in Hk by lia. destruct (Hlay k layer Hk) as [Hnil Hin]. split; [done|].
      intros x. destruct (decide (id = x)) as [->|Hx]; [|by rewrite lookup_insert_ne].
      rewrite lookup_insert_eq, Hin, Hnone. split; [done|congruence].
  - intros x n. rewrite add_to_layer_length. destruct (decide (id = x)) as [->|Hx].
    + rewrite lookup_insert_eq. intros [= <-]. lia.
    + rewrite lookup_insert_ne by done. intros Hn'%Hbound. lia.
  - by rewrite add_to_layer_concat, Hall, Permutation_cons_append.
Qed.

Lemma projection_placed order :
  NoDup order -> (forall id, id ∈ order -> is_Some (d_Nodes doc !! id)) -> dependencies_first doc order ->
  placed order (foldl (project_node doc) (∅, ∅, []) order).
Proof.
  induction order as [|id order IH] using rev_ind; intros Hnd Hin Hfirst.
  - constructor; cbn; try done. by intros ? ?%elem_of_nil.
  - rewrite foldl_app. apply NoDup_app in Hnd as (Hnd & Hid & _). apply project_node_placed.
    + apply IH; [done|set_solver|]. intros i x Hx. specialize (Hfirst i x). rewrite take_app_le in Hfirst by (apply lookup_lt_Some in Hx; lia).
      apply Hfirst. by apply lookup_app_l_Some.
    + apply Hin. set_solver.
    + intros Hid'. specialize (Hid id Hid'). set_solver.
    + specialize (Hfirst (length order) id). rewrite take_app_length in Hfirst. rewrite Forall_forall in Hfirst.
      apply Hfirst. by rewrite list_lookup_middle.
Qed.
End projection.

(** C34: The layers shown for a workflow without a cycle contain every node once
    and none is empty; a node is in layer k exactly when its longest chain of
    dependencies has k steps, so that every dependency is in an earlier layer
    and no node could be in an earlier one. *)
Theorem layers_are_longest_chains `{GoRange} doc order :
  TopologicalOrder doc = Ok order ->
  let '(projected, layers) := topologyProjection doc order in
  concat layers ≡ₚ order /\
  (forall k layer, layers !! k = Some layer -> layer <> []) /\
  (forall id, id ∈ order -> exists k layer, layers !! k = Some layer /\ id ∈ layer /\ longest doc id k /\
     projected !! id = Some {| tv_DependsOn := depends doc id; tv_ParallelLayer := k |}) /\
  (forall k layer id d, layers !! k = Some layer -> id ∈ layer -> d ∈ depends doc id ->
     exists j earlier, j < k /\ layers !! j = Some earlier /\ d ∈ earlier).
Proof.
  intros Horder. pose proof (TopologicalOrder_spec doc) as Hspec. rewrite Horder in Hspec. destruct Hspec as (_ & Hperm & Hfirst).
  assert (NoDup order) as Hnd by (rewrite Hperm; apply NoDup_fst_map_to_list).
  assert (placed doc order (foldl (project_node doc) (∅, ∅, []) order)) as [Hlev Hkn Hlay Hbound Hall].
  { apply projection_placed; [done| |done]. intros id. rewrite Hperm, list_elem_of_fmap.
    intros ([k n] & -> & Hk%elem_of_map_to_list). cbn. eauto. }
  unfold topologyProjection. destruct (foldl _ _ _) as [[levels projected] layers]. cbn [fst snd] in *.
  assert (forall id n, levels !! id = Some n -> exists layer, layers !! n = Some layer /\ id ∈ layer) as Hplace.
  { intros id n Hid. destruct (lookup_lt_is_Some_2 layers n (Hbound id n Hid)) as [layer Hl]. exists layer. by rewrite (proj2 (Hlay n layer Hl) id). }
  split_and!; [done|naive_solver| |].
  - intros id (n & Hn & Hlong & Hview)%Hlev. destruct (Hplace id n Hn) as (layer & ? & ?). eauto 10.
  - intros k layer id d Hl Hid Hd. apply (Hlay k layer Hl) in Hid as Hk.
    destruct (Hlev id (Hkn id k Hk)) as (k' & Hk' & [_ Hmax] & _). rewrite Hk in Hk'. injection Hk' as <-.
    assert (d ∈ order) as Hdo.
    { apply Hkn, list_elem_of_lookup in Hk as [i Hi]. specialize (Hfirst i id Hi). rewrite Forall_forall in Hfirst.
      specialize (Hfirst d Hd). by apply elem_of_take in Hfirst as (j & Hj%list_elem_of_lookup_2 & _). }
    destruct (Hlev d Hdo) as (j & Hj & [(y & Hy) _] & _). destruct (Hplace d j Hj) as (earlier & ? & ?). exists j, earlier.
    split_and!; [|done|done]. specialize (Hmax (S j) y). apply Hmax. by eapply nsteps_l.
Qed.

Lemma layers_are_longest_chains_witness :
  concat (topologyProjection diamond ["z"; "b"; "c"; "a"]).2 ≡ₚ ["z"; "b"; "c"; "a"].
Proof.
  pose proof (@layers_are_longest_chains canonical_range diamond ["z"; "b"; "c"; "a"] diamond_order) as Hl.
  destruct (topologyProjection diamond ["z"; "b"; "c"; "a"]). destruct Hl as [Hl _]. exact Hl.
Defined.

(** ** Context sources *)

Lemma context_sources_elem normalized nodeID policy id :
  id ∈ orderedContextSources normalized nodeID policy <-> id ∈ nz_TopologicalOrder normalized /\
    (if nz_ContextPolicyVersion normalized =s "context-policy/v1" then id ∈ cp_Dependencies policy
     else tc (depends_on (nz_Document normalized)) nodeID id).
Proof.
  unfold orderedContextSources. destruct (nz_ContextPolicyVersion normalized =s "context-policy/v1")%go; cbn [negb].
  - rewrite !list_elem_of_In, filter_In. unfold contains_string. rewrite existsb_exists. setoid_rewrite String.eqb_eq. naive_solver.
  - unfold orderedAncestors. rewrite list_elem_of_filter, elem_of_ancestors. naive_solver.
Qed.

Lemma context_sources_sublist normalized nodeID policy :
  orderedContextSources normalized nodeID policy `sublist_of` nz_TopologicalOrder normalized.
Proof.
  unfold orderedContextSources. destruct (nz_ContextPolicyVersion normalized =s "context-policy/v1")%go; cbn [negb].
  - induction (nz_TopologicalOrder normalized) as [|x order IH]; cbn; [done|]. destruct (contains_string _ _); by constructor.
  - apply sublist_filter.
Qed.

(** C35: For an accepted document the context sources that are shown for a node
    are, each once and in topological order, the nodes whose results an attempt
    of the node is given as far as they have one; and such a result is never that
    of a node that the node does not depend on, directly or indirectly. *)
Theorem shown_sources_are_given `{GoRange} normalized nodeID node results :
  let doc := nz_Document normalized in
  Validate doc = Ok (nz_TopologicalOrder normalized) -> d_Nodes doc !! nodeID = Some node ->
  let sources := orderedContextSources normalized nodeID (EffectiveContextPolicy doc node) in
  sources `sublist_of` nz_TopologicalOrder normalized /\ NoDup sources /\
  dom (dependencyResults normalized nodeID results) = list_to_set sources ∩ dom results /\
  forall id, id ∈ dom (dependencyResults normalized nodeID results) -> tc (depends_on doc) nodeID id.
Proof.
  intros doc Hvalid Hnode sources. pose proof (context_sources_sublist normalized nodeID (EffectiveContextPolicy doc node)) as Hsub.
  apply Validate_ok in Hvalid as [Hok (_ & Hperm & Hfirst)%TopologicalOrder_ok].
  destruct (doc_node _ Hok nodeID node Hnode) as [_ _ _ _ [_ _ Hpolicy _] _ _]. rewrite Forall_forall in Hpolicy.
  assert (nodeID ∈ nz_TopologicalOrder normalized) as [i Hi]%list_elem_of_lookup.
  { rewrite Hperm. apply list_elem_of_fmap. exists (nodeID, node). by rewrite elem_of_map_to_list. }
  assert (forall id, tc (depends_on doc) nodeID id -> id ∈ nz_TopologicalOrder normalized) as Hin.
  { intros id Htc. pose proof (dependencies_first_tc doc _ Hfirst nodeID id Htc i Hi) as (j & Hj & _)%elem_of_take.
    by eapply list_elem_of_lookup_2. }
  assert (forall id, id ∈ contextDependencySet normalized nodeID <-> id ∈ sources /\ tc (depends_on doc) nodeID id) as Hset.
  { intros id. unfold sources. rewrite context_sources_elem. unfold contextDependencySet. fold doc.
    assert (node_at doc nodeID = node) as -> by (unfold node_at; by rewrite Hnode).
    destruct (nz_ContextPolicyVersion normalized =s "context-policy/v1")%go; cbn [negb].
    - rewrite elem_of_list_to_set. naive_solver.
    - rewrite elem_of_ancestors. naive_solver. }
  assert (forall id, id ∈ sources -> id ∈ contextDependencySet normalized nodeID) as Hsources.
  { intros id Hid. apply Hset. split; [done|]. unfold sources in Hid. apply context_sources_elem in Hid as [_ Hid].
    destruct (nz_ContextPolicyVersion normalized =s "context-policy/v1")%go; [by apply Hpolicy|done]. }
  split_and!; [done| | |].
  - eapply sublist_NoDup; [|done]. rewrite Hperm. apply NoDup_fst_map_to_list.
  - apply set_eq. intros id. rewrite elem_of_intersection, elem_of_list_to_set, !elem_of_dom. unfold dependencyResults. split.
    + intros [r [Hr Hid]%map_lookup_filter_Some]. split; [by apply Hset|eauto].
    + intros [Hid [r Hr]]. exists r. apply map_lookup_filter_Some. split; [done|by apply Hsources].
  - intros id [r [_ Hid]%map_lookup_filter_Some]%elem_of_dom. by apply Hset.
Qed.

Definition review_normalized : Normalized := {|
  nz_Document := review_document; nz_Inputs := ∅; nz_TopologicalOrder := ["build"; "accept"]; nz_Warnings := [];
  nz_ContextPolicyVersion := "context-policy/v1"; nz_ContextBindings := ∅ |}.
Lemma shown_sources_are_given_witness :
  NoDup (orderedContextSources review_normalized "accept" (EffectiveContextPolicy review_document (node_at review_document "accept"))).
Proof.
  apply (@shown_sources_are_given canonical_range review_normalized "accept" (node_at review_document "accept") ∅).
  - vm_compute. reflexivity.
  - reflexivity.
Defined.
