(* ===== verification/RunConclusion.v ===== *)
(** * How a run ends

    aggregateRunState computes the phase and the conclusion of a run from its
    nodes after every change. *)

From S2P Require Import Prelude GoText Routing Resolver Catalog Workflow Topology Context Backend RunState Scheduler.
From S2P Require Import SchedulerTheory.
#[local] Open Scope string_scope.
#[local] Open Scope list_scope.
#[local] Open Scope Z_scope.

(** ** Valid snapshots *)

Lemma validate_receipt_ok version id r :
  validate_receipt version id r = Ok tt <->
  (id <> "" /\ rc_ActionID r = id /\ rc_RequestHash r <> "" /\ rc_StateVersion r <> 0 /\ rc_StateVersion r <= version /\
   validPhase (rc_Phase r) = true) /\
  (Bool.eqb (rc_Phase r =s PhaseCompleted) (rc_Conclusion r ≠s "") = true /\
   (rc_Conclusion r <> "" -> validConclusion (rc_Conclusion r) = true)).
Proof.
  unfold validate_receipt. rewrite !fail_if_ok, !orb_false_iff, andb_false_iff, !negb_false_iff.
  rewrite !String.eqb_neq, Z.eqb_neq, Z.ltb_ge, !String.eqb_eq.
  destruct (decide (rc_Conclusion r = "")); naive_solver.
Qed.

Section Snapshots.
Context `{GoRange}.

(** What a snapshot's receipts and schema need *)
Definition base_valid (s : WorkflowSnapshot) : Prop :=
  validateStateSchemaVersion (ws_StateSchemaVersion s) "run" = Ok tt /\
  forall id r, ws_ActionReceipts s !! id = Some r -> validate_receipt (ws_StateVersion s) id r = Ok tt.

Lemma validate_snapshot_iff s :
  ValidateWorkflowSnapshot s = Ok tt <->
  base_valid s /\ validPhase (ws_Phase s) = true /\
  (ws_Conclusion s ≠s "") && negb (validConclusion (ws_Conclusion s)) = false /\
  (ws_Reason s ≠s "") && negb (validReason (ws_Reason s)) = false /\
  (ws_Phase s =s PhaseCompleted) = (ws_Conclusion s ≠s "") /\
  (ws_Phase s ≠s PhaseWaiting) && (ws_Phase s ≠s PhasePaused) && (ws_Phase s ≠s PhaseCancelling) && (ws_Reason s ≠s "") &&
    negb (ws_Phase s =s PhaseCompleted) = false.
Proof.
  unfold ValidateWorkflowSnapshot, base_valid. rewrite bind_unit_ok, !fail_if_ok.
  rewrite (go_range_check "ValidateWorkflowSnapshot" _ (fun '(actionID, receipt) => validate_receipt _ actionID receipt)).
  unfold map_Forall. rewrite !negb_false_iff, eqb_true_iff. tauto.
Qed.

Lemma valid_base s : ValidateWorkflowSnapshot s = Ok tt -> base_valid s.
Proof. by intros [Hb _]%validate_snapshot_iff. Qed.

Lemma validate_running s :
  ws_Phase s = PhaseRunning -> ws_Conclusion s = "" -> ws_Reason s = "" -> base_valid s -> ValidateWorkflowSnapshot s = Ok tt.
Proof. intros Hp Hc Hr Hb. apply validate_snapshot_iff. by rewrite Hp, Hc, Hr. Qed.
End Snapshots.

(** ** The conclusion *)

Definition concluded (conclusion : string) (nodes : list NodeSnapshot) : bool :=
  existsb (fun n => ns_Conclusion n =s conclusion) nodes.

(** The reference: the worst conclusion of a node decides. *)
Definition worst (rejected_branch : bool) (nodes : list NodeSnapshot) : string * string :=
  if concluded ConclusionFailed nodes then (ConclusionFailed, ReasonUpstreamFailed)
  else if concluded ConclusionIndeterminate nodes then (ConclusionIndeterminate, "")
  else if concluded ConclusionRejected nodes && negb rejected_branch then (ConclusionRejected, "")
  else (ConclusionSucceeded, "").

Lemma conclude_spec start nodes :
  start = ConclusionSucceeded \/ start = ConclusionRejected \/ start = ConclusionIndeterminate ->
  conclude start nodes =
    if concluded ConclusionFailed nodes then inr ConclusionFailed
    else inl (if concluded ConclusionIndeterminate nodes then ConclusionIndeterminate
              else if (start =s ConclusionSucceeded) && concluded ConclusionRejected nodes then ConclusionRejected else start).
Proof.
  revert start. induction nodes as [|n nodes IH]; intros start Hstart; cbn [conclude concluded existsb].
  { by rewrite andb_false_r. }
  fold (concluded ConclusionFailed nodes) (concluded ConclusionIndeterminate nodes) (concluded ConclusionRejected nodes).
  destruct (ns_Conclusion n =s ConclusionFailed); [done|]. cbn [orb]. rewrite IH.
  - destruct (concluded ConclusionFailed nodes); [done|].
    destruct (ns_Conclusion n =s ConclusionIndeterminate), (ns_Conclusion n =s ConclusionRejected),
      (concluded ConclusionIndeterminate nodes), (concluded ConclusionRejected nodes), Hstart as [->|[-> | ->]]; reflexivity.
  - destruct (ns_Conclusion n =s ConclusionIndeterminate); destruct (ns_Conclusion n =s ConclusionRejected);
      destruct Hstart as [->|[-> | ->]]; cbn; tauto.
Qed.

Lemma aggregateConclusion_worst `{GoRange} nodes doc :
  aggregateConclusion nodes doc = worst (hasEligibleRejectedBranch doc nodes) nodes.
Proof.
  unfold aggregateConclusion, worst. rewrite conclude_spec by by left.
  destruct (concluded ConclusionFailed nodes); [done|]. destruct (concluded ConclusionIndeterminate nodes); [done|]. cbn.
  by destruct (concluded ConclusionRejected nodes), (hasEligibleRejectedBranch doc nodes).
Qed.

(** ** The phase *)

Definition running_agent (n : NodeSnapshot) : bool := (ns_Phase n =s NodePhaseRunning) && (ns_Type n =s "agent").
Definition waiting_agent (n : NodeSnapshot) : bool := (ns_Phase n =s NodePhaseWaiting) && (ns_Type n =s "agent").
Definition waiting_other (n : NodeSnapshot) : bool := (ns_Phase n =s NodePhaseWaiting) && negb (ns_Type n =s "agent").
Definition unstarted (n : NodeSnapshot) : bool := (ns_Phase n =s NodePhasePending) || (ns_Phase n =s NodePhaseReady).

Lemma aggregate_fold nodes s :
  let s' := foldl aggregate_node s nodes in
  ag_activeRunning s' = ag_activeRunning s + len_slice (List.filter running_agent nodes) /\
  ag_waitingAgents s' = ag_waitingAgents s ++ List.filter waiting_agent nodes /\
  ag_waitingApprovals s' = ag_waitingApprovals s ++ List.filter waiting_other nodes /\
  ag_pending s' = ag_pending s + len_slice (List.filter unstarted nodes).
Proof.
  revert s. induction nodes as [|n nodes IH]; intros s; cbn [foldl List.filter].
  { cbn. rewrite !app_nil_r, !Z.add_0_r. done. }
  destruct (IH (aggregate_node s n)) as (Hr & Ha & Ho & Hp). cbn zeta. rewrite Hr, Ha, Ho, Hp. clear.
  unfold running_agent, waiting_agent, waiting_other, unstarted. cbn [aggregate_node ag_activeRunning ag_waitingAgents ag_waitingApprovals ag_pending].
  unfold len_slice. split_and!.
  - destruct (_ && _); cbn [length]; lia.
  - destruct (_ && _); by rewrite <-app_assoc.
  - destruct (_ && _); by rewrite <-app_assoc.
  - destruct (_ || _); cbn [length]; lia.
Qed.

Lemma filter_nil {A} (p : A -> bool) l : List.filter p l = [] <-> existsb p l = false.
Proof. induction l as [|x l IH]; cbn; [done|]. destruct (p x); cbn; [done|exact IH]. Qed.

Lemma filter_positive {A} (p : A -> bool) l : (0 <? len_slice (List.filter p l)) = existsb p l.
Proof.
  destruct (existsb p l) eqn:E.
  - destruct (List.filter p l) eqn:Ef; [apply filter_nil in Ef; congruence|]. apply Z.ltb_lt. unfold len_slice. cbn. lia.
  - by apply filter_nil in E as ->.
Qed.

(** The phase that the nodes determine *)
Definition run_phase (nodes : list NodeSnapshot) : string :=
  if existsb running_agent nodes then PhaseRunning
  else if existsb waiting_agent nodes || existsb waiting_other nodes then PhaseWaiting
  else if existsb unstarted nodes then PhaseRunning
  else PhaseCompleted.

Section Aggregate.
Context `{GoRange} (run : WorkflowSnapshot) (nodes : list NodeSnapshot) (doc : Document) (t : Z).

Lemma aggregate_cases :
  let '(run', event, stop) := aggregateRunState run nodes doc t in
  exists reason active summary,
    run' = set_run run (run_phase nodes) (if run_phase nodes =s PhaseCompleted then (worst (hasEligibleRejectedBranch doc nodes) nodes).1 else "")
             reason active summary t /\
    event = "run." +:+ run_phase nodes /\ stop = negb (run_phase nodes =s PhaseRunning) /\
    (reason = "" \/ reason = ReasonApprovalRequired \/ reason = (worst (hasEligibleRejectedBranch doc nodes) nodes).2 /\ run_phase nodes = PhaseCompleted \/
     exists n, n ∈ nodes /\ waiting_agent n = true /\ reason = ns_Reason n) /\
    (run_phase nodes = PhaseRunning -> reason = "").
Proof.
  destruct (aggregate_fold nodes aggregate_start) as (Hr & Ha & Ho & Hp). cbn [aggregate_start ag_activeRunning ag_waitingAgents ag_waitingApprovals ag_pending app] in *.
  unfold aggregateRunState. rewrite Hr, Ha, Ho, Hp, !Z.add_0_l, !filter_positive. unfold run_phase.
  destruct (existsb running_agent nodes); [eexists _, _, _; split_and!; eauto|].
  destruct (List.filter waiting_agent nodes) as [|n l] eqn:Ea.
  2:{ assert (existsb waiting_agent nodes = true) as -> by (apply not_false_iff_true; rewrite <-filter_nil; congruence).
      assert (n ∈ nodes /\ waiting_agent n = true) as [Hn Hw].
      { assert (In n (List.filter waiting_agent nodes)) as Hin by (rewrite Ea; by left). apply filter_In in Hin as [Hin Hw].
        split; [by apply list_elem_of_In|done]. }
      eexists _, _, _. split_and!; [reflexivity..| |done]. right. right. right. by exists n. }
  apply filter_nil in Ea as ->. cbn [orb].
  destruct (List.filter waiting_other nodes) as [|n l] eqn:Eo.
  2:{ assert (existsb waiting_other nodes = true) as -> by (apply not_false_iff_true; rewrite <-filter_nil; congruence).
      eexists _, _, _. split_and!; [reflexivity..| |done]. by right; left. }
  apply filter_nil in Eo as ->. destruct (existsb unstarted nodes); [eexists _, _, _; split_and!; eauto|].
  rewrite aggregateConclusion_worst. destruct (worst _ _) as [conclusion reason]. eexists _, _, _. split_and!; [reflexivity..| |done].
  by right; right; left.
Qed.
End Aggregate.

Lemma validate_node_reason n : ValidateNodeSnapshot n = Ok tt -> (ns_Reason n ≠s "") && negb (validReason (ns_Reason n)) = false.
Proof.
  unfold ValidateNodeSnapshot. intros Hv. apply bind_unit_ok in Hv as [_ Hv]. rewrite !fail_if_ok in Hv. by destruct Hv as (_ & _ & Hr & _).
Qed.

Lemma existsb_perm {A} (p : A -> bool) l l' : l ≡ₚ l' -> existsb p l = existsb p l'.
Proof.
  intros Hp. apply eq_true_iff_eq. rewrite !existsb_exists. setoid_rewrite <-list_elem_of_In. by setoid_rewrite Hp.
Qed.

Lemma run_phase_perm nodes nodes' : nodes ≡ₚ nodes' -> run_phase nodes = run_phase nodes'.
Proof. intros Hp. unfold run_phase. by rewrite !(existsb_perm _ _ _ Hp). Qed.

Lemma worst_perm `{GoRange} doc nodes nodes' :
  nodes ≡ₚ nodes' -> NoDup (map ns_ID nodes) ->
  worst (hasEligibleRejectedBranch doc nodes) nodes = worst (hasEligibleRejectedBranch doc nodes') nodes'.
Proof.
  intros Hp Hnd. unfold worst, concluded, hasEligibleRejectedBranch. by rewrite !(existsb_perm _ _ _ Hp), (by_id_perm _ _ _ Hp Hnd).
Qed.

Lemma worst_cases branch nodes :
  worst branch nodes ∈ [(ConclusionFailed, ReasonUpstreamFailed); (ConclusionIndeterminate, ""); (ConclusionRejected, "");
                        (ConclusionSucceeded, "")].
Proof.
  unfold worst. destruct (concluded ConclusionFailed nodes); [by left|]. destruct (concluded ConclusionIndeterminate nodes); [by right; left|].
  destruct (_ && _); [by right; right; left|by right; right; right; left].
Qed.

Lemma run_phase_cases nodes : run_phase nodes ∈ [PhaseRunning; PhaseWaiting; PhaseCompleted].
Proof.
  unfold run_phase. destruct (existsb _ _); [by left|]. destruct (_ || _); [by right; left|].
  destruct (existsb _ _); [by left|by right; right; left].
Qed.

(** Whatever phase the nodes determine, the snapshot stays valid. *)
Lemma aggregate_valid `{GoRange} run nodes branch reason active summary t :
  base_valid run -> Forall (fun n => ValidateNodeSnapshot n = Ok tt) nodes ->
  (reason = "" \/ reason = ReasonApprovalRequired \/ reason = (worst branch nodes).2 /\ run_phase nodes = PhaseCompleted \/
   exists n, n ∈ nodes /\ waiting_agent n = true /\ reason = ns_Reason n) ->
  (run_phase nodes = PhaseRunning -> reason = "") ->
  ValidateWorkflowSnapshot (set_run run (run_phase nodes)
    (if run_phase nodes =s PhaseCompleted then (worst branch nodes).1 else "") reason active summary t) = Ok tt.
Proof.
  intros Hb Hn Hreason Hrunning. apply validate_snapshot_iff. cbn [set_run ws_Phase ws_Conclusion ws_Reason].
  pose proof (worst_cases branch nodes) as Hw. pose proof (run_phase_cases nodes) as Hp. rewrite !elem_of_cons in Hw; rewrite !elem_of_cons in Hp.
  assert ((reason ≠s "") && negb (validReason reason) = false) as Hr.
  { destruct Hreason as [->|[->|[[-> _]|(n & Hn' & _ & ->)]]]; [done..| |].
    - destruct Hw as [-> |[-> |[-> |[-> |Hw]]]]; [done..|inversion Hw].
    - rewrite Forall_forall in Hn. by apply validate_node_reason, Hn. }
  clear Hreason. split; [done|]. destruct Hp as [Hp|[Hp|[Hp|Hp]]]; [..|inversion Hp]; rewrite Hp in *; cbn.
  - rewrite (Hrunning eq_refl). by split_and!.
  - by split_and!.
  - destruct Hw as [-> |[-> |[-> |[-> |Hw]]]]; [..|inversion Hw]; cbn; split_and!; try done; by rewrite andb_false_r.
Qed.

(** C31: aggregateRunState computes the phase of a run from its nodes: running
    while an agent runs, else waiting while something waits, else running
    while something has not started, else completed; the event names the phase
    and the controller stops unless the run is running.  A completed run gets
    the worst conclusion of its nodes (failed, then indeterminate, then
    rejected unless a branch handles the rejection, else succeeded; cancelled
    nodes do not count) and every other run none.  The new snapshot of a valid run with valid nodes is valid,
    and the order of the nodes matters neither for the phase nor for the
    conclusion. *)
Theorem aggregateRunState_spec `{GoRange} run nodes doc t :
  ValidateWorkflowSnapshot run = Ok tt -> Forall (fun n => ValidateNodeSnapshot n = Ok tt) nodes -> NoDup (map ns_ID nodes) ->
  let '(run', event, stop) := aggregateRunState run nodes doc t in
  ws_Phase run' = run_phase nodes /\
  ws_Conclusion run' = (if run_phase nodes =s PhaseCompleted then (worst (hasEligibleRejectedBranch doc nodes) nodes).1 else "") /\
  event = "run." +:+ run_phase nodes /\ stop = negb (run_phase nodes =s PhaseRunning) /\
  ValidateWorkflowSnapshot run' = Ok tt /\
  forall nodes', nodes ≡ₚ nodes' ->
    let run2 := (aggregateRunState run nodes' doc t).1.1 in
    ws_Phase run2 = ws_Phase run' /\ ws_Conclusion run2 = ws_Conclusion run'.
Proof.
  intros Hv Hn Hnd. pose proof (aggregate_cases run nodes doc t) as Hc.
  destruct (aggregateRunState run nodes doc t) as [[run' event] stop].
  destruct Hc as (reason & active & summary & -> & -> & -> & Hreason & Hrunning). cbn [set_run ws_Phase ws_Conclusion].
  split_and!; [done..| |].
  - apply aggregate_valid; [by apply valid_base|done|done|done].
  - intros nodes' Hp. pose proof (aggregate_cases run nodes' doc t) as Hc.
    destruct (aggregateRunState run nodes' doc t) as [[run2 event2] stop2]. destruct Hc as (? & ? & ? & -> & _). cbn.
    rewrite <-(run_phase_perm _ _ Hp), <-(worst_perm _ _ _ Hp Hnd). done.
Qed.

(** The diamond with a failed and a cancelled node *)
Definition ended_nodes : list NodeSnapshot :=
  [sample_node "a" "completed" "succeeded"; sample_node "b" "completed" "cancelled"; sample_node "c" "completed" "failed";
   sample_node "z" "completed" "succeeded"].

Lemma aggregateRunState_spec_witness :
  let '(run', event, stop) := @aggregateRunState canonical_range (sample_run ["z"; "b"; "c"; "a"]) ended_nodes Topology.diamond 9 in
  ws_Phase run' = run_phase ended_nodes /\
  ws_Conclusion run' = (if run_phase ended_nodes =s PhaseCompleted
    then (worst (@hasEligibleRejectedBranch canonical_range Topology.diamond ended_nodes) ended_nodes).1 else "") /\
  event = "run." +:+ run_phase ended_nodes /\ stop = negb (run_phase ended_nodes =s PhaseRunning) /\
  @ValidateWorkflowSnapshot canonical_range run' = Ok tt /\
  forall nodes', ended_nodes ≡ₚ nodes' ->
    let run2 := (@aggregateRunState canonical_range (sample_run ["z"; "b"; "c"; "a"]) nodes' Topology.diamond 9).1.1 in
    ws_Phase run2 = ws_Phase run' /\ ws_Conclusion run2 = ws_Conclusion run'.
Proof.
  apply (@aggregateRunState_spec canonical_range (sample_run ["z"; "b"; "c"; "a"]) ended_nodes Topology.diamond 9).
  - vm_compute. reflexivity.
  - repeat (constructor; [vm_compute; reflexivity|]). constructor.
  - apply (bool_decide_unpack _). vm_compute. exact I.
Defined.
