(* ===== verification/Files.v ===== *)
(** * Files that can fail

    The store keeps every value in a JSON file of its own.  [io D E A] is a
    function that works on the files [D], returns an [A] or an error [E], and can
    be cut off in the middle: before every system call the next [fate] says
    whether the call works, reports an error or finds the process dead; after
    the last fate every call works.

    internal/store/json_store.go (readJSON, writeJSON), lease_guard_unix.go
    (withFileLock) and lease.go (createLeaseExclusive). *)

From S2P Require Import Prelude GoText Routing Resolver Catalog Workflow.
#[local] Open Scope string_scope.
#[local] Open Scope list_scope.
#[local] Open Scope Z_scope.

(** safeID: the identifiers that may become a part of a path *)
Definition safe_id (value : string) : bool := match_ident is_alpha id_rest 127 value.

Inductive fate := Works | Fails | Dies.

(** A file is absent, holds one JSON value of its type, or holds other bytes. *)
Inductive file (A : Type) := Absent | Holds (a : A) | Damaged.
Arguments Absent {A}. Arguments Holds {A}. Arguments Damaged {A}.

Inductive FileError := FileNotExist | FileExists | FileUndecodable | FileCallFailed.
Class FileErrors (E : Type) := file_error : FileError -> E.

Inductive io_end (D E A : Type) :=
| Returned (a : A) (d : D) (fs : list fate)
| Raised (e : E) (d : D) (fs : list fate)
| Died (d : D).
Arguments Returned {D E A}. Arguments Raised {D E A}. Arguments Died {D E A}.

(** The files when the function has ended, however it did *)
Definition files_after {D E A} (o : io_end D E A) : D :=
  match o with Returned _ d _ | Raised _ d _ | Died d => d end.
Definition reply_of {D E A} (o : io_end D E A) : option A :=
  match o with Returned a _ _ => Some a | _ => None end.

Definition io (D E A : Type) : Type := D -> list fate -> io_end D E A.
#[export] Instance io_ret {D E} : MRet (io D E) := fun A a d fs => Returned a d fs.
#[export] Instance io_bind {D E} : MBind (io D E) := fun A B k m d fs =>
  match m d fs with Returned a d fs => k a d fs | Raised e d fs => Raised e d fs | Died d => Died d end.

Section calls.
  Context {D E : Type} {FE : FileErrors E}.

Definition refuse {A} (e : E) : io D E A := fun d fs => Raised e d fs.
Definition checked {F A} (wrap : F -> E) (m : result F A) : io D E A :=
  match m with Ok a => mret a | Err e => refuse (wrap e) end.

(** One system call *)
Definition call {A} (act : D -> result FileError A * D) : io D E A := fun d fs =>
  let run fs := match act d with (Ok a, d) => Returned a d fs | (Err e, d) => Raised (file_error e) d fs end in
  match fs with
  | [] => run []
  | Works :: fs => run fs
  | Fails :: fs => Raised (file_error FileCallFailed) d fs
  | Dies :: _ => Died d
  end.
(** A call that leaves the files alone *)
Definition touch : io D E unit := call (fun d => (Ok tt, d)).

(** What other processes do between two critical sections of this one *)
Definition others (doings : D -> D) : io D E unit := fun d fs => Returned tt (doings d) fs.

(** [m], and its error as a value *)
Definition attempt {A} (m : io D E A) : io D E (result E A) := fun d fs =>
  match m d fs with
  | Returned a d fs => Returned (Ok a) d fs
  | Raised e d fs => Returned (Err e) d fs
  | Died d => Died d
  end.

(** Store.injectFault: without an injector it returns nil *)
Definition injectFault : io D E unit := touch.

(** Opening and locking the guard file, then [action]; another process finds
    the files as they are before or after, or as [action] left them when it died. *)
Definition withFileLock {A} (action : io D E A) : io D E A := _ ← touch; action.
Definition withLeaseGuard {A} (action : io D E A) : io D E A := withFileLock action.

  Context {V : Type} (get : D -> file V) (set : file V -> D -> D).

Definition readJSON : io D E V :=
  call (fun d => (match get d with
                  | Absent => Err FileNotExist
                  | Damaged => Err FileUndecodable
                  | Holds v => Ok v
                  end, d)).

(** A temporary file beside the path and a rename: the file changes at once. *)
Definition writeJSON (value : V) : io D E unit :=
  _ ← injectFault;
  call (fun d => (Ok tt, set (Holds value) d)).

(** os.Remove where os.ErrNotExist is no error *)
Definition remove : io D E unit := call (fun d => (Ok tt, set Absent d)).

(** createLeaseExclusive: the file exists, empty, before its value is written;
    a failure removes it again, and what that removal reports is ignored. *)
Definition createLeaseExclusive (value : V) : io D E unit :=
  _ ← call (fun d => match get d with Absent => (Ok tt, set Damaged d) | _ => (Err FileExists, d) end);
  written ← attempt (_ ← call (fun d => (Ok tt, set (Holds value) d)); _ ← touch; touch);
  match written with
  | Ok _ => mret tt
  | Err e => _ ← attempt remove; refuse e
  end.
End calls.

(** When there is one file only *)
Definition whole {V} (f _ : file V) : file V := f.

(** [m] leaves the files [d] as they are, whatever goes wrong. *)
Definition leaves {D E A} (d : D) (m : io D E A) : Prop := forall fs, files_after (m d fs) = d.

(** [m] comes to nothing: it returns nothing and leaves the files [d]. *)
Definition blocked {D E A} (d : D) (m : io D E A) : Prop :=
  forall fs, files_after (m d fs) = d /\ reply_of (m d fs) = None.

(** However [m] goes, the files are related by [R] to what they were. *)
Definition moves {D E A} (R : D -> D -> Prop) (d : D) (m : io D E A) : Prop := forall fs, R d (files_after (m d fs)).

Section laws.
  Context {D E : Type} {FE : FileErrors E}.

Lemma bind_returned {A B} (m : io D E A) (k : A -> io D E B) d fs a d' fs' :
  m d fs = Returned a d' fs' -> (m ≫= k) d fs = k a d' fs'.
Proof. intros Hm. unfold mbind, io_bind. by rewrite Hm. Qed.

Lemma bind_inv {A B} (m : io D E A) (k : A -> io D E B) d fs b d' fs' :
  (m ≫= k) d fs = Returned b d' fs' -> exists a d1 fs1, m d fs = Returned a d1 fs1 /\ k a d1 fs1 = Returned b d' fs'.
Proof. unfold mbind, io_bind. destruct (m d fs); naive_solver. Qed.

Lemma call_inv {A} (act : D -> result FileError A * D) d fs a d' fs' :
  (call act : io D E A) d fs = Returned a d' fs' -> act d = (Ok a, d').
Proof. unfold call. destruct fs as [|[] fs], (act d) as [[]]; naive_solver. Qed.

Lemma touch_inv d fs u d' fs' : (touch : io D E unit) d fs = Returned u d' fs' -> d' = d.
Proof. intros H%call_inv. naive_solver. Qed.

Lemma checked_inv {F A} (wrap : F -> E) (m : result F A) d fs a d' fs' :
  (checked wrap m : io D E A) d fs = Returned a d' fs' -> m = Ok a /\ d' = d.
Proof. destruct m; intros H; [by injection H as <- <- <-|done]. Qed.

Lemma write_inv {V} (set : file V -> D -> D) v d fs u d' fs' :
  (writeJSON set v : io D E unit) d fs = Returned u d' fs' -> d' = set (Holds v) d.
Proof. intros (u1 & d1 & fs1 & ->%touch_inv & H%call_inv)%bind_inv. naive_solver. Qed.

Lemma remove_inv {V} (set : file V -> D -> D) d fs u d' fs' :
  (remove set : io D E unit) d fs = Returned u d' fs' -> d' = set Absent d.
Proof. intros H%call_inv. naive_solver. Qed.

Lemma files_bind_ret {A B} (m : io D E A) (f : A -> B) d fs :
  files_after ((a ← m; mret (f a)) d fs) = files_after (m d fs).
Proof. unfold mbind, io_bind. by destruct (m d fs). Qed.

Lemma leaves_ret {A} (d : D) (a : A) : leaves d (mret a : io D E A).
Proof. by intros fs. Qed.
Lemma leaves_refuse {A} (d : D) (e : E) : leaves d (refuse e : io D E A).
Proof. by intros fs. Qed.

Lemma leaves_checked {F A} (wrap : F -> E) (m : result F A) (d : D) : leaves d (checked wrap m : io D E A).
Proof. by destruct m; intros fs. Qed.

Lemma leaves_bind {A B} (m : io D E A) (k : A -> io D E B) d :
  leaves d m -> (forall a fs fs', m d fs = Returned a d fs' -> leaves d (k a)) -> leaves d (m ≫= k).
Proof.
  intros Hm Hk fs. unfold mbind, io_bind. specialize (Hm fs). specialize (Hk).
  destruct (m d fs) as [a d' fs'|e d' fs'|d'] eqn:Hr; cbn in Hm; subst d'; [|done|done].
  by apply (Hk a fs fs').
Qed.

Lemma leaves_call {A} (act : D -> result FileError A * D) d :
  (act d).2 = d -> leaves d (call act : io D E A).
Proof.
  intros Hact fs. unfold call. destruct fs as [|[] fs], (act d) as [[a|e] d']; cbn in *; congruence.
Qed.

Lemma leaves_touch d : leaves d (touch : io D E unit).
Proof. by apply leaves_call. Qed.

Lemma leaves_attempt {A} (m : io D E A) d : leaves d m -> leaves d (attempt m).
Proof. intros Hm fs. specialize (Hm fs). unfold attempt. by destruct (m d fs). Qed.

Lemma leaves_guard {A} (m : io D E A) d : leaves d m -> leaves d (withLeaseGuard m).
Proof. intros Hm. apply leaves_bind; [apply leaves_touch|done]. Qed.

Lemma leaves_read {V} (get : D -> file V) d : leaves d (readJSON get : io D E V).
Proof. by apply leaves_call. Qed.

(** After a system call that may set a value, the file has the old or the new one. *)
Lemma call_set {A} (act : D -> result FileError A * D) d fs :
  files_after ((call act : io D E A) d fs) = d \/ files_after ((call act : io D E A) d fs) = (act d).2.
Proof. unfold call. destruct fs as [|[] fs], (act d) as [[a|e] d']; cbn; auto. Qed.
Lemma moves_leaves {A} (R : D -> D -> Prop) `{!Reflexive R} d (m : io D E A) : leaves d m -> moves R d m.
Proof. intros Hm fs. by rewrite Hm. Qed.

Lemma moves_bind {A B} (R : D -> D -> Prop) `{!Transitive R} d (m : io D E A) (k : A -> io D E B) :
  moves R d m -> (forall a fs d' fs', m d fs = Returned a d' fs' -> moves R d' (k a)) -> moves R d (m ≫= k).
Proof.
  intros Hm Hk fs. unfold mbind, io_bind. specialize (Hm fs). destruct (m d fs) as [a d' fs'| |] eqn:Hr; cbn in *; [|done..].
  etrans; [exact Hm|by eapply Hk].
Qed.

Lemma moves_call {A} (R : D -> D -> Prop) `{!Reflexive R} (act : D -> result FileError A * D) d :
  R d (act d).2 -> moves R d (call act : io D E A).
Proof. intros Hact fs. destruct (call_set act d fs) as [-> | ->]; done. Qed.

Lemma moves_guard {A} (R : D -> D -> Prop) `{!PreOrder R} d (m : io D E A) : moves R d m -> moves R d (withLeaseGuard m).
Proof.
  intros Hm. apply moves_bind; [apply _|by apply moves_leaves; [apply _|apply leaves_touch]|].
  intros _ fs d' fs' ->%touch_inv. done.
Qed.

(** The three things a read can say *)
Lemma read_cases {V} (get : D -> file V) d fs r d' fs' :
  attempt (readJSON get : io D E V) d fs = Returned r d' fs' ->
  d' = d /\ match r with
            | Ok v => get d = Holds v
            | Err e => (e = file_error FileNotExist /\ get d = Absent) \/
                       exists f, f <> FileNotExist /\ e = file_error f
            end.
Proof.
  unfold attempt, readJSON, call.
  destruct fs as [|[] fs]; destruct (get d) eqn:Hd; intros [= <- <- <-];
    (split; [done|]); first [done|by left|right; eexists; by split; [|reflexivity]].
Qed.

Lemma moves_read {V B} (R : D -> D -> Prop) `{!PreOrder R} (get : D -> file V) (k : result E V -> io D E B) d :
  (forall v, get d = Holds v -> moves R d (k (Ok v))) ->
  (get d = Absent -> moves R d (k (Err (file_error FileNotExist)))) ->
  (forall f, f <> FileNotExist -> moves R d (k (Err (file_error f)))) ->
  moves R d (attempt (readJSON get) ≫= k).
Proof.
  intros Hok Habs Herr. apply moves_bind; [apply _|by apply moves_leaves; [apply _|auto using leaves_attempt, leaves_read]|].
  intros [v|e] fs d' fs' [-> Hc]%read_cases; [by apply Hok|].
  destruct Hc as [[-> Hd]|(f & Hf & ->)]; [by apply Habs|by apply Herr].
Qed.

Lemma moves_returned {A} (R : D -> D -> Prop) d (m : io D E A) fs a d' fs' :
  moves R d m -> m d fs = Returned a d' fs' -> R d d'.
Proof. intros Hm Hr. specialize (Hm fs). by rewrite Hr in Hm. Qed.

Lemma leaves_returned {A} d (m : io D E A) fs a d' fs' : leaves d m -> m d fs = Returned a d' fs' -> d' = d.
Proof. intros Hm Hr. specialize (Hm fs). by rewrite Hr in Hm. Qed.

(** A file that is replaced has its old or its new value. *)
Lemma moves_write {V} (R : D -> D -> Prop) `{!PreOrder R} (set : file V -> D -> D) v d :
  R d (set (Holds v) d) -> moves R d (writeJSON set v : io D E unit).
Proof.
  intros HR. apply moves_bind; [apply _|by apply moves_leaves; [apply _|apply leaves_touch]|].
  intros _ fs d' fs' ->%touch_inv. apply moves_call; [apply _|done].
Qed.

Lemma blocked_refuse {A} (d : D) (e : E) : blocked d (refuse e : io D E A).
Proof. by intros fs. Qed.

Lemma blocked_bind {A B} (m : io D E A) (k : A -> io D E B) d :
  leaves d m -> (forall a fs fs', m d fs = Returned a d fs' -> blocked d (k a)) -> blocked d (m ≫= k).
Proof.
  intros Hm Hk fs. unfold mbind, io_bind. specialize (Hm fs).
  destruct (m d fs) as [a d' fs'|e d' fs'|d'] eqn:Hr; cbn in Hm; subst d'; [|done|done].
  by apply (Hk a fs fs').
Qed.

Lemma blocked_bind_l {A B} (m : io D E A) (k : A -> io D E B) d : blocked d m -> blocked d (m ≫= k).
Proof.
  intros Hm fs. unfold mbind, io_bind. specialize (Hm fs).
  destruct (m d fs); cbn in *; naive_solver.
Qed.

Lemma blocked_guard {A} (m : io D E A) d : blocked d m -> blocked d (withLeaseGuard m).
Proof. intros Hm. apply blocked_bind; [apply leaves_touch|done]. Qed.

(** What a read returns is what the file holds. *)
Lemma read_returned {V} (get : D -> file V) d fs v d' fs' :
  (readJSON get : io D E V) d fs = Returned v d' fs' -> get d = Holds v.
Proof. unfold readJSON, call. destruct fs as [|[] fs]; destruct (get d); naive_solver. Qed.

Lemma attempt_ok {A} (m : io D E A) d fs a d' fs' :
  attempt m d fs = Returned (Ok a) d' fs' -> m d fs = Returned a d' fs'.
Proof. unfold attempt. destruct (m d fs) eqn:Hm; intros; simplify_eq; done. Qed.
Lemma attempt_err {A} (m : io D E A) d fs e d' fs' :
  attempt m d fs = Returned (Err e) d' fs' -> m d fs = Raised e d' fs'.
Proof. unfold attempt. destruct (m d fs) eqn:Hm; intros; simplify_eq; done. Qed.

Lemma read_attempted {V} (get : D -> file V) d fs v d' fs' :
  attempt (readJSON get : io D E V) d fs = Returned (Ok v) d' fs' -> get d = Holds v.
Proof. intros H%attempt_ok. by eapply read_returned. Qed.

End laws.

#[export] Hint Resolve leaves_ret leaves_refuse leaves_checked leaves_touch leaves_attempt leaves_guard leaves_read : files.

(** Take a successful run apart, call by call. *)
Ltac io_inv :=
  repeat match goal with
  | H : (_ ≫= _) _ _ = Returned _ _ _ |- _ => apply bind_inv in H as (? & ? & ? & ? & H)
  | H : withLeaseGuard _ _ _ = Returned _ _ _ |- _ => unfold withLeaseGuard, withFileLock in H
  | H : touch _ _ = Returned _ _ _ |- _ => apply touch_inv in H; subst
  | H : injectFault _ _ = Returned _ _ _ |- _ => apply touch_inv in H; subst
  | H : attempt _ _ _ = Returned (Ok _) _ _ |- _ => apply attempt_ok in H
  | H : attempt _ _ _ = Returned (Err _) _ _ |- _ => apply attempt_err in H
  | H : writeJSON _ _ _ _ = Returned _ _ _ |- _ => apply write_inv in H; subst
  | H : remove _ _ _ = Returned _ _ _ |- _ => apply remove_inv in H; subst
  | H : checked _ _ _ _ = Returned _ _ _ |- _ => apply checked_inv in H as [H ?]; subst
  | H : refuse _ _ _ = Returned _ _ _ |- _ => discriminate H
  | H : mret _ _ _ = Returned _ _ _ |- _ => injection H; clear H; intros; subst
  end.

(** The same, with a case for each outcome of the parts that may fail *)
Ltac io_cases :=
  io_inv;
  repeat match goal with
  | H : attempt _ _ _ = Returned ?r _ _ |- _ => is_var r; destruct r; io_inv
  | H : (if ?c then _ else _) _ _ = Returned _ _ _ |- _ => let E := fresh "E" in destruct c eqn:E; io_inv
  end.

(** Prove that a program which only reads leaves the files alone. *)
Ltac io_leaves :=
  repeat match goal with
  | |- leaves _ (let '(_, _) := ?x in _) => destruct x
  | |- leaves _ (match ?x with _ => _ end) => destruct x
  | |- leaves _ (_ ≫= _) => apply leaves_bind; [|intros ? ? ? _]
  | |- leaves _ (attempt _) => apply leaves_attempt
  | |- leaves _ (withLeaseGuard _) => apply leaves_guard
  | |- leaves _ (call _) => apply leaves_call; reflexivity
  end; auto with files.

(** ** How a program ends

    [ends D E Q w m]: started in [w] it dies in a state of [D], raises an error
    in one of [E] or returns a value with one of [Q], whatever calls fail. *)
Section ends.
  Context {W X : Type}.
Definition ends {A} (D : W -> Prop) (E : X -> W -> Prop) (Q : A -> W -> Prop) (w : W) (m : io W X A) : Prop :=
  forall fs, match m w fs with Returned a w' _ => Q a w' | Raised e w' _ => E e w' | Died w' => D w' end.

  Context (D : W -> Prop) (E : X -> W -> Prop).
  Implicit Types w : W.

Lemma ends_ret {A} (a : A) (Q : A -> W -> Prop) w : Q a w -> ends D E Q w (mret a).
Proof. by intros H fs. Qed.
Lemma ends_refuse {A} e (Q : A -> W -> Prop) w : E e w -> ends D E Q w (refuse e).
Proof. by intros H fs. Qed.
Lemma ends_checked {F A} (wrap : F -> X) (m : result F A) (Q : A -> W -> Prop) w :
  (forall a, m = Ok a -> Q a w) -> (forall e, m = Err e -> E (wrap e) w) -> ends D E Q w (checked wrap m).
Proof. intros HQ HE fs. destruct m; cbn; auto. Qed.

Lemma ends_bind {A B} (m : io W X A) (k : A -> io W X B) (Q : B -> W -> Prop) w :
  ends D E (fun a w' => ends D E Q w' (k a)) w m -> ends D E Q w (m ≫= k).
Proof. intros H fs. unfold mbind, io_bind. specialize (H fs). destruct (m w fs); [apply H|done..]. Qed.

Lemma ends_attempt {A} (m : io W X A) (Q : result X A -> W -> Prop) w :
  ends D (fun e w' => Q (Err e) w') (fun a w' => Q (Ok a) w') w m -> ends D E Q w (attempt m).
Proof. intros H fs. unfold attempt. specialize (H fs). by destruct (m w fs). Qed.

Lemma ends_mono {A} (D' : W -> Prop) (E' : X -> W -> Prop) (Q Q' : A -> W -> Prop) w (m : io W X A) :
  ends D' E' Q' w m -> (forall w, D' w -> D w) -> (forall e w, E' e w -> E e w) -> (forall a w, Q' a w -> Q a w) -> ends D E Q w m.
Proof. intros H HD HE HQ fs. specialize (H fs). destruct (m w fs); auto. Qed.

Lemma ends_returned {A} (Q : A -> W -> Prop) w (m : io W X A) fs a w' fs' :
  ends D E Q w m -> m w fs = Returned a w' fs' -> Q a w'.
Proof. intros H Hr. specialize (H fs). by rewrite Hr in H. Qed.

Lemma ends_if {A} (b : bool) (m n : io W X A) (Q : A -> W -> Prop) w :
  (b = true -> ends D E Q w m) -> (b = false -> ends D E Q w n) -> ends D E Q w (if b then m else n).
Proof. destruct b; auto. Qed.

Lemma ends_others (change : W -> W) (Q : unit -> W -> Prop) w : Q tt (change w) -> ends D E Q w (others change).
Proof. by intros H fs. Qed.

Lemma ends_call `{!FileErrors X} {A} (act : W -> result FileError A * W) (Q : A -> W -> Prop) w :
  D w -> (forall e, E e w) -> (match act w with (Ok a, w') => Q a w' | (Err _, w') => w' = w end) -> ends D E Q w (call act).
Proof.
  intros HD HE HQ fs. unfold call. destruct fs as [|[] fs]; destruct (act w) as [[a|e] w']; cbn in *; subst; auto.
Qed.
End ends.
