(* ===== verification/JsonTree.v ===== *)
(** * JSON values as syntax trees

    What encoding/json does with a value beyond its text: parsing, printing with
    and without indentation, decoding of strings, integers and numbers.  A tree
    keeps the text of its strings and numbers, so that printing gives back the
    text that was parsed up to insignificant white space. *)

From S2P Require Import Prelude GoText Json.
#[local] Open Scope string_scope.
#[local] Open Scope list_scope.
#[local] Open Scope Z_scope.

(** null, true, false or a number; the text between the quotes of a string; the
    names of the members likewise. *)
Inductive json :=
| JLit (text : list ascii)
| JStr (body : list ascii)
| JArr (items : list json)
| JObj (members : list (list ascii * json)).

Fixpoint json_eqb (a b : json) : bool :=
  match a, b with
  | JLit s, JLit t | JStr s, JStr t => bool_decide (s = t)
  | JArr l, JArr m =>
      (fix go l m := match l, m with
                     | [], [] => true
                     | x :: l, y :: m => json_eqb x y && go l m
                     | _, _ => false
                     end) l m
  | JObj l, JObj m =>
      (fix go l m := match l, m with
                     | [], [] => true
                     | (j, x) :: l, (k, y) :: m => bool_decide (j = k) && json_eqb x y && go l m
                     | _, _ => false
                     end) l m
  | _, _ => false
  end.

(** ** Printing

    [nl] is the line break of a nesting depth, [sp] what follows a colon. *)
Section layout.
  Context (nl : nat -> list ascii) (sp : list ascii).

Definition lay_items (depth : nat) (items : list (list ascii)) : list ascii :=
  match items with
  | [] => []
  | x :: items => nl (S depth) ++ x ++ concat (map (fun y => ","%char :: nl (S depth) ++ y) items) ++ nl depth
  end.
Definition lay_string (body : list ascii) : list ascii := quote :: body ++ [quote].
Fixpoint lay (depth : nat) (v : json) : list ascii :=
  match v with
  | JLit text => text
  | JStr body => lay_string body
  | JArr items => "["%char :: lay_items depth (map (lay (S depth)) items) ++ ["]"%char]
  | JObj members =>
      "{"%char :: lay_items depth (map (fun '(k, v) => lay_string k ++ ":"%char :: sp ++ lay (S depth) v) members) ++ ["}"%char]
  end.
End layout.

Definition json_print (v : json) : list ascii := lay (fun _ => []) [] 0 v.
Definition json_text (v : json) : string := of_list (json_print v).
(** The text inside the output of MarshalIndent at nesting depth [depth] *)
Definition json_pretty (depth : nat) (v : json) : list ascii := lay json_newline (bytes [32%N]) depth v.

(** ** Parsing *)

Definition consumed (l rest : list ascii) : list ascii := take (length l - length rest) l.

(** The body of a string literal after its opening quote, and what follows it *)
Definition parse_body (l : list ascii) : option (list ascii * list ascii) :=
  rest ← string_rest l;
  Some (take (length l - length rest - 1) l, rest).

Fixpoint parse_value (fuel : nat) (depth : Z) (l : list ascii) : option (json * list ascii) :=
  match fuel with
  | O => None
  | S fuel =>
      match skip_space l with
      | [] => None
      | c :: r =>
          if Ascii.eqb c "{" then
            if maxNestingDepth <? depth + 1 then None else
            match skip_space r with
            | d :: r' =>
                if Ascii.eqb d "}" then Some (JObj [], r')
                else '(members, rest) ← parse_members fuel (depth + 1) r; Some (JObj members, rest)
            | [] => None
            end
          else if Ascii.eqb c "[" then
            if maxNestingDepth <? depth + 1 then None else
            match skip_space r with
            | d :: r' =>
                if Ascii.eqb d "]" then Some (JArr [], r')
                else '(items, rest) ← parse_items fuel (depth + 1) r; Some (JArr items, rest)
            | [] => None
            end
          else if Ascii.eqb c quote then '(body, rest) ← parse_body r; Some (JStr body, rest)
          else
            rest ← (if Ascii.eqb c "t" then strip_prefix (to_list "rue") r
                    else if Ascii.eqb c "f" then strip_prefix (to_list "alse") r
                    else if Ascii.eqb c "n" then strip_prefix (to_list "ull") r
                    else number_rest (c :: r));
            Some (JLit (consumed (c :: r) rest), rest)
      end
  end
with parse_members (fuel : nat) (depth : Z) (l : list ascii) : option (list (list ascii * json) * list ascii) :=
  match fuel with
  | O => None
  | S fuel =>
      l ← strip_prefix [quote] (skip_space l);
      '(name, l) ← parse_body l;
      l ← strip_prefix [":"%char] (skip_space l);
      '(v, l) ← parse_value fuel depth l;
      match skip_space l with
      | c :: r =>
          if Ascii.eqb c "," then '(members, rest) ← parse_members fuel depth r; Some ((name, v) :: members, rest)
          else if Ascii.eqb c "}" then Some ([(name, v)], r) else None
      | [] => None
      end
  end
with parse_items (fuel : nat) (depth : Z) (l : list ascii) : option (list json * list ascii) :=
  match fuel with
  | O => None
  | S fuel =>
      '(v, l) ← parse_value fuel depth l;
      match skip_space l with
      | c :: r =>
          if Ascii.eqb c "," then '(items, rest) ← parse_items fuel depth r; Some (v :: items, rest)
          else if Ascii.eqb c "]" then Some ([v], r) else None
      | [] => None
      end
  end.

(** The only JSON value in the text *)
Definition json_parse (s : string) : option json :=
  '(v, rest) ← parse_value (json_fuel (to_list s)) 0 (to_list s);
  match skip_space rest with [] => Some v | _ => None end.

(** ** Strings *)

Definition hex_value (c : ascii) : N :=
  let n := N_of_ascii c in
  if (n <=? 57)%N then n - 48 else if (n <=? 70)%N then n - 55 else n - 87.
Definition code_unit (a b c d : ascii) : N := hex_value a * 4096 + hex_value b * 256 + hex_value c * 16 + hex_value d.

(** utf8.AppendRune *)
Definition utf8_encode (r : N) : list ascii :=
  bytes (if r <? 128 then [r]
         else if r <? 2048 then [192 + r / 64; 128 + r mod 64]
         else if r <? 65536 then [224 + r / 4096; 128 + r / 64 mod 64; 128 + r mod 64]
         else [240 + r / 262144; 128 + r / 4096 mod 64; 128 + r / 64 mod 64; 128 + r mod 64])%N.
Definition replacement : list ascii := bytes [239; 191; 189]%N.
Definition surrogate (r : N) : bool := (55296 <=? r)%N && (r <? 57344)%N.

(** The text of a simple escape *)
Definition simple_escape (c : ascii) : ascii :=
  if Ascii.eqb c "b" then ch 8 else if Ascii.eqb c "f" then ch 12 else if Ascii.eqb c "n" then ch 10
  else if Ascii.eqb c "r" then ch 13 else if Ascii.eqb c "t" then ch 9 else c.

(** unquote, on the body of a valid literal: the string as bytes.  [skip]
    counts the bytes that have been dealt with already. *)
Fixpoint unquote (skip : nat) (l : list ascii) : list ascii :=
  match l with
  | [] => []
  | c :: l' =>
      match skip with
      | S k => unquote k l'
      | O =>
          if Ascii.eqb c backslash then
            match l' with
            | e :: a :: b :: c' :: d :: rest =>
                if Ascii.eqb e "u" then
                  let r := code_unit a b c' d in
                  if surrogate r then
                    match rest with
                    | x :: y :: a' :: b' :: c'' :: d' :: _ =>
                        let r' := code_unit a' b' c'' d' in
                        if Ascii.eqb x backslash && Ascii.eqb y "u" && (r <? 56320)%N && (56320 <=? r')%N && (r' <? 57344)%N
                        then utf8_encode (65536 + (r - 55296) * 1024 + (r' - 56320))%N ++ unquote 11 l'
                        else replacement ++ unquote 5 l'
                    | _ => replacement ++ unquote 5 l'
                    end
                  else utf8_encode r ++ unquote 5 l'
                else simple_escape e :: unquote 1 l'
            | e :: _ => simple_escape e :: unquote 1 l'
            | [] => []
            end
          else match utf8_width l with
               | Some 1%nat => c :: unquote 0 l'
               | Some w => take w l ++ unquote (w - 1) l'
               | None => replacement ++ unquote 0 l'
               end
      end
  end.

Definition jstring (s : string) : json := JStr (json_chars true 0 (to_list s)).
Definition string_of_body (body : list ascii) : string := of_list (unquote 0 body).

(** The escapes that encoding/json puts into the strings of a RawMessage *)
Fixpoint html_escape (skip : nat) (l : list ascii) : list ascii :=
  match l with
  | [] => []
  | c :: l' =>
      match skip with
      | S k => html_escape k l'
      | O =>
          if one_of "<>&" c then
            backslash :: to_list "u00" ++ hex_digit (N_of_ascii c / 16) :: hex_digit (N_of_ascii c mod 16) :: html_escape 0 l'
          else
            match l' with
            | a :: b :: _ =>
                if Ascii.eqb c (ch 226) && Ascii.eqb a (ch 128) && (Ascii.eqb b (ch 168) || Ascii.eqb b (ch 169))
                then backslash :: to_list "u202" ++ hex_digit (N_of_ascii b mod 16) :: html_escape 2 l'
                else c :: html_escape 0 l'
            | _ => c :: html_escape 0 l'
            end
      end
  end.

(** ** Literals *)

Definition lit (s : string) : json := JLit (to_list s).
Definition jnull : json := lit "null".
Definition jbool (b : bool) : json := lit (json_bool b).
Definition jint (z : Z) : json := lit (pretty z).
Definition is_null (v : json) : bool := match v with JLit text => of_list text =s "null" | _ => false end.

(** strconv.ParseInt (or ParseUint, when [least] is 0) on the literal of a
    number, within the range of the field *)
Definition parse_int (least most : Z) (text : list ascii) : option Z :=
  let '(sign, l) := match text with c :: l => if Ascii.eqb c "-" && (least <? 0) then (-1, l) else (1, text) | [] => (1, []) end in
  let z := sign * decimal l in
  if forallb is_digit l && negb (bool_decide (l = [])) && (least <=? z) && (z <=? most) then Some z else None.

(** ** Objects

    A field takes the last member of its name; encoding/json also accepts a name
    in other letter case. *)
Definition same_name (name : string) (k : list ascii) : bool := to_lower (string_of_body k) =s to_lower name.
Definition member (name : string) (members : list (list ascii * json)) : option json :=
  match List.find (fun '(k, _) => same_name name k) (reverse members) with Some (_, v) => Some v | None => None end.

(** An object with its fields in order; [None] is a field left out by omitempty. *)
Definition fields_of (fields : list (option (string * json))) : list (list ascii * json) :=
  flat_map (fun f => match f with
                     | Some (name, v) => [(json_chars true 0 (to_list name), v)]
                     | None => []
                     end) fields.
Definition jobject (fields : list (option (string * json))) : json := JObj (fields_of fields).
Definition omitempty (empty : bool) (name : string) (v : json) : option (string * json) :=
  if empty then None else Some (name, v).

(** Decoding a field of a struct: its zero value when the member is missing or
    null *)
Definition field {A} (zero : A) (decode : json -> option A) (members : list (list ascii * json)) (name : string) : option A :=
  match member name members with
  | Some v => if is_null v then Some zero else decode v
  | None => Some zero
  end.
(** A pointer: nil when the member is missing or null *)
Definition pointer {A} (decode : json -> option A) : json -> option (option A) := fun v => a ← decode v; Some (Some a).

Definition decode_members (v : json) : option (list (list ascii * json)) := match v with JObj members => Some members | _ => None end.
Definition decode_string (v : json) : option string := match v with JStr body => Some (string_of_body body) | _ => None end.
Definition decode_bool (v : json) : option bool :=
  match v with
  | JLit text => if of_list text =s "true" then Some true else if of_list text =s "false" then Some false else None
  | _ => None
  end.
Definition decode_int (least most : Z) (v : json) : option Z := match v with JLit text => parse_int least most text | _ => None end.
Definition decode_uint64 : json -> option Z := decode_int 0 (2 ^ 64 - 1).
Definition decode_goint : json -> option Z := decode_int (- 2 ^ 63) (2 ^ 63 - 1).
Fixpoint decode_all {A} (decode : json -> option A) (items : list json) : option (list A) :=
  match items with
  | [] => Some []
  | v :: items => a ← decode v; rest ← decode_all decode items; Some (a :: rest)
  end.
Definition decode_array {A} (decode : json -> option A) (v : json) : option (list A) :=
  match v with JArr items => decode_all decode items | _ => None end.
(** A map with string keys; later members replace earlier ones. *)
Fixpoint decode_entries {A} (decode : json -> option A) (m : gmap string A) (members : list (list ascii * json))
    : option (gmap string A) :=
  match members with
  | [] => Some m
  | (k, v) :: members => a ← decode v; decode_entries decode (<[string_of_body k := a]> m) members
  end.
Definition decode_map {A} (decode : json -> option A) (v : json) : option (gmap string A) :=
  match v with JObj members => decode_entries decode ∅ members | _ => None end.
(** json.Marshal writes the members of a map in the order of the keys. *)
Definition jmap {A} (encode : A -> json) (m : gmap string A) : json :=
  JObj (map (fun '(k, a) => (json_chars true 0 (to_list k), encode a))
          (sort_slice (fun a b => String.ltb a.1 b.1) (map_to_list m))).
Definition jarray {A} (encode : A -> json) (l : list A) : json := JArr (map encode l).
