(* ===== verification/JsonTreeTheory.v ===== *)
(** * Parsing what has been printed

    The text of a well-formed tree, compact or indented, parses to the tree;
    json.Compact undoes json.Indent; unquoting a printed string gives it back. *)

From S2P Require Import Prelude GoText Json JsonTree.
#[local] Open Scope string_scope.
#[local] Open Scope list_scope.
#[local] Open Scope Z_scope.

(** ** Well-formed trees *)

Inductive body_ok : list ascii -> Prop :=
| body_nil : body_ok []
| body_plain c l :
    Ascii.eqb c quote = false -> Ascii.eqb c backslash = false -> (N_of_ascii c <? 32)%N = false ->
    body_ok l -> body_ok (c :: l)
| body_escape e l :
    Ascii.eqb e "u" = false -> Ascii.eqb e quote || Ascii.eqb e backslash || one_of "/bfnrt" e = true ->
    body_ok l -> body_ok (backslash :: e :: l)
| body_unicode a b c d l :
    forallb is_hex [a; b; c; d] = true -> body_ok l -> body_ok (backslash :: "u"%char :: a :: b :: c :: d :: l).

Definition literal_ok (text : list ascii) : Prop :=
  text ∈ [to_list "true"; to_list "false"; to_list "null"] \/
  text <> [] /\ forallb (fun c => is_digit c || one_of "+-.eE" c) text = true /\ number_rest text = Some [].

(** A tree of height at most [h] *)
Inductive json_ok : nat -> json -> Prop :=
| ok_lit h text : literal_ok text -> json_ok h (JLit text)
| ok_str h body : body_ok body -> json_ok h (JStr body)
| ok_arr h items : Forall (json_ok h) items -> json_ok (S h) (JArr items)
| ok_obj h members :
    Forall body_ok (map fst members) -> Forall (json_ok h) (map snd members) -> json_ok (S h) (JObj members).

(** What may follow a value *)
Definition ends_value (k : list ascii) : Prop :=
  match k with [] => True | c :: _ => is_digit c || one_of ".eE" c = false end.

(** ** String literals *)

Lemma hex_plain c : is_hex c = true -> Ascii.eqb c quote = false /\ Ascii.eqb c backslash = false.
Proof. destruct c as [[][][][][][][][]]; by vm_compute. Qed.

Lemma string_rest_body b k : body_ok b -> string_rest (b ++ quote :: k) = Some k.
Proof.
  induction 1 as [|c l Hq Hb Hc _ IH|e l Hu He _ IH|a b c d l Hh _ IH]; cbn -[quote backslash one_of is_hex].
  - by rewrite Ascii.eqb_refl.
  - by rewrite Hq, Hb, Hc.
  - by rewrite Hu, He.
  - cbn -[is_hex] in Hh. rewrite !andb_true_iff in Hh. by destruct Hh as (-> & -> & -> & -> & _).
Qed.

Lemma parse_body_ok b k : body_ok b -> parse_body (b ++ quote :: k) = Some (b, k).
Proof.
  intros Hb. unfold parse_body. rewrite string_rest_body by done. cbn. do 2 f_equal.
  rewrite length_app. cbn. replace (length b + S (length k) - length k - 1)%nat with (length b) by lia.
  by rewrite take_app_length.
Qed.

(** ** Numbers *)

Lemma digits_app l k : ends_value k -> digits (l ++ k) = digits l ++ k.
Proof.
  intros Hk. induction l as [|c l IH]; cbn; [|by destruct (is_digit c)].
  destruct k as [|c k]; [done|]. cbn in *. by destruct (is_digit c).
Qed.

Lemma digits1_app l r k : ends_value k -> digits1 l = Some r -> digits1 (l ++ k) = Some (r ++ k).
Proof.
  intros Hk H. destruct l as [|c l]; cbn in *; [done|]. destruct (is_digit c); [|done]. injection H as <-.
  by rewrite digits_app.
Qed.

Lemma number_exp_app l r k : ends_value k -> number_exp l = Some r -> number_exp (l ++ k) = Some (r ++ k).
Proof.
  intros Hk H. destruct l as [|c l]; cbn in H.
  - injection H as <-. destruct k as [|c k]; cbn in *; [done|]. rewrite !orb_false_iff in Hk.
    by destruct Hk as (_ & _ & -> & -> & _).
  - cbn. destruct (_ || _); [|by injection H as <-]. destruct l as [|s l]; [done|]. cbn [app].
    destruct (_ || _); [by apply digits1_app|by apply (digits1_app (s :: l))].
Qed.

Lemma number_frac_app l r k :
  ends_value k -> number_frac l = Some r -> number_frac (l ++ k) = Some (r ++ k).
Proof.
  intros Hk H. destruct l as [|c l]; cbn in H.
  - injection H as <-. destruct k as [|c k]; cbn in *; [done|]. rewrite !orb_false_iff in Hk.
    by destruct Hk as (_ & -> & _).
  - cbn. destruct (Ascii.eqb c "."); [by apply digits1_app|by injection H as <-].
Qed.

Lemma number_int_app l r k : ends_value k -> number_int l = Some r -> number_int (l ++ k) = Some (r ++ k).
Proof.
  intros Hk H. destruct l as [|c l]; cbn in *; [done|]. destruct (Ascii.eqb c "0"); [by injection H as <-|].
  destruct (is_digit c); [|done]. injection H as <-. by rewrite digits_app.
Qed.

Lemma number_rest_app l r k : ends_value k -> l <> [] -> number_rest l = Some r -> number_rest (l ++ k) = Some (r ++ k).
Proof.
  unfold number_rest. intros Hk Hl H. destruct l as [|c l]; [done|]. cbn [app].
  assert ((if Ascii.eqb c "-" then l ++ k else c :: l ++ k) = (if Ascii.eqb c "-" then l else c :: l) ++ k) as ->
    by by destruct (Ascii.eqb c "-").
  revert H. generalize (if Ascii.eqb c "-" then l else c :: l). intros l' H.
  apply bind_Some in H as (l1 & H1 & H). apply bind_Some in H as (l2 & H2 & H3).
  erewrite number_int_app by done. cbn. erewrite number_frac_app by done. cbn.
  by apply number_exp_app.
Qed.

(** ** Layouts *)

Lemma skip_space_app w l : forallb json_space w = true -> skip_space (w ++ l) = skip_space l.
Proof. induction w as [|c w IH]; cbn; [done|]. intros [-> Hw]%andb_true_iff. by apply IH. Qed.

Lemma skip_space_head c l : json_space c = false -> skip_space (c :: l) = c :: l.
Proof. cbn. by intros ->. Qed.

(** The first character of a literal *)
Lemma literal_head text :
  literal_ok text -> exists c r, text = c :: r /\ json_space c = false /\
    forallb (fun x => negb (Ascii.eqb c x)) ["{"; "["; "]"; "}"; ","; quote]%char = true.
Proof.
  intros [Ht|(Hne & Hall & _)].
  - rewrite !elem_of_cons, elem_of_nil in Ht. destruct Ht as [-> |[-> |[-> |[]]]]; by eexists _, _.
  - destruct text as [|c r]; [done|]. exists c, r. split; [done|]. cbn in Hall. apply andb_true_iff in Hall as [Hc _].
    clear -Hc. destruct c as [[][][][][][][][]]; first [discriminate Hc|by vm_compute].
Qed.

(** The first character of a printed value *)
Lemma lay_head nl sp d h v :
  json_ok h v -> exists c r, lay nl sp d v = c :: r /\ json_space c = false /\
    Ascii.eqb c "]" = false /\ Ascii.eqb c "}" = false.
Proof.
  destruct 1 as [h text Ht| | |]; cbn; [|by eexists _, _..].
  apply literal_head in Ht as (c & r & -> & Hs & Hc). exists c, r. cbn in Hc. rewrite !andb_true_iff, !negb_true_iff in Hc.
  naive_solver.
Qed.

Section printed.
  Context (nl : nat -> list ascii) (sp : list ascii).
  Hypotheses (nl_space : forall d, forallb json_space (nl d) = true) (sp_space : forallb json_space sp = true).

Lemma parse_literal fuel depth text k :
  literal_ok text -> ends_value k -> (0 < fuel)%nat -> parse_value fuel depth (text ++ k) = Some (JLit text, k).
Proof.
  intros Ht Hk Hf. destruct fuel as [|fuel]; [lia|]. pose proof (literal_head text Ht) as (c & r & -> & Hs & Hc).
  cbn [parse_value app]. rewrite skip_space_head by done. cbn -[quote] in Hc. rewrite !andb_true_iff, !negb_true_iff in Hc.
  destruct Hc as (-> & -> & _ & _ & _ & -> & _).
  assert (forall rest, rest = Some k -> (rest ← rest; Some (JLit (consumed (c :: r ++ k) rest), rest)) = Some (JLit (c :: r), k)) as Hgo.
  { intros ? ->. cbn [mbind option_bind]. unfold consumed. do 3 f_equal. cbn [length].
    rewrite length_app. replace (S (length r + length k) - length k)%nat with (length (c :: r)) by (cbn; lia).
    change (c :: r ++ k) with ((c :: r) ++ k). by rewrite take_app_length. }
  apply Hgo. destruct Ht as [Ht|(_ & Hall & Hn)].
  - rewrite !elem_of_cons, elem_of_nil in Ht. by destruct Ht as [[= -> ->]|[[= -> ->]|[[= -> ->]|[]]]].
  - cbn in Hall. apply andb_true_iff in Hall as [Hc _].
    assert (Ascii.eqb c "t" = false /\ Ascii.eqb c "f" = false /\ Ascii.eqb c "n" = false) as (-> & -> & ->)
      by (clear -Hc; destruct c as [[][][][][][][][]]; first [discriminate Hc|by vm_compute]).
    by apply (number_rest_app _ [] k) in Hn.
Qed.

Lemma parse_value_space fuel depth w l :
  forallb json_space w = true -> parse_value fuel depth (w ++ l) = parse_value fuel depth l.
Proof. intros Hw. destruct fuel as [|fuel]; [done|]. cbn [parse_value]. by rewrite skip_space_app. Qed.

(** What is left of the items of an array or the members of an object after the
    first one *)
Definition lay_rest (d : nat) (items : list (list ascii)) : list ascii :=
  concat (map (fun y => ","%char :: nl (S d) ++ y) items) ++ nl d.
Definition lay_member (d : nat) : list ascii * json -> list ascii :=
  fun '(k, v) => lay_string k ++ ":"%char :: sp ++ lay nl sp (S d) v.

Definition parses (h : nat) : Prop :=
  forall v fuel depth d k, json_ok h v -> ends_value k -> depth + Z.of_nat h <= maxNestingDepth ->
    (length (lay nl sp d v) < fuel)%nat -> parse_value fuel depth (lay nl sp d v ++ k) = Some (v, k).

Lemma ends_space c l : json_space c = true -> ends_value (c :: l).
Proof. destruct c as [[][][][][][][][]]; by vm_compute. Qed.
Lemma ends_nl d c l : is_digit c || one_of ".eE" c = false -> ends_value (nl d ++ c :: l).
Proof.
  intros Hc. pose proof (nl_space d) as Hd. destruct (nl d) as [|x w]; cbn; [done|]. cbn in Hd.
  apply andb_true_iff in Hd as [Hx _]. by apply (ends_space x []).
Qed.
Lemma ends_rest d items c l : is_digit c || one_of ".eE" c = false -> ends_value (lay_rest d items ++ c :: l).
Proof. intros Hc. unfold lay_rest. destruct items; [by apply ends_nl|done]. Qed.

Lemma lay_rest_cons d y items k : lay_rest d (y :: items) ++ k = ","%char :: nl (S d) ++ y ++ lay_rest d items ++ k.
Proof. unfold lay_rest. cbn. by rewrite <- !app_assoc. Qed.
Lemma length_lay_rest d y items : length (lay_rest d (y :: items)) = S (length (nl (S d)) + length y + length (lay_rest d items)).
Proof. pose proof (lay_rest_cons d y items []) as H. rewrite !app_nil_r in H. rewrite H. cbn. rewrite !length_app. lia. Qed.
Lemma lay_rest_nil d k : skip_space (lay_rest d [] ++ k) = skip_space k.
Proof. apply (skip_space_app (nl d)), nl_space. Qed.

Lemma parse_items_ok h x items fuel depth d k :
  parses h -> Forall (json_ok h) (x :: items) -> depth + Z.of_nat h <= maxNestingDepth ->
  (length (lay nl sp (S d) x ++ lay_rest d (map (lay nl sp (S d)) items)) + 1 < fuel)%nat ->
  parse_items fuel depth (nl (S d) ++ lay nl sp (S d) x ++ lay_rest d (map (lay nl sp (S d)) items) ++ "]"%char :: k)
    = Some (x :: items, k).
Proof.
  intros Hp. revert x fuel. induction items as [|y items IH]; intros x fuel Hall Hd Hf;
    inversion Hall as [|?? Hx Hall']; subst; (destruct fuel as [|fuel]; [lia|]); cbn [parse_items map];
    rewrite length_app in Hf; rewrite parse_value_space by done;
    (rewrite Hp; [|done|by apply ends_rest|done|lia]); cbn [mbind option_bind].
  - by rewrite lay_rest_nil.
  - cbn [map] in Hf. rewrite length_lay_rest in Hf. rewrite lay_rest_cons, skip_space_head by done. cbn [Ascii.eqb Bool.eqb].
    rewrite IH; [done|done|done|rewrite length_app; lia].
Qed.

Lemma lay_member_app d name v k :
  lay_member d (name, v) ++ k = quote :: name ++ quote :: ":"%char :: sp ++ lay nl sp (S d) v ++ k.
Proof. unfold lay_member, lay_string. cbn. f_equal. rewrite <- !app_assoc. cbn. by rewrite <- !app_assoc. Qed.
Lemma length_lay_member d name v : (length (lay nl sp (S d) v) <= length (lay_member d (name, v)))%nat.
Proof. unfold lay_member. cbn [fst snd]. rewrite length_app. cbn [length]. rewrite length_app. lia. Qed.

Lemma parse_members_ok h m members fuel depth d k :
  parses h -> Forall body_ok (map fst (m :: members)) -> Forall (json_ok h) (map snd (m :: members)) ->
  depth + Z.of_nat h <= maxNestingDepth ->
  (length (lay_member d m ++ lay_rest d (map (lay_member d) members)) + 1 < fuel)%nat ->
  parse_members fuel depth (nl (S d) ++ lay_member d m ++ lay_rest d (map (lay_member d) members) ++ "}"%char :: k)
    = Some (m :: members, k).
Proof.
  intros Hp. revert m fuel. induction members as [|y members IH]; intros [name v] fuel Hn Hall Hd Hf;
    inversion Hn as [|?? Hname Hn']; inversion Hall as [|?? Hx Hall']; subst; cbn [fst snd] in *;
    (destruct fuel as [|fuel]; [lia|]); cbn [parse_members map]; rewrite length_app in Hf;
    pose proof (length_lay_member d name v); rewrite lay_member_app, skip_space_app, skip_space_head by done;
    cbn [strip_prefix]; rewrite Ascii.eqb_refl; cbn [mbind option_bind]; rewrite parse_body_ok by done;
    cbn [mbind option_bind]; rewrite skip_space_head by done; cbn [strip_prefix]; rewrite Ascii.eqb_refl;
    cbn [mbind option_bind]; rewrite parse_value_space by done;
    (rewrite Hp; [|done|by apply ends_rest|done|lia]); cbn [mbind option_bind].
  - by rewrite lay_rest_nil.
  - cbn [map] in Hf. rewrite length_lay_rest in Hf. rewrite lay_rest_cons, skip_space_head by done. cbn [Ascii.eqb Bool.eqb].
    rewrite IH; [done|done|done|done|rewrite length_app; lia].
Qed.

Lemma lay_items_cons d x items k :
  lay_items nl d (x :: items) ++ k = nl (S d) ++ x ++ lay_rest d items ++ k.
Proof. cbn. unfold lay_rest. by rewrite <- !app_assoc. Qed.
Lemma length_lay_items d x items :
  length (lay_items nl d (x :: items)) = (length (nl (S d)) + length (x ++ lay_rest d items))%nat.
Proof. pose proof (lay_items_cons d x items []) as H. rewrite !app_nil_r in H. rewrite H. by rewrite length_app. Qed.

Lemma parse_lay h : parses h.
Proof.
  induction h as [|h IH]; intros v fuel depth d k Hv Hk Hd Hf;
    inversion Hv as [? text Ht|? body Hb|? items Hall|? members Hn Hall]; subst; cbn [lay] in *;
    try (apply parse_literal; [done|done|lia]);
    (destruct fuel as [|fuel]; [lia|]); cbn [parse_value];
    try (unfold lay_string; cbn [app]; rewrite skip_space_head by done; cbn [Ascii.eqb Bool.eqb];
         rewrite <- app_assoc; cbn [app]; rewrite parse_body_ok by done; reflexivity).
  - cbn [app]. rewrite skip_space_head by done. cbn [Ascii.eqb Bool.eqb].
    replace (maxNestingDepth <? depth + 1) with false by lia. rewrite <- app_assoc. cbn [app].
    destruct items as [|x items]; [reflexivity|].
    cbn [map] in *. cbn [length] in Hf. rewrite length_app, length_lay_items in Hf. cbn [length] in Hf.
    rewrite lay_items_cons. rewrite skip_space_app by done.
    destruct (lay_head nl sp (S d) h x) as (c & r & Hc & Hs & Hb & _); [by inversion Hall|].
    rewrite Hc. cbn [app]. rewrite skip_space_head by done. rewrite Hb, app_comm_cons, <- Hc.
    rewrite parse_items_ok with (h := h); [done|done|done|lia|lia].
  - cbn [app]. rewrite skip_space_head by done. cbn [Ascii.eqb Bool.eqb].
    replace (maxNestingDepth <? depth + 1) with false by lia. rewrite <- app_assoc. cbn [app].
    destruct members as [|[name v] members]; [reflexivity|]. fold (lay_member d) in *.
    cbn [map] in *. cbn [length] in Hf. rewrite length_app, length_lay_items in Hf. cbn [length] in Hf.
    rewrite lay_items_cons. rewrite skip_space_app by done. rewrite lay_member_app. cbn [app].
    rewrite skip_space_head by done. cbn [Ascii.eqb Bool.eqb].
    rewrite <- lay_member_app. rewrite parse_members_ok with (h := h); [done|done|done|done|lia|lia].
Qed.

(** ** json.Compact *)

Lemma compact_body b k : body_ok b -> json_compact true false (b ++ quote :: k) = b ++ quote :: json_compact false false k.
Proof.
  induction 1 as [|c l Hq Hb Hc _ IH|e l Hu He _ IH|a b c d l Hh _ IH]; cbn -[quote backslash is_hex];
    rewrite ?Ascii.eqb_refl; [done|rewrite Hq, Hb; cbn -[quote]; by rewrite IH|by rewrite IH|].
  cbn -[is_hex] in Hh. rewrite !andb_true_iff in Hh. destruct Hh as (Ha & Hb & Hc & Hd & _).
  apply hex_plain in Ha as [-> ->], Hb as [-> ->], Hc as [-> ->], Hd as [-> ->]. cbn -[quote]. by rewrite IH.
Qed.

Lemma compact_space w k : forallb json_space w = true -> json_compact false false (w ++ k) = json_compact false false k.
Proof. induction w as [|c w IH]; cbn; [done|]. intros [-> Hw]%andb_true_iff. by apply IH. Qed.

Lemma compact_plain l k :
  forallb (fun c => negb (json_space c) && negb (Ascii.eqb c quote)) l = true ->
  json_compact false false (l ++ k) = l ++ json_compact false false k.
Proof.
  induction l as [|c l IH]; cbn -[quote]; [done|]. rewrite !andb_true_iff, !negb_true_iff. intros [[-> ->] Hl].
  by rewrite IH.
Qed.

Lemma literal_plain text :
  literal_ok text ->
  forallb (fun c => negb (json_space c) && negb (Ascii.eqb c quote) && negb (one_of "[]{},:" c)) text = true.
Proof.
  intros [Ht|(_ & Hall & _)].
  - rewrite !elem_of_cons, elem_of_nil in Ht. by destruct Ht as [-> |[-> |[-> |[]]]]; vm_compute.
  - rewrite forallb_forall in Hall |- *. intros c Hc%Hall. clear -Hc.
    destruct c as [[][][][][][][][]]; first [discriminate Hc|by vm_compute].
Qed.

(** What compaction leaves of the pieces of a layout *)
Definition compacts (l l' : list ascii) : Prop := forall k, json_compact false false (l ++ k) = l' ++ json_compact false false k.

Lemma compacts_app l1 l1' l2 l2' : compacts l1 l1' -> compacts l2 l2' -> compacts (l1 ++ l2) (l1' ++ l2').
Proof. intros H1 H2 k. by rewrite <- !app_assoc, H1, H2. Qed.
Lemma compacts_cons c l l' : json_space c = false -> Ascii.eqb c quote = false -> compacts l l' -> compacts (c :: l) (c :: l').
Proof. intros Hs Hq Hl k. cbn -[quote json_space]. by rewrite Hs, Hq, Hl. Qed.
Lemma compacts_space w : forallb json_space w = true -> compacts w [].
Proof. intros Hw k. by apply compact_space. Qed.
Lemma compacts_string b : body_ok b -> compacts (lay_string b) (lay_string b).
Proof. intros Hb k. unfold lay_string. cbn -[quote]. rewrite <- !app_assoc. cbn -[quote]. by rewrite compact_body. Qed.

Lemma compacts_items d d' items items' :
  Forall2 compacts items items' -> compacts (lay_items nl d items) (lay_items (fun _ => []) d' items').
Proof.
  destruct 1 as [|x x' items items' Hx Hall]; [done|]. unfold lay_items.
  apply (compacts_app _ []); [by apply compacts_space|]. apply compacts_app; [done|].
  apply compacts_app; [|by apply compacts_space].
  induction Hall as [|y y' items items' Hy Hall IH]; [done|]. cbn [map concat].
  apply compacts_app; [|done]. apply compacts_cons; [done..|]. apply (compacts_app _ []); [by apply compacts_space|done].
Qed.

Lemma compacts_lay h v d d' : json_ok h v -> compacts (lay nl sp d v) (lay (fun _ => []) [] d' v).
Proof.
  revert v d d'. induction h as [|h IH]; intros v d d' Hv;
    inversion Hv as [? text Ht|? body Hb|? items Hall|? members Hn Hall]; subst; cbn [lay];
    try (by apply compacts_string);
    try (intros k; apply compact_plain; apply literal_plain in Ht; rewrite forallb_forall in Ht |- *;
         intros c Hc%Ht; by apply andb_true_iff in Hc as [? _]).
  - apply compacts_cons; [done..|]. apply compacts_app; [|by intros k]. apply compacts_items.
    clear Hv. induction Hall as [|x items Hx Hall IHl]; cbn [map]; constructor; [by apply IH|done].
  - apply compacts_cons; [done..|]. apply compacts_app; [|by intros k]. apply compacts_items.
    clear Hv. induction members as [|[k v] members IHl]; cbn [map fst snd] in *; [constructor|].
    inversion Hn; inversion Hall; subst. constructor; [|by apply IHl].
    apply compacts_app; [by apply compacts_string|]. apply compacts_cons; [done..|].
    apply (compacts_app _ []); [by apply compacts_space|by apply IH].
Qed.
End printed.

(** ** json.Indent *)

Lemma indent_body b n d k :
  body_ok b -> json_indent_from true false n d (b ++ quote :: k) = b ++ quote :: json_indent_from false false false d k.
Proof.
  intros Hb. revert n. induction Hb as [|c l Hq Hb Hc _ IH|e l Hu He _ IH|a b c d' l Hh _ IH]; intros n; cbn -[quote backslash is_hex];
    rewrite ?Ascii.eqb_refl; [done|rewrite Hq, Hb; cbn -[quote]; by rewrite IH|by rewrite IH|].
  cbn -[is_hex] in Hh. rewrite !andb_true_iff in Hh. destruct Hh as (Ha & Hb & Hc & Hd & _).
  apply hex_plain in Ha as [-> ->], Hb as [-> ->], Hc as [-> ->], Hd as [-> ->]. cbn -[quote]. by rewrite IH.
Qed.

(** [l] is indented to [l'] at depth [d]. *)
Definition indents (d : nat) (l l' : list ascii) : Prop :=
  forall k, json_indent_from false false false d (l ++ k) = l' ++ json_indent_from false false false d k.

Lemma indents_app d l1 l1' l2 l2' : indents d l1 l1' -> indents d l2 l2' -> indents d (l1 ++ l2) (l1' ++ l2').
Proof. intros H1 H2 k. by rewrite <- !app_assoc, H1, H2. Qed.
Lemma indents_plain d l : forallb (fun c => negb (json_space c) && negb (Ascii.eqb c quote) && negb (one_of "[]{},:" c)) l = true ->
  indents d l l.
Proof.
  intros Hl k. induction l as [|c l IH]; [done|]. cbn [forallb] in Hl. apply andb_true_iff in Hl as [Hc Hl].
  specialize (IH Hl). rewrite !andb_true_iff, !negb_true_iff in Hc. destruct Hc as [[_ Hq] Ho].
  unfold one_of in Ho. cbn in Ho. rewrite !orb_false_iff in Ho. destruct Ho as (H1 & H2 & H3 & H4 & H5 & H6 & _).
  cbn -[quote]. by rewrite H1, H2, H3, H4, H5, H6, Hq, IH.
Qed.
Lemma indents_string d b : body_ok b -> indents d (lay_string b) (lay_string b).
Proof. intros Hb k. unfold lay_string. cbn -[quote]. rewrite <- !app_assoc. cbn -[quote]. by rewrite indent_body. Qed.
Lemma indents_comma d : indents d [","%char] (","%char :: json_newline d).
Proof. by intros k. Qed.
Lemma indents_colon d : indents d [":"%char] (":"%char :: bytes [32%N]).
Proof. by intros k. Qed.

(** The first character after an opening bracket *)
Lemma indent_opened d c l :
  one_of "]}" c = false ->
  json_indent_from false false true d (c :: l) = json_newline (S d) ++ json_indent_from false false false (S d) (c :: l).
Proof. intros Hc. cbn -[one_of json_newline quote]. by rewrite Hc. Qed.
Lemma indent_closing d c k :
  one_of "]}" c = true ->
  json_indent_from false false false (S d) (c :: k) = json_newline d ++ c :: json_indent_from false false false d k.
Proof. destruct c as [[][][][][][][][]]; first [discriminate|by intros _]. Qed.

Lemma indent_items d d' x items x' items' close k :
  Forall2 (indents (S d)) (x :: items) (x' :: items') -> one_of "]}" close = true ->
  (exists c r, x = c :: r /\ one_of "]}" c = false) ->
  json_indent_from false false true d (lay_items (fun _ => []) d' (x :: items) ++ close :: k)
  = lay_items json_newline d (x' :: items') ++ close :: json_indent_from false false false d k.
Proof.
  intros Hall Hclose (c & r & Hx & Hc). inversion Hall as [|???? Hx1 Hrest]; subst x0 y l l'.
  rewrite !lay_items_cons. cbn [app]. subst x. cbn [app]. rewrite indent_opened by done. f_equal.
  change (c :: r ++ ?k) with ((c :: r) ++ k). rewrite Hx1. f_equal.
  assert (indents (S d) (concat (map (fun y => ","%char :: y) items))
                  (concat (map (fun y => ","%char :: json_newline (S d) ++ y) items'))) as Htail.
  { clear -Hrest. induction Hrest as [|y y' items items' Hy _ IH]; [by intros k|]. cbn [map concat].
    apply indents_app; [|done]. apply (indents_app _ [","%char] (","%char :: json_newline (S d))); [apply indents_comma|done]. }
  unfold lay_rest. cbn [app]. rewrite app_nil_r, <- !app_assoc, Htail, indent_closing by done. done.
Qed.

Lemma indents_lay h v d d' : json_ok h v -> indents d (lay (fun _ => []) [] d' v) (json_pretty d v).
Proof.
  revert v d d'. induction h as [|h IH]; intros v d d' Hv;
    inversion Hv as [? text Ht|? body Hb|? items Hall|? members Hn Hall]; subst; unfold json_pretty; cbn [lay];
    try (by apply indents_string); try (by apply indents_plain, literal_plain); intros k; cbn -[lay_items json_newline];
    rewrite <- !app_assoc; cbn [app].
  - destruct items as [|x items]; [done|]. cbn [map]. apply (f_equal (cons "["%char)).
    apply (indent_items d d' _ _ (json_pretty (S d) x) (map (json_pretty (S d)) items)); [|done|].
    + change (Forall2 (indents (S d)) (map (lay (fun _ => []) [] (S d')) (x :: items)) (map (json_pretty (S d)) (x :: items))).
      clear Hv. induction Hall; cbn [map]; constructor; [by apply IH|done].
    + destruct (lay_head (fun _ => []) [] (S d') h x) as (c & r & -> & _ & H1 & H2); [by inversion Hall|].
      exists c, r. split; [done|]. unfold one_of. cbn. by rewrite H1, H2.
  - destruct members as [|[name v] members]; [done|]. cbn [map]. apply (f_equal (cons "{"%char)).
    apply (indent_items d d' _ _ (lay_member json_newline (bytes [32%N]) d (name, v))
             (map (lay_member json_newline (bytes [32%N]) d) members)); [|done|by eexists _, _].
    change (Forall2 (indents (S d)) (map (lay_member (fun _ => []) [] d') ((name, v) :: members))
              (map (lay_member json_newline (bytes [32%N]) d) ((name, v) :: members))).
    clear Hv. revert Hn Hall. generalize ((name, v) :: members). intros l. induction l as [|[n u] l IHl]; [constructor|].
    cbn [map fst snd]. intros Hn Hall. inversion Hn; inversion Hall; subst. constructor; [|by apply IHl].
    apply indents_app; [by apply indents_string|].
    apply (indents_app _ [":"%char] (":"%char :: bytes [32%N])); [apply indents_colon|by apply IH].
Qed.

Lemma newline_space d : forallb json_space (json_newline d) = true.
Proof.
  unfold json_newline. rewrite forallb_app. apply andb_true_iff. split; [by vm_compute|].
  induction d as [|d IH]; [done|]. cbn [repeat concat]. by rewrite forallb_app, IH, andb_true_r.
Qed.

(** The text of a tree, as it is written *)
Lemma json_indented_text h d v : json_ok h v -> json_indented d (json_text v) = of_list (json_pretty d v).
Proof.
  intros Hv. unfold json_indented, json_text. rewrite to_of_list. f_equal.
  pose proof (compacts_lay (fun _ => []) [] (fun _ => eq_refl) eq_refl h v 0 0 Hv []) as Hc. rewrite !app_nil_r in Hc.
  unfold json_print at 1. rewrite Hc. pose proof (indents_lay h v d 0 Hv []) as Hi. by rewrite !app_nil_r in Hi.
Qed.

(** and written again after it has been read *)
Lemma json_indented_again h d d' v :
  json_ok h v -> json_indented d (json_indented d' (json_text v)) = json_indented d (json_text v).
Proof.
  intros Hv. rewrite (json_indented_text h d' v), (json_indented_text h d v) by done. unfold json_indented.
  rewrite to_of_list. f_equal.
  pose proof (compacts_lay json_newline (bytes [32%N]) newline_space eq_refl h v d' 0 Hv []) as Hc.
  rewrite !app_nil_r in Hc. unfold json_pretty at 1. rewrite Hc.
  pose proof (indents_lay h v d 0 Hv []) as Hi. by rewrite !app_nil_r in Hi.
Qed.

Lemma parse_layout nl sp h v :
  (forall d, forallb json_space (nl d) = true) -> forallb json_space sp = true ->
  json_ok h v -> Z.of_nat h <= maxNestingDepth -> forall d, json_parse (of_list (lay nl sp d v)) = Some v.
Proof.
  intros Hnl Hsp Hv Hh d. unfold json_parse. rewrite to_of_list.
  pose proof (parse_lay nl sp Hnl Hsp h v (json_fuel (lay nl sp d v)) 0 d [] Hv I Hh) as Hp. rewrite app_nil_r in Hp.
  rewrite Hp; [done|]. unfold json_fuel. lia.
Qed.

Lemma parse_text h v : json_ok h v -> Z.of_nat h <= maxNestingDepth -> json_parse (json_text v) = Some v.
Proof. intros Hv Hh. by apply (parse_layout (fun _ => []) [] h). Qed.
Lemma parse_indented h d v : json_ok h v -> Z.of_nat h <= maxNestingDepth -> json_parse (json_indented d (json_text v)) = Some v.
Proof. intros Hv Hh. rewrite (json_indented_text h) by done. by apply (parse_layout _ _ h); [apply newline_space|..]. Qed.
