(* ===== verification/JsonSound.v ===== *)
(** * What parses is well formed

    A text that parses is a layout of the tree, so that compacting it prints the
    tree and indenting it lays the tree out. *)

From S2P Require Import Prelude GoText Json JsonTree JsonTreeTheory.
#[local] Open Scope string_scope.
#[local] Open Scope list_scope.
#[local] Open Scope Z_scope.

(** ** Strings *)

Lemma string_rest_sound l rest : string_rest l = Some rest -> exists b, l = b ++ quote :: rest /\ body_ok b.
Proof.
  induction l as [l IH] using (induction_ltof1 _ (@length ascii)). unfold ltof in IH. destruct l as [|c l]; [done|].
  cbn [string_rest]. destruct (Ascii.eqb c quote) eqn:Hq.
  { apply Ascii.eqb_eq in Hq as ->. intros [= <-]. exists []. split; [done|constructor]. }
  destruct (Ascii.eqb c backslash) eqn:Hb.
  - apply Ascii.eqb_eq in Hb as ->. destruct l as [|e l]; [done|]. destruct (Ascii.eqb e "u") eqn:Hu.
    + apply Ascii.eqb_eq in Hu as ->. destruct l as [|x1 [|x2 [|x3 [|x4 l]]]]; try done.
      destruct (is_hex x1 && is_hex x2 && is_hex x3 && is_hex x4) eqn:Hh; [|done].
      intros (b & -> & Hok)%IH; [|cbn; lia]. exists (backslash :: "u"%char :: x1 :: x2 :: x3 :: x4 :: b). split; [done|].
      apply body_unicode; [|done]. cbn -[is_hex]. rewrite !andb_true_iff in *. tauto.
    + destruct (_ || _ || _) eqn:He; [|done]. intros (b & -> & Hok)%IH; [|cbn; lia].
      exists (backslash :: e :: b). split; [done|]. by apply body_escape.
  - destruct (N_of_ascii c <? 32)%N eqn:Hc; [done|]. intros (b & -> & Hok)%IH; [|cbn; lia].
    exists (c :: b). split; [done|]. by apply body_plain.
Qed.

Lemma parse_body_sound l b rest : parse_body l = Some (b, rest) -> l = b ++ quote :: rest /\ body_ok b.
Proof.
  unfold parse_body. intros (r & Hr & [= <- ->])%bind_Some. destruct (string_rest_sound l rest Hr) as (b & -> & Hok).
  rewrite length_app. cbn [length]. replace (length b + S (length rest) - length rest - 1)%nat with (length b) by lia.
  by rewrite take_app_length.
Qed.

(** ** Numbers *)

Definition number_char (c : ascii) : bool := is_digit c || one_of "+-.eE" c.

(** [f] reads a part of a number: the characters that it takes are those of a
    number, and it needs no others to take them. *)
Definition reads (f : list ascii -> option (list ascii)) : Prop :=
  forall l q, f l = Some q ->
    exists p, l = p ++ q /\ forallb number_char p = true /\
      (forall p1 r, l = p1 ++ r -> forall q1, q = q1 ++ r -> f p1 = Some q1).

Lemma digits_reads l : exists p, l = p ++ digits l /\ forallb number_char p = true /\
  (forall p1 r, l = p1 ++ r -> forall q1, digits l = q1 ++ r -> digits p1 = q1).
Proof.
  induction l as [|c l (p & Hl & Hp & IH)]; cbn [digits].
  - exists []. split_and!; [done..|]. intros p1 r H1 q1 H2. by destruct p1, q1.
  - destruct (is_digit c) eqn:Hc.
    + exists (c :: p). split_and!; [cbn; by f_equal|cbn; unfold number_char at 1; by rewrite Hc|].
      intros [|c1 p1] r H1 q1 H2; cbn in H1.
      * subst r. assert (length l = length (p ++ digits l)) as Hlen by by rewrite <- Hl.
        rewrite H2, !length_app in Hlen. cbn in Hlen. lia.
      * injection H1 as <- ->. cbn. rewrite Hc. by eapply IH.
    + exists []. split_and!; [done..|]. intros p1 r H1 q1 H2. rewrite H1 in H2. apply app_inv_tail in H2 as <-.
      destruct p1 as [|c1 p1]; [done|]. injection H1 as <- _. cbn. by rewrite Hc.
Qed.
Lemma digits1_reads : reads digits1.
Proof.
  intros [|c l] q H; cbn in H; [done|]. destruct (is_digit c) eqn:Hc; [|done]. injection H as <-.
  destruct (digits_reads l) as (p & Hl & Hp & Hex). exists (c :: p).
  split_and!; [cbn; by f_equal|cbn; unfold number_char at 1; by rewrite Hc|].
  intros [|c1 p1] r H1 q1 H2; cbn in H1.
  - subst r. assert (length l = length (p ++ digits l)) as Hlen by by rewrite <- Hl.
    rewrite H2, !length_app in Hlen. cbn in Hlen. lia.
  - injection H1 as <- ->. cbn. rewrite Hc. f_equal. by eapply Hex.
Qed.

(** What [reads] says of one text *)
Definition reads_at (f : list ascii -> option (list ascii)) (l q : list ascii) : Prop :=
  exists p, l = p ++ q /\ forallb number_char p = true /\
    (forall p1 r, l = p1 ++ r -> forall q1, q = q1 ++ r -> f p1 = Some q1).

Lemma reads_step (f g : list ascii -> option (list ascii)) c l q :
  number_char c = true -> (forall p, f (c :: p) = g p) -> reads_at g l q -> reads_at f (c :: l) q.
Proof.
  intros Hc Hf (p & Hl & Hp & Hex). exists (c :: p). split_and!; [cbn; by f_equal|cbn [forallb]; by rewrite Hc|].
  intros [|c1 p1] r H1 q1 H2; cbn in H1.
  - subst r. assert (length l = length (p ++ q)) as Hlen by by rewrite <- Hl.
    rewrite H2, !length_app in Hlen. cbn in Hlen. lia.
  - injection H1 as <- ->. rewrite Hf. by eapply Hex.
Qed.
Lemma reads_none (f : list ascii -> option (list ascii)) l :
  (forall p r, l = p ++ r -> f p = Some p) -> reads_at f l l.
Proof. intros Hf. exists []. split_and!; [done..|]. intros p1 r H1 q1 H2. rewrite H1 in H2. apply app_inv_tail in H2 as <-. by eapply Hf. Qed.

Lemma number_int_reads : reads number_int.
Proof.
  intros [|c l] q H; cbn in H; [done|]. destruct (Ascii.eqb c "0") eqn:H0.
  - injection H as <-. apply Ascii.eqb_eq in H0 as ->. apply (reads_step _ Some); [done|done|]. by apply reads_none.
  - destruct (is_digit c) eqn:Hc; [|done]. injection H as <-.
    apply (reads_step _ (fun p => Some (digits p))); [unfold number_char; by rewrite Hc|intros p; cbn; by rewrite H0, Hc|].
    destruct (digits_reads l) as (p & Hl & Hp & Hex). exists p. split_and!; [done..|]. intros p1 r H1 q1 H2.
    f_equal. by eapply Hex.
Qed.
Lemma number_frac_reads : reads number_frac.
Proof.
  intros [|c l] q H; cbn in H; [injection H as <-; apply reads_none; by intros [|]|].
  destruct (Ascii.eqb c ".") eqn:Hc.
  - apply Ascii.eqb_eq in Hc as ->. apply (reads_step _ digits1); [done|done|]. by apply digits1_reads.
  - injection H as <-. apply reads_none. intros [|c' p] r H; [done|]. injection H as <- _. cbn. by rewrite Hc.
Qed.
Lemma number_exp_reads : reads number_exp.
Proof.
  intros [|c l] q H; cbn in H; [injection H as <-; apply reads_none; by intros [|]|].
  destruct (Ascii.eqb c "e" || Ascii.eqb c "E") eqn:Hc.
  - apply (reads_step _ (fun l => match l with
                                  | s :: l => if Ascii.eqb s "+" || Ascii.eqb s "-" then digits1 l else digits1 (s :: l)
                                  | [] => None
                                  end)).
    + by apply orb_true_iff in Hc as [Hc|Hc]; apply Ascii.eqb_eq in Hc as ->.
    + intros p. cbn. rewrite Hc. by destruct p.
    + destruct l as [|s l]; [done|]. destruct (Ascii.eqb s "+" || Ascii.eqb s "-") eqn:Hs.
      * apply (reads_step _ digits1); [by apply orb_true_iff in Hs as [Hs'|Hs']; apply Ascii.eqb_eq in Hs' as ->|intros p; by rewrite Hs|].
        by apply digits1_reads.
      * destruct (digits1_reads (s :: l) q H) as (p & Hl & Hp & Hex). exists p. split_and!; [done..|].
        intros [|s1 p1] r H1 q1 H2; [by specialize (Hex _ _ H1 _ H2)|]. specialize (Hex _ _ H1 _ H2).
        injection H1 as <- _. by rewrite Hs.
  - injection H as <-. apply reads_none. intros [|c' p] r H; [done|]. injection H as <- _. cbn. by rewrite Hc.
Qed.

Lemma reads_bind f g : reads f -> reads g -> reads (fun l => l ← f l; g l).
Proof.
  intros Hf Hg l q (m & (p & -> & Hp & Hex)%Hf & (p' & -> & Hp' & Hex')%Hg)%bind_Some.
  exists (p ++ p'). split_and!; [by rewrite app_assoc|by rewrite forallb_app, Hp|].
  intros p1 r H1 q1 ->. rewrite app_assoc in H1, Hex, Hex'.
  assert (f p1 = Some (p' ++ q1)) as -> by (apply (Hex p1 r H1); by rewrite app_assoc). cbn. by apply (Hex' _ r).
Qed.

Lemma number_rest_sound c l q :
  number_rest (c :: l) = Some q -> exists p, c :: l = p ++ q /\ literal_ok p.
Proof.
  intros H.
  assert (exists p, c :: l = p ++ q /\ forallb number_char p = true /\ number_rest p = Some [] /\ p <> []) as (p & ? & ? & ? & ?).
  { assert (reads (fun l => l ← number_int l; l ← number_frac l; number_exp l)) as Hr.
    { apply reads_bind; [apply number_int_reads|]. apply reads_bind; [apply number_frac_reads|apply number_exp_reads]. }
    assert (forall l, (l ← number_int l; l ← number_frac l; number_exp l) <> Some [] \/ l <> []) as Hne.
    { intros [|x m]; [left; cbn; congruence|by right]. }
    unfold number_rest in H. destruct (Ascii.eqb c "-") eqn:Hm.
    - apply Ascii.eqb_eq in Hm as ->. destruct (Hr _ _ H) as (p & Hl & Hp & Hex). exists ("-"%char :: p).
      split_and!; [cbn; by f_equal|done| |done]. specialize (Hex p q Hl [] eq_refl). exact Hex.
    - destruct (Hr _ _ H) as (p & Hl & Hp & Hex). specialize (Hex p q Hl [] eq_refl).
      destruct p as [|c' p]; [by destruct (Hne []) as [[]|]|]. exists (c' :: p). split_and!; [done..| |done].
      injection Hl as <- _. unfold number_rest. by rewrite Hm. }
  exists p. split; [done|]. by right.
Qed.

(** ** Values *)

Lemma strip_prefix_sound p l rest : strip_prefix p l = Some rest -> l = p ++ rest.
Proof.
  revert l. induction p as [|c p IH]; intros l; [by intros [= ->]|]. destruct l as [|d l]; cbn; [done|].
  destruct (Ascii.eqb c d) eqn:Hc; [|done]. apply Ascii.eqb_eq in Hc as ->. intros H. by rewrite (IH _ H).
Qed.

Lemma skip_space_sound l : exists w, l = w ++ skip_space l /\ forallb json_space w = true.
Proof.
  induction l as [|c l (w & Hl & Hw)]; [by exists []|]. cbn [skip_space]. destruct (json_space c) eqn:Hc; [|by exists []].
  exists (c :: w). split; [cbn; by f_equal|]. cbn [forallb]. by rewrite Hc.
Qed.


Lemma lay_depth h v d d' : json_ok h v -> lay (fun _ => []) [] d v = lay (fun _ => []) [] d' v.
Proof.
  intros Hv. pose proof (compacts_lay (fun _ => []) [] (fun _ => eq_refl) eq_refl h v d d' Hv []) as H1.
  pose proof (compacts_lay (fun _ => []) [] (fun _ => eq_refl) eq_refl h v d d Hv []) as H2.
  rewrite !app_nil_r in H1, H2. congruence.
Qed.

(** [l] begins with a layout of something that prints as [text]; [rest] follows. *)
Definition lays_out (l rest text : list ascii) : Prop := exists p, l = p ++ rest /\ compacts p text.

Lemma lays_out_space l rest text : lays_out (skip_space l) rest text -> lays_out l rest text.
Proof.
  intros (p & Hp & Hc). destruct (skip_space_sound l) as (w & Hl & Hw). exists (w ++ p).
  split; [by rewrite Hl, Hp, app_assoc|]. apply (compacts_app w [] p text); [by apply compacts_space|done].
Qed.
Lemma lays_out_cons c l rest text :
  json_space c = false -> Ascii.eqb c quote = false -> lays_out l rest text -> lays_out (c :: l) rest (c :: text).
Proof. intros Hs Hq (p & -> & Hc). exists (c :: p). split; [done|]. by apply compacts_cons. Qed.
Lemma lays_out_app l m rest t1 t2 : lays_out l m t1 -> lays_out m rest t2 -> lays_out l rest (t1 ++ t2).
Proof. intros (p & -> & H1) (q & -> & H2). exists (p ++ q). split; [by rewrite app_assoc|]. by apply compacts_app. Qed.
Lemma lays_out_string b rest : body_ok b -> lays_out (quote :: b ++ quote :: rest) rest (lay_string b).
Proof.
  intros Hb. exists (lay_string b). split; [|by apply compacts_string]. unfold lay_string. cbn. by rewrite <- app_assoc.
Qed.
Lemma lays_out_literal text rest : literal_ok text -> lays_out (text ++ rest) rest text.
Proof.
  intros Ht. exists text. split; [done|]. intros k. apply compact_plain. apply literal_plain in Ht.
  rewrite forallb_forall in Ht |- *. intros c Hc%Ht. by apply andb_true_iff in Hc as [? _].
Qed.

(** The text of items after the bracket *)
Fixpoint comma_separated (items : list (list ascii)) : list ascii :=
  match items with [] => [] | [x] => x | x :: items => x ++ ","%char :: comma_separated items end.
Lemma lay_items_compact d items : lay_items (fun _ => []) d items = comma_separated items.
Proof.
  destruct items as [|x items]; [done|]. cbn. revert x. induction items as [|y items IH]; intros x; cbn.
  - by rewrite !app_nil_r.
  - do 2 f_equal. by rewrite <- app_assoc, IH.
Qed.

Definition printed_member : list ascii * json -> list ascii := fun '(k, v) => lay_string k ++ ":"%char :: json_print v.

Lemma print_array h items : Forall (json_ok h) items ->
  json_print (JArr items) = "["%char :: comma_separated (map json_print items) ++ ["]"%char].
Proof.
  intros Hall. unfold json_print at 1. cbn [lay]. rewrite lay_items_compact. do 3 f_equal.
  induction Hall as [|v items Hv _ IH]; [done|]. cbn [map]. f_equal; [by apply (lay_depth h)|done].
Qed.
Lemma print_object h members : Forall (json_ok h) (map snd members) ->
  json_print (JObj members) = "{"%char :: comma_separated (map printed_member members) ++ ["}"%char].
Proof.
  intros Hall. unfold json_print. cbn [lay]. rewrite lay_items_compact. do 3 f_equal.
  induction members as [|[k v] members IH]; [done|]. cbn [map snd] in *. inversion Hall; subst.
  f_equal; [|by apply IH]. unfold printed_member. do 2 f_equal. by apply (lay_depth h).
Qed.

(** The three parsers, on a text that they accept *)
Definition sound_value (v : json) (depth : Z) (l rest : list ascii) : Prop :=
  exists h, json_ok h v /\ depth + Z.of_nat h <= maxNestingDepth /\ lays_out l rest (json_print v).
Definition sound_items (items : list json) (depth : Z) (l rest : list ascii) : Prop :=
  exists h, Forall (json_ok h) items /\ depth + Z.of_nat h <= maxNestingDepth /\
    lays_out l rest (comma_separated (map json_print items) ++ ["]"%char]).
Definition sound_members (members : list (list ascii * json)) (depth : Z) (l rest : list ascii) : Prop :=
  exists h, Forall body_ok (map fst members) /\ Forall (json_ok h) (map snd members) /\
    depth + Z.of_nat h <= maxNestingDepth /\ lays_out l rest (comma_separated (map printed_member members) ++ ["}"%char]).

Lemma json_ok_mono h h' v : (h <= h')%nat -> json_ok h v -> json_ok h' v.
Proof.
  revert h' v. induction h as [|h IH]; intros h' v Hle Hv; inversion Hv as [| |? items Hall|? members Hn Hall]; subst;
    try (by constructor); destruct h' as [|h']; try lia; constructor; try done;
    (eapply Forall_impl; [exact Hall|]; intros u Hu; apply (IH h'); [lia|done]).
Qed.

Lemma sound_literal depth c r rest m :
  (if Ascii.eqb c "t" then strip_prefix (to_list "rue") r
   else if Ascii.eqb c "f" then strip_prefix (to_list "alse") r
   else if Ascii.eqb c "n" then strip_prefix (to_list "ull") r
   else number_rest (c :: r)) = Some m ->
  depth <= maxNestingDepth -> JLit (consumed (c :: r) m) = rest ->
  sound_value rest depth (c :: r) m.
Proof.
  intros Hm Hd <-.
  assert (exists p, c :: r = p ++ m /\ literal_ok p) as (p & Hp & Hok).
  { destruct (Ascii.eqb c "t") eqn:Ht; [|destruct (Ascii.eqb c "f") eqn:Hf; [|destruct (Ascii.eqb c "n") eqn:Hn]].
    - apply Ascii.eqb_eq in Ht as ->. apply strip_prefix_sound in Hm as ->. exists (to_list "true").
      split; [done|]. left. by apply list_elem_of_here.
    - apply Ascii.eqb_eq in Hf as ->. apply strip_prefix_sound in Hm as ->. exists (to_list "false").
      split; [done|]. left. apply list_elem_of_further, list_elem_of_here.
    - apply Ascii.eqb_eq in Hn as ->. apply strip_prefix_sound in Hm as ->. exists (to_list "null").
      split; [done|]. left. do 2 apply list_elem_of_further. apply list_elem_of_here.
    - by apply number_rest_sound. }
  unfold consumed. rewrite Hp, length_app. replace (length p + length m - length m)%nat with (length p) by lia.
  rewrite take_app_length. exists 0%nat. split_and!; [by constructor|lia|]. by apply lays_out_literal.
Qed.

Lemma parse_items_nonempty fuel depth l rest : parse_items fuel depth l <> Some ([], rest).
Proof.
  destruct fuel as [|fuel]; [done|]. cbn [parse_items]. intros ([v m] & _ & H)%bind_Some.
  destruct (skip_space m) as [|c r]; [done|]. destruct (Ascii.eqb c ","); [|by destruct (Ascii.eqb c "]")].
  apply bind_Some in H as ([? ?] & _ & H). done.
Qed.
Lemma parse_members_nonempty fuel depth l rest : parse_members fuel depth l <> Some ([], rest).
Proof.
  destruct fuel as [|fuel]; [done|]. cbn [parse_members]. intros (? & _ & H)%bind_Some.
  apply bind_Some in H as ([? ?] & _ & H). apply bind_Some in H as (? & _ & H). apply bind_Some in H as ([v m] & _ & H).
  destruct (skip_space m) as [|c r]; [done|]. destruct (Ascii.eqb c ","); [|by destruct (Ascii.eqb c "}")].
  apply bind_Some in H as ([? ?] & _ & H). done.
Qed.

Section step.
  Context (fuel : nat).
  Hypothesis values : forall depth l v rest, parse_value fuel depth l = Some (v, rest) -> depth <= maxNestingDepth -> sound_value v depth l rest.
  Hypothesis items : forall depth l vs rest, parse_items fuel depth l = Some (vs, rest) -> depth <= maxNestingDepth -> sound_items vs depth l rest.
  Hypothesis members : forall depth l ms rest, parse_members fuel depth l = Some (ms, rest) -> depth <= maxNestingDepth -> sound_members ms depth l rest.

Lemma lays_out_end c l rest : json_space c = false -> Ascii.eqb c quote = false -> skip_space l = c :: rest -> lays_out l rest [c].
Proof.
  intros Hs Hq Hl. apply lays_out_space. rewrite Hl. apply lays_out_cons; [done..|]. exists []. by split.
Qed.

Lemma sound_value_step depth l v rest :
  parse_value (S fuel) depth l = Some (v, rest) -> depth <= maxNestingDepth -> sound_value v depth l rest.
Proof.
  cbn [parse_value]. intros H Hd. destruct (skip_space l) as [|c r] eqn:Hl; [done|].
  assert (sound_value v depth (c :: r) rest -> sound_value v depth l rest) as Hskip.
  { intros (h & ? & ? & ?). exists h. split_and!; [done..|]. apply lays_out_space. by rewrite Hl. }
  apply Hskip. clear Hskip Hl. destruct (Ascii.eqb c "{") eqn:Ho.
  { apply Ascii.eqb_eq in Ho as ->. destruct (maxNestingDepth <? depth + 1) eqn:Hmax; [done|].
    destruct (skip_space r) as [|d r'] eqn:Hr; [done|]. destruct (Ascii.eqb d "}") eqn:Hc.
    - apply Ascii.eqb_eq in Hc as ->. injection H as <- <-. exists 1%nat. split_and!; [by constructor|lia|].
      apply lays_out_cons; [done..|]. by apply lays_out_end.
    - apply bind_Some in H as ([ms m] & Hm & H). injection H as <- <-. apply members in Hm; [|lia].
      destruct Hm as (h & Hn & Hall & Hh & Hout). exists (S h). split_and!; [by constructor|lia|].
      rewrite (print_object h) by done. by apply lays_out_cons. }
  destruct (Ascii.eqb c "[") eqn:Ha.
  { apply Ascii.eqb_eq in Ha as ->. destruct (maxNestingDepth <? depth + 1) eqn:Hmax; [done|].
    destruct (skip_space r) as [|d r'] eqn:Hr; [done|]. destruct (Ascii.eqb d "]") eqn:Hc.
    - apply Ascii.eqb_eq in Hc as ->. injection H as <- <-. exists 1%nat. split_and!; [by constructor|lia|].
      apply lays_out_cons; [done..|]. by apply lays_out_end.
    - apply bind_Some in H as ([vs m] & Hm & H). injection H as <- <-. apply items in Hm; [|lia].
      destruct Hm as (h & Hall & Hh & Hout). exists (S h). split_and!; [by constructor|lia|].
      rewrite (print_array h) by done. by apply lays_out_cons. }
  destruct (Ascii.eqb c quote) eqn:Hq.
  { apply Ascii.eqb_eq in Hq as ->. apply bind_Some in H as ([b m] & Hb & H). injection H as <- <-.
    apply parse_body_sound in Hb as [-> Hb]. exists 0%nat. split_and!; [by constructor|lia|]. by apply lays_out_string. }
  apply bind_Some in H as (m & Hm & H). injection H as <- <-. by eapply sound_literal.
Qed.

(** After an element: a comma and more of them, or the closing bracket *)
Lemma sound_items_step depth l vs rest :
  parse_items (S fuel) depth l = Some (vs, rest) -> depth <= maxNestingDepth -> sound_items vs depth l rest.
Proof.
  cbn [parse_items]. intros H Hd. apply bind_Some in H as ([v m] & Hv & H). apply values in Hv; [|done].
  destruct Hv as (h & Hok & Hh & Hout). destruct (skip_space m) as [|c r] eqn:Hm; [done|].
  destruct (Ascii.eqb c ",") eqn:Hc.
  - apply Ascii.eqb_eq in Hc as ->. apply bind_Some in H as ([us q] & Hu & H). injection H as <- <-.
    destruct us as [|u us]; [by apply parse_items_nonempty in Hu|].
    apply items in Hu; [|done]. destruct Hu as (h' & Hall & Hh' & Hrest). exists (h `max` h')%nat. split_and!; [|lia|].
    + constructor; [by eapply json_ok_mono; [|done]; lia|]. eapply Forall_impl; [done|]. intros u'. apply json_ok_mono. lia.
    + cbn [map comma_separated] in *. rewrite <- app_assoc.
      eapply lays_out_app; [done|]. cbn [app]. apply lays_out_space. rewrite Hm. by apply lays_out_cons.
  - destruct (Ascii.eqb c "]") eqn:Hc'; [|done]. apply Ascii.eqb_eq in Hc' as ->. injection H as <- <-. exists h.
    split_and!; [by constructor|done|]. cbn [map comma_separated]. eapply lays_out_app; [done|]. by apply lays_out_end.
Qed.

Lemma sound_members_step depth l ms rest :
  parse_members (S fuel) depth l = Some (ms, rest) -> depth <= maxNestingDepth -> sound_members ms depth l rest.
Proof.
  cbn [parse_members]. intros H Hd. apply bind_Some in H as (l1 & H1 & H). apply strip_prefix_sound in H1.
  apply bind_Some in H as ([name l2] & H2 & H). apply parse_body_sound in H2 as [-> Hname].
  apply bind_Some in H as (l3 & H3 & H). apply strip_prefix_sound in H3.
  apply bind_Some in H as ([v m] & Hv & H). apply values in Hv; [|done]. destruct Hv as (h & Hok & Hh & Hout).
  assert (lays_out l m (printed_member (name, v))) as Hmember.
  { apply lays_out_space. rewrite H1. cbn [app]. unfold printed_member. eapply lays_out_app; [by apply lays_out_string|].
    apply lays_out_space. rewrite H3. by apply lays_out_cons. }
  clear H1 H3 Hout. destruct (skip_space m) as [|c r] eqn:Hm; [done|]. destruct (Ascii.eqb c ",") eqn:Hc.
  - apply Ascii.eqb_eq in Hc as ->. apply bind_Some in H as ([us q] & Hu & H). injection H as <- <-.
    destruct us as [|u us]; [by apply parse_members_nonempty in Hu|]. apply members in Hu; [|done].
    destruct Hu as (h' & Hn & Hall & Hh' & Hrest). exists (h `max` h')%nat. split_and!; [by constructor| |lia|].
    + constructor; [by eapply json_ok_mono; [|done]; lia|]. eapply Forall_impl; [done|]. intros u'. apply json_ok_mono. lia.
    + cbn [map comma_separated] in *. rewrite <- app_assoc. eapply lays_out_app; [done|]. cbn [app].
      apply lays_out_space. rewrite Hm. by apply lays_out_cons.
  - destruct (Ascii.eqb c "}") eqn:Hc'; [|done]. apply Ascii.eqb_eq in Hc' as ->. injection H as <- <-. exists h.
    split_and!; [by repeat constructor|by repeat constructor|done|]. cbn [map comma_separated]. eapply lays_out_app; [done|].
    by apply lays_out_end.
Qed.
End step.

Lemma parse_sound fuel :
  (forall depth l v rest, parse_value fuel depth l = Some (v, rest) -> depth <= maxNestingDepth -> sound_value v depth l rest) /\
  (forall depth l vs rest, parse_items fuel depth l = Some (vs, rest) -> depth <= maxNestingDepth -> sound_items vs depth l rest) /\
  (forall depth l ms rest, parse_members fuel depth l = Some (ms, rest) -> depth <= maxNestingDepth -> sound_members ms depth l rest).
Proof.
  induction fuel as [|fuel (IHv & IHi & IHm)]; [by split_and!|]. split_and!; intros depth l.
  - by apply sound_value_step. - by apply sound_items_step. - by apply sound_members_step.
Qed.

(** A text that parses is well formed, and indenting it lays the tree out. *)
Lemma json_parse_sound s v :
  json_parse s = Some v ->
  exists h, json_ok h v /\ Z.of_nat h <= maxNestingDepth /\ forall d, json_indented d s = of_list (json_pretty d v).
Proof.
  unfold json_parse. intros ([u rest] & Hu & H)%bind_Some. destruct (skip_space rest) as [|c r] eqn:Hr; [|done].
  injection H as <-. apply parse_sound in Hu as (h & Hok & Hh & p & Hs & Hc); [|done].
  exists h. split_and!; [done|lia|]. intros d. unfold json_indented. f_equal.
  destruct (skip_space_sound rest) as (w & Hw & Hspace). rewrite Hr, app_nil_r in Hw. subst w.
  rewrite Hs, Hc. replace (json_compact false false rest) with (@nil ascii).
  - unfold json_print. by rewrite (indents_lay h u d 0 Hok []), app_nil_r.
  - symmetry. pose proof (compact_space rest [] Hspace) as H0. by rewrite app_nil_r in H0.
Qed.

(** json.Valid and the parser accept the same texts. *)
Lemma string_rest_parse l : string_rest l = snd <$> parse_body l.
Proof. unfold parse_body. by destruct (string_rest l). Qed.

Lemma value_parse fuel :
  (forall depth l, value false fuel depth l = snd <$> parse_value fuel depth l) /\
  (forall depth l, members false fuel depth l = snd <$> parse_members fuel depth l) /\
  (forall depth l, elements false fuel depth l = snd <$> parse_items fuel depth l).
Proof.
  induction fuel as [|fuel (IHv & IHm & IHe)]; [done|].
  split_and!; intros depth l; cbn -[strip_prefix number_rest quote string_rest maxNestingDepth one_of].
  - destruct (skip_space l) as [|c r]; [done|]. rewrite string_rest_parse, IHm, IHe.
    destruct (Ascii.eqb c "{").
    { destruct (_ <? _); [done|]. destruct (skip_space r) as [|d r']; [done|]. destruct (Ascii.eqb d "}"); [done|].
      by destruct (parse_members fuel (depth + 1) r) as [[]|]. }
    destruct (Ascii.eqb c "[").
    { destruct (_ <? _); [done|]. destruct (skip_space r) as [|d r']; [done|]. destruct (Ascii.eqb d "]"); [done|].
      by destruct (parse_items fuel (depth + 1) r) as [[]|]. }
    destruct (Ascii.eqb c quote); [by destruct (parse_body r) as [[]|]|].
    destruct (Ascii.eqb c "t"); [by destruct (strip_prefix _ r)|]. destruct (Ascii.eqb c "f"); [by destruct (strip_prefix _ r)|].
    destruct (Ascii.eqb c "n"); [by destruct (strip_prefix _ r)|]. by destruct (number_rest (c :: r)).
  - destruct (strip_prefix [quote] (skip_space l)) as [l1|]; [|done]. cbn -[strip_prefix quote string_rest one_of].
    rewrite string_rest_parse. destruct (parse_body l1) as [[name l2]|]; [|done]. cbn -[strip_prefix quote one_of].
    destruct (strip_prefix [":"%char] (skip_space l2)) as [l3|]; [|done]. cbn -[quote one_of]. rewrite IHv.
    destruct (parse_value fuel depth l3) as [[v m]|]; [|done]. cbn. destruct (skip_space m) as [|c r]; [done|].
    rewrite IHm. destruct (Ascii.eqb c ","); [by destruct (parse_members fuel depth r) as [[]|]|]. by destruct (Ascii.eqb c "}").
  - rewrite IHv. destruct (parse_value fuel depth l) as [[v m]|]; [|done]. cbn. destruct (skip_space m) as [|c r]; [done|].
    rewrite IHe. destruct (Ascii.eqb c ","); [by destruct (parse_items fuel depth r) as [[]|]|]. by destruct (Ascii.eqb c "]").
Qed.

Lemma json_valid_parses s : json_valid s = true <-> is_Some (json_parse s).
Proof.
  unfold json_valid, json_accepts, json_parse. rewrite (proj1 (value_parse _)).
  destruct (parse_value _ _ _) as [[v rest]|]; cbn; [|split; [done|by intros []]].
  destruct (skip_space rest); split; try done; by intros [].
Qed.

(** Valid JSON after it has been written to a file and read *)
Lemma json_valid_indented d s : json_valid s = true -> json_valid (json_indented d s) = true.
Proof.
  rewrite !json_valid_parses. intros [v Hv]. destruct (json_parse_sound s v Hv) as (h & Hok & Hh & Hind).
  rewrite Hind. exists v. by apply (parse_layout _ _ h); [apply newline_space|..].
Qed.
Lemma json_parse_indented d s : json_valid s = true -> json_parse (json_indented d s) = json_parse s.
Proof.
  rewrite json_valid_parses. intros [v Hv]. destruct (json_parse_sound s v Hv) as (h & Hok & Hh & Hind).
  rewrite Hind, Hv. by apply (parse_layout _ _ h); [apply newline_space|..].
Qed.
Lemma json_indented_idemp d s : json_valid s = true -> json_indented d (json_indented d s) = json_indented d s.
Proof.
  rewrite json_valid_parses. intros [v Hv]. destruct (json_parse_sound s v Hv) as (h & Hok & Hh & Hind).
  rewrite Hind, <- (json_indented_text h d v Hok). by apply (json_indented_again h).
Qed.
