(* ===== verification/JsonStrings.v ===== *)
(** * Strings, integers and structs through JSON

    What jstring, jint, jbool and jobject encode is well formed and decodes to
    what it was. *)

From S2P Require Import Prelude GoText Json JsonTree JsonTreeTheory.
#[local] Open Scope string_scope.
#[local] Open Scope list_scope.
#[local] Open Scope Z_scope.

(** ** Sequences of UTF-8 *)

Definition high (c : ascii) : bool := (128 <=? N_of_ascii c)%N.

Lemma high_plain c : high c = true ->
  Ascii.eqb c quote = false /\ Ascii.eqb c backslash = false /\ (N_of_ascii c <? 32)%N = false.
Proof. destruct c as [[][][][][][][][]]; first [by vm_compute|intros H; discriminate H]. Qed.

Lemma char_in_high lo hi c : char_in lo hi c = true -> (128 <= lo)%N -> high c = true.
Proof. unfold char_in, high. rewrite andb_true_iff, !N.leb_le. lia. Qed.

(** The first [w] bytes are all that utf8_width looks at; of a longer sequence
    they are no ASCII. *)
Lemma utf8_width_spec l w :
  utf8_width l = Some w ->
  (forall r, utf8_width (take w l ++ r) = Some w) /\ length (take w l) = w /\
  (w = 1%nat \/ (2 <= w)%nat /\ forallb high (take w l) = true).
Proof.
  destruct l as [|a l]; [done|]. cbn [utf8_width]. cbv zeta.
  destruct (N_of_ascii a <? 128)%N eqn:Ha; [intros [= <-]; cbn; rewrite Ha; auto|].
  assert (high a = true) as Hha by (by apply N.leb_le, N.ltb_ge).

  destruct l as [|b l]; [done|].
  destruct (_ && _) eqn:H2.
  { destruct (cont b) eqn:Hb; [|done]. intros [= <-]. cbn [take app forallb]. split; [|split; [done|right; split; [lia|]]].
    - intros r. cbn [utf8_width]. by rewrite Ha, H2, Hb.
    - rewrite Hha. by rewrite (char_in_high 128 191 b Hb). }
  destruct l as [|c l]; [done|].
  set (lo := if (N_of_ascii a =? 224)%N then 160%N else 128%N) in *. set (hi := if (N_of_ascii a =? 237)%N then 159%N else 191%N) in *.
  assert (128 <= lo)%N as Hlo by (unfold lo; case_match; lia).
  destruct ((224 <=? N_of_ascii a)%N && (N_of_ascii a <=? 239)%N) eqn:H3.
  { destruct (char_in lo hi b && cont c) eqn:H3'; [|done]. intros [= <-]. cbn [take app forallb]. split; [|split; [done|right; split; [lia|]]].
    - intros r. cbn [utf8_width]. cbv zeta. fold lo hi. by rewrite Ha, H2, H3, H3'.
    - apply andb_true_iff in H3' as [Hb Hc].
      by rewrite Hha, (char_in_high _ _ b Hb), (char_in_high 128 191 c Hc). }
  destruct l as [|d l]; [done|].
  set (lo' := if (N_of_ascii a =? 240)%N then 144%N else 128%N) in *. set (hi' := if (N_of_ascii a =? 244)%N then 143%N else 191%N) in *.
  assert (128 <= lo')%N as Hlo' by (unfold lo'; case_match; lia).
  destruct ((240 <=? N_of_ascii a)%N && (N_of_ascii a <=? 244)%N && char_in lo' hi' b && cont c && cont d) eqn:H4; [|done].
  intros [= <-]. cbn [take app forallb]. split; [|split; [done|right; split; [lia|]]].
  - intros r. cbn [utf8_width]. cbv zeta. fold lo hi lo' hi'. by rewrite Ha, H2, H3, H4.
  - rewrite !andb_true_iff in H4. destruct H4 as [[[_ Hb] Hc] Hd].
    by rewrite Hha, (char_in_high _ _ b Hb), (char_in_high 128 191 c Hc), (char_in_high 128 191 d Hd).
Qed.

Lemma json_chars_skip html k l : json_chars html k l = json_chars html 0 (drop k l).
Proof. revert l. induction k as [|k IH]; intros [|c l]; cbn; auto. Qed.
Lemma valid_utf8_skip k l : valid_utf8_from k l = valid_utf8_from 0 (drop k l).
Proof. revert l. induction k as [|k IH]; intros [|c l]; cbn; auto. Qed.
Lemma unquote_skip k l : unquote k l = unquote 0 (drop k l).
Proof. revert l. induction k as [|k IH]; intros [|c l]; cbn; auto. Qed.

(** The encoding of the sequence at the head of the list *)
Definition json_head (l : list ascii) : list ascii :=
  match utf8_width l with
  | None => backslash :: to_list "ufffd"
  | Some 1%nat => match l with c :: _ => json_escape true c | [] => [] end
  | Some w =>
      if bool_decide (take w l = bytes [226; 128; 168]%N) then backslash :: to_list "u2028"
      else if bool_decide (take w l = bytes [226; 128; 169]%N) then backslash :: to_list "u2029"
      else take w l
  end.

Lemma json_chars_cons c l :
  json_chars true 0 (c :: l) = json_head (c :: l) ++ json_chars true 0 (drop (default 1%nat (utf8_width (c :: l))) (c :: l)).
Proof.
  unfold json_head. cbn [json_chars]. destruct (utf8_width (c :: l)) as [[|[|w]]|] eqn:Hw; cbn [default]; try done.
  - apply utf8_width_spec in Hw as (_ & Hlen & [|[? _]]); lia.
  - rewrite json_chars_skip. done.
Qed.

Lemma body_ok_app l1 l2 : body_ok l1 -> body_ok l2 -> body_ok (l1 ++ l2).
Proof. intros H1 H2. induction H1; cbn; [done|by apply body_plain|by apply body_escape|by apply body_unicode]. Qed.
Lemma body_ok_high l : forallb high l = true -> body_ok l.
Proof. induction l as [|c l IH]; cbn; [constructor|]. intros [(H1 & H2 & H3)%high_plain Hl]%andb_true_iff. apply body_plain; auto. Qed.

Lemma json_escape_ok c : body_ok (json_escape true c).
Proof.
  destruct c as [[][][][][][][][]]; vm_compute;
    first [apply body_unicode; [reflexivity|apply body_nil]
          |apply body_escape; [reflexivity|reflexivity|apply body_nil]
          |apply body_plain; [reflexivity..|apply body_nil]].
Qed.

Lemma json_head_ok l : body_ok (json_head l).
Proof.
  unfold json_head. destruct (utf8_width l) as [w|] eqn:Hw; [|by apply body_unicode; [|apply body_nil]].
  apply utf8_width_spec in Hw as (_ & _ & Hhigh). destruct w as [|[|w]].
  - destruct Hhigh as [|[? _]]; lia.
  - destruct l; [constructor|apply json_escape_ok].
  - destruct Hhigh as [|[_ Hhigh]]; [lia|]. do 2 (case_bool_decide; [by apply body_unicode; [|apply body_nil]|]).
    by apply body_ok_high.
Qed.

Lemma json_chars_ok l : body_ok (json_chars true 0 l).
Proof.
  induction l as [l IH] using (induction_ltof1 _ (@length ascii)). unfold ltof in IH. destruct l as [|c l]; [constructor|].
  rewrite json_chars_cons. apply body_ok_app; [apply json_head_ok|]. apply IH. rewrite length_drop.
  destruct (utf8_width (c :: l)) as [w|] eqn:Hw; cbn; [|lia]. apply utf8_width_spec in Hw as (_ & _ & [|[? _]]); lia.
Qed.

(** ** Unquoting *)

Lemma unquote_simple e l : Ascii.eqb e "u" = false -> unquote 0 (backslash :: e :: l) = simple_escape e :: unquote 0 l.
Proof. intros He. destruct l as [|? [|? [|? [|? ?]]]]; cbn -[simple_escape]; by rewrite ?He. Qed.

Lemma unquote_escape c l : high c = false -> unquote 0 (json_escape true c ++ l) = c :: unquote 0 l.
Proof.
  destruct c as [[][][][][][][][]]; intros H; first [discriminate H|clear H];
    first [reflexivity|etrans; [refine (unquote_simple _ l _); reflexivity|reflexivity]].
Qed.

Lemma unquote_head l r w :
  utf8_width l = Some w -> unquote 0 (json_head l ++ r) = take w l ++ unquote 0 r.
Proof.
  intros Hw. unfold json_head. rewrite Hw. pose proof (utf8_width_spec l w Hw) as (Happ & Hlen & Hhigh).
  destruct w as [|[|w]]; [destruct Hhigh as [|[? _]]; lia| |].
  - destruct l as [|c l]; [done|]. cbn [take app]. apply unquote_escape. unfold high.
    specialize (Happ []). cbn in Happ. destruct (N_of_ascii c <? 128)%N eqn:Hc; [|done]. by apply N.leb_gt, N.ltb_lt.
  - case_bool_decide as H1; [by rewrite H1|]. case_bool_decide as H2; [by rewrite H2|].
    destruct Hhigh as [|[_ Hhigh]]; [lia|]. specialize (Happ r). destruct l as [|c l]; [done|]. cbn [take app] in *.
    cbn [forallb] in Hhigh. apply andb_true_iff in Hhigh as [(_ & Hb & _)%high_plain _].
    cbn [unquote]. rewrite Hb, Happ. cbn [take]. f_equal.
    rewrite unquote_skip. cbn [Nat.sub]. cbn in Hlen. injection Hlen as Hlen.
    rewrite take_app_le, drop_app_le, (drop_ge (take (S w) l)) by (cbn; lia). rewrite (take_ge (take (S w) l)) by (cbn; lia). done.
Qed.

Lemma unquote_json_chars l : valid_utf8_from 0 l = true -> unquote 0 (json_chars true 0 l) = l.
Proof.
  induction l as [l IH] using (induction_ltof1 _ (@length ascii)). unfold ltof in IH. destruct l as [|c l]; [done|].
  rewrite json_chars_cons. cbn [valid_utf8_from]. destruct (utf8_width (c :: l)) as [w|] eqn:Hw; [|done]. cbn [default].
  pose proof (utf8_width_spec _ _ Hw) as (_ & Hlen & Hpos). rewrite valid_utf8_skip. intros Hv.
  destruct w as [|w]; [destruct Hpos as [|[? _]]; lia|].
  rewrite (unquote_head (c :: l) _ (S w)) by done. rewrite IH; [apply take_drop| |].
  - rewrite length_drop. cbn. lia.
  - cbn [drop]. by replace (S w - 1)%nat with w in Hv by lia.
Qed.

(** ** Codecs of the basic types *)

Lemma jstring_ok h s : json_ok h (jstring s).
Proof. constructor. apply json_chars_ok. Qed.
Lemma string_of_jstring s : valid_utf8 s = true -> string_of_body (json_chars true 0 (to_list s)) = s.
Proof. intros Hs. unfold string_of_body. rewrite unquote_json_chars by done. apply of_to_list. Qed.

Lemma decode_jstring s : valid_utf8 s = true -> decode_string (jstring s) = Some s.
Proof. intros Hs. cbn [decode_string jstring]. by rewrite string_of_jstring. Qed.
Lemma decode_jbool b : decode_bool (jbool b) = Some b.
Proof. by destruct b. Qed.

(** ** Decimal literals *)

Lemma digit_spec n : (n < 10)%N ->
  is_digit (pretty_N_char n) = true /\ Z.of_N (N_of_ascii (pretty_N_char n)) - 48 = Z.of_N n /\
  (n <> 0%N -> Ascii.eqb (pretty_N_char n) "0" = false).
Proof.
  intros Hn. assert (forallb (fun k => is_digit (pretty_N_char k) && (Z.of_N (N_of_ascii (pretty_N_char k)) - 48 =? Z.of_N k) &&
    ((k =? 0)%N || negb (Ascii.eqb (pretty_N_char k) "0"))) (map N.of_nat (List.seq 0 10)) = true) as Hall by by vm_compute.
  rewrite forallb_forall in Hall. specialize (Hall n).
  rewrite !andb_true_iff, orb_true_iff, negb_true_iff, Z.eqb_eq, N.eqb_eq in Hall.
  destruct Hall as [[Hd Hv] Hz]; [|by split_and!; [..|intros Hne; destruct Hz]].
  apply List.in_map_iff. exists (N.to_nat n). split; [apply N2Nat.id|]. apply List.in_seq. lia.
Qed.

Lemma decimal_snoc l c : decimal (l ++ [c]) = decimal l * 10 + (Z.of_N (N_of_ascii c) - 48).
Proof. unfold decimal. by rewrite foldl_app. Qed.

Lemma pretty_digits x s : (0 < x)%N ->
  exists c l, to_list (pretty_N_go x s) = (c :: l) ++ to_list s /\ forallb is_digit (c :: l) = true /\
    Ascii.eqb c "0" = false /\ decimal (c :: l) = Z.of_N x.
Proof.
  revert s. induction (N.lt_wf_0 x) as [x _ IH]. intros s Hx. rewrite pretty_N_go_step by done.
  pose proof (N.mod_lt x 10 ltac:(lia)) as Hm. destruct (digit_spec _ Hm) as (Hd & Hv & Hz).
  destruct (decide (x < 10)%N) as [Hlt|Hge].
  - rewrite (N.div_small x 10), (N.mod_small x 10) in * by done. rewrite pretty_N_go_0. eexists _, [].
    split; [done|]. split_and!; [cbn [forallb]; by rewrite Hd|apply Hz; lia|]. unfold decimal. cbn [foldl]. lia.
  - destruct (IH (x / 10)%N) with (s := String (pretty_N_char (x mod 10)) s) as (c & l & Hl & Hall & Hc & Hdec);
      [apply N.div_lt; lia|apply N.div_str_pos; lia|].
    exists c, (l ++ [pretty_N_char (x mod 10)]). split; [rewrite Hl; cbn; by rewrite <- app_assoc|].
    rewrite app_comm_cons, forallb_app, decimal_snoc, Hall, Hdec. cbn [forallb]. rewrite Hd. split_and!; [done..|].
    rewrite Hv. pose proof (N.div_mod x 10). lia.
Qed.

(** The literal of a natural number *)
Lemma pretty_N_digits (x : N) :
  exists c l, to_list (pretty x) = c :: l /\ forallb is_digit (c :: l) = true /\ decimal (c :: l) = Z.of_N x /\
    (Ascii.eqb c "0" = true -> l = []).
Proof.
  unfold pretty, pretty_N. destruct (decide (x = 0)%N) as [-> |Hx]; [by eexists _, []|].
  destruct (pretty_digits x "" ltac:(lia)) as (c & l & Hl & Hall & Hc & Hd). exists c, l.
  rewrite Hl, app_nil_r. by rewrite Hc.
Qed.

Lemma digits_all l : forallb is_digit l = true -> digits l = [].
Proof. induction l as [|c l IH]; cbn; [done|]. intros [-> Hl]%andb_true_iff. by apply IH. Qed.

Lemma natural_literal c l :
  forallb is_digit (c :: l) = true -> (Ascii.eqb c "0" = true -> l = []) -> number_rest (c :: l) = Some [].
Proof.
  intros Hall Hz. unfold number_rest. cbn in Hall. apply andb_true_iff in Hall as [Hc Hl].
  assert (Ascii.eqb c "-" = false) as -> by (clear -Hc; destruct c as [[][][][][][][][]]; first [discriminate Hc|done]).
  assert (number_int (c :: l) = Some []) as ->; [|done]. cbn -[Ascii.eqb]. destruct (Ascii.eqb c "0"); [by rewrite Hz|].
  by rewrite Hc, digits_all.
Qed.

Lemma literal_digits l : forallb is_digit l = true -> forallb (fun c => is_digit c || one_of "+-.eE" c) l = true.
Proof. rewrite !forallb_forall. intros Hl c Hc. by rewrite Hl. Qed.

Lemma jint_ok h z : json_ok h (jint z).
Proof.
  constructor. right. unfold jint, lit. destruct z as [|p|p]; [split_and!; [done|by vm_compute..]| |];
    destruct (pretty_N_digits (Npos p)) as (c & l & Hl & Hall & _ & Hz).
  - change (pretty (Z.pos p)) with (pretty (N.pos p)). rewrite Hl. split_and!; [done|by apply literal_digits|by apply natural_literal].
  - change (pretty (Z.neg p)) with ("-" +:+ pretty (N.pos p)). rewrite to_list_app, Hl. split_and!; [done| |].
    + apply andb_true_iff. split; [done|exact (literal_digits (c :: l) Hall)].
    + pose proof (natural_literal c l Hall Hz) as Hn. unfold number_rest in Hn.
      assert (Ascii.eqb c "-" = false) as Hm.
      { cbn in Hall. apply andb_true_iff in Hall as [Hc _]. clear -Hc. by destruct c as [[][][][][][][][]]. }
      by rewrite Hm in Hn.
Qed.

Lemma parse_jint least most z :
  least <= 0 -> least <= z <= most -> parse_int least most (to_list (pretty z)) = Some z.
Proof.
  intros Hl Hz. unfold parse_int. destruct z as [|p|p].
  - cbn -[Z.leb decimal Z.mul]. change (1 * decimal ["0"%char]) with 0.
    replace (least <=? 0) with true by lia. by replace (0 <=? most) with true by lia.
  - change (pretty (Z.pos p)) with (pretty (N.pos p)). destruct (pretty_N_digits (Npos p)) as (c & l & -> & Hall & Hd & _).
    assert (Ascii.eqb c "-" = false) as ->.
    { cbn in Hall. apply andb_true_iff in Hall as [Hc _]. clear -Hc. by destruct c as [[][][][][][][][]]. }
    cbn [andb]. rewrite Hall, Hd. rewrite Z.mul_1_l. cbn -[Z.leb]. replace (least <=? Z.pos p) with true by lia. by replace (Z.pos p <=? most) with true by lia.
  - change (pretty (Z.neg p)) with ("-" +:+ pretty (N.pos p)). rewrite to_list_app. cbn [app to_list].
    destruct (pretty_N_digits (Npos p)) as (c & l & -> & Hall & Hd & _). replace (least <? 0) with true by (symmetry; apply Z.ltb_lt; lia). cbn [Ascii.eqb Bool.eqb andb].
    rewrite Hall, Hd. change (-1 * Z.of_N (N.pos p)) with (Z.neg p). cbn -[Z.leb].
    replace (least <=? Z.neg p) with true by (symmetry; apply Z.leb_le, Hz).
    by replace (Z.neg p <=? most) with true by (symmetry; apply Z.leb_le, Hz).
Qed.

