(* ===== verification/Lease.v ===== *)
(** * The control lease of a run

    internal/store/lease.go: the file control.lock names the process that
    controls the run and the time its claim expires.  A process that holds a
    [Lease] renews it; another may take the file over once it has expired, or,
    in a recovery, when its process is known to be dead.

    The clock, the new owner id (random bytes), the process id and the answer of
    processAlive are inputs of each operation; beforeHeartbeatGuard is what the
    other processes do to the file between the two reads of a heartbeat. *)

From S2P Require Import Prelude GoText Routing Resolver Catalog Workflow Files.
#[local] Open Scope string_scope.
#[local] Open Scope list_scope.
#[local] Open Scope Z_scope.

(** Times are nanoseconds; 0 is the zero time. *)
Record LeaseRecord := {
  lr_OwnerID : string; lr_PID : Z; lr_Command : string;
  lr_CreatedAt : Z; lr_Heartbeat : Z; lr_ExpiresAt : Z }.
#[export] Instance LeaseRecord_eq_dec : EqDecision LeaseRecord.
Proof. solve_decision. Defined.

Inductive LeaseError :=
| LeaseFile (e : FileError) | LeaseRunID | LeaseCommand | LeaseOwner
| LeaseConflictError (current : LeaseRecord)
| LeaseIncomplete | LeaseNotOwned (owner : string) | LeaseNotReleased (owner : string).
#[export] Instance LeaseError_files : FileErrors LeaseError := LeaseFile.

(** What one operation observes of its surroundings *)
Record Surroundings := {
  sr_now : Z; sr_pid : Z; sr_owner : option string; sr_alive : Z -> option bool }.

Section operations.
  Context (ttl : Z).

Notation lease_io := (io (file LeaseRecord) LeaseError).

Definition incomplete (record : LeaseRecord) : bool := (lr_OwnerID record =s "") || (lr_ExpiresAt record =? 0).
Definition readLease : lease_io LeaseRecord :=
  record ← readJSON id;
  if incomplete record then refuse LeaseIncomplete else mret record.

(** The conflict that a current record is for an acquisition, if it is one *)
Definition conflicts (recovery : bool) (env : Surroundings) (current : LeaseRecord) : bool :=
  (sr_now env <? lr_ExpiresAt current) &&
  (negb recovery || match sr_alive env (lr_PID current) with Some alive => alive | None => true end).

Definition new_record (command : string) (owner : string) (env : Surroundings) : LeaseRecord := {|
  lr_OwnerID := owner; lr_PID := sr_pid env; lr_Command := command; lr_CreatedAt := sr_now env;
  lr_Heartbeat := sr_now env; lr_ExpiresAt := sr_now env + ttl |}.

Definition acquire (runID command : string) (recovery : bool) (env : Surroundings) : lease_io LeaseRecord :=
  if negb (safe_id runID) then refuse LeaseRunID else
  if command =s "" then refuse LeaseCommand else
  match sr_owner env with
  | None => refuse LeaseOwner
  | Some owner =>
      let record := new_record command owner env in
      _ ← touch;
      withLeaseGuard (
        current ← attempt readLease;
        _ ← match current with
            | Ok current =>
                if conflicts recovery env current then refuse (LeaseConflictError current) else remove whole
            | Err (LeaseFile FileNotExist) => mret tt
            | Err e => refuse e
            end;
        _ ← injectFault;
        _ ← createLeaseExclusive id whole record;
        mret record)
  end.

Definition Acquire (runID command : string) (env : Surroundings) : lease_io LeaseRecord := acquire runID command false env.
Definition AcquireRecovery (runID command : string) (env : Surroundings) : lease_io LeaseRecord := acquire runID command true env.

Definition bound (holds : LeaseRecord -> bool) : lease_io bool :=
  current ← attempt readLease;
  match current with
  | Err (LeaseFile FileNotExist) => mret false
  | Err e => refuse e
  | Ok current => mret (holds current)
  end.
Definition Owns (record : LeaseRecord) (now : Z) : lease_io bool :=
  bound (fun current => (lr_OwnerID current =s lr_OwnerID record) && (now <? lr_ExpiresAt current)).
Definition Bound (record : LeaseRecord) : lease_io bool :=
  bound (fun current => lr_OwnerID current =s lr_OwnerID record).

Definition renewed (record : LeaseRecord) (now : Z) : LeaseRecord := {|
  lr_OwnerID := lr_OwnerID record; lr_PID := lr_PID record; lr_Command := lr_Command record;
  lr_CreatedAt := lr_CreatedAt record; lr_Heartbeat := now; lr_ExpiresAt := now + ttl |}.

Definition still_owned (record : LeaseRecord) : lease_io unit :=
  current ← readLease;
  if lr_OwnerID current ≠s lr_OwnerID record then refuse (LeaseNotOwned (lr_OwnerID record)) else mret tt.

(** The guarded part of Heartbeat *)
Definition renew (record : LeaseRecord) (now : Z) : lease_io LeaseRecord :=
  withLeaseGuard (
    _ ← still_owned record;
    _ ← writeJSON whole (renewed record now);
    mret (renewed record now)).

(** Heartbeat returns the record that the handle has from then on. *)
Definition Heartbeat (record : LeaseRecord) (now : Z) (between : file LeaseRecord -> file LeaseRecord)
    : lease_io LeaseRecord :=
  _ ← injectFault;
  _ ← still_owned record;
  _ ← others between;
  renew record now.

(** KeepAlive: a heartbeat at each tick, until one fails; [ticks] are the times
    of the ticks and the doings of the others before each. *)
Fixpoint KeepAlive (record : LeaseRecord) (ticks : list (Z * (file LeaseRecord -> file LeaseRecord)))
    : lease_io LeaseRecord :=
  match ticks with
  | [] => mret record
  | (now, doings) :: ticks =>
      _ ← others doings;
      record ← Heartbeat record now id;
      KeepAlive record ticks
  end.
Definition keep_alive_interval : Z := let interval := Z.quot ttl 3 in if interval <=? 0 then 1000000000 else interval.

Definition Release (record : LeaseRecord) : lease_io unit :=
  withLeaseGuard (
    current ← attempt readLease;
    match current with
    | Err (LeaseFile FileNotExist) => mret tt
    | Err e => refuse e
    | Ok current =>
        if lr_OwnerID current ≠s lr_OwnerID record then refuse (LeaseNotReleased (lr_OwnerID current))
        else remove whole
    end).
End operations.
