(* ===== verification/LeaseTheory.v ===== *)
(** * One controller at a time

    The processes that share a control lease act on it in any order, each of
    their system calls may fail, and each may die in the middle of an operation.
    A holder that renews in time keeps the lease against all of them; a lease
    that has been taken over is out of reach of its former holder; and a process
    that dies while it creates the file leaves one that nobody can acquire. *)

From S2P Require Import Prelude GoText Routing Resolver Catalog Workflow Files Lease.
#[local] Open Scope string_scope.
#[local] Open Scope list_scope.
#[local] Open Scope Z_scope.

(** What the processes do to the file: the guarded sections are the steps.  The
    first read of a heartbeat changes nothing, so a heartbeat is a renewal. *)
Inductive event :=
| EvAcquire (runID command : string) (recovery : bool) (env : Surroundings)
| EvRenew (record : LeaseRecord) (now : Z)
| EvRelease (record : LeaseRecord).

Definition complete (record : LeaseRecord) : bool := negb (incomplete record).

Section schedules.
  Context (ttl : Z).

Definition perform (e : event) : io (file LeaseRecord) LeaseError (option LeaseRecord) :=
  match e with
  | EvAcquire runID command recovery env => record ← acquire ttl runID command recovery env; mret (Some record)
  | EvRenew record now => record ← renew ttl record now; mret (Some record)
  | EvRelease record => _ ← Release record; mret None
  end.

(** The events of a schedule with what each of them came to *)
Fixpoint history (d : file LeaseRecord) (schedule : list (event * list fate))
    : list (event * io_end (file LeaseRecord) LeaseError (option LeaseRecord)) :=
  match schedule with
  | [] => []
  | (e, fates) :: schedule => let o := perform e d fates in (e, o) :: history (files_after o) schedule
  end.
Definition file_after (d : file LeaseRecord) (schedule : list (event * list fate)) : file LeaseRecord :=
  fold_left (fun d '(e, fates) => files_after (perform e d fates)) schedule d.

(** A renewal makes four system calls. *)
Definition works (fates : list fate) : bool :=
  forallb (fun f => match f with Works => true | _ => false end) (take 4 fates).

(** A lease may be taken over when it has expired, or by a recovery that knows
    that the process of the lease is dead. *)
Definition free_for (recovery : bool) (env : Surroundings) (r : LeaseRecord) : Prop :=
  lr_ExpiresAt r <= sr_now env \/ recovery = true /\ sr_alive env (lr_PID r) = Some false.
#[export] Instance free_for_dec recovery env r : Decision (free_for recovery env r).
Proof. unfold free_for. apply _. Defined.

(** The record of a lease that is renewed in time: every attempt to acquire it
    meets an unexpired lease of a process that is not known to be dead, and its
    holder does not release it. *)
Definition held_step (r : LeaseRecord) (e : event) (fates : list fate) : option LeaseRecord :=
  match e with
  | EvAcquire _ _ recovery env => if decide (free_for recovery env r) then None else Some r
  | EvRenew record now =>
      if lr_OwnerID record ≠s lr_OwnerID r then Some r
      else if negb (works fates) then Some r
      else if now + ttl =? 0 then None else Some (renewed ttl record now)
  | EvRelease record => if lr_OwnerID record ≠s lr_OwnerID r then Some r else None
  end.
Fixpoint held (r : LeaseRecord) (schedule : list (event * list fate)) : option LeaseRecord :=
  match schedule with
  | [] => Some r
  | (e, fates) :: schedule => r ← held_step r e fates; held r schedule
  end.

Definition acquires (e : event) : bool := match e with EvAcquire _ _ _ _ => true | _ => false end.

(** ** Steps *)

Lemma conflicts_spec recovery env r : conflicts recovery env r = false <-> free_for recovery env r.
Proof.
  unfold conflicts, free_for. rewrite andb_false_iff, orb_false_iff, negb_false_iff, Z.ltb_ge.
  destruct (sr_alive env (lr_PID r)) as [[]|]; naive_solver.
Qed.

Lemma leaves_readLease d : leaves d readLease.
Proof. apply leaves_bind; [auto with files|]. intros record _ _ _. destruct (incomplete _); auto with files. Qed.

Lemma readLease_holds r : complete r = true -> readLease (Holds r) [] = Returned r (Holds r) [].
Proof. intros Hr. apply negb_true_iff in Hr. unfold readLease, readJSON, call, mbind, io_bind, id. by rewrite Hr. Qed.

Lemma readLease_returned d fs r d' fs' : readLease d fs = Returned r d' fs' -> d = Holds r.
Proof.
  unfold readLease, mbind, io_bind. destruct (readJSON id d fs) as [r0 d0 fs0| |] eqn:Hread; [|done..].
  apply read_returned in Hread. destruct (incomplete _); intros H; [done|]. injection H as <- <- <-. done.
Qed.

Lemma readLease_absent d fs d' fs' : readLease d fs = Raised (LeaseFile FileNotExist) d' fs' -> d = Absent.
Proof.
  unfold readLease, mbind, io_bind, readJSON, call.
  destruct fs as [|[] fs], d as [|r|]; cbn; try done; by destruct (incomplete _).
Qed.

(** An operation that first reads the lease, case by case *)
Lemma blocked_by_read {A} (k : result LeaseError LeaseRecord -> io (file LeaseRecord) LeaseError A) d :
  (forall current, d = Holds current -> blocked d (k (Ok current))) ->
  (d = Absent -> blocked d (k (Err (LeaseFile FileNotExist)))) ->
  (forall e, e <> LeaseFile FileNotExist -> blocked d (k (Err e))) ->
  blocked d (attempt readLease ≫= k).
Proof.
  intros Hok Habsent Herr. apply blocked_bind; [apply leaves_attempt, leaves_readLease|].
  intros [current|e] fs fs' Hread.
  - apply attempt_ok in Hread. apply Hok. by eapply readLease_returned.
  - apply attempt_err in Hread. destruct e as [[]| | | | | | |]; try by apply Herr.
    apply Habsent. by eapply readLease_absent.
Qed.

Lemma leaves_still_owned record d : leaves d (still_owned record).
Proof. apply leaves_bind; [apply leaves_readLease|]. intros r _ _ _. destruct (_ ≠s _)%go; auto with files. Qed.

(** An acquisition that meets a conflict comes to nothing. *)
Lemma acquire_conflict r runID command recovery env :
  conflicts recovery env r = true -> blocked (Holds r) (acquire ttl runID command recovery env).
Proof.
  intros Hc. unfold acquire.
  destruct (negb _), (command =s "")%go, (sr_owner env); try apply blocked_refuse.
  apply blocked_bind; [auto with files|]. intros _ _ _ _. apply blocked_guard, blocked_by_read.
  - intros current [= <-]. rewrite Hc. apply blocked_bind_l, blocked_refuse.
  - done.
  - intros e He. apply blocked_bind_l. destruct e as [[]| | | | | | |]; try apply blocked_refuse. done.
Qed.

(** A handle whose owner is not the owner in the file can do nothing. *)
Lemma renew_foreign r record now :
  lr_OwnerID r <> lr_OwnerID record -> blocked (Holds r) (renew ttl record now).
Proof.
  intros Hne. apply blocked_guard, blocked_bind_l, blocked_bind; [apply leaves_readLease|].
  intros current fs fs' [= ->]%readLease_returned. apply String.eqb_neq in Hne. rewrite Hne. apply blocked_refuse.
Qed.

Lemma release_foreign r record : lr_OwnerID r <> lr_OwnerID record -> blocked (Holds r) (Release record).
Proof.
  intros Hne%String.eqb_neq. apply blocked_guard, blocked_by_read.
  - intros current [= <-]. rewrite Hne. apply blocked_refuse.
  - done.
  - intros e He. destruct e as [[]| | | | | | |]; try apply blocked_refuse. done.
Qed.

(** The holder's renewal happens, or nothing happens. *)
Lemma renew_own r record now fs :
  complete r = true -> lr_OwnerID r = lr_OwnerID record ->
  files_after (renew ttl record now (Holds r) fs) = Holds (if works fs then renewed ttl record now else r).
Proof.
  intros Hr Ho. apply negb_true_iff in Hr.
  assert ((lr_OwnerID r =s lr_OwnerID record)%go = true) as Ho' by by apply String.eqb_eq.
  unfold renew, withLeaseGuard, withFileLock, still_owned, readLease, readJSON, writeJSON, injectFault, touch, call, mbind, io_bind.
  destruct fs as [|[] [|[] [|[] [|[] fs]]]]; cbn; rewrite ?Hr; cbn; rewrite ?Ho'; reflexivity.
Qed.

(** ** Schedules *)

Lemma held_step_ok r e fs r' :
  complete r = true -> held_step r e fs = Some r' ->
  files_after (perform e (Holds r) fs) = Holds r' /\ complete r' = true /\ lr_OwnerID r' = lr_OwnerID r /\
  (acquires e = true -> reply_of (perform e (Holds r) fs) = None).
Proof.
  assert (forall m : io (file LeaseRecord) LeaseError (option LeaseRecord), blocked (Holds r) m -> complete r = true ->
    files_after (m (Holds r) fs) = Holds r /\ complete r = true /\ lr_OwnerID r = lr_OwnerID r /\
    (acquires e = true -> reply_of (m (Holds r) fs) = None)) as Hnone by (intros m Hm ?; by destruct (Hm fs)).
  intros Hr Hheld. destruct e as [runID command recovery env|record now|record]; cbn [held_step] in Hheld.
  - destruct (decide (free_for recovery env r)) as [|Hc]; [done|]. injection Hheld as <-.
    rewrite <- conflicts_spec, not_false_iff_true in Hc.
    by apply Hnone; [apply blocked_bind_l, acquire_conflict|].
  - destruct (lr_OwnerID record ≠s lr_OwnerID r)%go eqn:Hown.
    + injection Hheld as <-. apply negb_true_iff, String.eqb_neq in Hown.
      by apply Hnone; [apply blocked_bind_l, renew_foreign|].
    + apply negb_false_iff, String.eqb_eq in Hown. cbn [perform acquires].
      rewrite files_bind_ret, renew_own by done. destruct (works fs); cbn in Hheld; [|by injection Hheld as <-].
      destruct (now + ttl =? 0) eqn:Hz; [done|]. injection Hheld as <-. repeat split; [|done|done].
      unfold complete, incomplete in *. cbn. rewrite Hz, Hown. by destruct (lr_OwnerID r =s "")%go.
  - destruct (lr_OwnerID record ≠s lr_OwnerID r)%go eqn:Hown; [|done]. injection Hheld as <-.
    apply negb_true_iff, String.eqb_neq in Hown. by apply Hnone; [apply blocked_bind_l, release_foreign|].
Qed.

Lemma held_ok r schedule r' :
  complete r = true -> held r schedule = Some r' ->
  file_after (Holds r) schedule = Holds r' /\ complete r' = true /\ lr_OwnerID r' = lr_OwnerID r /\
  Forall (fun '(e, o) => acquires e = true -> reply_of o = None) (history (Holds r) schedule).
Proof.
  revert r. induction schedule as [|[e fs] schedule IH]; intros r Hr Hheld; [injection Hheld as <-; by repeat split|].
  cbn [held] in Hheld. apply bind_Some in Hheld as (r1 & H1 & Hheld).
  destruct (held_step_ok r e fs r1 Hr H1) as (Hf & Hc1 & Ho1 & Hreply).
  destruct (IH r1 Hc1 Hheld) as (Hd & Hc & Ho & Hall).
  unfold file_after in *. cbn [fold_left history]. rewrite Hf. repeat split; try congruence. by constructor.
Qed.
(** ** Takeovers *)

Lemma create_returned record d fs u d' fs' :
  (createLeaseExclusive id whole record : io (file LeaseRecord) LeaseError unit) d fs = Returned u d' fs' ->
  d = Absent /\ d' = Holds record.
Proof.
  unfold createLeaseExclusive. intros H. io_inv. apply call_inv in H0. destruct d; try done. injection H0 as <- <-.
  destruct x2 as [[]|e]; io_inv. apply call_inv in H0. by injection H0 as <- <-.
Qed.

(** What a successful acquisition found and what it left *)
Lemma acquire_returned runID command recovery env d fs r d' fs' :
  acquire ttl runID command recovery env d fs = Returned r d' fs' ->
  exists owner, sr_owner env = Some owner /\ r = new_record ttl command owner env /\ d' = Holds r /\
    (d = Absent \/ exists current, d = Holds current /\ conflicts recovery env current = false).
Proof.
  unfold acquire. destruct (negb _), (command =s "")%go, (sr_owner env) as [owner|]; intros H; io_inv.
  exists owner. match goal with H : createLeaseExclusive _ _ _ _ _ = _ |- _ => apply create_returned in H as [_ ->] end.
  split_and!; [done..|]. match goal with r : result _ _ |- _ => destruct r as [current|e] end; io_inv.
  - right. exists current. destruct (conflicts recovery env current); io_inv. by eapply conj; [eapply readLease_returned|].
  - left. destruct e as [[]| | | | | | |]; io_inv. by eapply readLease_absent.
Qed.

Lemma bound_holds holds r fs b d' fs' :
  bound holds (Holds r) fs = Returned b d' fs' -> b = holds r.
Proof.
  unfold bound. intros H. io_inv. destruct x as [current|e]; io_inv.
  - by apply readLease_returned in H0 as [= ->].
  - destruct e as [[]| | | | | | |]; io_inv. by apply readLease_absent in H0.
Qed.

(** A file that does not decode stops every operation. *)
Lemma damaged_blocks e : blocked Damaged (perform e).
Proof.
  destruct e as [runID command recovery env|record now|record]; apply blocked_bind_l.
  - unfold acquire. destruct (negb _), (command =s "")%go, (sr_owner env); try apply blocked_refuse.
    apply blocked_bind; [auto with files|]. intros _ _ _ _. apply blocked_guard, blocked_by_read; [done..|].
    intros e He. apply blocked_bind_l. destruct e as [[]| | | | | | |]; try apply blocked_refuse. done.
  - apply blocked_guard, blocked_bind_l, blocked_bind; [apply leaves_readLease|]. by intros ????%readLease_returned.
  - apply blocked_guard, blocked_by_read; [done..|].
    intros e He. destruct e as [[]| | | | | | |]; try apply blocked_refuse. done.
Qed.

(** [m] fails when the others make [d'] of the file while it runs. *)
Definition overtaken {A} (d d' : file LeaseRecord) (m : io (file LeaseRecord) LeaseError A) : Prop :=
  forall fs, reply_of (m d fs) = None /\ (files_after (m d fs) = d \/ files_after (m d fs) = d').

Lemma overtaken_bind {A B} d d' (m : io _ _ A) (k : A -> io _ _ B) :
  leaves d m -> (forall a, overtaken d d' (k a)) -> overtaken d d' (m ≫= k).
Proof.
  intros Hm Hk fs. unfold mbind, io_bind. specialize (Hm fs).
  destruct (m d fs) as [a d1 fs1| |]; cbn in *; subst; [apply Hk|by auto|by auto].
Qed.

Lemma overtaken_others {A} d d' (k : io _ _ A) : blocked d' k -> overtaken d d' (_ ← others (fun _ => d'); k).
Proof. intros Hk fs. destruct (Hk fs). by auto. Qed.

Lemma heartbeat_overtaken r now d d' :
  (forall record, d' = Holds record -> lr_OwnerID record <> lr_OwnerID r) ->
  overtaken d d' (Heartbeat ttl r now (fun _ => d')).
Proof.
  intros Hne. apply overtaken_bind; [apply leaves_touch|]. intros _.
  apply overtaken_bind; [apply leaves_still_owned|]. intros _. apply overtaken_others.
  apply blocked_guard, blocked_bind_l, blocked_bind; [apply leaves_readLease|].
  intros current fs3 fs3' ->%readLease_returned. specialize (Hne current eq_refl). apply String.eqb_neq in Hne.
  rewrite Hne. apply blocked_refuse.
Qed.
End schedules.

(** ** Properties *)

(** C7: A lease that is renewed in time belongs to its holder.  Whatever
    processes try to acquire, renew or release the lease meanwhile, whichever of
    their system calls fail and wherever they die: the file holds the holder's
    last renewal, no acquisition succeeds, and Owns tells the holder the truth. *)
Theorem lease_exclusive ttl r schedule r' :
  complete r = true -> held ttl r schedule = Some r' ->
  file_after ttl (Holds r) schedule = Holds r' /\ lr_OwnerID r' = lr_OwnerID r /\
  (forall e o, (e, o) ∈ history ttl (Holds r) schedule -> acquires e = true -> reply_of o = None) /\
  (forall now fs b d fs', Owns r now (Holds r') fs = Returned b d fs' -> b = (now <? lr_ExpiresAt r')).
Proof.
  intros Hr Hheld. destruct (held_ok ttl r schedule r' Hr Hheld) as (Hd & _ & Ho & Hall). split_and!; [done..| |].
  - intros e o He. rewrite Forall_forall in Hall. by apply (Hall (e, o)).
  - intros now fs b d fs' ->%bound_holds. by rewrite Ho, String.eqb_refl.
Qed.

(** A lease is taken over only when it has expired or, in a recovery, when
    its process is known to be dead; then the file names the new owner, and the
    former holder can neither renew nor release it and learns that it is not the
    owner, also when the takeover happens in the middle of its heartbeat. *)
Theorem lease_taken_over ttl runID command recovery env old fs r d fs' :
  acquire ttl runID command recovery env (Holds old) fs = Returned r d fs' ->
  lr_OwnerID r <> lr_OwnerID old ->
  free_for recovery env old /\ d = Holds r /\
  (forall now, blocked d (Heartbeat ttl old now (fun _ => d))) /\ blocked d (Release old) /\
  (forall now fs b d' fs', Owns old now d fs = Returned b d' fs' -> b = false) /\
  (forall now fs, let o := Heartbeat ttl old now (fun _ => d) (Holds old) fs in
     reply_of o = None /\ (files_after o = Holds old \/ files_after o = d)).
Proof.
  intros Ha Hne. apply acquire_returned in Ha as (owner & _ & _ & -> & [Habs|(current & [= <-] & Hc)]); [done|].
  apply conflicts_spec in Hc. split_and!; [done..| | | |].
  - intros now fs1. destruct (heartbeat_overtaken ttl old now (Holds r) (Holds r)) with (fs := fs1) as [Hr Hf]; [naive_solver|].
    by split; [destruct Hf|].
  - by apply release_foreign.
  - intros now fs1 b d' fs1' ->%bound_holds. apply String.eqb_neq in Hne. by rewrite Hne.
  - intros now fs1. apply heartbeat_overtaken. naive_solver.
Qed.

(** CreateLeaseExclusive creates the file before it writes it.  A process
    that dies in between leaves a file that does not decode, and from then on
    every acquisition, recovery, renewal and release of the run's lease fails
    and leaves the file as it is. *)
Theorem torn_lease_stuck ttl runID command recovery env schedule :
  safe_id runID = true -> command <> "" -> is_Some (sr_owner env) ->
  acquire ttl runID command recovery env Absent [Works; Works; Works; Works; Works; Dies] = Died Damaged /\
  file_after ttl Damaged schedule = Damaged /\
  (forall e o, (e, o) ∈ history ttl Damaged schedule -> reply_of o = None).
Proof.
  intros Hid Hcmd%String.eqb_neq [owner Howner]. split_and!.
  - unfold acquire. by rewrite Hid, Hcmd, Howner.
  - induction schedule as [|[e fs] schedule IH]; [done|]. unfold file_after in *. cbn.
    destruct (damaged_blocks ttl e fs) as [Hf _]. by rewrite Hf.
  - induction schedule as [|[e fs] schedule IH]; [by intros ?? ?%elem_of_nil|].
    destruct (damaged_blocks ttl e fs) as [Hf Hr]. intros e' o'. cbn [history]. rewrite Hf.
    intros [[= -> ->]|?]%elem_of_cons; [done|by eapply IH].
Qed.

(** ** Witnesses *)

Definition minute := 60000000000.
Definition demo_lease := {|
  lr_OwnerID := "aa"; lr_PID := 1; lr_Command := "start"; lr_CreatedAt := minute; lr_Heartbeat := minute;
  lr_ExpiresAt := minute + 15 |}.
Definition demo_env (now : Z) : Surroundings :=
  {| sr_now := now; sr_pid := 2; sr_owner := Some "bb"; sr_alive := fun pid => Some (pid =? 1) |}.

Lemma lease_exclusive_witness :
  file_after 15 (Holds demo_lease)
    [(EvAcquire "run-1" "resume" false (demo_env (minute + 14)), []);
     (EvRenew demo_lease (minute + 14), []);
     (EvAcquire "run-1" "serve-recover" true (demo_env (minute + 20)), [Works; Works; Dies])]
  = Holds (renewed 15 demo_lease (minute + 14)).
Proof.
  refine (proj1 (lease_exclusive 15 demo_lease _ _ _ _)); by vm_compute.
Defined.

Lemma lease_taken_over_witness :
  reply_of (Release demo_lease (Holds (new_record 15 "resume" "bb" (demo_env (minute + 15)))) []) = None.
Proof.
  refine (proj2 (proj1 (proj2 (proj2 (proj2
    (lease_taken_over 15 "run-1" "resume" false (demo_env (minute + 15)) demo_lease [] _ _ [] _ _)))) []));
    [by vm_compute|done].
Defined.

Lemma torn_lease_stuck_witness :
  acquire 15 "run-1" "start" false (demo_env minute) Absent [Works; Works; Works; Works; Works; Dies] = Died Damaged /\
  file_after 15 Damaged [(EvAcquire "run-1" "serve-recover" true (demo_env (minute + 1000)), [])] = Damaged.
Proof.
  destruct (torn_lease_stuck 15 "run-1" "start" false (demo_env minute)
              [(EvAcquire "run-1" "serve-recover" true (demo_env (minute + 1000)), [])]) as (H1 & H2 & _);
    [by vm_compute|done|by eexists|by split].
Defined.
