(* ===== verification/CancelRequest.v ===== *)
(** * Cancellation requests between processes

    internal/store/cancel_request.go: a process that does not control a run asks
    its controller to cancel it through the file cancel.request.json, and the
    controller answers in cancel.response.json.  The files of one run; the id
    of a new request (random bytes) is an input.

    The handshake is specified as a state machine, [handshake_step]: every
    operation, with any of its calls failing and the process dying anywhere, is
    a sequence of its steps. *)

From S2P Require Import Prelude GoText Routing Resolver Catalog Workflow Files.
#[local] Open Scope string_scope.
#[local] Open Scope list_scope.
#[local] Open Scope Z_scope.

Definition CancelResponseCompleted := "completed".
Definition CancelResponseFailed := "failed".

Record CancelRequest := {
  cr_ID : string; cr_RequestedAt : Z; cr_ExpectedStateVersion : option Z;
  cr_ActionID : string; cr_ActionRequestHash : string }.
Record CancelResponse := { cp_RequestID : string; cp_Status : string; cp_Message : string; cp_UpdatedAt : Z }.

Inductive CancelError :=
| CancelFile (e : FileError) | CancelRunID | CancelRequestIncomplete | CancelActionIncomplete | CancelPendingAction
| CancelNewID | CancelResponseInvalid | CancelRequestChanged (current : string) | CancelOtherResponse (current : string).
#[export] Instance CancelError_files : FileErrors CancelError := CancelFile.

Record cancel_files := { cf_request : file CancelRequest; cf_response : file CancelResponse }.
Definition put_request (f : file CancelRequest) (d : cancel_files) : cancel_files :=
  {| cf_request := f; cf_response := cf_response d |}.
Definition put_response (f : file CancelResponse) (d : cancel_files) : cancel_files :=
  {| cf_request := cf_request d; cf_response := f |}.

Notation cancel_io := (io cancel_files CancelError).

Definition validateCancelRequest (request : CancelRequest) : result CancelError unit :=
  fail_if (cr_ID request =s "") || (cr_RequestedAt request =? 0) with CancelRequestIncomplete ;;
  fail_if negb (Bool.eqb (cr_ActionID request =s "") (cr_ActionRequestHash request =s "")) with CancelActionIncomplete ;;
  Ok tt.

Definition RequestCancellationWithPrecondition (runID : string) (requestedAt : Z) (expectedStateVersion : option Z)
    (actionID actionRequestHash : string) (newID : option string) : cancel_io CancelRequest :=
  if negb (safe_id runID) then refuse CancelRunID else
  withLeaseGuard (
    pending ← attempt (readJSON cf_request);
    match pending with
    | Ok request =>
        _ ← checked id (validateCancelRequest request);
        if bool_decide (is_Some expectedStateVersion) &&
           ((cr_ActionID request ≠s actionID) || (cr_ActionRequestHash request ≠s actionRequestHash))
        then refuse CancelPendingAction else mret request
    | Err (CancelFile FileNotExist) =>
        match newID with
        | None => refuse CancelNewID
        | Some id =>
            let request := {|
              cr_ID := id; cr_RequestedAt := requestedAt; cr_ExpectedStateVersion := expectedStateVersion;
              cr_ActionID := actionID; cr_ActionRequestHash := actionRequestHash |} in
            _ ← remove put_response;
            _ ← writeJSON put_request request;
            mret request
        end
    | Err e => refuse e
    end).
Definition RequestCancellation (runID : string) (requestedAt : Z) (newID : option string) : cancel_io CancelRequest :=
  RequestCancellationWithPrecondition runID requestedAt None "" "" newID.

Definition ReadCancellationRequest (runID : string) : cancel_io CancelRequest :=
  if negb (safe_id runID) then refuse CancelRunID else
  request ← readJSON cf_request;
  _ ← checked id (validateCancelRequest request);
  mret request.

Definition ResolveCancellation (runID : string) (response : CancelResponse) : cancel_io unit :=
  if negb (safe_id runID) then refuse CancelRunID else
  if (cp_RequestID response =s "") ||
     ((cp_Status response ≠s CancelResponseCompleted) && (cp_Status response ≠s CancelResponseFailed)) ||
     (cp_UpdatedAt response =? 0)
  then refuse CancelResponseInvalid else
  withLeaseGuard (
    _ ← writeJSON put_response response;
    pending ← attempt (readJSON cf_request);
    _ ← match pending with
        | Ok request =>
            if cr_ID request ≠s cp_RequestID response then refuse (CancelRequestChanged (cr_ID request)) else mret tt
        | Err (CancelFile FileNotExist) => mret tt
        | Err e => refuse e
        end;
    remove put_request).

Definition ReadCancellationResponse (runID requestID : string) : cancel_io CancelResponse :=
  if negb (safe_id runID) then refuse CancelRunID else
  response ← withLeaseGuard (readJSON cf_response);
  if cp_RequestID response ≠s requestID then refuse (CancelOtherResponse (cp_RequestID response)) else mret response.

(** ** The handshake *)

Inductive handshake := Quiet | Asked (request : CancelRequest) | Answered (response : CancelResponse).

Definition asked (h : handshake) : bool := match h with Asked _ => true | _ => false end.

(** A request is only made when none is pending, and only a response that is
    [given] and names the pending request ends it. *)
Inductive handshake_step (given : option CancelResponse) : handshake -> handshake -> Prop :=
| hs_ask h request : asked h = false -> handshake_step given h (Asked request)
| hs_forget response : handshake_step given (Answered response) Quiet
| hs_answer request response :
    given = Some response -> cp_RequestID response = cr_ID request ->
    handshake_step given (Asked request) (Answered response)
| hs_answer_again h response : given = Some response -> asked h = false -> handshake_step given h (Answered response).

(** What the files stand for: a response next to a pending request is one
    whose resolution has not been completed. *)
Definition handshake_of (d : cancel_files) : handshake :=
  match cf_request d, cf_response d with
  | Holds request, _ => Asked request
  | _, Holds response => Answered response
  | _, _ => Quiet
  end.
(** The two files are only ever replaced as a whole. *)
Definition intact (d : cancel_files) : Prop := cf_request d <> Damaged /\ cf_response d <> Damaged.

(** One operation of some process *)
Inductive cancel_op :=
| OpRequest (runID : string) (at_ : Z) (version : option Z) (actionID hash : string) (newID : option string)
| OpReadRequest (runID : string)
| OpResolve (runID : string) (response : CancelResponse)
| OpReadResponse (runID requestID : string).
Definition cancel_perform (op : cancel_op) : cancel_io unit :=
  match op with
  | OpRequest runID at_ version actionID hash newID =>
      _ ← RequestCancellationWithPrecondition runID at_ version actionID hash newID; mret tt
  | OpReadRequest runID => _ ← ReadCancellationRequest runID; mret tt
  | OpResolve runID response => ResolveCancellation runID response
  | OpReadResponse runID requestID => _ ← ReadCancellationResponse runID requestID; mret tt
  end.
Definition given_by (op : cancel_op) : option CancelResponse :=
  match op with OpResolve _ response => Some response | _ => None end.
Definition cancel_run (d : cancel_files) (schedule : list (cancel_op * list fate)) : cancel_files :=
  fold_left (fun d '(op, fates) => files_after (cancel_perform op d fates)) schedule d.

(** ** The operations are steps of the handshake *)

Definition evolves (given : option CancelResponse) (d d' : cancel_files) : Prop :=
  intact d -> intact d' /\ rtc (handshake_step given) (handshake_of d) (handshake_of d').
#[export] Instance evolves_preorder given : PreOrder (evolves given).
Proof.
  split; [by intros d Hd|]. intros d1 d2 d3 H12 H23 H1. destruct (H12 H1) as [H2 ?]. destruct (H23 H2). split; [done|by etrans].
Qed.

Lemma evolves_one given d d' :
  (intact d -> intact d') -> handshake_of d = handshake_of d' \/ handshake_step given (handshake_of d) (handshake_of d') ->
  evolves given d d'.
Proof. intros Hi [Heq|Hs] Hd; (split; [by apply Hi|]); [by rewrite Heq|by apply rtc_once]. Qed.

Lemma evolves_leaves {A} given d (m : cancel_io A) : leaves d m -> moves (evolves given) d m.
Proof. apply moves_leaves, _. Qed.

Lemma intact_response d f : f <> Damaged -> intact d -> intact (put_response f d).
Proof. by intros Hf [Hq Hp]. Qed.
Lemma intact_request d f : f <> Damaged -> intact d -> intact (put_request f d).
Proof. by intros Hf [Hq Hp]. Qed.

Lemma request_moves given runID at_ version actionID hash newID d :
  moves (evolves given) d (RequestCancellationWithPrecondition runID at_ version actionID hash newID).
Proof.
  unfold RequestCancellationWithPrecondition. destruct (negb _); [apply evolves_leaves; auto with files|].
  apply moves_guard; [apply _|]. apply moves_read; [apply _|..].
  - intros request _. apply evolves_leaves, leaves_bind; [auto with files|]. intros _ _ _ _.
    destruct (_ && _); auto with files.
  - intros Habs. destruct newID as [id|]; [|by apply evolves_leaves; intros fs].
    apply moves_bind; [apply _| |].
    + apply moves_call; [apply _|]. apply evolves_one; [by apply intact_response|]. unfold handshake_of. cbn. rewrite Habs.
      destruct (cf_response d); [by left|right; constructor|by left].
    + intros u fs d' fs' ->%remove_inv. apply moves_bind; [apply _| |intros; by apply evolves_leaves, leaves_ret].
      apply moves_write; [apply _|]. apply evolves_one; [by apply intact_request|].
      right. unfold handshake_of. cbn. rewrite Habs. by constructor.
  - intros f Hf. apply evolves_leaves. by destruct f; try done; intros fs.
Qed.

Lemma resolve_moves runID response d :
  moves (evolves (Some response)) d (ResolveCancellation runID response).
Proof.
  unfold ResolveCancellation. destruct (negb _); [apply evolves_leaves; auto with files|].
  destruct (_ || _); [apply evolves_leaves; auto with files|].
  apply moves_guard; [apply _|]. apply moves_bind; [apply _| |].
  - apply moves_write; [apply _|]. apply evolves_one; [by apply intact_response|]. unfold handshake_of. cbn.
    destruct (cf_request d) eqn:Hq, (cf_response d); (by left) || (right; by constructor).
  - intros u fs d' fs' ->%write_inv. apply moves_read; [apply _|..]; cbn.
    + intros request Hq. destruct (cr_ID request =s cp_RequestID response)%go eqn:Hid; cbn; [|by apply evolves_leaves; intros fs1].
      apply moves_call; [apply _|]. apply evolves_one; [by apply intact_request|]. unfold handshake_of. cbn. rewrite Hq.
      right. constructor; [done|]. by apply String.eqb_eq in Hid.
    + intros Habs. apply moves_call; [apply _|]. apply evolves_one; [by apply intact_request|].
      unfold handshake_of. cbn. rewrite Habs. by left.
    + intros f Hf. apply evolves_leaves. by destruct f; try done; intros fs1.
Qed.

Lemma perform_moves op d : moves (evolves (given_by op)) d (cancel_perform op).
Proof.
  destruct op as [runID at_ version actionID hash newID|runID|runID response|runID requestID]; cbn [cancel_perform given_by].
  - intros fs. rewrite files_bind_ret. apply request_moves.
  - apply evolves_leaves, leaves_bind; [|auto with files]. unfold ReadCancellationRequest. destruct (negb _); [auto with files|].
    apply leaves_bind; [auto with files|]. intros request _ _ _. apply leaves_bind; auto with files.
  - apply resolve_moves.
  - apply evolves_leaves, leaves_bind; [|auto with files]. unfold ReadCancellationResponse. destruct (negb _); [auto with files|].
    apply leaves_bind; [auto with files|]. intros response _ _ _. case_match; auto with files.
Qed.

(** Until it is answered, a request stays as it is. *)
Lemma handshake_kept given request h :
  rtc (handshake_step given) (Asked request) h ->
  (forall response, given = Some response -> cp_RequestID response <> cr_ID request) -> h = Asked request.
Proof.
  intros Hsteps Hother. remember (Asked request) as h0 eqn:H0. induction Hsteps as [|h1 h2 h3 Hstep _ IH]; [done|].
  subst. assert (h2 = Asked request) as -> by (inversion Hstep; subst; try done; by exfalso; eapply Hother). by apply IH.
Qed.

Lemma request_returned runID at_ version actionID hash newID d fs request d' fs' :
  RequestCancellationWithPrecondition runID at_ version actionID hash newID d fs = Returned request d' fs' ->
  handshake_of d' = Asked request /\
  (handshake_of d = Asked request \/ (asked (handshake_of d) = false /\ newID = Some (cr_ID request))).
Proof.
  unfold RequestCancellationWithPrecondition. destruct (negb _); intros H; io_inv.
  match goal with H : attempt _ _ _ = _ |- _ => apply read_cases in H as [-> Hc] end.
  match goal with r : result _ CancelRequest |- _ => destruct r as [pending|e] end.
  - unfold checked in H. destruct (validateCancelRequest pending); io_inv. destruct (_ && _); io_inv.
    unfold mret, io_ret in *. simplify_eq. unfold handshake_of. rewrite Hc. by auto.
  - destruct Hc as [[-> Habs]|(f & Hf & ->)]; [|by destruct f]. cbn in H. destruct newID as [id|]; io_inv.
    split; [done|]. right. unfold handshake_of. rewrite Habs. by destruct (cf_response d).
Qed.

Lemma resolve_returned runID response d fs d' fs' :
  ResolveCancellation runID response d fs = Returned tt d' fs' ->
  handshake_of d' = Answered response /\ (forall request, handshake_of d = Asked request -> cr_ID request = cp_RequestID response).
Proof.
  unfold ResolveCancellation. destruct (negb _); [done|]. destruct (_ || _); intros H; io_inv.
  match goal with H : attempt _ _ _ = _ |- _ => apply read_cases in H as [-> Hc] end. cbn in Hc.
  match goal with r : result _ CancelRequest |- _ => destruct r as [pending|e] end; cbn in Hc.
  - destruct (cr_ID pending =s cp_RequestID response)%go eqn:Hid; cbn in *; io_inv. apply String.eqb_eq in Hid.
    split; [done|]. unfold handshake_of. rewrite Hc. naive_solver.
  - destruct Hc as [[-> Habs]|(f & Hf & ->)]; [|by destruct f]. cbn in *. io_inv.
    split; [done|]. unfold handshake_of. rewrite Habs. by destruct (cf_response d).
Qed.

Lemma read_holds {V} (get : cancel_files -> file V) d fs v d' fs' :
  (readJSON get : cancel_io V) d fs = Returned v d' fs' -> d' = d /\ get d = Holds v.
Proof. unfold readJSON, call. destruct fs as [|[] fs]; destruct (get d); naive_solver. Qed.

Lemma pending_returned runID d fs request d' fs' :
  ReadCancellationRequest runID d fs = Returned request d' fs' ->
  d' = d /\ handshake_of d = Asked request /\ validateCancelRequest request = Ok tt.
Proof.
  unfold ReadCancellationRequest. destruct (negb _); intros H; io_inv.
  match goal with Hr : readJSON _ _ _ = _ |- _ => apply read_holds in Hr as [-> Hq] end.
  unfold handshake_of. rewrite Hq. by match goal with u : () |- _ => destruct u end.
Qed.

Lemma answer_returned runID requestID d fs response d' fs' :
  ReadCancellationResponse runID requestID d fs = Returned response d' fs' ->
  d' = d /\ cf_response d = Holds response /\ cp_RequestID response = requestID /\
  (handshake_of d = Answered response \/ asked (handshake_of d) = true).
Proof.
  unfold ReadCancellationResponse. destruct (negb _); intros H; io_inv.
  match goal with _ : context [(cp_RequestID ?r =s _)%go] |- _ => destruct (cp_RequestID r =s requestID)%go eqn:Hid end; cbn in *; io_inv.
  match goal with Hr : readJSON _ _ _ = _ |- _ => apply read_holds in Hr as [-> Hp] end.
  apply String.eqb_eq in Hid. unfold handshake_of. rewrite Hp. destruct (cf_request d); auto.
Qed.

(** ** Properties *)

(** C11: The files of a cancellation implement the handshake: whatever system
    calls fail and wherever the process dies, an operation takes the handshake
    only through its steps, and what an operation returns is its state.  A
    request that is made or read is the pending one; a resolution that returns
    has answered it; a response that is read is the one on disk, names the
    request that was asked for, and is the answer the handshake has reached
    unless a request is still pending next to it (one made since, or one whose
    resolution has not been completed).  Reading changes nothing. *)
Theorem cancel_refines op fs d :
  intact d ->
  (intact (files_after (cancel_perform op d fs)) /\
   rtc (handshake_step (given_by op)) (handshake_of d) (handshake_of (files_after (cancel_perform op d fs)))) /\
  (forall runID at_ version actionID hash newID request d' fs',
     RequestCancellationWithPrecondition runID at_ version actionID hash newID d fs = Returned request d' fs' ->
     handshake_of d' = Asked request /\
     (handshake_of d = Asked request \/ (asked (handshake_of d) = false /\ newID = Some (cr_ID request)))) /\
  (forall runID response d' fs', ResolveCancellation runID response d fs = Returned tt d' fs' ->
     handshake_of d' = Answered response /\
     (forall request, handshake_of d = Asked request -> cr_ID request = cp_RequestID response)) /\
  (forall runID request d' fs', ReadCancellationRequest runID d fs = Returned request d' fs' ->
     d' = d /\ handshake_of d = Asked request /\ validateCancelRequest request = Ok tt) /\
  (forall runID requestID response d' fs', ReadCancellationResponse runID requestID d fs = Returned response d' fs' ->
     d' = d /\ cf_response d = Holds response /\ cp_RequestID response = requestID /\
     (handshake_of d = Answered response \/ asked (handshake_of d) = true)).
Proof.
  intros Hd. split; [by apply perform_moves|]. split_and!; intros.
  - by eapply request_returned.
  - by eapply resolve_returned.
  - by eapply pending_returned.
  - by eapply answer_returned.
Qed.

(** A cancellation that has been requested is never lost.  Any number of
    operations of any processes may follow, fail or be cut off: as long as none
    of them resolves this very request, it is pending, unchanged. *)
Theorem cancel_request_kept schedule d request :
  intact d -> handshake_of d = Asked request ->
  Forall (fun '(op, fates) => forall response, given_by op = Some response -> cp_RequestID response <> cr_ID request) schedule ->
  intact (cancel_run d schedule) /\ handshake_of (cancel_run d schedule) = Asked request.
Proof.
  revert d. induction schedule as [|[op fs] schedule IH]; intros d Hd Hask Hall; [done|].
  inversion Hall as [|? ? Hop Hall']; subst. destruct (perform_moves op d fs Hd) as [Hd' Hsteps].
  apply IH; [done| |done]. rewrite Hask in Hsteps. by eapply handshake_kept.
Qed.

(** ** Witnesses *)

Definition demo_request := {|
  cr_ID := "cancel-1"; cr_RequestedAt := 5; cr_ExpectedStateVersion := None; cr_ActionID := ""; cr_ActionRequestHash := "" |}.
Definition demo_response (id : string) := {|
  cp_RequestID := id; cp_Status := CancelResponseCompleted; cp_Message := ""; cp_UpdatedAt := 9 |}.
Definition no_request := {| cf_request := Absent; cf_response := Absent |}.

Lemma cancel_refines_witness :
  let o := ResolveCancellation "run-1" (demo_response "cancel-1") in
  rtc (handshake_step (Some (demo_response "cancel-1"))) (Asked demo_request)
    (handshake_of (files_after (o (put_request (Holds demo_request) no_request) [Works; Works; Works; Works; Fails]))) /\
  handshake_of (files_after (o (put_request (Holds demo_request) no_request) [])) = Answered (demo_response "cancel-1") /\
  handshake_of (put_response (Holds (demo_response "cancel-1")) no_request) = Answered (demo_response "cancel-1").
Proof.
  set (d := put_request (Holds demo_request) no_request). assert (intact d) as Hd by by split.
  pose proof (cancel_refines (OpResolve "run-1" (demo_response "cancel-1")) [Works; Works; Works; Works; Fails] d Hd) as [[_ Hsteps] _].
  pose proof (cancel_refines (OpResolve "run-1" (demo_response "cancel-1")) [] d Hd) as (_ & _ & Hres & _).
  set (d' := put_response (Holds (demo_response "cancel-1")) no_request). assert (intact d') as Hd' by by split.
  pose proof (cancel_refines (OpReadResponse "run-1" "cancel-1") [] d' Hd') as (_ & _ & _ & _ & Hread).
  split_and!; [exact Hsteps|by apply (Hres "run-1" (demo_response "cancel-1") d' [])|].
  by destruct (Hread "run-1" "cancel-1" (demo_response "cancel-1") d' [] eq_refl) as (_ & _ & _ & [?|?]).
Defined.

Lemma cancel_request_kept_witness :
  handshake_of (cancel_run (put_request (Holds demo_request) no_request)
    [(OpResolve "run-1" (demo_response "cancel-0"), []);
     (OpRequest "run-1" 6 None "" "" (Some "cancel-2"), []);
     (OpReadResponse "run-1" "cancel-1", [Works; Dies])]) = Asked demo_request.
Proof.
  refine (proj2 (cancel_request_kept _ _ demo_request _ _ _)); [by split|done|].
  repeat constructor; intros response Hr; vm_compute in Hr; by simplify_eq.
Defined.
