(* ===== verification/TeamContract.v ===== *)
(** * Teams: data and contract

    internal/teamcontract/contract.go: the aggregate of a team of agents that
    explore a topic together, and the validators that guard every file and
    request.  The string types (Mode, Lifecycle, ...) stay strings, because the
    validators decide which of them are accepted; an error is the text of the
    code's message without its arguments.  json.RawMessage is its text. *)

From S2P Require Import Prelude GoText Json.
#[local] Open Scope string_scope.
#[local] Open Scope list_scope.
#[local] Open Scope Z_scope.

Definition SchemaVersion := "fishyume.team/v1".
Definition MinParticipants := 2.
Definition MaxParticipants := 4.
Definition MaxProjectBytes := 4 * 1024.
Definition MaxTopicBytes := 16 * 1024.
Definition MaxInstructionsBytes := 16 * 1024.
Definition MaxParticipantLabelBytes := 64.
Definition MaxParticipantRoleBytes := 2 * 1024.
Definition MaxMessageBytes := 32 * 1024.
Definition MaxRetainedMessages := 256.
Definition MaxRetainedMessageBytes := 2 * 1024 * 1024.
Definition MaxParticipantTurns := 64.
Definition MaxMutationReceipts := 256.
Definition DefaultCostGrant := 1000.
Definition MaxCostGrant := 6400.
Definition MaxHandoffSelectedMessages := 32.
Definition MaxHandoffBytes := 128 * 1024.
Definition MaxEventPageSize := 100.
Definition MaxBoundedWaitSeconds := 30.
Definition MaxWarningBytes := 2 * 1024.
Definition MaxOpenQuestionBytes := 2 * 1024.
Definition MaxParticipantTemplates := 4.
Definition MaxExecutionHandleBytes := 64 * 1024.

(** Mode, Lifecycle, CloseReason, ParticipantState, TurnState, MessageKind,
    ContributionStatus, ContributionType, ActionType, EventType, ErrorCode *)
Definition ModePanel := "panel".
Definition ModeSession := "session".
Definition LifecycleCreated := "created".
Definition LifecycleRunning := "running".
Definition LifecycleOpen := "open".
Definition LifecycleClosing := "closing".
Definition LifecycleCancelling := "cancelling".
Definition LifecycleClosed := "closed".
Definition ClosePanelSettled := "panel_settled".
Definition CloseHostClosed := "host_closed".
Definition CloseCancelled := "cancelled".
Definition ParticipantPending := "pending".
Definition ParticipantRunning := "running".
Definition ParticipantResponded := "responded".
Definition ParticipantFailed := "failed".
Definition ParticipantIndeterminate := "indeterminate".
Definition ParticipantCancelled := "cancelled".
Definition TurnPrepared := "prepared".
Definition TurnDispatching := "dispatching".
Definition TurnActive := "active".
Definition TurnResponded := "responded".
Definition TurnFailed := "failed".
Definition TurnIndeterminate := "indeterminate".
Definition TurnCancelling := "cancelling".
Definition TurnCancelled := "cancelled".
Definition MessageHost := "host_message".
Definition MessageContribution := "participant_contribution".
Definition ContributionCompleted := "completed".
Definition ContributionPartial := "partial".
Definition ContributionUnable := "unable".
Definition ContributionReport := "report".
Definition ContributionDecision := "decision".
Definition ContributionArtifact := "artifact".
Definition ContributionData := "data".
Definition ContributionQuestion := "question".
Definition ActionFollowUp := "follow_up".
Definition ActionCancelTurn := "cancel_turn".
Definition ActionClose := "close".
Definition ActionCancel := "cancel".
Definition EventTeamCreated := "team.created".
Definition EventParticipantPrepared := "participant.prepared".
Definition EventParticipantActive := "participant.active".
Definition EventParticipantEvent := "participant.event".
Definition EventMessageCommitted := "message.committed".
Definition EventTeamClosed := "team.closed".
Definition EventTeamCancelled := "team.cancelled".
Definition EventHandoffCreated := "handoff.created".
Definition EventHandoffBound := "handoff.bound".

(** ** Data *)

Record ParticipantV1 := {
  pa_ParticipantID : string; pa_Label : string; pa_Role : string; pa_ModelID : string; pa_Driver : string;
  pa_Target : string; pa_State : string; pa_CurrentTurnID : string }.

Record TeamSessionV1 := {
  ts_SchemaVersion : string; ts_TeamID : string; ts_ClientRequestID : string; ts_RequestHash : string;
  ts_Project : string; ts_Mode : string; ts_Topic : string; ts_Instructions : string; ts_CatalogHash : string;
  ts_Participants : list ParticipantV1; ts_State : string; ts_StateVersion : Z; ts_CostGrant : Z; ts_CostUsed : Z;
  ts_CloseReason : string; ts_CreatedAt : Z; ts_UpdatedAt : Z }.

Record ParticipantSpecV1 := { ps_Label : string; ps_Role : string; ps_ModelID : string }.
Record TeamStartRequestV1 := {
  sr_SchemaVersion : string; sr_ClientRequestID : string; sr_Project : string; sr_Mode : string; sr_Topic : string;
  sr_Instructions : string; sr_Participants : list ParticipantSpecV1; sr_CostGrant : Z }.

Record UsageEstimateV1 := { ue_InputTokens : Z; ue_OutputTokens : Z; ue_TotalTokens : Z }.
Record TeamTurnUsageV1 := {
  tu_Target : string; tu_CatalogHash : string; tu_CostUnits : Z; tu_CumulativeCostUnits : Z;
  tu_TokenEstimate : option UsageEstimateV1 }.

Record ParticipantTurnV1 := {
  pt_SchemaVersion : string; pt_TeamID : string; pt_ParticipantID : string; pt_TurnID : string; pt_Number : Z;
  pt_State : string; pt_Driver : string; pt_Target : string; pt_ModelID : string; pt_Usage : TeamTurnUsageV1;
  pt_ExecutionHandle : string; pt_ContributionMessage : string; pt_Diagnostic : string; pt_CreatedAt : Z;
  pt_UpdatedAt : Z; pt_CompletedAt : option Z }.

Record TeamMessageV1 := {
  tm_SchemaVersion : string; tm_MessageID : string; tm_TeamID : string; tm_Sequence : Z; tm_Kind : string;
  tm_Actor : string; tm_Recipients : list string; tm_TurnID : string; tm_Content : string;
  tm_ReferencedMessageIDs : list string; tm_CreatedAt : Z; tm_ContentHash : string }.

Record TeamEventV1 := {
  te_SchemaVersion : string; te_TeamID : string; te_Sequence : Z; te_Type : string; te_StateVersion : Z;
  te_MessageID : string; te_TurnID : string; te_Summary : string; te_CreatedAt : Z }.

Record ContributionV1 := {
  co_SchemaVersion : string; co_Status : string; co_ResultType : string; co_Output : string;
  co_ContentMarkdown : string; co_Warnings : list string; co_OpenQuestions : list string;
  co_UsageEstimates : option UsageEstimateV1 }.

Record FollowUpActionV1 := { fu_Content : string; fu_ParticipantIDs : list string; fu_ReferencedMessageIDs : list string }.
Record CancelTurnActionV1 := { ct_TurnID : string }.
Record CloseActionV1 := { cl_Reason : string }.
Record TeamActionV1 := {
  ta_SchemaVersion : string; ta_ActionID : string; ta_TeamID : string; ta_ExpectedStateVersion : Z; ta_Type : string;
  ta_FollowUp : option FollowUpActionV1; ta_CancelTurn : option CancelTurnActionV1; ta_Close : option CloseActionV1 }.

Record HandoffArtifactV1 := {
  ha_SchemaVersion : string; ha_HandoffID : string; ha_TeamID : string; ha_SourceTeamVersion : Z; ha_Goal : string;
  ha_Decisions : list string; ha_Constraints : list string; ha_OpenQuestions : list string;
  ha_AcceptanceExpectations : list string; ha_SelectedMessageIDs : list string; ha_SourceMessageHashes : list string;
  ha_ContentHash : string; ha_CreatedAt : Z }.
#[export] Instance HandoffArtifactV1_eq_dec : EqDecision HandoffArtifactV1.
Proof. solve_decision. Defined.

Record HandoffBindingV1 := {
  hb_TeamID : string; hb_HandoffID : string; hb_RunID : string; hb_Project : string; hb_BoundAt : Z }.
#[export] Instance HandoffBindingV1_eq_dec : EqDecision HandoffBindingV1.
Proof. solve_decision. Defined.

(** ** Validators *)

Definition validateID (value name : string) : result string unit :=
  fail_if trim_space value =s "" with name +:+ " is required" ;;
  fail_if value ≠s trim_space value with name +:+ " contains surrounding whitespace" ;;
  Ok tt.
Definition validateBounded (value : string) (limit : Z) (name : string) : result string unit :=
  fail_if limit <? len value with name +:+ " exceeds bytes" ;; Ok tt.
(** A SHA-256 digest in hexadecimal, of either case *)
Definition validHash (value : string) : bool := (len value =? 64) && forallb is_hex (to_list value).
Definition validateHashOrEmpty (value name : string) : result string unit :=
  fail_if (value ≠s "") && negb (validHash value) with name +:+ " must be a SHA-256 hex digest" ;; Ok tt.
Definition validateMode (value : string) : result string unit :=
  fail_if (value ≠s ModePanel) && (value ≠s ModeSession) with "unsupported team mode" ;; Ok tt.
Definition validLifecycle (value : string) : bool :=
  contains_string [LifecycleCreated; LifecycleRunning; LifecycleOpen; LifecycleClosing; LifecycleCancelling; LifecycleClosed] value.
Definition validParticipantState (value : string) : bool :=
  contains_string [ParticipantPending; ParticipantRunning; ParticipantResponded; ParticipantFailed;
    ParticipantIndeterminate; ParticipantCancelled] value.
Definition validTurnState (value : string) : bool :=
  contains_string [TurnPrepared; TurnDispatching; TurnActive; TurnResponded; TurnFailed; TurnIndeterminate;
    TurnCancelling; TurnCancelled] value.
Definition validCloseReason (value : string) : bool :=
  (value =s ClosePanelSettled) || (value =s CloseHostClosed) || (value =s CloseCancelled).
Definition validateSchema (value : string) : result string unit :=
  fail_if value ≠s SchemaVersion with "unsupported team schema version" ;; Ok tt.

(** A loop that checks every element *)
Definition each_valid {A} (check : A -> result string unit) (xs : list A) : result string unit :=
  range_loop (fun _ x => check x) tt xs.
(** A loop over a map from names to values *)
Definition fields_valid `{GoRange} (site : string) (check : string -> string -> result string unit)
    (fields : list (string * string)) : result string unit :=
  each_valid (fun '(name, field) => check field name) (go_range site (list_to_map fields : gmap string string)).

(** The sum of the estimates is an int. *)
Definition ValidateUsageEstimate (value : UsageEstimateV1) : result string unit :=
  fail_if (ue_InputTokens value <? 0) || (ue_OutputTokens value <? 0) || (ue_TotalTokens value <? 0)
    with "usage estimates cannot be negative" ;;
  fail_if negb (ue_TotalTokens value =? 0) &&
          (ue_TotalTokens value <? wrap_int64 (ue_InputTokens value + ue_OutputTokens value))
    with "total token estimate is inconsistent" ;;
  Ok tt.

Definition ValidateUsage (value : TeamTurnUsageV1) : result string unit :=
  _ ← validateID (tu_Target value) "usage target";
  fail_if negb (validHash (tu_CatalogHash value)) with "usage catalogHash must be a SHA-256 hex digest" ;;
  fail_if (tu_CostUnits value <? 0) || (tu_CumulativeCostUnits value <? tu_CostUnits value)
    with "usage cost accounting is invalid" ;;
  match tu_TokenEstimate value with Some estimate => ValidateUsageEstimate estimate | None => Ok tt end.

Definition ValidateHandoffBinding (value : HandoffBindingV1) : result string unit :=
  _ ← validateID (hb_TeamID value) "teamId";
  _ ← validateID (hb_HandoffID value) "handoffId";
  _ ← validateID (hb_RunID value) "runId";
  fail_if (trim_space (hb_Project value) =s "") || (hb_Project value ≠s trim_space (hb_Project value))
    with "project is required without surrounding whitespace" ;;
  validateBounded (hb_Project value) MaxProjectBytes "project".

Section validators.
  Context {GR : GoRange}.

Definition ValidateParticipant (value : ParticipantV1) : result string unit :=
  _ ← validateID (pa_ParticipantID value) "participantId";
  _ ← validateBounded (pa_Label value) MaxParticipantLabelBytes "participant label";
  _ ← validateBounded (pa_Role value) MaxParticipantRoleBytes "participant role";
  _ ← fields_valid "ValidateParticipant" validateID
        [("modelId", pa_ModelID value); ("driver", pa_Driver value); ("target", pa_Target value)];
  fail_if negb (validParticipantState (pa_State value)) with "unsupported participant state" ;;
  if pa_CurrentTurnID value ≠s "" then validateID (pa_CurrentTurnID value) "currentTurnId" else Ok tt.

Definition ValidateTeamSession (value : TeamSessionV1) : result string unit :=
  _ ← validateSchema (ts_SchemaVersion value);
  _ ← validateID (ts_TeamID value) "teamId";
  _ ← validateID (ts_ClientRequestID value) "clientRequestId";
  fail_if negb (validHash (ts_RequestHash value)) with "requestHash must be a SHA-256 hex digest" ;;
  _ ← validateBounded (ts_Project value) MaxProjectBytes "project";
  _ ← validateMode (ts_Mode value);
  _ ← validateBounded (ts_Topic value) MaxTopicBytes "topic";
  _ ← validateBounded (ts_Instructions value) MaxInstructionsBytes "instructions";
  fail_if negb (validHash (ts_CatalogHash value)) with "catalogHash must be a SHA-256 hex digest" ;;
  fail_if (len_slice (ts_Participants value) <? MinParticipants) || (MaxParticipants <? len_slice (ts_Participants value))
    with "participants must contain entries" ;;
  fail_if ts_StateVersion value =? 0 with "stateVersion must be positive" ;;
  fail_if (ts_CostGrant value <? 1) || (MaxCostGrant <? ts_CostGrant value) || (ts_CostUsed value <? 0) ||
          (ts_CostGrant value <? ts_CostUsed value) with "team cost accounting is invalid" ;;
  fail_if negb (validLifecycle (ts_State value)) with "unsupported team lifecycle" ;;
  fail_if (ts_State value =s LifecycleClosed) && negb (validCloseReason (ts_CloseReason value))
    with "closed team requires a valid close reason" ;;
  fail_if (ts_State value ≠s LifecycleClosed) && (ts_CloseReason value ≠s "")
    with "open team cannot have a close reason" ;;
  _ ← range_loop (fun '(seenIDs, seenModels) participant =>
        _ ← ValidateParticipant participant;
        fail_if seen_in (pa_ParticipantID participant) seenIDs with "duplicate participantId" ;;
        fail_if seen_in (pa_ModelID participant) seenModels with "duplicate participant modelId" ;;
        Ok ({[pa_ParticipantID participant]} ∪ seenIDs, {[pa_ModelID participant]} ∪ seenModels))
      (∅, ∅) (ts_Participants value);
  Ok tt.

Definition ValidateStartRequest (value : TeamStartRequestV1) : result string unit :=
  _ ← validateSchema (sr_SchemaVersion value);
  _ ← validateID (sr_ClientRequestID value) "clientRequestId";
  _ ← validateBounded (sr_Project value) MaxProjectBytes "project";
  fail_if trim_space (sr_Project value) =s "" with "project is required" ;;
  _ ← validateMode (sr_Mode value);
  fail_if trim_space (sr_Topic value) =s "" with "topic is required" ;;
  _ ← validateBounded (sr_Topic value) MaxTopicBytes "topic";
  _ ← validateBounded (sr_Instructions value) MaxInstructionsBytes "instructions";
  let participants := sr_Participants value in
  fail_if negb (len_slice participants =? 0) &&
          ((len_slice participants <? MinParticipants) || (MaxParticipants <? len_slice participants))
    with "explicit participants must contain entries" ;;
  _ ← each_valid (fun participant =>
        _ ← validateBounded (ps_Label participant) MaxParticipantLabelBytes "participant label";
        _ ← validateBounded (ps_Role participant) MaxParticipantRoleBytes "participant role";
        fail_if (trim_space (ps_Label participant) =s "") || (trim_space (ps_Role participant) =s "") ||
                (trim_space (ps_ModelID participant) =s "") with "participant label, role, and modelId are required" ;;
        fail_if (ps_Label participant ≠s trim_space (ps_Label participant)) ||
                (ps_Role participant ≠s trim_space (ps_Role participant)) ||
                (ps_ModelID participant ≠s trim_space (ps_ModelID participant))
          with "participant fields cannot contain surrounding whitespace" ;;
        Ok tt) participants;
  fail_if (sr_CostGrant value <? 0) || (MaxCostGrant <? sr_CostGrant value) with "costGrant is out of bounds" ;;
  Ok tt.

Definition ValidateParticipantTurn (value : ParticipantTurnV1) : result string unit :=
  _ ← validateSchema (pt_SchemaVersion value);
  _ ← fields_valid "ValidateParticipantTurn" validateID
        [("teamId", pt_TeamID value); ("participantId", pt_ParticipantID value); ("turnId", pt_TurnID value);
         ("driver", pt_Driver value); ("target", pt_Target value); ("modelId", pt_ModelID value)];
  fail_if (pt_Number value <? 1) || (MaxParticipantTurns <? pt_Number value) with "turn number is out of bounds" ;;
  fail_if negb (validTurnState (pt_State value)) with "unsupported turn state" ;;
  _ ← ValidateUsage (pt_Usage value);
  let handle := pt_ExecutionHandle value in
  fail_if (0 <? len handle) && negb (json_valid handle) with "executionHandle must be valid JSON" ;;
  fail_if MaxExecutionHandleBytes <? len handle with "executionHandle exceeds bytes" ;;
  _ ← (if pt_ContributionMessage value ≠s "" then validateID (pt_ContributionMessage value) "contributionMessageId"
       else Ok tt);
  fail_if MaxWarningBytes <? len (pt_Diagnostic value) with "turn diagnostic exceeds bytes" ;;
  Ok tt.

Definition ValidateMessage (value : TeamMessageV1) : result string unit :=
  _ ← validateSchema (tm_SchemaVersion value);
  _ ← fields_valid "ValidateMessage" validateID
        [("messageId", tm_MessageID value); ("teamId", tm_TeamID value); ("actor", tm_Actor value)];
  fail_if tm_Sequence value =? 0 with "message sequence must be positive" ;;
  fail_if (tm_Kind value ≠s MessageHost) && (tm_Kind value ≠s MessageContribution) with "unsupported message kind" ;;
  _ ← validateBounded (tm_Content value) MaxMessageBytes "message content";
  fail_if (tm_Kind value =s MessageContribution) && (tm_TurnID value =s "") with "contribution message requires turnId" ;;
  fail_if (tm_Kind value =s MessageHost) && (tm_TurnID value ≠s "") with "host message cannot have turnId" ;;
  _ ← each_valid (fun id => validateID id "message reference") (tm_Recipients value ++ tm_ReferencedMessageIDs value);
  fail_if negb (validHash (tm_ContentHash value)) with "message contentHash must be a SHA-256 hex digest" ;;
  Ok tt.

Definition event_types : list string :=
  [EventTeamCreated; EventParticipantPrepared; EventParticipantActive; EventParticipantEvent; EventMessageCommitted;
   EventTeamClosed; EventTeamCancelled; EventHandoffCreated; EventHandoffBound].
Definition ValidateEvent (value : TeamEventV1) : result string unit :=
  _ ← validateSchema (te_SchemaVersion value);
  _ ← validateID (te_TeamID value) "teamId";
  fail_if (te_Sequence value =? 0) || (te_StateVersion value =? 0) with "event sequence and stateVersion must be positive" ;;
  fail_if negb (contains_string event_types (te_Type value)) with "unsupported team event type" ;;
  _ ← (if te_MessageID value ≠s "" then validateID (te_MessageID value) "messageId" else Ok tt);
  _ ← (if te_TurnID value ≠s "" then validateID (te_TurnID value) "turnId" else Ok tt);
  validateBounded (te_Summary value) MaxWarningBytes "event summary".

Definition contribution_types : list string :=
  [ContributionReport; ContributionDecision; ContributionArtifact; ContributionData; ContributionQuestion].
Definition ValidateContribution (value : ContributionV1) : result string unit :=
  _ ← validateSchema (co_SchemaVersion value);
  fail_if (co_Status value ≠s ContributionCompleted) && (co_Status value ≠s ContributionPartial) &&
          (co_Status value ≠s ContributionUnable) with "unsupported contribution status" ;;
  let output := co_Output value in
  fail_if (co_ContentMarkdown value =s "") && (len (trim_space output) =? 0)
    with "contribution must include contentMarkdown or output" ;;
  _ ← (if co_ContentMarkdown value ≠s "" then validateBounded (co_ContentMarkdown value) MaxMessageBytes "contribution content"
       else Ok tt);
  _ ← (if 0 <? len output then
         fail_if negb (contains_string contribution_types (co_ResultType value)) with "unsupported contribution resultType" ;;
         fail_if (MaxMessageBytes <? len output) || negb (json_valid output) || (trim_space output =s "null")
           with "contribution output must be valid JSON within bytes" ;;
         Ok tt
       else fail_if co_ResultType value ≠s "" with "contribution resultType requires output" ;; Ok tt);
  _ ← each_valid (fun warning => validateBounded warning MaxWarningBytes "warning") (co_Warnings value);
  _ ← each_valid (fun question => validateBounded question MaxOpenQuestionBytes "open question") (co_OpenQuestions value);
  match co_UsageEstimates value with Some estimate => ValidateUsageEstimate estimate | None => Ok tt end.

Definition ValidateAction (value : TeamActionV1) : result string unit :=
  _ ← validateSchema (ta_SchemaVersion value);
  _ ← validateID (ta_ActionID value) "actionId";
  _ ← validateID (ta_TeamID value) "teamId";
  fail_if ta_ExpectedStateVersion value =? 0 with "expectedStateVersion must be positive" ;;
  let type := ta_Type value in
  fail_if (type ≠s ActionFollowUp) && (type ≠s ActionCancelTurn) && (type ≠s ActionClose) && (type ≠s ActionCancel)
    with "unsupported action type" ;;
  count ← match ta_FollowUp value with
          | None => Ok 0
          | Some follow =>
              fail_if type ≠s ActionFollowUp with "followUp payload does not match action type" ;;
              _ ← validateBounded (fu_Content follow) MaxMessageBytes "follow-up content";
              fail_if len_slice (fu_ParticipantIDs follow) =? 0 with "follow-up requires participants" ;;
              _ ← each_valid (fun id => validateID id "follow-up participant") (fu_ParticipantIDs follow);
              _ ← each_valid (fun id => validateID id "follow-up reference") (fu_ReferencedMessageIDs follow);
              Ok 1
          end;
  count ← match ta_CancelTurn value with
          | None => Ok count
          | Some cancel =>
              fail_if type ≠s ActionCancelTurn with "cancelTurn payload does not match action type" ;;
              _ ← validateID (ct_TurnID cancel) "turnId";
              Ok (count + 1)
          end;
  count ← match ta_Close value with
          | None => Ok count
          | Some close =>
              fail_if type ≠s ActionClose with "close payload does not match action type" ;;
              fail_if (cl_Reason close ≠s CloseHostClosed) && (cl_Reason close ≠s CloseCancelled) with "invalid close reason" ;;
              Ok (count + 1)
          end;
  if type =s ActionCancel then
    fail_if negb (count =? 0) with "cancel action cannot carry another payload" ;; Ok tt
  else fail_if negb (count =? 1) with "action requires exactly one matching payload" ;; Ok tt.
End validators.

(** * The JSON of a team's records

    The text that json.Marshal gives for the records whose size the team
    contract and the team store bound, json.MarshalIndent of it, and time.Time's
    encoding. *)

(** ** time.Time in UTC

    Years, months and days from the days since the zero time, 1 January of year
    1, in a calendar whose years begin in March. *)
Definition two_digits (n : Z) : string := (if n <? 10 then "0" else "") +:+ pretty n.
Definition four_digits (n : Z) : string :=
  (if n <? 10 then "000" else if n <? 100 then "00" else if n <? 1000 then "0" else "") +:+ pretty n.
Definition civil (days : Z) : Z * Z * Z :=
  let z := days + 306 in
  let era := z / 146097 in
  let doe := z mod 146097 in
  let yoe := (doe - doe / 1460 + doe / 36524 - doe / 146096) / 365 in
  let doy := doe - (365 * yoe + yoe / 4 - yoe / 100) in
  let mp := (5 * doy + 2) / 153 in
  let month := if mp <? 10 then mp + 3 else mp - 9 in
  (yoe + era * 400 + (if month <=? 2 then 1 else 0), month, doy - (153 * mp + 2) / 5 + 1).

(** The nanoseconds as ".999999999": no trailing zeros, nothing for 0 *)
Fixpoint drop_zeros (l : list ascii) : list ascii :=
  match l with c :: l => if Ascii.eqb c "0" then drop_zeros l else c :: l | [] => [] end.
Definition fraction (ns : Z) : string :=
  if ns =? 0 then ""
  else "." +:+ of_list (reverse (drop_zeros (take 9 (reverse (to_list (pretty (1000000000 + ns))))))).

(** RFC 3339 with nanoseconds; years after 9999 are an error of MarshalJSON. *)
Definition rfc3339 (t : Z) : string :=
  let seconds := t / 1000000000 in
  let '(year, month, day) := civil (seconds / 86400) in
  let clock := seconds mod 86400 in
  four_digits year +:+ "-" +:+ two_digits month +:+ "-" +:+ two_digits day +:+ "T" +:+
  two_digits (clock / 3600) +:+ ":" +:+ two_digits (clock / 60 mod 60) +:+ ":" +:+ two_digits (clock mod 60) +:+
  fraction (t mod 1000000000) +:+ "Z".
Definition json_time (t : Z) : string := json_string (rfc3339 t).

Example epoch : json_time (719162 * 86400 * 1000000000) = quoted "1970-01-01T00:00:00Z".
Proof. vm_compute. reflexivity. Qed.
Example leap_day : json_time ((719162 + 19782) * 86400 * 1000000000 + 3723000120000) = quoted "2024-02-29T01:02:03.00012Z".
Proof. vm_compute. reflexivity. Qed.
Example zero_time : json_time 0 = quoted "0001-01-01T00:00:00Z".
Proof. vm_compute. reflexivity. Qed.

(** ** Records *)

(** A field with omitempty *)
Definition omit_string (name value : string) : list (string * string) :=
  if value =s "" then [] else [(name, json_string value)].
Definition omit_strings (name : string) (values : list string) : list (string * string) :=
  match values with [] => [] | _ => [(name, json_strings (Some values))] end.

Definition json_artifact_fields (schema handoff team : string) (version : Z) (goal : string)
    (decisions constraints questions expectations : list string) : list (string * string) :=
  [("schemaVersion", json_string schema); ("handoffId", json_string handoff); ("teamId", json_string team);
   ("sourceTeamVersion", pretty version); ("goal", json_string goal)] ++
  omit_strings "decisions" decisions ++ omit_strings "constraints" constraints ++
  omit_strings "openQuestions" questions ++ omit_strings "acceptanceExpectations" expectations.

Definition json_handoff (value : HandoffArtifactV1) : string :=
  json_object (json_artifact_fields (ha_SchemaVersion value) (ha_HandoffID value) (ha_TeamID value)
      (ha_SourceTeamVersion value) (ha_Goal value) (ha_Decisions value) (ha_Constraints value)
      (ha_OpenQuestions value) (ha_AcceptanceExpectations value) ++
    [("selectedMessageIds", json_strings (Some (ha_SelectedMessageIDs value)));
     ("sourceMessageHashes", json_strings (Some (ha_SourceMessageHashes value)));
     ("contentHash", json_string (ha_ContentHash value)); ("createdAt", json_time (ha_CreatedAt value))]).

(** handoffHashInputV1 of handoff.go *)
Definition json_handoff_hash_input (value : HandoffArtifactV1) : string :=
  json_object (json_artifact_fields (ha_SchemaVersion value) (ha_HandoffID value) (ha_TeamID value)
      (ha_SourceTeamVersion value) (ha_Goal value) (ha_Decisions value) (ha_Constraints value)
      (ha_OpenQuestions value) (ha_AcceptanceExpectations value) ++
    [("selectedMessageIds", json_strings (Some (ha_SelectedMessageIDs value)));
     ("sourceMessageHashes", json_strings (Some (ha_SourceMessageHashes value)))]).

Definition json_binding (value : HandoffBindingV1) : string :=
  json_object [("teamId", json_string (hb_TeamID value)); ("handoffId", json_string (hb_HandoffID value));
    ("runId", json_string (hb_RunID value)); ("project", json_string (hb_Project value));
    ("boundAt", json_time (hb_BoundAt value))].

Definition json_message (value : TeamMessageV1) : string :=
  json_object ([("schemaVersion", json_string (tm_SchemaVersion value)); ("messageId", json_string (tm_MessageID value));
     ("teamId", json_string (tm_TeamID value)); ("sequence", pretty (tm_Sequence value));
     ("kind", json_string (tm_Kind value)); ("actor", json_string (tm_Actor value))] ++
    omit_strings "recipients" (tm_Recipients value) ++ omit_string "turnId" (tm_TurnID value) ++
    [("content", json_string (tm_Content value))] ++ omit_strings "referencedMessageIds" (tm_ReferencedMessageIDs value) ++
    [("createdAt", json_time (tm_CreatedAt value)); ("contentHash", json_string (tm_ContentHash value))]).

Definition json_event (value : TeamEventV1) : string :=
  json_object ([("schemaVersion", json_string (te_SchemaVersion value)); ("teamId", json_string (te_TeamID value));
     ("sequence", pretty (te_Sequence value)); ("type", json_string (te_Type value));
     ("stateVersion", pretty (te_StateVersion value))] ++
    omit_string "messageId" (te_MessageID value) ++ omit_string "turnId" (te_TurnID value) ++
    omit_string "summary" (te_Summary value) ++ [("createdAt", json_time (te_CreatedAt value))]).

(** The bytes of the file that writeJSON makes of a value: MarshalIndent and a
    final newline *)
Definition file_size (json : string) : Z := len (json_indented 0 json) + 1.

(** ValidateHandoff of contract.go, which bounds the size of the JSON *)
Definition ValidateHandoff `{GoRange} (value : HandoffArtifactV1) : result string unit :=
  _ ← validateSchema (ha_SchemaVersion value);
  _ ← validateID (ha_HandoffID value) "handoffId";
  _ ← validateID (ha_TeamID value) "teamId";
  fail_if ha_SourceTeamVersion value =? 0 with "sourceTeamVersion must be positive" ;;
  fail_if (trim_space (ha_Goal value) =s "") || (ha_Goal value ≠s trim_space (ha_Goal value))
    with "handoff goal is required without surrounding whitespace" ;;
  _ ← validateBounded (ha_Goal value) MaxMessageBytes "handoff goal";
  _ ← each_valid (fun '(name, values) => each_valid (fun item => validateBounded item MaxMessageBytes name) values)
        (go_range "ValidateHandoff" (list_to_map [("decisions", ha_Decisions value); ("constraints", ha_Constraints value);
           ("openQuestions", ha_OpenQuestions value); ("acceptanceExpectations", ha_AcceptanceExpectations value)]
           : gmap string (list string)));
  let selected := ha_SelectedMessageIDs value in
  fail_if (len_slice selected =? 0) || (MaxHandoffSelectedMessages <? len_slice selected)
    with "selected message count is out of bounds" ;;
  fail_if negb (len_slice selected =? len_slice (ha_SourceMessageHashes value))
    with "selected message IDs and hashes must have equal length" ;;
  _ ← range_loop (fun seen id =>
        _ ← validateID id "selected message";
        fail_if seen_in id seen with "selected message IDs must be unique" ;;
        Ok ({[id]} ∪ seen)) ∅ selected;
  _ ← each_valid (fun hash => fail_if negb (validHash hash) with "source message hash must be a SHA-256 hex digest" ;; Ok tt)
        (ha_SourceMessageHashes value);
  fail_if negb (validHash (ha_ContentHash value)) with "handoff contentHash must be a SHA-256 hex digest" ;;
  fail_if MaxHandoffBytes <? len (json_handoff value) with "handoff exceeds bytes" ;;
  Ok tt.

Definition json_participant (value : ParticipantV1) : string :=
  json_object ([("participantId", json_string (pa_ParticipantID value)); ("label", json_string (pa_Label value));
     ("role", json_string (pa_Role value)); ("modelId", json_string (pa_ModelID value));
     ("driver", json_string (pa_Driver value)); ("target", json_string (pa_Target value));
     ("state", json_string (pa_State value))] ++ omit_string "currentTurnId" (pa_CurrentTurnID value)).

Definition json_session (value : TeamSessionV1) : string :=
  json_object ([("schemaVersion", json_string (ts_SchemaVersion value)); ("teamId", json_string (ts_TeamID value));
     ("clientRequestId", json_string (ts_ClientRequestID value)); ("requestHash", json_string (ts_RequestHash value));
     ("project", json_string (ts_Project value)); ("mode", json_string (ts_Mode value));
     ("topic", json_string (ts_Topic value))] ++
    omit_string "instructions" (ts_Instructions value) ++
    [("catalogHash", json_string (ts_CatalogHash value));
     ("participants", json_array (map json_participant (ts_Participants value)));
     ("state", json_string (ts_State value)); ("stateVersion", pretty (ts_StateVersion value));
     ("costGrant", pretty (ts_CostGrant value)); ("costUsed", pretty (ts_CostUsed value))] ++
    omit_string "closeReason" (ts_CloseReason value) ++
    [("createdAt", json_time (ts_CreatedAt value)); ("updatedAt", json_time (ts_UpdatedAt value))]).
