(* ===== verification/TeamStore.v ===== *)
(** * The files of a team

    internal/store/team_store.go for one team with a valid id.  Every value is
    in a JSON file that is replaced as a whole, except the two logs, to which
    lines are appended.  A reader bounds the size of what it reads: a file of
    more than [MaxHandoffBytes] (the bindings: [MaxRetainedMessageBytes]) and a
    line of the log that does not fit its scanner's buffer are errors.

    Decoding an encoded value gives the value back: strings are valid UTF-8, as
    everything is that came from JSON, and an absent list is the empty one.
    Intents are filed under the SHA-256 of their id.  Torn lines and the loss of
    unsynced data are not modelled. *)

From S2P Require Import Prelude GoText Json Routing Resolver Catalog Workflow Files Context TeamContract.
#[local] Open Scope string_scope.
#[local] Open Scope list_scope.
#[local] Open Scope Z_scope.

(** ** Requests and intents of api.go and handoff.go that are stored *)

Record HandoffCreateRequestV1 := {
  hc_SchemaVersion : string; hc_HandoffID : string; hc_TeamID : string; hc_ExpectedStateVersion : Z; hc_Goal : string;
  hc_Decisions : list string; hc_Constraints : list string; hc_OpenQuestions : list string;
  hc_AcceptanceExpectations : list string; hc_SelectedMessageIDs : list string }.
Record HandoffCreateResponseV1 := { hcr_SchemaVersion : string; hcr_Handoff : HandoffArtifactV1; hcr_Replayed : bool }.
Record HandoffBindRunRequestV1 := {
  br_SchemaVersion : string; br_ActionID : string; br_TeamID : string; br_HandoffID : string; br_RunID : string;
  br_ExpectedStateVersion : Z }.
Record HandoffBindRunResponseV1 := { brr_SchemaVersion : string; brr_Binding : HandoffBindingV1; brr_Replayed : bool }.

Record handoffCreateIntentV1 := {
  hi_SchemaVersion : string; hi_RequestHash : string; hi_Request : HandoffCreateRequestV1;
  hi_Artifact : HandoffArtifactV1; hi_Response : option HandoffCreateResponseV1 }.
Record handoffBindingIntentV1 := {
  bi_SchemaVersion : string; bi_RequestHash : string; bi_Request : HandoffBindRunRequestV1;
  bi_Binding : HandoffBindingV1; bi_Response : option HandoffBindRunResponseV1 }.

Definition json_create_request (value : HandoffCreateRequestV1) : string :=
  json_object ([("schemaVersion", json_string (hc_SchemaVersion value)); ("handoffId", json_string (hc_HandoffID value));
     ("teamId", json_string (hc_TeamID value)); ("expectedStateVersion", pretty (hc_ExpectedStateVersion value));
     ("goal", json_string (hc_Goal value))] ++
    omit_strings "decisions" (hc_Decisions value) ++ omit_strings "constraints" (hc_Constraints value) ++
    omit_strings "openQuestions" (hc_OpenQuestions value) ++
    omit_strings "acceptanceExpectations" (hc_AcceptanceExpectations value) ++
    [("selectedMessageIds", json_strings (Some (hc_SelectedMessageIDs value)))]).
Definition json_bind_request (value : HandoffBindRunRequestV1) : string :=
  json_object [("schemaVersion", json_string (br_SchemaVersion value)); ("actionId", json_string (br_ActionID value));
    ("teamId", json_string (br_TeamID value)); ("handoffId", json_string (br_HandoffID value));
    ("runId", json_string (br_RunID value)); ("expectedStateVersion", pretty (br_ExpectedStateVersion value))].
Definition omit_pointer {A} (name : string) (encode : A -> string) (value : option A) : list (string * string) :=
  match value with Some value => [(name, encode value)] | None => [] end.
Definition json_create_response (value : HandoffCreateResponseV1) : string :=
  json_object [("schemaVersion", json_string (hcr_SchemaVersion value)); ("handoff", json_handoff (hcr_Handoff value));
    ("replayed", json_bool (hcr_Replayed value))].
Definition json_bind_response (value : HandoffBindRunResponseV1) : string :=
  json_object [("schemaVersion", json_string (brr_SchemaVersion value)); ("binding", json_binding (brr_Binding value));
    ("replayed", json_bool (brr_Replayed value))].
Definition json_create_intent (value : handoffCreateIntentV1) : string :=
  json_object ([("schemaVersion", json_string (hi_SchemaVersion value)); ("requestHash", json_string (hi_RequestHash value));
     ("request", json_create_request (hi_Request value)); ("artifact", json_handoff (hi_Artifact value))] ++
    omit_pointer "response" json_create_response (hi_Response value)).
Definition json_bind_intent (value : handoffBindingIntentV1) : string :=
  json_object ([("schemaVersion", json_string (bi_SchemaVersion value)); ("requestHash", json_string (bi_RequestHash value));
     ("request", json_bind_request (bi_Request value)); ("binding", json_binding (bi_Binding value))] ++
    omit_pointer "response" json_bind_response (bi_Response value)).
(** actionIntentV1 of public.go *)
Record TeamActionResponseV1 := {
  ar_SchemaVersion : string; ar_ActionID : string; ar_TeamID : string; ar_Type : string; ar_StateVersion : Z;
  ar_State : string; ar_Replayed : bool }.
Record actionIntentV1 := {
  an_SchemaVersion : string; an_RequestHash : string; an_Action : TeamActionV1; an_Response : option TeamActionResponseV1 }.
Definition json_action (value : TeamActionV1) : string :=
  json_object ([("schemaVersion", json_string (ta_SchemaVersion value)); ("actionId", json_string (ta_ActionID value));
     ("teamId", json_string (ta_TeamID value)); ("expectedStateVersion", pretty (ta_ExpectedStateVersion value));
     ("type", json_string (ta_Type value))] ++
    omit_pointer "followUp" (fun f => json_object ([("content", json_string (fu_Content f));
      ("participantIds", json_strings (Some (fu_ParticipantIDs f)))] ++
      omit_strings "referencedMessageIds" (fu_ReferencedMessageIDs f))) (ta_FollowUp value) ++
    omit_pointer "cancelTurn" (fun c => json_object [("turnId", json_string (ct_TurnID c))]) (ta_CancelTurn value) ++
    omit_pointer "close" (fun c => json_object [("reason", json_string (cl_Reason c))]) (ta_Close value)).
Definition json_action_response (value : TeamActionResponseV1) : string :=
  json_object [("schemaVersion", json_string (ar_SchemaVersion value)); ("actionId", json_string (ar_ActionID value));
    ("teamId", json_string (ar_TeamID value)); ("type", json_string (ar_Type value));
    ("stateVersion", pretty (ar_StateVersion value)); ("state", json_string (ar_State value));
    ("replayed", json_bool (ar_Replayed value))].
Definition json_action_intent (value : actionIntentV1) : string :=
  json_object ([("schemaVersion", json_string (an_SchemaVersion value)); ("requestHash", json_string (an_RequestHash value));
     ("action", json_action (an_Action value))] ++ omit_pointer "response" json_action_response (an_Response value)).
(** teamHandoffBindingsV1 *)
Definition json_bindings (items : list HandoffBindingV1) : string :=
  json_object [("schemaVersion", json_string SchemaVersion); ("items", json_array (map json_binding items))].

(** ** Files *)

(** ExecutionHandle of explorationdriver *)
Record ExecutionHandle := { eh_Driver : string; eh_Target : string; eh_SchemaVersion : Z; eh_ID : string; eh_Data : string }.
(** The files of the participants and their turns *)
Record round_files := {
  fr_participants : gmap string ParticipantV1; fr_turns : gmap string ParticipantTurnV1;
  fr_executions : gmap string ExecutionHandle }.
Record team_files := {
  tf_snapshot : option TeamSessionV1; tf_events : list TeamEventV1; tf_messages : list TeamMessageV1;
  tf_handoffs : gmap string HandoffArtifactV1; tf_bindings : option (list HandoffBindingV1);
  tf_create_intents : gmap string handoffCreateIntentV1; tf_bind_intents : gmap string handoffBindingIntentV1;
  tf_action_intents : gmap string actionIntentV1; tf_round : round_files }.

Inductive TeamError :=
| TeamFile (e : FileError) | TeamID | TeamInvalid (message : string) | TeamOversize | TeamIdentity
| TeamSequence | TeamLineTooLong | TeamQuota | TeamMismatch | TeamDifferentBinding
| ErrConflict | ErrQuotaExceeded | ErrCapabilityUnavailable | ErrRunLookup
(** an index out of range *)
| TeamPanic.
#[export] Instance TeamError_files : FileErrors TeamError := TeamFile.
Notation team_io := (io team_files TeamError).

Definition put_snapshot (s : TeamSessionV1) (d : team_files) : team_files := {|
  tf_snapshot := Some s; tf_events := tf_events d; tf_messages := tf_messages d; tf_handoffs := tf_handoffs d;
  tf_bindings := tf_bindings d; tf_create_intents := tf_create_intents d; tf_bind_intents := tf_bind_intents d;
  tf_action_intents := tf_action_intents d; tf_round := tf_round d |}.
Definition put_event (e : TeamEventV1) (d : team_files) : team_files := {|
  tf_snapshot := tf_snapshot d; tf_events := tf_events d ++ [e]; tf_messages := tf_messages d;
  tf_handoffs := tf_handoffs d; tf_bindings := tf_bindings d; tf_create_intents := tf_create_intents d;
  tf_bind_intents := tf_bind_intents d; tf_action_intents := tf_action_intents d; tf_round := tf_round d |}.
Definition put_message (m : TeamMessageV1) (d : team_files) : team_files := {|
  tf_snapshot := tf_snapshot d; tf_events := tf_events d; tf_messages := tf_messages d ++ [m];
  tf_handoffs := tf_handoffs d; tf_bindings := tf_bindings d; tf_create_intents := tf_create_intents d;
  tf_bind_intents := tf_bind_intents d; tf_action_intents := tf_action_intents d; tf_round := tf_round d |}.
Definition put_handoff (a : HandoffArtifactV1) (d : team_files) : team_files := {|
  tf_snapshot := tf_snapshot d; tf_events := tf_events d; tf_messages := tf_messages d;
  tf_handoffs := <[ha_HandoffID a := a]> (tf_handoffs d); tf_bindings := tf_bindings d;
  tf_create_intents := tf_create_intents d; tf_bind_intents := tf_bind_intents d;
  tf_action_intents := tf_action_intents d; tf_round := tf_round d |}.
Definition put_bindings (items : list HandoffBindingV1) (d : team_files) : team_files := {|
  tf_snapshot := tf_snapshot d; tf_events := tf_events d; tf_messages := tf_messages d; tf_handoffs := tf_handoffs d;
  tf_bindings := Some items; tf_create_intents := tf_create_intents d; tf_bind_intents := tf_bind_intents d;
  tf_action_intents := tf_action_intents d; tf_round := tf_round d |}.
Definition put_create_intent (key : string) (i : handoffCreateIntentV1) (d : team_files) : team_files := {|
  tf_snapshot := tf_snapshot d; tf_events := tf_events d; tf_messages := tf_messages d; tf_handoffs := tf_handoffs d;
  tf_bindings := tf_bindings d; tf_create_intents := <[key := i]> (tf_create_intents d);
  tf_bind_intents := tf_bind_intents d; tf_action_intents := tf_action_intents d; tf_round := tf_round d |}.
Definition put_bind_intent (key : string) (i : handoffBindingIntentV1) (d : team_files) : team_files := {|
  tf_snapshot := tf_snapshot d; tf_events := tf_events d; tf_messages := tf_messages d; tf_handoffs := tf_handoffs d;
  tf_bindings := tf_bindings d; tf_create_intents := tf_create_intents d;
  tf_bind_intents := <[key := i]> (tf_bind_intents d); tf_action_intents := tf_action_intents d; tf_round := tf_round d |}.

Definition valid_id (value : string) : result TeamError unit :=
  fail_if negb (safe_id value) with TeamID ;; Ok tt.

(** The value in a file *)
Definition open_file {V} (get : team_files -> option V) : team_io V :=
  call (fun d => (match get d with Some value => Ok value | None => Err FileNotExist end, d)).

(** readTeamContractJSONLimit: [json] is the value's JSON, without indentation *)
Definition readTeamContractJSONLimit {V} (get : team_files -> option V) (json : V -> string) (limit : Z) : team_io V :=
  value ← open_file get;
  if limit <? file_size (json value) then refuse TeamOversize else mret value.
Definition readTeamContractJSON {V} (get : team_files -> option V) (json : V -> string) : team_io V :=
  readTeamContractJSONLimit get json MaxHandoffBytes.
Definition write_team (f : team_files -> team_files) : team_io unit :=
  _ ← injectFault; call (fun d => (Ok tt, f d)).

(** ensureJSON: two values of one type are the same JSON when their encodings
    are the same text. *)
Definition ensureJSON {V} (get : team_files -> option V) (put : V -> team_files -> team_files) (json : V -> string)
    (value : V) : team_io unit :=
  _ ← touch;
  withLeaseGuard (
    existing ← attempt (open_file get);
    match existing with
    | Ok existing => if json existing ≠s json value then refuse TeamMismatch else mret tt
    | Err (TeamFile FileNotExist) => write_team (put value)
    | Err e => refuse e
    end).

Section store.
  Context {GR : GoRange} {SHA : Sha256}.

Definition digestID (value : string) : string := hashBytes value.

Definition ReadTeamSnapshot (teamID : string) : team_io TeamSessionV1 :=
  _ ← checked id (valid_id teamID);
  target ← readTeamContractJSON tf_snapshot json_session;
  if ts_TeamID target ≠s teamID then refuse TeamIdentity else
  _ ← checked TeamInvalid (ValidateTeamSession target);
  mret target.
Definition WriteTeamSnapshot (snapshot : TeamSessionV1) : team_io unit :=
  _ ← checked TeamInvalid (ValidateTeamSession snapshot);
  write_team (put_snapshot snapshot).

(** ** Logs *)

(** A line and its newline fill the scanner's buffer at most. *)
Definition fits_scanner (json : string) : bool := len json + 1 <=? MaxHandoffBytes.

(** The state of scanTeamLog: the last sequence number, the records and bytes so far *)
Definition scan_line {V} (json : V -> string) (check : V -> result string unit) (sequence : V -> Z)
    (state : Z * Z * Z) (value : V) : result TeamError (Z * Z * Z) :=
  let '(last, count, bytesUsed) := state in
  fail_if negb (fits_scanner (json value)) with TeamLineTooLong ;;
  _ ← rmap_err TeamInvalid (check value);
  fail_if negb (sequence value =? wrap_uint64 (last + 1)) with TeamSequence ;;
  Ok (sequence value, count + 1, bytesUsed + len (json value) + 1).
Definition scanTeamLog {V} (json : V -> string) (check : V -> result string unit) (sequence : V -> Z) (log : list V)
    : result TeamError (Z * Z * Z) :=
  range_loop (scan_line json check sequence) (0, 0, 0) log.

Definition appendTeamRecordWithQuota {V} (get : team_files -> list V) (put : V -> team_files -> team_files)
    (json : V -> string) (check : V -> result string unit) (sequence : V -> Z) (maxRecords maxBytes : Z) (value : V)
    : team_io unit :=
  _ ← injectFault;
  _ ← touch;
  withLeaseGuard (
    log ← call (fun d => (Ok (get d), d));
    '(last, count, bytesUsed) ← checked id (scanTeamLog json check sequence log);
    if negb (sequence value =? wrap_uint64 (last + 1)) then refuse TeamSequence else
    if (0 <? maxRecords) && (maxRecords <=? count) then refuse TeamQuota else
    if (0 <? maxBytes) && (maxBytes <? bytesUsed + len (json value) + 1) then refuse TeamQuota else
    _ ← call (fun d => (Ok tt, put value d));
    touch).

Definition AppendTeamEvent (value : TeamEventV1) : team_io unit :=
  _ ← checked TeamInvalid (ValidateEvent value);
  appendTeamRecordWithQuota tf_events put_event json_event ValidateEvent te_Sequence 0 0 value.
Definition AppendTeamMessage (value : TeamMessageV1) : team_io unit :=
  _ ← checked TeamInvalid (ValidateMessage value);
  appendTeamRecordWithQuota tf_messages put_message json_message ValidateMessage tm_Sequence
    MaxRetainedMessages MaxRetainedMessageBytes value.

(** readTeamLog with the visitors of ReadTeamEvents and ReadTeamMessages *)
Definition readTeamLog {V} (get : team_files -> list V) (json : V -> string) (check : V -> result string unit)
    (sequence : V -> Z) (team : V -> string) (teamID : string) : team_io (list V) :=
  _ ← checked id (valid_id teamID);
  log ← call (fun d => (Ok (get d), d));
  _ ← checked id (range_loop (fun expected value =>
        fail_if negb (fits_scanner (json value)) with TeamLineTooLong ;;
        fail_if (team value ≠s teamID) || negb (sequence value =? expected) with TeamSequence ;;
        _ ← rmap_err TeamInvalid (check value);
        Ok (wrap_uint64 (expected + 1))) 1 log);
  mret log.
Definition ReadTeamEvents (teamID : string) : team_io (list TeamEventV1) :=
  readTeamLog tf_events json_event ValidateEvent te_Sequence te_TeamID teamID.
Definition ReadTeamMessages (teamID : string) : team_io (list TeamMessageV1) :=
  readTeamLog tf_messages json_message ValidateMessage tm_Sequence tm_TeamID teamID.

(** ** Handoffs, bindings, intents *)

Definition WriteTeamHandoff (value : HandoffArtifactV1) : team_io unit :=
  _ ← checked TeamInvalid (ValidateHandoff value);
  ensureJSON (fun d => tf_handoffs d !! ha_HandoffID value) put_handoff json_handoff value.
Definition ReadTeamHandoff (teamID handoffID : string) : team_io HandoffArtifactV1 :=
  _ ← checked id (valid_id teamID);
  _ ← checked id (valid_id handoffID);
  target ← readTeamContractJSON (fun d => tf_handoffs d !! handoffID) json_handoff;
  if (ha_TeamID target ≠s teamID) || (ha_HandoffID target ≠s handoffID) then refuse TeamIdentity else
  _ ← checked TeamInvalid (ValidateHandoff target);
  mret target.
Definition ListTeamHandoffIDs (teamID : string) : team_io (list string) :=
  _ ← checked id (valid_id teamID);
  call (fun d => (Ok (sort_strings (base.filter (fun id => safe_id id = true) (map fst (map_to_list (tf_handoffs d))))), d)).

Definition ReadTeamBindings (teamID : string) : team_io (list HandoffBindingV1) :=
  _ ← checked id (valid_id teamID);
  collection ← attempt (readTeamContractJSONLimit tf_bindings json_bindings MaxRetainedMessageBytes);
  match collection with
  | Err (TeamFile FileNotExist) => mret []
  | Err e => refuse e
  | Ok items =>
      if MaxMutationReceipts <? len_slice items then refuse TeamQuota else
      _ ← checked id (range_loop (fun seen binding =>
            _ ← rmap_err TeamInvalid (ValidateHandoffBinding binding);
            fail_if hb_TeamID binding ≠s teamID with TeamIdentity ;;
            fail_if seen_in (hb_HandoffID binding) seen with TeamIdentity ;;
            Ok ({[hb_HandoffID binding]} ∪ seen)) ∅ items);
      mret items
  end.
Definition find_binding (handoffID : string) (items : list HandoffBindingV1) : option HandoffBindingV1 :=
  List.find (fun b => hb_HandoffID b =s handoffID) items.
Definition ReadTeamBinding (teamID handoffID : string) : team_io HandoffBindingV1 :=
  _ ← checked id (valid_id teamID);
  _ ← checked id (valid_id handoffID);
  bindings ← ReadTeamBindings teamID;
  match find_binding handoffID bindings with
  | Some binding => mret binding
  | None => refuse (TeamFile FileNotExist)
  end.
Definition WriteTeamBinding (value : HandoffBindingV1) : team_io unit :=
  _ ← checked TeamInvalid (ValidateHandoffBinding value);
  bindings ← ReadTeamBindings (hb_TeamID value);
  match find_binding (hb_HandoffID value) bindings with
  | Some existing => if decide (existing = value) then mret tt else refuse TeamDifferentBinding
  | None =>
      let bindings := bindings ++ [value] in
      if MaxMutationReceipts <? len_slice bindings then refuse TeamQuota else
      let bindings := sort_slice (fun a b => String.ltb (hb_HandoffID a) (hb_HandoffID b)) bindings in
      if MaxRetainedMessageBytes <? len (json_bindings bindings) then refuse TeamQuota else
      write_team (put_bindings bindings)
  end.

Definition WriteTeamHandoffIntent (teamID handoffID : string) (intent : handoffCreateIntentV1) : team_io unit :=
  _ ← checked id (valid_id teamID);
  _ ← checked id (valid_id handoffID);
  write_team (put_create_intent (digestID handoffID) intent).
Definition ReadTeamHandoffIntent (teamID handoffID : string) : team_io handoffCreateIntentV1 :=
  _ ← checked id (valid_id teamID);
  _ ← checked id (valid_id handoffID);
  readTeamContractJSON (fun d => tf_create_intents d !! digestID handoffID) json_create_intent.
Definition WriteTeamBindingIntent (teamID actionID : string) (intent : handoffBindingIntentV1) : team_io unit :=
  _ ← checked id (valid_id teamID);
  _ ← checked id (valid_id actionID);
  write_team (put_bind_intent (digestID actionID) intent).
Definition ReadTeamBindingIntent (teamID actionID : string) : team_io handoffBindingIntentV1 :=
  _ ← checked id (valid_id teamID);
  _ ← checked id (valid_id actionID);
  readTeamContractJSON (fun d => tf_bind_intents d !! digestID actionID) json_bind_intent.

(** listTeamIntentDirectory refuses a directory with too many entries. *)
Definition intent_count (entries : Z) : team_io Z :=
  _ ← touch;
  if MaxMutationReceipts <? entries then refuse TeamQuota else mret entries.
Definition TeamMutationIntentCount (teamID : string) : team_io Z :=
  _ ← checked id (valid_id teamID);
  d ← call (fun d => (Ok d, d));
  actions ← intent_count (Z.of_nat (size (tf_action_intents d)));
  handoffs ← intent_count (Z.of_nat (size (tf_create_intents d)));
  bindings ← intent_count (Z.of_nat (size (tf_bind_intents d)));
  mret (actions + handoffs + bindings).

(** The intents of a directory in the order of their file names *)
Definition by_name {V} (m : gmap string V) : list V :=
  map snd (sort_slice (fun a b => String.ltb a.1 b.1) (map_to_list m)).
Definition list_intents {V} (get : team_files -> gmap string V) (teamID : string) : team_io (list V) :=
  _ ← checked id (valid_id teamID);
  m ← call (fun d => (Ok (get d), d));
  if MaxMutationReceipts <? Z.of_nat (size m) then refuse TeamQuota else mret (by_name m).
Definition ListTeamHandoffIntents (teamID : string) : team_io (list handoffCreateIntentV1) := list_intents tf_create_intents teamID.
Definition ListTeamBindingIntents (teamID : string) : team_io (list handoffBindingIntentV1) := list_intents tf_bind_intents teamID.
End store.
