(* ===== verification/TeamTurns.v ===== *)
(** * The files of a team's turns, and the driver that runs them

    The rest of internal/store/team_store.go that a panel uses: participants,
    turns, executions and the intents of actions; and
    internal/explorationdriver/contract.go, the contract of a driver that runs one
    turn of a participant.

    A turn is filed under its id, which has no path separators.  A crash can leave
    the directory of a turn without its file; a directory is listed here when the
    file is there. *)

From S2P Require Import Prelude GoText Json JsonTree Routing Resolver Catalog Workflow Files Context.
From S2P Require Import TeamContract TeamStore.
#[local] Open Scope string_scope.
#[local] Open Scope list_scope.
#[local] Open Scope Z_scope.

(** ** JSON *)

(** json.RawMessage as json.Marshal writes it *)
Definition json_raw (text : string) : string := of_list (html_escape 0 (json_compact false false (to_list text))).
Definition omit_raw (name text : string) : list (string * string) := if text =s "" then [] else [(name, json_raw text)].
Definition omit_int (name : string) (value : Z) : list (string * string) := if value =? 0 then [] else [(name, pretty value)].

Definition json_estimate (value : UsageEstimateV1) : string :=
  json_object (omit_int "inputTokens" (ue_InputTokens value) ++ omit_int "outputTokens" (ue_OutputTokens value) ++
               omit_int "totalTokens" (ue_TotalTokens value)).
Definition json_usage (value : TeamTurnUsageV1) : string :=
  json_object ([("target", json_string (tu_Target value)); ("catalogHash", json_string (tu_CatalogHash value));
     ("costUnits", pretty (tu_CostUnits value)); ("cumulativeCostUnits", pretty (tu_CumulativeCostUnits value))] ++
    omit_pointer "tokenEstimate" json_estimate (tu_TokenEstimate value)).
Definition json_turn (value : ParticipantTurnV1) : string :=
  json_object ([("schemaVersion", json_string (pt_SchemaVersion value)); ("teamId", json_string (pt_TeamID value));
     ("participantId", json_string (pt_ParticipantID value)); ("turnId", json_string (pt_TurnID value));
     ("number", pretty (pt_Number value)); ("state", json_string (pt_State value)); ("driver", json_string (pt_Driver value));
     ("target", json_string (pt_Target value)); ("modelId", json_string (pt_ModelID value)); ("usage", json_usage (pt_Usage value))] ++
    omit_raw "executionHandle" (pt_ExecutionHandle value) ++ omit_string "contributionMessageId" (pt_ContributionMessage value) ++
    omit_string "diagnostic" (pt_Diagnostic value) ++
    [("createdAt", json_time (pt_CreatedAt value)); ("updatedAt", json_time (pt_UpdatedAt value))] ++
    omit_pointer "completedAt" json_time (pt_CompletedAt value)).
Definition json_contribution (value : ContributionV1) : string :=
  json_object ([("schemaVersion", json_string (co_SchemaVersion value)); ("status", json_string (co_Status value))] ++
    omit_string "resultType" (co_ResultType value) ++ omit_raw "output" (co_Output value) ++
    omit_string "contentMarkdown" (co_ContentMarkdown value) ++ omit_strings "warnings" (co_Warnings value) ++
    omit_strings "openQuestions" (co_OpenQuestions value) ++ omit_pointer "usageEstimates" json_estimate (co_UsageEstimates value)).
Definition json_handle (value : ExecutionHandle) : string :=
  json_object ([("driver", json_string (eh_Driver value)); ("target", json_string (eh_Target value));
     ("schemaVersion", pretty (eh_SchemaVersion value)); ("id", json_string (eh_ID value))] ++ omit_raw "data" (eh_Data value)).

(** ** The driver's contract *)

Definition ProtocolVersion := 1.
Definition MaxExecutionHandleDataSize := 64 * 1024.
Definition MaxPromptBytes := 64 * 1024.
Definition MaxOutputBytes := 64 * 1024.
Definition MaxDiagnosticBytes := 16 * 1024.
Definition SandboxReadOnly := "read-only".
Definition ObservationActive := "active".
Definition ObservationTerminal := "terminal".
Definition ObservationLost := "lost".
Definition CancelConfirmed := "confirmed".

Record ExecutionIdentity := { id_TeamID : string; id_ParticipantID : string; id_TurnID : string }.
Record StartRequest := {
  st_ProtocolVersion : Z; st_Identity : ExecutionIdentity; st_Workspace : string; st_Target : string; st_ModelID : string;
  st_Prompt : string; st_Sandbox : string; st_MaxBytes : Z }.
Record Observation := { ob_State : string; ob_Diagnostic : string }.
Record CancelResult := { cr_State : string; cr_Diagnostic : string }.

Definition ValidateIdentity (identity : ExecutionIdentity) : result string unit :=
  let fields := [id_TeamID identity; id_ParticipantID identity; id_TurnID identity] in
  fail_if existsb (fun value => trim_space value =s "") fields with "exploration execution identity is incomplete" ;;
  fail_if existsb (fun value => value ≠s trim_space value) fields
    with "exploration execution identity contains surrounding whitespace" ;;
  Ok tt.

(** "exploration handle schema version must be positive" has an int. *)
Definition ValidateExecutionHandle (handle : ExecutionHandle) : result string unit :=
  fail_if (trim_space (eh_Driver handle) =s "") || (trim_space (eh_Target handle) =s "") || (trim_space (eh_ID handle) =s "")
    with "exploration execution handle identity is incomplete" ;;
  fail_if eh_SchemaVersion handle <? 1 with "exploration handle schema version must be positive" ;;
  fail_if MaxExecutionHandleDataSize <? len (eh_Data handle) with "exploration handle data exceeds 65536 bytes" ;;
  fail_if (0 <? len (eh_Data handle)) && negb (json_valid (eh_Data handle)) with "exploration handle data is not valid JSON" ;;
  Ok tt.

Definition ValidateObservation (observation : Observation) : result string unit :=
  let state := ob_State observation in
  fail_if (state ≠s ObservationActive) && (state ≠s ObservationTerminal) && (state ≠s ObservationLost)
    with "unsupported exploration observation state " +:+ quoted state ;;
  fail_if MaxDiagnosticBytes <? len (ob_Diagnostic observation) with "exploration diagnostic exceeds 16384 bytes" ;;
  Ok tt.

(** ** Files *)

Definition put_round (f : round_files -> round_files) (d : team_files) : team_files := {|
  tf_snapshot := tf_snapshot d; tf_events := tf_events d; tf_messages := tf_messages d; tf_handoffs := tf_handoffs d;
  tf_bindings := tf_bindings d; tf_create_intents := tf_create_intents d; tf_bind_intents := tf_bind_intents d;
  tf_action_intents := tf_action_intents d; tf_round := f (tf_round d) |}.
Definition put_participant (value : ParticipantV1) : team_files -> team_files := put_round (fun r => {|
  fr_participants := <[pa_ParticipantID value := value]> (fr_participants r); fr_turns := fr_turns r;
  fr_executions := fr_executions r |}).
Definition put_turn (value : ParticipantTurnV1) : team_files -> team_files := put_round (fun r => {|
  fr_participants := fr_participants r; fr_turns := <[pt_TurnID value := value]> (fr_turns r);
  fr_executions := fr_executions r |}).
Definition put_execution (turnID : string) (value : ExecutionHandle) : team_files -> team_files := put_round (fun r => {|
  fr_participants := fr_participants r; fr_turns := fr_turns r; fr_executions := <[turnID := value]> (fr_executions r) |}).
Definition put_action_intent (key : string) (i : actionIntentV1) (d : team_files) : team_files := {|
  tf_snapshot := tf_snapshot d; tf_events := tf_events d; tf_messages := tf_messages d; tf_handoffs := tf_handoffs d;
  tf_bindings := tf_bindings d; tf_create_intents := tf_create_intents d; tf_bind_intents := tf_bind_intents d;
  tf_action_intents := <[key := i]> (tf_action_intents d); tf_round := tf_round d |}.
Definition turns_of (d : team_files) : gmap string ParticipantTurnV1 := fr_turns (tf_round d).

Section store.
  Context {GR : GoRange} {SHA : Sha256}.

(** The value as it would be read back *)
Definition reload_handle (value : ExecutionHandle) : ExecutionHandle := {|
  eh_Driver := eh_Driver value; eh_Target := eh_Target value; eh_SchemaVersion := eh_SchemaVersion value; eh_ID := eh_ID value;
  eh_Data := if eh_Data value =s "" then "" else json_indented 1 (json_raw (eh_Data value)) |}.

Definition ValidateStartRequest (request : StartRequest) : result string unit :=
  fail_if negb (st_ProtocolVersion request =? ProtocolVersion)
    with "unsupported exploration protocol version " +:+ pretty (st_ProtocolVersion request) ;;
  _ ← ValidateIdentity (st_Identity request);
  _ ← fields_valid "ValidateStartRequest" (fun value name => fail_if trim_space value =s "" with name +:+ " is required" ;; Ok tt)
        [("workspace", st_Workspace request); ("target", st_Target request); ("modelId", st_ModelID request);
         ("prompt", st_Prompt request)];
  fail_if (st_Target request ≠s trim_space (st_Target request)) || (st_ModelID request ≠s trim_space (st_ModelID request))
    with "target and modelId cannot contain surrounding whitespace" ;;
  fail_if st_Sandbox request ≠s SandboxReadOnly with "exploration sandbox must be " +:+ quoted SandboxReadOnly ;;
  fail_if (st_MaxBytes request <? 1) || (MaxOutputBytes <? st_MaxBytes request) with "result max bytes must be between 1 and 65536" ;;
  fail_if MaxPromptBytes <? len (st_Prompt request) with "exploration prompt exceeds 65536 bytes" ;;
  Ok tt.

Definition WriteTeamParticipant (value : ParticipantV1) (teamID : string) : team_io unit :=
  _ ← checked id (valid_id teamID);
  _ ← checked TeamInvalid (ValidateParticipant value);
  write_team (put_participant value).

Definition WriteTeamTurn (value : ParticipantTurnV1) : team_io unit :=
  _ ← checked TeamInvalid (ValidateParticipantTurn value);
  write_team (put_turn value).
Definition ReadTeamTurn (teamID turnID : string) : team_io ParticipantTurnV1 :=
  _ ← checked id (valid_id teamID);
  _ ← checked id (valid_id turnID);
  target ← readTeamContractJSON (fun d => turns_of d !! turnID) json_turn;
  if (pt_TeamID target ≠s teamID) || (pt_TurnID target ≠s turnID) then refuse TeamIdentity else
  _ ← checked TeamInvalid (ValidateParticipantTurn target);
  mret target.
Definition ListTeamTurnIDs (teamID : string) : team_io (list string) :=
  _ ← checked id (valid_id teamID);
  call (fun d => (Ok (sort_strings (base.filter (fun id => safe_id id = true) (map fst (map_to_list (turns_of d))))), d)).

(** The handle is checked as the text that json.Marshal gives, when it is read
    as the indented text of the file. *)
Definition WriteTeamExecution (teamID turnID : string) (handle : ExecutionHandle) : team_io unit :=
  _ ← checked id (valid_id teamID);
  _ ← checked id (valid_id turnID);
  if MaxExecutionHandleBytes <? len (json_handle handle) then refuse TeamOversize else
  write_team (put_execution turnID handle).
Definition ReadTeamExecution (teamID turnID : string) : team_io ExecutionHandle :=
  _ ← checked id (valid_id teamID);
  _ ← checked id (valid_id turnID);
  handle ← open_file (fun d => fr_executions (tf_round d) !! turnID);
  if MaxExecutionHandleBytes <? len (json_indented 0 (json_handle handle)) then refuse TeamOversize else
  mret (reload_handle handle).

Definition WriteTeamActionIntent (teamID actionID : string) (intent : actionIntentV1) : team_io unit :=
  _ ← checked id (valid_id teamID);
  _ ← checked id (valid_id actionID);
  write_team (put_action_intent (digestID actionID) intent).
Definition ReadTeamActionIntent (teamID actionID : string) : team_io actionIntentV1 :=
  _ ← checked id (valid_id teamID);
  _ ← checked id (valid_id actionID);
  readTeamContractJSON (fun d => tf_action_intents d !! digestID actionID) json_action_intent.
Definition ListTeamActionIntents (teamID : string) : team_io (list actionIntentV1) := list_intents tf_action_intents teamID.
End store.
