(* ===== verification/Handoff.v ===== *)
(** * Handoffs

    internal/team/handoff.go with its requests of internal/teamcontract/api.go:
    a handoff is a signed selection of a team's messages, created once and bound
    to at most one run.  Each mutation first stores an intent, so that a request
    repeated after a crash completes what was begun, and stores its response in
    the intent, so that a completed request is replayed.

    The mutex of the service makes each method one critical section of its
    process.  The clock is an input; runLookup is a parameter, which gives the
    project of a run or fails. *)

From S2P Require Import Prelude GoText Json Routing Resolver Catalog Workflow Validate Files Context.
From S2P Require Import TeamContract TeamStore.
#[local] Open Scope string_scope.
#[local] Open Scope list_scope.
#[local] Open Scope Z_scope.

(** ** Requests (api.go) *)

Definition DefaultListLimit := 50.
Definition MaxListLimit := 100.

Definition validateAPIVersion (value : string) : result string unit := validateSchema value.
Definition validateAPIID (value name : string) : result string unit :=
  fail_if negb (safe_id value) with name +:+ " must be a bounded safe identifier" ;; Ok tt.
Definition validatePage (cursor : string) (limit : Z) : result string unit :=
  _ ← (if cursor ≠s "" then validateAPIID cursor "cursor" else Ok tt);
  fail_if (limit <? 0) || (MaxListLimit <? limit) with "page limit is out of bounds" ;; Ok tt.

Record HandoffGetRequestV1 := { hg_SchemaVersion : string; hg_TeamID : string; hg_HandoffID : string }.
Record HandoffGetResponseV1 := {
  hgr_SchemaVersion : string; hgr_Handoff : HandoffArtifactV1; hgr_Binding : option HandoffBindingV1 }.
Record HandoffListRequestV1 := {
  hl_SchemaVersion : string; hl_TeamID : string; hl_Cursor : string; hl_Limit : Z }.
Record HandoffListResponseV1 := {
  hlr_SchemaVersion : string; hlr_Items : list HandoffArtifactV1; hlr_NextCursor : string }.

Section handoff.
  Context {GR : GoRange} {SHA : Sha256}.

Definition ValidateHandoffCreateRequest (value : HandoffCreateRequestV1) : result string unit :=
  _ ← validateAPIVersion (hc_SchemaVersion value);
  _ ← validateAPIID (hc_HandoffID value) "handoffId";
  _ ← validateAPIID (hc_TeamID value) "teamId";
  fail_if hc_ExpectedStateVersion value =? 0 with "expectedStateVersion must be positive" ;;
  fail_if (trim_space (hc_Goal value) =s "") || (hc_Goal value ≠s trim_space (hc_Goal value))
    with "handoff goal is required without surrounding whitespace" ;;
  _ ← validateBounded (hc_Goal value) MaxMessageBytes "handoff goal";
  _ ← each_valid (fun '(name, values) => each_valid (fun item => validateBounded item MaxMessageBytes name) values)
        (go_range "ValidateHandoffCreateRequest"
          (list_to_map [("decisions", hc_Decisions value); ("constraints", hc_Constraints value);
           ("openQuestions", hc_OpenQuestions value); ("acceptanceExpectations", hc_AcceptanceExpectations value)]
           : gmap string (list string)));
  let selected := hc_SelectedMessageIDs value in
  fail_if (len_slice selected =? 0) || (MaxHandoffSelectedMessages <? len_slice selected)
    with "selected message count is out of bounds" ;;
  _ ← range_loop (fun seen id =>
        _ ← validateAPIID id "selected message";
        fail_if seen_in id seen with "selected message IDs must be unique" ;;
        Ok ({[id]} ∪ seen)) ∅ selected;
  fail_if MaxHandoffBytes <? len (json_create_request value) with "handoff request exceeds bytes" ;;
  Ok tt.

Definition ValidateHandoffGetRequest (value : HandoffGetRequestV1) : result string unit :=
  _ ← validateAPIVersion (hg_SchemaVersion value);
  _ ← validateAPIID (hg_TeamID value) "teamId";
  validateAPIID (hg_HandoffID value) "handoffId".
Definition ValidateHandoffListRequest (value : HandoffListRequestV1) : result string unit :=
  _ ← validateAPIVersion (hl_SchemaVersion value);
  _ ← validateAPIID (hl_TeamID value) "teamId";
  validatePage (hl_Cursor value) (hl_Limit value).
Definition ValidateHandoffBindRunRequest (value : HandoffBindRunRequestV1) : result string unit :=
  _ ← validateAPIVersion (br_SchemaVersion value);
  _ ← fields_valid "ValidateHandoffBindRunRequest" validateAPIID
        [("actionId", br_ActionID value); ("teamId", br_TeamID value); ("handoffId", br_HandoffID value);
         ("runId", br_RunID value)];
  fail_if br_ExpectedStateVersion value =? 0 with "expectedStateVersion must be positive" ;; Ok tt.

(** ** Sources and hashes *)

Definition Get (teamID : string) : team_io TeamSessionV1 := ReadTeamSnapshot teamID.

Definition by_id (messages : list TeamMessageV1) : gmap string TeamMessageV1 :=
  fold_left (fun byID message => <[tm_MessageID message := message]> byID) messages ∅.
Definition selectedMessageHashes (messages : list TeamMessageV1) (selected : list string) : result TeamError (list string) :=
  range_loop (fun hashes id =>
      match by_id messages !! id with
      | None => Err (TeamFile FileNotExist)
      | Some message =>
          fail_if tm_ContentHash message ≠s hashBytes (tm_Content message) with ErrConflict ;;
          Ok (hashes ++ [tm_ContentHash message])
      end) [] selected.
Definition selectedMessageHashesLocked (teamID : string) (selected : list string) : team_io (list string) :=
  messages ← ReadTeamMessages teamID;
  checked id (selectedMessageHashes messages selected).

Definition handoffContentHash (artifact : HandoffArtifactV1) : string := hashBytes (json_handoff_hash_input artifact).
Definition validateHandoffContentHash (artifact : HandoffArtifactV1) : result TeamError unit :=
  fail_if ha_ContentHash artifact ≠s handoffContentHash artifact with ErrConflict ;; Ok tt.

Fixpoint same_hashes (hashes recorded : list string) : result TeamError unit :=
  match hashes, recorded with
  | [], _ => Ok tt
  | _ :: _, [] => Err TeamPanic
  | hash :: hashes, want :: recorded => fail_if hash ≠s want with ErrConflict ;; same_hashes hashes recorded
  end.
Definition validateHandoffSourcesLocked (artifact : HandoffArtifactV1) : team_io unit :=
  _ ← checked id (validateHandoffContentHash artifact);
  hashes ← selectedMessageHashesLocked (ha_TeamID artifact) (ha_SelectedMessageIDs artifact);
  checked id (same_hashes hashes (ha_SourceMessageHashes artifact)).

Definition handoff_summary (eventType handoffID runID : string) : string :=
  if eventType =s EventHandoffBound then "handoff " +:+ handoffID +:+ " bound to Run " +:+ runID
  else "handoff " +:+ handoffID +:+ " created".
Definition announces (eventType summary : string) (event : TeamEventV1) : bool :=
  (te_Type event =s eventType) && (te_Summary event =s summary).
Definition appendHandoffEventLocked (now : Z) (teamID : string) (stateVersion : Z) (eventType handoffID runID : string)
    : team_io unit :=
  events ← ReadTeamEvents teamID;
  let summary := handoff_summary eventType handoffID runID in
  if existsb (announces eventType summary) events then mret tt
  else AppendTeamEvent {|
    te_SchemaVersion := SchemaVersion; te_TeamID := teamID; te_Sequence := len_slice events + 1; te_Type := eventType;
    te_StateVersion := stateVersion; te_MessageID := ""; te_TurnID := ""; te_Summary := summary; te_CreatedAt := now |}.

(** sameProject, where paths are not compared without case *)
Definition sameProject (left right : string) : bool := clean left =s clean right.

(** ** Creation *)

(** The intent of a request that is made for the first time *)
Definition plan_handoff (now : Z) (request : HandoffCreateRequestV1) (requestHash : string) : team_io handoffCreateIntentV1 :=
  snapshot ← Get (hc_TeamID request);
  if negb (ts_StateVersion snapshot =? hc_ExpectedStateVersion request) then refuse ErrConflict else
  existing ← attempt (ReadTeamHandoff (hc_TeamID request) (hc_HandoffID request));
  _ ← match existing with
      | Ok _ => refuse ErrConflict
      | Err (TeamFile FileNotExist) => mret tt
      | Err e => refuse e
      end;
  hashes ← selectedMessageHashesLocked (hc_TeamID request) (hc_SelectedMessageIDs request);
  let artifact hash := {|
    ha_SchemaVersion := SchemaVersion; ha_HandoffID := hc_HandoffID request; ha_TeamID := hc_TeamID request;
    ha_SourceTeamVersion := ts_StateVersion snapshot; ha_Goal := hc_Goal request; ha_Decisions := hc_Decisions request;
    ha_Constraints := hc_Constraints request; ha_OpenQuestions := hc_OpenQuestions request;
    ha_AcceptanceExpectations := hc_AcceptanceExpectations request;
    ha_SelectedMessageIDs := hc_SelectedMessageIDs request; ha_SourceMessageHashes := hashes; ha_ContentHash := hash;
    ha_CreatedAt := now |} in
  let artifact := artifact (handoffContentHash (artifact "")) in
  _ ← checked TeamInvalid (ValidateHandoff artifact);
  count ← TeamMutationIntentCount (hc_TeamID request);
  if MaxMutationReceipts <=? count then refuse ErrQuotaExceeded else
  let intent := {|
    hi_SchemaVersion := SchemaVersion; hi_RequestHash := requestHash; hi_Request := request; hi_Artifact := artifact;
    hi_Response := None |} in
  _ ← WriteTeamHandoffIntent (hc_TeamID request) (hc_HandoffID request) intent;
  mret intent.

(** What follows the intent, for the first time or again *)
Definition complete_handoff (now : Z) (request : HandoffCreateRequestV1) (intent : handoffCreateIntentV1) (existingIntent : bool)
    : team_io HandoffCreateResponseV1 :=
  let artifact := hi_Artifact intent in
  _ ← validateHandoffSourcesLocked artifact;
  _ ← WriteTeamHandoff artifact;
  _ ← appendHandoffEventLocked now (ha_TeamID artifact) (ha_SourceTeamVersion artifact) EventHandoffCreated
        (ha_HandoffID artifact) "";
  let response replayed := {| hcr_SchemaVersion := SchemaVersion; hcr_Handoff := artifact; hcr_Replayed := replayed |} in
  _ ← WriteTeamHandoffIntent (hc_TeamID request) (hc_HandoffID request) {|
        hi_SchemaVersion := hi_SchemaVersion intent; hi_RequestHash := hi_RequestHash intent;
        hi_Request := hi_Request intent; hi_Artifact := artifact; hi_Response := Some (response false) |};
  mret (response existingIntent).

Definition HandoffCreate (now : Z) (request : HandoffCreateRequestV1) : team_io HandoffCreateResponseV1 :=
  _ ← checked TeamInvalid (ValidateHandoffCreateRequest request);
  let requestHash := hashBytes (json_create_request request) in
  stored ← attempt (ReadTeamHandoffIntent (hc_TeamID request) (hc_HandoffID request));
  match stored with
  | Ok intent =>
      if (hi_SchemaVersion intent ≠s SchemaVersion) || (hi_RequestHash intent ≠s requestHash) then refuse ErrConflict else
      match hi_Response intent with
      | Some response => mret {|
          hcr_SchemaVersion := hcr_SchemaVersion response; hcr_Handoff := hcr_Handoff response; hcr_Replayed := true |}
      | None => complete_handoff now request intent true
      end
  | Err (TeamFile FileNotExist) =>
      intent ← plan_handoff now request requestHash;
      complete_handoff now request intent false
  | Err e => refuse e
  end.

(** ** Reading *)

Definition HandoffGet (request : HandoffGetRequestV1) : team_io HandoffGetResponseV1 :=
  let teamID := hg_TeamID request in
  _ ← checked TeamInvalid (ValidateHandoffGetRequest request);
  _ ← Get teamID;
  artifact ← ReadTeamHandoff teamID (hg_HandoffID request);
  _ ← checked id (validateHandoffContentHash artifact);
  binding ← attempt (ReadTeamBinding teamID (hg_HandoffID request));
  match binding with
  | Ok binding => mret {| hgr_SchemaVersion := SchemaVersion; hgr_Handoff := artifact; hgr_Binding := Some binding |}
  | Err (TeamFile FileNotExist) =>
      mret {| hgr_SchemaVersion := SchemaVersion; hgr_Handoff := artifact; hgr_Binding := None |}
  | Err e => refuse e
  end.

(** The loop of HandoffList *)
Fixpoint list_handoffs (teamID cursor : string) (limit : Z) (items : list HandoffArtifactV1) (ids : list string)
    : team_io (list HandoffArtifactV1 * string) :=
  match ids with
  | [] => mret (items, "")
  | id :: ids =>
      if (cursor ≠s "") && String.leb id cursor then list_handoffs teamID cursor limit items ids
      else if len_slice items =? limit then
        mret (items, match last items with Some item => ha_HandoffID item | None => "" end)
      else
        artifact ← ReadTeamHandoff teamID id;
        _ ← checked Datatypes.id (validateHandoffContentHash artifact);
        list_handoffs teamID cursor limit (items ++ [artifact]) ids
  end.
Definition HandoffList (request : HandoffListRequestV1) : team_io HandoffListResponseV1 :=
  _ ← checked TeamInvalid (ValidateHandoffListRequest request);
  _ ← Get (hl_TeamID request);
  ids ← ListTeamHandoffIDs (hl_TeamID request);
  let limit := if hl_Limit request =? 0 then DefaultListLimit else hl_Limit request in
  '(items, next) ← list_handoffs (hl_TeamID request) (hl_Cursor request) limit [] ids;
  mret {| hlr_SchemaVersion := SchemaVersion; hlr_Items := items; hlr_NextCursor := next |}.

(** ** Binding to a run *)

(** RunLookup: the project of a run; [None] for the whole is "not configured" *)
Definition RunLookup : Type := option (string -> option string).

Definition plan_binding (lookup : RunLookup) (now : Z) (request : HandoffBindRunRequestV1) (requestHash : string)
    : team_io handoffBindingIntentV1 :=
  let teamID := br_TeamID request in
  snapshot ← Get teamID;
  if negb (ts_StateVersion snapshot =? br_ExpectedStateVersion request) then refuse ErrConflict else
  artifact ← ReadTeamHandoff teamID (br_HandoffID request);
  _ ← checked id (validateHandoffContentHash artifact);
  match lookup with
  | None => refuse ErrCapabilityUnavailable
  | Some lookup =>
      match lookup (br_RunID request) with
      | None => refuse ErrRunLookup
      | Some runProject =>
          if negb (sameProject (ts_Project snapshot) runProject) then refuse ErrConflict else
          existing ← attempt (ReadTeamBinding teamID (br_HandoffID request));
          binding ← match existing with
                    | Ok existing =>
                        if (hb_RunID existing ≠s br_RunID request) ||
                           negb (sameProject (hb_Project existing) (ts_Project snapshot))
                        then refuse ErrConflict else mret existing
                    | Err (TeamFile FileNotExist) => mret {|
                        hb_TeamID := teamID; hb_HandoffID := br_HandoffID request; hb_RunID := br_RunID request;
                        hb_Project := ts_Project snapshot; hb_BoundAt := now |}
                    | Err e => refuse e
                    end;
          count ← TeamMutationIntentCount teamID;
          if MaxMutationReceipts <=? count then refuse ErrQuotaExceeded else
          let intent := {|
            bi_SchemaVersion := SchemaVersion; bi_RequestHash := requestHash; bi_Request := request;
            bi_Binding := binding; bi_Response := None |} in
          _ ← WriteTeamBindingIntent teamID (br_ActionID request) intent;
          mret intent
      end
  end.

Definition complete_binding (now : Z) (request : HandoffBindRunRequestV1) (intent : handoffBindingIntentV1) (existingIntent : bool)
    : team_io HandoffBindRunResponseV1 :=
  let binding := bi_Binding intent in
  written ← attempt (WriteTeamBinding binding);
  _ ← match written with
      | Ok _ => mret tt
      | Err TeamDifferentBinding => refuse ErrConflict
      | Err e => refuse e
      end;
  _ ← appendHandoffEventLocked now (br_TeamID request) (br_ExpectedStateVersion request) EventHandoffBound
        (br_HandoffID request) (br_RunID request);
  let response replayed := {| brr_SchemaVersion := SchemaVersion; brr_Binding := binding; brr_Replayed := replayed |} in
  _ ← WriteTeamBindingIntent (br_TeamID request) (br_ActionID request) {|
        bi_SchemaVersion := bi_SchemaVersion intent; bi_RequestHash := bi_RequestHash intent;
        bi_Request := bi_Request intent; bi_Binding := binding; bi_Response := Some (response false) |};
  mret (response existingIntent).

Definition HandoffBindRun (lookup : RunLookup) (now : Z) (request : HandoffBindRunRequestV1)
    : team_io HandoffBindRunResponseV1 :=
  _ ← checked TeamInvalid (ValidateHandoffBindRunRequest request);
  let requestHash := hashBytes (json_bind_request request) in
  stored ← attempt (ReadTeamBindingIntent (br_TeamID request) (br_ActionID request));
  match stored with
  | Ok intent =>
      if (bi_SchemaVersion intent ≠s SchemaVersion) || (bi_RequestHash intent ≠s requestHash) then refuse ErrConflict else
      match bi_Response intent with
      | Some response => mret {|
          brr_SchemaVersion := brr_SchemaVersion response; brr_Binding := brr_Binding response; brr_Replayed := true |}
      | None => complete_binding now request intent true
      end
  | Err (TeamFile FileNotExist) =>
      intent ← plan_binding lookup now request requestHash;
      complete_binding now request intent false
  | Err e => refuse e
  end.

(** ** Recovery (public.go)

    What Recover does about the handoffs of one team before it turns to the
    team's actions and turns: every intent without a response is completed, and
    the first error ends the recovery. *)
Fixpoint for_each {A} (body : A -> team_io unit) (xs : list A) : team_io unit :=
  match xs with [] => mret tt | x :: xs => _ ← body x; for_each body xs end.
Definition recover_handoffs (lookup : RunLookup) (now : Z) (teamID : string) : team_io TeamSessionV1 :=
  snapshot ← Get teamID;
  handoffIntents ← ListTeamHandoffIntents teamID;
  _ ← for_each (fun intent =>
        match hi_Response intent with
        | Some _ => mret tt
        | None => _ ← HandoffCreate now (hi_Request intent); mret tt
        end) handoffIntents;
  bindingIntents ← ListTeamBindingIntents teamID;
  _ ← for_each (fun intent =>
        match bi_Response intent with
        | Some _ => mret tt
        | None => _ ← HandoffBindRun lookup now (bi_Request intent); mret tt
        end) bindingIntents;
  mret snapshot.
End handoff.

(** * A team to evaluate

    Two participants, one retained message, and requests to hand it off.  The
    digest is a checksum in place of SHA-256. *)

Fixpoint hex_text (digits : nat) (n : N) : list ascii :=
  match digits with O => [] | S k => hex_text k (n / 16)%N ++ [hex_digit (n mod 16)%N] end.
Definition checksum (s : string) : N :=
  let l := to_list s in
  fold_left (fun h c => N.land (h * 31 + N_of_ascii c) 65535)%N (drop (length l - 64) l) (N.of_nat (length l)).

Lemma hex_digit_hex n : (n < 16)%N -> hex_char (hex_digit n) = true.
Proof.
  intros Hn. assert (forallb (fun k => hex_char (hex_digit (N.of_nat k))) (List.seq 0 16) = true) as Hall by by vm_compute.
  rewrite forallb_forall in Hall. specialize (Hall (N.to_nat n)). rewrite N2Nat.id in Hall.
  apply Hall, List.in_seq. lia.
Qed.

Lemma hex_text_hex k n : length (hex_text k n) = k /\ forallb hex_char (hex_text k n) = true.
Proof.
  revert n. induction k as [|k IH]; intros n; [done|]. destruct (IH (n / 16)%N) as [Hlen Hhex]. cbn [hex_text].
  rewrite length_app, forallb_app, Hhex, Hlen. cbn. rewrite hex_digit_hex; [|apply N.mod_lt; lia]. split; [lia|done].
Qed.

Lemma hex_text_lower k n : map lower_char (hex_text k n) = hex_text k n.
Proof.
  revert n. induction k as [|k IH]; intros n; [done|]. cbn [hex_text]. rewrite map_app, IH. cbn [map]. do 2 f_equal.
  assert (forallb (fun k => Ascii.eqb (lower_char (hex_digit (N.of_nat k))) (hex_digit (N.of_nat k))) (List.seq 0 16) = true) as Hall by by vm_compute.
  rewrite forallb_forall in Hall. assert (n mod 16 < 16)%N as Hn by by apply N.mod_lt. revert Hn. generalize (n mod 16)%N. clear n IH. intros n Hn.
  specialize (Hall (N.to_nat n)). rewrite N2Nat.id in Hall. apply Ascii.eqb_eq, Hall, List.in_seq. lia.
Qed.

Lemma length_of_list l : String.length (of_list l) = length l.
Proof. induction l as [|c l IH]; [done|]. cbn. by rewrite IH. Qed.

Definition demo_sha : Sha256.
Proof.
  refine {| hashBytes := fun s => of_list (hex_text 64 (checksum s)) |}; intros s.
  - unfold Context.validHash. destruct (hex_text_hex 64 (checksum s)) as [Hlen Hhex].
    rewrite to_of_list, Hhex, andb_true_r. apply Z.eqb_eq. unfold len.
    by rewrite length_of_list, Hlen.
  - unfold to_lower. by rewrite to_of_list, hex_text_lower.
Defined.
#[local] Existing Instance demo_sha.
#[local] Existing Instance canonical_range.

Definition demo_member (id model : string) : ParticipantV1 := {|
  pa_ParticipantID := id; pa_Label := id; pa_Role := "explorer"; pa_ModelID := model; pa_Driver := "codex";
  pa_Target := model; pa_State := ParticipantResponded; pa_CurrentTurnID := "" |}.
Definition demo_team : TeamSessionV1 := {|
  ts_SchemaVersion := SchemaVersion; ts_TeamID := "team-1"; ts_ClientRequestID := "start-1";
  ts_RequestHash := hashBytes "start"; ts_Project := "/work/app"; ts_Mode := ModePanel; ts_Topic := "storage";
  ts_Instructions := ""; ts_CatalogHash := hashBytes "catalog";
  ts_Participants := [demo_member "alice" "m1"; demo_member "bob" "m2"]; ts_State := LifecycleClosed; ts_StateVersion := 7;
  ts_CostGrant := 1000; ts_CostUsed := 20; ts_CloseReason := ClosePanelSettled; ts_CreatedAt := 10; ts_UpdatedAt := 20 |}.
Definition demo_message (sequence : Z) (id content : string) : TeamMessageV1 := {|
  tm_SchemaVersion := SchemaVersion; tm_MessageID := id; tm_TeamID := "team-1"; tm_Sequence := sequence;
  tm_Kind := MessageContribution; tm_Actor := "alice"; tm_Recipients := []; tm_TurnID := "turn-1"; tm_Content := content;
  tm_ReferencedMessageIDs := []; tm_CreatedAt := 15; tm_ContentHash := hashBytes content |}.
Definition demo_files : team_files := {|
  tf_snapshot := Some demo_team; tf_events := []; tf_messages := [demo_message 1 "m-1" "use one file per record"];
  tf_handoffs := ∅; tf_bindings := None; tf_create_intents := ∅; tf_bind_intents := ∅; tf_action_intents := ∅;
  tf_round := {| fr_participants := ∅; fr_turns := ∅; fr_executions := ∅ |} |}.

Definition demo_create (id goal : string) : HandoffCreateRequestV1 := {|
  hc_SchemaVersion := SchemaVersion; hc_HandoffID := id; hc_TeamID := "team-1"; hc_ExpectedStateVersion := 7;
  hc_Goal := goal; hc_Decisions := []; hc_Constraints := []; hc_OpenQuestions := [];
  hc_AcceptanceExpectations := []; hc_SelectedMessageIDs := ["m-1"] |}.
Definition demo_bind (action handoff run : string) : HandoffBindRunRequestV1 := {|
  br_SchemaVersion := SchemaVersion; br_ActionID := action; br_TeamID := "team-1"; br_HandoffID := handoff;
  br_RunID := run; br_ExpectedStateVersion := 7 |}.
Definition demo_lookup : RunLookup := Some (fun run => Some "/work/app").

Example creation_works :
  match HandoffCreate 30 (demo_create "h1" "build the store") demo_files [] with
  | Returned r d _ => negb (hcr_Replayed r) && (len_slice (tf_events d) =? 1)
  | _ => false
  end = true.
Proof. vm_compute. reflexivity. Qed.
