(* ===== verification/TeamRounds.v ===== *)
(** * The rounds of a panel

    internal/team/service.go and public.go for a team in panel mode: every
    participant gets one turn, which an external driver runs.  The service's
    mutex makes what it holds critical sections: each is a function here, with
    the time at which it runs.  Between them the code waits for the driver; the
    goroutines of a process are [task]s, and the steps of a [system] interleave
    their sections, the driver's replies, and crashes.

    One process works on the files of a team.  Session mode is not modelled, so
    that a team is in panel mode here.  [catalogs] are the catalogs that the service knows by their hash and
    [registered] the drivers.  DecodeStrict is encoding/json with unknown fields
    refused: it gives a contribution or the text of an error. *)

From S2P Require Import Prelude GoText Json Routing Resolver Catalog Workflow Validate Files Context.
From S2P Require Import TeamContract TeamStore TeamTurns Handoff.
#[local] Open Scope string_scope.
#[local] Open Scope list_scope.
#[local] Open Scope Z_scope.

(** ** Diagnostics, events *)

Definition newlines : string := of_list (bytes [10; 10]%N).

(** The longest valid beginning, byte by byte from the end *)
Fixpoint drop_invalid (n : nat) (l : list ascii) : list ascii :=
  match n with
  | O => l
  | S n => if valid_utf8 (of_list l) then l else drop_invalid n (removelast l)
  end.
Definition boundedDiagnostic (value : string) : string :=
  let data := to_list value in
  if MaxWarningBytes <? len value then
    let data := take (Z.to_nat MaxWarningBytes) data in of_list (drop_invalid (length data) data)
  else value.

Definition same_event (eventType messageID turnID : string) (event : TeamEventV1) : bool :=
  (te_Type event =s eventType) && (te_TurnID event =s turnID) && (te_MessageID event =s messageID).

(** ** Changing a snapshot, a participant, a turn *)

Definition session_with (s : TeamSessionV1) (participants : list ParticipantV1) (state : string) (version : Z)
    (reason : string) (updated : Z) : TeamSessionV1 := {|
  ts_SchemaVersion := ts_SchemaVersion s; ts_TeamID := ts_TeamID s; ts_ClientRequestID := ts_ClientRequestID s;
  ts_RequestHash := ts_RequestHash s; ts_Project := ts_Project s; ts_Mode := ts_Mode s; ts_Topic := ts_Topic s;
  ts_Instructions := ts_Instructions s; ts_CatalogHash := ts_CatalogHash s; ts_Participants := participants;
  ts_State := state; ts_StateVersion := wrap_uint64 version; ts_CostGrant := ts_CostGrant s; ts_CostUsed := ts_CostUsed s;
  ts_CloseReason := reason; ts_CreatedAt := ts_CreatedAt s; ts_UpdatedAt := updated |}.
Definition participant_with (state turnID : string) (p : ParticipantV1) : ParticipantV1 := {|
  pa_ParticipantID := pa_ParticipantID p; pa_Label := pa_Label p; pa_Role := pa_Role p; pa_ModelID := pa_ModelID p;
  pa_Driver := pa_Driver p; pa_Target := pa_Target p; pa_State := state; pa_CurrentTurnID := turnID |}.
Definition turn_with (t : ParticipantTurnV1) (state message diagnostic : string) (updated : Z) (completed : option Z)
    : ParticipantTurnV1 := {|
  pt_SchemaVersion := pt_SchemaVersion t; pt_TeamID := pt_TeamID t; pt_ParticipantID := pt_ParticipantID t;
  pt_TurnID := pt_TurnID t; pt_Number := pt_Number t; pt_State := state; pt_Driver := pt_Driver t; pt_Target := pt_Target t;
  pt_ModelID := pt_ModelID t; pt_Usage := pt_Usage t; pt_ExecutionHandle := pt_ExecutionHandle t;
  pt_ContributionMessage := message; pt_Diagnostic := diagnostic; pt_CreatedAt := pt_CreatedAt t; pt_UpdatedAt := updated;
  pt_CompletedAt := completed |}.
Definition in_state (t : ParticipantTurnV1) (state : string) (now : Z) : ParticipantTurnV1 :=
  turn_with t state (pt_ContributionMessage t) (pt_Diagnostic t) now (pt_CompletedAt t).

Definition unsettled (p : ParticipantV1) : bool := (pa_State p =s ParticipantPending) || (pa_State p =s ParticipantRunning).
Definition settleTerminalRound (s : TeamSessionV1) (allTerminal : bool) : TeamSessionV1 * bool * string :=
  let become state reason := session_with s (ts_Participants s) state (ts_StateVersion s) reason (ts_UpdatedAt s) in
  if negb allTerminal then (s, false, "")
  else if ts_Mode s =s ModePanel then (become LifecycleClosed ClosePanelSettled, true, "panel settled")
  else if ts_State s =s LifecycleClosing then (s, false, "")
  else if ts_State s ≠s LifecycleCancelling then (become LifecycleOpen "", false, "")
  else (s, false, "").

Section rounds.
  Context {GR : GoRange} {SHA : Sha256}.
  Context (catalogs : gmap string CapabilityCatalogV1) (registered : string -> bool) (DecodeStrict : string -> result string ContributionV1).

Definition appendTeamEventLocked (now : Z) (snapshot : TeamSessionV1) (eventType summary messageID turnID : string) : team_io unit :=
  events ← ReadTeamEvents (ts_TeamID snapshot);
  if existsb (same_event eventType messageID turnID) events then mret tt else
  AppendTeamEvent {|
    te_SchemaVersion := SchemaVersion; te_TeamID := ts_TeamID snapshot; te_Sequence := wrap_uint64 (len_slice events + 1);
    te_Type := eventType; te_StateVersion := ts_StateVersion snapshot; te_MessageID := messageID; te_TurnID := turnID;
    te_Summary := boundedDiagnostic summary; te_CreatedAt := now |}.
Definition appendTeamEventLockedFromTurn (now : Z) (teamID : string) (turn : ParticipantTurnV1) (eventType summary : string)
    : team_io unit :=
  snapshot ← ReadTeamSnapshot teamID;
  appendTeamEventLocked now snapshot eventType summary (pt_ContributionMessage turn) (pt_TurnID turn).

(** The loop over the participants that changes and writes one of them *)
Fixpoint update_participants (teamID participantID : string) (change : ParticipantV1 -> ParticipantV1)
    (participants : list ParticipantV1) : team_io (list ParticipantV1) :=
  match participants with
  | [] => mret []
  | p :: participants =>
      p ← (if pa_ParticipantID p =s participantID then _ ← WriteTeamParticipant (change p) teamID; mret (change p) else mret p);
      rest ← update_participants teamID participantID change participants;
      mret (p :: rest)
  end.

(** What follows the write of a turn that has ended: its participant, the
    snapshot, the events *)
Definition settle_turn (now : Z) (teamID : string) (turn : ParticipantTurnV1) (change : ParticipantV1 -> ParticipantV1)
    (summary : string) : team_io unit :=
  snapshot ← ReadTeamSnapshot teamID;
  participants ← update_participants teamID (pt_ParticipantID turn) change (ts_Participants snapshot);
  let snapshot := session_with snapshot participants (ts_State snapshot) (ts_StateVersion snapshot + 1) (ts_CloseReason snapshot) now in
  let '(snapshot, closed, closeSummary) := settleTerminalRound snapshot (negb (existsb unsettled participants)) in
  _ ← WriteTeamSnapshot snapshot;
  _ ← appendTeamEventLockedFromTurn now teamID turn EventParticipantEvent summary;
  if closed then appendTeamEventLocked now snapshot EventTeamClosed closeSummary "" "" else mret tt.

(** ** Preparing the turns *)

Definition first_turn (now : Z) (snapshot : TeamSessionV1) (p : ParticipantV1) (cost cumulative : Z) : ParticipantTurnV1 := {|
  pt_SchemaVersion := SchemaVersion; pt_TeamID := ts_TeamID snapshot; pt_ParticipantID := pa_ParticipantID p;
  pt_TurnID := "turn-" +:+ pa_ParticipantID p +:+ "-1"; pt_Number := 1; pt_State := TurnPrepared; pt_Driver := pa_Driver p;
  pt_Target := pa_Target p; pt_ModelID := pa_ModelID p;
  pt_Usage := {| tu_Target := pa_Target p; tu_CatalogHash := ts_CatalogHash snapshot; tu_CostUnits := cost;
                 tu_CumulativeCostUnits := cumulative; tu_TokenEstimate := None |};
  pt_ExecutionHandle := ""; pt_ContributionMessage := ""; pt_Diagnostic := ""; pt_CreatedAt := now; pt_UpdatedAt := now;
  pt_CompletedAt := None |}.

Definition CostUnitsForTarget (catalog : CapabilityCatalogV1) (target : Target) : result TeamError Z :=
  _ ← rmap_err (fun _ => TeamInvalid "invalid catalog") (ValidateCatalog catalog);
  match List.find (fun model => bool_decide (mc_Target model = target)) (cat_Models catalog) with
  | Some model => Ok (costUnits (mc_Cost model))
  | None => Err (TeamInvalid "routing target is absent from the trusted catalog")
  end.
Definition model_of (catalog : CapabilityCatalogV1) (modelID : string) : option ModelCapabilityV1 :=
  List.find (fun model => mc_ID model =s modelID) (cat_Models catalog).

(** The loop of prepareInitialTurnsLocked: the participants, and whether one has
    changed; [snapshot] is the one that was read. *)
Fixpoint prepare_turns (now : Z) (snapshot : TeamSessionV1) (catalog : CapabilityCatalogV1) (cumulative : Z)
    (participants : list ParticipantV1) : team_io (list ParticipantV1 * bool) :=
  match participants with
  | [] => mret ([], false)
  | p :: participants =>
      if pa_CurrentTurnID p ≠s "" then
        existing ← ReadTeamTurn (ts_TeamID snapshot) (pa_CurrentTurnID p);
        '(rest, changed) ← prepare_turns now snapshot catalog (tu_CumulativeCostUnits (pt_Usage existing)) participants;
        mret (p :: rest, changed)
      else
        match model_of catalog (pa_ModelID p) with
        | None => refuse (TeamInvalid "participant model is absent from trusted catalog")
        | Some model =>
            cost ← checked id (CostUnitsForTarget catalog (mc_Target model));
            let turn := first_turn now snapshot p cost (cumulative + cost) in
            _ ← WriteTeamTurn turn;
            let p := participant_with ParticipantRunning (pt_TurnID turn) p in
            _ ← WriteTeamParticipant p (ts_TeamID snapshot);
            _ ← appendTeamEventLocked now snapshot EventParticipantPrepared "turn prepared" "" (pt_TurnID turn);
            '(rest, _) ← prepare_turns now snapshot catalog (cumulative + cost) participants;
            mret (p :: rest, true)
        end
  end.
Definition prepareInitialTurnsLocked (now : Z) (teamID : string) : team_io unit :=
  snapshot ← ReadTeamSnapshot teamID;
  if ts_State snapshot =s LifecycleClosed then mret tt else
  match catalogs !! ts_CatalogHash snapshot with
  | None => refuse (TeamInvalid "Team Catalog is unavailable for recovery")
  | Some catalog =>
      '(participants, changed) ← prepare_turns now snapshot catalog 0 (ts_Participants snapshot);
      if negb changed then mret tt else
      WriteTeamSnapshot (session_with snapshot participants LifecycleRunning (ts_StateVersion snapshot + 1) (ts_CloseReason snapshot) now)
  end.

(** What Start does with a snapshot that is there: the participants' files are
    written again, and the first event if there is none.  InitTeam makes the
    directories. *)
Fixpoint write_participants (teamID : string) (participants : list ParticipantV1) : team_io unit :=
  match participants with
  | [] => mret tt
  | p :: participants => _ ← WriteTeamParticipant p teamID; write_participants teamID participants
  end.
Definition repairPreparedTeamLocked (snapshot : TeamSessionV1) : team_io unit :=
  _ ← touch;
  _ ← write_participants (ts_TeamID snapshot) (ts_Participants snapshot);
  events ← ReadTeamEvents (ts_TeamID snapshot);
  match events with
  | [] => AppendTeamEvent {|
      te_SchemaVersion := SchemaVersion; te_TeamID := ts_TeamID snapshot; te_Sequence := 1; te_Type := EventTeamCreated;
      te_StateVersion := ts_StateVersion snapshot; te_MessageID := ""; te_TurnID := ""; te_Summary := "team prepared";
      te_CreatedAt := ts_CreatedAt snapshot |}
  | event :: _ => if te_Type event ≠s EventTeamCreated then refuse (TeamInvalid "invalid creation journal") else mret tt
  end.

(** ** Running a turn *)

Definition live_turn (t : ParticipantTurnV1) : bool := contains_string [TurnPrepared; TurnDispatching; TurnActive] (pt_State t).

Definition markTurnFailureLocked (now : Z) (teamID turnID state diagnostic : string) : team_io unit :=
  current ← ReadTeamTurn teamID turnID;
  if negb (live_turn current) then mret tt else
  let turn := turn_with current state (pt_ContributionMessage current) (boundedDiagnostic diagnostic) now (pt_CompletedAt current) in
  _ ← WriteTeamTurn turn;
  let failed := if state =s TurnCancelled then ParticipantCancelled
                else if state =s TurnIndeterminate then ParticipantIndeterminate else ParticipantFailed in
  settle_turn now teamID turn (fun p => participant_with failed (pa_CurrentTurnID p) p) (pt_Diagnostic turn).
(** Its callers ignore its error and report their own. *)
Definition fail_turn {A} (now : Z) (teamID turnID state diagnostic : string) (ending : team_io A) : team_io A :=
  _ ← attempt (markTurnFailureLocked now teamID turnID state diagnostic); ending.

(** The goroutines: one that is about to dispatch a turn, one that is about to
    call the driver, one that waits for what Start returns, one that has a
    handle to record, one that has a failure to record, one that observes an
    execution, one that has a contribution to commit, and one that must cancel an
    execution that came too late. *)
Inductive task :=
| TaskDispatch (turnID : string)
| TaskStart (turn : ParticipantTurnV1)
| TaskStarting (turn : ParticipantTurnV1) (request : StartRequest)
| TaskRecord (turn : ParticipantTurnV1) (handle : ExecutionHandle)
| TaskFail (turn : ParticipantTurnV1) (state diagnostic : string)
| TaskObserve (turn : ParticipantTurnV1) (handle : ExecutionHandle)
| TaskCommit (turn : ParticipantTurnV1) (output : string)
| TaskCancelLate (handle : ExecutionHandle).

(** dispatchTurn up to where it gives up the mutex, and the first read after it *)
Definition dispatchTurn (now : Z) (teamID turnID : string) : team_io (list task) :=
  turn ← ReadTeamTurn teamID turnID;
  if negb (registered (pt_Driver turn)) then
    fail_turn now teamID turnID TurnFailed "exploration driver is unavailable" (refuse ErrCapabilityUnavailable)
  else if pt_State turn =s TurnActive then
    handle ← attempt (ReadTeamExecution teamID turnID);
    match handle with
    | Err e => fail_turn now teamID turnID TurnIndeterminate "active turn handle is unavailable" (refuse e)
    | Ok handle => mret [TaskObserve turn handle]
    end
  else if pt_State turn =s TurnDispatching then
    fail_turn now teamID turnID TurnIndeterminate "dispatching turn has no confirmed execution handle" (mret [])
  else if pt_State turn ≠s TurnPrepared then mret []
  else
    let turn := in_state turn TurnDispatching now in
    _ ← WriteTeamTurn turn;
    _ ← appendTeamEventLockedFromTurn now teamID turn EventParticipantEvent "turn dispatching";
    mret [TaskStart turn].

Definition turnPrompt (teamID participantID : string) : team_io string :=
  snapshot ← attempt (Get teamID);
  match snapshot with
  | Err _ => mret ""
  | Ok snapshot =>
      match List.find (fun p => pa_ParticipantID p =s participantID) (ts_Participants snapshot) with
      | Some p => mret (ts_Topic snapshot +:+ newlines +:+ ts_Instructions snapshot +:+ newlines +:+ "Role: " +:+ pa_Role p)
      | None => mret (ts_Topic snapshot)
      end
  end.
(** The request of a turn: the workspace is read from the snapshot. *)
Definition start_request (teamID : string) (turn : ParticipantTurnV1) : team_io StartRequest :=
  prompt ← turnPrompt teamID (pt_ParticipantID turn);
  snapshot ← Get teamID;
  let request := {|
    st_ProtocolVersion := ProtocolVersion;
    st_Identity := {| id_TeamID := teamID; id_ParticipantID := pt_ParticipantID turn; id_TurnID := pt_TurnID turn |};
    st_Workspace := ts_Project snapshot; st_Target := pt_Target turn; st_ModelID := pt_ModelID turn; st_Prompt := prompt;
    st_Sandbox := SandboxReadOnly; st_MaxBytes := MaxMessageBytes |} in
  _ ← checked TeamInvalid (ValidateStartRequest request);
  mret request.

(** What Start returns: an error's text, or perhaps a handle *)
Definition on_start (turn : ParticipantTurnV1) (reply : result string (option ExecutionHandle)) : list task :=
  match reply with
  | Err text => [TaskFail turn TurnFailed (boundedDiagnostic text)]
  | Ok None => [TaskFail turn TurnIndeterminate "driver returned an invalid execution handle"]
  | Ok (Some handle) =>
      if eh_Driver handle ≠s pt_Driver turn then [TaskFail turn TurnIndeterminate "driver returned an invalid execution handle"]
      else match ValidateExecutionHandle handle with
           | Err text => [TaskFail turn TurnIndeterminate (boundedDiagnostic text)]
           | Ok _ => [TaskRecord turn handle]
           end
  end.

(** The section that records the handle of a started execution *)
Definition record_handle (now : Z) (teamID turnID : string) (handle : ExecutionHandle) : team_io (list task) :=
  current ← ReadTeamTurn teamID turnID;
  _ ← WriteTeamExecution teamID turnID handle;
  if pt_State current ≠s TurnDispatching then mret [TaskCancelLate handle] else
  let turn := in_state current TurnActive now in
  _ ← WriteTeamTurn turn;
  _ ← appendTeamEventLockedFromTurn now teamID turn EventParticipantActive "turn active";
  mret [TaskObserve turn handle].

(** One round of observeTurn: what Observe and, at the end, Output return *)
Definition on_observe (turn : ParticipantTurnV1) (handle : ExecutionHandle) (reply : result string (option Observation))
    (output : result string string) : list task :=
  match reply with
  | Err text => [TaskFail turn TurnIndeterminate (boundedDiagnostic text)]
  | Ok None => [TaskFail turn TurnIndeterminate "driver returned no observation"]
  | Ok (Some observation) =>
      match ValidateObservation observation with
      | Err text => [TaskFail turn TurnIndeterminate (boundedDiagnostic text)]
      | Ok _ =>
          if ob_State observation =s ObservationActive then [TaskObserve turn handle]
          else if ob_State observation =s ObservationLost then [TaskFail turn TurnIndeterminate (ob_Diagnostic observation)]
          else match output with
               | Err text => [TaskFail turn TurnFailed (boundedDiagnostic text)]
               | Ok output => [TaskCommit turn output]
               end
      end
  end.

(** commitContribution: what the output is, and the section that commits it *)
Definition contribution_of (output : string) : result string ContributionV1 :=
  contribution ← DecodeStrict output;
  _ ← ValidateContribution contribution;
  Ok contribution.
Definition commit_locked (now : Z) (teamID turnID : string) (contribution : ContributionV1) : team_io unit :=
  current ← ReadTeamTurn teamID turnID;
  if pt_State current ≠s TurnActive then mret tt else
  messages ← ReadTeamMessages teamID;
  let canonical := json_contribution contribution in
  messageID ← match List.find (fun message => tm_TurnID message =s pt_TurnID current) messages with
              | Some message => mret (tm_MessageID message)
              | None =>
                  let messageID := "message-" +:+ pt_TurnID current in
                  _ ← AppendTeamMessage {|
                        tm_SchemaVersion := SchemaVersion; tm_MessageID := messageID; tm_TeamID := teamID;
                        tm_Sequence := wrap_uint64 (len_slice messages + 1); tm_Kind := MessageContribution;
                        tm_Actor := pt_ParticipantID current; tm_Recipients := []; tm_TurnID := pt_TurnID current;
                        tm_Content := canonical; tm_ReferencedMessageIDs := []; tm_CreatedAt := now;
                        tm_ContentHash := hashBytes canonical |};
                  mret messageID
              end;
  let turn := turn_with current TurnResponded messageID (pt_Diagnostic current) now (Some now) in
  _ ← WriteTeamTurn turn;
  settle_turn now teamID turn (participant_with ParticipantResponded (pt_TurnID turn)) "turn responded".
Definition commitContribution (now : Z) (teamID turnID output : string) : team_io (list task) :=
  match contribution_of output with
  | Err text => fail_turn now teamID turnID TurnFailed (boundedDiagnostic text) (refuse (TeamInvalid text))
  | Ok contribution => _ ← commit_locked now teamID turnID contribution; mret []
  end.

(** What a goroutine does under the mutex (or, for the request, by reading), and
    how it goes on; the others wait for the driver. *)
Definition run_task (now : Z) (teamID : string) (t : task) : option (team_io (list task)) :=
  match t with
  | TaskDispatch turnID => Some (dispatchTurn now teamID turnID)
  | TaskStart turn => Some (request ← start_request teamID turn; mret [TaskStarting turn request])
  | TaskRecord turn handle => Some (record_handle now teamID (pt_TurnID turn) handle)
  | TaskFail turn state diagnostic => Some (fail_turn now teamID (pt_TurnID turn) state diagnostic (mret []))
  | TaskCommit turn output => Some (commitContribution now teamID (pt_TurnID turn) output)
  | TaskStarting _ _ | TaskObserve _ _ | TaskCancelLate _ => None
  end.

(** The section of DispatchInitial: the turns are prepared, then there is a
    goroutine for each. *)
Definition begin_round (now : Z) (teamID : string) : team_io (list task) :=
  _ ← prepareInitialTurnsLocked now teamID;
  turnIDs ← ListTeamTurnIDs teamID;
  mret (map TaskDispatch turnIDs).
End rounds.
