(* ===== verification/TeamCancel.v ===== *)
(** * Cancelling a panel, and what a caller reads of it

    internal/team/public.go for a team in panel mode: Action, which only cancels,
    and the readers GetView, Events and Messages with their requests of
    internal/teamcontract/api.go.

    An action stores an intent first.  Its first section marks the turns, then
    the executions are cancelled one by one, and its second section closes the
    team; between the sections other goroutines run. *)

From S2P Require Import Prelude GoText Json Routing Resolver Catalog Workflow Validate Files Context.
From S2P Require Import TeamContract TeamStore TeamTurns Handoff TeamRounds.
#[local] Open Scope string_scope.
#[local] Open Scope list_scope.
#[local] Open Scope Z_scope.

Definition MaxEventWaitMS := MaxBoundedWaitSeconds * 1000.

Record TeamEventsRequestV1 := {
  er_SchemaVersion : string; er_TeamID : string; er_AfterSequence : Z; er_Limit : Z; er_WaitMS : Z }.
Record TeamEventsResponseV1 := {
  err_SchemaVersion : string; err_TeamID : string; err_Events : list TeamEventV1; err_NextAfterSequence : Z; err_More : bool }.
Record TeamMessagesRequestV1 := {
  mr_SchemaVersion : string; mr_TeamID : string; mr_AfterSequence : Z; mr_Limit : Z }.
Record TeamMessagesResponseV1 := {
  mrr_SchemaVersion : string; mrr_TeamID : string; mrr_Messages : list TeamMessageV1; mrr_NextAfterSequence : Z; mrr_More : bool }.

Section cancel.
  Context {GR : GoRange} {SHA : Sha256} (registered : string -> bool).

Definition ValidateActionRequest (value : TeamActionV1) : result string unit :=
  _ ← ValidateAction value;
  _ ← validateAPIID (ta_ActionID value) "actionId";
  _ ← validateAPIID (ta_TeamID value) "teamId";
  _ ← match ta_FollowUp value with
      | None => Ok tt
      | Some follow =>
          _ ← each_valid (fun id => validateAPIID id "participantId") (fu_ParticipantIDs follow);
          each_valid (fun id => validateAPIID id "messageId") (fu_ReferencedMessageIDs follow)
      end;
  match ta_CancelTurn value with Some cancel => validateAPIID (ct_TurnID cancel) "turnId" | None => Ok tt end.

Definition cancel_response (action : TeamActionV1) (snapshot : TeamSessionV1) : TeamActionResponseV1 := {|
  ar_SchemaVersion := SchemaVersion; ar_ActionID := ta_ActionID action; ar_TeamID := ta_TeamID action; ar_Type := ta_Type action;
  ar_StateVersion := ts_StateVersion snapshot; ar_State := ts_State snapshot; ar_Replayed := false |}.
Definition answered (intent : actionIntentV1) (response : TeamActionResponseV1) : actionIntentV1 := {|
  an_SchemaVersion := an_SchemaVersion intent; an_RequestHash := an_RequestHash intent; an_Action := an_Action intent;
  an_Response := Some response |}.
Definition replayed (response : TeamActionResponseV1) : TeamActionResponseV1 := {|
  ar_SchemaVersion := ar_SchemaVersion response; ar_ActionID := ar_ActionID response; ar_TeamID := ar_TeamID response;
  ar_Type := ar_Type response; ar_StateVersion := ar_StateVersion response; ar_State := ar_State response; ar_Replayed := true |}.

(** The intent of an action: the one that is stored, or a new one *)
Definition stored_intent (action : TeamActionV1) (hash : string) : team_io (option actionIntentV1) :=
  existing ← attempt (ReadTeamActionIntent (ta_TeamID action) (ta_ActionID action));
  match existing with
  | Ok existing => if an_RequestHash existing ≠s hash then refuse ErrConflict else mret (Some existing)
  | Err (TeamFile FileNotExist) => mret None
  | Err e => refuse e
  end.
Definition new_intent (action : TeamActionV1) (hash : string) (snapshot : TeamSessionV1) : team_io actionIntentV1 :=
  if negb (ts_StateVersion snapshot =? ta_ExpectedStateVersion action) then refuse ErrConflict else
  if (ts_State snapshot =s LifecycleClosed) && (ts_CloseReason snapshot ≠s CloseCancelled) then refuse ErrConflict else
  intentCount ← TeamMutationIntentCount (ta_TeamID action);
  if MaxMutationReceipts <=? intentCount then refuse ErrQuotaExceeded else
  let intent := {| an_SchemaVersion := SchemaVersion; an_RequestHash := hash; an_Action := action; an_Response := None |} in
  _ ← WriteTeamActionIntent (ta_TeamID action) (ta_ActionID action) intent;
  mret intent.

(** The loop over the turns: the participants as they become, and the
    executions that must be cancelled *)
Definition lost_handle (turn : ParticipantTurnV1) (e : TeamError) : bool :=
  (pt_State turn =s TurnCancelling) && match e with TeamFile FileNotExist => true | _ => false end.
Definition cancel_active (now : Z) (teamID : string) (turn : ParticipantTurnV1) : team_io (list ExecutionHandle) :=
  handle ← attempt (ReadTeamExecution teamID (pt_TurnID turn));
  match handle with
  | Err e => if lost_handle turn e then mret [] else refuse e
  | Ok handle =>
      if negb (registered (pt_Driver turn)) then refuse ErrCapabilityUnavailable else
      _ ← (if pt_State turn =s TurnActive then WriteTeamTurn (in_state turn TurnCancelling now) else mret tt);
      mret [handle]
  end.
Fixpoint cancel_turns (now : Z) (teamID : string) (ids : list string) (participants : list ParticipantV1)
    : team_io (list ParticipantV1 * list ExecutionHandle) :=
  match ids with
  | [] => mret (participants, [])
  | turnID :: ids =>
      turn ← ReadTeamTurn teamID turnID;
      let state := pt_State turn in
      '(participants, handles) ←
        (if (state =s TurnActive) || (state =s TurnCancelling) then
           handles ← cancel_active now teamID turn; mret (participants, handles)
         else if state =s TurnPrepared then
           _ ← WriteTeamTurn (in_state turn TurnCancelling now); mret (participants, [])
         else if state =s TurnDispatching then
           _ ← WriteTeamTurn (turn_with turn TurnIndeterminate (pt_ContributionMessage turn)
                 "dispatching turn has no confirmed execution handle" now (pt_CompletedAt turn));
           participants ← update_participants teamID (pt_ParticipantID turn)
             (fun p => participant_with ParticipantIndeterminate (pa_CurrentTurnID p) p) participants;
           mret (participants, [])
         else mret (participants, []));
      '(participants, rest) ← cancel_turns now teamID ids participants;
      mret (participants, handles ++ rest)
  end.

Inductive cancelling :=
| CancelAnswered (response : TeamActionResponseV1)
| CancelExecutions (intent : actionIntentV1) (turnIDs : list string) (handles : list ExecutionHandle).

Definition cancel_begin (now : Z) (action : TeamActionV1) : team_io cancelling :=
  _ ← checked TeamInvalid (ValidateActionRequest action);
  if ta_Type action ≠s ActionCancel then refuse ErrCapabilityUnavailable else
  let teamID := ta_TeamID action in
  let hash := hashBytes (json_action action) in
  existing ← stored_intent action hash;
  match (intent ← existing; an_Response intent) with
  | Some response => mret (CancelAnswered (replayed response))
  | None =>
      snapshot ← Get teamID;
      intent ← match existing with Some intent => mret intent | None => new_intent action hash snapshot end;
      if ts_State snapshot =s LifecycleClosed then
        if ts_CloseReason snapshot ≠s CloseCancelled then refuse ErrConflict else
        let response := cancel_response action snapshot in
        _ ← WriteTeamActionIntent teamID (ta_ActionID action) (answered intent response);
        mret (CancelAnswered response)
      else
        turnIDs ← ListTeamTurnIDs teamID;
        '(participants, handles) ← cancel_turns now teamID turnIDs (ts_Participants snapshot);
        _ ← (if ts_State snapshot ≠s LifecycleCancelling
             then WriteTeamSnapshot (session_with snapshot participants LifecycleCancelling (ts_StateVersion snapshot + 1) (ts_CloseReason snapshot) now)
             else mret tt);
        mret (CancelExecutions intent turnIDs handles)
  end.

(** Every execution must be confirmed to be cancelled. *)
Definition confirmed (reply : result string (option CancelResult)) : bool :=
  match reply with Ok (Some result) => cr_State result =s CancelConfirmed | _ => false end.

Fixpoint finish_turns (now : Z) (teamID : string) (ids : list string) : team_io unit :=
  match ids with
  | [] => mret tt
  | turnID :: ids =>
      turn ← ReadTeamTurn teamID turnID;
      _ ← (if pt_State turn =s TurnCancelling
           then WriteTeamTurn (turn_with turn TurnCancelled (pt_ContributionMessage turn) "cancelled by Team action" now (Some now))
           else mret tt);
      finish_turns now teamID ids
  end.
Fixpoint cancel_participants (teamID : string) (participants : list ParticipantV1) : team_io (list ParticipantV1) :=
  match participants with
  | [] => mret []
  | p :: participants =>
      let changed := if unsettled p then participant_with ParticipantCancelled (pa_CurrentTurnID p) p else p in
      _ ← (if unsettled p then WriteTeamParticipant changed teamID else mret tt);
      rest ← cancel_participants teamID participants;
      mret (changed :: rest)
  end.
Definition cancel_finish (now : Z) (action : TeamActionV1) (intent : actionIntentV1) (turnIDs : list string)
    : team_io TeamActionResponseV1 :=
  let teamID := ta_TeamID action in
  snapshot ← Get teamID;
  _ ← finish_turns now teamID turnIDs;
  participants ← cancel_participants teamID (ts_Participants snapshot);
  let snapshot := session_with snapshot participants LifecycleClosed (ts_StateVersion snapshot + 1) CloseCancelled now in
  _ ← WriteTeamSnapshot snapshot;
  _ ← appendTeamEventLocked now snapshot EventTeamCancelled "Team cancelled" "" "";
  let response := cancel_response action snapshot in
  _ ← WriteTeamActionIntent teamID (ta_ActionID action) (answered intent response);
  mret response.

(** ** Readers *)

(** pageEvents and pageMessages *)
Fixpoint page_after {V} (sequence : V -> Z) (after limit : Z) (page : list V) (values : list V) : list V * bool :=
  match values with
  | [] => (page, false)
  | value :: values =>
      if sequence value <=? after then page_after sequence after limit page values
      else if len_slice page =? limit then (page, true)
      else page_after sequence after limit (page ++ [value]) values
  end.
Definition next_after {V} (sequence : V -> Z) (after : Z) (page : list V) : Z :=
  match last page with Some value => sequence value | None => after end.

Definition ValidateEventsRequest (value : TeamEventsRequestV1) : result string unit :=
  _ ← validateAPIVersion (er_SchemaVersion value);
  _ ← validateAPIID (er_TeamID value) "teamId";
  fail_if (er_Limit value <? 0) || (MaxEventPageSize <? er_Limit value) with "event limit is out of bounds" ;;
  fail_if (er_WaitMS value <? 0) || (MaxEventWaitMS <? er_WaitMS value) with "event wait is out of bounds" ;;
  Ok tt.
Definition ValidateMessagesRequest (value : TeamMessagesRequestV1) : result string unit :=
  _ ← validateAPIVersion (mr_SchemaVersion value);
  _ ← validateAPIID (mr_TeamID value) "teamId";
  fail_if (mr_Limit value <? 0) || (MaxEventPageSize <? mr_Limit value) with "message limit is out of bounds" ;;
  Ok tt.
Definition page_limit (limit : Z) : Z := if limit =? 0 then DefaultListLimit else limit.

(** Events without a wait *)
Definition Events (request : TeamEventsRequestV1) : team_io TeamEventsResponseV1 :=
  _ ← checked TeamInvalid (ValidateEventsRequest request);
  _ ← Get (er_TeamID request);
  values ← ReadTeamEvents (er_TeamID request);
  let '(page, more) := page_after te_Sequence (er_AfterSequence request) (page_limit (er_Limit request)) [] values in
  mret {| err_SchemaVersion := SchemaVersion; err_TeamID := er_TeamID request; err_Events := page;
          err_NextAfterSequence := next_after te_Sequence (er_AfterSequence request) page; err_More := more |}.
Definition Messages (request : TeamMessagesRequestV1) : team_io TeamMessagesResponseV1 :=
  _ ← checked TeamInvalid (ValidateMessagesRequest request);
  _ ← Get (mr_TeamID request);
  values ← ReadTeamMessages (mr_TeamID request);
  let '(page, more) := page_after tm_Sequence (mr_AfterSequence request) (page_limit (mr_Limit request)) [] values in
  mret {| mrr_SchemaVersion := SchemaVersion; mrr_TeamID := mr_TeamID request; mrr_Messages := page;
          mrr_NextAfterSequence := next_after tm_Sequence (mr_AfterSequence request) page; mrr_More := more |}.

Fixpoint read_turns (teamID : string) (ids : list string) : team_io (list ParticipantTurnV1) :=
  match ids with
  | [] => mret []
  | id :: ids => turn ← ReadTeamTurn teamID id; rest ← read_turns teamID ids; mret (turn :: rest)
  end.
(** GetView of a valid request *)
Definition GetView (teamID : string) : team_io (TeamSessionV1 * list ParticipantTurnV1) :=
  snapshot ← Get teamID;
  ids ← ListTeamTurnIDs teamID;
  turns ← read_turns teamID ids;
  mret (snapshot, turns).
End cancel.
