(* ===== verification/TeamSystem.v ===== *)
(** * A panel at work

    The processes that work on the files of a panel, one after the other: the
    goroutines of the running one ([sy_tasks], [sy_cancels]) take turns at their
    critical sections, the driver answers them, the callers' requests arrive, any
    call can fail, and the process can die at any point and be started again.
    [sy_starts] lists every request that was ever given to the driver's Start. *)

From S2P Require Import Prelude GoText Json Routing Resolver Catalog Workflow Validate Files Context.
From S2P Require Import TeamContract TeamStore TeamTurns Handoff TeamRounds TeamCancel.
#[local] Open Scope string_scope.
#[local] Open Scope list_scope.
#[local] Open Scope Z_scope.

(** A cancellation between its two sections *)
Record cancel_task := { ck_action : TeamActionV1; ck_intent : actionIntentV1; ck_turnIDs : list string; ck_handles : list ExecutionHandle }.
Record system := { sy_files : team_files; sy_tasks : list task; sy_cancels : list cancel_task; sy_starts : list StartRequest }.

Definition calls_of (tasks : list task) : list StartRequest :=
  omap (fun t => match t with TaskStarting _ request => Some request | _ => None end) tasks.

(** The process dies, and with it its goroutines. *)
Definition crashed (y : system) (d : team_files) : system := {|
  sy_files := d; sy_tasks := []; sy_cancels := []; sy_starts := sy_starts y |}.
(** A section has run, and its goroutine goes on as the goroutines it returns. *)
Definition went_on (y : system) (tasks : list task) (cancels : list cancel_task) (o : io_end team_files TeamError (list task)) : system :=
  match o with
  | Returned more d _ => {| sy_files := d; sy_tasks := tasks ++ more; sy_cancels := cancels; sy_starts := sy_starts y ++ calls_of more |}
  | Raised _ d _ => {| sy_files := d; sy_tasks := tasks; sy_cancels := cancels; sy_starts := sy_starts y |}
  | Died d => crashed y d
  end.
Definition begun_cancel (y : system) (action : TeamActionV1) (o : io_end team_files TeamError cancelling) : system :=
  match o with
  | Returned (CancelExecutions intent ids handles) d _ => {|
      sy_files := d; sy_tasks := sy_tasks y; sy_starts := sy_starts y;
      sy_cancels := sy_cancels y ++
        [{| ck_action := action; ck_intent := intent; ck_turnIDs := ids; ck_handles := handles |}] |}
  | Returned (CancelAnswered _) d _ | Raised _ d _ => {|
      sy_files := d; sy_tasks := sy_tasks y; sy_cancels := sy_cancels y; sy_starts := sy_starts y |}
  | Died d => crashed y d
  end.

Section system.
  Context {GR : GoRange} {SHA : Sha256}.
  Context (catalogs : gmap string CapabilityCatalogV1) (registered : string -> bool) (DecodeStrict : string -> result string ContributionV1).
  Context (teamID : string).

Definition no_tasks {A} (m : team_io A) : team_io (list task) := _ ← m; mret [].

(** What a caller can ask for: to dispatch the team, as Begin and Recover do, to
    start it once more with the same request, to hand something off, to cancel *)
Inductive demand :=
| DemandRound
| DemandStart
| DemandHandoff (request : HandoffCreateRequestV1)
| DemandBind (lookup : RunLookup) (request : HandoffBindRunRequestV1).
Definition answer (now : Z) (a : demand) : team_io (list task) :=
  match a with
  | DemandRound => begin_round catalogs now teamID
  | DemandStart => no_tasks (snapshot ← ReadTeamSnapshot teamID; repairPreparedTeamLocked snapshot)
  | DemandHandoff request => no_tasks (HandoffCreate now request)
  | DemandBind lookup request => no_tasks (HandoffBindRun lookup now request)
  end.

(** The steps that no cancellation takes *)
Inductive work (y : system) : system -> Prop :=
| work_demand (now : Z) (a : demand) (fs : list fate) :
    work y (went_on y (sy_tasks y) (sy_cancels y) (answer now a (sy_files y) fs))
| work_section (now : Z) (before after : list task) (t : task) (m : team_io (list task)) (fs : list fate) :
    sy_tasks y = before ++ t :: after -> run_task registered DecodeStrict now teamID t = Some m ->
    work y (went_on y (before ++ after) (sy_cancels y) (m (sy_files y) fs))
| work_started (before after : list task) (turn : ParticipantTurnV1) (request : StartRequest) (reply : result string (option ExecutionHandle)) :
    sy_tasks y = before ++ TaskStarting turn request :: after ->
    work y (went_on y (before ++ after) (sy_cancels y) (Returned (on_start turn reply) (sy_files y) []))
| work_observed (before after : list task) (turn : ParticipantTurnV1) (handle : ExecutionHandle)
    (reply : result string (option Observation)) (output : result string string) :
    sy_tasks y = before ++ TaskObserve turn handle :: after ->
    work y (went_on y (before ++ after) (sy_cancels y) (Returned (on_observe turn handle reply output) (sy_files y) []))
(** a goroutine that stops waiting *)
| work_left (before after : list task) (t : task) :
    sy_tasks y = before ++ t :: after ->
    work y {| sy_files := sy_files y; sy_tasks := before ++ after; sy_cancels := sy_cancels y; sy_starts := sy_starts y |}
| work_crash : work y (crashed y (sy_files y)).

Inductive step (y : system) : system -> Prop :=
| step_work (y' : system) : work y y' -> step y y'
| step_cancel (now : Z) (action : TeamActionV1) (fs : list fate) :
    ta_TeamID action = teamID -> step y (begun_cancel y action (cancel_begin registered now action (sy_files y) fs))
| step_cancelled (now : Z) (before after : list cancel_task) (c : cancel_task) (replies : list (result string (option CancelResult)))
    (fs : list fate) :
    sy_cancels y = before ++ c :: after -> length replies = length (ck_handles c) -> forallb confirmed replies = true ->
    step y (went_on y (sy_tasks y) (before ++ after)
              (no_tasks (cancel_finish now (ck_action c) (ck_intent c) (ck_turnIDs c)) (sy_files y) fs))
| step_not_cancelled (before after : list cancel_task) (c : cancel_task) :
    sy_cancels y = before ++ c :: after ->
    step y {| sy_files := sy_files y; sy_tasks := sy_tasks y; sy_cancels := before ++ after; sy_starts := sy_starts y |}.

(** A panel as Start leaves it: there is its snapshot, and no turn yet
    (TeamStartTheory, [started_panel_is_new]). *)
Record new_panel (y : system) (s : TeamSessionV1) : Prop := {
  np_snapshot : tf_snapshot (sy_files y) = Some s;
  np_valid : ValidateTeamSession s = Ok tt;
  np_panel : ts_Mode s = ModePanel;
  np_created : ts_State s = LifecycleCreated;
  np_participants : Forall (fun p => pa_CurrentTurnID p = "" /\ pa_State p = ParticipantPending) (ts_Participants s);
  np_empty : tf_messages (sy_files y) = [] /\ turns_of (sy_files y) = ∅;
  np_idle : sy_tasks y = [] /\ sy_cancels y = [] /\ sy_starts y = [] }.

Inductive reachable : system -> Prop :=
| reachable_new (y : system) (s : TeamSessionV1) : new_panel y s -> reachable y
| reachable_step (y y' : system) : reachable y -> step y y' -> reachable y'.
End system.
