(* ===== verification/TeamStart.v ===== *)
(** * Starting, listing and recovering teams

    internal/team/service.go (Start, normalizeStart, participantCost,
    defaultParticipantModels) and public.go (Recover and List), over the directories of all
    teams.
    Every team here is a panel.

    The project has been made canonical (the file system's part) and the new id
    drawn before; the context of a request is not cancelled. *)

From S2P Require Import Prelude GoText Json Routing Resolver Catalog Workflow Validate Files Context.
From S2P Require Import TeamContract TeamStore TeamTurns Handoff TeamRounds TeamCancel.
#[local] Open Scope string_scope.
#[local] Open Scope list_scope.
#[local] Open Scope Z_scope.

(** ** The directories of the teams *)

Definition empty_team : team_files := {|
  tf_snapshot := None; tf_events := []; tf_messages := []; tf_handoffs := ∅; tf_bindings := None; tf_create_intents := ∅;
  tf_bind_intents := ∅; tf_action_intents := ∅; tf_round := {| fr_participants := ∅; fr_turns := ∅; fr_executions := ∅ |} |}.
Abbreviation teams := (gmap string team_files).
Abbreviation teams_io := (io teams TeamError).

(** [m] works on the files of one team, whose directory is there. *)
Definition at_team {A} (teamID : string) (m : team_io A) : teams_io A := fun ds fs =>
  let put d := match ds !! teamID with Some _ => <[teamID := d]> ds | None => ds end in
  match m (default empty_team (ds !! teamID)) fs with
  | Returned a d fs => Returned a (put d) fs
  | Raised e d fs => Raised e (put d) fs
  | Died d => Died (put d)
  end.

(** The first of the directories makes the team's, the others follow. *)
Definition InitTeam (teamID : string) : teams_io unit :=
  _ ← checked id (valid_id teamID);
  _ ← call (fun ds : teams => (Ok tt, match ds !! teamID with Some _ => ds | None => <[teamID := empty_team]> ds end));
  touch.
Definition ListTeamIDs : teams_io (list string) :=
  call (fun ds : teams => (Ok (sort_strings (base.filter (fun id => safe_id id = true) (map fst (map_to_list ds)))), ds)).

(** ** The request *)

Record TeamSummaryV1 := {
  sm_TeamID : string; sm_Project : string; sm_Mode : string; sm_Topic : string; sm_State : string; sm_StateVersion : Z;
  sm_CloseReason : string; sm_Participants : Z; sm_CostGrant : Z; sm_CostUsed : Z; sm_CreatedAt : string; sm_UpdatedAt : string }.
Record TeamListRequestV1 := { tl_SchemaVersion : string; tl_Project : string; tl_State : string; tl_Cursor : string; tl_Limit : Z }.
Record TeamListResponseV1 := { tlr_SchemaVersion : string; tlr_Items : list TeamSummaryV1; tlr_NextCursor : string }.
Record StartResult := { sres_Team : TeamSessionV1; sres_Replayed : bool }.

Definition json_spec (value : ParticipantSpecV1) : string :=
  json_object [("label", json_string (ps_Label value)); ("role", json_string (ps_Role value)); ("modelId", json_string (ps_ModelID value))].
Definition json_start_request (value : TeamStartRequestV1) : string :=
  json_object ([("schemaVersion", json_string (sr_SchemaVersion value)); ("clientRequestId", json_string (sr_ClientRequestID value));
     ("project", json_string (sr_Project value)); ("mode", json_string (sr_Mode value)); ("topic", json_string (sr_Topic value))] ++
    omit_string "instructions" (sr_Instructions value) ++
    match sr_Participants value with [] => [] | specs => [("participants", json_array (map json_spec specs))] end ++
    omit_int "costGrant" (sr_CostGrant value)).

(** defaultParticipantModels *)
Definition wanted_models : list string := ["codex/architect/gpt-5.6-sol"; "codex/reviewer/gpt-5.6-sol"].
Definition defaultParticipantModels (catalog : CapabilityCatalogV1) : list string :=
  let selected := List.filter (fun id => existsb (fun model => mc_ID model =s id) (cat_Models catalog)) wanted_models in
  if len_slice selected =? MinParticipants then selected
  else take (Z.to_nat MinParticipants) (map mc_ID (cat_Models catalog)).

Definition new_participant (index : nat) (spec : ParticipantSpecV1) (model : ModelCapabilityV1) : ParticipantV1 := {|
  pa_ParticipantID := "participant-" +:+ pretty (Z.of_nat index + 1); pa_Label := ps_Label spec; pa_Role := ps_Role spec;
  pa_ModelID := mc_ID model; pa_Driver := Driver (mc_Target model); pa_Target := Provider (mc_Target model);
  pa_State := ParticipantPending; pa_CurrentTurnID := "" |}.
(** The loop over the specs of the participants *)
Fixpoint resolve_specs (catalog : CapabilityCatalogV1) (index : nat) (seen : gset string) (specs : list ParticipantSpecV1)
    : result TeamError (list ParticipantV1) :=
  match specs with
  | [] => Ok []
  | spec :: specs =>
      match model_of catalog (ps_ModelID spec) with
      | None => Err (TeamInvalid "participant model is absent from trusted catalog")
      | Some model =>
          fail_if seen_in (mc_ID model) seen with TeamInvalid "participant model is duplicated" ;;
          rest ← resolve_specs catalog (S index) ({[mc_ID model]} ∪ seen) specs;
          Ok (new_participant index spec model :: rest)
      end
  end.

Definition with_specs (request : TeamStartRequestV1) (project : string) (grant : Z) (specs : list ParticipantSpecV1) : TeamStartRequestV1 := {|
  sr_SchemaVersion := sr_SchemaVersion request; sr_ClientRequestID := sr_ClientRequestID request; sr_Project := project;
  sr_Mode := sr_Mode request; sr_Topic := sr_Topic request; sr_Instructions := sr_Instructions request;
  sr_Participants := specs; sr_CostGrant := grant |}.

Section start.
  Context {GR : GoRange} {SHA : Sha256} {CD : CatalogDigest}.
  Context (catalog : CapabilityCatalogV1) (catalogs : gmap string CapabilityCatalogV1) (supportsSession : list ParticipantV1 -> bool).

(** The service's catalog is canonical; its hash is the key of a catalog of [catalogs]. *)
Definition normalizeStart (request : TeamStartRequestV1) (project : string)
    : result TeamError (TeamStartRequestV1 * list ParticipantV1 * string) :=
  let catalog := CanonicalCatalogV1 catalog in
  catalogHash ← rmap_err (fun _ => TeamInvalid "invalid catalog") (CatalogHash catalog);
  let grant := if sr_CostGrant request =? 0 then DefaultCostGrant else sr_CostGrant request in
  specs ← match sr_Participants request with
          | [] => match defaultParticipantModels catalog with
                  | first :: second :: _ =>
                      Ok [{| ps_Label := "architect"; ps_Role := "propose a coherent architecture and tradeoffs"; ps_ModelID := first |};
                          {| ps_Label := "reviewer"; ps_Role := "challenge assumptions and identify failure modes"; ps_ModelID := second |}]
                  | _ => Err ErrCapabilityUnavailable
                  end
          | specs => Ok specs
          end;
  participants ← resolve_specs catalog 0 ∅ specs;
  Ok (with_specs request project grant specs, participants, catalogHash).

(** Every model of the id counts; the ids of a catalog are distinct. *)
Definition participantCost (participants : list ParticipantV1) (catalogHash : string) : Z :=
  match catalogs !! catalogHash with
  | None => MaxCostGrant + 1
  | Some catalog =>
      let models := flat_map (fun p => List.filter (fun model => mc_ID model =s pa_ModelID p) (cat_Models catalog)) participants in
      match range_loop (fun total model => cost ← CostUnitsForTarget catalog (mc_Target model); Ok (wrap_int64 (total + cost))) 0 models with
      | Ok total => total
      | Err _ => MaxCostGrant + 1
      end
  end.

Definition prepared_team (now : Z) (teamID requestHash catalogHash : string) (normalized : TeamStartRequestV1)
    (participants : list ParticipantV1) : TeamSessionV1 := {|
  ts_SchemaVersion := SchemaVersion; ts_TeamID := teamID; ts_ClientRequestID := sr_ClientRequestID normalized;
  ts_RequestHash := requestHash; ts_Project := sr_Project normalized; ts_Mode := sr_Mode normalized; ts_Topic := sr_Topic normalized;
  ts_Instructions := sr_Instructions normalized; ts_CatalogHash := catalogHash; ts_Participants := participants;
  ts_State := LifecycleCreated; ts_StateVersion := 1; ts_CostGrant := sr_CostGrant normalized;
  ts_CostUsed := participantCost participants catalogHash; ts_CloseReason := ""; ts_CreatedAt := now; ts_UpdatedAt := now |}.

Definition EnsureTeamSnapshot (snapshot : TeamSessionV1) : team_io unit :=
  _ ← checked TeamInvalid (ValidateTeamSession snapshot);
  ensureJSON tf_snapshot put_snapshot json_session snapshot.

(** The team of the client's request, if there is one *)
Fixpoint find_started (clientRequestID requestHash : string) (ids : list string) : teams_io (option TeamSessionV1) :=
  match ids with
  | [] => mret None
  | teamID :: ids =>
      existing ← at_team teamID (ReadTeamSnapshot teamID);
      if ts_ClientRequestID existing ≠s clientRequestID then find_started clientRequestID requestHash ids
      else if ts_RequestHash existing ≠s requestHash then refuse ErrConflict
      else mret (Some existing)
  end.

(** The end of Start *)
Definition create_team (snapshot : TeamSessionV1) : teams_io StartResult :=
  let teamID := ts_TeamID snapshot in
  if ts_CostGrant snapshot <? ts_CostUsed snapshot then refuse ErrQuotaExceeded else
  _ ← InitTeam teamID;
  _ ← at_team teamID (EnsureTeamSnapshot snapshot);
  _ ← at_team teamID (repairPreparedTeamLocked snapshot);
  mret {| sres_Team := snapshot; sres_Replayed := false |}.

(** [newID] is what newID draws *)
Definition Start (now : Z) (newID : string) (project : result string string) (request : TeamStartRequestV1) : teams_io StartResult :=
  _ ← checked TeamInvalid (TeamContract.ValidateStartRequest request);
  project ← checked TeamInvalid project;
  '(normalized, participants, catalogHash) ← checked id (normalizeStart request project);
  if (sr_Mode request =s ModeSession) && negb (supportsSession participants) then refuse ErrCapabilityUnavailable else
  let requestHash := hashBytes (json_start_request normalized) in
  ids ← ListTeamIDs;
  existing ← find_started (sr_ClientRequestID request) requestHash ids;
  match existing with
  | Some existing =>
      _ ← at_team (ts_TeamID existing) (repairPreparedTeamLocked existing);
      mret {| sres_Team := existing; sres_Replayed := true |}
  | None =>
      create_team (prepared_team now newID requestHash catalogHash normalized participants)
  end.

(** ** Listing and recovering *)

Definition ValidateListRequest (value : TeamListRequestV1) : result string unit :=
  _ ← validateAPIVersion (tl_SchemaVersion value);
  fail_if (tl_Project value ≠s "") && ((tl_Project value ≠s trim_space (tl_Project value)) || (MaxProjectBytes <? len (tl_Project value)))
    with "project filter is invalid" ;;
  fail_if (tl_State value ≠s "") && negb (validLifecycle (tl_State value)) with "unsupported team lifecycle" ;;
  validatePage (tl_Cursor value) (tl_Limit value).

Definition summary_of (s : TeamSessionV1) : TeamSummaryV1 := {|
  sm_TeamID := ts_TeamID s; sm_Project := ts_Project s; sm_Mode := ts_Mode s; sm_Topic := ts_Topic s; sm_State := ts_State s;
  sm_StateVersion := ts_StateVersion s; sm_CloseReason := ts_CloseReason s; sm_Participants := len_slice (ts_Participants s);
  sm_CostGrant := ts_CostGrant s; sm_CostUsed := ts_CostUsed s; sm_CreatedAt := rfc3339 (ts_CreatedAt s);
  sm_UpdatedAt := rfc3339 (ts_UpdatedAt s) |}.
(** The loop of List: the items so far, and the next cursor *)
Fixpoint list_teams (request : TeamListRequestV1) (limit : Z) (items : list TeamSummaryV1) (ids : list string)
    : teams_io (list TeamSummaryV1 * string) :=
  match ids with
  | [] => mret (items, "")
  | id :: ids =>
      if (tl_Cursor request ≠s "") && String.leb id (tl_Cursor request) then list_teams request limit items ids else
      snapshot ← at_team id (Get id);
      if (tl_Project request ≠s "") && (ts_Project snapshot ≠s tl_Project request) then list_teams request limit items ids
      else if (tl_State request ≠s "") && (ts_State snapshot ≠s tl_State request) then list_teams request limit items ids
      else if len_slice items =? limit then
        match last items with Some item => mret (items, sm_TeamID item) | None => refuse TeamPanic end
      else list_teams request limit (items ++ [summary_of snapshot]) ids
  end.
Definition ListTeams (request : TeamListRequestV1) : teams_io TeamListResponseV1 :=
  _ ← checked TeamInvalid (ValidateListRequest request);
  ids ← ListTeamIDs;
  let limit := if tl_Limit request =? 0 then DefaultListLimit else tl_Limit request in
  '(items, next) ← list_teams request limit [] ids;
  mret {| tlr_SchemaVersion := SchemaVersion; tlr_Items := items; tlr_NextCursor := next |}.

(** What Recover goes on with in goroutines of its own.  When it fails the process
    that called it ends, whatever it had begun. *)
Inductive recovery := RecoverAction (action : TeamActionV1) | RecoverDispatch (teamID : string).

Definition open_cancels (intents : list actionIntentV1) : list recovery :=
  omap (fun intent => match an_Response intent with
                      | None => if ta_Type (an_Action intent) =s ActionCancel then Some (RecoverAction (an_Action intent)) else None
                      | Some _ => None
                      end) intents.
Definition recover_team (lookup : RunLookup) (now : Z) (teamID : string) : team_io (list recovery) :=
  snapshot ← recover_handoffs lookup now teamID;
  intents ← ListTeamActionIntents teamID;
  match open_cancels intents with
  | [] => if contains_string [LifecycleCreated; LifecycleRunning; LifecycleClosing] (ts_State snapshot)
          then mret [RecoverDispatch teamID] else mret []
  | actions => mret actions
  end.
Fixpoint recover_teams (lookup : RunLookup) (now : Z) (ids : list string) : teams_io (list recovery) :=
  match ids with
  | [] => mret []
  | teamID :: ids =>
      some ← at_team teamID (recover_team lookup now teamID);
      rest ← recover_teams lookup now ids;
      mret (some ++ rest)
  end.
Definition Recover (lookup : RunLookup) (now : Z) : teams_io (list recovery) :=
  ids ← ListTeamIDs;
  recover_teams lookup now ids.
End start.
