(* ===== verification/TeamSteps.v ===== *)
(** * What a section can do to the files of a panel

    Every critical section of TeamRounds and TeamCancel, whatever fails in it,
    is a sequence of a few changes to the snapshot, the turns and the messages
    of a team ([round_steps]), between changes to other files.  An invariant of
    panels is proved for those changes. *)

From S2P Require Import Prelude GoText Json JsonTree Routing Resolver Catalog Workflow Validate Files Context.
From S2P Require Import TeamContract TeamStore TeamTurns Handoff TeamRounds TeamCancel TeamSystem HandoffTheory.
#[local] Open Scope string_scope.
#[local] Open Scope list_scope.
#[local] Open Scope Z_scope.

(** The snapshot, the turns and the messages are the same. *)
Definition same_core (d d' : team_files) : Prop :=
  tf_snapshot d' = tf_snapshot d /\ turns_of d' = turns_of d /\ tf_messages d' = tf_messages d.
#[export] Instance same_core_preorder : PreOrder same_core.
Proof. split; [by intros d|]. intros d1 d2 d3 (? & ? & ?) (? & ? & ?). split_and!; congruence. Qed.

Definition closed_at (s : TeamSessionV1) : Prop := ts_State s = LifecycleClosed.

(** How a participant changes when the turns are prepared and when one is settled *)
Definition prepares (p p' : ParticipantV1) : Prop :=
  p' = if pa_CurrentTurnID p =s "" then participant_with ParticipantRunning ("turn-" +:+ pa_ParticipantID p +:+ "-1") p else p.
Definition settled_states : list string := [ParticipantResponded; ParticipantFailed; ParticipantCancelled; ParticipantIndeterminate].
Definition settling (t : ParticipantTurnV1) (change : ParticipantV1 -> ParticipantV1) : Prop :=
  exists state, state ∈ settled_states /\ forall p, exists cur, change p = participant_with state cur p /\ cur ∈ [pa_CurrentTurnID p; pt_TurnID t].
Definition change_one (participantID : string) (change : ParticipantV1 -> ParticipantV1) (p : ParticipantV1) : ParticipantV1 :=
  if pa_ParticipantID p =s participantID then change p else p.
Definition settled_snapshot (now : Z) (t : ParticipantTurnV1) (change : ParticipantV1 -> ParticipantV1) (s : TeamSessionV1) : TeamSessionV1 :=
  let participants := map (change_one (pt_ParticipantID t) change) (ts_Participants s) in
  (settleTerminalRound (session_with s participants (ts_State s) (ts_StateVersion s + 1) (ts_CloseReason s) now)
     (negb (existsb unsettled participants))).1.1.

(** The states a turn goes through.  [t] becomes [state] with the message [message]. *)
Definition ended_states : list string := [TurnResponded; TurnFailed; TurnCancelled; TurnIndeterminate].
Definition failed_states : list string := [TurnFailed; TurnCancelled; TurnIndeterminate].
Inductive turn_moves (messages : list TeamMessageV1) (t : ParticipantTurnV1) : string -> string -> Prop :=
| turn_dispatching : pt_State t = TurnPrepared -> turn_moves messages t TurnDispatching (pt_ContributionMessage t)
| turn_active : pt_State t = TurnDispatching -> turn_moves messages t TurnActive (pt_ContributionMessage t)
| turn_fails state : live_turn t = true -> state ∈ failed_states -> turn_moves messages t state (pt_ContributionMessage t)
| turn_cancelling : live_turn t = true -> turn_moves messages t TurnCancelling (pt_ContributionMessage t)
| turn_cancelled : pt_State t = TurnCancelling -> turn_moves messages t TurnCancelled (pt_ContributionMessage t)
| turn_responded m : pt_State t = TurnActive -> m ∈ messages -> tm_TurnID m = pt_TurnID t ->
    turn_moves messages t TurnResponded (tm_MessageID m).

Lemma settled_snapshot_mode now t change s : ts_Mode (settled_snapshot now t change s) = ts_Mode s.
Proof. unfold settled_snapshot, settleTerminalRound. by repeat case_match. Qed.
Lemma settled_snapshot_participants now t change s :
  ts_Participants (settled_snapshot now t change s) = map (change_one (pt_ParticipantID t) change) (ts_Participants s).
Proof. unfold settled_snapshot, settleTerminalRound. by repeat case_match. Qed.
Lemma settled_snapshot_state now t change s : ts_Mode s = ModePanel ->
  ts_State (settled_snapshot now t change s) =
  if existsb unsettled (map (change_one (pt_ParticipantID t) change) (ts_Participants s)) then ts_State s else LifecycleClosed.
Proof. intros Hm. unfold settled_snapshot, settleTerminalRound. cbn. rewrite Hm. by destruct (existsb _ _). Qed.

Section steps.
  Context {GR : GoRange} {SHA : Sha256}.

Definition contribution_message (now : Z) (teamID : string) (t : ParticipantTurnV1) (count : Z) (c : ContributionV1) : TeamMessageV1 := {|
  tm_SchemaVersion := SchemaVersion; tm_MessageID := "message-" +:+ pt_TurnID t; tm_TeamID := teamID;
  tm_Sequence := wrap_uint64 (count + 1); tm_Kind := MessageContribution; tm_Actor := pt_ParticipantID t; tm_Recipients := [];
  tm_TurnID := pt_TurnID t; tm_Content := json_contribution c; tm_ReferencedMessageIDs := []; tm_CreatedAt := now;
  tm_ContentHash := hashBytes (json_contribution c) |}.

Definition turn_at (d : team_files) (t : ParticipantTurnV1) : Prop := turns_of d !! pt_TurnID t = Some t /\ pt_TurnID t <> "".
Definition snapshot_at (d : team_files) (s : TeamSessionV1) : Prop := tf_snapshot d = Some s /\ ValidateTeamSession s = Ok tt.

(** The changes that keep the snapshot.  A turn's end and the snapshot that says
    so are two changes: [rs_settled] goes from before the first to after the second. *)
Record turn_steps (R : team_files -> team_files -> Prop) : Prop := {
  rs_same : forall d d', same_core d d' -> R d d';
  rs_turn : forall d t state message diagnostic now completed, turn_at d t -> turn_moves (tf_messages d) t state message ->
    R d (put_turn (turn_with t state message diagnostic now completed) d) }.
Record round_steps (teamID : string) (R : team_files -> team_files -> Prop) : Prop := {
  rs_turns :> turn_steps R;
  rs_first : forall d s p now cost cumulative, snapshot_at d s -> ~ closed_at s -> p ∈ ts_Participants s -> pa_CurrentTurnID p = "" ->
    R d (put_turn (first_turn now s p cost cumulative) d);
  rs_prepared : forall d s ps now, snapshot_at d s -> ~ closed_at s -> Forall2 prepares (ts_Participants s) ps ->
    Exists (fun p => pa_CurrentTurnID p = "") (ts_Participants s) ->
    R d (put_snapshot (session_with s ps LifecycleRunning (ts_StateVersion s + 1) (ts_CloseReason s) now) d);
  rs_settled : forall d d' s t state message diagnostic now now' completed change, snapshot_at d s -> turn_at d t ->
    turn_moves (tf_messages d) t state message -> state ∈ ended_states -> settling t change ->
    same_core (put_turn (turn_with t state message diagnostic now completed) d) d' ->
    R d (put_snapshot (settled_snapshot now' (turn_with t state message diagnostic now completed) change s) d');
  rs_message : forall d t count c now, turn_at d t -> pt_State t = TurnActive -> ValidateContribution c = Ok tt ->
    (forall m, m ∈ tf_messages d -> tm_TurnID m <> pt_TurnID t) ->
    R d (put_message (contribution_message now teamID t count c) d) }.
Record cancel_steps (R : team_files -> team_files -> Prop) : Prop := {
  ks_turns :> turn_steps R;
  ks_cancelling : forall d s ps now, snapshot_at d s -> ~ closed_at s ->
    Forall2 (fun p p' => p' = p \/ p' = participant_with ParticipantIndeterminate (pa_CurrentTurnID p) p) (ts_Participants s) ps ->
    R d (put_snapshot (session_with s ps LifecycleCancelling (ts_StateVersion s + 1) (ts_CloseReason s) now) d);
  ks_cancelled : forall d s ps now, snapshot_at d s ->
    Forall2 (fun p p' => p' = if unsettled p then participant_with ParticipantCancelled (pa_CurrentTurnID p) p else p) (ts_Participants s) ps ->
    R d (put_snapshot (session_with s ps LifecycleClosed (ts_StateVersion s + 1) CloseCancelled now) d) }.

(** ** Readers *)

Lemma leaves_ReadTeamSnapshot teamID d : leaves d (ReadTeamSnapshot teamID).
Proof. unfold ReadTeamSnapshot, readTeamContractJSON. io_leaves. apply leaves_readLimit. Qed.
Lemma leaves_ReadTeamTurn teamID turnID d : leaves d (ReadTeamTurn teamID turnID).
Proof. unfold ReadTeamTurn, readTeamContractJSON. io_leaves. apply leaves_readLimit. Qed.
Lemma leaves_ReadTeamEvents teamID d : leaves d (ReadTeamEvents teamID).
Proof. apply leaves_readTeamLog. Qed.
Lemma leaves_ReadTeamMessages teamID d : leaves d (ReadTeamMessages teamID).
Proof. apply leaves_readTeamLog. Qed.
Lemma leaves_ListTeamTurnIDs teamID d : leaves d (ListTeamTurnIDs teamID).
Proof. unfold ListTeamTurnIDs. io_leaves. Qed.
Lemma leaves_ReadTeamExecution teamID turnID d : leaves d (ReadTeamExecution teamID turnID).
Proof. unfold ReadTeamExecution. io_leaves. apply leaves_open. Qed.
Lemma leaves_ReadTeamActionIntent teamID id d : leaves d (ReadTeamActionIntent teamID id).
Proof. unfold ReadTeamActionIntent, readTeamContractJSON. io_leaves. apply leaves_readLimit. Qed.

Lemma ReadTeamSnapshot_returned teamID d fs s d' fs' :
  ReadTeamSnapshot teamID d fs = Returned s d' fs' -> d' = d /\ snapshot_at d s /\ ts_TeamID s = teamID.
Proof.
  intros H. pose proof (leaves_returned _ _ _ _ _ _ (leaves_ReadTeamSnapshot teamID d) H) as ->. split; [done|].
  unfold ReadTeamSnapshot, readTeamContractJSON in H. io_cases.
  match goal with H : readTeamContractJSONLimit _ _ _ _ _ = _ |- _ => apply readLimit_returned in H as (_ & Hs & _) end.
  bool_props. split; [split; [done|by destruct (ValidateTeamSession s) as [[]|]]|done].
Qed.
Lemma ReadTeamTurn_returned teamID turnID d fs t d' fs' :
  ReadTeamTurn teamID turnID d fs = Returned t d' fs' -> d' = d /\ turn_at d t /\ pt_TurnID t = turnID.
Proof.
  intros H. pose proof (leaves_returned _ _ _ _ _ _ (leaves_ReadTeamTurn teamID turnID d) H) as ->. split; [done|].
  unfold ReadTeamTurn, readTeamContractJSON in H. io_cases.
  match goal with H : readTeamContractJSONLimit _ _ _ _ _ = _ |- _ => apply readLimit_returned in H as (_ & Hs & _) end.
  bool_props. unfold turn_at. subst. split_and!; [done| |done].
  match goal with H : valid_id (pt_TurnID t) = _ |- _ => rename H into Hid end.
  intros Hempty. by rewrite Hempty in Hid.
Qed.
Lemma Get_returned teamID d fs s d' fs' :
  Get teamID d fs = Returned s d' fs' -> d' = d /\ snapshot_at d s /\ ts_TeamID s = teamID.
Proof. apply ReadTeamSnapshot_returned. Qed.

(** ** Writers that change none of the three *)

Lemma moves_weaken {A} (R R' : team_files -> team_files -> Prop) d (m : team_io A) :
  (forall d d', R d d' -> R' d d') -> moves R d m -> moves R' d m.
Proof. intros HR Hm fs. apply HR, Hm. Qed.
Lemma moves_attempt {A} (R : team_files -> team_files -> Prop) d (m : team_io A) : moves R d m -> moves R d (attempt m).
Proof. intros Hm fs. specialize (Hm fs). unfold attempt. by destruct (m d fs). Qed.

Lemma WriteTeamParticipant_moves p teamID d : moves same_core d (WriteTeamParticipant p teamID).
Proof.
  unfold WriteTeamParticipant. do 2 (apply moves_checked; [apply _|]; intros _ _). by apply moves_write_team; [apply _|].
Qed.
Lemma WriteTeamExecution_moves teamID turnID handle d : moves same_core d (WriteTeamExecution teamID turnID handle).
Proof.
  unfold WriteTeamExecution. do 2 (apply moves_checked; [apply _|]; intros _ _).
  case_match; [apply moves_leaves; [apply _|auto with files]|by apply moves_write_team; [apply _|]].
Qed.
Lemma WriteTeamActionIntent_moves teamID id intent d : moves same_core d (WriteTeamActionIntent teamID id intent).
Proof.
  unfold WriteTeamActionIntent. do 2 (apply moves_checked; [apply _|]; intros _ _). by apply moves_write_team; [apply _|].
Qed.
Lemma AppendTeamEvent_moves e d : moves same_core d (AppendTeamEvent e).
Proof. unfold AppendTeamEvent. apply moves_checked; [apply _|]. intros _ _. by apply appendTeamRecord_moves; [apply _|]. Qed.
Lemma appendTeamEventLocked_moves now s eventType summary messageID turnID d :
  moves same_core d (appendTeamEventLocked now s eventType summary messageID turnID).
Proof.
  unfold appendTeamEventLocked. apply moves_reads; [apply _|apply leaves_ReadTeamEvents|]. intros events _ _ _.
  case_match; [apply moves_leaves; [apply _|auto with files]|apply AppendTeamEvent_moves].
Qed.
Lemma appendTeamEventLockedFromTurn_moves now teamID t eventType summary d :
  moves same_core d (appendTeamEventLockedFromTurn now teamID t eventType summary).
Proof.
  unfold appendTeamEventLockedFromTurn. apply moves_reads; [apply _|apply leaves_ReadTeamSnapshot|]. intros s _ _ _.
  apply appendTeamEventLocked_moves.
Qed.

Lemma update_participants_moves teamID id change ps d : moves same_core d (update_participants teamID id change ps).
Proof.
  revert d. induction ps as [|p ps IH]; intros d; cbn [update_participants]; [apply moves_leaves; [apply _|auto with files]|].
  apply moves_bind; [apply _| |intros p' fs d' fs' _].
  { case_match; [|apply moves_leaves; [apply _|auto with files]].
    apply moves_bind; [apply _|apply WriteTeamParticipant_moves|intros ? ? ? ? _; apply moves_leaves; [apply _|auto with files]]. }
  apply moves_bind; [apply _|apply IH|intros ? ? ? ? _; apply moves_leaves; [apply _|auto with files]].
Qed.
Lemma update_participants_returned teamID id change ps d fs ps' d' fs' :
  update_participants teamID id change ps d fs = Returned ps' d' fs' -> ps' = map (change_one id change) ps.
Proof.
  revert d fs ps' d' fs'. induction ps as [|p ps IH]; intros d fs ps' d' fs' H; cbn [update_participants map] in *; [by injection H|].
  apply bind_inv in H as (p' & d1 & fs1 & Hp & H). apply bind_inv in H as (rest & d2 & fs2 & Hrest & H). injection H as <- <- <-.
  f_equal; [|by eapply IH]. unfold change_one. destruct (_ =s id); [|by injection Hp].
  apply bind_inv in Hp as (u & d3 & fs3 & _ & Hp). by injection Hp.
Qed.

Lemma same_at d d' s : same_core d d' -> snapshot_at d s -> snapshot_at d' s.
Proof. intros (Hs & _) [? ?]. split; congruence. Qed.
Lemma same_turn_at d d' t : same_core d d' -> turn_at d t -> turn_at d' t.
Proof. intros (_ & Ht & _) [? ?]. split; congruence. Qed.

Lemma WriteTeamTurn_moves (R : team_files -> team_files -> Prop) `{!PreOrder R} t d :
  R d (put_turn t d) -> moves R d (WriteTeamTurn t).
Proof. intros HR. unfold WriteTeamTurn. apply moves_checked; [apply _|]. intros _ _. by apply moves_write_team; [apply _|]. Qed.
Lemma WriteTeamTurn_returned t d fs u d' fs' : WriteTeamTurn t d fs = Returned u d' fs' -> d' = put_turn t d.
Proof. unfold WriteTeamTurn. intros H. io_inv. by apply write_team_inv in H. Qed.
Lemma WriteTeamSnapshot_moves (R : team_files -> team_files -> Prop) `{!PreOrder R} s d :
  R d (put_snapshot s d) -> moves R d (WriteTeamSnapshot s).
Proof. intros HR. unfold WriteTeamSnapshot. apply moves_checked; [apply _|]. intros _ _. by apply moves_write_team; [apply _|]. Qed.
Lemma WriteTeamSnapshot_returned s d fs u d' fs' : WriteTeamSnapshot s d fs = Returned u d' fs' -> d' = put_snapshot s d.
Proof. unfold WriteTeamSnapshot. intros H. io_inv. by apply write_team_inv in H. Qed.

(** ** Settling a turn *)

Lemma settle_turn_moves teamID (R : team_files -> team_files -> Prop) `{!PreOrder R} now t state message diagnostic completed
    change summary d :
  round_steps teamID R -> turn_at d t -> turn_moves (tf_messages d) t state message -> state ∈ ended_states -> settling t change ->
  let turn := turn_with t state message diagnostic now completed in
  moves (fun _ d' => R d d') (put_turn turn d) (settle_turn now teamID turn change summary).
Proof.
  intros HR Ht Hmove Hend Hch turn. set (R' := fun _ d' => R d d').
  assert (Transitive R') as HR' by by intros ? ? ?.
  assert (forall A d1 (m : team_io A), R d d1 -> moves same_core d1 m -> moves R' d1 m) as Hsame.
  { intros A d1 m H1 Hm fs. unfold R'. etrans; [exact H1|]. apply HR, Hm. }
  assert (R d (put_turn turn d)) as Hturn by by apply (rs_turn _ HR).
  unfold settle_turn. apply moves_bind; [apply _|apply Hsame; [done|apply moves_leaves; [apply _|apply leaves_ReadTeamSnapshot]]|].
  intros s fs d1 fs1 (-> & Hs & _)%ReadTeamSnapshot_returned.
  apply moves_bind; [apply _|apply Hsame; [done|apply update_participants_moves]|].
  intros ps fs2 d2 fs2' Hps. pose proof (moves_returned _ _ _ _ _ _ _ (update_participants_moves _ _ _ _ _) Hps) as H2.
  apply update_participants_returned in Hps as ->.
  assert (R d d2) as Hd2 by (etrans; [exact Hturn|by apply HR]).
  assert (R d (put_snapshot (settled_snapshot now turn change s) d2)) as Hset by (by apply (rs_settled _ _ HR)).
  unfold settled_snapshot in Hset. cbv zeta in *. destruct (settleTerminalRound _ _) as [[s' closed] closeSummary]. cbn [fst] in Hset.
  apply moves_bind; [apply _| |].
  { assert (PreOrder (fun a b => R d a -> R d b)) as Hpre by (split; [by intros ?|intros a b c Hab Hbc Ha; by apply Hbc, Hab]).
    intros fs3. refine (WriteTeamSnapshot_moves (fun a b => R d a -> R d b) s' d2 _ fs3 Hd2). by intros _. }
  intros _ fs3 d3 fs3' ->%WriteTeamSnapshot_returned.
  apply moves_bind; [apply _|apply Hsame; [done|apply appendTeamEventLockedFromTurn_moves]|]. intros u fs4 d4 fs4' H4.
  apply (moves_returned same_core) in H4; [|apply appendTeamEventLockedFromTurn_moves].
  apply Hsame; [etrans; [exact Hset|by apply HR]|].
  destruct closed; [apply appendTeamEventLocked_moves|apply moves_leaves; [apply _|auto with files]].
Qed.

Lemma failed_is_ended state : state ∈ failed_states -> state ∈ ended_states.
Proof. unfold failed_states, ended_states. intros H. by right. Qed.

(** Writing a turn that ends and settling it *)
Lemma end_turn_moves teamID (R : team_files -> team_files -> Prop) `{!PreOrder R} now t state message diagnostic completed
    change summary d :
  round_steps teamID R -> turn_at d t -> turn_moves (tf_messages d) t state message -> state ∈ ended_states -> settling t change ->
  let turn := turn_with t state message diagnostic now completed in
  moves R d (_ ← WriteTeamTurn turn; settle_turn now teamID turn change summary).
Proof.
  intros HR Ht Hmove Hend Hch turn. change (moves (fun _ d' => R d d') d (_ ← WriteTeamTurn turn; settle_turn now teamID turn change summary)).
  apply moves_bind; [by intros ? ? ?| |].
  { apply (WriteTeamTurn_moves R). by apply (rs_turn _ HR). }
  intros u fs d1 fs1 ->%WriteTeamTurn_returned. by apply settle_turn_moves; [apply _|..].
Qed.

Lemma markTurnFailureLocked_moves teamID (R : team_files -> team_files -> Prop) `{!PreOrder R} now turnID state diagnostic d :
  round_steps teamID R -> state ∈ failed_states -> moves R d (markTurnFailureLocked now teamID turnID state diagnostic).
Proof.
  intros HR Hst. unfold markTurnFailureLocked.
  apply moves_bind; [apply _|apply moves_leaves; [apply _|apply leaves_ReadTeamTurn]|].
  intros t fs d1 fs1 Ht. apply ReadTeamTurn_returned in Ht as (-> & Ht & _).
  destruct (live_turn t) eqn:Hlive; cbn [negb]; [|apply moves_leaves; [apply _|auto with files]].
  apply end_turn_moves; [apply _|done|done|by apply turn_fails|by apply failed_is_ended|].
  exists (if state =s TurnCancelled then ParticipantCancelled else if state =s TurnIndeterminate then ParticipantIndeterminate else ParticipantFailed).
  split; [repeat case_match; apply list_elem_of_In; cbn; tauto|].
  intros p. exists (pa_CurrentTurnID p). split; [done|apply list_elem_of_here].
Qed.
Lemma fail_turn_moves {A} teamID (R : team_files -> team_files -> Prop) `{!PreOrder R} now turnID state diagnostic (ending : team_io A) d :
  round_steps teamID R -> state ∈ failed_states -> (forall d', leaves d' ending) ->
  moves R d (fail_turn now teamID turnID state diagnostic ending).
Proof.
  intros HR Hst Hend. unfold fail_turn.
  apply moves_bind; [apply _|by apply moves_attempt, markTurnFailureLocked_moves; [apply _|..]|].
  intros _ fs d' fs' _. by apply moves_leaves; [apply _|].
Qed.

(** ** Preparing the turns *)

Lemma prepare_turns_moves teamID (R : team_files -> team_files -> Prop) `{!PreOrder R} now s catalog cumulative ps d :
  round_steps teamID R -> snapshot_at d s -> ~ closed_at s -> (forall p, p ∈ ps -> p ∈ ts_Participants s) ->
  moves (fun d d' => R d d' /\ tf_snapshot d' = tf_snapshot d) d (prepare_turns now s catalog cumulative ps).
Proof.
  intros HR Hs Hopen. set (R' := fun d d' => _). assert (PreOrder R') as HR'.
  { split; [by intros d'|]. intros d1 d2 d3 [? ?] [? ?]. split; [by etrans|congruence]. }
  assert (forall d d', same_core d d' -> R' d d') as Hsame by (intros d1 d2 Hc; split; [by apply HR|apply Hc]).
  revert cumulative d Hs. induction ps as [|p ps IH]; intros cumulative d Hs Hps; cbn [prepare_turns];
    [apply moves_leaves; [apply _|auto with files]|].
  assert (forall q, q ∈ ps -> q ∈ ts_Participants s) as Hps' by (intros q Hq; apply Hps; by right).
  destruct (pa_CurrentTurnID p =s "") eqn:Hcur; cbn [negb].
  - destruct (model_of catalog _) as [model|]; [|apply moves_leaves; [apply _|auto with files]].
    apply moves_checked; [apply _|]. intros cost _.
    assert (R' d (put_turn (first_turn now s p cost (cumulative + cost)) d)) as Hput.
    { split; [|done]. apply (rs_first _ _ HR); [done|done|apply Hps; left|by apply String.eqb_eq]. }
    apply moves_bind; [apply _|by apply WriteTeamTurn_moves|]. intros u fs1 d1 fs1' ->%WriteTeamTurn_returned.
    apply moves_bind; [apply _|by eapply moves_weaken; [|apply WriteTeamParticipant_moves]|]. intros u2 fs2 d2 fs2' H2.
    apply (moves_returned same_core) in H2; [|apply WriteTeamParticipant_moves].
    apply moves_bind; [apply _|by eapply moves_weaken; [|apply appendTeamEventLocked_moves]|]. intros u3 fs3 d3 fs3' H3.
    apply (moves_returned same_core) in H3; [|apply appendTeamEventLocked_moves].
    apply moves_bind; [apply _|apply IH; [|done]|intros [] ? ? ? _; apply moves_leaves; [apply _|auto with files]].
    apply (same_at d2); [done|]. by apply (same_at (put_turn (first_turn now s p cost (cumulative + cost)) d)).
  - apply moves_bind; [apply _|apply moves_leaves; [apply _|apply leaves_ReadTeamTurn]|].
    intros t fs1 d1 fs1' (-> & _)%ReadTeamTurn_returned.
    apply moves_bind; [apply _|by apply IH|intros [] ? ? ? _; apply moves_leaves; [apply _|auto with files]].
Qed.

Lemma prepare_turns_returned now s catalog cumulative ps d fs qs changed d' fs' :
  prepare_turns now s catalog cumulative ps d fs = Returned (qs, changed) d' fs' ->
  Forall2 prepares ps qs /\ (changed = true <-> Exists (fun p => pa_CurrentTurnID p = "") ps).
Proof.
  revert cumulative d fs qs changed d' fs'.
  induction ps as [|p ps IH]; intros cumulative d fs qs changed d' fs' H; cbn [prepare_turns] in H.
  { injection H as <- <- <- <-. split; [constructor|]. by rewrite Exists_nil. }
  rewrite Exists_cons. destruct (pa_CurrentTurnID p =s "") eqn:Hcur; cbn [negb] in H.
  - destruct (model_of catalog _) as [model|]; [|done]. apply bind_inv in H as (cost & d1 & fs1 & _ & H).
    do 3 apply bind_inv in H as (? & ? & ? & _ & H). apply bind_inv in H as ([rest c] & d2 & fs2 & Hr & H).
    injection H as <- <- <- <-. apply IH in Hr as [Hr _]. split; [constructor; [|done]|].
    + unfold prepares. by rewrite Hcur.
    + apply String.eqb_eq in Hcur. tauto.
  - apply bind_inv in H as (t & d1 & fs1 & _ & H). apply bind_inv in H as ([rest c] & d2 & fs2 & Hr & H).
    injection H as <- <- <- <-. apply IH in Hr as [Hr Hc]. split; [constructor; [|done]|].
    + unfold prepares. by rewrite Hcur.
    + apply String.eqb_neq in Hcur. tauto.
Qed.

Lemma prepareInitialTurnsLocked_moves catalogs teamID (R : team_files -> team_files -> Prop) `{!PreOrder R} now d :
  round_steps teamID R -> moves R d (prepareInitialTurnsLocked catalogs now teamID).
Proof.
  intros HR. unfold prepareInitialTurnsLocked.
  apply moves_bind; [apply _|apply moves_leaves; [apply _|apply leaves_ReadTeamSnapshot]|].
  intros s fs1 d1 fs1' (-> & Hs & _)%ReadTeamSnapshot_returned.
  destruct (ts_State s =s LifecycleClosed) eqn:Hc; [apply moves_leaves; [apply _|auto with files]|]. apply String.eqb_neq in Hc.
  destruct (catalogs !! _) as [catalog|]; [|apply moves_leaves; [apply _|auto with files]].
  pose proof (prepare_turns_moves teamID R now s catalog 0 (ts_Participants s) d HR Hs Hc ltac:(done)) as Hm.
  apply moves_bind; [apply _|by eapply moves_weaken; [|exact Hm]; intros ? ? []|].
  intros [ps changed] fs2 d2 fs2' H2. pose proof (moves_returned _ _ _ _ _ _ _ Hm H2) as [_ Hs2].
  apply prepare_turns_returned in H2 as [Hps Hch]. destruct changed; cbn [negb]; [|apply moves_leaves; [apply _|auto with files]].
  apply WriteTeamSnapshot_moves; [apply _|]. apply (rs_prepared _ _ HR); [|done|done|by apply Hch].
  destruct Hs. split; congruence.
Qed.

Lemma begin_round_moves catalogs teamID (R : team_files -> team_files -> Prop) `{!PreOrder R} now d :
  round_steps teamID R -> moves R d (begin_round catalogs now teamID).
Proof.
  intros HR. unfold begin_round. apply moves_bind; [apply _|by apply prepareInitialTurnsLocked_moves|]. intros _ fs1 d1 fs1' _.
  apply moves_leaves; [apply _|]. io_leaves. apply leaves_ListTeamTurnIDs.
Qed.

(** ** Running a turn *)

(** A goroutine only fails a turn as one of the failed states. *)
Definition task_ok (t : task) : Prop := match t with TaskFail _ state _ => state ∈ failed_states | _ => True end.

Lemma dispatchTurn_moves registered teamID (R : team_files -> team_files -> Prop) `{!PreOrder R} now turnID d :
  round_steps teamID R -> moves R d (dispatchTurn registered now teamID turnID).
Proof.
  intros HR. unfold dispatchTurn. apply moves_bind; [apply _|apply moves_leaves; [apply _|apply leaves_ReadTeamTurn]|].
  intros t fs1 d1 fs1' (-> & Ht & _)%ReadTeamTurn_returned.
  assert (forall A state diagnostic (ending : team_io A), state ∈ failed_states -> (forall d', leaves d' ending) ->
    moves R d (fail_turn now teamID turnID state diagnostic ending)) as Hfail by (intros; by apply fail_turn_moves; [apply _|..]).
  assert (TurnFailed ∈ failed_states /\ TurnIndeterminate ∈ failed_states) as [Hf1 Hf2]
    by (split; apply list_elem_of_In; cbn; tauto).
  case_match; [by apply Hfail; [|auto with files]|]. destruct (pt_State t =s TurnActive) eqn:Hst.
  { apply moves_bind; [apply _|apply moves_leaves; [apply _|apply leaves_attempt, leaves_ReadTeamExecution]|].
    intros [handle|e] fs2 d2 fs2' H2; [apply moves_leaves; [apply _|auto with files]|].
    pose proof (leaves_returned _ _ _ _ _ _ (leaves_attempt _ _ (leaves_ReadTeamExecution teamID turnID d)) H2) as ->.
    by apply Hfail; [|auto with files]. }
  destruct (pt_State t =s TurnDispatching) eqn:Hst2; [by apply Hfail; [|auto with files]|].
  destruct (pt_State t =s TurnPrepared) eqn:Hst3; cbn [negb]; [|apply moves_leaves; [apply _|auto with files]].
  apply moves_bind; [apply _|apply WriteTeamTurn_moves; [apply _|apply (rs_turn _ HR); [done|]]|].
  { by apply turn_dispatching, String.eqb_eq. }
  intros _ fs2 d2 fs2' _. apply moves_bind; [apply _|by eapply moves_weaken; [apply HR|apply appendTeamEventLockedFromTurn_moves]|].
  intros _ fs3 d3 fs3' _. apply moves_leaves; [apply _|auto with files].
Qed.

Lemma leaves_start_request teamID t d : leaves d (start_request teamID t).
Proof. unfold start_request, turnPrompt. io_leaves; apply leaves_Get. Qed.

Lemma record_handle_moves teamID (R : team_files -> team_files -> Prop) `{!PreOrder R} now turnID handle d :
  round_steps teamID R -> moves R d (record_handle now teamID turnID handle).
Proof.
  intros HR. unfold record_handle. apply moves_bind; [apply _|apply moves_leaves; [apply _|apply leaves_ReadTeamTurn]|].
  intros t fs1 d1 fs1' (-> & Ht & _)%ReadTeamTurn_returned.
  apply moves_bind; [apply _|by eapply moves_weaken; [apply HR|apply WriteTeamExecution_moves]|]. intros u fs2 d2 fs2' H2.
  apply (moves_returned same_core) in H2; [|apply WriteTeamExecution_moves].
  destruct (pt_State t =s TurnDispatching) eqn:Hst; cbn [negb]; [|apply moves_leaves; [apply _|auto with files]].
  apply moves_bind; [apply _|apply WriteTeamTurn_moves; [apply _|apply (rs_turn _ HR)]|].
  { by apply (same_turn_at d). }
  { by apply turn_active, String.eqb_eq. }
  intros _ fs3 d3 fs3' _. apply moves_bind; [apply _|by eapply moves_weaken; [apply HR|apply appendTeamEventLockedFromTurn_moves]|].
  intros _ fs4 d4 fs4' _. apply moves_leaves; [apply _|auto with files].
Qed.

Lemma AppendTeamMessage_moves (R : team_files -> team_files -> Prop) `{!PreOrder R} m d :
  R d (put_message m d) -> moves R d (AppendTeamMessage m).
Proof.
  intros HR. unfold AppendTeamMessage. apply moves_checked; [apply _|]. intros _ _. by apply appendTeamRecord_moves; [apply _|].
Qed.

Lemma commit_locked_moves teamID (R : team_files -> team_files -> Prop) `{!PreOrder R} now turnID c d :
  round_steps teamID R -> ValidateContribution c = Ok tt -> moves R d (commit_locked now teamID turnID c).
Proof.
  intros HR Hc. unfold commit_locked. apply moves_bind; [apply _|apply moves_leaves; [apply _|apply leaves_ReadTeamTurn]|].
  intros t fs1 d1 fs1' (-> & Ht & _)%ReadTeamTurn_returned.
  destruct (pt_State t =s TurnActive) eqn:Hst; cbn [negb]; [|apply moves_leaves; [apply _|auto with files]].
  apply String.eqb_eq in Hst. apply moves_reads; [apply _|apply leaves_ReadTeamMessages|].
  intros messages fs2 fs2' ->%readTeamLog_returned. cbv zeta.
  set (answer := match List.find _ _ with Some _ => _ | None => _ end).
  assert (moves R d answer /\ (forall fs id d' fs', answer d fs = Returned id d' fs' ->
    turn_at d' t /\ exists m, m ∈ tf_messages d' /\ tm_TurnID m = pt_TurnID t /\ id = tm_MessageID m)) as [Hm Hr].
  { subst answer. destruct (List.find _ _) as [m|] eqn:Hf.
    - split; [apply moves_leaves; [apply _|auto with files]|]. intros fs id d' fs' [= <- <- <-]. split; [done|].
      apply List.find_some in Hf as [Hin Heq%String.eqb_eq]. exists m. by rewrite list_elem_of_In.
    - assert (forall m, m ∈ tf_messages d -> tm_TurnID m <> pt_TurnID t) as Hnew.
      { intros m Hin%list_elem_of_In. apply String.eqb_neq. by apply (List.find_none _ _ Hf). }
      set (m := {| tm_SchemaVersion := _ |}). split.
      + apply moves_bind; [apply _| |intros; apply moves_leaves; [apply _|auto with files]].
        apply AppendTeamMessage_moves; [apply _|]. by apply (rs_message _ _ HR).
      + intros fs id d' fs' H. apply bind_inv in H as (u & d3 & fs3 & ->%AppendTeamMessage_returned & H). injection H as <- <- <-.
        split; [done|]. exists m. split; [|done]. cbn. apply elem_of_app. right. apply list_elem_of_here. }
  apply moves_bind; [apply _|exact Hm|]. intros id fs3 d3 fs3' (Ht3 & m & Hm3 & Hid & ->)%Hr.
  apply end_turn_moves; [apply _|done|done|by apply turn_responded|apply list_elem_of_here|].
  exists ParticipantResponded. split; [apply list_elem_of_here|]. intros p. eexists. split; [reflexivity|].
  apply list_elem_of_In; cbn; tauto.
Qed.

Lemma contribution_valid DecodeStrict output c : contribution_of DecodeStrict output = Ok c -> ValidateContribution c = Ok tt.
Proof.
  unfold contribution_of. destruct (DecodeStrict output) as [c'|]; [|done]. cbn.
  destruct (ValidateContribution c') as [[]|] eqn:Hv; [|done]. by intros [= <-].
Qed.

Lemma commitContribution_moves DecodeStrict teamID (R : team_files -> team_files -> Prop) `{!PreOrder R} now turnID output d :
  round_steps teamID R -> moves R d (commitContribution DecodeStrict now teamID turnID output).
Proof.
  intros HR. unfold commitContribution. destruct (contribution_of _ _) as [c|e] eqn:Hc.
  - apply contribution_valid in Hc.
    apply moves_bind; [apply _|by apply commit_locked_moves; [apply _|..]|intros; apply moves_leaves; [apply _|auto with files]].
  - apply fail_turn_moves; [apply _|done|apply list_elem_of_In; cbn; tauto|auto with files].
Qed.

Lemma run_task_moves registered DecodeStrict teamID (R : team_files -> team_files -> Prop) `{!PreOrder R} now t m d :
  round_steps teamID R -> task_ok t -> run_task registered DecodeStrict now teamID t = Some m -> moves R d m.
Proof.
  intros HR Hok. destruct t; intros [= <-].
  - by apply dispatchTurn_moves; [apply _|].
  - apply moves_leaves; [apply _|]. io_leaves. apply leaves_start_request.
  - by apply record_handle_moves; [apply _|].
  - apply fail_turn_moves; [apply _|done|done|auto with files].
  - by apply commitContribution_moves; [apply _|].
Qed.

(** ** Requests *)

Lemma repairPreparedTeamLocked_moves s d : moves same_core d (repairPreparedTeamLocked s).
Proof.
  unfold repairPreparedTeamLocked. apply moves_reads; [apply _|apply leaves_touch|]. intros _ _ _ _.
  apply moves_bind; [apply _| |intros _ fs1 d1 fs1' _].
  { generalize (ts_Participants s) as ps. intros ps. revert d.
    induction ps as [|p ps IH]; intros d; cbn [write_participants]; [apply moves_leaves; [apply _|auto with files]|].
    apply moves_bind; [apply _|apply WriteTeamParticipant_moves|auto]. }
  apply moves_reads; [apply _|apply leaves_ReadTeamEvents|]. intros [|e events] _ _ _; [apply AppendTeamEvent_moves|].
  apply moves_leaves; [apply _|]. case_match; auto with files.
Qed.

Lemma answer_moves catalogs teamID (R : team_files -> team_files -> Prop) `{!PreOrder R} now a d :
  round_steps teamID R -> moves R d (answer catalogs teamID now a).
Proof.
  intros HR. assert (forall A (m : team_io A), moves same_core d m -> moves R d (no_tasks m)) as Hsame.
  { intros A m Hm. unfold no_tasks.
    apply moves_bind; [apply _|by eapply moves_weaken; [apply HR|]|intros; apply moves_leaves; [apply _|auto with files]]. }
  destruct a as [| |request|lookup request]; cbn [answer].
  - by apply begin_round_moves; [apply _|].
  - apply Hsame. apply moves_reads; [apply _|apply leaves_ReadTeamSnapshot|]. intros s _ _ _. apply repairPreparedTeamLocked_moves.
  - apply Hsame, HandoffCreate_moves; [apply _|]. by split.
  - apply Hsame, HandoffBindRun_moves; [apply _|]. by split.
Qed.

(** ** Cancelling *)

Definition stops (p p' : ParticipantV1) : Prop := p' = p \/ p' = participant_with ParticipantIndeterminate (pa_CurrentTurnID p) p.
Lemma stops_trans ps qs rs : Forall2 stops ps qs -> Forall2 stops qs rs -> Forall2 stops ps rs.
Proof.
  intros H1. revert rs. induction H1 as [|p q ps qs Hpq H1 IH]; intros rs H2; inversion H2 as [|? r ? rs' Hqr H2']; subst; [done|].
  constructor; [|by apply IH]. destruct Hpq as [-> | ->], Hqr as [-> | ->]; unfold stops, participant_with; cbn; auto.
Qed.
Lemma stops_map id ps :
  Forall2 stops ps (map (change_one id (fun p => participant_with ParticipantIndeterminate (pa_CurrentTurnID p) p)) ps).
Proof. induction ps as [|p ps IH]; constructor; [|done]. unfold change_one. destruct (_ =s _); unfold stops; auto. Qed.

Lemma cancel_active_moves registered teamID (R : team_files -> team_files -> Prop) `{!PreOrder R} now t d :
  turn_steps R -> turn_at d t -> moves R d (cancel_active registered now teamID t).
Proof.
  intros HR Ht. unfold cancel_active.
  apply moves_bind; [apply _|apply moves_leaves; [apply _|apply leaves_attempt, leaves_ReadTeamExecution]|].
  intros handle fs d' fs' Hh.
  pose proof (leaves_returned _ _ _ _ _ _ (leaves_attempt _ _ (leaves_ReadTeamExecution teamID (pt_TurnID t) d)) Hh) as ->.
  destruct handle as [handle|e]; [|case_match; apply moves_leaves; (apply _ || auto with files)].
  case_match; [apply moves_leaves; [apply _|auto with files]|].
  apply moves_bind; [apply _| |intros; apply moves_leaves; [apply _|auto with files]].
  destruct (pt_State t =s TurnActive) eqn:Hst; [|apply moves_leaves; [apply _|auto with files]].
  apply WriteTeamTurn_moves; [apply _|]. apply (rs_turn _ HR); [done|]. apply turn_cancelling. unfold live_turn, contains_string.
  apply String.eqb_eq in Hst. by rewrite Hst.
Qed.

Lemma cancel_turns_moves registered teamID (R : team_files -> team_files -> Prop) `{!PreOrder R} now ids ps d :
  turn_steps R -> moves R d (cancel_turns registered now teamID ids ps).
Proof.
  intros HR. revert ps d. induction ids as [|id ids IH]; intros ps d; cbn [cancel_turns]; [apply moves_leaves; [apply _|auto with files]|].
  apply moves_bind; [apply _|apply moves_leaves; [apply _|apply leaves_ReadTeamTurn]|].
  intros t fs1 d1 fs1' (-> & Ht & _)%ReadTeamTurn_returned.
  apply moves_bind; [apply _| |intros [qs handles] fs2 d2 fs2' _;
    apply moves_bind; [apply _|apply IH|intros []; intros; apply moves_leaves; [apply _|auto with files]]].
  assert (forall state, live_turn (in_state t state now) = true -> state = pt_State t -> live_turn t = true) as Hlive
    by (by intros state Hl ->).
  repeat case_match.
  - apply moves_bind; [apply _|by apply cancel_active_moves; [apply _|..]|intros; apply moves_leaves; [apply _|auto with files]].
  - apply moves_bind; [apply _| |intros; apply moves_leaves; [apply _|auto with files]].
    apply WriteTeamTurn_moves; [apply _|]. apply (rs_turn _ HR); [done|]. apply turn_cancelling.
    apply (Hlive TurnPrepared); [done|]. symmetry. by apply String.eqb_eq.
  - apply moves_bind; [apply _| |intros _ fs2 d2 fs2' _].
    { apply WriteTeamTurn_moves; [apply _|]. apply (rs_turn _ HR); [done|].
      apply turn_fails; [|apply list_elem_of_In; cbn; tauto]. apply (Hlive TurnDispatching); [done|]. symmetry. by apply String.eqb_eq. }
    apply moves_bind; [apply _|by eapply moves_weaken; [apply HR|apply update_participants_moves]|].
    intros; apply moves_leaves; [apply _|auto with files].
  - apply moves_leaves; [apply _|auto with files].
Qed.

Lemma cancel_turns_returned registered teamID now ids ps d fs qs handles d' fs' :
  cancel_turns registered now teamID ids ps d fs = Returned (qs, handles) d' fs' -> Forall2 stops ps qs.
Proof.
  revert ps d fs qs handles d' fs'. induction ids as [|id ids IH]; intros ps d fs qs handles d' fs' H; cbn [cancel_turns] in H.
  { injection H as <- <- <- <-. induction ps; constructor; unfold stops; auto. }
  apply bind_inv in H as (t & d1 & fs1 & _ & H). apply bind_inv in H as ([ps1 hs1] & d2 & fs2 & H1 & H).
  apply bind_inv in H as ([ps2 hs2] & d3 & fs3 & H2 & H). injection H as <- <- <- <-. apply IH in H2.
  assert (Forall2 stops ps ps) as Hrefl by (clear; induction ps; constructor; unfold stops; auto).
  apply (stops_trans ps ps1); [|done]. repeat case_match.
  - apply bind_inv in H1 as (? & ? & ? & _ & H1). by injection H1 as <- <- <- <-.
  - apply bind_inv in H1 as (? & ? & ? & _ & H1). by injection H1 as <- <- <- <-.
  - apply bind_inv in H1 as (? & ? & ? & _ & H1). apply bind_inv in H1 as (? & ? & ? & Hu & H1). injection H1 as <- <- <- <-.
    apply update_participants_returned in Hu as ->. apply stops_map.
  - by injection H1 as <- <- <- <-.
Qed.

Lemma cancel_begin_moves registered (R : team_files -> team_files -> Prop) `{!PreOrder R} now action d :
  cancel_steps R -> moves R d (cancel_begin registered now action).
Proof.
  intros HR. assert (forall teamID id intent d, moves R d (WriteTeamActionIntent teamID id intent)) as Hintent
    by (intros; eapply moves_weaken; [apply (rs_same _ HR)|apply WriteTeamActionIntent_moves]).
  unfold cancel_begin. apply moves_checked; [apply _|]. intros _ _.
  case_match; [apply moves_leaves; [apply _|auto with files]|]. cbv zeta.
  apply moves_reads; [apply _| |intros existing _ _ _].
  { unfold stored_intent. io_leaves. apply leaves_ReadTeamActionIntent. }
  destruct (existing ≫= _) as [response|]; [apply moves_leaves; [apply _|auto with files]|].
  apply moves_bind; [apply _|apply moves_leaves; [apply _|apply leaves_Get]|].
  intros s fs1 d1 fs1' (-> & Hs & _)%Get_returned.
  set (intent := match existing with Some _ => _ | None => _ end).
  assert (moves R d intent /\ moves same_core d intent) as [Hi Hi2].
  { assert (moves same_core d intent) as Hi; [|split; [by eapply moves_weaken; [apply (rs_same _ HR)|]|done]].
    subst intent. destruct existing; [apply moves_leaves; [apply _|auto with files]|]. unfold new_intent.
    do 2 (case_match; [apply moves_leaves; [apply _|auto with files]|]).
    apply moves_reads; [apply _|apply leaves_TeamMutationIntentCount|]. intros count _ _ _.
    case_match; [apply moves_leaves; [apply _|auto with files]|].
    apply moves_bind; [apply _|apply WriteTeamActionIntent_moves|intros; apply moves_leaves; [apply _|auto with files]]. }
  apply moves_bind; [apply _|done|]. intros i fs2 d2 fs2' H2. apply (moves_returned same_core) in H2; [|done].
  assert (snapshot_at d2 s) as Hs2 by by apply (same_at d). clear Hs.
  destruct (ts_State s =s LifecycleClosed) eqn:Hc.
  { case_match; [apply moves_leaves; [apply _|auto with files]|].
    apply moves_bind; [apply _|apply Hintent|intros; apply moves_leaves; [apply _|auto with files]]. }
  apply String.eqb_neq in Hc.
  apply moves_bind; [apply _|apply moves_leaves; [apply _|apply leaves_ListTeamTurnIDs]|]. intros ids fs3 d3 fs3' H3.
  apply (leaves_returned d2) in H3 as ->; [|apply leaves_ListTeamTurnIDs].
  apply moves_bind; [apply _|by apply cancel_turns_moves; [apply _|apply HR]|]. intros [ps handles] fs4 d4 fs4' H4.
  assert (tf_snapshot d4 = tf_snapshot d2) as Hs4.
  { apply (moves_returned (fun a b => tf_snapshot b = tf_snapshot a)) in H4; [done|].
    apply cancel_turns_moves; [apply same_preorder|]. split; [by intros ? ? []|done]. }
  apply cancel_turns_returned in H4.
  apply moves_bind; [apply _| |intros; apply moves_leaves; [apply _|auto with files]].
  destruct (ts_State s =s LifecycleCancelling); cbn [negb]; [apply moves_leaves; [apply _|auto with files]|].
  apply WriteTeamSnapshot_moves; [apply _|]. apply (ks_cancelling _ HR); [|done|done]. destruct Hs2. split; congruence.
Qed.

Lemma finish_turns_moves teamID (R : team_files -> team_files -> Prop) `{!PreOrder R} now ids d :
  turn_steps R -> moves R d (finish_turns now teamID ids).
Proof.
  intros HR. revert d. induction ids as [|id ids IH]; intros d; cbn [finish_turns]; [apply moves_leaves; [apply _|auto with files]|].
  apply moves_bind; [apply _|apply moves_leaves; [apply _|apply leaves_ReadTeamTurn]|].
  intros t fs1 d1 fs1' (-> & Ht & _)%ReadTeamTurn_returned. apply moves_bind; [apply _| |intros; apply IH].
  destruct (pt_State t =s TurnCancelling) eqn:Hst; [|apply moves_leaves; [apply _|auto with files]].
  apply WriteTeamTurn_moves; [apply _|]. apply (rs_turn _ HR); [done|]. by apply turn_cancelled, String.eqb_eq.
Qed.

Lemma cancel_participants_moves teamID ps d : moves same_core d (cancel_participants teamID ps).
Proof.
  revert d. induction ps as [|p ps IH]; intros d; cbn [cancel_participants]; [apply moves_leaves; [apply _|auto with files]|].
  apply moves_bind; [apply _| |intros; apply moves_bind; [apply _|apply IH|intros; apply moves_leaves; [apply _|auto with files]]].
  destruct (unsettled p); [apply WriteTeamParticipant_moves|apply moves_leaves; [apply _|auto with files]].
Qed.
Lemma cancel_participants_returned teamID ps d fs qs d' fs' :
  cancel_participants teamID ps d fs = Returned qs d' fs' ->
  Forall2 (fun p p' => p' = if unsettled p then participant_with ParticipantCancelled (pa_CurrentTurnID p) p else p) ps qs.
Proof.
  revert d fs qs d' fs'. induction ps as [|p ps IH]; intros d fs qs d' fs' H; cbn [cancel_participants] in H.
  { injection H as <- <- <-. constructor. }
  apply bind_inv in H as (u & d1 & fs1 & _ & H). apply bind_inv in H as (rest & d2 & fs2 & Hr & H). injection H as <- <- <-.
  constructor; [done|by eapply IH].
Qed.

Lemma cancel_finish_moves (R : team_files -> team_files -> Prop) `{!PreOrder R} now action intent ids d :
  cancel_steps R -> moves R d (cancel_finish now action intent ids).
Proof.
  intros HR. unfold cancel_finish. cbv zeta.
  apply moves_bind; [apply _|apply moves_leaves; [apply _|apply leaves_Get]|]. intros s fs1 d1 fs1' (-> & Hs & _)%Get_returned.
  apply moves_bind; [apply _|by apply finish_turns_moves; [apply _|apply HR]|]. intros u fs2 d2 fs2' H2.
  assert (snapshot_at d2 s) as Hs2.
  { apply (moves_returned (fun a b => tf_snapshot b = tf_snapshot a)) in H2.
    - destruct Hs. split; congruence.
    - apply finish_turns_moves; [apply same_preorder|]. split; [by intros ? ? []|done]. }
  apply moves_bind; [apply _|by eapply moves_weaken; [apply (rs_same _ HR)|apply cancel_participants_moves]|].
  intros ps fs3 d3 fs3' H3. pose proof (moves_returned _ _ _ _ _ _ _ (cancel_participants_moves _ _ _) H3) as Hc3.
  apply cancel_participants_returned in H3.
  apply moves_bind; [apply _|apply WriteTeamSnapshot_moves; [apply _|apply (ks_cancelled _ HR); [by apply (same_at d2)|done]]|].
  intros _ fs4 d4 fs4' _. apply moves_bind; [apply _|by eapply moves_weaken; [apply (rs_same _ HR)|apply appendTeamEventLocked_moves]|].
  intros _ fs5 d5 fs5' _. apply moves_bind; [apply _| |intros; apply moves_leaves; [apply _|auto with files]].
  eapply moves_weaken; [apply (rs_same _ HR)|apply WriteTeamActionIntent_moves].
Qed.
End steps.

(** * The steps of a panel

    What every step of TeamSystem does to the files, with the changes of TeamSteps,
    and which goroutines it leaves.  An invariant of the files that these changes
    keep holds in every reachable system ([reachable_files]). *)

(** The turns that are about to be given to the driver, and those that were *)
Definition about_to_start (tasks : list task) : list string :=
  omap (fun t => match t with TaskStart turn => Some (pt_TurnID turn) | _ => None end) tasks.
Definition turn_of (request : StartRequest) : string := id_TurnID (st_Identity request).
Definition dispatched (y : system) : list string := about_to_start (sy_tasks y) ++ map turn_of (sy_starts y).

(** A goroutine that starts nothing *)
Definition quiet (t : task) : Prop := match t with TaskStart _ | TaskStarting _ _ => False | _ => task_ok t end.

Lemma quiet_ok tasks : Forall quiet tasks -> Forall task_ok tasks.
Proof. intros H. eapply List.Forall_impl; [|exact H]. by intros []. Qed.
Lemma quiet_starts tasks : Forall quiet tasks -> about_to_start tasks = [] /\ calls_of tasks = [].
Proof. induction 1 as [|[] tasks Hq _ [IH1 IH2]]; done. Qed.

Lemma about_to_start_app a b : about_to_start (a ++ b) = about_to_start a ++ about_to_start b.
Proof. apply omap_app. Qed.

Lemma split_ok before t after : Forall task_ok (before ++ t :: after) -> Forall task_ok (before ++ after) /\ task_ok t.
Proof. rewrite !Forall_app, Forall_cons. tauto. Qed.

Section theory.
  Context {GR : GoRange} {SHA : Sha256}.
  Context (catalogs : gmap string CapabilityCatalogV1) (registered : string -> bool) (DecodeStrict : string -> result string ContributionV1).
  Context (teamID : string).
  Abbreviation step := (step catalogs registered DecodeStrict teamID).
  Abbreviation work := (work catalogs registered DecodeStrict teamID).
  Abbreviation reachable := (reachable catalogs registered DecodeStrict teamID).
  Abbreviation run_task := (run_task registered DecodeStrict).

(** ** The goroutines that a section leaves *)

Lemma on_start_quiet turn reply : Forall quiet (on_start turn reply).
Proof.
  unfold on_start. repeat case_match; repeat constructor; apply list_elem_of_In; cbn; tauto.
Qed.
Lemma on_observe_quiet turn handle reply output : Forall quiet (on_observe turn handle reply output).
Proof.
  unfold on_observe. repeat case_match; repeat constructor; apply list_elem_of_In; cbn; tauto.
Qed.

Lemma fail_turn_returned {A} now turnID state diagnostic (ending : team_io A) d fs a d' fs' :
  fail_turn now teamID turnID state diagnostic ending d fs = Returned a d' fs' -> exists d1 fs1, ending d1 fs1 = Returned a d' fs'.
Proof. unfold fail_turn. intros (r & d1 & fs1 & _ & H)%bind_inv. eauto. Qed.

(** Only the dispatch of a prepared turn makes a goroutine that starts it. *)
Lemma dispatchTurn_returned now turnID d fs ts d' fs' :
  dispatchTurn registered now teamID turnID d fs = Returned ts d' fs' ->
  Forall quiet ts \/
  exists t, turn_at d t /\ pt_State t = TurnPrepared /\ ts = [TaskStart (in_state t TurnDispatching now)] /\
            same_core (put_turn (in_state t TurnDispatching now) d) d'.
Proof.
  unfold dispatchTurn. intros (t & d1 & fs1 & (-> & Ht & _)%ReadTeamTurn_returned & H)%bind_inv.
  assert (forall state diagnostic (ending : team_io (list task)), fail_turn now teamID turnID state diagnostic ending d fs1 = Returned ts d' fs' ->
    (forall d1 fs1, ending d1 fs1 = Returned ts d' fs' -> ts = []) -> Forall quiet ts) as Hfail.
  { intros state diagnostic ending (d2 & fs2 & H2)%fail_turn_returned He. by rewrite (He _ _ H2). }
  destruct (negb (registered _)); [left; eapply Hfail; [exact H|done]|].
  destruct (pt_State t =s TurnActive).
  { apply bind_inv in H as (handle & d2 & fs2 & H2 & H). left. destruct handle as [handle|e].
    - injection H as <- <- <-. repeat constructor.
    - apply fail_turn_returned in H as (? & ? & H). done. }
  destruct (pt_State t =s TurnDispatching); [left; eapply Hfail; [exact H|by intros ? ? [= <- _ _]]|].
  destruct (pt_State t =s TurnPrepared) eqn:Hst; cbn [negb] in H; [|injection H as <- <- <-; by left].
  cbv zeta in H. apply bind_inv in H as (u & d2 & fs2 & ->%WriteTeamTurn_returned & H).
  apply bind_inv in H as (u2 & d3 & fs3 & H3 & H). injection H as <- <- <-. right. exists t.
  apply (moves_returned same_core) in H3; [|apply appendTeamEventLockedFromTurn_moves]. apply String.eqb_eq in Hst. done.
Qed.

Lemma start_request_returned t d fs request d' fs' :
  start_request teamID t d fs = Returned request d' fs' -> turn_of request = pt_TurnID t /\ ValidateStartRequest request = Ok tt.
Proof.
  unfold start_request. intros H. do 2 apply bind_inv in H as (? & ? & ? & _ & H).
  apply bind_inv in H as ([] & d3 & fs3 & [Hv _]%checked_inv & H). injection H as <- <- <-. done.
Qed.

Lemma run_task_quiet now t m d fs ts d' fs' :
  run_task now teamID t = Some m -> m d fs = Returned ts d' fs' ->
  match t with TaskDispatch _ | TaskStart _ => True | _ => Forall quiet ts end.
Proof.
  destruct t; intros [= <-] H; try done.
  - unfold record_handle in H. do 2 apply bind_inv in H as (? & ? & ? & _ & H).
    case_match; [injection H as <- <- <-; by repeat constructor|].
    do 2 apply bind_inv in H as (? & ? & ? & _ & H). injection H as <- <- <-. by repeat constructor.
  - apply fail_turn_returned in H as (? & ? & H). by injection H as <- <- <-.
  - unfold commitContribution in H. case_match.
    + apply bind_inv in H as (? & ? & ? & _ & H). by injection H as <- <- <-.
    + apply fail_turn_returned in H as (? & ? & H). done.
Qed.

Lemma answer_quiet now a d fs ts d' fs' : answer catalogs teamID now a d fs = Returned ts d' fs' -> Forall quiet ts.
Proof.
  destruct a; cbn [answer]; unfold begin_round, no_tasks; intros H;
    repeat apply bind_inv in H as (? & ? & ? & _ & H); injection H as <- <- <-; [|done..].
  apply List.Forall_map, List.Forall_forall. done.
Qed.

Lemma run_task_ok now t m d fs ts d' fs' : run_task now teamID t = Some m -> m d fs = Returned ts d' fs' -> Forall task_ok ts.
Proof.
  intros Hm H. pose proof (run_task_quiet _ _ _ _ _ _ _ _ Hm H) as Hq. destruct t; try by apply quiet_ok.
  - injection Hm as <-. apply dispatchTurn_returned in H as [Hq'|(t & _ & _ & -> & _)]; [by apply quiet_ok|by repeat constructor].
  - injection Hm as <-. apply bind_inv in H as (? & ? & ? & _ & H). injection H as <- <- <-. by repeat constructor.
Qed.

(** ** Steps *)

Lemma went_on_files (R : team_files -> team_files -> Prop) y tasks cancels m fs :
  moves R (sy_files y) m -> R (sy_files y) (sy_files (went_on y tasks cancels (m (sy_files y) fs))).
Proof. intros Hm. specialize (Hm fs). by destruct (m (sy_files y) fs). Qed.
Lemma went_on_ok y tasks cancels o :
  Forall task_ok tasks -> (forall ts d fs, o = Returned ts d fs -> Forall task_ok ts) ->
  Forall task_ok (sy_tasks (went_on y tasks cancels o)).
Proof. intros Ht Ho. destruct o as [ts d fs| |]; cbn; [|done|constructor]. apply Forall_app. split; [done|by eapply Ho]. Qed.

Lemma work_ok y y' : Forall task_ok (sy_tasks y) -> work y y' -> Forall task_ok (sy_tasks y').
Proof.
  intros Hok. destruct 1 as [now a fs|now before after t m fs Ht Hm|before after turn request reply Ht|
    before after turn handle reply output Ht|before after t Ht|]; [|rewrite Ht in Hok; apply split_ok in Hok as [Hok Hone]..|].
  - apply went_on_ok; [done|]. intros ts d fs' H. by eapply quiet_ok, answer_quiet.
  - apply went_on_ok; [done|]. intros ts d fs' H. by eapply run_task_ok.
  - apply went_on_ok; [done|]. intros ts d fs' [= <- _ _]. apply quiet_ok, on_start_quiet.
  - apply went_on_ok; [done|]. intros ts d fs' [= <- _ _]. apply quiet_ok, on_observe_quiet.
  - done.
  - constructor.
Qed.

Lemma work_files (R : team_files -> team_files -> Prop) `{!PreOrder R} y y' :
  round_steps teamID R -> Forall task_ok (sy_tasks y) -> work y y' -> R (sy_files y) (sy_files y').
Proof.
  intros HR Hok. destruct 1 as [now a fs|now before after t m fs Ht Hm|before after turn request reply Ht|
    before after turn handle reply output Ht|before after t Ht|]; try done.
  - apply went_on_files. by apply answer_moves; [apply _|].
  - apply went_on_files. rewrite Ht in Hok. apply split_ok in Hok as [_ Hone]. by eapply run_task_moves; [apply _|..].
Qed.

Lemma begun_cancel_same y action o : sy_starts (begun_cancel y action o) = sy_starts y /\
  (sy_tasks (begun_cancel y action o) = sy_tasks y \/ sy_tasks (begun_cancel y action o) = []) /\
  sy_files (begun_cancel y action o) = files_after o.
Proof. destruct o as [[]| |]; cbn; auto. Qed.

Lemma step_ok y y' : Forall task_ok (sy_tasks y) -> step y y' -> Forall task_ok (sy_tasks y').
Proof.
  intros Hok. destruct 1 as [y' Hw|now action fs|now before after c replies fs Hc|before after c Hc].
  - by eapply work_ok.
  - destruct (begun_cancel_same y action (cancel_begin registered now action (sy_files y) fs)) as (_ & [-> | ->] & _); [done|constructor].
  - apply went_on_ok; [done|]. intros ts d fs' Hr. apply bind_inv in Hr as (? & ? & ? & _ & Hr). by injection Hr as <- <- <-.
  - done.
Qed.

Lemma step_files (R : team_files -> team_files -> Prop) `{!PreOrder R} y y' :
  round_steps teamID R -> cancel_steps R -> Forall task_ok (sy_tasks y) -> step y y' -> R (sy_files y) (sy_files y').
Proof.
  intros HR HK Hok. destruct 1 as [y' Hw|now action fs|now before after c replies fs Hc|before after c Hc].
  - by eapply work_files.
  - destruct (begun_cancel_same y action (cancel_begin registered now action (sy_files y) fs)) as (_ & _ & ->).
    by apply cancel_begin_moves; [apply _|].
  - apply went_on_files. unfold no_tasks.
    apply moves_bind; [apply _|by apply cancel_finish_moves; [apply _|]|intros; apply moves_leaves; [apply _|auto with files]].
  - done.
Qed.

Lemma reachable_ok y : reachable y -> Forall task_ok (sy_tasks y).
Proof. induction 1 as [y s Hn|y y' _ IH Hs]; [|by eapply step_ok]. destruct (np_idle _ _ Hn) as [-> _]. constructor. Qed.

(** An invariant of the files that every change keeps *)
Definition keeps (P : team_files -> Prop) (d d' : team_files) : Prop := P d -> P d'.
#[export] Instance keeps_preorder P : PreOrder (keeps P).
Proof. split; [by intros ? ?|]. intros a b c Hab Hbc Ha. by apply Hbc, Hab. Qed.
Lemma reachable_files (P : team_files -> Prop) y :
  round_steps teamID (keeps P) -> cancel_steps (keeps P) -> (forall y s, new_panel y s -> P (sy_files y)) -> reachable y -> P (sy_files y).
Proof.
  intros HR HK Hnew. induction 1 as [y s Hn|y y' Hy IH Hs]; [by eapply Hnew|].
  exact (step_files (keeps P) y y' HR HK (reachable_ok y Hy) Hs IH).
Qed.
End theory.
