(* ===== verification/TeamExamples.v ===== *)
(** * A panel to evaluate

    Two participants of the built-in catalog and a driver that answers with
    text.  [history] performs a list of moves; every system it gives is reachable. *)

From S2P Require Import Prelude GoText Json Routing Resolver Catalog Workflow Validate Files Context.
From S2P Require Import TeamContract TeamStore TeamTurns Handoff TeamRounds TeamCancel TeamSystem.
#[local] Open Scope string_scope.
#[local] Open Scope list_scope.
#[local] Open Scope Z_scope.

#[local] Existing Instance demo_sha.
#[local] Existing Instance canonical_range.

Definition panel_member (id model : string) : ParticipantV1 := {|
  pa_ParticipantID := id; pa_Label := id; pa_Role := "explorer"; pa_ModelID := model; pa_Driver := "codex";
  pa_Target := "openai"; pa_State := ParticipantPending; pa_CurrentTurnID := "" |}.
Definition panel_session : TeamSessionV1 := {|
  ts_SchemaVersion := SchemaVersion; ts_TeamID := "team-1"; ts_ClientRequestID := "start-1";
  ts_RequestHash := hashBytes "start"; ts_Project := "/work/app"; ts_Mode := ModePanel; ts_Topic := "storage";
  ts_Instructions := "compare"; ts_CatalogHash := hashBytes "catalog";
  ts_Participants := [panel_member "alice" "codex/local/gpt-5.6"; panel_member "bob" "codex/local/gpt-5.6-luna"];
  ts_State := LifecycleCreated; ts_StateVersion := 1; ts_CostGrant := 1000; ts_CostUsed := 20; ts_CloseReason := "";
  ts_CreatedAt := 10; ts_UpdatedAt := 10 |}.
Definition panel_catalogs : gmap string CapabilityCatalogV1 := {[ hashBytes "catalog" := BuiltinCatalogV1 ]}.
Definition panel_driver (driver : string) : bool := driver =s "codex".
(** Any text is a report. *)
Definition panel_decode (output : string) : result string ContributionV1 := Ok {|
  co_SchemaVersion := SchemaVersion; co_Status := ContributionCompleted; co_ResultType := ""; co_Output := "";
  co_ContentMarkdown := output; co_Warnings := []; co_OpenQuestions := []; co_UsageEstimates := None |}.

Definition panel_files : team_files := {|
  tf_snapshot := Some panel_session; tf_events := []; tf_messages := []; tf_handoffs := ∅; tf_bindings := None;
  tf_create_intents := ∅; tf_bind_intents := ∅; tf_action_intents := ∅;
  tf_round := {| fr_participants := ∅; fr_turns := ∅; fr_executions := ∅ |} |}.
Definition panel_start : system := {| sy_files := panel_files; sy_tasks := []; sy_cancels := []; sy_starts := [] |}.
Definition panel_handle : ExecutionHandle := {|
  eh_Driver := "codex"; eh_Target := "openai"; eh_SchemaVersion := 1; eh_ID := "exec-1"; eh_Data := "" |}.
Definition panel_cancel : TeamActionV1 := {|
  ta_SchemaVersion := SchemaVersion; ta_ActionID := "cancel-1"; ta_TeamID := "team-1"; ta_ExpectedStateVersion := 1;
  ta_Type := ActionCancel; ta_FollowUp := None; ta_CancelTurn := None; ta_Close := None |}.

(** What happens next: a demand, the section of a goroutine, an answer of the
    driver to one, the end of the process, the two sections of a cancellation *)
Inductive move :=
| MoveDemand (a : demand) (fs : list fate)
| MoveSection (i : nat) (fs : list fate)
| MoveStarted (i : nat) (reply : result string (option ExecutionHandle))
| MoveObserved (i : nat) (reply : result string (option Observation)) (output : result string string)
| MoveCrash
| MoveCancel (action : TeamActionV1)
| MoveCancelled.

(** The [i]th goroutine, and the others *)
Definition pick (i : nat) (y : system) (k : list task -> task -> system) : system :=
  match drop i (sy_tasks y) with [] => y | t :: after => k (take i (sy_tasks y) ++ after) t end.
Definition move_on (y : system) (m : move) : system :=
  match m with
  | MoveDemand a fs => went_on y (sy_tasks y) (sy_cancels y) (answer panel_catalogs "team-1" 20 a (sy_files y) fs)
  | MoveSection i fs => pick i y (fun others t =>
      match run_task panel_driver panel_decode 20 "team-1" t with
      | Some m => went_on y others (sy_cancels y) (m (sy_files y) fs)
      | None => y
      end)
  | MoveStarted i reply => pick i y (fun others t =>
      match t with TaskStarting turn _ => went_on y others (sy_cancels y) (Returned (on_start turn reply) (sy_files y) []) | _ => y end)
  | MoveObserved i reply output => pick i y (fun others t =>
      match t with TaskObserve turn handle => went_on y others (sy_cancels y) (Returned (on_observe turn handle reply output) (sy_files y) []) | _ => y end)
  | MoveCrash => crashed y (sy_files y)
  | MoveCancel action => if ta_TeamID action =s "team-1" then begun_cancel y action (cancel_begin panel_driver 20 action (sy_files y) []) else y
  | MoveCancelled =>
      match sy_cancels y with
      | {| ck_action := action; ck_intent := intent; ck_turnIDs := ids; ck_handles := [] |} :: others =>
          went_on y (sy_tasks y) others (no_tasks (cancel_finish 20 action intent ids) (sy_files y) [])
      | _ => y
      end
  end.
Definition history (moves : list move) (y : system) : system := fold_left move_on moves y.

Abbreviation panel_step := (step panel_catalogs panel_driver panel_decode "team-1").
Abbreviation panel_work := (work panel_catalogs panel_driver panel_decode "team-1").
Abbreviation panel_reachable := (reachable panel_catalogs panel_driver panel_decode "team-1").

Definition working (m : move) : bool := match m with MoveCancel _ | MoveCancelled => false | _ => true end.

Lemma pick_split (P : system -> Prop) i y k :
  P y -> (forall before t after, sy_tasks y = before ++ t :: after -> P (k (before ++ after) t)) -> P (pick i y k).
Proof.
  intros Hy Hk. unfold pick. destruct (drop i (sy_tasks y)) as [|t after] eqn:Hd; [done|].
  apply Hk. by rewrite <-Hd, take_drop.
Qed.

Lemma move_works y m : working m = true -> rtc panel_work y (move_on y m).
Proof.
  intros Hm. destruct m as [a fs|i fs|i reply|i reply output| | |]; try done; cbn [move_on].
  - apply rtc_once, work_demand.
  - apply (pick_split (rtc panel_work y)); [done|]. intros before t after Ht.
    destruct (run_task _ _ _ _ t) as [m|] eqn:Hr; [|done]. apply rtc_once. by eapply work_section.
  - apply (pick_split (rtc panel_work y)); [done|]. intros before t after Ht. destruct t; try done. apply rtc_once. by eapply work_started.
  - apply (pick_split (rtc panel_work y)); [done|]. intros before t after Ht. destruct t; try done. apply rtc_once. by eapply work_observed.
  - apply rtc_once, work_crash.
Qed.

Lemma rtc_work_steps y y' : rtc panel_work y y' -> rtc panel_step y y'.
Proof. apply rtc_subrel. intros a b. apply step_work. Qed.
Lemma move_steps y m : rtc panel_step y (move_on y m).
Proof.
  destruct (working m) eqn:Hm; [by apply rtc_work_steps, move_works|]. destruct m; try done; cbn [move_on].
  - destruct (ta_TeamID action =s "team-1") eqn:Ht; [|done]. apply rtc_once, step_cancel. by apply String.eqb_eq.
  - destruct (sy_cancels y) as [|[action intent ids []] others] eqn:Hc; try done. apply rtc_once.
    by apply (step_cancelled _ _ _ _ y 20 [] others {| ck_action := action; ck_intent := intent; ck_turnIDs := ids; ck_handles := [] |} [] []).
Qed.

Lemma history_works moves y : forallb working moves = true -> rtc panel_work y (history moves y).
Proof.
  revert y. induction moves as [|m moves IH]; intros y Hw; [done|]. cbn in *. apply andb_prop in Hw as [Hm Hw].
  etrans; [by apply move_works|by apply IH].
Qed.
Lemma history_reachable moves : panel_reachable (history moves panel_start).
Proof.
  assert (panel_reachable panel_start) as H0.
  { apply (reachable_new _ _ _ _ _ panel_session). split; [done|by vm_compute|done|done| |done|done]. by repeat constructor. }
  revert H0. generalize panel_start. induction moves as [|m moves IH]; intros y Hy; [done|]. cbn. apply IH.
  pose proof (move_steps y m) as Hs. clear IH. induction Hs as [|a b c Hab _ IH]; [done|]. apply IH. by eapply reachable_step.
Qed.

(** ** Histories *)

Definition panel_done : Observation := {| ob_State := ObservationTerminal; ob_Diagnostic := "" |}.
(** The round is dispatched and the driver asked to start the first turn. *)
Definition panel_asked : list move := [MoveDemand DemandRound []; MoveSection 0 []; MoveSection 1 []].
(** The first turn has run, and its contribution is about to be committed. *)
Definition panel_ran (output : string) : list move :=
  panel_asked ++ [MoveStarted 1 (Ok (Some panel_handle)); MoveSection 1 []; MoveObserved 1 (Ok (Some panel_done)) (Ok output)].
(** The process dies while it commits, after twelve calls: the turn's file is
    written, the snapshot is not. *)
Definition panel_torn : list move := panel_ran "report" ++ [MoveSection 1 (repeat Works 12 ++ [Dies])].
(** The panel is cancelled, and the round prepared between the cancellation's
    two sections. *)
Definition panel_raced : list move := [MoveCancel panel_cancel; MoveDemand DemandRound []; MoveCancelled].
(** What then happens to a turn: it is started, runs and responds. *)
Definition panel_turn (output : string) : list move :=
  [MoveSection 0 []; MoveSection 1 []; MoveStarted 1 (Ok (Some panel_handle)); MoveSection 1 [];
   MoveObserved 1 (Ok (Some panel_done)) (Ok output); MoveSection 1 []].
Definition panel_last_turn (output : string) : list move :=
  [MoveSection 0 []; MoveSection 0 []; MoveStarted 0 (Ok (Some panel_handle)); MoveSection 0 [];
   MoveObserved 0 (Ok (Some panel_done)) (Ok output); MoveSection 0 []].

(** What a panel looks like: its state, why it is closed, the participants' states *)
Definition panel_view (y : system) : string * string * list string :=
  match tf_snapshot (sy_files y) with
  | Some s => (ts_State s, ts_CloseReason s, map pa_State (ts_Participants s))
  | None => ("", "", [])
  end.
Example panel_runs :
  let y := history ([MoveDemand DemandRound []] ++ panel_turn "one" ++ panel_last_turn "two") panel_start in
  panel_view y = (LifecycleClosed, ClosePanelSettled, [ParticipantResponded; ParticipantResponded]) /\ sy_tasks y = [] /\
  map tm_Actor (tf_messages (sy_files y)) = ["alice"; "bob"].
Proof. vm_compute. done. Qed.

(** A cancellation can be overtaken.  Between its two sections a round that
    was about to begin prepares the turns, the second section closes the panel as
    cancelled without them, and the turns are then given to the driver, run and
    respond; at the end the panel is closed as settled.  Action reports that it has
    cancelled a team whose turns have yet to start. *)
Example cancellation_overtaken : exists y y',
  panel_reachable y /\ panel_view y = (LifecycleClosed, CloseCancelled, [ParticipantCancelled; ParticipantCancelled]) /\
  sy_cancels y = [] /\ sy_starts y = [] /\ rtc panel_work y y' /\ length (sy_starts y') = 2%nat /\
  panel_view y' = (LifecycleClosed, ClosePanelSettled, [ParticipantResponded; ParticipantResponded]).
Proof.
  exists (history panel_raced panel_start), (history (panel_turn "one" ++ panel_last_turn "two") (history panel_raced panel_start)).
  split; [apply history_reachable|]. split; [by vm_compute|]. split; [by vm_compute|]. split; [by vm_compute|].
  split; [by apply history_works|]. split; by vm_compute.
Qed.
