(* ===== verification/TeamRoundsTheory.v ===== *)
(** * What a panel guarantees

    Over every history of a panel, with requests, cancellations, calls that fail
    and processes that die in between, the driver is asked to run a turn at most
    once. *)

From S2P Require Import Prelude GoText Json JsonTree Routing Resolver Catalog Workflow Validate Files Context.
From S2P Require Import TeamContract TeamStore TeamTurns Handoff TeamRounds TeamCancel TeamSystem.
From S2P Require Import HandoffTheory TeamSteps TeamExamples.
#[local] Open Scope string_scope.
#[local] Open Scope list_scope.
#[local] Open Scope Z_scope.

Section theory.
  Context {GR : GoRange} {SHA : Sha256}.
  Context (catalogs : gmap string CapabilityCatalogV1) (registered : string -> bool) (DecodeStrict : string -> result string ContributionV1).
  Context (teamID : string).
  Abbreviation step := (step catalogs registered DecodeStrict teamID).
  Abbreviation work := (work catalogs registered DecodeStrict teamID).
  Abbreviation reachable := (reachable catalogs registered DecodeStrict teamID).
  Abbreviation run_task := (run_task registered DecodeStrict).

(** ** A turn is started once *)

(** No turn is prepared any more: the panel is closed or every participant has
    a turn. *)
Definition sealed (d : team_files) : Prop :=
  exists s, tf_snapshot d = Some s /\ ts_Mode s = ModePanel /\
    (closed_at s \/ Forall (fun p => pa_CurrentTurnID p <> "") (ts_Participants s)).
Definition is_panel (d : team_files) : Prop := exists s, tf_snapshot d = Some s /\ ts_Mode s = ModePanel.
Definition prepared_at (d : team_files) (turnID : string) : Prop :=
  exists t, turns_of d !! turnID = Some t /\ pt_State t = TurnPrepared.
(** Panels stay panels; a sealed one stays sealed, and no turn becomes prepared. *)
Definition calmer (d d' : team_files) : Prop :=
  (is_panel d -> is_panel d') /\ (sealed d -> sealed d' /\ forall turnID, prepared_at d' turnID -> prepared_at d turnID).
#[export] Instance calmer_preorder : PreOrder calmer.
Proof. split; [by intros d|]. intros a b c [? Hab] [? Hbc]. split; [auto|]. intros Ha. destruct (Hab Ha) as [Hb ?]. destruct (Hbc Hb). auto. Qed.

Lemma moves_not_prepared messages t state message : turn_moves messages t state message -> state <> TurnPrepared.
Proof. destruct 1 as [| |state _ H| | |]; try done. apply list_elem_of_In in H. cbn in H. intros ->. by repeat destruct H as [H|H]. Qed.

Lemma put_turn_prepared d t turnID :
  pt_State t <> TurnPrepared -> prepared_at (put_turn t d) turnID -> prepared_at d turnID.
Proof.
  intros Ht (t' & Hl & Hp). cbn in Hl. apply lookup_insert_Some in Hl as [[_ <-]|[_ Hl]]; [done|by exists t'].
Qed.

Lemma calmer_same d d' : same_core d d' -> calmer d d'.
Proof.
  intros (Hs & Ht & _). unfold calmer, is_panel, sealed, prepared_at. rewrite Hs, Ht. tauto.
Qed.
Lemma calmer_turn d t : pt_State t <> TurnPrepared -> calmer d (put_turn t d).
Proof. intros Ht. split; [done|]. intros Hs. split; [done|]. intros id. by apply put_turn_prepared. Qed.
(** A new snapshot keeps the mode, and what seals the old one. *)
Lemma calmer_snapshot d s s' :
  tf_snapshot d = Some s -> ts_Mode s' = ts_Mode s ->
  (ts_Mode s = ModePanel -> closed_at s -> closed_at s') ->
  (Forall (fun p => pa_CurrentTurnID p <> "") (ts_Participants s) -> Forall (fun p => pa_CurrentTurnID p <> "") (ts_Participants s')) ->
  calmer d (put_snapshot s' d).
Proof.
  intros Hs Hm Hc Hp. split.
  - intros (s0 & Hs0 & Hp0). exists s'. split; [done|]. congruence.
  - intros (s0 & Hs0 & Hp0 & Hd). assert (s0 = s) as -> by congruence. split; [|done].
    exists s'. split; [done|]. split; [congruence|]. destruct Hd; auto.
Qed.

Lemma settled_turn_ids t change s : settling t change -> pt_TurnID t <> "" ->
  Forall (fun p => pa_CurrentTurnID p <> "") (ts_Participants s) ->
  Forall (fun p => pa_CurrentTurnID p <> "") (map (change_one (pt_ParticipantID t) change) (ts_Participants s)).
Proof.
  intros (state & _ & Hch) Hid. rewrite !Forall_forall. intros Hps q (p & -> & Hp)%list_elem_of_fmap. specialize (Hps p Hp).
  unfold change_one. case_match; [|done]. destruct (Hch p) as (cur & -> & Hcur). cbn.
  apply elem_of_cons in Hcur as [->|Hcur]; [done|]. apply list_elem_of_singleton in Hcur as ->. done.
Qed.

Lemma calmer_turns : turn_steps calmer.
Proof.
  split; [apply calmer_same|]. intros d t state message diagnostic now completed _ Hm. apply calmer_turn. by eapply moves_not_prepared.
Qed.
Lemma not_sealed_calmer d d' : (is_panel d -> is_panel d') -> ~ sealed d -> calmer d d'.
Proof. intros Hp Hs. split; [done|]. by intros ?%Hs. Qed.

Lemma unsealed d s p : tf_snapshot d = Some s -> ~ closed_at s -> p ∈ ts_Participants s -> pa_CurrentTurnID p = "" -> ~ sealed d.
Proof.
  intros Hs Hc Hp Hid (s0 & Hs0 & _ & [?|Hall]); assert (s0 = s) as -> by congruence; [done|].
  rewrite Forall_forall in Hall. by apply (Hall p).
Qed.

Lemma calmer_round : round_steps teamID calmer.
Proof.
  split; [apply calmer_turns|..].
  - intros d s p now cost cumulative [Hs _] Hc Hp Hid. apply not_sealed_calmer; [done|by eapply unsealed].
  - intros d s ps now [Hs _] Hc Hps (p & Hp & Hid)%Exists_exists. apply not_sealed_calmer; [|by eapply unsealed].
    intros (s0 & Hs0 & Hm). eexists. split; [reflexivity|]. cbn. congruence.
  - intros d d' s t state message diagnostic now now' completed change [Hs _] [Ht Hid] Hmove _ Hch Hcore.
    etrans; [by apply (rs_turn _ calmer_turns d t state message diagnostic now completed)|].
    etrans; [apply calmer_same, Hcore|]. apply (calmer_snapshot _ s).
    + destruct Hcore as (-> & _). done.
    + apply settled_snapshot_mode.
    + intros Hm Hc. unfold closed_at. rewrite settled_snapshot_state by done. by case_match.
    + rewrite settled_snapshot_participants. exact (settled_turn_ids t change s Hch Hid).
  - intros d t count c now _ _ _ _. by split; [|intros Hs; split].
Qed.

Lemma Forall2_ids (ps qs : list ParticipantV1) (rel : ParticipantV1 -> ParticipantV1 -> Prop) :
  Forall2 rel ps qs -> (forall p q, rel p q -> pa_CurrentTurnID q = pa_CurrentTurnID p) ->
  Forall (fun p => pa_CurrentTurnID p <> "") ps -> Forall (fun p => pa_CurrentTurnID p <> "") qs.
Proof.
  intros H2 Hrel. induction H2 as [|p q ps qs Hpq _ IH]; [done|]. rewrite !Forall_cons, (Hrel p q Hpq). intros [? ?]. auto.
Qed.

Lemma calmer_cancel : cancel_steps calmer.
Proof.
  split; [apply calmer_turns|..].
  - intros d s ps now [Hs _] Hc Hps. apply (calmer_snapshot _ s); [done|done|done|].
    apply (Forall2_ids _ _ _ Hps). by intros p q [-> | ->].
  - intros d s ps now [Hs _] Hps. apply (calmer_snapshot _ s); [done|done|done|].
    apply (Forall2_ids _ _ _ Hps). intros p q ->. by case_match.
Qed.

Lemma begin_round_sealed now d fs ts d' fs' :
  is_panel d -> begin_round catalogs now teamID d fs = Returned ts d' fs' -> sealed d'.
Proof.
  intros Hp H. unfold begin_round in H. apply bind_inv in H as (u & d1 & fs1 & H1 & H).
  assert (d' = d1) as ->.
  { apply leaves_returned in H; [done|]. io_leaves. apply leaves_ListTeamTurnIDs. }
  clear H. unfold prepareInitialTurnsLocked in H1.
  apply bind_inv in H1 as (s & d2 & fs2 & (-> & [Hs Hv] & _)%ReadTeamSnapshot_returned & H1).
  destruct Hp as (s0 & Hs0 & Hm). assert (s0 = s) as -> by congruence.
  destruct (ts_State s =s LifecycleClosed) eqn:Hc.
  { injection H1 as <- <- <-. exists s. split_and!; [done|done|left]. by apply String.eqb_eq. }
  destruct (catalogs !! _) as [catalog|]; [|done]. apply String.eqb_neq in Hc.
  apply bind_inv in H1 as ([ps changed] & d3 & fs3 & H3 & H1).
  pose proof (prepare_turns_moves teamID calmer now s catalog 0 (ts_Participants s) d calmer_round (conj Hs Hv) Hc ltac:(done)) as Hm3.
  pose proof (moves_returned _ _ _ _ _ _ _ Hm3 H3) as [_ Hs3]. apply prepare_turns_returned in H3 as [Hps Hch].
  destruct changed; cbn [negb] in H1.
  - apply WriteTeamSnapshot_returned in H1 as ->. eexists. split; [reflexivity|]. split; [done|right]. cbn.
    clear -Hps. induction Hps as [|p q ps qs Hpq _ IH]; constructor; [|done]. rewrite Hpq.
    destruct (pa_CurrentTurnID p =s "") eqn:Hid; [done|by apply String.eqb_neq].
  - injection H1 as <- <- <-. exists s. split_and!; [congruence|done|right]. apply Forall_forall. intros p Hp Hid.
    assert (false = true) by (apply Hch, Exists_exists; eauto). done.
Qed.

(** What holds in every reachable system *)
Record started_once (y : system) : Prop := {
  so_panel : is_panel (sy_files y);
  so_sealed : (sy_tasks y = [] /\ sy_starts y = []) \/ sealed (sy_files y);
  so_once : NoDup (dispatched y);
  so_turn : forall turnID, turnID ∈ dispatched y -> ~ prepared_at (sy_files y) turnID;
  so_valid : Forall (fun request => ValidateStartRequest request = Ok tt) (sy_starts y) }.

Lemma NoDup_submseteq_inv {A} (l k : list A) : l ⊆+ k -> NoDup k -> NoDup l.
Proof. intros (k' & Hk)%submseteq_Permutation. rewrite Hk. by intros (? & _)%NoDup_app. Qed.

Lemma started_once_keeps y y' :
  started_once y -> calmer (sy_files y) (sy_files y') -> dispatched y' ⊆+ dispatched y ->
  (sy_tasks y' = [] /\ sy_starts y' = []) \/ sealed (sy_files y') ->
  Forall (fun request => ValidateStartRequest request = Ok tt) (sy_starts y') -> started_once y'.
Proof.
  intros [Hp Hs Ho Ht Hv] [Hcp Hcs] Hsub Hs' Hv'. split; [auto|done|by eapply NoDup_submseteq_inv| |done].
  intros id Hid Hprep. assert (id ∈ dispatched y) as Hid2 by by eapply elem_of_submseteq.
  apply (Ht id Hid2). destruct Hs as [[Hs1 Hs2]|Hs]; [|by apply (proj2 (Hcs Hs))].
  unfold dispatched in Hid2. rewrite Hs1, Hs2 in Hid2. by apply elem_of_nil in Hid2.
Qed.

(** A section that starts nothing *)
Lemma quiet_section y tasks cancels m fs :
  started_once y -> moves calmer (sy_files y) m -> about_to_start tasks ⊆+ about_to_start (sy_tasks y) ->
  (sy_tasks y = [] -> tasks = []) ->
  (forall ts d fs', m (sy_files y) fs = Returned ts d fs' -> Forall quiet ts /\ (ts = [] \/ sealed d)) ->
  started_once (went_on y tasks cancels (m (sy_files y) fs)).
Proof.
  intros Hy Hm Hsub Hnil Hq. specialize (Hm fs). pose proof (so_valid y Hy) as Hv.
  assert (forall d, calmer (sy_files y) d -> sealed (sy_files y) -> sealed d) as Hkeep by (intros d [_ Hc] Hs; by apply Hc).
  destruct (m (sy_files y) fs) as [ts d fs'|e d fs'|d] eqn:Hr; cbn in Hm; (apply (started_once_keeps y); [done|done|..]); cbn.
  - destruct (Hq _ _ _ eq_refl) as [[Hq1 Hq2]%quiet_starts _]. unfold dispatched. cbn.
    rewrite about_to_start_app, Hq1, Hq2, !app_nil_r. by apply submseteq_app.
  - destruct (Hq _ _ _ eq_refl) as [Hqt [-> |?]]; [|by right].
    destruct (so_sealed y Hy) as [[Hs1 Hs2]|Hs]; [left|right; by apply Hkeep]. cbn. by rewrite Hs2, (Hnil Hs1).
  - destruct (Hq _ _ _ eq_refl) as [[_ Hq2]%quiet_starts _]. by rewrite Hq2, app_nil_r.
  - unfold dispatched. cbn. by apply submseteq_app.
  - destruct (so_sealed y Hy) as [[Hs1 Hs2]|Hs]; [left; auto|right; by apply Hkeep].
  - done.
  - unfold dispatched. cbn. by apply submseteq_inserts_l.
  - destruct (so_sealed y Hy) as [[Hs1 Hs2]|Hs]; [left; auto|right; by apply Hkeep].
  - done.
Qed.

Lemma about_to_start_split before t after :
  about_to_start (before ++ t :: after) ≡ₚ about_to_start [t] ++ about_to_start (before ++ after).
Proof.
  replace (before ++ t :: after) with (before ++ [t] ++ after) by done. rewrite !about_to_start_app.
  rewrite !app_assoc. apply Permutation_app_tail, Permutation_app_comm.
Qed.
Lemma about_to_start_one tasks before t after :
  tasks = before ++ t :: after -> about_to_start (before ++ after) ⊆+ about_to_start tasks.
Proof. intros ->. rewrite about_to_start_split. by apply submseteq_inserts_l. Qed.
Lemma sealed_busy y before t after : started_once y -> sy_tasks y = before ++ t :: after -> sealed (sy_files y).
Proof. intros Hy Ht. destruct (so_sealed y Hy) as [[Hs _]|]; [|done]. rewrite Ht in Hs. by destruct before. Qed.

Lemma dispatch_section y before after turnID cancels now fs :
  started_once y -> sy_tasks y = before ++ TaskDispatch turnID :: after ->
  started_once (went_on y (before ++ after) cancels (dispatchTurn registered now teamID turnID (sy_files y) fs)).
Proof.
  intros Hy Ht. pose proof (sealed_busy _ _ _ _ Hy Ht) as Hs.
  assert (moves calmer (sy_files y) (dispatchTurn registered now teamID turnID)) as Hm
    by (apply dispatchTurn_moves; [apply _|apply calmer_round]).
  pose proof (about_to_start_one _ _ _ _ Ht) as Hsub. set (m := dispatchTurn registered now teamID turnID) in *.
  assert ((forall ts d fs', m (sy_files y) fs = Returned ts d fs' -> Forall quiet ts) \/
    exists t d fs', m (sy_files y) fs = Returned [TaskStart (in_state t TurnDispatching now)] d fs' /\
      turn_at (sy_files y) t /\ pt_State t = TurnPrepared /\ same_core (put_turn (in_state t TurnDispatching now) (sy_files y)) d)
    as [Hq|(t & d & fs' & Hr & Hat & Hst & Hcore)].
  { destruct (m (sy_files y) fs) as [ts d fs'| |] eqn:Hr; [|by left..].
    destruct (dispatchTurn_returned _ _ _ _ _ _ _ _ _ Hr) as [Hq|(t & Hat & Hst & -> & Hcore)]; [left|right; eauto 10].
    by intros ? ? ? [= <- <- <-]. }
  - apply quiet_section; [done|done|done|by rewrite Ht; destruct before|]. intros ts d fs' Hr. split; [by eapply Hq|right].
    pose proof (moves_returned _ _ _ _ _ _ _ Hm Hr) as [_ Hc]. by apply Hc.
  - rewrite Hr. pose proof (moves_returned _ _ _ _ _ _ _ Hm Hr) as [Hp Hc]. destruct (Hc Hs) as [Hs' Hprep].
    assert (dispatched (went_on y (before ++ after) cancels (Returned [TaskStart (in_state t TurnDispatching now)] d fs'))
            ≡ₚ pt_TurnID t :: dispatched y) as Hperm.
    { unfold dispatched. cbn. rewrite about_to_start_app, app_nil_r, Ht, (about_to_start_split before). cbn.
      by rewrite (Permutation_app_comm (about_to_start (before ++ after))). }
    split; cbn.
    + apply Hp, Hy.
    + by right.
    + rewrite Hperm. constructor; [|apply Hy]. intros Hin. apply (so_turn y Hy _ Hin). exists t. by destruct Hat.
    + intros id. rewrite Hperm. intros [-> |Hin]%elem_of_cons Hpr; [|by apply (so_turn y Hy id), Hprep].
      destruct Hpr as (t' & Hl & Hst'). destruct Hcore as (_ & Hturns & _). rewrite Hturns in Hl. cbn in Hl.
      rewrite lookup_insert_eq in Hl. injection Hl as <-. done.
    + rewrite app_nil_r. apply Hy.
Qed.

Lemma start_section y before after turn cancels fs :
  started_once y -> sy_tasks y = before ++ TaskStart turn :: after ->
  started_once (went_on y (before ++ after) cancels ((request ← start_request teamID turn; mret [TaskStarting turn request]) (sy_files y) fs)).
Proof.
  intros Hy Ht. pose proof (sealed_busy _ _ _ _ Hy Ht) as Hs. set (m := _ ≫= _).
  assert (leaves (sy_files y) m) as Hl by (subst m; io_leaves; apply leaves_start_request).
  pose proof (about_to_start_one _ _ _ _ Ht) as Hsub.
  assert ((forall ts d fs', m (sy_files y) fs <> Returned ts d fs') \/ exists request fs', m (sy_files y) fs = Returned [TaskStarting turn request] (sy_files y) fs' /\
    turn_of request = pt_TurnID turn /\ ValidateStartRequest request = Ok tt) as [Hq|(request & fs' & Hr & Hid & Hv)].
  { destruct (m (sy_files y) fs) as [ts d fs'| |] eqn:Hr; [right|by left..].
    pose proof (leaves_returned _ _ _ _ _ _ Hl Hr) as ->. apply bind_inv in Hr as (request & d1 & fs1 & Hr & Hm).
    injection Hm as <- <- <-. apply start_request_returned in Hr as [? ?]. eauto. }
  - apply quiet_section; [done|by apply moves_leaves; [apply _|]|done|by rewrite Ht; destruct before|].
    intros ts d fs' Hr. by apply Hq in Hr.
  - rewrite Hr. apply (started_once_keeps y); cbn; [done|done| |by right|].
    + unfold dispatched. cbn. rewrite about_to_start_app, Ht, (about_to_start_split before). cbn.
      rewrite app_nil_r, map_app. cbn. rewrite Hid, app_assoc, Permutation_app_comm. done.
    + apply Forall_app. split; [apply Hy|by repeat constructor].
Qed.

Lemma section_nil y before t after (tasks : list task) : sy_tasks y = before ++ t :: after -> sy_tasks y = [] -> tasks = [].
Proof. intros -> H. by destruct before. Qed.

Lemma work_started_once y y' : Forall task_ok (sy_tasks y) -> started_once y -> work y y' -> started_once y'.
Proof.
  intros Hok Hy. destruct 1 as [now a fs|now before after t m fs Ht Hm|before after turn request reply Ht|
    before after turn handle reply output Ht|before after t Ht|].
  - apply quiet_section; [done| |done|done|]; [by apply answer_moves; [apply _|apply calmer_round]|].
    intros ts d fs' Hr. split; [by eapply answer_quiet|]. destruct a; cbn [answer] in Hr; [|left; unfold no_tasks in Hr;
      apply bind_inv in Hr as (? & ? & ? & _ & Hr); by injection Hr..].
    right. eapply begin_round_sealed; [apply Hy|exact Hr].
  - pose proof Hok as Hok'. rewrite Ht in Hok'. apply split_ok in Hok' as [_ Hone].
    assert (moves calmer (sy_files y) m) as Hmv by by eapply run_task_moves; [apply _|apply calmer_round|..].
    destruct t as [turnID|turn| | | | | |]; [injection Hm as <-; by apply dispatch_section|injection Hm as <-; by apply start_section|..];
      (apply quiet_section; [done|done|by eapply about_to_start_one|by eapply section_nil|]);
      (intros ts d fs' Hr; split; [by eapply (run_task_quiet registered DecodeStrict teamID _ _ _ _ _ _ _ _ Hm Hr)|right];
       refine (proj1 (proj2 (moves_returned calmer _ _ _ _ _ _ Hmv Hr) (sealed_busy _ _ _ _ Hy Ht)))).
  - apply (quiet_section y _ _ (mret (on_start turn reply)) []); [done|by apply moves_leaves; [apply _|auto with files]|by eapply about_to_start_one|
      by eapply section_nil|]. intros ts d fs' [= <- <- <-]. split; [apply on_start_quiet|right; by eapply sealed_busy].
  - apply (quiet_section y _ _ (mret (on_observe turn handle reply output)) []); [done|by apply moves_leaves; [apply _|auto with files]|by eapply about_to_start_one|
      by eapply section_nil|]. intros ts d fs' [= <- <- <-]. split; [apply on_observe_quiet|right; by eapply sealed_busy].
  - apply (started_once_keeps y); [done|done| |right; exact (sealed_busy _ _ _ _ Hy Ht)|apply Hy].
    unfold dispatched. cbn. apply submseteq_app; [by eapply about_to_start_one|done].
  - apply (started_once_keeps y); [done|done|unfold dispatched; cbn; by apply submseteq_inserts_l| |apply Hy].
    destruct (so_sealed y Hy) as [[? ?]|?]; auto.
Qed.

Lemma step_started_once y y' : Forall task_ok (sy_tasks y) -> started_once y -> step y y' -> started_once y'.
Proof.
  intros Hok Hy. destruct 1 as [y' Hw|now action fs|now before after c replies fs Hc|before after c Hc].
  - by eapply work_started_once.
  - destruct (begun_cancel_same y action (cancel_begin registered now action (sy_files y) fs)) as (Hst & Hts & Hfs).
    assert (calmer (sy_files y) (sy_files (begun_cancel y action (cancel_begin registered now action (sy_files y) fs)))) as Hc.
    { rewrite Hfs. by apply cancel_begin_moves; [apply _|apply calmer_cancel]. }
    apply (started_once_keeps y); [done|done| | |rewrite Hst; apply Hy].
    + unfold dispatched. rewrite Hst. destruct Hts as [-> | ->]; [done|by apply submseteq_inserts_l].
    + destruct (so_sealed y Hy) as [[Ha Hb]|Hs]; [left|right; by apply Hc]. rewrite Hst. split; [|done].
      destruct Hts as [-> | ->]; done.
  - apply quiet_section; [done| |done|done|].
    + unfold no_tasks. apply moves_bind; [apply _|by apply cancel_finish_moves; [apply _|apply calmer_cancel]|].
      intros; apply moves_leaves; [apply _|auto with files].
    + intros ts d fs' Hr. apply bind_inv in Hr as (? & ? & ? & _ & Hr). injection Hr as <- <- <-. by split; [|left].
  - apply (started_once_keeps y); [done|done|done|apply Hy|apply Hy].
Qed.

(** C9: the driver is asked to start a turn at most once, in every history of a
    panel: whatever fails, however often the process dies and the round is
    dispatched again, and whoever cancels meanwhile.  A turn whose start is not
    known to have succeeded is not started again.  Every request it is given is
    one that its contract allows. *)
Theorem turn_started_once (y : system) (H : reachable y) :
  NoDup (map turn_of (sy_starts y)) /\ Forall (fun request => ValidateStartRequest request = Ok tt) (sy_starts y).
Proof.
  assert (started_once y) as Hy; [|split; [|apply Hy]].
  - induction H as [y s Hn|y y' Hr IH Hs]; [|exact (step_started_once y y' (reachable_ok _ _ _ _ y Hr) IH Hs)].
    destruct (np_idle _ _ Hn) as (Ht & _ & Hst). split; unfold dispatched; rewrite ?Ht, ?Hst.
    + exists s. split; apply Hn.
    + by left.
    + constructor.
    + intros id Hid. by apply elem_of_nil in Hid.
    + constructor.
  - by apply (NoDup_app (about_to_start (sy_tasks y))), Hy.
Qed.
End theory.

(** ** Witnesses *)

#[local] Existing Instance demo_sha.
#[local] Existing Instance canonical_range.

(** After a crash and a second dispatch *)
Definition panel_redispatched : list move := panel_asked ++ [MoveCrash; MoveDemand DemandRound []; MoveSection 0 []; MoveSection 0 []].
Lemma turn_started_once_witness :
  map turn_of (sy_starts (history panel_redispatched panel_start)) = ["turn-alice-1"] /\
  NoDup (map turn_of (sy_starts (history panel_redispatched panel_start))).
Proof.
  split; [vm_compute; reflexivity|].
  exact (proj1 (turn_started_once panel_catalogs panel_driver panel_decode "team-1" _ (history_reachable panel_redispatched))).
Defined.
