(* ===== verification/TeamOutcome.v ===== *)
(** * What a panel leaves in its files

    Invariants of the turns, messages and snapshot of a panel over every history:
    a participant contributes one message at most, a panel whose participants
    have settled is closed or being cancelled.  And two ways in which a failure
    is lost: a crash between the end of a turn and the snapshot that says so, and
    an event that is taken for one that is there. *)

From S2P Require Import Prelude GoText Json JsonTree Routing Resolver Catalog Workflow Validate Files Context.
From S2P Require Import TeamContract TeamStore TeamTurns Handoff TeamRounds TeamCancel TeamSystem.
From S2P Require Import HandoffTheory TeamSteps TeamExamples.
#[local] Open Scope string_scope.
#[local] Open Scope list_scope.
#[local] Open Scope Z_scope.

Definition turn_id (participantID : string) : string := "turn-" +:+ participantID +:+ "-1".
Lemma app_inj_r (a b c : string) : a +:+ c = b +:+ c -> a = b.
Proof.
  intros H. apply (f_equal to_list) in H. rewrite !to_list_app in H. apply app_inv_tail in H.
  by rewrite <-(of_to_list a), <-(of_to_list b), H.
Qed.
#[export] Instance turn_id_inj : Inj (=) (=) turn_id.
Proof. intros a b H. injection H as H. exact (app_inj_r a b "-1" H). Qed.

Lemma participants_loop {GR : GoRange} ps seen models r :
  range_loop (fun '(seenIDs, seenModels) participant =>
      _ ← ValidateParticipant participant;
      fail_if seen_in (pa_ParticipantID participant) seenIDs with "duplicate participantId" ;;
      fail_if seen_in (pa_ModelID participant) seenModels with "duplicate participant modelId" ;;
      Ok ({[pa_ParticipantID participant]} ∪ seenIDs, {[pa_ModelID participant]} ∪ seenModels))
    (seen, models) ps = Ok r ->
  NoDup (map pa_ParticipantID ps) /\ Forall (fun p => pa_ParticipantID p ∉ seen) ps.
Proof.
  revert seen models. induction ps as [|p ps IH]; intros seen models H; [by split; constructor|].
  cbn [range_loop] in H. go_run H. go_run G. match goal with H : range_loop _ _ ps = Ok _ |- _ => apply IH in H as [Hnd Hseen] end.
  unfold seen_in in *. bool_props. rewrite Forall_forall in Hseen. split; constructor; try done.
  - intros (q & Hq & Hin)%list_elem_of_fmap. apply (Hseen q Hin). rewrite <-Hq. apply elem_of_union_l, elem_of_singleton_2. done.
  - apply Forall_forall. intros q Hq Hin. by apply (Hseen q Hq), elem_of_union_r.
Qed.
Lemma participants_distinct {GR : GoRange} s : ValidateTeamSession s = Ok tt ->
  NoDup (map pa_ParticipantID (ts_Participants s)) /\ (2 <= length (ts_Participants s))%nat.
Proof.
  unfold ValidateTeamSession. intros H. go_run H. bool_props.
  match goal with H : range_loop _ _ _ = Ok _ |- _ => apply participants_loop in H as [Hnd _] end.
  split; [done|]. unfold len_slice, MinParticipants in *. lia.
Qed.

Section theory.
  Context {GR : GoRange} {SHA : Sha256}.
  Context (catalogs : gmap string CapabilityCatalogV1) (registered : string -> bool) (DecodeStrict : string -> result string ContributionV1).
  Context (teamID : string).
  Abbreviation work := (work catalogs registered DecodeStrict teamID).
  Abbreviation reachable := (reachable catalogs registered DecodeStrict teamID).

(** ** Turns and messages *)

Definition message_ok (m : TeamMessageV1) : Prop :=
  tm_TurnID m = turn_id (tm_Actor m) /\ tm_Kind m = MessageContribution /\
  exists c, ValidateContribution c = Ok tt /\ tm_Content m = json_contribution c /\ tm_ContentHash m = hashBytes (tm_Content m).
Definition turn_ok (messages : list TeamMessageV1) (turnID : string) (t : ParticipantTurnV1) : Prop :=
  pt_TurnID t = turnID /\ turnID = turn_id (pt_ParticipantID t) /\
  if pt_State t =s TurnResponded
  then exists m, m ∈ messages /\ tm_MessageID m = pt_ContributionMessage t /\ tm_TurnID m = turnID
  else pt_ContributionMessage t = "".
Record well_kept (d : team_files) : Prop := {
  wk_messages : Forall message_ok (tf_messages d);
  wk_once : NoDup (map tm_TurnID (tf_messages d));
  wk_turns : map_Forall (turn_ok (tf_messages d)) (turns_of d) }.

Lemma well_kept_same d d' : same_core d d' -> well_kept d -> well_kept d'.
Proof. intros (_ & Ht & Hm) [H1 H2 H3]. split; by rewrite ?Ht, ?Hm. Qed.
Lemma well_kept_turn d t : turn_ok (tf_messages d) (pt_TurnID t) t -> well_kept d -> well_kept (put_turn t d).
Proof. intros Ht [H1 H2 H3]. split; [done|done|]. by apply map_Forall_insert_2. Qed.
Lemma well_kept_snapshot d s : well_kept d -> well_kept (put_snapshot s d).
Proof. by intros [H1 H2 H3]. Qed.

Lemma moves_turn_ok messages t state message diagnostic now completed :
  turn_ok messages (pt_TurnID t) t -> turn_moves messages t state message ->
  turn_ok messages (pt_TurnID t) (turn_with t state message diagnostic now completed).
Proof.
  intros (_ & Hid & Ht) Hm. split_and!; [done|done|]. cbn.
  assert (pt_State t <> TurnResponded -> pt_ContributionMessage t = "") as Hnone.
  { intros Hst. by destruct (String.eqb_spec (pt_State t) TurnResponded). }
  assert (live_turn t = true -> pt_ContributionMessage t = "") as Hlive.
  { intros Hl. apply Hnone. intros Hst. unfold live_turn in Hl. by rewrite Hst in Hl. }
  destruct Hm as [Hst|Hst|state Hl Hst|Hl|Hst|m Hst Hin Htid].
  - apply Hnone. by rewrite Hst.
  - apply Hnone. by rewrite Hst.
  - apply list_elem_of_In in Hst. cbn in Hst. destruct Hst as [<-|[<-|[<-|[]]]]; by apply Hlive.
  - by apply Hlive.
  - apply Hnone. by rewrite Hst.
  - by exists m.
Qed.

Lemma keeps_turns : turn_steps (keeps well_kept).
Proof.
  split; [intros d d' Hc Hd; by apply (well_kept_same d)|]. intros d t state message diagnostic now completed [Ht _] Hm Hd.
  apply well_kept_turn; [|done]. cbn. apply moves_turn_ok; [|done]. by apply (wk_turns d Hd).
Qed.
Lemma keeps_round : round_steps teamID (keeps well_kept).
Proof.
  split; [apply keeps_turns|..].
  - intros d s p now cost cumulative _ _ _ _ Hd. by apply well_kept_turn.
  - intros d s ps now _ _ _ _ Hd. by apply well_kept_snapshot.
  - intros d d' s t state message diagnostic now now' completed change _ Ht Hmove _ _ Hcore Hd. apply well_kept_snapshot.
    eapply well_kept_same; [exact Hcore|]. by apply (rs_turn _ keeps_turns).
  - intros d t count c now [Ht _] Hst Hc Hnew [H1 H2 H3]. pose proof (H3 _ _ Ht) as (_ & Hid & _). split; cbn.
    + apply Forall_app. split; [done|]. repeat constructor; [exact Hid|]. by exists c.
    + rewrite map_app. apply NoDup_app. split; [done|]. split; [|apply NoDup_singleton].
      intros id (m & -> & Hin)%list_elem_of_fmap Heq%list_elem_of_singleton. by apply (Hnew m).
    + eapply map_Forall_impl; [exact H3|]. intros id t' (? & ? & Hr). split_and!; [done|done|].
      case_match; [|done]. destruct Hr as (m & Hin & ?). exists m. split; [|done]. apply elem_of_app. by left.
Qed.
Lemma keeps_cancel : cancel_steps (keeps well_kept).
Proof. split; [apply keeps_turns|..]; intros; intros Hd; by apply well_kept_snapshot. Qed.

Lemma reachable_well_kept y : reachable y -> well_kept (sy_files y).
Proof.
  apply reachable_files; [apply keeps_round|apply keeps_cancel|]. intros y' s Hn. destruct (np_empty _ _ Hn) as [Hm Hr].
  split; rewrite ?Hm, ?Hr; [constructor|constructor|apply map_Forall_empty].
Qed.

(** C15: in every history of a panel a participant contributes one message at
    most, which is the JSON of a valid contribution; and a turn has responded
    only when its participant's message is in the log, as the message that the
    turn names. *)
Theorem contribution_once (y : system) (H : reachable y) :
  NoDup (map tm_Actor (tf_messages (sy_files y))) /\
  Forall (fun m => exists c, ValidateContribution c = Ok tt /\ tm_Content m = json_contribution c) (tf_messages (sy_files y)) /\
  forall turnID t, turns_of (sy_files y) !! turnID = Some t -> pt_State t = TurnResponded ->
    exists m, m ∈ tf_messages (sy_files y) /\ tm_MessageID m = pt_ContributionMessage t /\ tm_Actor m = pt_ParticipantID t.
Proof.
  destruct (reachable_well_kept y H) as [H1 H2 H3]. split_and!.
  - apply (NoDup_fmap_1 turn_id). replace (turn_id <$> map tm_Actor _) with (map tm_TurnID (tf_messages (sy_files y))); [done|].
    clear -H1. unfold fmap. induction H1 as [|m ms (Hm & _) _ IH]; [done|]. cbn in *. by rewrite IH, Hm.
  - eapply List.Forall_impl; [|exact H1]. intros m (_ & _ & c & ? & ? & _). eauto.
  - intros turnID t Hl Hst. destruct (H3 _ _ Hl) as (_ & Hid & Hr). rewrite Hst in Hr. cbn in Hr.
    destruct Hr as (m & Hin & Hmid & Htid). exists m. split_and!; [done|done|]. apply turn_id_inj.
    rewrite List.Forall_forall in H1. apply list_elem_of_In in Hin. destruct (H1 m Hin) as (Ha & _). congruence.
Qed.

(** ** The state of a panel *)

(** A panel is open while a participant has not settled. *)
Definition panel_state (s : TeamSessionV1) : Prop :=
  ts_Mode s = ModePanel /\
  (ts_State s ∈ [LifecycleCancelling; LifecycleClosed] \/
   ts_State s ∈ [LifecycleCreated; LifecycleRunning] /\ existsb unsettled (ts_Participants s) = true).
Definition in_panel_state (d : team_files) : Prop := exists s, tf_snapshot d = Some s /\ panel_state s.

Lemma in_panel_state_turns : turn_steps (keeps in_panel_state).
Proof.
  split; [|by intros d t state message diagnostic now completed _ _ (s & Hd); exists s].
  intros d d' (Hs & _) (s & Hd & Hp). exists s. split; [congruence|done].
Qed.
(** What is left to check of a change of the snapshot *)
Lemma in_panel_state_write d s s' :
  tf_snapshot d = Some s -> (panel_state s -> panel_state s') -> keeps in_panel_state d (put_snapshot s' d).
Proof. intros Hs Hp (s0 & Hs0 & Hp0). exists s'. split; [done|]. apply Hp. congruence. Qed.

Lemma panel_state_prepared s ps now :
  Forall2 prepares (ts_Participants s) ps -> Exists (fun p => pa_CurrentTurnID p = "") (ts_Participants s) ->
  panel_state s -> panel_state (session_with s ps LifecycleRunning (ts_StateVersion s + 1) (ts_CloseReason s) now).
Proof.
  intros Hps Hex [Hm _]. split; [done|right]. split; [apply list_elem_of_In; cbn; tauto|]. cbn. apply existsb_exists.
  clear Hm. induction Hps as [|p q ps qs Hpq _ IH]; [by apply Exists_nil in Hex|].
  apply Exists_cons in Hex as [Hid|Hex]; [|destruct (IH Hex) as (r & ? & ?); exists r; split; [by right|done]].
  exists q. split; [by left|]. rewrite Hpq, Hid. done.
Qed.
Lemma panel_state_settled s t change now : panel_state s -> panel_state (settled_snapshot now t change s).
Proof.
  intros [Hm Hs]. split; [by rewrite settled_snapshot_mode|]. rewrite settled_snapshot_state, settled_snapshot_participants by done.
  destruct (existsb unsettled (map _ _)) eqn:Hex; [|left; right; apply list_elem_of_here].
  destruct Hs as [Hs|[Hs _]]; [by left|by right].
Qed.

Lemma in_panel_state_round : round_steps teamID (keeps in_panel_state).
Proof.
  split; [apply in_panel_state_turns|..].
  - by intros d s p now cost cumulative _ _ _ _ (s0 & Hd); exists s0.
  - intros d s ps now [Hs _] _ Hps Hex. apply (in_panel_state_write d s); [done|]. by apply panel_state_prepared.
  - intros d d' s t state message diagnostic now now' completed change [Hs _] _ _ _ _ Hcore Hd.
    apply (in_panel_state_write d' s); [by destruct Hcore as (-> & _)|apply panel_state_settled|].
    by apply (rs_same _ in_panel_state_turns (put_turn (turn_with t state message diagnostic now completed) d)).
  - by intros d t count c now _ _ _ _ (s & Hd); exists s.
Qed.
Lemma in_panel_state_cancel : cancel_steps (keeps in_panel_state).
Proof.
  split; [apply in_panel_state_turns|..]; intros d s ps now [Hs _]; intros; apply (in_panel_state_write d s); try done;
    intros [Hm _]; (split; [done|left; apply list_elem_of_In; cbn; tauto]).
Qed.

(** C16: the lifecycle of a panel: it is created, running, cancelling or closed and
    nothing else, and when every participant has settled, with a contribution or
    without, it is closed or being cancelled. *)
Theorem settled_panel_closed (y : system) (H : reachable y) :
  exists s, tf_snapshot (sy_files y) = Some s /\ ts_Mode s = ModePanel /\
    ts_State s ∈ [LifecycleCreated; LifecycleRunning; LifecycleCancelling; LifecycleClosed] /\
    (forallb (fun p => negb (unsettled p)) (ts_Participants s) = true -> ts_State s ∈ [LifecycleCancelling; LifecycleClosed]).
Proof.
  assert (in_panel_state (sy_files y)) as (s & Hs & Hm & Hst).
  { refine (reachable_files _ _ _ _ in_panel_state y in_panel_state_round in_panel_state_cancel _ H).
    intros y' s Hn. exists s. split; [apply Hn|]. split; [apply Hn|right]. rewrite (np_created _ _ Hn).
    split; [apply list_elem_of_here|]. pose proof (np_participants _ _ Hn) as Hps.
    pose proof (participants_distinct s (np_valid _ _ Hn)) as [_ Hlen]. destruct Hps as [|p ps [_ Hp] _]; cbn in *; [lia|].
    unfold unsettled. by rewrite Hp. }
  exists s. split_and!; [done|done| |].
  - destruct Hst as [Hst|[Hst _]]; apply list_elem_of_In in Hst; apply list_elem_of_In; cbn in *; tauto.
  - intros Hall. destruct Hst as [Hst|[_ Hex]]; [done|]. apply existsb_exists in Hex as (p & Hin & Hp).
    rewrite forallb_forall in Hall. specialize (Hall p Hin). by rewrite Hp in Hall.
Qed.

(** ** A turn that has ended before its snapshot *)

(** The turn of the participant has ended, and the snapshot says that the
    participant is running: what a crash between the two writes leaves. *)
Definition half_settled (participantID : string) (d : team_files) : Prop :=
  exists s p t, tf_snapshot d = Some s /\ ts_Mode s = ModePanel /\ ts_State s <> LifecycleClosed /\
    p ∈ ts_Participants s /\ pa_ParticipantID p = participantID /\ pa_State p = ParticipantRunning /\
    pa_CurrentTurnID p = turn_id participantID /\
    turns_of d !! turn_id participantID = Some t /\ pt_State t ∈ ended_states.

Definition kept_half_settled (participantID : string) (d : team_files) : Prop := well_kept d /\ half_settled participantID d.

Lemma ended_stays messages t state message : pt_State t ∈ ended_states -> ~ turn_moves messages t state message.
Proof.
  intros Hend. apply list_elem_of_In in Hend. cbn in Hend.
  destruct 1 as [Hst|Hst|state Hl|Hl|Hst|m Hst]; try (rewrite Hst in Hend; by repeat destruct Hend as [Hend|Hend]);
    unfold live_turn in Hl; repeat destruct Hend as [Hend|Hend]; by rewrite <-Hend in Hl || done.
Qed.

Lemma half_settled_turn pid d t : half_settled pid d -> pt_TurnID t <> turn_id pid -> half_settled pid (put_turn t d).
Proof.
  intros (s & p & t0 & H) Hne. exists s, p, t0. cbn. by rewrite lookup_insert_ne by done.
Qed.
Lemma half_settled_other pid d t state message :
  half_settled pid d -> turn_at d t -> turn_moves (tf_messages d) t state message -> pt_TurnID t <> turn_id pid.
Proof.
  intros (s & p & t0 & _ & _ & _ & _ & _ & _ & _ & Hl & Hend) [Ht _] Hm Heq. rewrite Heq, Hl in Ht. injection Ht as <-.
  by eapply ended_stays.
Qed.

Lemma half_settled_same pid d d' : same_core d d' -> half_settled pid d -> half_settled pid d'.
Proof. intros (Hs & Ht & _) (s & p & t & H). exists s, p, t. by rewrite Hs, Ht. Qed.

Lemma half_settled_turns pid : turn_steps (keeps (kept_half_settled pid)).
Proof.
  split.
  - intros d d' Hc [Hk Hh]. split; [by apply (well_kept_same d)|by apply (half_settled_same pid d)].
  - intros d t state message diagnostic now completed Ht Hm [Hk Hh]. split; [by apply (rs_turn _ keeps_turns)|].
    apply half_settled_turn; [done|]. exact (half_settled_other pid d t state message Hh Ht Hm).
Qed.

Lemma half_settled_settled pid d s t change now :
  half_settled pid d -> tf_snapshot d = Some s -> pt_ParticipantID t <> pid ->
  half_settled pid (put_snapshot (settled_snapshot now t change s) d).
Proof.
  intros (s0 & p & t0 & Hs0 & Hm & Hst & Hp & Hid & Hrun & Hcur & Hl & Hend) Hs Hne. assert (s0 = s) as -> by congruence.
  assert (p ∈ map (change_one (pt_ParticipantID t) change) (ts_Participants s)) as Hin.
  { apply list_elem_of_fmap. exists p. split; [|done]. unfold change_one. destruct (String.eqb_spec (pa_ParticipantID p) (pt_ParticipantID t)); congruence. }
  eexists _, p, t0. split; [reflexivity|]. split_and!; try done.
  - by rewrite settled_snapshot_mode.
  - rewrite settled_snapshot_state by done. assert (existsb unsettled (map (change_one (pt_ParticipantID t) change) (ts_Participants s)) = true) as ->; [|done].
    apply existsb_exists. exists p. split; [by apply list_elem_of_In|]. unfold unsettled. by rewrite Hrun.
  - by rewrite settled_snapshot_participants.
Qed.

Lemma half_settled_round pid : round_steps teamID (keeps (kept_half_settled pid)).
Proof.
  split; [apply half_settled_turns|..].
  - intros d s p now cost cumulative [Hs Hv] Hc Hp Hid [Hk Hh]. split; [by apply (rs_first _ _ keeps_round)|].
    apply half_settled_turn; [done|]. intros Heq%turn_id_inj.
    destruct Hh as (s0 & q & t & Hs0 & _ & _ & Hq & Hqid & _ & Hcur & _). assert (s0 = s) as -> by congruence.
    apply participants_distinct in Hv as [Hnd _]. assert (p = q) as -> by (by eapply (NoDup_map_inj pa_ParticipantID); [..|congruence]).
    by rewrite Hid in Hcur.
  - intros d s ps now Hs Hc Hps Hex [Hk Hh]. split; [by apply (rs_prepared _ _ keeps_round)|].
    destruct Hh as (s0 & q & t & Hs0 & Hm & _ & Hq & Hqid & Hrun & Hcur & Hl & Hend). destruct Hs as [Hs _].
    assert (s0 = s) as -> by congruence. exists (session_with s ps LifecycleRunning (ts_StateVersion s + 1) (ts_CloseReason s) now), q, t.
    split_and!; try done. cbn. apply list_elem_of_lookup in Hq as (i & Hi). destruct (Forall2_lookup_l _ _ _ _ _ Hps Hi) as (q' & Hi' & Hpq).
    unfold prepares in Hpq. rewrite Hcur in Hpq. cbn in Hpq. subst q'. by eapply list_elem_of_lookup_2.
  - intros d d' s t state message diagnostic now now' completed change Hs Ht Hmove Hend Hch Hcore [Hk Hh].
    split; [by apply (rs_settled _ _ keeps_round d d' s t state message diagnostic now now' completed change)|].
    pose proof (half_settled_other _ _ _ _ _ Hh Ht Hmove) as Hne. apply half_settled_settled.
    + apply (half_settled_same pid (put_turn (turn_with t state message diagnostic now completed) d)); [done|]. by apply half_settled_turn.
    + destruct Hcore as (-> & _). apply Hs.
    + cbn. destruct Ht as [Ht _]. destruct (wk_turns d Hk _ _ Ht) as (_ & Hid & _). congruence.
  - intros d t count c now Ht Hst Hc Hnew [Hk Hh]. split; [by apply (rs_message _ _ keeps_round)|].
    destruct Hh as (s0 & q & t0 & H). by exists s0, q, t0.
Qed.

(** C22: a crash can leave a panel open for ever: when a turn's file says that it
    has ended and the snapshot still says that its participant is running (the
    process died between the two writes), nothing but a cancellation closes the
    panel again, and the participant stays running, however often the team is
    recovered and dispatched. *)
Theorem half_settled_panel_stuck (participantID : string) (y y' : system) (H : reachable y)
    (Hhalf : half_settled participantID (sy_files y)) (Hwork : rtc work y y') :
  exists s p, tf_snapshot (sy_files y') = Some s /\ ts_State s <> LifecycleClosed /\
    p ∈ ts_Participants s /\ pa_ParticipantID p = participantID /\ pa_State p = ParticipantRunning.
Proof.
  assert (kept_half_settled participantID (sy_files y')) as [_ (s & p & t & Hs & _ & Hst & Hp & Hid & Hrun & _)]; [|by exists s, p].
  pose proof (reachable_ok _ _ _ _ y H) as Hok. pose proof (reachable_well_kept y H) as Hk. clear H.
  induction Hwork as [y|y y1 y2 Hw _ IH]; [done|].
  pose proof (work_files catalogs registered DecodeStrict teamID (keeps (kept_half_settled participantID)) y y1
    (half_settled_round participantID) Hok Hw (conj Hk Hhalf)) as [Hk1 Hh1].
  apply IH; [done|by eapply work_ok|done].
Qed.

(** ** The event of a failure *)

Definition same_events (d d' : team_files) : Prop := tf_events d' = tf_events d.
Definition closes_only (events : list TeamEventV1) (d' : team_files) : Prop :=
  tf_events d' = events \/ exists e, te_Type e = EventTeamClosed /\ te_Summary e = "panel settled" /\ tf_events d' = events ++ [e].

Lemma AppendTeamEvent_events e d :
  moves (fun d d' => tf_events d' = tf_events d \/ tf_events d' = tf_events d ++ [e]) d (AppendTeamEvent e).
Proof.
  intros fs. assert (moves (fun a b => (tf_events a = tf_events d \/ tf_events a = tf_events d ++ [e]) ->
    b = a \/ a = d /\ (tf_events b = tf_events d \/ tf_events b = tf_events d ++ [e])) d (AppendTeamEvent e)) as Hm.
  { unfold AppendTeamEvent.
    set (P := fun a b => _). assert (PreOrder P) as HP.
    { split; [by intros a _; left|]. intros a b c Hab Hbc Ha. destruct (Hab Ha) as [->|[-> Hb]]; [by apply Hbc|].
      destruct (Hbc Hb) as [->|[_ Hc]]; right; done. }
    apply moves_checked; [apply _|]. intros _ _. apply appendTeamRecord_moves; [apply _|]. intros _. right. split; [done|by right]. }
  destruct (Hm fs) as [->|[_ H]]; [by left|by left|done].
Qed.

Lemma update_participants_events id change ps d : moves same_events d (update_participants teamID id change ps).
Proof.
  assert (PreOrder same_events) by apply same_preorder.
  revert d. induction ps as [|p ps IH]; intros d; cbn [update_participants]; [apply moves_leaves; [apply _|auto with files]|].
  apply moves_bind; [apply _| |intros p' fs d' fs' _].
  { case_match; [|apply moves_leaves; [apply _|auto with files]].
    apply moves_bind; [apply _| |intros ? ? ? ? _; apply moves_leaves; [apply _|auto with files]].
    unfold WriteTeamParticipant. do 2 (apply moves_checked; [apply _|]; intros _ _). by apply moves_write_team; [apply _|]. }
  apply moves_bind; [apply _|apply IH|intros ? ? ? ? _; apply moves_leaves; [apply _|auto with files]].
Qed.

Lemma known_event_kept now s eventType summary messageID turnID d :
  existsb (same_event eventType messageID turnID) (tf_events d) = true ->
  leaves d (appendTeamEventLocked now s eventType summary messageID turnID).
Proof.
  intros Hex. unfold appendTeamEventLocked. apply leaves_bind; [apply leaves_ReadTeamEvents|].
  intros events fs fs' ->%readTeamLog_returned. rewrite Hex. auto with files.
Qed.

Lemma settle_turn_events now turn change summary d :
  existsb (same_event EventParticipantEvent (pt_ContributionMessage turn) (pt_TurnID turn)) (tf_events d) = true ->
  moves (fun _ d' => closes_only (tf_events d) d') d (settle_turn now teamID turn change summary).
Proof.
  intros Hex. set (R := fun _ d' => closes_only (tf_events d) d'). assert (Transitive R) as HR by by intros ? ? ?.
  assert (PreOrder same_events) as Hpre by apply same_preorder.
  assert (forall A d1 (m : team_io A), same_events d d1 -> moves same_events d1 m -> moves R d1 m) as Hsame.
  { intros A d1 m H1 Hm fs. left. etrans; [apply Hm|exact H1]. }
  unfold settle_turn. apply moves_bind; [apply _|apply Hsame; [done|apply moves_leaves; [apply _|apply leaves_ReadTeamSnapshot]]|].
  intros s fs d1 fs1 (-> & Hs & _)%ReadTeamSnapshot_returned.
  apply moves_bind; [apply _|apply Hsame; [done|apply update_participants_events]|]. intros ps fs2 d2 fs2' H2.
  apply (moves_returned same_events) in H2; [|apply update_participants_events]. cbv zeta.
  destruct (settleTerminalRound _ _) as [[s' closed] closeSummary] eqn:Hset.
  apply moves_bind; [apply _|apply Hsame; [done|by apply WriteTeamSnapshot_moves; [apply _|]]|].
  intros u fs3 d3 fs3' ->%WriteTeamSnapshot_returned.
  assert (leaves (put_snapshot s' d2) (appendTeamEventLockedFromTurn now teamID turn EventParticipantEvent summary)) as Hl.
  { unfold appendTeamEventLockedFromTurn. apply leaves_bind; [apply leaves_ReadTeamSnapshot|]. intros s2 fs4 fs4' _.
    apply known_event_kept. cbn. by rewrite H2. }
  apply moves_bind; [apply _|apply Hsame; [done|by apply moves_leaves; [apply _|]]|]. intros u2 fs4 d4 fs4' H4.
  apply (leaves_returned _ _ _ _ _ _ Hl) in H4 as ->.
  destruct closed; [|apply Hsame; [done|apply moves_leaves; [apply _|auto with files]]].
  assert (closeSummary = "panel settled") as ->.
  { unfold settleTerminalRound in Hset. repeat case_match; simplify_eq; done. }
  intros fs5. unfold R, closes_only. rewrite <-(H2 : tf_events d2 = tf_events d).
  unfold appendTeamEventLocked, mbind, io_bind.
  destruct (ReadTeamEvents (ts_TeamID s') (put_snapshot s' d2) fs5) as [events d6 fs6|e d6 fs6|d6] eqn:Hr;
    (pose proof (leaves_ReadTeamEvents (ts_TeamID s') (put_snapshot s' d2) fs5) as Hl5; rewrite Hr in Hl5; cbn in Hl5; subst d6);
    [|by left..].
  destruct (existsb _ events); [by left|]. destruct (AppendTeamEvent_events {| te_SchemaVersion := SchemaVersion; te_TeamID := ts_TeamID s';
    te_Sequence := wrap_uint64 (len_slice events + 1); te_Type := EventTeamClosed; te_StateVersion := ts_StateVersion s'; te_MessageID := "";
    te_TurnID := ""; te_Summary := boundedDiagnostic "panel settled"; te_CreatedAt := now |} (put_snapshot s' d2) fs6) as [Ha|Ha];
    [left; exact Ha|right]. eexists. split_and!; [| |exact Ha]; reflexivity.
Qed.

(** A turn that fails after it was dispatched leaves no event: the log has its
    "turn dispatching" event, events are told apart by type, message and turn
    only, so the one that carries the failure's diagnostic is taken for it and
    dropped.  At most the closing of the panel is announced. *)
Theorem failure_event_lost (turnID state diagnostic : string) (now : Z) (fs : list fate) (y : system) (H : reachable y)
    (Hdispatched : existsb (same_event EventParticipantEvent "" turnID) (tf_events (sy_files y)) = true) :
  closes_only (tf_events (sy_files y)) (files_after (markTurnFailureLocked now teamID turnID state diagnostic (sy_files y) fs)).
Proof.
  pose proof (reachable_well_kept y H) as Hk. clear H. revert fs. set (d := sy_files y) in *.
  change (moves (fun _ d' => closes_only (tf_events d) d') d (markTurnFailureLocked now teamID turnID state diagnostic)).
  assert (forall A (m : team_io A), leaves d m -> moves (fun _ d' => closes_only (tf_events d) d') d m) as Hleaves.
  { intros A m Hm fs. left. by rewrite Hm. }
  unfold markTurnFailureLocked. apply moves_bind; [by intros ? ? ?|apply Hleaves, leaves_ReadTeamTurn|].
  intros t fs1 d1 fs1' (-> & [Ht _] & <-)%ReadTeamTurn_returned.
  destruct (live_turn t) eqn:Hlive; cbn [negb]; [|apply Hleaves; auto with files].
  apply moves_bind; [by intros ? ? ?| |].
  { assert (PreOrder same_events) as Hpre by apply same_preorder. intros fs. left.
    by refine (WriteTeamTurn_moves same_events _ d _ fs). }
  intros u fs2 d2 fs2' ->%WriteTeamTurn_returned. set (turn := turn_with _ _ _ _ _ _).
  refine (settle_turn_events now turn _ _ (put_turn turn d) _). unfold turn. cbn [pt_ContributionMessage pt_TurnID turn_with put_turn put_round tf_events].
  destruct (wk_turns d Hk _ _ Ht) as (_ & _ & Hm). destruct (String.eqb_spec (pt_State t) TurnResponded) as [Hst|_]; [|by rewrite Hm].
  unfold live_turn in Hlive. by rewrite Hst in Hlive.
Qed.
(** ** A contribution that is too long as JSON *)

Lemma message_bounded m u : ValidateMessage m = Ok u -> len (tm_Content m) <= MaxMessageBytes.
Proof.
  unfold ValidateMessage. intros H. go_run H. unfold validateBounded in *.
  repeat match goal with H : (fail_if _ with _ ;; _) = Ok _ |- _ => go_run H end. bool_props. lia.
Qed.

(** A valid contribution may never be accepted: its content is bounded as
    text, the message as the contribution's JSON, in which a character can take
    six bytes.  When that JSON is longer than a message may be, the commit of the
    contribution fails and changes nothing, now and on every later try: the turn
    stays active. *)
Theorem large_contribution_refused (d : team_files) (turnID : string) (t : ParticipantTurnV1) (c : ContributionV1) (now : Z)
    (Ht : turns_of d !! turnID = Some t) (Hst : pt_State t = TurnActive)
    (Hnew : Forall (fun m => tm_TurnID m <> turnID) (tf_messages d)) (Hlarge : MaxMessageBytes < len (json_contribution c)) :
  blocked d (commit_locked now teamID turnID c).
Proof.
  unfold commit_locked. apply blocked_bind; [apply leaves_ReadTeamTurn|]. intros t' fs fs' (_ & [Ht' _] & Hid)%ReadTeamTurn_returned.
  assert (t' = t) as -> by congruence. assert ((pt_State t ≠s TurnActive) = false) as -> by by rewrite Hst.
  apply blocked_bind; [apply leaves_ReadTeamMessages|]. intros messages fs1 fs1' ->%readTeamLog_returned. cbv zeta.
  assert (List.find (fun message => tm_TurnID message =s pt_TurnID t) (tf_messages d) = None) as ->.
  { destruct (List.find _ _) as [m|] eqn:Hf; [|done]. apply List.find_some in Hf as [Hin Heq%String.eqb_eq].
    rewrite List.Forall_forall in Hnew. specialize (Hnew m Hin). congruence. }
  do 2 apply blocked_bind_l. apply blocked_checked. intros u Hv. exfalso. revert Hv.
  intros Hv. assert (len (json_contribution c) <= MaxMessageBytes); [|lia]. by refine (message_bounded _ _ Hv).
Qed.
End theory.

(** ** Witnesses *)

#[local] Existing Instance demo_sha.
#[local] Existing Instance canonical_range.

Definition panel_answered : list move := panel_ran "report" ++ [MoveSection 1 []].
Lemma contribution_once_witness :
  map tm_Actor (tf_messages (sy_files (history panel_answered panel_start))) = ["alice"] /\
  NoDup (map tm_Actor (tf_messages (sy_files (history panel_answered panel_start)))).
Proof.
  split; [vm_compute; reflexivity|].
  exact (proj1 (contribution_once panel_catalogs panel_driver panel_decode "team-1" _ (history_reachable panel_answered))).
Defined.

Definition panel_all : list move := [MoveDemand DemandRound []] ++ panel_turn "one" ++ panel_last_turn "two".
Lemma settled_panel_closed_witness :
  panel_view (history panel_all panel_start) = (LifecycleClosed, ClosePanelSettled, [ParticipantResponded; ParticipantResponded]) /\
  exists s, tf_snapshot (sy_files (history panel_all panel_start)) = Some s /\ ts_Mode s = ModePanel.
Proof.
  split; [vm_compute; reflexivity|].
  destruct (settled_panel_closed panel_catalogs panel_driver panel_decode "team-1" _ (history_reachable panel_all)) as (s & Hs & Hm & _).
  exists s. split; [exact Hs|exact Hm].
Defined.

Definition half_settled_check (participantID : string) (d : team_files) : bool :=
  match tf_snapshot d, turns_of d !! turn_id participantID with
  | Some s, Some t =>
      (ts_Mode s =s ModePanel) && (ts_State s ≠s LifecycleClosed) && contains_string ended_states (pt_State t) &&
      existsb (fun p => (pa_ParticipantID p =s participantID) && (pa_State p =s ParticipantRunning) &&
                        (pa_CurrentTurnID p =s turn_id participantID)) (ts_Participants s)
  | _, _ => false
  end.
Lemma half_settled_checked participantID d : half_settled_check participantID d = true -> half_settled participantID d.
Proof.
  unfold half_settled_check. destruct (tf_snapshot d) as [s|] eqn:Hs; [|done]. destruct (turns_of d !! _) as [t|] eqn:Ht; [|done].
  intros H. bool_props. match goal with H : existsb _ _ = true |- _ => apply existsb_exists in H as (p & Hin & Hp) end. bool_props.
  exists s, p, t. split_and!; try done; [by apply list_elem_of_In|].
  unfold contains_string in *. match goal with H : existsb _ _ = true |- _ => apply existsb_exists in H as (x & Hx & Heq%String.eqb_eq) end.
  apply list_elem_of_In. by subst.
Qed.

Definition panel_recovered : list move := [MoveCrash; MoveDemand DemandRound []; MoveSection 0 []; MoveSection 0 []].
Lemma half_settled_panel_stuck_witness :
  panel_view (history panel_recovered (history panel_torn panel_start)) = (LifecycleRunning, "", [ParticipantRunning; ParticipantRunning]) /\
  exists s p, tf_snapshot (sy_files (history panel_recovered (history panel_torn panel_start))) = Some s /\ ts_State s <> LifecycleClosed /\
    p ∈ ts_Participants s /\ pa_ParticipantID p = "alice" /\ pa_State p = ParticipantRunning.
Proof.
  split; [vm_compute; reflexivity|].
  refine (half_settled_panel_stuck panel_catalogs panel_driver panel_decode "team-1" "alice" _ _ (history_reachable panel_torn) _ _).
  - apply half_settled_checked. vm_compute. reflexivity.
  - apply history_works. vm_compute. reflexivity.
Defined.

Definition panel_failing : list move := panel_asked ++ [MoveStarted 1 (Err "no quota")].
Lemma failure_event_lost_witness :
  map te_Summary (tf_events (files_after (markTurnFailureLocked 30 "team-1" "turn-alice-1" TurnFailed "no quota" (sy_files (history panel_failing panel_start)) [])))
    = ["turn prepared"; "turn prepared"; "turn dispatching"] /\
  closes_only (tf_events (sy_files (history panel_failing panel_start)))
    (files_after (markTurnFailureLocked 30 "team-1" "turn-alice-1" TurnFailed "no quota" (sy_files (history panel_failing panel_start)) [])).
Proof.
  split; [vm_compute; reflexivity|].
  refine (failure_event_lost panel_catalogs panel_driver panel_decode "team-1" "turn-alice-1" TurnFailed "no quota" 30 [] _
    (history_reachable panel_failing) _). vm_compute. reflexivity.
Defined.

(** Six thousand characters, of the 32768 bytes that a contribution may have *)
Definition long_contribution : ContributionV1 := {|
  co_SchemaVersion := SchemaVersion; co_Status := ContributionCompleted; co_ResultType := ""; co_Output := "";
  co_ContentMarkdown := of_list (repeat "<"%char 6000); co_Warnings := []; co_OpenQuestions := []; co_UsageEstimates := None |}.
Definition panel_active : team_files := sy_files (history (panel_ran "") panel_start).
Lemma panel_active_turn : exists t, turns_of panel_active !! "turn-alice-1" = Some t /\ pt_State t = TurnActive.
Proof.
  assert (from_option pt_State "" (turns_of panel_active !! "turn-alice-1") = TurnActive) as H by (vm_compute; reflexivity).
  destruct (turns_of panel_active !! "turn-alice-1") as [t|]; [by exists t|done].
Qed.
Lemma large_contribution_refused_witness :
  ValidateContribution long_contribution = Ok tt /\ blocked panel_active (commit_locked 30 "team-1" "turn-alice-1" long_contribution).
Proof.
  split; [vm_compute; reflexivity|]. destruct panel_active_turn as (t & Ht & Hst).
  refine (large_contribution_refused "team-1" panel_active "turn-alice-1" t long_contribution 30 Ht Hst _ _).
  - replace (tf_messages panel_active) with (@nil TeamMessageV1) by (vm_compute; reflexivity). constructor.
  - vm_compute. reflexivity.
Defined.
