(* ===== verification/TeamStartTheory.v ===== *)
(** * What starting a team guarantees

    Over the directories of all teams: requests of one client id name one team
    for ever, and a new panel is one that TeamSystem starts from.  A crash between
    the making of a team's directory and its snapshot leaves a directory that no
    start and no recovery passes. *)

From S2P Require Import Prelude GoText Json JsonTree Routing Resolver Catalog Workflow Validate Files Context.
From S2P Require Import TeamContract TeamStore TeamTurns Handoff TeamRounds TeamCancel TeamStart TeamSystem.
From S2P Require Import ResolverTheory HandoffTheory TeamSteps TeamExamples TeamOutcome.
#[local] Open Scope string_scope.
#[local] Open Scope list_scope.
#[local] Open Scope Z_scope.

(** ** One team among many *)

Lemma at_team_other {A} teamID (m : team_io A) ds fs id :
  id <> teamID -> files_after (at_team teamID m ds fs) !! id = ds !! id.
Proof.
  intros Hne. unfold at_team. destruct (m _ fs), (ds !! teamID); cbn; by rewrite ?lookup_insert_ne by done.
Qed.
Lemma at_team_files {A} teamID (m : team_io A) ds fs d :
  ds !! teamID = Some d -> files_after (at_team teamID m ds fs) = <[teamID := files_after (m d fs)]> ds.
Proof. intros Hd. unfold at_team. rewrite Hd. cbn. by destruct (m d fs). Qed.
Lemma at_team_absent {A} teamID (m : team_io A) ds fs :
  ds !! teamID = None -> files_after (at_team teamID m ds fs) = ds.
Proof. intros Hd. unfold at_team. rewrite Hd. cbn. by destruct (m empty_team fs). Qed.
Lemma at_team_returned {A} teamID (m : team_io A) ds fs a ds' fs' :
  at_team teamID m ds fs = Returned a ds' fs' ->
  exists d', m (default empty_team (ds !! teamID)) fs = Returned a d' fs' /\
    ds' = match ds !! teamID with Some _ => <[teamID := d']> ds | None => ds end.
Proof. unfold at_team. destruct (m _ fs) as [a0 d0 fs0| |]; [|done..]. intros [= <- <- <-]. eauto. Qed.
Lemma at_team_leaves {A} teamID (m : team_io A) ds : (forall d, leaves d m) -> leaves ds (at_team teamID m).
Proof.
  intros Hm fs. destruct (ds !! teamID) as [d|] eqn:Hd; [|by apply at_team_absent].
  rewrite (at_team_files _ _ _ _ d Hd), Hm. by apply insert_id.
Qed.

Section theory.
  Context {GR : GoRange} {SHA : Sha256} {CD : CatalogDigest}.

Lemma leaves_find_started crid hash ids ds : leaves ds (find_started crid hash ids).
Proof.
  induction ids as [|id ids IH]; cbn [find_started]; [auto with files|].
  apply leaves_bind; [apply at_team_leaves; intros d; apply leaves_ReadTeamSnapshot|]. intros s _ _ _.
  repeat case_match; auto with files.
Qed.

Lemma find_started_returned crid hash ids ds fs r ds' fs' :
  find_started crid hash ids ds fs = Returned r ds' fs' ->
  match r with
  | Some s => ts_TeamID s ∈ ids /\ ts_ClientRequestID s = crid /\ ts_RequestHash s = hash /\
              exists d, (ds !! ts_TeamID s = Some d) /\ snapshot_at d s
  | None => forall id, id ∈ ids -> exists d s, ds !! id = Some d /\ tf_snapshot d = Some s /\ ts_ClientRequestID s <> crid
  end.
Proof.
  revert fs. induction ids as [|id ids IH]; intros fs H; cbn [find_started] in H.
  { injection H as <- <- <-. intros id Hid. by apply elem_of_nil in Hid. }
  apply bind_inv in H as (s & ds1 & fs1 & H1 & H).
  pose proof (leaves_returned _ _ _ _ _ _ (at_team_leaves id _ ds (fun d => leaves_ReadTeamSnapshot id d)) H1) as ->.
  apply at_team_returned in H1 as (d' & (-> & Hs & Hid)%ReadTeamSnapshot_returned & _).
  assert (exists d, ds !! id = Some d /\ snapshot_at d s) as (d & Hd & Hsd).
  { destruct (ds !! id) as [d|]; [by exists d|]. destruct Hs as [Hs _]. done. }
  destruct (String.eqb_spec (ts_ClientRequestID s) crid) as [Hc|Hc]; cbn [negb] in H.
  - destruct (String.eqb_spec (ts_RequestHash s) hash) as [Hh|Hh]; cbn [negb] in H; [|done]. injection H as <- <- <-.
    rewrite Hid. split_and!; [left|done|done|by exists d].
  - apply IH in H. destruct r as [s'|].
    + destruct H as (Hin & H). split; [by right|done].
    + intros id' [-> |Hin]%elem_of_cons; [|by apply H]. exists d, s. destruct Hsd. done.
Qed.

Lemma sort_strings_in x l : x ∈ sort_strings l <-> x ∈ l.
Proof. by rewrite sort_strings_perm. Qed.
Lemma ListTeamIDs_returned ds fs ids ds' fs' :
  ListTeamIDs ds fs = Returned ids ds' fs' -> ds' = ds /\ forall id, id ∈ ids <-> safe_id id = true /\ is_Some (ds !! id).
Proof.
  intros H%call_inv. injection H as <- <-. split; [done|]. intros id. rewrite sort_strings_in, list_elem_of_filter.
  apply and_iff_compat_l. split.
  - intros ([id' d] & -> & Hin%elem_of_map_to_list)%list_elem_of_fmap. by exists d.
  - intros [d Hd]. apply list_elem_of_fmap. exists (id, d). by rewrite elem_of_map_to_list.
Qed.

(** ** Who asked for which team *)

(** The client's request in a team's snapshot: its id and its hash *)
Definition request_key (s : TeamSessionV1) : string * string := (ts_ClientRequestID s, ts_RequestHash s).
Definition asked_for (d : team_files) : option (string * string) := request_key <$> tf_snapshot d.
Definition clients (ds : teams) : gmap string (option (string * string)) := asked_for <$> ds.

Definition same_request (d d' : team_files) : Prop := asked_for d' = asked_for d.
#[local] Instance same_request_preorder : PreOrder same_request := same_preorder _.

Lemma same_request_core d d' : same_core d d' -> same_request d d'.
Proof. intros (Hs & _). unfold same_request, asked_for. by rewrite Hs. Qed.
Lemma same_request_snapshot d s s' : tf_snapshot d = Some s -> request_key s' = request_key s -> same_request d (put_snapshot s' d).
Proof. intros Hs Hk. unfold same_request, asked_for. cbn. rewrite Hs. cbn. by rewrite Hk. Qed.
Lemma same_request_turns : turn_steps same_request.
Proof. split; [apply same_request_core|done]. Qed.
Lemma same_request_round teamID : round_steps teamID same_request.
Proof.
  split; [apply same_request_turns|done| | |done].
  - intros d s ps now [Hs _] _ _ _. by apply (same_request_snapshot d s).
  - intros d d' s t state message diagnostic now now' completed change [Hs _] _ _ _ _ Hc.
    etrans; [|apply (same_request_snapshot d' s)].
    + apply (same_request_core (put_turn (turn_with t state message diagnostic now completed) d)), Hc.
    + by destruct Hc as (-> & _).
    + unfold settled_snapshot, settleTerminalRound. by repeat case_match.
Qed.
Lemma same_request_cancel : cancel_steps same_request.
Proof.
  split; [apply same_request_turns|..]; intros d s ps now [Hs _]; intros; by apply (same_request_snapshot d s).
Qed.

(** A team's steps leave everybody's requests as they are. *)
Lemma clients_insert ds id d d' : ds !! id = Some d -> same_request d d' -> clients (<[id := d']> ds) = clients ds.
Proof.
  intros Hd Hs. unfold clients. rewrite fmap_insert, Hs. apply insert_id. by rewrite lookup_fmap, Hd.
Qed.
Lemma clients_at_team {A} id (m : team_io A) ds fs :
  (forall d, ds !! id = Some d -> moves same_request d m) -> clients (files_after (at_team id m ds fs)) = clients ds.
Proof.
  intros Hm. destruct (ds !! id) as [d|] eqn:Hd; [|by rewrite at_team_absent].
  rewrite (at_team_files _ _ _ _ d Hd). by apply (clients_insert _ _ d), Hm.
Qed.

(** ** What Start does *)

Definition first_write (s : TeamSessionV1) (d d' : team_files) : Prop := d' = d \/ d' = put_snapshot s d.
#[local] Instance first_write_preorder s : PreOrder (first_write s).
Proof.
  split; [by intros d; left|]. intros a b c [-> | ->] [-> | ->]; unfold first_write; auto.
Qed.
Lemma EnsureTeamSnapshot_moves s d : moves (first_write s) d (EnsureTeamSnapshot s).
Proof.
  unfold EnsureTeamSnapshot. apply moves_checked; [apply _|]. intros _ _. apply ensureJSON_moves; [apply _|]. intros _. by right.
Qed.
Lemma EnsureTeamSnapshot_returned s d fs u d' fs' : tf_snapshot d = None ->
  EnsureTeamSnapshot s d fs = Returned u d' fs' -> d' = put_snapshot s d /\ ValidateTeamSession s = Ok tt.
Proof.
  intros Hd H. pose proof (moves_returned _ _ _ _ _ _ _ (EnsureTeamSnapshot_moves s d) H) as Hm. unfold EnsureTeamSnapshot in H.
  apply bind_inv in H as ([] & d1 & fs1 & [Hv ->]%checked_inv & H). split; [|done]. destruct Hm as [-> | ->]; [|done].
  apply ensureJSON_returned in H as (v & Hv' & _); [|done]. congruence.
Qed.

Lemma InitTeam_after teamID ds fs : files_after (InitTeam teamID ds fs) = ds \/
  files_after (InitTeam teamID ds fs) = match ds !! teamID with Some _ => ds | None => <[teamID := empty_team]> ds end /\ safe_id teamID = true.
Proof.
  unfold InitTeam, valid_id. destruct (safe_id teamID); [|by left]. cbn [negb].
  set (act := fun ds : teams => _). change (checked id _) with (mret tt : teams_io unit).
  change (files_after ((_ ← call act; touch) ds fs) = ds \/ files_after ((_ ← call act; touch) ds fs) = (act ds).2 /\ true = true).
  pose proof (call_set (E := TeamError) act ds fs) as Hm. unfold mbind, io_bind.
  destruct (call act ds fs) as [u ds1 fs1|e ds1 fs1|ds1]; cbn in Hm |- *; [|destruct Hm; auto..].
  rewrite (leaves_touch ds1 fs1). destruct Hm; auto.
Qed.
Lemma InitTeam_returned id ds fs u ds' fs' : InitTeam id ds fs = Returned u ds' fs' ->
  safe_id id = true /\ ds' = match ds !! id with Some _ => ds | None => <[id := empty_team]> ds end.
Proof.
  unfold InitTeam, valid_id. intros H. io_inv. match goal with H : call _ _ _ = _ |- _ => apply call_inv in H; injection H as <- end.
  split; [|done]. by destruct (safe_id id).
Qed.

(** Every outcome of the creation of a team, for those who read the requests *)
Definition may_create (s : TeamSessionV1) (ds ds' : teams) : Prop :=
  clients ds' = clients ds \/
  safe_id (ts_TeamID s) = true /\ exists r, clients ds' = <[ts_TeamID s := r]> (clients ds) /\ (r = None \/ r = Some (request_key s)).

Lemma may_create_insert s ds d : safe_id (ts_TeamID s) = true -> d = empty_team \/ d = put_snapshot s empty_team ->
  may_create s ds (<[ts_TeamID s := d]> ds).
Proof.
  intros Hs Hd. right. split; [done|]. exists (asked_for d). split; [apply fmap_insert|]. destruct Hd as [-> | ->]; auto.
Qed.

Lemma create_team_files s ds : ds !! ts_TeamID s = None -> moves (fun _ ds' => may_create s ds ds') ds (create_team s).
Proof.
  intros Hnew. unfold create_team. destruct (_ <? _); [by left|].
  apply moves_bind; [by intros ? ? ?| |intros u fs1 ds1 fs1' [Hsafe ->]%InitTeam_returned; rewrite Hnew].
  { intros fs. destruct (InitTeam_after (ts_TeamID s) ds fs) as [-> |[-> Hs]]; [by left|]. rewrite Hnew.
    apply may_create_insert; auto. }
  set (ds1 := <[ts_TeamID s := empty_team]> ds). assert (ds1 !! ts_TeamID s = Some empty_team) as Hat by apply lookup_insert_eq.
  assert (moves (fun _ ds' => may_create s ds ds') ds1 (at_team (ts_TeamID s) (EnsureTeamSnapshot s))) as Hens.
  { intros fs. rewrite (at_team_files _ _ _ _ _ Hat). unfold ds1. rewrite insert_insert_eq. apply may_create_insert; [done|].
    apply EnsureTeamSnapshot_moves. }
  apply moves_bind; [by intros ? ? ?|exact Hens|]. intros u2 fs2 ds2 fs2' H2. pose proof (moves_returned _ _ _ _ _ _ _ Hens H2) as Hm2.
  apply moves_bind; [by intros ? ? ?| |intros u3 fs3 ds3 fs3' H3].
  - intros fs. unfold may_create. rewrite clients_at_team; [exact Hm2|]. intros d _.
    eapply moves_weaken; [apply same_request_core|apply repairPreparedTeamLocked_moves].
  - intros fs. change (may_create s ds ds3). unfold may_create. assert (clients ds3 = clients ds2) as ->; [|exact Hm2].
    pose proof (clients_at_team (ts_TeamID s) (repairPreparedTeamLocked s) ds2 fs3) as Hc. rewrite H3 in Hc. apply Hc. intros d _.
    eapply moves_weaken; [apply same_request_core|apply repairPreparedTeamLocked_moves].
Qed.

(** A team that was created *)
Lemma create_team_returned s ds fs r ds' fs' : ds !! ts_TeamID s = None -> create_team s ds fs = Returned r ds' fs' ->
  r = {| sres_Team := s; sres_Replayed := false |} /\ ts_CostUsed s <= ts_CostGrant s /\ ValidateTeamSession s = Ok tt /\
  exists d, ds' = <[ts_TeamID s := d]> ds /\ same_core (put_snapshot s empty_team) d.
Proof.
  intros Hnew H. unfold create_team in H. destruct (_ <? _) eqn:Hq; [done|]. apply Z.ltb_ge in Hq.
  apply bind_inv in H as (u & ds1 & fs1 & [_ ->]%InitTeam_returned & H). rewrite Hnew in H.
  apply bind_inv in H as (u2 & ds2 & fs2 & H2 & H). apply at_team_returned in H2 as (d2 & H2 & ->).
  rewrite lookup_insert_eq in *. cbn [default] in H2. apply EnsureTeamSnapshot_returned in H2 as [-> Hv]; [|done].
  rewrite insert_insert_eq in H. apply bind_inv in H as (u3 & ds3 & fs3 & H3 & H). apply at_team_returned in H3 as (d3 & H3 & ->).
  rewrite lookup_insert_eq in *. cbn [default] in H3. injection H as <- <- <-. split_and!; [done|done|done|].
  exists d3. rewrite insert_insert_eq. split; [done|]. by apply (moves_returned same_core) in H3; [|apply repairPreparedTeamLocked_moves].
Qed.

(** ** Histories of all teams *)

Section teams.
  Context (DecodeStrict : string -> result string ContributionV1).

(** A request to start a team, which draws an id that no team has, or a step of
    a team; the service's catalogs and drivers change as they like. *)
Inductive teams_step (ds : teams) : teams -> Prop :=
| teams_start (catalog : CapabilityCatalogV1) (catalogs : gmap string CapabilityCatalogV1) (supports : list ParticipantV1 -> bool)
    (now : Z) (newID : string) (project : result string string) (request : TeamStartRequestV1) (fs : list fate) :
    ds !! newID = None -> teams_step ds (files_after (Start catalog catalogs supports now newID project request ds fs))
| teams_work (catalogs : gmap string CapabilityCatalogV1) (registered : string -> bool) (teamID : string) (y y' : system) :
    ds !! teamID = Some (sy_files y) -> Forall task_ok (sy_tasks y) -> step catalogs registered DecodeStrict teamID y y' ->
    teams_step ds (<[teamID := sy_files y']> ds).

(** A client's request is that of one team at most, and a team's directory has
    the name of an id. *)
Record named (ds : teams) : Prop := {
  nm_safe : forall teamID, is_Some (ds !! teamID) -> safe_id teamID = true;
  nm_once : forall id1 id2 c h1 h2, clients ds !! id1 = Some (Some (c, h1)) -> clients ds !! id2 = Some (Some (c, h2)) -> id1 = id2 }.
(** Nobody's request is forgotten. *)
Definition remembers (ds ds' : teams) : Prop :=
  forall teamID key, clients ds !! teamID = Some (Some key) -> clients ds' !! teamID = Some (Some key).
#[local] Instance remembers_preorder : PreOrder remembers.
Proof. split; [by intros ? ? ?|]. intros a b c Hab Hbc id key H. by apply Hbc, Hab. Qed.

Lemma clients_dom ds teamID : is_Some (ds !! teamID) <-> is_Some (clients ds !! teamID).
Proof. unfold clients. rewrite lookup_fmap. by destruct (ds !! teamID); split; intros []. Qed.

Lemma same_clients_named ds ds' : clients ds' = clients ds -> named ds -> named ds' /\ remembers ds ds'.
Proof.
  intros Hc [Hs Ho]. split; [split|].
  - intros id. rewrite clients_dom, Hc, <-clients_dom. apply Hs.
  - intros id1 id2 c h1 h2. rewrite Hc. apply Ho.
  - intros id key. by rewrite Hc.
Qed.

Lemma may_create_named s ds ds' :
  ds !! ts_TeamID s = None -> (forall id h, clients ds !! id <> Some (Some (ts_ClientRequestID s, h))) ->
  may_create s ds ds' -> named ds -> named ds' /\ remembers ds ds'.
Proof.
  intros Hnew Hfree [Hc|(Hsafe & r & Hc & Hr)] Hn; [by apply same_clients_named|].
  assert (clients ds !! ts_TeamID s = None) as Hnone by (unfold clients; by rewrite lookup_fmap, Hnew). destruct Hn as [Hs Ho].
  assert (forall id key, clients ds' !! id = Some (Some key) -> id = ts_TeamID s /\ key = request_key s \/ clients ds !! id = Some (Some key)) as Hcase.
  { intros id key. rewrite Hc. intros [[<- H]|[_ H]]%lookup_insert_Some; [left|by right]. destruct Hr; simplify_eq; done. }
  split; [split|].
  - intros id. rewrite clients_dom, Hc. intros [x [[<- _]|[_ H]]%lookup_insert_Some]; [done|]. apply Hs, clients_dom. by exists x.
  - intros id1 id2 c h1 h2 [[-> [= -> ->]]|H1]%Hcase [[-> Hk]|H2]%Hcase; [done| | |by eapply Ho].
    + by apply Hfree in H2.
    + injection Hk as -> ->. by apply Hfree in H1.
  - intros id key H. rewrite Hc, lookup_insert_ne; [done|]. intros <-. congruence.
Qed.

Lemma normalizeStart_returned catalog request project normalized participants catalogHash :
  normalizeStart catalog request project = Ok (normalized, participants, catalogHash) ->
  sr_ClientRequestID normalized = sr_ClientRequestID request /\ sr_Mode normalized = sr_Mode request /\
  exists specs, resolve_specs (CanonicalCatalogV1 catalog) 0 ∅ specs = Ok participants /\ sr_Participants normalized = specs.
Proof.
  unfold normalizeStart. intros H. apply bind_ok in H as (hash & _ & H). apply bind_ok in H as (specs & _ & H).
  apply bind_ok in H as (ps & Hps & H). injection H as <- <- <-. split_and!; [done|done|by exists specs].
Qed.

Section start.
  Context (catalog : CapabilityCatalogV1) (catalogs : gmap string CapabilityCatalogV1) (supports : list ParticipantV1 -> bool).
  Context (now : Z) (newID : string) (project : result string string) (request : TeamStartRequestV1).
  Abbreviation start := (Start catalog catalogs supports now newID project request).

(** What Start comes to: it reads, then it repairs the client's team or creates one *)
Lemma Start_moves (R : teams -> teams -> Prop) `{!PreOrder R} ds :
  (forall id s, clients ds !! id = Some (Some (request_key s)) -> ts_ClientRequestID s = sr_ClientRequestID request ->
     moves R ds (at_team id (repairPreparedTeamLocked s))) ->
  (forall s, ts_TeamID s = newID -> ts_ClientRequestID s = sr_ClientRequestID request ->
     (forall id, safe_id id = true -> is_Some (ds !! id) -> exists d s', ds !! id = Some d /\ tf_snapshot d = Some s' /\ ts_ClientRequestID s' <> sr_ClientRequestID request) ->
     moves (fun _ ds' => R ds ds') ds (create_team s)) ->
  moves R ds start.
Proof.
  intros Hold Hnew. unfold Start. assert (forall A (m : teams_io A), leaves ds m -> moves R ds m) as Hleaves by (intros; by apply moves_leaves; [apply _|]).
  apply moves_bind; [apply _|apply Hleaves; auto with files|]. intros u fs1 ds1 fs1' [_ ->]%checked_inv.
  apply moves_bind; [apply _|apply Hleaves; auto with files|]. intros path fs2 ds2 fs2' [_ ->]%checked_inv.
  apply moves_bind; [apply _|apply Hleaves; auto with files|]. intros [[normalized participants] hash] fs3 ds3 fs3' [Hn ->]%checked_inv.
  apply normalizeStart_returned in Hn as (Hc & _). case_match; [apply Hleaves; auto with files|].
  apply moves_bind; [apply _|apply Hleaves; by apply leaves_call|]. intros ids fs4 ds4 fs4' [-> Hids]%ListTeamIDs_returned.
  apply moves_bind; [apply _|apply Hleaves, leaves_find_started|]. intros existing fs5 ds5 fs5' H5.
  pose proof (leaves_returned _ _ _ _ _ _ (leaves_find_started _ _ _ _) H5) as ->. apply find_started_returned in H5.
  destruct existing as [s|].
  - destruct H5 as (_ & Hcs & _ & d & Hd & [Hs _]). apply moves_bind; [apply _| |intros; apply moves_leaves; [apply _|auto with files]].
    apply Hold; [|done]. unfold clients. rewrite lookup_fmap, Hd. cbn. unfold asked_for. by rewrite Hs.
  - intros fs. apply (Hnew (prepared_team catalogs now newID _ hash normalized participants)); [done|done|].
    intros id Hid Hsome. apply H5, Hids. done.
Qed.

(** What it returns *)
Lemma Start_returned ds fs r ds' fs' : ds !! newID = None -> start ds fs = Returned r ds' fs' ->
  (sres_Replayed r = true /\ clients ds' = clients ds /\ ts_ClientRequestID (sres_Team r) = sr_ClientRequestID request /\
   clients ds !! ts_TeamID (sres_Team r) = Some (Some (request_key (sres_Team r)))) \/
  (sres_Replayed r = false /\
   (forall id, safe_id id = true -> is_Some (ds !! id) -> exists d s', ds !! id = Some d /\ tf_snapshot d = Some s' /\ ts_ClientRequestID s' <> sr_ClientRequestID request) /\
   exists normalized participants catalogHash specs d, let s := prepared_team catalogs now newID (hashBytes (json_start_request normalized)) catalogHash normalized participants in
     sres_Team r = s /\ sr_ClientRequestID normalized = sr_ClientRequestID request /\ sr_Mode normalized = sr_Mode request /\
     resolve_specs (CanonicalCatalogV1 catalog) 0 ∅ specs = Ok participants /\
     ValidateTeamSession s = Ok tt /\ ds' = <[newID := d]> ds /\ same_core (put_snapshot s empty_team) d).
Proof.
  intros Hfresh H. unfold Start in H. apply bind_inv in H as (u & ds1 & fs1 & [_ ->]%checked_inv & H).
  apply bind_inv in H as (path & ds2 & fs2 & [_ ->]%checked_inv & H).
  apply bind_inv in H as ([[normalized participants] hash] & ds3 & fs3 & [Hn ->]%checked_inv & H).
  apply normalizeStart_returned in Hn as (Hc & Hmode & specs & Hspecs & _). destruct (_ && _); [done|].
  apply bind_inv in H as (ids & ds4 & fs4 & [-> Hids]%ListTeamIDs_returned & H). apply bind_inv in H as (existing & ds5 & fs5 & H5 & H).
  pose proof (leaves_returned _ _ _ _ _ _ (leaves_find_started _ _ _ _) H5) as ->. apply find_started_returned in H5.
  destruct existing as [s|]; [left|right].
  - destruct H5 as (_ & Hcs & _ & d & Hd & [Hs _]). apply bind_inv in H as (u2 & ds6 & fs6 & H6 & H). injection H as <- <- <-. cbn.
    split_and!; [done| |done|unfold clients; rewrite lookup_fmap, Hd; cbn; unfold asked_for; by rewrite Hs].
    pose proof (clients_at_team (ts_TeamID s) (repairPreparedTeamLocked s) ds fs5) as Hcl. rewrite H6 in Hcl. apply Hcl. intros d' _.
    eapply moves_weaken; [apply same_request_core|apply repairPreparedTeamLocked_moves].
  - apply create_team_returned in H as (-> & Hcost & Hv & d & -> & Hd); [|done]. split; [done|]. split.
    { intros id Hid Hsome. apply H5, Hids. done. }
    exists normalized, participants, hash, specs, d. done.
Qed.
End start.

Definition keeps_names (ds ds' : teams) : Prop := named ds -> named ds' /\ remembers ds ds'.
#[local] Instance keeps_names_preorder : PreOrder keeps_names.
Proof.
  split; [by intros ds Hn|]. intros a b c Hab Hbc Ha. destruct (Hab Ha) as [Hb ?]. destruct (Hbc Hb) as [Hc ?].
  split; [done|]. by etrans.
Qed.

Lemma teams_step_names ds ds' : teams_step ds ds' -> keeps_names ds ds'.
Proof.
  destruct 1 as [catalog catalogs supports now newID project request fs Hfresh|catalogs registered teamID y y' Hd Hok Hs]; intros Hn.
  - refine (Start_moves catalog catalogs supports now newID project request keeps_names ds _ _ fs Hn).
    + intros id s _ _ fs'. intros Hn'. apply same_clients_named; [|done]. apply clients_at_team. intros d _.
      eapply moves_weaken; [apply same_request_core|apply repairPreparedTeamLocked_moves].
    + intros s Hid Hc Hfree fs' _. subst newID. apply (may_create_named s ds); [done| |by apply create_team_files|done].
      intros id h Hcl. assert (is_Some (ds !! id)) as Hsome by (apply clients_dom; by eexists).
      destruct (Hfree id) as (d & s' & Hd & Hs & Hne); [by apply (nm_safe ds Hn)|done|].
      unfold clients in Hcl. rewrite lookup_fmap, Hd in Hcl. unfold asked_for in Hcl. cbn in Hcl. rewrite Hs in Hcl.
      injection Hcl as Hcl _. congruence.
  - apply same_clients_named; [|done]. apply (clients_insert _ _ (sy_files y)); [done|].
    exact (step_files catalogs registered DecodeStrict teamID same_request y y' (same_request_round teamID) same_request_cancel Hok Hs).
Qed.
Lemma teams_steps_names ds ds' : rtc teams_step ds ds' -> keeps_names ds ds'.
Proof. induction 1 as [|a b c Hab _ IH]; [done|]. etrans; [by apply teams_step_names|done]. Qed.
Lemma no_teams_named : named ∅.
Proof. split; [by intros id []|]. intros id1 id2 c h1 h2 H. done. Qed.

(** C10: a client's request id names one team, for ever.  Whatever else is
    started, whatever the panels do, whichever calls fail and whenever the process
    dies: two calls of Start with one client request id that both return, return
    the same team, the second as a replay of the same normalized request. *)
Theorem request_names_one_team ds ds1 ds2 ds3 catalog catalog' catalogs catalogs' supports supports' now now' newID newID'
    project project' request request' fs fs' r r' fs1 fs3
    (Hreach : rtc teams_step ∅ ds) (Hnew : ds !! newID = None)
    (H1 : Start catalog catalogs supports now newID project request ds fs = Returned r ds1 fs1)
    (Hsteps : rtc teams_step ds1 ds2) (Hnew' : ds2 !! newID' = None)
    (H2 : Start catalog' catalogs' supports' now' newID' project' request' ds2 fs' = Returned r' ds3 fs3)
    (Hsame : sr_ClientRequestID request' = sr_ClientRequestID request) :
  sres_Replayed r' = true /\ ts_TeamID (sres_Team r') = ts_TeamID (sres_Team r) /\
  ts_RequestHash (sres_Team r') = ts_RequestHash (sres_Team r).
Proof.
  destruct (teams_steps_names _ _ Hreach no_teams_named) as [Hn _].
  pose proof (teams_start ds catalog catalogs supports now newID project request fs Hnew) as Hstep. rewrite H1 in Hstep. cbn in Hstep.
  destruct (teams_step_names _ _ Hstep Hn) as [Hn1 _]. destruct (teams_steps_names _ _ Hsteps Hn1) as [Hn2 Hrem].
  assert (clients ds2 !! ts_TeamID (sres_Team r) = Some (Some (request_key (sres_Team r))) /\
          ts_ClientRequestID (sres_Team r) = sr_ClientRequestID request) as [Hr Hc].
  { apply Start_returned in H1 as [(_ & Hcl & Hc & Hk)|(_ & _ & normalized & ps & hash & specs & d & Ht & Hc & _ & _ & _ & -> & (Hs & _))]; [| |done].
    - split; [|done]. apply Hrem. by rewrite Hcl.
    - rewrite Ht. split; [|done]. apply Hrem. unfold clients. rewrite lookup_fmap. cbn. rewrite lookup_insert_eq. cbn.
      unfold asked_for. by rewrite Hs. }
  apply Start_returned in H2 as [(Hrep & _ & Hc' & Hk)|(_ & Hfree & _)]; [|exfalso|done].
  - split; [done|]. unfold request_key in *. rewrite Hc', Hsame in Hk. rewrite Hc in Hr.
    pose proof (nm_once ds2 Hn2 _ _ _ _ _ Hk Hr) as Heq. split; [done|]. rewrite Heq, Hr in Hk. by injection Hk as <-.
  - assert (is_Some (ds2 !! ts_TeamID (sres_Team r))) as Hsome by (apply clients_dom; by eexists).
    destruct (Hfree (ts_TeamID (sres_Team r))) as (d & s & Hd & Hs & Hne); [by apply (nm_safe ds2 Hn2)|done|].
    unfold clients in Hr. rewrite lookup_fmap, Hd in Hr. cbn in Hr. unfold asked_for in Hr. rewrite Hs in Hr. cbn in Hr.
    injection Hr as Hr. unfold request_key in Hr. congruence.
Qed.

(** ** A new panel *)

Lemma resolve_specs_pending catalog index seen specs ps : resolve_specs catalog index seen specs = Ok ps ->
  Forall (fun p => pa_CurrentTurnID p = "" /\ pa_State p = ParticipantPending) ps.
Proof.
  revert index seen ps. induction specs as [|spec specs IH]; intros index seen ps H; cbn [resolve_specs] in H; [by injection H as <-|].
  destruct (model_of _ _) as [model|]; [|done]. apply fail_if_ok in H as [_ H]. apply bind_ok in H as (rest & Hrest & H).
  injection H as <-. constructor; [done|by eapply IH].
Qed.

(** C28: what Start has made of a request for a panel, when it returns a team that is
    not a replay, is a new panel: its snapshot is in its directory, created and
    with all participants pending, its cost is within its grant, and nothing has
    run.  So all that holds of panels from there on holds of it. *)
Theorem started_panel_is_new catalog catalogs supports now newID project request ds fs r ds' fs'
    (Hnew : ds !! newID = None) (Hpanel : sr_Mode request = ModePanel)
    (H : Start catalog catalogs supports now newID project request ds fs = Returned r ds' fs') (Hfirst : sres_Replayed r = false) :
  exists d, ds' = <[newID := d]> ds /\ ts_TeamID (sres_Team r) = newID /\
    new_panel {| sy_files := d; sy_tasks := []; sy_cancels := []; sy_starts := [] |} (sres_Team r) /\
    0 <= ts_CostUsed (sres_Team r) <= ts_CostGrant (sres_Team r) /\
    NoDup (map pa_ParticipantID (ts_Participants (sres_Team r))).
Proof.
  apply Start_returned in H as [(Hrep & _)|(_ & _ & normalized & ps & hash & specs & d & Ht & Hc & Hm & Hspecs & Hv & -> & Hcore)]; [congruence| |done].
  rewrite Ht. exists d. split; [done|]. split; [done|]. destruct Hcore as (Hs & Hturns & Hmsgs). split; [|split].
  - split; [done|done|cbn; congruence|done| |done|done]. cbn. by eapply resolve_specs_pending.
  - pose proof Hv as Hv2. unfold ValidateTeamSession in Hv2. go_run Hv2. bool_props. lia.
  - by destruct (participants_distinct _ Hv).
Qed.

(** ** A directory without a snapshot *)

Definition torn (teamID : string) (ds : teams) : Prop := safe_id teamID = true /\ clients ds !! teamID = Some None.

Lemma torn_stays teamID ds ds' : teams_step ds ds' -> torn teamID ds -> torn teamID ds'.
Proof.
  destruct 1 as [catalog catalogs supports now newID project request fs Hfresh|catalogs registered id y y' Hd Hok Hs]; intros [Hsafe Ht].
  - set (R := fun a b => clients a !! teamID = Some None -> clients b !! teamID = Some None). assert (PreOrder R) as HR.
    { split; [by intros ? ?|]. intros a b c Hab Hbc Ha. by apply Hbc, Hab. }
    split; [done|]. refine (Start_moves catalog catalogs supports now newID project request R ds _ _ fs Ht).
    + intros id s _ _ fs' Hn. rewrite clients_at_team; [done|]. intros d _.
      eapply moves_weaken; [apply same_request_core|apply repairPreparedTeamLocked_moves].
    + intros s Hid _ _ fs' Hn. subst newID. destruct (create_team_files s ds Hfresh fs') as [->|(_ & r & -> & _)]; [done|].
      rewrite lookup_insert_ne; [done|]. intros <-. unfold clients in Hn. by rewrite lookup_fmap, Hfresh in Hn.
  - split; [done|]. rewrite (clients_insert _ _ (sy_files y)); [done|done|].
    exact (step_files catalogs registered DecodeStrict id same_request y y' (same_request_round id) same_request_cancel Hok Hs).
Qed.

Lemma torn_snapshot teamID ds : torn teamID ds -> exists d, ds !! teamID = Some d /\ tf_snapshot d = None.
Proof.
  intros [_ Ht]. unfold clients in Ht. rewrite lookup_fmap in Ht. destruct (ds !! teamID) as [d|]; [|done]. exists d. split; [done|].
  unfold asked_for in Ht. cbn in Ht. by destruct (tf_snapshot d).
Qed.

Lemma recover_torn lookup now teamID ids ds fs d :
  teamID ∈ ids -> ds !! teamID = Some d -> tf_snapshot d = None -> reply_of (recover_teams lookup now ids ds fs) = None.
Proof.
  revert ds fs. induction ids as [|id ids IH]; intros ds fs Hin Hd Hnone; [by apply elem_of_nil in Hin|].
  cbn [recover_teams]. unfold mbind at 1, io_bind at 1.
  destruct (at_team id (recover_team lookup now id) ds fs) as [actions ds1 fs1| |] eqn:Hr; [|done..].
  destruct (decide (id = teamID)) as [->|Hne].
  - exfalso. apply at_team_returned in Hr as (d' & Hr & _). rewrite Hd in Hr. cbn [default] in Hr.
    unfold recover_team, recover_handoffs in Hr. apply bind_inv in Hr as (s & d1 & fs2 & Hr & _).
    apply bind_inv in Hr as (s' & d2 & fs3 & (_ & [Hs _] & _)%Get_returned & _). change (id d) with d in Hs. congruence.
  - apply elem_of_cons in Hin as [->|Hin]; [done|]. pose proof (at_team_other id (recover_team lookup now id) ds fs teamID) as Ho.
    rewrite Hr in Ho. cbn in Ho. unfold mbind, io_bind.
    assert (ds1 !! teamID = Some d) as Hd1 by (rewrite Ho; [done|congruence]).
    specialize (IH ds1 fs1 Hin Hd1 Hnone). by destruct (recover_teams lookup now ids ds1 fs1).
Qed.

(** C21: a crash while a team is started, between the making of its directory and
    the writing of its snapshot, ends the service: whatever happens then, no
    request creates a team any more, and every recovery fails, with which the
    engine does not come up again. *)
Theorem torn_start_blocks teamID ds ds' (Htorn : torn teamID ds) (Hsteps : rtc teams_step ds ds') :
  (forall lookup now fs, reply_of (Recover lookup now ds' fs) = None) /\
  (forall catalog catalogs supports now newID project request fs r ds'' fs', ds' !! newID = None ->
     Start catalog catalogs supports now newID project request ds' fs = Returned r ds'' fs' -> sres_Replayed r = true).
Proof.
  assert (torn teamID ds') as Ht by (induction Hsteps as [|a b c Hab _ IH]; [done|]; by apply IH, (torn_stays teamID a)).
  destruct (torn_snapshot _ _ Ht) as (d & Hd & Hnone). destruct Ht as [Hsafe _]. split.
  - intros lookup now fs. unfold Recover, mbind, io_bind. destruct (ListTeamIDs ds' fs) as [ids ds1 fs1| |] eqn:Hl; [|done..].
    apply ListTeamIDs_returned in Hl as [-> Hids]. apply (recover_torn _ _ teamID _ _ _ d); [|done|done]. apply Hids. by split; [|exists d].
  - intros catalog catalogs supports now newID project request fs r ds'' fs' Hfresh H.
    apply Start_returned in H as [(Hrep & _)|(_ & Hfree & _)]; [done|exfalso|done].
    destruct (Hfree teamID Hsafe) as (d' & s & Hd' & Hs & _); [by exists d|]. congruence.
Qed.
End teams.
End theory.

(** ** Witnesses *)

#[local] Existing Instance demo_sha.
#[local] Existing Instance canonical_range.
#[local] Existing Instance zero_digest.

Definition panel_request : TeamStartRequestV1 := {|
  sr_SchemaVersion := SchemaVersion; sr_ClientRequestID := "start-1"; sr_Project := "/work/app"; sr_Mode := ModePanel;
  sr_Topic := "storage"; sr_Instructions := ""; sr_Participants := []; sr_CostGrant := 0 |}.
Definition known_catalogs : gmap string CapabilityCatalogV1 := {[ catalog_digest BuiltinCatalogV1 := BuiltinCatalogV1 ]}.
Definition start_panel (now : Z) (newID : string) : teams_io StartResult :=
  Start BuiltinCatalogV1 known_catalogs (fun _ => false) now newID (Ok "/work/app") panel_request.
Definition returned_start (o : io_end teams TeamError StartResult) : StartResult * teams * list fate :=
  match o with Returned r d fs => (r, d, fs) | Raised _ d fs => ({| sres_Team := panel_session; sres_Replayed := false |}, d, fs)
  | Died d => ({| sres_Team := panel_session; sres_Replayed := false |}, d, []) end.
Definition first_start := returned_start (start_panel 20 "team-a" ∅ []).
Definition second_start := returned_start (start_panel 30 "team-b" first_start.1.2 []).
Definition is_returned {D E A} (o : io_end D E A) : bool := match o with Returned _ _ _ => true | _ => false end.
Lemma start_did_return o : is_returned o = true ->
  o = Returned (returned_start o).1.1 (returned_start o).1.2 (returned_start o).2.
Proof. by destruct o. Qed.
Lemma first_start_returned : start_panel 20 "team-a" ∅ [] = Returned first_start.1.1 first_start.1.2 first_start.2.
Proof. apply start_did_return. vm_compute. reflexivity. Qed.
Lemma second_start_returned : start_panel 30 "team-b" first_start.1.2 [] = Returned second_start.1.1 second_start.1.2 second_start.2.
Proof. apply start_did_return. vm_compute. reflexivity. Qed.
Lemma first_start_free : first_start.1.2 !! "team-b" = None.
Proof.
  assert (bool_decide (is_Some (first_start.1.2 !! "team-b")) = false) as H by (vm_compute; reflexivity).
  apply bool_decide_eq_false in H. by apply eq_None_not_Some.
Qed.

Lemma request_names_one_team_witness :
  ts_TeamID (sres_Team first_start.1.1) = "team-a" /\ sres_Replayed second_start.1.1 = true /\
  ts_TeamID (sres_Team second_start.1.1) = ts_TeamID (sres_Team first_start.1.1).
Proof.
  split; [vm_compute; reflexivity|].
  pose proof (request_names_one_team panel_decode ∅ first_start.1.2 first_start.1.2 second_start.1.2 BuiltinCatalogV1 BuiltinCatalogV1
    known_catalogs known_catalogs (fun _ => false) (fun _ => false) 20 30 "team-a" "team-b" (Ok "/work/app") (Ok "/work/app")
    panel_request panel_request [] [] first_start.1.1 second_start.1.1 first_start.2 second_start.2
    (rtc_refl _ _) (lookup_empty _) first_start_returned (rtc_refl _ _) first_start_free second_start_returned eq_refl) as (Hr & Ht & _).
  split; [exact Hr|exact Ht].
Defined.

Lemma started_panel_is_new_witness :
  map pa_ModelID (ts_Participants (sres_Team first_start.1.1)) = ["codex/local/gpt-5.6"; "codex/local/gpt-5.6-luna"] /\
  exists d, first_start.1.2 = <["team-a" := d]> ∅ /\ ts_TeamID (sres_Team first_start.1.1) = "team-a".
Proof.
  split; [vm_compute; reflexivity|].
  assert (sres_Replayed first_start.1.1 = false) as Hfirst by (vm_compute; reflexivity).
  destruct (started_panel_is_new BuiltinCatalogV1 known_catalogs (fun _ => false) 20 "team-a" (Ok "/work/app") panel_request ∅ []
    first_start.1.1 first_start.1.2 first_start.2 (lookup_empty _) eq_refl first_start_returned Hfirst) as (d & Hd & Hid & _).
  exists d. split; [exact Hd|exact Hid].
Defined.

(** The process dies after the directory is made. *)
Definition torn_start : teams := files_after (start_panel 20 "team-a" ∅ [Works; Works; Dies]).
Lemma torn_start_torn : torn "team-a" torn_start.
Proof. split; [reflexivity|]. vm_compute. reflexivity. Qed.
Lemma torn_start_blocks_witness : reply_of (Recover (Some (fun _ => None)) 40 torn_start []) = None.
Proof.
  exact (proj1 (torn_start_blocks panel_decode "team-a" torn_start torn_start torn_start_torn (rtc_refl _ _)) (Some (fun _ => None)) 40 []).
Defined.
