(* ===== verification/HandoffPages.v ===== *)
(** * Two limits of the team store, and a recovery that fails

    The contract bounds the raw text of a message and the JSON of a handoff; the
    store bounds the line of the log and the file of an intent that its readers
    accept.  What is written may be more than what can be read. *)

From S2P Require Import Prelude GoText Json Routing Resolver Catalog Workflow Validate Files Context.
From S2P Require Import TeamContract TeamStore Handoff HandoffTheory.
#[local] Open Scope string_scope.
#[local] Open Scope list_scope.
#[local] Open Scope Z_scope.

Section limits.
  Context {GR : GoRange} {SHA : Sha256}.

(** A file over the limit is never read. *)
Lemma readLimit_oversize {V} (get : team_files -> option V) json limit d v :
  get d = Some v -> limit < file_size (json v) -> blocked d (readTeamContractJSONLimit get json limit).
Proof.
  intros Hget Hsize. apply blocked_bind; [apply leaves_open|]. intros v' fs fs' [_ Hg]%open_returned.
  assert (v' = v) as -> by congruence. apply Z.ltb_lt in Hsize. rewrite Hsize. apply blocked_refuse.
Qed.

(** The error of such a read is not [FileNotExist]. *)
Lemma readLimit_oversize_error {V} (get : team_files -> option V) json limit d v fs d' fs' :
  get d = Some v -> readTeamContractJSONLimit get json limit d fs <> Raised (TeamFile FileNotExist) d' fs'.
Proof. intros Hget [_ Hnone]%readLimit_absent. congruence. Qed.

(** A log with a line that does not fit is never read past it. *)
Lemma scan_too_long {V} (json : V -> string) check sequence log value :
  fits_scanner (json value) = false -> is_ok (scanTeamLog json check sequence (log ++ [value])) = false.
Proof.
  intros Hfit. unfold scanTeamLog. rewrite range_loop_app.
  destruct (range_loop _ _ log) as [[[last count] bytes]|]; [|done]. cbn. by rewrite Hfit.
Qed.

Lemma append_blocked {V} (get : team_files -> list V) put json check sequence maxRecords maxBytes (value : V) d :
  is_ok (scanTeamLog json check sequence (get d)) = false ->
  blocked d (appendTeamRecordWithQuota get put json check sequence maxRecords maxBytes value).
Proof.
  intros Hscan. apply blocked_bind; [apply leaves_touch|]. intros _ _ _ _.
  apply blocked_bind; [apply leaves_touch|]. intros _ _ _ _. apply blocked_guard.
  apply blocked_bind; [by apply leaves_call|]. intros log fs fs' [= <-]%call_inv.
  apply blocked_checked. intros a Ha. by rewrite Ha in Hscan.
Qed.

Lemma readTeamLog_blocked {V} (get : team_files -> list V) json check sequence team teamID d log value :
  get d = log ++ [value] -> fits_scanner (json value) = false -> blocked d (readTeamLog get json check sequence team teamID).
Proof.
  intros Hget Hfit. apply blocked_checked. intros _ _. apply blocked_bind; [by apply leaves_call|].
  intros log' fs fs' [= <-]%call_inv. apply blocked_checked. intros a Ha. exfalso. revert Ha.
  rewrite Hget, range_loop_app. destruct (range_loop _ _ log); [|done]. cbn. by rewrite Hfit.
Qed.

(** ValidateMessage bounds the content of a message, not its line in the
    log, which a JSON encoding can make six times as long.  A message that was
    appended and whose line does not fit the scanner's buffer ends the log: every
    later read and every later append of any message fails, and leaves the files
    as they are. *)
Theorem long_message_ends_log value d fs u d' fs' :
  AppendTeamMessage value d fs = Returned u d' fs' -> fits_scanner (json_message value) = false ->
  (forall teamID, blocked d' (ReadTeamMessages teamID)) /\ (forall message, blocked d' (AppendTeamMessage message)).
Proof.
  intros ->%AppendTeamMessage_returned Hfit. split.
  - intros teamID. by eapply readTeamLog_blocked.
  - intros message. apply blocked_checked. intros _ _. by apply append_blocked, scan_too_long.
Qed.

(** An intent holds the request, the artifact and, at last, the response, so
    it is up to three times as long as the handoff that the contract bounds by
    the limit that also holds for reading the intent.  When it is longer, the
    creation succeeds at first, but every repetition of the request fails and
    leaves the files as they are: it is neither replayed nor completed. *)
Theorem long_intent_not_read d id intent now request :
  tf_create_intents d !! digestID id = Some intent -> MaxHandoffBytes < file_size (json_create_intent intent) ->
  hc_HandoffID request = id -> blocked d (HandoffCreate now request).
Proof.
  intros Hi Hsize <-. apply blocked_checked. intros _ _.
  assert (blocked d (ReadTeamHandoffIntent (hc_TeamID request) (hc_HandoffID request))) as Hb.
  { do 2 (apply blocked_checked; intros _ _). by eapply readLimit_oversize. }
  apply blocked_bind; [apply leaves_attempt, leaves_ReadTeamHandoffIntent|]. intros [i|e] fs fs' Hr.
  - apply attempt_ok in Hr. destruct (Hb fs) as [_ Hnone]. by rewrite Hr in Hnone.
  - apply attempt_err in Hr. destruct e as [[]| | | | | | | | | | | | | |]; try apply blocked_refuse. exfalso.
    revert Hr. unfold ReadTeamHandoffIntent, valid_id, checked, mbind, io_bind.
    destruct (safe_id (hc_TeamID request)), (safe_id (hc_HandoffID request)); cbn; try done.
    by eapply readLimit_oversize_error.
Qed.
End limits.

(** ** Witnesses *)

#[local] Existing Instance demo_sha.
#[local] Existing Instance canonical_range.

Definition brackets (n : Z) : string := of_list (repeat "<"%char (Z.to_nat n)).
Definition long_message := demo_message 2 "m-2" (brackets 21900).
Definition long_request : HandoffCreateRequestV1 := {|
  hc_SchemaVersion := SchemaVersion; hc_HandoffID := "h1"; hc_TeamID := "team-1"; hc_ExpectedStateVersion := 7;
  hc_Goal := "build"; hc_Decisions := [brackets 7400]; hc_Constraints := []; hc_OpenQuestions := [];
  hc_AcceptanceExpectations := []; hc_SelectedMessageIDs := ["m-1"] |}.

Definition appends (message : TeamMessageV1) : bool :=
  match AppendTeamMessage message demo_files [] with Returned _ _ _ => true | _ => false end.
Lemma long_message_ends_log_witness :
  appends long_message = true /\
  forall fs, reply_of (ReadTeamMessages "team-1" (files_after (AppendTeamMessage long_message demo_files [])) fs) = None.
Proof.
  assert (appends long_message = true) as Ha by (vm_compute; reflexivity). split; [exact Ha|]. intros fs.
  assert (fits_scanner (json_message long_message) = false) as Hfit by (vm_compute; reflexivity).
  unfold appends in Ha. destruct (AppendTeamMessage long_message demo_files []) as [u d fs0|e d fs0|d] eqn:Hr; try discriminate Ha.
  exact (proj2 (proj1 (long_message_ends_log long_message demo_files [] u d fs0 Hr Hfit) "team-1" fs)).
Defined.

(** The first request is answered, its repetition never is. *)
Definition after_long_request : team_files := files_after (HandoffCreate 30 long_request demo_files []).
Definition unreadable (d : team_files) : bool :=
  match tf_create_intents d !! digestID "h1" with
  | Some i => MaxHandoffBytes <? file_size (json_create_intent i)
  | None => false
  end.
Lemma long_intent_not_read_witness :
  match HandoffCreate 30 long_request demo_files [] with Returned _ _ _ => true | _ => false end = true /\
  forall fs, reply_of (HandoffCreate 31 long_request after_long_request fs) = None.
Proof.
  split; [vm_compute; reflexivity|]. intros fs.
  assert (unreadable after_long_request = true) as Hu by (vm_compute; reflexivity). unfold unreadable in Hu.
  destruct (tf_create_intents after_long_request !! digestID "h1") as [i|] eqn:Hi; [|discriminate Hu].
  apply Z.ltb_lt in Hu.
  exact (proj2 (long_intent_not_read after_long_request "h1" i 31 long_request Hi Hu eq_refl fs)).
Defined.

(** A binding that died before it was written and that another request has
    overtaken can never be completed; Recover tries it at every start and stops. *)
Definition overtaken_files : team_files := handoffs_after demo_files
  [(OpCreate 30 (demo_create "h1" "build the store"), []);
   (OpBind demo_lookup 40 (demo_bind "a1" "h1" "run-1"), repeat Works 11 ++ [Dies]);
   (OpBind demo_lookup 50 (demo_bind "a2" "h1" "run-2"), [])].
Example overtaken_binding_stops_recovery :
  hb_RunID <$> binding_of overtaken_files "h1" = Some "run-2" /\
  match recover_handoffs demo_lookup 60 "team-1" overtaken_files [] with Raised ErrConflict _ _ => true | _ => false end = true.
Proof. split; vm_compute; reflexivity. Qed.

(** * Listing handoffs page by page

    A caller that follows NextCursor sees every handoff exactly once, in the
    order of the ids, whatever the size of a page. *)

Section pages.
  Context {GR : GoRange} {SHA : Sha256}.

Definition page_request (teamID cursor : string) (limit : Z) : HandoffListRequestV1 := {|
  hl_SchemaVersion := SchemaVersion; hl_TeamID := teamID; hl_Cursor := cursor; hl_Limit := limit |}.

(** Follow the cursors from page to page. *)
Fixpoint collect (pages : nat) (teamID cursor : string) (limit : Z) (d : team_files) : option (list HandoffArtifactV1) :=
  match pages with
  | O => None
  | S pages =>
      match HandoffList (page_request teamID cursor limit) d [] with
      | Returned r _ _ =>
          if hlr_NextCursor r =s "" then Some (hlr_Items r)
          else rest ← collect pages teamID (hlr_NextCursor r) limit d; Some (hlr_Items r ++ rest)
      | _ => None
      end
  end.

(** A team whose handoffs can be read *)
Record readable (teamID : string) (d : team_files) : Prop := {
  rd_team : exists s, Get teamID d [] = Returned s d [];
  rd_handoffs : forall id a, tf_handoffs d !! id = Some a ->
    ReadTeamHandoff teamID id d [] = Returned a d [] /\ validateHandoffContentHash a = Ok tt }.

Context (teamID : string) (d : team_files) (Hreadable : readable teamID d).

Definition page_ids : list string := sort_strings (base.filter (fun id => safe_id id = true) (map fst (map_to_list (tf_handoffs d)))).
Definition later (cursor id : string) : bool := negb ((cursor ≠s "") && String.leb id cursor).
Definition artifacts (ids : list string) : list HandoffArtifactV1 := omap (fun id => tf_handoffs d !! id) ids.
Definition known (ids : list string) : Prop := forall id, id ∈ ids -> is_Some (tf_handoffs d !! id).

Lemma artifacts_app ids ids' : artifacts (ids ++ ids') = artifacts ids ++ artifacts ids'.
Proof. apply omap_app. Qed.

Lemma artifacts_cons id ids a : tf_handoffs d !! id = Some a -> artifacts (id :: ids) = a :: artifacts ids.
Proof. intros Ha. unfold artifacts. cbn. by rewrite Ha. Qed.

Lemma artifacts_ids ids : known ids -> map ha_HandoffID (artifacts ids) = ids.
Proof.
  induction ids as [|id ids IH]; intros Hk; [done|]. destruct (Hk id) as [a Ha]; [by left|]. rewrite (artifacts_cons _ _ a) by done.
  cbn [map]. rewrite IH; [|intros id' Hid'; apply Hk; set_solver]. f_equal.
  destruct (rd_handoffs _ _ Hreadable id a Ha) as [Hr _]. by apply ReadTeamHandoff_returned in Hr as (_ & _ & ->).
Qed.

Definition next_cursor (k : nat) (items : list HandoffArtifactV1) (ids : list string) : string :=
  if (length ids <=? k)%nat then "" else match last (items ++ artifacts (take k ids)) with Some a => ha_HandoffID a | None => "" end.

Lemma list_handoffs_run cursor limit ids items :
  known ids -> len_slice items <= limit ->
  let page := List.filter (later cursor) ids in
  let k := Z.to_nat (limit - len_slice items) in
  list_handoffs teamID cursor limit items ids d [] =
    Returned (items ++ artifacts (take k page), next_cursor k items page) d [].
Proof.
  revert items. induction ids as [|id ids IH]; intros items Hk Hlen page k.
  - subst page. cbn. by rewrite take_nil, app_nil_r.
  - assert (known ids) as Hk' by (intros id' Hid'; apply Hk; set_solver).
    subst page. cbn [list_handoffs List.filter].
    assert (((cursor ≠s "") && String.leb id cursor)%go = negb (later cursor id)) as -> by (unfold later; by rewrite negb_involutive).
    destruct (later cursor id); cbn [negb]; [|by apply IH].
    destruct (len_slice items =? limit) eqn:Hfull.
    + apply Z.eqb_eq in Hfull. subst k. rewrite Hfull, Z.sub_diag. unfold next_cursor. cbn. by rewrite !app_nil_r.
    + apply Z.eqb_neq in Hfull. destruct (Hk id) as [a Ha]; [by left|].
      destruct (rd_handoffs _ _ Hreadable id a Ha) as [Hread Hhash].
      rewrite (bind_returned _ _ _ _ _ _ _ Hread). rewrite Hhash. cbn [checked].
      erewrite bind_returned by reflexivity. rewrite IH; [|done|].
      * assert (k = S (Z.to_nat (limit - len_slice (items ++ [a])))) as ->.
        { subst k. unfold len_slice in *. rewrite length_app. cbn. lia. }
        unfold next_cursor. cbn [take length Nat.leb]. rewrite (artifacts_cons _ _ a) by done. by rewrite <-!app_assoc.
      * unfold len_slice in *. rewrite length_app. cbn. lia.
Qed.

(** ** Sorted ids *)

Lemma page_ids_known : known page_ids.
Proof.
  intros id Hid. unfold page_ids, sort_strings in Hid. rewrite sort_slice_elem, list_elem_of_filter in Hid.
  destruct Hid as [_ ((id' & a) & -> & Hin)%list_elem_of_fmap]. apply elem_of_map_to_list in Hin. by exists a.
Qed.

Lemma readable_safe id a : tf_handoffs d !! id = Some a -> safe_id id = true.
Proof.
  intros Ha. destruct (rd_handoffs _ _ Hreadable id a Ha) as [Hr _]. unfold ReadTeamHandoff in Hr. io_inv.
  match goal with H : valid_id id = Ok _ |- _ => unfold valid_id in H; by destruct (safe_id id) end.
Qed.

Lemma page_ids_all id : id ∈ page_ids <-> is_Some (tf_handoffs d !! id).
Proof.
  split; [apply page_ids_known|]. intros [a Ha]. unfold page_ids, sort_strings. rewrite sort_slice_elem, list_elem_of_filter.
  split; [by eapply readable_safe|]. apply list_elem_of_fmap. exists (id, a). by rewrite elem_of_map_to_list.
Qed.

Lemma strictly_sorted_of l : StronglySorted String.le l -> NoDup l -> strictly_sorted l.
Proof.
  unfold strictly_sorted. induction 1 as [|x l Hs IH Hall]; intros Hnd; constructor.
  - apply IH. by apply NoDup_cons in Hnd as [_ ?].
  - apply NoDup_cons in Hnd as [Hni _]. rewrite Forall_forall in Hall |- *. intros y Hy. specialize (Hall y Hy).
    apply string_ltb_total; [intros ->; done|]. by apply string_not_ltb.
Qed.

Lemma page_ids_sorted : strictly_sorted page_ids.
Proof.
  apply strictly_sorted_of; [apply sort_strings_sorted|]. unfold page_ids. rewrite sort_strings_perm.
  apply NoDup_filter. apply NoDup_fst_map_to_list.
Qed.

Lemma leb_of_ltb x y : String.ltb x y = true -> String.leb x y = true /\ String.leb y x = false.
Proof.
  intros Hlt. split; [|by apply string_leb_false]. destruct (String.leb x y) eqn:Hle; [done|].
  apply string_leb_false in Hle. by rewrite (string_ltb_asym _ _ Hlt) in Hle.
Qed.

(** What follows the last id of a page *)
Lemma later_rest l id rest : id <> "" -> strictly_sorted (l ++ id :: rest) -> List.filter (later id) (l ++ id :: rest) = rest.
Proof.
  intros Hne%String.eqb_neq. unfold strictly_sorted. induction l as [|x l IH]; intros Hs.
  - apply StronglySorted_cons in Hs as [Hall Hs]. cbn. unfold later at 1. rewrite Hne.
    assert (String.leb id id = true) as ->.
    { destruct (String.leb id id) eqn:Hle; [done|]. apply string_leb_false in Hle. by rewrite string_ltb_irrefl in Hle. }
    cbn. clear Hs. induction Hall as [|y rest Hy Hall IH]; [done|]. cbn. unfold later at 1. rewrite Hne.
    destruct (leb_of_ltb _ _ Hy) as [_ ->]. cbn. by rewrite IH.
  - cbn in *. apply StronglySorted_cons in Hs as [Hall Hs]. rewrite Forall_forall in Hall.
    assert (String.ltb x id = true) as Hx by (apply Hall; set_solver).
    unfold later at 1. rewrite Hne. destruct (leb_of_ltb _ _ Hx) as [-> _]. cbn. by apply IH.
Qed.

Lemma HandoffList_run cursor limit :
  safe_id teamID = true -> (cursor = "" \/ safe_id cursor = true) -> 0 <= limit <= MaxListLimit ->
  let k := Z.to_nat (if limit =? 0 then DefaultListLimit else limit) in
  let page := List.filter (later cursor) page_ids in
  HandoffList (page_request teamID cursor limit) d [] =
    Returned {| hlr_SchemaVersion := SchemaVersion; hlr_Items := artifacts (take k page);
                hlr_NextCursor := next_cursor k [] page |} d [].
Proof.
  intros Hteam Hcursor Hlimit k page. destruct (rd_team _ _ Hreadable) as [s Hs].
  assert (ValidateHandoffListRequest (page_request teamID cursor limit) = Ok tt) as Hv.
  { unfold ValidateHandoffListRequest, validateAPIID, validatePage, validateAPIID. cbn. rewrite Hteam. cbn.
    assert ((limit <? 0) || (MaxListLimit <? limit) = false) as -> by (apply orb_false_iff; rewrite !Z.ltb_ge; lia).
    destruct Hcursor as [->| Hc]; [done|]. rewrite Hc. by destruct (cursor =s "")%go. }
  unfold HandoffList. rewrite Hv. cbn [checked]. erewrite bind_returned by reflexivity.
  cbn [hl_TeamID hl_Cursor hl_Limit page_request]. rewrite (bind_returned _ _ _ _ _ _ _ Hs).
  assert (ListTeamHandoffIDs teamID d [] = Returned page_ids d []) as Hids.
  { unfold ListTeamHandoffIDs, valid_id. by rewrite Hteam. }
  rewrite (bind_returned _ _ _ _ _ _ _ Hids).
  erewrite bind_returned; [|apply list_handoffs_run; [apply page_ids_known|]].
  - cbn. unfold len_slice. cbn. by rewrite Z.sub_0_r.
  - unfold len_slice, DefaultListLimit. cbn [length]. destruct (limit =? 0); lia.
Qed.

Lemma last_artifact ids id : known (ids ++ [id]) -> match last (artifacts (ids ++ [id])) with Some a => ha_HandoffID a | None => "" end = id.
Proof.
  intros Hk. destruct (Hk id) as [a Ha]; [set_solver|].
  rewrite artifacts_app, (artifacts_cons id [] a) by done. cbn. rewrite last_snoc.
  destruct (rd_handoffs _ _ Hreadable id a Ha) as [Hr _]. by apply ReadTeamHandoff_returned in Hr as (_ & _ & ->).
Qed.

Lemma collect_run pages cursor limit :
  safe_id teamID = true -> (cursor = "" \/ safe_id cursor = true) -> 0 <= limit <= MaxListLimit ->
  (length (List.filter (later cursor) page_ids) < pages)%nat ->
  (exists pre, page_ids = pre ++ List.filter (later cursor) page_ids) ->
  collect pages teamID cursor limit d = Some (artifacts (List.filter (later cursor) page_ids)).
Proof.
  intros Hteam Hcursor Hlimit. revert cursor Hcursor. induction pages as [|pages IH]; intros cursor Hcursor Hlen Hpre; [lia|].
  cbn [collect]. rewrite (HandoffList_run cursor limit Hteam Hcursor Hlimit). cbn [hlr_NextCursor hlr_Items].
  set (page := List.filter (later cursor) page_ids) in *. unfold next_cursor. set (k := Z.to_nat _).
  assert (0 < k)%nat as Hk by (subst k; unfold DefaultListLimit; destruct (limit =? 0) eqn:?; lia).
  destruct (length page <=? k)%nat eqn:Hend.
  - apply Nat.leb_le in Hend. cbn. by rewrite take_ge.
  - apply Nat.leb_gt in Hend. destruct Hpre as [pre Hpre].
    assert (exists l id, take k page = l ++ [id]) as (l & id & Hl).
    { destruct (take k page) as [|x l _] eqn:Ht using rev_ind; [|by eauto].
      apply (f_equal length) in Ht. rewrite length_take in Ht. cbn in Ht. lia. }
    assert (page_ids = (pre ++ l) ++ id :: drop k page) as Hall.
    { rewrite Hpre at 1. fold page. rewrite <-(take_drop k page) at 1. by rewrite Hl, <-!app_assoc. }
    assert (known (l ++ [id])) as Hknown by (intros x Hx; apply page_ids_known; rewrite Hall; set_solver).
    assert (safe_id id = true) as Hid by (destruct (Hknown id) as [a Ha]; [set_solver|by eapply readable_safe]).
    assert (id <> "") as Hne by (by intros ->).
    rewrite Hl, app_nil_l, last_artifact by done. apply String.eqb_neq in Hne as Hne'. rewrite Hne'.
    assert (List.filter (later id) page_ids = drop k page) as Hnext.
    { rewrite Hall at 1. apply later_rest; [done|]. rewrite <-Hall. apply page_ids_sorted. }
    rewrite IH; [|by right| |].
    + rewrite Hnext. cbn. by rewrite <-artifacts_app, <-Hl, take_drop.
    + rewrite Hnext, length_drop. lia.
    + exists ((pre ++ l) ++ [id]). rewrite Hnext, <-app_assoc. exact Hall.
Qed.
End pages.

(** Following the cursors of HandoffList from the first page, whatever the
    page size, takes at most one request per handoff and one more, and shows
    every handoff of the team exactly once, in the order of the ids. *)
Theorem handoff_pages `{GoRange} `{Sha256} teamID d limit :
  readable teamID d -> safe_id teamID = true -> 0 <= limit <= MaxListLimit ->
  exists shown, collect (S (size (tf_handoffs d))) teamID "" limit d = Some shown /\
    strictly_sorted (map ha_HandoffID shown) /\
    (forall a, a ∈ shown <-> tf_handoffs d !! ha_HandoffID a = Some a).
Proof.
  intros Hreadable Hteam Hlimit. exists (artifacts d (page_ids d)).
  assert (List.filter (later "") (page_ids d) = page_ids d) as Hall.
  { induction (page_ids d) as [|id ids IH]; [done|]. cbn. by rewrite IH. }
  split_and!.
  - rewrite <-Hall at 1. apply collect_run; auto.
    + rewrite Hall. unfold page_ids. rewrite (Permutation_length (sort_strings_perm _)).
      assert (length (map fst (map_to_list (tf_handoffs d))) = size (tf_handoffs d)) as Hsize
        by (by rewrite length_map, length_map_to_list).
      pose proof (length_filter (fun id => safe_id id = true) (map fst (map_to_list (tf_handoffs d)))). lia.
    + by exists []; rewrite Hall.
  - rewrite (artifacts_ids teamID) by (done || apply page_ids_known). by apply (page_ids_sorted).
  - intros a. unfold artifacts. rewrite list_elem_of_omap. split.
    + intros (id & _ & Hid). destruct (rd_handoffs _ _ Hreadable id a Hid) as [Hr _].
      by apply ReadTeamHandoff_returned in Hr as (_ & _ & ->).
    + intros Ha. exists (ha_HandoffID a). split; [|done]. by apply (page_ids_all teamID); [|eexists].
Qed.

#[local] Existing Instance demo_sha.
#[local] Existing Instance canonical_range.

Definition demo_artifact (id : string) : HandoffArtifactV1 :=
  let unsigned hash := {|
    ha_SchemaVersion := SchemaVersion; ha_HandoffID := id; ha_TeamID := "team-1"; ha_SourceTeamVersion := 7;
    ha_Goal := "build"; ha_Decisions := []; ha_Constraints := []; ha_OpenQuestions := [];
    ha_AcceptanceExpectations := []; ha_SelectedMessageIDs := ["m-1"];
    ha_SourceMessageHashes := [hashBytes "use one file per record"]; ha_ContentHash := hash; ha_CreatedAt := 30 |} in
  unsigned (handoffContentHash (unsigned "")).
Definition demo_handoffs : team_files :=
  put_handoff (demo_artifact "h3") (put_handoff (demo_artifact "h1") (put_handoff (demo_artifact "h2") demo_files)).

Lemma demo_readable : readable "team-1" demo_handoffs.
Proof.
  split; [by eexists; vm_compute|].
  intros id a. cbn [demo_handoffs put_handoff tf_handoffs demo_files].
  intros [[<- <-]|[_ [[<- <-]|[_ [[<- <-]|[_ Hnone]]%lookup_insert_Some]]%lookup_insert_Some]]%lookup_insert_Some;
    [by split; vm_compute..|]. by rewrite lookup_empty in Hnone.
Qed.

Lemma handoff_pages_witness :
  map ha_HandoffID <$> collect 4 "team-1" "" 2 demo_handoffs = Some ["h1"; "h2"; "h3"] /\
  exists shown, collect (S (size (tf_handoffs demo_handoffs))) "team-1" "" 2 demo_handoffs = Some shown /\
    strictly_sorted (map ha_HandoffID shown).
Proof.
  split; [vm_compute; reflexivity|].
  assert (0 <= 2 <= MaxListLimit) as Hlimit by (unfold MaxListLimit; lia).
  destruct (handoff_pages "team-1" demo_handoffs 2 demo_readable eq_refl Hlimit) as (shown & Hc & Hs & _).
  exists shown. split; [exact Hc|exact Hs].
Defined.
