(* ===== verification/Journal.v ===== *)
(** * The application journal

    internal/store/application_journal.go: one file per request id records that a
    mutation was asked for, under which run id it is carried out and what it was
    answered.  A json.RawMessage is text; one that is read from a file has the
    indentation of the file ([reread]). *)

From S2P Require Import Prelude GoText Json JsonTree Routing Resolver Catalog Workflow Context Files.
#[local] Open Scope string_scope.
#[local] Open Scope list_scope.
#[local] Open Scope Z_scope.

Definition JournalIntent := "intent".
Definition JournalMutated := "mutated".
Definition JournalCommitted := "committed".

Record ApplicationJournalRecord := {
  jr_Version : Z; jr_Kind : string; jr_ID : string; jr_RequestHash : string; jr_Request : string;
  jr_PlannedRunID : string; jr_State : string; jr_Response : string; jr_CreatedAt : Z; jr_UpdatedAt : Z }.
#[export] Instance ApplicationJournalRecord_eq_dec : EqDecision ApplicationJournalRecord.
Proof. solve_decision. Defined.

Inductive JournalError :=
| JournalFile (e : FileError) | JournalConflictError (kind id : string)
| JournalKind (kind : string) | JournalIdentity | JournalIncomplete | JournalState (state : string) | JournalNoResponse
| JournalResponse | JournalOtherResponse | JournalEarlyCommit | JournalMismatch.
#[export] Instance JournalError_files : FileErrors JournalError := JournalFile.

(** The files application-journal/<kind>/<digest of the id>.json *)
Notation journal := (gmap (string * string) (file ApplicationJournalRecord)).
Notation journal_io := (io journal JournalError).
Definition entry (path : string * string) (d : journal) : file ApplicationJournalRecord := default Absent (d !! path).
Definition put_entry (path : string * string) (f : file ApplicationJournalRecord) (d : journal) : journal := <[path := f]> d.

Definition with_state (r : ApplicationJournalRecord) (state response : string) (updated : Z) : ApplicationJournalRecord := {|
  jr_Version := jr_Version r; jr_Kind := jr_Kind r; jr_ID := jr_ID r; jr_RequestHash := jr_RequestHash r;
  jr_Request := jr_Request r; jr_PlannedRunID := jr_PlannedRunID r; jr_State := state; jr_Response := response;
  jr_CreatedAt := jr_CreatedAt r; jr_UpdatedAt := updated |}.

(** What is read from the file to which the record was written *)
Definition reread (r : ApplicationJournalRecord) : ApplicationJournalRecord := {|
  jr_Version := jr_Version r; jr_Kind := jr_Kind r; jr_ID := jr_ID r; jr_RequestHash := jr_RequestHash r;
  jr_Request := json_indented 1 (jr_Request r); jr_PlannedRunID := jr_PlannedRunID r; jr_State := jr_State r;
  jr_Response := json_indented 1 (jr_Response r); jr_CreatedAt := jr_CreatedAt r; jr_UpdatedAt := jr_UpdatedAt r |}.

(** ** equalJSON *)

(** A member into an object whose names are ordered and distinct *)
Fixpoint insert_member (k : list ascii) (v : json) (members : list (list ascii * json)) : list (list ascii * json) :=
  match members with
  | [] => [(k, v)]
  | (k', v') :: rest =>
      if bool_decide (k = k') then (k, v) :: rest
      else if String.ltb (of_list k) (of_list k') then (k, v) :: members
      else (k', v') :: insert_member k v rest
  end.
(** The value that a Decoder with UseNumber makes of a tree: strings by their
    bytes, an object as a map. *)
Fixpoint decoded (v : json) : json :=
  match v with
  | JLit text => JLit text
  | JStr body => JStr (unquote 0 body)
  | JArr items => JArr (map decoded items)
  | JObj members =>
      JObj (fold_left (fun m '(k, v) => insert_member k v m)
              (map (fun '(k, v) => (unquote 0 k, decoded v)) members) [])
  end.
Definition equalJSON (left right : string) : bool :=
  match json_parse left, json_parse right with
  | Some l, Some r => json_eqb (decoded l) (decoded r)
  | _, _ => false
  end.

(** ** Validation *)

Definition validateJournalIdentity (kind id requestHash request plannedRunID : string) : result JournalError unit :=
  fail_if (kind ≠s "start") && (kind ≠s "action") with JournalKind kind ;;
  fail_if (id =s "") || (requestHash =s "") || (plannedRunID =s "") || (request =s "") || negb (json_valid request)
    with JournalIdentity ;;
  Ok tt.

Definition validateJournalRecord (r : ApplicationJournalRecord) : result JournalError unit :=
  fail_if negb (jr_Version r =? 1) || (jr_Kind r =s "") || (jr_ID r =s "") || (jr_RequestHash r =s "") ||
    (jr_PlannedRunID r =s "") || (jr_Request r =s "") || negb (json_valid (jr_Request r)) ||
    (jr_CreatedAt r =? 0) || (jr_UpdatedAt r =? 0) with JournalIncomplete ;;
  fail_if (jr_State r ≠s JournalIntent) && (jr_State r ≠s JournalMutated) && (jr_State r ≠s JournalCommitted)
    with JournalState (jr_State r) ;;
  fail_if ((jr_State r =s JournalMutated) || (jr_State r =s JournalCommitted)) &&
    ((jr_Response r =s "") || negb (json_valid (jr_Response r))) with JournalNoResponse ;;
  Ok tt.

Section operations.
  Context {SHA : Sha256}.

Definition applicationJournalPath (kind id : string) : string * string := (kind, hashBytes id).

Definition other_request (r : ApplicationJournalRecord) (kind id requestHash : string) : bool :=
  (jr_Kind r ≠s kind) || (jr_ID r ≠s id) || (jr_RequestHash r ≠s requestHash).

(** writeJSON, and reading gives the record with the indentation of the file *)
Definition write_record (path : string * string) (r : ApplicationJournalRecord) : journal_io unit :=
  writeJSON (put_entry path) (reread r).

Definition intent_record (kind id requestHash request plannedRunID : string) (now : Z) : ApplicationJournalRecord := {|
  jr_Version := 1; jr_Kind := kind; jr_ID := id; jr_RequestHash := requestHash; jr_Request := request;
  jr_PlannedRunID := plannedRunID; jr_State := JournalIntent; jr_Response := ""; jr_CreatedAt := now; jr_UpdatedAt := now |}.

Definition BeginApplicationJournal (kind id requestHash request plannedRunID : string) (now : Z)
    : journal_io ApplicationJournalRecord :=
  _ ← checked (fun e => e) (validateJournalIdentity kind id requestHash request plannedRunID);
  let path := applicationJournalPath kind id in
  _ ← touch;
  withLeaseGuard (
    existing ← attempt (readJSON (entry path));
    match existing with
    | Ok existing =>
        _ ← checked (fun e => e) (validateJournalRecord existing);
        if other_request existing kind id requestHash then refuse (JournalConflictError kind id) else mret existing
    | Err (JournalFile FileNotExist) =>
        _ ← injectFault;
        let result := intent_record kind id requestHash request plannedRunID now in
        _ ← write_record path result;
        mret result
    | Err e => refuse e
    end).

(** Whether the update changed anything is decided on the JSON of the record;
    an update that changes the record changes its state. *)
Definition updateApplicationJournal (kind id requestHash : string)
    (update : ApplicationJournalRecord -> result JournalError ApplicationJournalRecord)
    : journal_io ApplicationJournalRecord :=
  let path := applicationJournalPath kind id in
  _ ← touch;
  withLeaseGuard (
    before ← readJSON (entry path);
    _ ← checked (fun e => e) (validateJournalRecord before);
    if other_request before kind id requestHash then refuse (JournalConflictError kind id) else
    after ← checked (fun e => e) (update before);
    if decide (before = after) then mret after else
    _ ← injectFault;
    _ ← write_record path after;
    mret after).

Definition mutate (response : string) (now : Z) (r : ApplicationJournalRecord)
    : result JournalError ApplicationJournalRecord :=
  if (jr_State r =s JournalCommitted) || (jr_State r =s JournalMutated) then
    fail_if negb (equalJSON (jr_Response r) response) with JournalOtherResponse ;; Ok r
  else Ok (with_state r JournalMutated response now).
Definition MarkApplicationJournalMutated (kind id requestHash response : string) (now : Z)
    : journal_io ApplicationJournalRecord :=
  if (response =s "") || negb (json_valid response) then refuse JournalResponse else
  updateApplicationJournal kind id requestHash (mutate response now).

Definition commit (now : Z) (r : ApplicationJournalRecord) : result JournalError ApplicationJournalRecord :=
  if jr_State r =s JournalCommitted then Ok r else
  fail_if (jr_State r ≠s JournalMutated) || (jr_Response r =s "") with JournalEarlyCommit ;;
  Ok (with_state r JournalCommitted (jr_Response r) now).
Definition CommitApplicationJournal (kind id requestHash : string) (now : Z) : journal_io ApplicationJournalRecord :=
  updateApplicationJournal kind id requestHash (commit now).

Definition ReadApplicationJournal (kind id : string) : journal_io ApplicationJournalRecord :=
  record ← readJSON (entry (applicationJournalPath kind id));
  _ ← checked (fun e => e) (validateJournalRecord record);
  if (jr_Kind record ≠s kind) || (jr_ID record ≠s id) then refuse JournalMismatch else mret record.

(** The entries of the directory of a kind, by file name *)
Definition journal_paths (kind : string) (d : journal) : list (string * string) :=
  sort_slice (fun a b => String.ltb a.2 b.2)
    (List.filter (fun path => (path.1 =s kind) && match entry path d with Absent => false | _ => true end)
       (map fst (map_to_list d))).
Fixpoint pending_of (paths : list (string * string)) : journal_io (list ApplicationJournalRecord) :=
  match paths with
  | [] => mret []
  | path :: paths =>
      record ← readJSON (entry path);
      _ ← checked (fun e => e) (validateJournalRecord record);
      records ← pending_of paths;
      mret (if jr_State record =s JournalCommitted then records else record :: records)
  end.
Definition journal_before (a b : ApplicationJournalRecord) : bool :=
  if negb (jr_CreatedAt a =? jr_CreatedAt b) then jr_CreatedAt a <? jr_CreatedAt b
  else if jr_Kind a ≠s jr_Kind b then String.ltb (jr_Kind a) (jr_Kind b)
  else String.ltb (jr_ID a) (jr_ID b).
Definition ListPendingApplicationJournals : journal_io (list ApplicationJournalRecord) :=
  action ← call (fun d => (Ok (journal_paths "action" d), d));
  actions ← pending_of action;
  start ← call (fun d => (Ok (journal_paths "start" d), d));
  starts ← pending_of start;
  mret (sort_slice journal_before (actions ++ starts)).
End operations.
