(* ===== verification/JournalTheory.v ===== *)
(** * The journal keeps a request's first answer

    The life of a journal entry as a step relation, [entry_step]: begun, answered
    and committed, always bound to the same request.  Every operation of the
    journal, whatever fails in it and wherever the process dies, takes every entry
    along these steps. *)

From S2P Require Import Prelude GoText Json JsonTree JsonTreeTheory JsonSound Routing Resolver Catalog Workflow Context Files Journal.
#[local] Open Scope string_scope.
#[local] Open Scope list_scope.
#[local] Open Scope Z_scope.

Definition valid_record (r : ApplicationJournalRecord) : Prop := validateJournalRecord r = Ok tt.
Definition answered (r : ApplicationJournalRecord) : bool := (jr_State r =s JournalMutated) || (jr_State r =s JournalCommitted).

(** Project the fields of a record that is written out. *)
Ltac record_cbn :=
  cbn [reread with_state jr_Version jr_Kind jr_ID jr_RequestHash jr_Request jr_PlannedRunID jr_State jr_Response
       jr_CreatedAt jr_UpdatedAt].

(** What never changes in the record of a request *)
Definition same_binding (r r' : ApplicationJournalRecord) : Prop :=
  jr_Kind r' = jr_Kind r /\ jr_ID r' = jr_ID r /\ jr_RequestHash r' = jr_RequestHash r /\
  jr_PlannedRunID r' = jr_PlannedRunID r /\ jr_CreatedAt r' = jr_CreatedAt r /\
  json_parse (jr_Request r') = json_parse (jr_Request r).

Inductive entry_step : file ApplicationJournalRecord -> file ApplicationJournalRecord -> Prop :=
| step_begin r : valid_record r -> jr_State r = JournalIntent -> entry_step Absent (Holds (reread r))
| step_mutate r response now :
    valid_record r -> jr_State r = JournalIntent -> json_valid response = true -> now <> 0 ->
    entry_step (Holds r) (Holds (reread (with_state r JournalMutated response now)))
| step_commit r now :
    valid_record r -> jr_State r = JournalMutated -> now <> 0 ->
    entry_step (Holds r) (Holds (reread (with_state r JournalCommitted (jr_Response r) now))).

(** Every entry of the journal goes along the steps. *)
Definition journal_steps (d d' : journal) : Prop := forall path, rtc entry_step (entry path d) (entry path d').
#[export] Instance journal_steps_preorder : PreOrder journal_steps.
Proof. split; [by intros d path|]. intros d1 d2 d3 H1 H2 path. etrans; [apply H1|apply H2]. Qed.

(** ** Records *)

Lemma json_valid_nonempty s : json_valid s = true -> (s =s "") = false.
Proof. destruct s; [|done]. intros H. vm_compute in H. discriminate H. Qed.

(** The parts of a valid record that matter here *)
Definition identified (r : ApplicationJournalRecord) : Prop :=
  jr_Version r = 1 /\ jr_Kind r <> "" /\ jr_ID r <> "" /\ jr_RequestHash r <> "" /\ jr_PlannedRunID r <> "" /\ jr_CreatedAt r <> 0.

Lemma valid_record_spec r :
  valid_record r <->
  identified r /\ json_valid (jr_Request r) = true /\ jr_UpdatedAt r <> 0 /\
  (jr_State r = JournalIntent \/ answered r = true /\ json_valid (jr_Response r) = true).
Proof.
  unfold valid_record, validateJournalRecord, identified. rewrite !fail_if_ok. unfold answered.
  split.
  - intros (H1 & H2 & H3 & _).
    assert (jr_State r = JournalIntent \/ answered r = true /\ json_valid (jr_Response r) = true) as Hs.
    { destruct (answered r) eqn:Ha; unfold answered in Ha.
      - rewrite Ha in H3. cbn [andb] in H3. right. split; [done|]. by bool_props.
      - apply orb_false_iff in Ha as [Hm Hc]. rewrite Hm, Hc, !andb_true_r in H2. left. by bool_props. }
    bool_props. by split_and!.
  - intros ((H1 & H2 & H3 & H4 & H5 & H6) & Hreq & H7 & Hs). rewrite (json_valid_nonempty _ Hreq), Hreq.
    apply Z.eqb_eq in H1. apply String.eqb_neq in H2, H3, H4, H5. apply Z.eqb_neq in H6, H7.
    rewrite H1, H2, H3, H4, H5, H6, H7. split_and!; [done| |destruct Hs as [->|[_ Hr]]; [done|]|done].
    + destruct Hs as [->|[Ha _]]; [done|]. unfold answered in Ha.
      destruct (jr_State r =s JournalMutated), (jr_State r =s JournalCommitted); cbn in *; rewrite ?andb_false_r; done.
    + rewrite (json_valid_nonempty _ Hr), Hr. by rewrite andb_false_r.
Qed.

Lemma same_binding_refl r : same_binding r r.
Proof. by split_and!. Qed.
Lemma same_binding_trans r1 r2 r3 : same_binding r1 r2 -> same_binding r2 r3 -> same_binding r1 r3.
Proof. unfold same_binding. intuition congruence. Qed.

Lemma valid_reread r : valid_record r -> valid_record (reread r) /\ same_binding r (reread r).
Proof.
  rewrite !valid_record_spec. intros (Hi & Hreq & Hu & Hs). unfold identified, same_binding, answered in *. record_cbn.
  rewrite json_valid_indented, json_parse_indented by done. split_and!; try tauto.
  destruct Hs as [Hs|[Ha Hr]]; [by left|right]. by rewrite json_valid_indented.
Qed.

Lemma valid_with_state r state response now :
  valid_record r -> now <> 0 -> json_valid response = true -> state = JournalMutated \/ state = JournalCommitted ->
  valid_record (with_state r state response now) /\ same_binding r (with_state r state response now) /\
  answered (with_state r state response now) = true.
Proof.
  rewrite !valid_record_spec. intros (Hi & Hreq & Hu & _) Hnow Hr Hstate. unfold identified, same_binding, answered in *. record_cbn.
  assert ((state =s JournalMutated) || (state =s JournalCommitted) = true) as Ha by by destruct Hstate as [-> | ->].
  rewrite Ha, Hr. tauto.
Qed.

(** ** The life of an entry *)

(** A record and what it has become *)
Definition later (r r' : ApplicationJournalRecord) : Prop :=
  same_binding r r' /\ (valid_record r -> valid_record r') /\
  (answered r = true -> answered r' = true /\ (valid_record r -> json_parse (jr_Response r') = json_parse (jr_Response r))).

Lemma later_trans r1 r2 r3 : later r1 r2 -> later r2 r3 -> later r1 r3.
Proof.
  intros (Hb1 & Hv1 & Ha1) (Hb2 & Hv2 & Ha2). split_and!; [by eapply same_binding_trans|auto|].
  intros Ha. destruct (Ha1 Ha) as [Ha' Hr1]. destruct (Ha2 Ha') as [Ha'' Hr2]. split; [done|]. intros Hv.
  rewrite Hr2, Hr1; auto.
Qed.

Lemma entry_step_later r f : entry_step (Holds r) f -> exists r', f = Holds r' /\ later r r'.
Proof.
  inversion 1 as [|? response now Hv Hs Hj Hnow|? now Hv Hs Hnow]; subst; eexists; (split; [done|]).
  - destruct (valid_with_state r JournalMutated response now) as (Hv' & Hb & Ha); [done|done|done|by left|].
    destruct (valid_reread _ Hv') as (Hv'' & Hb'). split_and!; [by eapply same_binding_trans|done|].
    unfold answered. by rewrite Hs.
  - pose proof Hv as (_ & _ & _ & [Hi|[_ Hj]])%valid_record_spec; [by rewrite Hs in Hi|].
    destruct (valid_with_state r JournalCommitted (jr_Response r) now) as (Hv' & Hb & Ha); [done|done|done|by right|].
    destruct (valid_reread _ Hv') as (Hv'' & Hb'). split_and!; [by eapply same_binding_trans|done|].
    intros _. split; [done|]. intros _. record_cbn. by apply json_parse_indented.
Qed.

(** An entry keeps its binding, and its answer once it has one. *)
Lemma entry_steps_later r f : rtc entry_step (Holds r) f -> exists r', f = Holds r' /\ later r r'.
Proof.
  intros H. remember (Holds r) as f0 eqn:Hf. revert r Hf. induction H as [|f0 f1 f2 Hstep _ IH]; intros r ->.
  - exists r. split; [done|]. split_and!; [apply same_binding_refl|done|done].
  - apply entry_step_later in Hstep as (r1 & -> & Hl1). destruct (IH r1 eq_refl) as (r2 & -> & Hl2).
    exists r2. split; [done|]. by eapply later_trans.
Qed.

(** ** equalJSON *)

Lemma json_eqb_sound a b : json_eqb a b = true -> a = b.
Proof.
  revert a b. fix IH 1. intros [s|s|l|l] [t|t|m|m]; cbn; try done; try (by intros ->%bool_decide_eq_true).
  - intros H. f_equal. revert m H. induction l as [|x l IHl]; intros [|y m]; try done.
    intros [Hx Hl]%andb_true_iff. f_equal; [by apply IH|by apply IHl].
  - intros H. f_equal. revert m H. induction l as [|[j x] l IHl]; intros [|[k y] m]; try done.
    intros [[->%bool_decide_eq_true Hx]%andb_true_iff Hl]%andb_true_iff. f_equal; [f_equal; by apply IH|by apply IHl].
Qed.

Lemma insert_member_names k v n members : n ∈ (insert_member k v members).*1 <-> n = k \/ n ∈ members.*1.
Proof.
  induction members as [|[k' v'] members IH]; cbn; [by rewrite list_elem_of_singleton; set_solver|].
  repeat case_match; rewrite ?fmap_cons; cbn; case_bool_decide; subst; set_solver.
Qed.
Definition put_member (m : list (list ascii * json)) (e : list ascii * json) : list (list ascii * json) :=
  let '(k, v) := e in insert_member k v m.
Lemma put_members_names n l m : n ∈ (fold_left put_member l m).*1 <-> n ∈ l.*1 \/ n ∈ m.*1.
Proof.
  revert m. induction l as [|[k v] l IH]; intros m; cbn [fold_left]; [set_solver|].
  rewrite IH. cbn [put_member]. rewrite insert_member_names, fmap_cons. cbn. set_solver.
Qed.

Definition read_name (e : list ascii * json) : list ascii := unquote 0 e.1.
Lemma decoded_names n members :
  match decoded (JObj members) with JObj m => n ∈ m.*1 <-> n ∈ map read_name members | _ => False end.
Proof.
  cbn [decoded]. change (fun m '(k, v) => insert_member k v m) with put_member. rewrite put_members_names.
  replace ((map (fun '(k, v) => (unquote 0 k, decoded v)) members).*1) with (map read_name members); [set_solver|].
  induction members as [|[k v] members IH]; cbn; [done|]. by rewrite IH.
Qed.

Lemma member_none name members :
  member name members = None <-> forall n, n ∈ map read_name members -> (to_lower (of_list n) =s to_lower name) = false.
Proof.
  unfold member. trans (List.find (fun '(k, _) => same_name name k) (reverse members) = None).
  { destruct (List.find _ _) as [[k v]|]; by split. }
  split.
  - intros Hf n Hn. apply list_elem_of_fmap in Hn as ([k v] & -> & Hkv).
    eapply List.find_none in Hf as Hk; [|apply list_elem_of_In, elem_of_reverse, Hkv]. done.
  - intros Hall. destruct (List.find _ _) as [[k v]|] eqn:Hf; [|done]. apply List.find_some in Hf as [Hin Hk].
    apply list_elem_of_In in Hin. rewrite elem_of_reverse in Hin. specialize (Hall (unquote 0 k)). unfold same_name, string_of_body in Hk.
    rewrite Hall in Hk; [done|]. apply list_elem_of_fmap. by exists (k, v).
Qed.

(** JSON that is equal to an object is an object with the same names. *)
Lemma equalJSON_member l r v members name :
  equalJSON l r = true -> json_parse l = Some v -> json_parse r = Some (JObj members) ->
  exists members', v = JObj members' /\ (member name members = None -> member name members' = None).
Proof.
  unfold equalJSON. intros Heq Hl Hr. rewrite Hl, Hr in Heq. apply json_eqb_sound in Heq.
  destruct v as [text|body|items|members']; try discriminate Heq. exists members'. split; [done|].
  rewrite !member_none. intros Hn n Hin. apply Hn. pose proof (decoded_names n members) as H1. pose proof (decoded_names n members') as H2.
  rewrite Heq in H2. destruct (decoded (JObj members)); [done..|]. by apply H1, H2.
Qed.

(** ** The order of pending records *)

(** By a key first, then by another order *)
Section keyed.
  Context {A K : Type} `{EqDecision K} (key : A -> K) (kless : K -> K -> bool) (less : A -> A -> bool).
  Context (kasym : forall x y, kless x y = true -> kless y x = false) (kntrans : forall x y z, kless y x = false -> kless z y = false -> kless z x = false).
  Context (ktotal : forall x y, x <> y -> kless x y = false -> kless y x = true).
  Context (asym : forall x y, less x y = true -> less y x = false) (ntrans : forall x y z, less y x = false -> less z y = false -> less z x = false).

Definition keyed (a b : A) : bool := if decide (key a = key b) then less a b else kless (key a) (key b).

Lemma keyed_asym a b : keyed a b = true -> keyed b a = false.
Proof. unfold keyed. destruct (decide (key a = key b)), (decide (key b = key a)); try congruence; auto. Qed.
Lemma keyed_ntrans a b c : keyed b a = false -> keyed c b = false -> keyed c a = false.
Proof.
  unfold keyed. destruct (decide (key b = key a)) as [Hba|Hba], (decide (key c = key b)) as [Hcb|Hcb], (decide (key c = key a)) as [Hca|Hca];
    try congruence; eauto.
  intros H1 H2. rewrite Hca in H2. pose proof (ktotal _ _ Hba H1). congruence.
Qed.
End keyed.

Lemma journal_before_keyed a b :
  journal_before a b = keyed jr_CreatedAt Z.ltb (keyed jr_Kind String.ltb (fun a b => String.ltb (jr_ID a) (jr_ID b))) a b.
Proof.
  unfold journal_before, keyed. destruct (jr_CreatedAt a =? jr_CreatedAt b) eqn:Ht; cbn [negb].
  - apply Z.eqb_eq in Ht. rewrite decide_True by done. destruct (jr_Kind a =s jr_Kind b) eqn:Hk; cbn [negb].
    + apply String.eqb_eq in Hk. by rewrite decide_True.
    + apply String.eqb_neq in Hk. by rewrite decide_False.
  - apply Z.eqb_neq in Ht. by rewrite decide_False.
Qed.
Lemma journal_before_asym a b : journal_before a b = true -> journal_before b a = false.
Proof.
  rewrite !journal_before_keyed. apply keyed_asym; [intros; lia|].
  intros x y. apply keyed_asym; [apply string_ltb_asym|]. intros. by apply string_ltb_asym.
Qed.
Lemma journal_before_ntrans a b c :
  not_after journal_before a b -> not_after journal_before b c -> not_after journal_before a c.
Proof.
  unfold not_after. rewrite !journal_before_keyed. apply keyed_ntrans; try (intros; lia).
  intros x y z. apply keyed_ntrans; intros; first [by eapply string_ltb_ntrans|by apply string_ltb_asym|by apply string_ltb_total].
Qed.

(** ** The operations *)

Section operations.
  Context {SHA : Sha256}.

Lemma entry_put path path' f d : entry path (put_entry path' f d) = if decide (path = path') then f else entry path d.
Proof.
  unfold entry, put_entry. destruct (decide (path = path')) as [-> |Hne]; [by rewrite lookup_insert_eq|by rewrite lookup_insert_ne by done].
Qed.

Lemma put_steps path f d : rtc entry_step (entry path d) f -> journal_steps d (put_entry path f d).
Proof. intros Hf path'. rewrite entry_put. destruct (decide (path' = path)) as [-> |]; [done|done]. Qed.

Lemma write_record_steps path r d :
  rtc entry_step (entry path d) (Holds (reread r)) -> moves journal_steps d (write_record path r).
Proof. intros Hr. by apply moves_write; [apply _|apply put_steps]. Qed.

Lemma moves_guarded_touch {A : Type} (d : journal) (k : journal_io A) :
  moves journal_steps d k -> moves journal_steps d (_ ← touch; withLeaseGuard k).
Proof.
  intros Hk. apply moves_bind; [apply _|by apply moves_leaves; [apply _|apply leaves_touch]|].
  intros _ fs d' fs' ->%touch_inv. by apply moves_guard; [apply _|].
Qed.

Lemma moves_checked_journal {F A : Type} (wrap : F -> JournalError) (m : result F A) (k : A -> journal_io ApplicationJournalRecord) (d : journal) :
  (forall a, m = Ok a -> moves journal_steps d (k a)) -> moves journal_steps d (checked wrap m ≫= k).
Proof.
  intros Hk. apply moves_bind; [apply _|by apply moves_leaves; [apply _|apply leaves_checked]|].
  intros a fs d' fs' [Hm ->]%checked_inv. by apply Hk.
Qed.

Lemma moves_same {A : Type} (d : journal) (m : journal_io A) : leaves d m -> moves journal_steps d m.
Proof. intros Hm. by apply moves_leaves; [apply _|]. Qed.

(** After the fault point a record is written and returned. *)
Lemma moves_written path r d :
  rtc entry_step (entry path d) (Holds (reread r)) ->
  moves journal_steps d (_ ← injectFault; _ ← write_record path r; mret r).
Proof.
  intros Hr. apply moves_bind; [apply _|apply moves_same, leaves_touch|]. intros _ fs d' fs' ->%touch_inv.
  apply moves_bind; [apply _|by apply write_record_steps|]. intros _ fs1 d1 fs1' _. by apply moves_same.
Qed.

Lemma valid_intent kind id hash request planned now :
  validateJournalIdentity kind id hash request planned = Ok tt -> now <> 0 ->
  valid_record (intent_record kind id hash request planned now).
Proof.
  intros Hid Hnow. apply valid_record_spec. unfold identified, intent_record. record_cbn.
  unfold validateJournalIdentity in Hid. rewrite !fail_if_ok in Hid. destruct Hid as (H1 & H2 & _). bool_props.
  split_and!; try done; [by destruct H1; bool_props; subst|by left].
Qed.

Lemma begin_steps kind id hash request planned now d :
  now <> 0 -> moves journal_steps d (BeginApplicationJournal kind id hash request planned now).
Proof.
  intros Hnow. apply moves_checked_journal. intros [] Hid. apply moves_guarded_touch, moves_read; [apply _|..].
  - intros r _. apply moves_checked_journal. intros _ _. apply moves_same. destruct (other_request _ _ _ _); auto with files.
  - intros Habs. apply moves_written. rewrite Habs. apply rtc_once, step_begin; [by apply valid_intent|done].
  - intros f Hf. apply moves_same. by destruct f.
Qed.

Lemma update_steps kind id hash update d :
  (forall r r', valid_record r -> update r = Ok r' -> r' <> r -> entry_step (Holds r) (Holds (reread r'))) ->
  moves journal_steps d (updateApplicationJournal kind id hash update).
Proof.
  intros Hup. apply moves_guarded_touch. apply moves_bind; [apply _|apply moves_same, leaves_read|].
  intros r fs d' fs' Hr. pose proof (leaves_returned d _ _ _ _ _ (leaves_read _ _) Hr) as ->. apply read_returned in Hr.
  apply moves_checked_journal. intros [] Hv. destruct (other_request _ _ _ _); [by apply moves_same|].
  apply moves_checked_journal. intros r' Hr'. destruct (decide (r = r')) as [|Hne]; [by apply moves_same|].
  apply moves_written. rewrite Hr. apply rtc_once. by apply Hup.
Qed.

Lemma mutate_step response now r r' :
  json_valid response = true -> now <> 0 -> valid_record r -> mutate response now r = Ok r' -> r' <> r ->
  entry_step (Holds r) (Holds (reread r')).
Proof.
  intros Hj Hnow Hv. unfold mutate. destruct ((jr_State r =s JournalCommitted) || (jr_State r =s JournalMutated)) eqn:Ha.
  - destruct (negb _); [done|]. congruence.
  - intros [= <-] _. apply step_mutate; try done. pose proof Hv as (_ & _ & _ & [|[Hc _]])%valid_record_spec; [done|].
    unfold answered in Hc. rewrite orb_comm in Ha. congruence.
Qed.
Lemma commit_step now r r' :
  now <> 0 -> valid_record r -> commit now r = Ok r' -> r' <> r -> entry_step (Holds r) (Holds (reread r')).
Proof.
  intros Hnow Hv. unfold commit. destruct (jr_State r =s JournalCommitted); [congruence|].
  destruct (_ || _) eqn:Hs; [done|]. intros [= <-] _. bool_props. by apply step_commit.
Qed.

Lemma mark_steps kind id hash response now d :
  now <> 0 -> moves journal_steps d (MarkApplicationJournalMutated kind id hash response now).
Proof.
  intros Hnow. unfold MarkApplicationJournalMutated. destruct (_ || _) eqn:Hr; [by apply moves_same|]. bool_props.
  apply update_steps. intros r r'. by apply mutate_step.
Qed.
Lemma commit_steps kind id hash now d : now <> 0 -> moves journal_steps d (CommitApplicationJournal kind id hash now).
Proof. intros Hnow. apply update_steps. intros r r'. by apply commit_step. Qed.

(** ** What the operations return *)

Lemma read_journal_returned kind id d fs r d' fs' :
  ReadApplicationJournal kind id d fs = Returned r d' fs' ->
  d' = d /\ entry (applicationJournalPath kind id) d = Holds r /\ valid_record r /\ jr_Kind r = kind /\ jr_ID r = id.
Proof.
  unfold ReadApplicationJournal. intros H. io_inv.
  match goal with H : readJSON _ _ _ = Returned _ _ _ |- _ =>
    pose proof (leaves_returned d _ _ _ _ _ (leaves_read _ _) H); apply read_returned in H end. subst.
  destruct (_ || _) eqn:Hk; [done|]. io_inv. bool_props. match goal with u : unit |- _ => by destruct u end.
Qed.

Lemma read_journal_missing kind id d fs d' fs' :
  ReadApplicationJournal kind id d fs = Raised (JournalFile FileNotExist) d' fs' ->
  d' = d /\ entry (applicationJournalPath kind id) d = Absent.
Proof.
  unfold ReadApplicationJournal, mbind, io_bind. destruct (readJSON _ d fs) as [r d1 fs1|e d1 fs1|d1] eqn:Hread; [| |done].
  - unfold checked, validateJournalRecord. intros H. repeat case_match; simplify_eq; try discriminate H.
  - intros [= -> -> ->]. unfold readJSON, call in Hread.
    destruct fs as [|[] fs], (entry (applicationJournalPath kind id) d); try discriminate Hread; by injection Hread as <- <-.
Qed.

Definition belongs (r : ApplicationJournalRecord) (kind id hash : string) : Prop :=
  valid_record r /\ jr_Kind r = kind /\ jr_ID r = id /\ jr_RequestHash r = hash.

Lemma other_request_false r kind id hash : other_request r kind id hash = false -> jr_Kind r = kind /\ jr_ID r = id /\ jr_RequestHash r = hash.
Proof. unfold other_request. intros H. by bool_props. Qed.

Lemma update_returned kind id hash update d fs r d' fs' :
  updateApplicationJournal kind id hash update d fs = Returned r d' fs' ->
  exists r0, entry (applicationJournalPath kind id) d = Holds r0 /\ belongs r0 kind id hash /\ update r0 = Ok r /\
    entry (applicationJournalPath kind id) d' = Holds (if decide (r0 = r) then r0 else reread r).
Proof.
  unfold updateApplicationJournal, write_record. intros H. io_inv.
  match goal with H : readJSON _ _ _ = Returned _ _ _ |- _ =>
    pose proof (leaves_returned _ _ _ _ _ _ (leaves_read _ _) H); apply read_returned in H end. subst.
  match goal with u : unit |- _ => destruct u end. destruct (other_request _ _ _ _) eqn:Ho; [done|].
  apply other_request_false in Ho as (? & ? & ?). io_inv.
  match goal with H : (if decide (?a = ?b) then _ else _) _ _ = _ |- _ =>
    exists a; destruct (decide (a = b)) as [|Hne]; io_inv end.
  - split_and!; [done|by split_and!|done|]. by rewrite decide_True.
  - split_and!; [done|by split_and!|done|]. by rewrite entry_put, decide_True, decide_False.
Qed.

Lemma begin_returned kind id hash request planned now d fs r d' fs' :
  now <> 0 -> BeginApplicationJournal kind id hash request planned now d fs = Returned r d' fs' ->
  exists r', entry (applicationJournalPath kind id) d' = Holds r' /\ same_binding r r' /\ belongs r' kind id hash.
Proof.
  unfold BeginApplicationJournal, write_record. intros Hnow H. io_inv. match goal with u : unit |- _ => destruct u end.
  match goal with H : attempt _ _ _ = Returned _ _ _ |- _ => apply read_cases in H as [-> Hread] end.
  match goal with r : result _ _ |- _ => destruct r as [old|e] end.
  - io_inv. destruct (other_request _ _ _ _) eqn:Ho; [done|]. apply other_request_false in Ho as (? & ? & ?). io_inv.
    match goal with u : unit |- _ => destruct u end. exists r. split_and!; [done|apply same_binding_refl|by split_and!].
  - destruct e as [[]| | | | | | | | | |]; io_inv.
    rewrite entry_put, decide_True by done.
    match goal with H : validateJournalIdentity _ _ _ _ _ = Ok ?u |- _ => destruct u; apply (valid_intent _ _ _ _ _ now) in H; [|done] end.
    destruct (valid_reread (intent_record kind id hash request planned now)) as [Hv Hb]; [done|].
    eexists. split_and!; [done|done|by split_and!].
Qed.

Lemma pending_of_returned (paths : list (string * string)) (d : journal) fs records d' fs' :
  pending_of paths d fs = Returned records d' fs' ->
  d' = d /\ forall r, r ∈ records <-> exists path, path ∈ paths /\ entry path d = Holds r /\ jr_State r <> JournalCommitted.
Proof.
  revert fs records d' fs'. induction paths as [|path paths IH]; intros fs records d' fs' H; cbn [pending_of] in H.
  - injection H as <- <- _. split; [done|]. set_solver.
  - apply bind_inv in H as (r0 & d1 & fs1 & Hr0 & H).
    pose proof (leaves_returned d _ _ _ _ _ (leaves_read _ _) Hr0) as ->. apply read_returned in Hr0.
    apply bind_inv in H as (u & d2 & fs2 & [_ ->]%checked_inv & H). apply bind_inv in H as (rest & d3 & fs3 & Hrest & H).
    injection H as <- -> _. apply IH in Hrest as [-> Hrest]. split; [done|]. intros r.
    assert (r ∈ (if jr_State r0 =s JournalCommitted then rest else r0 :: rest) <->
      r ∈ rest \/ r = r0 /\ jr_State r0 <> JournalCommitted) as ->.
    { destruct (jr_State r0 =s JournalCommitted) eqn:Hs; [apply String.eqb_eq in Hs|apply String.eqb_neq in Hs].
      - split; [by left|]. by intros [|[_ Hn]].
      - rewrite elem_of_cons. split; [intros [|]; auto|intros [|[? _]]; auto]. }
    rewrite Hrest. setoid_rewrite elem_of_cons. split.
    + intros [(p & Hp & Hr)|[-> Hs]]; [exists p; tauto|exists path; tauto].
    + intros (p & [-> |Hp] & Hr & Hs); [right; rewrite Hr0 in Hr; by injection Hr as ->|left; by exists p].
Qed.

Lemma journal_paths_elem kind d path r : path.1 = kind -> entry path d = Holds r -> path ∈ journal_paths kind d.
Proof.
  intros Hk Hr. unfold journal_paths. apply sort_slice_elem, list_elem_of_In, List.filter_In. rewrite Hr, Hk, String.eqb_refl. split; [|done].
  apply list_elem_of_In, list_elem_of_fmap. unfold entry in Hr. destruct (d !! path) as [f|] eqn:Hd; [|done].
  exists (path, f). split; [done|]. by apply elem_of_map_to_list.
Qed.

(** What is listed: pending records only, and all of the kind "start" *)
Lemma list_pending_returned (d : journal) fs records d' fs' :
  ListPendingApplicationJournals d fs = Returned records d' fs' ->
  d' = d /\ StronglySorted (not_after journal_before) records /\
  (forall r, r ∈ records -> exists path, entry path d = Holds r /\ jr_State r <> JournalCommitted) /\
  (forall path r, path.1 = "start" -> entry path d = Holds r -> jr_State r <> JournalCommitted -> r ∈ records).
Proof.
  intros H. unfold ListPendingApplicationJournals in H.
  apply bind_inv in H as (pa & d1 & fs1 & [= <- <-]%call_inv & H). apply bind_inv in H as (actions & d2 & fs2 & [-> Ha]%pending_of_returned & H).
  apply bind_inv in H as (ps & d3 & fs3 & [= <- <-]%call_inv & H). apply bind_inv in H as (starts & d4 & fs4 & [-> Hs]%pending_of_returned & H).
  injection H as <- -> _. split; [done|]. split; [by apply sort_slice_sorted; [apply journal_before_asym|apply journal_before_ntrans]|]. split.
  - intros r. rewrite sort_slice_elem, elem_of_app, Ha, Hs. intros [(p & _ & Hr)|(p & _ & Hr)]; by exists p.
  - intros path r Hk Hr Hst. rewrite sort_slice_elem, elem_of_app, Hs. right. exists path. split_and!; [|done..]. by eapply journal_paths_elem.
Qed.

(** ** When nothing fails *)

Lemma bind_works {A B : Type} (m : journal_io A) (k : A -> journal_io B) (d : journal) a d' :
  m d [] = Returned a d' [] -> (m ≫= k) d [] = k a d' [].
Proof. intros H. unfold mbind, io_bind. by rewrite H. Qed.

Lemma read_journal_works kind id hash r d :
  entry (applicationJournalPath kind id) d = Holds r -> belongs r kind id hash ->
  ReadApplicationJournal kind id d [] = Returned r d [].
Proof.
  intros Hr (Hv & Hk & Hi & _). unfold ReadApplicationJournal. rewrite (bind_works _ _ _ r d) by (unfold readJSON, call; by rewrite Hr).
  unfold valid_record in Hv. rewrite Hv. rewrite (bind_works _ _ _ tt d) by done. by rewrite Hk, Hi, !String.eqb_refl.
Qed.

Lemma update_works kind id hash update r r' d :
  entry (applicationJournalPath kind id) d = Holds r -> belongs r kind id hash -> update r = Ok r' ->
  exists d', updateApplicationJournal kind id hash update d [] = Returned r' d' [].
Proof.
  intros Hr (Hv & Hk & Hi & Hh) Hu. unfold updateApplicationJournal, withLeaseGuard, withFileLock.
  rewrite 2 (bind_works _ _ _ tt d) by done. rewrite (bind_works _ _ _ r d) by (unfold readJSON, call; by rewrite Hr).
  unfold valid_record in Hv. rewrite Hv. rewrite (bind_works _ _ _ tt d) by done.
  unfold other_request. rewrite Hk, Hi, Hh, !String.eqb_refl, Hu. cbn [negb orb].
  rewrite (bind_works _ _ _ r' d) by done. destruct (decide _); [by eexists|].
  by eexists.
Qed.

Lemma commit_works now r : valid_record r -> answered r = true -> exists r', commit now r = Ok r'.
Proof.
  intros Hv Ha. pose proof Hv as (_ & _ & _ & [Hs|[_ Hj]])%valid_record_spec; [by unfold answered in Ha; rewrite Hs in Ha|].
  unfold commit. destruct (jr_State r =s JournalCommitted) eqn:Hc; [by eexists|]. unfold answered in Ha. rewrite Hc, orb_false_r in Ha.
  rewrite Ha, (json_valid_nonempty _ Hj). by eexists.
Qed.
End operations.
