(* ===== verification/AppRequests.v ===== *)
(** * The requests and responses of the application service

    internal/application/types.go, errors.go and canonicalRequest of service.go:
    the records that go through the application journal, their JSON and back.

    A value of a [map[string]any] is the JSON tree that encoding/json prints for
    it, so a float64 is its shortest literal; a json.RawMessage is a tree too, its
    white space is not kept.  A name in a map of an error is ordered by the
    definition that makes the map. *)

From S2P Require Import Prelude GoText Json JsonTree Routing Resolver Catalog Workflow Context RunState.
#[local] Open Scope string_scope.
#[local] Open Scope list_scope.
#[local] Open Scope Z_scope.

Definition ApplicationAPIVersion := "fishyume.application/v1".
Definition MaxErrorDataBytes := 8 * 1024.
Definition MaxRequestIDBytes := 256.

(** ** Requests *)

Record WorkflowSource := { wsrc_Filename : string; wsrc_Content : string }.
Record WorkflowInput := { wi_Source : option WorkflowSource; wi_Document : option json }.

Record RunStartRequest := {
  sq_Project : string; sq_Workflow : WorkflowInput; sq_Inputs : gmap string json; sq_Driver : string; sq_Target : string;
  sq_ClientRequestID : string; sq_ContextBindings : ContextBindings }.
Record RunStartResponse := { sp_APIVersion : string; sp_RunID : string; sp_StateVersion : Z; sp_Attach : string }.

Definition ActionApprove := "approve".
Definition ActionReject := "reject".
Definition ActionAnswer := "answer".
Definition ActionRetry := "retry".
Definition ActionCancel := "cancel".

Record RunActionRequest := {
  aq_ActionID : string; aq_RunID : string; aq_Type : string; aq_ExpectedStateVersion : Z; aq_NodeID : string;
  aq_ExpectedAttempt : option Z; aq_Reason : string; aq_Answers : gmap string json; aq_AcknowledgeDuplicateRisk : bool }.
Record RunActionResponse := {
  ap_APIVersion : string; ap_ActionID : string; ap_RunID : string; ap_Type : string; ap_StateVersion : Z;
  ap_Phase : string; ap_Conclusion : string }.

(** ** Errors *)

Inductive ErrorCode :=
| CodeInvalidArgument | CodeInvalidWorkflow | CodeNotFound | CodeConflict | CodeAppUnavailable | CodeNotReady
| CodeProtocolMismatch | CodeInternal.
#[export] Instance ErrorCode_eq_dec : EqDecision ErrorCode.
Proof. solve_decision. Defined.
Definition code_text (c : ErrorCode) : string :=
  match c with
  | CodeInvalidArgument => "invalid_argument" | CodeInvalidWorkflow => "invalid_workflow" | CodeNotFound => "not_found"
  | CodeConflict => "conflict" | CodeAppUnavailable => "capability_unavailable" | CodeNotReady => "not_ready"
  | CodeProtocolMismatch => "protocol_mismatch" | CodeInternal => "internal"
  end.
Definition all_codes : list ErrorCode :=
  [CodeInvalidArgument; CodeInvalidWorkflow; CodeNotFound; CodeConflict; CodeAppUnavailable; CodeNotReady;
   CodeProtocolMismatch; CodeInternal].
Definition code_of (s : string) : option ErrorCode := List.find (fun c => code_text c =s s) all_codes.

(** Error; its data by name, none for a nil map.  Of an internal error the text
    of the cause is left out. *)
Record AppError := { ae_Code : ErrorCode; ae_Message : string; ae_Data : list (string * json) }.

(** boundErrorData *)
Definition boundErrorData (data : list (string * json)) : list (string * json) :=
  if len (json_text (jobject (map Some data))) <=? MaxErrorDataBytes then data else [("truncated", jbool true)].
Definition NewError (code : ErrorCode) (message : string) (data : list (string * json)) : AppError :=
  {| ae_Code := code; ae_Message := message; ae_Data := match data with [] => [] | _ => boundErrorData data end |}.
Definition conflictError (message : string) (data : list (string * json)) : AppError := NewError CodeConflict message data.
Definition internalError : AppError := NewError CodeInternal "internal application error" [].

(** ** json.Marshal *)

Fixpoint html_safe (v : json) : json :=
  match v with
  | JLit text => JLit text
  | JStr body => JStr (html_escape 0 body)
  | JArr items => JArr (map html_safe items)
  | JObj members => JObj (map (fun '(k, v) => (html_escape 0 k, html_safe v)) members)
  end.

Definition encode_source (s : WorkflowSource) : json :=
  jobject [Some ("filename", jstring (wsrc_Filename s)); Some ("content", jstring (wsrc_Content s))].
Definition encode_workflow (w : WorkflowInput) : json :=
  jobject [match wi_Source w with Some s => Some ("source", encode_source s) | None => None end;
           match wi_Document w with Some v => Some ("document", html_safe v) | None => None end].
Definition encode_memory (b : MemoryBinding) : json :=
  jobject [Some ("id", jstring (mb_ID b)); Some ("reason", jstring (mb_Reason b))].
Definition encode_bindings (bindings : ContextBindings) : json :=
  jobject [omitempty (Nat.eqb (size bindings) 0) "memoryByNode" (jmap (jarray encode_memory) bindings)].

Definition encode_start (r : RunStartRequest) : json :=
  jobject [Some ("project", jstring (sq_Project r)); Some ("workflow", encode_workflow (sq_Workflow r));
           omitempty (Nat.eqb (size (sq_Inputs r)) 0) "inputs" (jmap (fun v => v) (sq_Inputs r));
           omitempty (sq_Driver r =s "") "driver" (jstring (sq_Driver r));
           omitempty (sq_Target r =s "") "target" (jstring (sq_Target r));
           Some ("clientRequestId", jstring (sq_ClientRequestID r));
           Some ("contextBindings", encode_bindings (sq_ContextBindings r))].
Definition encode_start_response (r : RunStartResponse) : json :=
  jobject [Some ("apiVersion", jstring (sp_APIVersion r)); Some ("runId", jstring (sp_RunID r));
           Some ("stateVersion", jint (sp_StateVersion r)); Some ("attach", jstring (sp_Attach r))].

Definition encode_action (r : RunActionRequest) : json :=
  jobject [Some ("actionId", jstring (aq_ActionID r)); Some ("runId", jstring (aq_RunID r)); Some ("type", jstring (aq_Type r));
           Some ("expectedStateVersion", jint (aq_ExpectedStateVersion r));
           omitempty (aq_NodeID r =s "") "nodeId" (jstring (aq_NodeID r));
           match aq_ExpectedAttempt r with Some n => Some ("expectedAttempt", jint n) | None => None end;
           omitempty (aq_Reason r =s "") "reason" (jstring (aq_Reason r));
           omitempty (Nat.eqb (size (aq_Answers r)) 0) "answers" (jmap (fun v => v) (aq_Answers r));
           omitempty (negb (aq_AcknowledgeDuplicateRisk r)) "acknowledgeDuplicateRisk" (jbool (aq_AcknowledgeDuplicateRisk r))].
Definition encode_action_response (r : RunActionResponse) : json :=
  jobject [Some ("apiVersion", jstring (ap_APIVersion r)); Some ("actionId", jstring (ap_ActionID r));
           Some ("runId", jstring (ap_RunID r)); Some ("type", jstring (ap_Type r));
           Some ("stateVersion", jint (ap_StateVersion r)); Some ("phase", jstring (ap_Phase r));
           omitempty (ap_Conclusion r =s "") "conclusion" (jstring (ap_Conclusion r))].

Definition encode_error (e : AppError) : json :=
  jobject [Some ("code", jstring (code_text (ae_Code e))); Some ("message", jstring (ae_Message e));
           omitempty match ae_Data e with [] => true | _ => false end "data" (jobject (map Some (ae_Data e)))].
(** actionJournalError *)
Definition encode_action_error (e : AppError) : json := jobject [Some ("error", encode_error e)].

(** ** json.Unmarshal *)

Definition decode_source (v : json) : option WorkflowSource :=
  m ← decode_members v;
  filename ← field "" decode_string m "filename";
  content ← field "" decode_string m "content";
  Some {| wsrc_Filename := filename; wsrc_Content := content |}.
Definition decode_workflow (v : json) : option WorkflowInput :=
  m ← decode_members v;
  source ← field None (pointer decode_source) m "source";
  Some {| wi_Source := source; wi_Document := member "document" m |}.
Definition decode_memory (v : json) : option MemoryBinding :=
  m ← decode_members v;
  i ← field "" decode_string m "id";
  reason ← field "" decode_string m "reason";
  Some {| mb_ID := i; mb_Reason := reason |}.
Definition decode_bindings (v : json) : option ContextBindings :=
  m ← decode_members v; field ∅ (decode_map (decode_array decode_memory)) m "memoryByNode".

Definition decode_start (v : json) : option RunStartRequest :=
  m ← decode_members v;
  project ← field "" decode_string m "project";
  workflow ← field {| wi_Source := None; wi_Document := None |} decode_workflow m "workflow";
  inputs ← field ∅ (decode_map Some) m "inputs";
  driver ← field "" decode_string m "driver";
  target ← field "" decode_string m "target";
  clientRequestID ← field "" decode_string m "clientRequestId";
  bindings ← field ∅ decode_bindings m "contextBindings";
  Some {| sq_Project := project; sq_Workflow := workflow; sq_Inputs := inputs; sq_Driver := driver; sq_Target := target;
          sq_ClientRequestID := clientRequestID; sq_ContextBindings := bindings |}.
Definition decode_start_response (v : json) : option RunStartResponse :=
  m ← decode_members v;
  version ← field "" decode_string m "apiVersion";
  run ← field "" decode_string m "runId";
  state ← field 0 decode_uint64 m "stateVersion";
  attach ← field "" decode_string m "attach";
  Some {| sp_APIVersion := version; sp_RunID := run; sp_StateVersion := state; sp_Attach := attach |}.

Definition decode_action (v : json) : option RunActionRequest :=
  m ← decode_members v;
  action ← field "" decode_string m "actionId";
  run ← field "" decode_string m "runId";
  type ← field "" decode_string m "type";
  version ← field 0 decode_uint64 m "expectedStateVersion";
  node ← field "" decode_string m "nodeId";
  attempt ← field None (pointer decode_goint) m "expectedAttempt";
  reason ← field "" decode_string m "reason";
  answers ← field ∅ (decode_map Some) m "answers";
  acknowledge ← field false decode_bool m "acknowledgeDuplicateRisk";
  Some {| aq_ActionID := action; aq_RunID := run; aq_Type := type; aq_ExpectedStateVersion := version; aq_NodeID := node;
          aq_ExpectedAttempt := attempt; aq_Reason := reason; aq_Answers := answers; aq_AcknowledgeDuplicateRisk := acknowledge |}.
Definition decode_action_response (v : json) : option RunActionResponse :=
  m ← decode_members v;
  version ← field "" decode_string m "apiVersion";
  action ← field "" decode_string m "actionId";
  run ← field "" decode_string m "runId";
  type ← field "" decode_string m "type";
  state ← field 0 decode_uint64 m "stateVersion";
  phase ← field "" decode_string m "phase";
  conclusion ← field "" decode_string m "conclusion";
  Some {| ap_APIVersion := version; ap_ActionID := action; ap_RunID := run; ap_Type := type; ap_StateVersion := state;
          ap_Phase := phase; ap_Conclusion := conclusion |}.

(** The code of an error that is read back is any string; here it must be one of
    the codes. *)
Definition decode_error (v : json) : option AppError :=
  m ← decode_members v;
  code ← field "" decode_string m "code";
  code ← code_of code;
  message ← field "" decode_string m "message";
  data ← field [] (fun v => m ← decode_members v; Some (map (fun '(k, v) => (string_of_body k, v)) m)) m "data";
  Some {| ae_Code := code; ae_Message := message; ae_Data := data |}.
Definition decode_action_error (v : json) : option (option AppError) :=
  m ← decode_members v; field None (pointer decode_error) m "error".

(** canonicalRequest *)
Definition canonicalRequest `{Sha256} (v : json) : string * string := (hashBytes (json_text v), json_text v).

(** A value of a map[string]any as the workflow package sees it *)
Fixpoint strip_zeros (fuel : nat) (m e : Z) : Z * Z :=
  match fuel with
  | O => (m, e)
  | S fuel => if m mod 10 =? 0 then strip_zeros fuel (m / 10) (e + 1) else (m, e)
  end.
Definition zeros (n : Z) : string := of_list (repeat "0"%char (Z.to_nat n)).
(** strconv.FormatFloat(v, 'g', -1, 64) from the shortest literal of v *)
Definition g_format (text : list ascii) : string :=
  let '(m, e) := literal_value text in
  let sign := match text with c :: _ => if Ascii.eqb c "-" then "-" else "" | [] => "" end in
  if m =? 0 then sign +:+ "0" else
  let '(m, e) := strip_zeros (length text) m e in
  let ds := pretty m in
  let n := len ds in
  let dp := n + e in
  let at_ k := String.substring 0 (Z.to_nat k) ds in
  let from k := String.substring (Z.to_nat k) (Z.to_nat (n - k)) ds in
  let x := dp - 1 in
  sign +:+
  (if (x <? -4) || (6 <=? x) then
     at_ 1 +:+ (if n =? 1 then "" else "." +:+ from 1) +:+ "e" +:+ (if x <? 0 then "-" else "+") +:+
     (if Z.abs x <? 10 then "0" else "") +:+ pretty (Z.abs x)
   else if dp <=? 0 then "0." +:+ zeros (- dp) +:+ ds
   else if n <=? dp then ds +:+ zeros (dp - n)
   else at_ dp +:+ "." +:+ from dp).
Definition any_of (v : json) : any :=
  match v with
  | JLit text =>
      if of_list text =s "null" then ANil
      else if of_list text =s "true" then ABool true else if of_list text =s "false" then ABool false
      else AFloat (g_format text) (of_list text)
  | JStr body => AString (string_of_body body)
  | JArr _ | JObj _ => AOther
  end.

Example g_formats :
  map (fun s => g_format (to_list s)) ["0"; "-0"; "1"; "-2.5"; "1000000"; "123456"; "1e-7"; "0.0001"; "1.5e+300"; "100"]
  = ["0"; "-0"; "1"; "-2.5"; "1e+06"; "123456"; "1e-07"; "0.0001"; "1.5e+300"; "100"].
Proof. vm_compute. reflexivity. Qed.
