(* ===== verification/AppCodecs.v ===== *)
(** * The escapes of a RawMessage

    Marshalling a RawMessage escapes what HTML or JavaScript would misread in its
    strings; what is escaped already stays as it is, and so does well-formedness. *)

From S2P Require Import Prelude GoText Json JsonTree JsonTreeTheory JsonSound AppRequests JsonStrings Routing.
From S2P Require Import Resolver Catalog Workflow Context RunState.
#[local] Open Scope string_scope.
#[local] Open Scope list_scope.
#[local] Open Scope Z_scope.

(** The list goes on with the rest of U+2028 or U+2029. *)
Definition separator (c : ascii) (l : list ascii) : bool :=
  match l with
  | a :: b :: _ => Ascii.eqb c (ch 226) && Ascii.eqb a (ch 128) && (Ascii.eqb b (ch 168) || Ascii.eqb b (ch 169))
  | _ => false
  end.
Fixpoint html_clean (l : list ascii) : bool :=
  match l with [] => true | c :: l => negb (one_of "<>&" c) && negb (separator c l) && html_clean l end.

Lemma html_escape_skip k l : html_escape k l = html_escape 0 (drop k l).
Proof. revert l. induction k as [|k IH]; intros [|c l]; cbn [drop html_escape]; auto. Qed.

Lemma html_escape_special c l : one_of "<>&" c = true ->
  exists d e, html_escape 0 (c :: l) = backslash :: to_list "u00" ++ d :: e :: html_escape 0 l /\
    forallb is_hex [d; e] = true /\ (forall k, html_clean (d :: e :: k) = html_clean k).
Proof.
  intros Hc. cbn [html_escape]. rewrite Hc. eexists _, _. split; [done|].
  destruct c as [[][][][][][][][]]; try discriminate Hc; split; [done|intros k|done|intros k|done|intros k];
    by destruct k as [|? [|? ?]].
Qed.
Lemma html_escape_separator c a b l : one_of "<>&" c = false -> separator c (a :: b :: l) = true ->
  exists e, html_escape 0 (c :: a :: b :: l) = backslash :: to_list "u202" ++ e :: html_escape 0 l /\
    is_hex e = true /\ (forall k, html_clean (e :: k) = html_clean k).
Proof.
  intros Hc Hs. cbn [separator] in Hs. cbn [html_escape]. rewrite Hc, Hs. eexists. split; [done|].
  rewrite !andb_true_iff, orb_true_iff, !Ascii.eqb_eq in Hs. destruct Hs as [_ [-> | ->]];
    (split; [done|]; intros k; by destruct k as [|? [|? ?]]).
Qed.
Lemma html_escape_plain c l : one_of "<>&" c = false -> separator c l = false -> html_escape 0 (c :: l) = c :: html_escape 0 l.
Proof. intros Hc Hs. cbn [html_escape]. rewrite Hc. destruct l as [|a [|b l]]; [done..|]. cbn [separator] in Hs. by rewrite Hs. Qed.

(** Take the head of a list through [html_escape]. *)
Lemma html_escape_cases (P : list ascii -> list ascii -> Prop) :
  P [] [] ->
  (forall c d e l, one_of "<>&" c = true -> forallb is_hex [d; e] = true -> (forall k, html_clean (d :: e :: k) = html_clean k) ->
     P l (html_escape 0 l) -> P (c :: l) (backslash :: to_list "u00" ++ d :: e :: html_escape 0 l)) ->
  (forall c a b e l, separator c (a :: b :: l) = true -> is_hex e = true -> (forall k, html_clean (e :: k) = html_clean k) ->
     P l (html_escape 0 l) -> P (c :: a :: b :: l) (backslash :: to_list "u202" ++ e :: html_escape 0 l)) ->
  (forall c l, one_of "<>&" c = false -> separator c l = false -> P l (html_escape 0 l) -> P (c :: l) (c :: html_escape 0 l)) ->
  forall l, P l (html_escape 0 l).
Proof.
  intros Hnil Hspecial Hsep Hplain l. induction l as [l IH] using (induction_ltof1 _ (@length ascii)). unfold ltof in IH.
  destruct l as [|c l]; [done|]. destruct (one_of "<>&" c) eqn:Hc.
  - destruct (html_escape_special c l Hc) as (d & e & -> & Hhex & Hclean). apply Hspecial; try done. apply IH. cbn. lia.
  - destruct (separator c l) eqn:Hs.
    + destruct l as [|a [|b l]]; try discriminate Hs. destruct (html_escape_separator c a b l Hc Hs) as (e & -> & Hhex & Hclean).
      apply Hsep; try done. apply IH. cbn. lia.
    + rewrite html_escape_plain by done. apply Hplain; try done. apply IH. cbn. lia.
Qed.

Lemma separator_not c l : separator c l = true -> c = ch 226.
Proof. destruct l as [|a [|b l]]; [done..|]. cbn [separator]. by rewrite !andb_true_iff, !Ascii.eqb_eq; intros [[-> _] _]. Qed.
Lemma html_clean_ascii c l : one_of "<>&" c = false -> (N_of_ascii c <? 128)%N = true -> html_clean (c :: l) = html_clean l.
Proof.
  intros Hc Ha. cbn [html_clean]. rewrite Hc. destruct (separator c l) eqn:Hs; [|done]. apply separator_not in Hs as ->. done.
Qed.

(** The first character is itself or an escape. *)
Lemma html_escape_head c l : exists x r, html_escape 0 (c :: l) = x :: r /\ (x = c /\ r = html_escape 0 l \/ x = backslash).
Proof.
  destruct (one_of "<>&" c) eqn:Hc.
  - destruct (html_escape_special c l Hc) as (d & e & -> & _). eexists _, _. split; [done|by right].
  - destruct (separator c l) eqn:Hs; [|rewrite html_escape_plain by done; eexists _, _; by split; [|left]].
    destruct l as [|a [|b l]]; try discriminate Hs. destruct (html_escape_separator c a b l Hc Hs) as (e & -> & _). eexists _, _. split; [done|by right].
Qed.
Lemma separator_escape c l : separator c l = false -> separator c (html_escape 0 l) = false.
Proof.
  intros Hs. destruct l as [|a l]; [done|]. destruct (html_escape_head a l) as (x & r & -> & [[-> ->]| ->]).
  - destruct l as [|b l]; [done|]. destruct (html_escape_head b l) as (y & r & -> & [[-> _]| ->]); [done|].
    cbn [separator]. by rewrite andb_false_r.
  - destruct r as [|y r]; [done|]. cbn [separator]. by rewrite andb_false_r.
Qed.

Lemma html_escape_clean l : html_clean (html_escape 0 l) = true.
Proof.
  revert l. apply (html_escape_cases (fun _ r => html_clean r = true)); [done|..].
  - intros c d e l _ _ Hclean IH. change (html_clean (d :: e :: html_escape 0 l) = true). by rewrite Hclean.
  - intros c a b e l _ _ Hclean IH. cbn [to_list app]. do 5 rewrite html_clean_ascii by done. by rewrite Hclean.
  - intros c l Hc Hs IH. cbn [html_clean]. by rewrite Hc, separator_escape, IH.
Qed.
Lemma html_clean_escape l : html_clean l = true -> html_escape 0 l = l.
Proof.
  induction l as [|c l IH]; [done|]. cbn [html_clean]. rewrite !andb_true_iff, !negb_true_iff. intros [[Hc Hs] Hl].
  by rewrite html_escape_plain, IH by done.
Qed.
Lemma html_escape_idemp l : html_escape 0 (html_escape 0 l) = html_escape 0 l.
Proof. apply html_clean_escape, html_escape_clean. Qed.

(** ** Well-formedness *)

Lemma separator_plain c a b l : separator c (a :: b :: l) = true ->
  Ascii.eqb c backslash = false /\ Ascii.eqb a backslash = false /\ Ascii.eqb b backslash = false.
Proof.
  cbn [separator]. rewrite !andb_true_iff, orb_true_iff, !Ascii.eqb_eq. by intros [[-> ->] [-> | ->]].
Qed.
Lemma body_tail c l : Ascii.eqb c backslash = false -> body_ok (c :: l) -> body_ok l.
Proof. intros Hc. inversion 1; subst; [done|discriminate Hc..]. Qed.

(** A character of an escape sequence passes as it is. *)
Lemma html_escape_ascii c l : one_of "<>&" c = false -> (N_of_ascii c <? 128)%N = true -> html_escape 0 (c :: l) = c :: html_escape 0 l.
Proof.
  intros Hc Ha. apply html_escape_plain; [done|]. destruct (separator c l) eqn:Hs; [|done]. apply separator_not in Hs as ->. done.
Qed.
Lemma hex_ascii c : is_hex c = true -> one_of "<>&" c = false /\ (N_of_ascii c <? 128)%N = true.
Proof. destruct c as [[][][][][][][][]]; first [by vm_compute|intros H; discriminate H]. Qed.
Lemma escape_ascii e : Ascii.eqb e quote || Ascii.eqb e backslash || one_of "/bfnrt" e = true ->
  one_of "<>&" e = false /\ (N_of_ascii e <? 128)%N = true.
Proof. destruct e as [[][][][][][][][]]; first [by vm_compute|intros H; discriminate H]. Qed.

Lemma html_escape_ok l : body_ok l -> body_ok (html_escape 0 l).
Proof.
  induction l as [l IH] using (induction_ltof1 _ (@length ascii)). unfold ltof in IH. intros Hl.
  inversion Hl as [|c k Hq Hb Hctl Hk|e k Hu He Hk|a b c d k Hh Hk]; subst; [done|..].
  - destruct (one_of "<>&" c) eqn:Hc.
    { destruct (html_escape_special c k Hc) as (x & y & -> & Hhex & _). cbn [app to_list]. apply body_unicode.
      - cbn [forallb] in *. by rewrite Hhex.
      - apply IH; [cbn; lia|done]. }
    destruct (separator c k) eqn:Hs.
    + destruct k as [|x [|y k]]; try discriminate Hs. destruct (html_escape_separator c x y k Hc Hs) as (e & -> & Hhex & _).
      apply separator_plain in Hs as (_ & Hx & Hy). cbn [app to_list]. apply body_unicode.
      * cbn [forallb]. by rewrite Hhex.
      * apply IH; [cbn; lia|]. by apply (body_tail y), (body_tail x).
    + rewrite html_escape_plain by done. apply body_plain; try done. apply IH; [cbn; lia|done].
  - apply escape_ascii in He as Hascii. destruct Hascii as [He1 He2].
    rewrite html_escape_ascii, (html_escape_ascii e) by done. apply body_escape; try done. apply IH; [cbn; lia|done].
  - cbn [forallb] in Hh. rewrite !andb_true_iff in Hh. destruct Hh as (Ha & Hb & Hc & Hd & _).
    rewrite (html_escape_ascii backslash), (html_escape_ascii "u") by done.
    rewrite !html_escape_ascii by by apply hex_ascii. apply body_unicode; [cbn [forallb]; by rewrite Ha, Hb, Hc, Hd|].
    apply IH; [cbn; lia|done].
Qed.

(** ** Trees *)

Lemma html_safe_idemp v : html_safe (html_safe v) = html_safe v.
Proof.
  revert v. fix IH 1. intros [text|body|items|members]; cbn; [done|by rewrite html_escape_idemp|f_equal..].
  - rewrite map_map. induction items as [|v items IHl]; cbn; [done|]. by rewrite IH, IHl.
  - rewrite map_map. induction members as [|[k v] members IHl]; cbn; [done|]. by rewrite html_escape_idemp, IH, IHl.
Qed.

Lemma html_safe_ok h v : json_ok h v -> json_ok h (html_safe v).
Proof.
  revert v. induction h as [|h IH]; intros v Hv; inversion Hv as [? text Ht|? body Hb|? items Hi|? members Hk Hm]; subst; cbn;
    try (by constructor); try (by constructor; apply html_escape_ok).
  - constructor. apply Forall_map. eapply Forall_impl; [exact Hi|]. intros. by apply IH.
  - constructor; rewrite map_map.
    + clear Hm Hv. induction members as [|[k v] members IHl]; cbn in *; [constructor|].
      inversion Hk; subst. constructor; [by apply html_escape_ok|auto].
    + clear Hk Hv. induction members as [|[k v] members IHl]; cbn in *; [constructor|].
      inversion Hm; subst. constructor; auto.
Qed.
Lemma is_null_html_safe v : is_null (html_safe v) = is_null v.
Proof. by destruct v. Qed.

(** * Requests and responses through JSON

    What the application service encodes is well formed, and decoding what it has
    encoded gives it back: the response that is replayed from the journal is the
    one that was given, the request that is recovered is the one that was made. *)

(** ** Fields *)

(** Which of the fields of an object has a name *)
Lemma member_cons name f fs :
  member name (fields_of (f :: fs)) =
  match member name (fields_of fs) with
  | Some v => Some v
  | None => match f with Some (n, v) => if same_name name (json_chars true 0 (to_list n)) then Some v else None | None => None end
  end.
Proof.
  unfold member, fields_of. cbn [flat_map]. set (l := flat_map _ fs). rewrite reverse_app.
  assert (forall k, List.find (fun '(n, _) => same_name name n) (reverse l ++ k) =
    match List.find (fun '(n, _) => same_name name n) (reverse l) with
    | Some x => Some x | None => List.find (fun '(n, _) => same_name name n) k end) as ->.
  { intros k. induction (reverse l) as [|[n v] r IH]; cbn; [done|]. by destruct (same_name name n). }
  destruct (List.find _ (reverse l)) as [[n v]|]; [done|]. destruct f as [[n v]|]; [|done]. cbn -[json_chars same_name].
  by destruct (same_name _ _).
Qed.
Lemma member_nil name : member name (fields_of []) = None.
Proof. done. Qed.

(** The names are different, or the same. *)
Definition other (name n : string) : Prop := same_name name (json_chars true 0 (to_list n)) = false.
Definition same (name n : string) : Prop := same_name name (json_chars true 0 (to_list n)) = true.

Lemma skip_some name n v fs : other name n -> member name (fields_of (Some (n, v) :: fs)) = member name (fields_of fs).
Proof. intros Hn. rewrite member_cons, Hn. by destruct (member _ _). Qed.
Lemma skip_omitted name b n v fs : other name n -> member name (fields_of (omitempty b n v :: fs)) = member name (fields_of fs).
Proof. intros Hn. destruct b; cbn [omitempty]; [|by apply skip_some]. rewrite member_cons. by destruct (member _ _). Qed.
Lemma skip_option {B} name (o : option B) n g fs :
  other name n -> member name (fields_of (match o with Some x => Some (n, g x) | None => None end :: fs)) = member name (fields_of fs).
Proof. intros Hn. destruct o; [by apply skip_some|]. rewrite member_cons. by destruct (member _ _). Qed.

(** A field, one that may be left out, and one that is there for some value *)
Lemma find_some name n v fs : member name (fields_of fs) = None -> same name n -> member name (fields_of (Some (n, v) :: fs)) = Some v.
Proof. intros Hfs Hn. by rewrite member_cons, Hfs, Hn. Qed.
Lemma find_omitted name b n v fs :
  member name (fields_of fs) = None -> same name n -> member name (fields_of (omitempty b n v :: fs)) = if b then None else Some v.
Proof. intros Hfs Hn. destruct b; cbn [omitempty]; [by rewrite member_cons, Hfs|by apply find_some]. Qed.
Lemma find_option {B} name (o : option B) n g fs :
  member name (fields_of fs) = None -> same name n ->
  member name (fields_of (match o with Some x => Some (n, g x) | None => None end :: fs)) = g <$> o.
Proof. intros Hfs Hn. destruct o; [by apply find_some|by rewrite member_cons, Hfs]. Qed.

Ltac find_member :=
  repeat first [rewrite skip_some by (vm_compute; reflexivity)
               |rewrite skip_omitted by (vm_compute; reflexivity)
               |rewrite skip_option by (vm_compute; reflexivity)];
  first [apply member_nil
        |apply find_some; [find_member|vm_compute; reflexivity]
        |apply find_omitted; [find_member|vm_compute; reflexivity]
        |apply find_option; [find_member|vm_compute; reflexivity]].

Section field.
  Context {A : Type} (zero : A) (decode : json -> option A) (members : list (list ascii * json)) (name : string).

Lemma field_some v a : member name members = Some v -> is_null v = false -> decode v = Some a -> field zero decode members name = Some a.
Proof. intros Hm Hv Ha. unfold field. by rewrite Hm, Hv. Qed.
Lemma field_omitted (b : bool) v a :
  member name members = (if b then None else Some v) -> is_null v = false -> decode v = Some a -> (b = true -> a = zero) ->
  field zero decode members name = Some a.
Proof. intros Hm Hv Ha Hb. unfold field. rewrite Hm. destruct b; [by rewrite Hb|by rewrite Hv]. Qed.
End field.
Lemma field_option {A B} (decode : json -> option A) members name (g : B -> json) (o : option B) (o' : option A) :
  member name members = g <$> o -> (forall x, is_null (g x) = false) -> match o with Some x => decode (g x) = o' /\ o' <> None | None => o' = None end ->
  field None (pointer decode) members name = Some o'.
Proof.
  intros Hm Hg Ho. unfold field, pointer. rewrite Hm. destruct o as [x|]; cbn; [|by subst].
  destruct Ho as [Hx Hne]. rewrite Hg, Hx. by destruct o'.
Qed.

Lemma is_null_jint z : is_null (jint z) = false.
Proof.
  unfold is_null, jint, lit. rewrite of_to_list. apply String.eqb_neq. intros H.
  pose proof (parse_jint z z z) as Hp. destruct (decide (z <= 0)) as [Hz|Hz].
  - specialize (Hp Hz ltac:(lia)). rewrite H in Hp. by destruct z.
  - pose proof (parse_jint 0 z z ltac:(lia) ltac:(lia)) as H0. rewrite H in H0. done.
Qed.

Lemma is_null_jbool b : is_null (jbool b) = false.
Proof. by destruct b. Qed.

Lemma decode_jint_uint64 z : 0 <= z < 2 ^ 64 -> decode_uint64 (jint z) = Some z.
Proof. intros Hz. apply parse_jint; lia. Qed.
Lemma decode_jint_goint z : - 2 ^ 63 <= z < 2 ^ 63 -> decode_goint (jint z) = Some z.
Proof. intros Hz. apply parse_jint; lia. Qed.

Lemma some_bind {A B} (a : A) (f : A -> option B) : Some a ≫= f = f a.
Proof. done. Qed.
Lemma members_bind {A} fields (f : list (list ascii * json) -> option A) :
  decode_members (jobject fields) ≫= f = f (fields_of fields).
Proof. done. Qed.
Lemma bind_step {A B} (m : option A) a (f : A -> option B) r : m = Some a -> f a = r -> m ≫= f = r.
Proof. by intros -> <-. Qed.
Lemma empty_string s : (s =s "") = true -> s = "".
Proof. apply String.eqb_eq. Qed.
Lemma size_empty {A} (m : gmap string A) : (size m =? 0)%nat = true -> m = ∅.
Proof. intros H. by apply map_size_empty_iff, Nat.eqb_eq. Qed.
Lemma negb_false b : negb b = true -> b = false.
Proof. by destruct b. Qed.

Create HintDb codec.
#[local] Hint Resolve decode_jstring decode_jint_uint64 decode_jint_goint decode_jbool is_null_jint is_null_jbool : codec.
#[local] Hint Extern 1 (is_null _ = false) => reflexivity : codec.

(** Decode the fields of an object, one by one. *)
Ltac decode_field :=
  first [eapply field_some; [find_member|solve [eauto with codec nocore]|solve [eauto with codec nocore]]
        |eapply field_omitted; [find_member|solve [eauto with codec nocore]|solve [eauto with codec nocore]
                               |auto using empty_string, size_empty, negb_false]
        |eapply field_option; [find_member|solve [eauto with codec nocore]|]].
Ltac decode_fields := rewrite members_bind; repeat (eapply bind_step; [decode_field|cbv beta]).

(** ** Responses *)

Definition start_fits (r : RunStartResponse) : Prop :=
  valid_utf8 (sp_APIVersion r) = true /\ valid_utf8 (sp_RunID r) = true /\ 0 <= sp_StateVersion r < 2 ^ 64 /\
  valid_utf8 (sp_Attach r) = true.

Lemma decode_start_response_encode r : start_fits r -> decode_start_response (encode_start_response r) = Some r.
Proof.
  destruct r as [version run state attach]. intros (Hv & Hr & Hs & Ha). unfold decode_start_response, encode_start_response.
  cbn [sp_APIVersion sp_RunID sp_StateVersion sp_Attach] in *. decode_fields. done.
Qed.

Definition action_response_fits (r : RunActionResponse) : Prop :=
  valid_utf8 (ap_APIVersion r) = true /\ valid_utf8 (ap_ActionID r) = true /\ valid_utf8 (ap_RunID r) = true /\
  valid_utf8 (ap_Type r) = true /\ 0 <= ap_StateVersion r < 2 ^ 64 /\ valid_utf8 (ap_Phase r) = true /\
  valid_utf8 (ap_Conclusion r) = true.

Lemma decode_action_response_encode r : action_response_fits r -> decode_action_response (encode_action_response r) = Some r.
Proof.
  destruct r as [version action run type state phase conclusion]. intros (Hv & Ha & Hr & Ht & Hs & Hp & Hc).
  unfold decode_action_response, encode_action_response.
  cbn [ap_APIVersion ap_ActionID ap_RunID ap_Type ap_StateVersion ap_Phase ap_Conclusion] in *. decode_fields. done.
Qed.

(** ** Maps and lists *)

Lemma decode_entries_encode {A} (encode : A -> json) decode (l : list (string * A)) m0 :
  (forall k a, (k, a) ∈ l -> valid_utf8 k = true /\ decode (encode a) = Some a) -> NoDup l.*1 ->
  decode_entries decode m0 (map (fun '(k, a) => (json_chars true 0 (to_list k), encode a)) l) = Some (list_to_map l ∪ m0).
Proof.
  revert m0. induction l as [|[k a] l IH]; intros m0 Hl; [cbn; by rewrite map_empty_union|]. rewrite fmap_cons. intros Hnd. cbn -[json_chars fmap].
  destruct (Hl k a) as [Hk Ha]; [by left|]. apply NoDup_cons in Hnd as [Hnew Hnd].
  rewrite Ha, some_bind, string_of_jstring, IH by (done || (intros; apply Hl; by right)). f_equal.
  rewrite <- insert_union_l. symmetry. apply insert_union_r, not_elem_of_list_to_map_1, Hnew.
Qed.

Definition keys_fit {A} (P : A -> Prop) (m : gmap string A) : Prop := map_Forall (fun k a => valid_utf8 k = true /\ P a) m.

Lemma decode_map_encode {A} (encode : A -> json) decode (m : gmap string A) :
  keys_fit (fun a => decode (encode a) = Some a) m -> decode_map decode (jmap encode m) = Some m.
Proof.
  intros Hm. unfold decode_map, jmap. set (l := sort_slice _ _). assert (l ≡ₚ map_to_list m) as Hl by apply sort_slice_perm.
  rewrite decode_entries_encode.
  - rewrite map_union_empty, (list_to_map_proper l (map_to_list m)), list_to_map_to_list; [done| |done].
    rewrite Hl. apply NoDup_fst_map_to_list.
  - intros k a Hka. rewrite Hl, elem_of_map_to_list in Hka. by apply Hm in Hka.
  - rewrite Hl. apply NoDup_fst_map_to_list.
Qed.

Lemma decode_array_encode {A} (encode : A -> json) decode (l : list A) :
  Forall (fun a => decode (encode a) = Some a) l -> decode_array decode (jarray encode l) = Some l.
Proof.
  intros Hl. unfold decode_array, jarray. induction Hl as [|a l Ha _ IH]; [done|]. cbn. by rewrite Ha, some_bind, IH.
Qed.

Lemma is_null_jmap {A} (encode : A -> json) m : is_null (jmap encode m) = false.
Proof. done. Qed.

(** ** Requests *)

Definition source_fits (s : WorkflowSource) : Prop := valid_utf8 (wsrc_Filename s) = true /\ valid_utf8 (wsrc_Content s) = true.
Definition workflow_fits (h : nat) (w : WorkflowInput) : Prop :=
  match wi_Source w with Some s => source_fits s | None => True end /\
  match wi_Document w with Some v => json_ok h v | None => True end.
Definition memory_fits (b : MemoryBinding) : Prop := valid_utf8 (mb_ID b) = true /\ valid_utf8 (mb_Reason b) = true.
Definition bindings_fit (m : ContextBindings) : Prop := keys_fit (Forall memory_fits) m.

(** Text that JSON can carry, values of at most a given depth *)
Definition start_request_fits (h : nat) (r : RunStartRequest) : Prop :=
  valid_utf8 (sq_Project r) = true /\ workflow_fits h (sq_Workflow r) /\ keys_fit (json_ok h) (sq_Inputs r) /\
  valid_utf8 (sq_Driver r) = true /\ valid_utf8 (sq_Target r) = true /\ valid_utf8 (sq_ClientRequestID r) = true /\
  bindings_fit (sq_ContextBindings r).

Lemma decode_source_encode s : source_fits s -> decode_source (encode_source s) = Some s.
Proof.
  destruct s as [filename content]. intros [Hf Hc]. unfold decode_source, encode_source.
  cbn [wsrc_Filename wsrc_Content] in *. decode_fields. done.
Qed.
Definition escaped (w : WorkflowInput) : WorkflowInput :=
  {| wi_Source := wi_Source w; wi_Document := html_safe <$> wi_Document w |}.

Lemma decode_workflow_encode h w : workflow_fits h w -> decode_workflow (encode_workflow w) = Some (escaped w).
Proof.
  destruct w as [source document]. intros [Hs _]. unfold decode_workflow, encode_workflow, escaped.
  cbn [wi_Source wi_Document] in *. decode_fields.
  - instantiate (1 := source). destruct source as [source|]; [|done]. by rewrite decode_source_encode.
  - do 2 f_equal. find_member.
Qed.

Lemma decode_memory_encode b : memory_fits b -> decode_memory (encode_memory b) = Some b.
Proof.
  destruct b as [i reason]. intros [Hi Hr]. unfold decode_memory, encode_memory. cbn [mb_ID mb_Reason] in *. decode_fields. done.
Qed.

Lemma keys_fit_impl {A} (P Q : A -> Prop) (m : gmap string A) : (forall a, P a -> Q a) -> keys_fit P m -> keys_fit Q m.
Proof. intros HPQ Hm k a Hk. destruct (Hm k a Hk). auto. Qed.

Lemma decode_bindings_encode m : bindings_fit m -> decode_bindings (encode_bindings m) = Some m.
Proof.
  intros Hm. unfold decode_bindings, encode_bindings. rewrite members_bind.
  assert (decode_map (decode_array decode_memory) (jmap (jarray encode_memory) m) = Some m) as Hd.
  { apply decode_map_encode. eapply keys_fit_impl; [|exact Hm]. intros l Hl. apply decode_array_encode.
    eapply Forall_impl; [exact Hl|]. apply decode_memory_encode. }
  decode_field.
Qed.

(** What the journal gives back of a request: the escapes in its document *)
Definition recovered (r : RunStartRequest) : RunStartRequest := {|
  sq_Project := sq_Project r; sq_Workflow := escaped (sq_Workflow r); sq_Inputs := sq_Inputs r; sq_Driver := sq_Driver r;
  sq_Target := sq_Target r; sq_ClientRequestID := sq_ClientRequestID r; sq_ContextBindings := sq_ContextBindings r |}.

Lemma encode_recovered r : encode_start (recovered r) = encode_start r.
Proof.
  unfold encode_start, recovered, encode_workflow, escaped. destruct r as [project [source document] inputs driver target i bindings].
  cbn [sq_Project sq_Workflow sq_Inputs sq_Driver sq_Target sq_ClientRequestID sq_ContextBindings wi_Source wi_Document].
  destruct document; cbn [fmap option_fmap option_map]; [by rewrite html_safe_idemp|done].
Qed.

Lemma decode_inputs h m : keys_fit (json_ok h) m -> decode_map Some (jmap (fun v => v) m) = Some m.
Proof. intros Hm. apply decode_map_encode. by eapply keys_fit_impl; [|exact Hm]. Qed.
#[local] Hint Resolve decode_workflow_encode decode_bindings_encode decode_inputs : codec.

Lemma decode_start_encode h r : start_request_fits h r -> decode_start (encode_start r) = Some (recovered r).
Proof.
  destruct r as [project workflow inputs driver target i bindings]. intros (Hp & Hw & Hin & Hd & Ht & Hid & Hb).
  unfold decode_start, encode_start, recovered.
  cbn [sq_Project sq_Workflow sq_Inputs sq_Driver sq_Target sq_ClientRequestID sq_ContextBindings] in *. decode_fields. done.
Qed.

Definition action_request_fits (h : nat) (r : RunActionRequest) : Prop :=
  valid_utf8 (aq_ActionID r) = true /\ valid_utf8 (aq_RunID r) = true /\ valid_utf8 (aq_Type r) = true /\
  0 <= aq_ExpectedStateVersion r < 2 ^ 64 /\ valid_utf8 (aq_NodeID r) = true /\
  match aq_ExpectedAttempt r with Some n => - 2 ^ 63 <= n < 2 ^ 63 | None => True end /\
  valid_utf8 (aq_Reason r) = true /\ keys_fit (json_ok h) (aq_Answers r).

Lemma decode_action_encode h r : action_request_fits h r -> decode_action (encode_action r) = Some r.
Proof.
  destruct r as [action run type version node attempt reason answers acknowledge]. intros (Ha & Hr & Ht & Hv & Hn & Hat & Hre & Hans).
  unfold decode_action, encode_action.
  cbn [aq_ActionID aq_RunID aq_Type aq_ExpectedStateVersion aq_NodeID aq_ExpectedAttempt aq_Reason aq_Answers aq_AcknowledgeDuplicateRisk] in *.
  decode_fields; [instantiate (1 := attempt)|done]. destruct attempt; [|done]. by rewrite decode_jint_goint.
Qed.

(** ** Well-formedness *)

Definition field_ok (h : nat) (f : option (string * json)) : Prop := match f with Some (_, v) => json_ok h v | None => True end.

Lemma jobject_ok h fields : Forall (field_ok h) fields -> json_ok (S h) (jobject fields).
Proof.
  intros Hf. unfold jobject, fields_of. constructor.
  - clear Hf. induction fields as [|[[n v]|] fields IH]; cbn -[json_chars]; [constructor|constructor; [apply json_chars_ok|done]|done].
  - induction Hf as [|[[n v]|] fields Hv _ IH]; cbn -[json_chars]; [constructor|by constructor|done].
Qed.
Lemma omitted_ok h b n v : json_ok h v -> field_ok h (omitempty b n v).
Proof. by destruct b. Qed.
Lemma option_ok {B} h n (g : B -> json) (o : option B) :
  match o with Some x => json_ok h (g x) | None => True end -> field_ok h (match o with Some x => Some (n, g x) | None => None end).
Proof. by destruct o. Qed.

Lemma jmap_ok {A} h (encode : A -> json) m : (forall k a, m !! k = Some a -> json_ok h (encode a)) -> json_ok (S h) (jmap encode m).
Proof.
  intros Hm. unfold jmap. set (l := sort_slice _ _). assert (forall k a, (k, a) ∈ l -> json_ok h (encode a)) as Hl.
  { intros k a Hka. apply (Hm k), elem_of_map_to_list. by rewrite <- (sort_slice_perm (fun a b => String.ltb a.1 b.1)). }
  constructor; rewrite map_map; apply Forall_map, Forall_forall; intros [k a] Hka; cbn; [apply json_chars_ok|by eapply Hl].
Qed.
Lemma jarray_ok {A} h (encode : A -> json) l : Forall (fun a => json_ok h (encode a)) l -> json_ok (S h) (jarray encode l).
Proof. intros Hl. constructor. by apply Forall_map. Qed.

Lemma jbool_ok h b : json_ok h (jbool b).
Proof. constructor. left. destruct b; [by left|right; by left]. Qed.

Ltac value_ok := first [apply jstring_ok|apply jint_ok|apply jbool_ok].
Ltac fields_ok :=
  apply jobject_ok; repeat first [apply Forall_nil_2|apply Forall_cons_2];
  try (cbn [field_ok]; value_ok); try (apply omitted_ok; value_ok).

Lemma encode_start_response_ok r : json_ok 1 (encode_start_response r).
Proof. fields_ok. Qed.
Lemma encode_action_response_ok r : json_ok 1 (encode_action_response r).
Proof. fields_ok. Qed.

Lemma encode_workflow_ok h w : workflow_fits h w -> json_ok (2 + h) (encode_workflow w).
Proof.
  intros [_ Hd]. fields_ok; apply option_ok.
  - destruct (wi_Source w); [|done]. apply (json_ok_mono 1); [lia|]. fields_ok.
  - destruct (wi_Document w); [|done]. apply (json_ok_mono h); [lia|]. by apply html_safe_ok.
Qed.
Lemma encode_bindings_ok m : json_ok 4 (encode_bindings m).
Proof.
  fields_ok. apply omitted_ok, jmap_ok. intros k l _. apply jarray_ok, Forall_forall. intros b _. fields_ok.
Qed.
Lemma inputs_ok h m : keys_fit (json_ok h) m -> json_ok (S h) (jmap (fun v => v) m).
Proof. intros Hm. apply jmap_ok. intros k v Hk. apply (Hm k v Hk). Qed.

Lemma encode_start_ok h r : start_request_fits h r -> json_ok (5 + h) (encode_start r).
Proof.
  intros (_ & Hw & Hin & _). fields_ok.
  - cbn [field_ok]. apply (json_ok_mono (2 + h)); [lia|]. by apply encode_workflow_ok.
  - apply omitted_ok, (json_ok_mono (S h)); [lia|]. by apply inputs_ok.
  - cbn [field_ok]. apply (json_ok_mono 4); [lia|]. apply encode_bindings_ok.
Qed.
Lemma encode_action_ok h r : action_request_fits h r -> json_ok (5 + h) (encode_action r).
Proof.
  intros (_ & _ & _ & _ & _ & _ & _ & Hans). fields_ok.
  - apply option_ok. destruct (aq_ExpectedAttempt r); [value_ok|done].
  - apply omitted_ok, (json_ok_mono (S h)); [lia|]. by apply inputs_ok.
Qed.

(** ** Round trips *)

Section journal.
  Context {SHA : Sha256}.

(** What is decoded from the file in which the tree was written *)
Definition from_journal {T} (decode : json -> option T) (v : json) : option T :=
  w ← json_parse (json_indented 1 (json_text v)); decode w.

Lemma from_journal_decode {T} (decode : json -> option T) h v :
  json_ok h v -> Z.of_nat h <= maxNestingDepth -> from_journal decode v = decode v.
Proof. intros Hv Hh. unfold from_journal. by rewrite (parse_indented h) by done. Qed.
End journal.
