(* ===== verification/Cursor.v ===== *)
(** * Cursors

    encodeCursor and decodeCursor of internal/application/service.go, and what
    they use of encoding/base64: RawURLEncoding, which pads nothing, skips line
    breaks and does not look at the bits left over at the end. *)

From S2P Require Import Prelude GoText Json JsonTree Routing AppRequests.
#[local] Open Scope string_scope.
#[local] Open Scope list_scope.
#[local] Open Scope Z_scope.

Section base64.
#[local] Open Scope N_scope.

Definition alphabet : list ascii :=
  to_list "ABCDEFGHIJKLMNOPQRSTUVWXYZabcdefghijklmnopqrstuvwxyz0123456789-_".
Definition digit64 (n : N) : ascii := nth (N.to_nat n) alphabet "A"%char.
Fixpoint position (c : ascii) (l : list ascii) (n : N) : option N :=
  match l with [] => None | a :: l => if Ascii.eqb c a then Some n else position c l (n + 1) end.
Definition value64 (c : ascii) : option N := position c alphabet 0.

Definition quantum1 (a : N) : list N := [a / 4; a mod 4 * 16].
Definition quantum2 (a b : N) : list N := [a / 4; a mod 4 * 16 + b / 16; b mod 16 * 4].
Definition quantum3 (a b c : N) : list N := [a / 4; a mod 4 * 16 + b / 16; b mod 16 * 4 + c / 64; c mod 64].
Fixpoint encode64 (l : list N) : list N :=
  match l with
  | a :: b :: c :: l => quantum3 a b c ++ encode64 l
  | [a; b] => quantum2 a b
  | [a] => quantum1 a
  | [] => []
  end.
Fixpoint decode64 (l : list N) : option (list N) :=
  match l with
  | v :: w :: x :: y :: l =>
      rest ← decode64 l; Some (v * 4 + w / 16 :: w mod 16 * 16 + x / 4 :: x mod 4 * 64 + y :: rest)
  | [v; w; x] => Some [v * 4 + w / 16; w mod 16 * 16 + x / 4]
  | [v; w] => Some [v * 4 + w / 16]
  | [_] => None
  | [] => Some []
  end.

Definition line_break (c : ascii) : bool := Ascii.eqb c (ch 10) || Ascii.eqb c (ch 13).
Fixpoint values64 (l : list ascii) : option (list N) :=
  match l with [] => Some [] | c :: l => v ← value64 c; rest ← values64 l; Some (v :: rest) end.
Definition EncodeToString (s : string) : string := of_list (map digit64 (encode64 (map N_of_ascii (to_list s)))).
Definition DecodeString (s : string) : option string :=
  values ← values64 (List.filter (fun c => negb (line_break c)) (to_list s));
  data ← decode64 values;
  Some (of_list (map ascii_of_N data)).

(** ** Round trip *)

Lemma value64_digit n : n < 64 -> value64 (digit64 n) = Some n.
Proof.
  intros Hn. rewrite <-(N2Nat.id n). assert (N.to_nat n < 64)%nat as Hlt by lia. revert Hlt.
  generalize (N.to_nat n) as k. clear. intros k Hk. do 64 (destruct k as [|k]; [vm_compute; reflexivity|]). lia.
Qed.

Lemma digit64_no_break n : n < 64 -> line_break (digit64 n) = false.
Proof.
  intros Hn. rewrite <-(N2Nat.id n). assert (N.to_nat n < 64)%nat as Hlt by lia. revert Hlt.
  generalize (N.to_nat n) as k. clear. intros k Hk. do 64 (destruct k as [|k]; [vm_compute; reflexivity|]). lia.
Qed.

Lemma values64_digits l :
  Forall (fun n => n < 64) l -> values64 (List.filter (fun c => negb (line_break c)) (map digit64 l)) = Some l.
Proof.
  induction 1 as [|n l Hn _ IH]; [done|]. cbn [map List.filter]. rewrite (digit64_no_break n Hn). cbn [negb values64].
  by rewrite (value64_digit n Hn), IH.
Qed.

(** Induction over the quanta of three bytes *)
Lemma quanta_ind (P : list N -> Prop) :
  P [] -> (forall a, P [a]) -> (forall a b, P [a; b]) -> (forall a b c l, P l -> P (a :: b :: c :: l)) -> forall l, P l.
Proof.
  intros H0 H1 H2 H3. fix quanta 1. intros [|a [|b [|c l]]]; [done|apply H1|apply H2|apply H3, quanta].
Qed.

Ltac split_bytes := repeat match goal with H : Forall _ (_ :: _) |- _ => apply Forall_cons in H as [? H] end.
#[local] Ltac Zify.zify_post_hook ::= Z.to_euclidean_division_equations.

Lemma encode64_digits l : Forall (fun n => n < 256) l -> Forall (fun n => n < 64) (encode64 l).
Proof.
  induction l as [| | |a b c l IH] using quanta_ind; intros Hl; split_bytes; cbn [encode64]; unfold quantum1, quantum2, quantum3;
    repeat (apply Forall_cons; split; [lia|]); try apply Forall_nil_2. apply IH, Hl.
Qed.

Lemma decode64_encode64 l : Forall (fun n => n < 256) l -> decode64 (encode64 l) = Some l.
Proof.
  induction l as [| | |a b c l IH] using quanta_ind; intros Hl; split_bytes; cbn [encode64]; unfold quantum1, quantum2, quantum3;
    cbn [app decode64]; [done|..].
  - repeat f_equal; lia.
  - repeat f_equal; lia.
  - rewrite IH by done. cbn. repeat f_equal; lia.
Qed.

Lemma bytes_bounded l : Forall (fun n => n < 256) (map N_of_ascii l).
Proof. apply Forall_forall. intros n (c & -> & _)%list_elem_of_fmap. apply N_ascii_bounded. Qed.

Lemma DecodeString_EncodeToString s : DecodeString (EncodeToString s) = Some s.
Proof.
  unfold DecodeString, EncodeToString. rewrite to_of_list, values64_digits by apply encode64_digits, bytes_bounded.
  cbn -[decode64]. rewrite decode64_encode64 by apply bytes_bounded. cbn. rewrite map_map.
  rewrite (map_ext _ id) by apply ascii_N_embedding. by rewrite map_id, of_to_list.
Qed.
End base64.

(** ** Cursors *)

Definition encodeCursor (runID : string) : string := EncodeToString runID.
Definition decodeCursor (cursor : string) : result AppError string :=
  let invalid := NewError CodeInvalidArgument "cursor is invalid" [("path", jstring "$.cursor")] in
  if cursor =s "" then Ok "" else
  match DecodeString cursor with
  | None => Err invalid
  | Some data => fail_if (len data =? 0) || (128 <? len data) with invalid ;; Ok data
  end.

Example cursors :
  map encodeCursor ["run-1"; "a"; "ab"; "abc"] = ["cnVuLTE"; "YQ"; "YWI"; "YWJj"] /\
  DecodeString "YW
I" = Some "ab" /\ DecodeString "YR" = Some "a" /\ DecodeString "Y" = None /\ DecodeString "YQ==" = None.
Proof. vm_compute. done. Qed.

Lemma encodeCursor_nonempty s : s <> "" -> encodeCursor s <> "".
Proof.
  intros Hs He. pose proof (DecodeString_EncodeToString s) as Hd. unfold encodeCursor in He. rewrite He in Hd. cbn in Hd. congruence.
Qed.

Lemma decodeCursor_encodeCursor s : s <> "" -> len s <= 128 -> decodeCursor (encodeCursor s) = Ok s.
Proof.
  intros Hs Hlen. unfold decodeCursor. rewrite (proj2 (String.eqb_neq _ _) (encodeCursor_nonempty s Hs)).
  unfold encodeCursor. rewrite DecodeString_EncodeToString.
  assert (len s <> 0) as Hne by (destruct s; [done|unfold len; cbn [String.length]; lia]).
  by rewrite (proj2 (Z.eqb_neq _ _) Hne), (proj2 (Z.ltb_ge _ _) Hlen).
Qed.
