(* ===== verification/RunStore.v ===== *)
(** * The store of a run and the effects of the run service

    internal/store/json_store.go as the run service uses it, for one run:
    every write replaces one JSON file atomically (temporary file and
    rename) or appends one event.  [eff] is the monad of the service's methods:
    it reads and writes the disk, asks the clock, fails with an error and can be
    cut off by a crash.  Before every write the next element of [w_faults] says
    whether the write happens, reports an error, or the process dies; after the
    last element all writes succeed.

    The model holds a single run with a valid id, its files as decoded values.
    Decoding what was encoded gives the value back except for a
    json.RawMessage, which keeps the indentation of the file it was read from,
    and an empty map in an omitempty field, which becomes nil; both are
    modelled.  The clock gives a time for each reading of a process and begins
    anew with the next, so two starts that do the same see the same times.  Torn
    lines of the event log, the 4 MB that readJSON reads of a file and the 1 MB
    that ReadEvents takes for a line are not modelled: what has been written is
    read. *)

From S2P Require Import Prelude GoText Json Routing Resolver Catalog Workflow Template Context Backend RunState Scheduler.
From S2P Require Import Files.
#[local] Open Scope string_scope.
#[local] Open Scope list_scope.
#[local] Open Scope Z_scope.

(** ** Actions and their intents (service.go) *)

Record ResumeAction := {
  ra_ActionID : string; ra_ActionRequestHash : string; ra_Type : string; ra_NodeID : string;
  ra_ExpectedAttempt : option Z; ra_Reason : string; ra_Answers : option (gmap string any);
  ra_AcknowledgeDuplicateRisk : bool }.
#[export] Instance ResumeAction_eq_dec : EqDecision ResumeAction.
Proof. solve_decision. Defined.

Record actionNodeMutation := { mt_Before : NodeSnapshot; mt_After : NodeSnapshot }.

Record actionIntent := {
  ai_Version : Z; ai_ActionID : string; ai_RequestHash : string; ai_Type : string; ai_NodeID : string;
  ai_Phase : string; ai_Applied : Z; ai_EventType : string; ai_Summary : string; ai_Action : ResumeAction;
  ai_Mutations : list actionNodeMutation }.

Definition actionIntentVersion := 2.
Definition actionIntentPlanned := "planned".
Definition actionIntentApplying := "applying".

(** ** Disk, faults and the monad *)

(** The files of the run's directory; an action intent is stored under the
    hash of its action id, here under the id itself. *)
Record disk := {
  dk_snapshot : option WorkflowSnapshot; dk_workflow : option Normalized; dk_nodes : gmap string NodeSnapshot;
  dk_attempts : gmap (string * Z) AttemptSnapshot; dk_results : gmap (string * Z) Result;
  dk_events : list WorkflowEvent; dk_intents : gmap string actionIntent }.

Inductive fault := Passes | WriteFails | Crashes.

Record world := { w_disk : disk; w_faults : list fault; w_ticks : nat; w_probes : nat }.

Inductive StoreError := ErrInvalidID (id : string) | ErrNotExist (what : string) | ErrExists (what : string) | ErrWrite.

Inductive RunError :=
| ErrStore (e : StoreError)
| ErrRunSnapshot (e : SnapshotError) | ErrNodeSnapshot (id : string) (e : SnapshotError) | ErrAttemptSnapshot (e : SnapshotError)
| ErrEventSequence | ErrControllerInactive | ErrUnknownNode (id : string)
| ErrActionNode | ErrActionReason | ErrActionAttempt | ErrActionType (type : string) | ErrConflictingDecision (id : string)
| ErrNotWaitingApproval (id : string) | ErrNotRetryable (id : string) | ErrDuplicateRisk (id : string)
| ErrNotWaitingInput (id : string) | ErrAttemptConflict (current : Z)
| ErrAnswerMissing (id : string) | ErrAnswerScalar (id : string) | ErrAnswerChoice (id : string) | ErrAnswerUnknown (id : string)
| ErrAnswerEncoding | ErrPendingIntent (id : string) | ErrIntentEvidence (id : string) | ErrIntentConflict (id : string)
| ErrIntentHash | ErrActionBound (id : string) | ErrStateVersionConflict (expected current : Z) | ErrCancellationPending
| ErrCatalogLoad | ErrCatalogMissing (hash : string) | ErrRouting (e : ContractError) | ErrRoutingDriver (driver : string)
| ErrTargetUnavailable | ErrPendingRoute | ErrRoutingUsage | ErrWorkflowNode (id : string) | ErrSelection (e : ResolveError)
| ErrTemplate (e : TemplateError) | ErrSchedule (e : ScheduleError) | ErrContextDone | ErrMixedDrivers | ErrBackend | ErrCancelUnresolved (summary : string).

Inductive outcome (A : Type) :=
| Done (a : A) (w : world)
| Failed (e : RunError) (w : world)
| Crashed (d : disk).
Arguments Done {A}. Arguments Failed {A}. Arguments Crashed {A}.

Definition eff (A : Type) : Type := world -> outcome A.
#[export] Instance eff_ret : MRet eff := fun A a w => Done a w.
#[export] Instance eff_bind : MBind eff := fun A B k m w =>
  match m w with Done a w' => k a w' | Failed e w' => Failed e w' | Crashed d => Crashed d end.

Definition raise {A} (e : RunError) : eff A := fun w => Failed e w.
Definition lift {E A} (wrap : E -> RunError) (m : result E A) : eff A := fun w =>
  match m with Ok a => Done a w | Err e => Failed (wrap e) w end.
Notation "'throw_if' c 'with' e ;; k" := (if c then raise e else k)
  (at level 100, c at level 99, e at level 99, k at level 200, right associativity) : go_scope.

Definition get_disk : eff disk := fun w => Done (w_disk w) w.
Definition with_disk (d : disk) (w : world) : world :=
  {| w_disk := d; w_faults := w_faults w; w_ticks := w_ticks w; w_probes := w_probes w |}.

(** One write: the next fault decides. *)
Definition write (f : disk -> disk) : eff unit := fun w =>
  match w_faults w with
  | [] => Done tt (with_disk (f (w_disk w)) w)
  | fault :: faults =>
      let w := {| w_disk := w_disk w; w_faults := faults; w_ticks := w_ticks w; w_probes := w_probes w |} in
      match fault with
      | Passes => Done tt (with_disk (f (w_disk w)) w)
      | WriteFails => Failed (ErrStore ErrWrite) w
      | Crashes => Crashed (w_disk w)
      end
  end.

(** A loop whose body has effects *)
Fixpoint each {S A} (body : S -> A -> eff S) (s : S) (xs : list A) : eff S :=
  match xs with
  | [] => mret s
  | x :: xs => s ← body s x; each body s xs
  end.

(** ** The parameters of the service *)

(** routing.CatalogProvider and, when the provider implements it,
    TargetAvailabilityGate.  A probe may refresh the active catalog: both
    answers depend on the number of probes made so far. *)
Record CatalogProvider := {
  cp_ActiveCatalog : nat -> option (CapabilityCatalogV1 * string);
  cp_CatalogByHash : string -> option CapabilityCatalogV1;
  cp_EnsureTargetAvailable : option (nat -> Target -> bool) }.

Class Service := { sv_now : nat -> Z; sv_catalogs : CatalogProvider }.

Definition now `{Service} : eff Z := fun w =>
  Done (sv_now (w_ticks w))
    {| w_disk := w_disk w; w_faults := w_faults w; w_ticks := S (w_ticks w); w_probes := w_probes w |}.

(** ** Files *)

Definition set_snapshot (s : WorkflowSnapshot) (d : disk) : disk := {|
  dk_snapshot := Some s; dk_workflow := dk_workflow d; dk_nodes := dk_nodes d; dk_attempts := dk_attempts d;
  dk_results := dk_results d; dk_events := dk_events d; dk_intents := dk_intents d |}.
Definition set_node (id : string) (n : NodeSnapshot) (d : disk) : disk := {|
  dk_snapshot := dk_snapshot d; dk_workflow := dk_workflow d; dk_nodes := <[id := n]> (dk_nodes d);
  dk_attempts := dk_attempts d; dk_results := dk_results d; dk_events := dk_events d; dk_intents := dk_intents d |}.
Definition set_attempt (key : string * Z) (a : AttemptSnapshot) (d : disk) : disk := {|
  dk_snapshot := dk_snapshot d; dk_workflow := dk_workflow d; dk_nodes := dk_nodes d;
  dk_attempts := <[key := a]> (dk_attempts d);
  dk_results := dk_results d; dk_events := dk_events d; dk_intents := dk_intents d |}.
Definition set_result (key : string * Z) (r : Result) (d : disk) : disk := {|
  dk_snapshot := dk_snapshot d; dk_workflow := dk_workflow d; dk_nodes := dk_nodes d; dk_attempts := dk_attempts d;
  dk_results := <[key := r]> (dk_results d); dk_events := dk_events d; dk_intents := dk_intents d |}.
Definition add_event (e : WorkflowEvent) (d : disk) : disk := {|
  dk_snapshot := dk_snapshot d; dk_workflow := dk_workflow d; dk_nodes := dk_nodes d; dk_attempts := dk_attempts d;
  dk_results := dk_results d; dk_events := dk_events d ++ [e]; dk_intents := dk_intents d |}.
Definition set_intents (m : gmap string actionIntent) (d : disk) : disk := {|
  dk_snapshot := dk_snapshot d; dk_workflow := dk_workflow d; dk_nodes := dk_nodes d; dk_attempts := dk_attempts d;
  dk_results := dk_results d; dk_events := dk_events d; dk_intents := m |}.

Definition validateID (value : string) : result StoreError unit :=
  fail_if negb (safe_id value) with ErrInvalidID value ;; Ok tt.
Definition validateAttempt (nodeID : string) (number : Z) : result StoreError unit :=
  _ ← validateID nodeID;
  fail_if number <? 1 with ErrInvalidID nodeID ;; Ok tt.

(** What readJSON returns for a written node whose RawMessage sits at nesting
    depth [depth] of the file *)
Definition reload_node (depth : nat) (node : NodeSnapshot) : NodeSnapshot := {|
  ns_ProtocolVersion := ns_ProtocolVersion node; ns_StateSchemaVersion := ns_StateSchemaVersion node;
  ns_RunID := ns_RunID node; ns_ID := ns_ID node; ns_Type := ns_Type node; ns_Phase := ns_Phase node;
  ns_Conclusion := ns_Conclusion node; ns_Reason := ns_Reason node; ns_Diagnostic := ns_Diagnostic node;
  ns_Result := ns_Result node; ns_PendingInputAnswer := json_indented depth <$> ns_PendingInputAnswer node;
  ns_PendingRoutingTarget := ns_PendingRoutingTarget node; ns_CurrentAttempt := ns_CurrentAttempt node;
  ns_CreatedAt := ns_CreatedAt node; ns_UpdatedAt := ns_UpdatedAt node |}.
Definition reload_mutation (m : actionNodeMutation) : actionNodeMutation :=
  {| mt_Before := reload_node 4 (mt_Before m); mt_After := reload_node 4 (mt_After m) |}.
Definition reload_action (a : ResumeAction) : ResumeAction := {|
  ra_ActionID := ra_ActionID a; ra_ActionRequestHash := ra_ActionRequestHash a; ra_Type := ra_Type a;
  ra_NodeID := ra_NodeID a; ra_ExpectedAttempt := ra_ExpectedAttempt a; ra_Reason := ra_Reason a;
  ra_Answers := match ra_Answers a with Some m => if decide (m = ∅) then None else Some m | None => None end;
  ra_AcknowledgeDuplicateRisk := ra_AcknowledgeDuplicateRisk a |}.
Definition reload_intent (i : actionIntent) : actionIntent := {|
  ai_Version := ai_Version i; ai_ActionID := ai_ActionID i; ai_RequestHash := ai_RequestHash i; ai_Type := ai_Type i;
  ai_NodeID := ai_NodeID i; ai_Phase := ai_Phase i; ai_Applied := ai_Applied i; ai_EventType := ai_EventType i;
  ai_Summary := ai_Summary i; ai_Action := reload_action (ai_Action i);
  ai_Mutations := map reload_mutation (ai_Mutations i) |}.

Definition read {A} (what : string) (f : disk -> option A) : eff A :=
  d ← get_disk;
  match f d with Some a => mret a | None => raise (ErrStore (ErrNotExist what)) end.

Definition ReadSnapshot : eff WorkflowSnapshot := read "run.json" dk_snapshot.
Definition WriteSnapshot (s : WorkflowSnapshot) : eff unit := write (set_snapshot s).
Definition ReadWorkflow : eff Normalized := read "workflow.json" dk_workflow.
Definition ReadNode (nodeID : string) : eff NodeSnapshot :=
  _ ← lift ErrStore (validateID nodeID);
  node ← read nodeID (fun d => dk_nodes d !! nodeID);
  mret (reload_node 1 node).
Definition WriteNode (nodeID : string) (node : NodeSnapshot) : eff unit :=
  _ ← lift ErrStore (validateID nodeID);
  write (set_node nodeID node).
Definition ReadAttempt (nodeID : string) (number : Z) : eff AttemptSnapshot :=
  _ ← lift ErrStore (validateAttempt nodeID number);
  read nodeID (fun d => dk_attempts d !! (nodeID, number)).
Definition UpdateAttempt (nodeID : string) (number : Z) (a : AttemptSnapshot) : eff unit :=
  _ ← lift ErrStore (validateAttempt nodeID number);
  write (set_attempt (nodeID, number) a).
Definition WriteAttempt (nodeID : string) (number : Z) (a : AttemptSnapshot) : eff unit :=
  _ ← lift ErrStore (validateAttempt nodeID number);
  d ← get_disk;
  match dk_attempts d !! (nodeID, number) with
  | Some _ => raise (ErrStore (ErrExists nodeID))
  | None => write (set_attempt (nodeID, number) a)
  end.
Definition WriteResult (nodeID : string) (number : Z) (r : Result) : eff unit :=
  _ ← lift ErrStore (validateAttempt nodeID number);
  write (set_result (nodeID, number) r).
Definition AppendEvent (e : WorkflowEvent) : eff unit := write (add_event e).
Definition ReadEvents : eff (list WorkflowEvent) := d ← get_disk; mret (dk_events d).

(** The numbers of the attempts of a node, in increasing order *)
Definition ListAttempts (nodeID : string) : eff (list Z) :=
  _ ← lift ErrStore (validateID nodeID);
  d ← get_disk;
  mret (sort_slice Z.ltb (map snd (base.filter (fun key => key.1 = nodeID) (map fst (map_to_list (dk_attempts d)))))).

Definition WriteActionIntent (actionID : string) (intent : actionIntent) : eff unit :=
  throw_if actionID =s "" with ErrStore (ErrInvalidID actionID) ;;
  d ← get_disk;
  write (set_intents (<[actionID := intent]> (dk_intents d))).
(** [None] is os.ErrNotExist *)
Definition ReadActionIntent (actionID : string) : eff (option actionIntent) :=
  throw_if actionID =s "" with ErrStore (ErrInvalidID actionID) ;;
  d ← get_disk;
  mret (reload_intent <$> dk_intents d !! actionID).
Definition RemoveActionIntent (actionID : string) : eff unit :=
  throw_if actionID =s "" with ErrStore (ErrInvalidID actionID) ;;
  d ← get_disk;
  write (set_intents (delete actionID (dk_intents d))).
(** The actionId of every intent file, sorted *)
Definition ListActionIntentIDs : eff (list string) :=
  d ← get_disk;
  mret (sort_strings (map (fun '(_, i) => ai_ActionID i) (map_to_list (dk_intents d)))).

(** ** Assignments to groups of fields *)

Definition node_with (node : NodeSnapshot) (phase conclusion reason diagnostic : string) (result : option Result)
    (answer : option string) (target : option Target) (now : Z) : NodeSnapshot := {|
  ns_ProtocolVersion := ns_ProtocolVersion node; ns_StateSchemaVersion := ns_StateSchemaVersion node;
  ns_RunID := ns_RunID node; ns_ID := ns_ID node; ns_Type := ns_Type node; ns_Phase := phase;
  ns_Conclusion := conclusion; ns_Reason := reason; ns_Diagnostic := diagnostic; ns_Result := result;
  ns_PendingInputAnswer := answer; ns_PendingRoutingTarget := target; ns_CurrentAttempt := ns_CurrentAttempt node;
  ns_CreatedAt := ns_CreatedAt node; ns_UpdatedAt := now |}.

Definition attempt_with (a : AttemptSnapshot) (phase conclusion reason : string) (consumed : bool)
    (sideEffect failureClass : string) (now : Z) (completed : option Z) : AttemptSnapshot := {|
  at_ProtocolVersion := at_ProtocolVersion a; at_StateSchemaVersion := at_StateSchemaVersion a;
  at_RunID := at_RunID a; at_NodeID := at_NodeID a; at_Number := at_Number a; at_Phase := phase;
  at_Conclusion := conclusion; at_Reason := reason; at_ResolvedDriver := at_ResolvedDriver a;
  at_ResolvedTarget := at_ResolvedTarget a; at_Backend := at_Backend a; at_LaunchState := at_LaunchState a;
  at_Execution := at_Execution a; at_ResultConsumed := consumed;
  at_ContextCompilerVersion := at_ContextCompilerVersion a; at_ContextCompilerVersionV2 := at_ContextCompilerVersionV2 a;
  at_ContextManifestV2 := at_ContextManifestV2 a; at_ContextHash := at_ContextHash a;
  at_RoutingDecision := at_RoutingDecision a; at_ExecutionProfile := at_ExecutionProfile a;
  at_RoutingUsage := at_RoutingUsage a; at_SideEffectStatus := sideEffect; at_FailureClass := failureClass;
  at_MemoryUsage := at_MemoryUsage a; at_PromptHash := at_PromptHash a; at_StartedAt := at_StartedAt a;
  at_UpdatedAt := now; at_CompletedAt := completed |}.

(** [run.Nodes], [run.CancelRequested], [run.ActionReceipts], [run.StateVersion] *)
Definition run_with (run : WorkflowSnapshot) (nodes : gmap string NodeSummary) (cancel : bool)
    (receipts : gmap string ActionReceipt) (version : Z) : WorkflowSnapshot := {|
  ws_ProtocolVersion := ws_ProtocolVersion run; ws_StateSchemaVersion := ws_StateSchemaVersion run;
  ws_StateVersion := version; ws_ID := ws_ID run; ws_WorkflowName := ws_WorkflowName run;
  ws_Project := ws_Project run; ws_ResolvedDriver := ws_ResolvedDriver run; ws_ResolvedTarget := ws_ResolvedTarget run;
  ws_DeprecationWarnings := ws_DeprecationWarnings run; ws_Backend := ws_Backend run;
  ws_EffectiveConcurrency := ws_EffectiveConcurrency run; ws_Phase := ws_Phase run; ws_Conclusion := ws_Conclusion run;
  ws_Reason := ws_Reason run; ws_Summary := ws_Summary run; ws_Inputs := ws_Inputs run;
  ws_TopologicalOrder := ws_TopologicalOrder run; ws_Nodes := nodes; ws_ActiveNodeID := ws_ActiveNodeID run;
  ws_CancelRequested := cancel; ws_ActionReceipts := receipts; ws_StateDir := ws_StateDir run;
  ws_CreatedAt := ws_CreatedAt run; ws_UpdatedAt := ws_UpdatedAt run |}.
Definition set_summary (run : WorkflowSnapshot) (node : NodeSnapshot) : WorkflowSnapshot :=
  run_with run (<[ns_ID node := summarizeNode node]> (ws_Nodes run)) (ws_CancelRequested run) (ws_ActionReceipts run)
    (ws_StateVersion run).
Definition set_cancel (run : WorkflowSnapshot) (cancel : bool) : WorkflowSnapshot :=
  run_with run (ws_Nodes run) cancel (ws_ActionReceipts run) (ws_StateVersion run).
Definition set_receipts (run : WorkflowSnapshot) (receipts : gmap string ActionReceipt) : WorkflowSnapshot :=
  run_with run (ws_Nodes run) (ws_CancelRequested run) receipts (ws_StateVersion run).
Definition set_version (run : WorkflowSnapshot) (version : Z) : WorkflowSnapshot :=
  run_with run (ws_Nodes run) (ws_CancelRequested run) (ws_ActionReceipts run) version.

Definition schema_at_least_1 (version : Z) : Z := if version =? 0 then 1 else version.
