(* ===== verification/Application.v ===== *)
(** * The application service: starting runs and acting on them

    internal/application/service.go: RunStart, RunAction and Recover, with the
    journal that makes a request take effect once, and the part of
    internal/workflow/parse.go that puts a document together.

    The service is modelled against the interface [Core] that the code declares.
    One call runs at a time in a process (mutationMu); what other processes do to
    the files meanwhile is [mo_others].  [as_calls] is no state of the program: it
    records the calls that change a run. *)

From S2P Require Import Prelude GoText Json JsonTree Routing Resolver Catalog Workflow Topology Template Validate.
From S2P Require Import Context Backend RunState Files RunStore Journal AppRequests.
#[local] Open Scope string_scope.
#[local] Open Scope list_scope.
#[local] Open Scope Z_scope.

(** ** The core *)

Record DriverCapabilityReport := {
  dr_Driver : string; dr_Targets : list string; dr_Ready : bool; dr_Diagnostic : string }.
Record StartWorkflowRequest := {
  sr_RunID : string; sr_InitializationTime : Z; sr_Project : string; sr_Driver : string; sr_Target : string;
  sr_Normalized : Normalized; sr_Inputs : gmap string json; sr_ContextBindings : ContextBindings }.
Record CoreCancelRequest := {
  xr_RunID : string; xr_ExpectedStateVersion : option Z; xr_ActionID : string; xr_ActionRequestHash : string }.
(** StatusView: the run, unless it is a legacy one, and its nodes *)
Record StatusView := { sv_Run : option WorkflowSnapshot; sv_Nodes : list NodeSnapshot }.

(** A Go error: whether it wraps os.ErrNotExist, and its text *)
Record CoreError := { ce_NotExist : bool; ce_Text : string }.

(** The interface Core of service.go; a core that cannot abort an action has no
    [core_abort]. *)
Class Core (C : Type) := {
  core_reports : string -> C -> list DriverCapabilityReport;
  core_start : StartWorkflowRequest -> io C CoreError WorkflowSnapshot;
  core_status : string -> io C CoreError StatusView;
  core_resume : string -> option Z -> ResumeAction -> io C CoreError WorkflowSnapshot;
  core_cancel : CoreCancelRequest -> io C CoreError WorkflowSnapshot;
  core_abort : option (string -> string -> string -> io C CoreError unit) }.

(** ** Errors of the core *)

Definition mapCoreError (e : CoreError) (message : string) : AppError :=
  let text := ce_Text e in
  if ce_NotExist e || contains text "not found" || contains text "no such file" || contains text "cannot find the file"
  then NewError CodeNotFound message []
  else if contains text "not ready" || contains text "is not ready"
  then NewError CodeAppUnavailable message [("detail", jstring text)]
  else if contains text "conflict" then conflictError message [("detail", jstring text)]
  else NewError CodeInternal message [("detail", jstring text)].

Definition mapActionError (e : CoreError) : AppError :=
  let text := ce_Text e in
  let detail := [("detail", jstring text)] in
  if contains text "conflict" || contains text "already has conflicting" || contains text "already pending for a different action"
  then conflictError "action no longer applies" detail
  else if contains text "not waiting" || contains text "not in a retryable" || contains text "not the current"
  then conflictError "action no longer applies" detail
  else if contains text "answer" || contains text "action"
  then NewError CodeInvalidArgument "action payload is invalid" detail
  else mapCoreError e "could not apply action".

Definition mapJournalError (e : JournalError) (id : string) : AppError :=
  match e with
  | JournalConflictError _ _ => conflictError "request id is already bound to a different payload" [("id", jstring id)]
  | _ => NewError CodeInternal "durable application journal failed" []
  end.

Definition terminalActionError (e : AppError) : bool :=
  match ae_Code e with
  | CodeConflict | CodeInvalidArgument | CodeNotFound | CodeAppUnavailable | CodeNotReady => true
  | _ => false
  end.

(** ** Parsing a workflow

    Turning the text of a document into a Document is encoding/json and the YAML
    library: [document_decode] on the text and the file name. *)
Definition warning_text (w : Warning) : string :=
  match w with
  | WarnDefaultsDeprecated => "defaults.backend/tool/runtime are deprecated; use defaults.agent.driver/target"
  | WarnNodeDeprecated i => "node " +:+ quoted i +:+ " tool/runtime are deprecated; use agent.driver/target"
  end.

Inductive ParseError :=
| ParseDecode | ParseNormalize (e : NormalizeError) | ParseValidate (e : ValidateError) | ParseInputs (e : InputError).

(** The issues that keep a request from starting, by their cause *)
Inductive issue := IssueExactlyOne | IssueContent | IssueParse (e : ParseError) | IssueLegacy | IssueBindings (e : BindingError).

Section workflow.
  Context {GR : GoRange} (document_decode : string -> string -> option Document).

Definition Parse (data filename : string) (provided : gmap string any) : result ParseError Normalized :=
  match document_decode data filename with
  | None => Err ParseDecode
  | Some doc =>
      '(doc, warnings) ← rmap_err ParseNormalize (normalizeDocument doc);
      order ← rmap_err ParseValidate (Validate doc);
      inputs ← rmap_err ParseInputs (ResolveInputs doc provided);
      let policyVersion := if d_APIVersion doc =s ContextPolicyAPIVersion then "context-policy/v1" else "context-policy/legacy" in
      Ok {| nz_Document := doc; nz_Inputs := inputs; nz_TopologicalOrder := order;
            nz_Warnings := map warning_text warnings; nz_ContextPolicyVersion := policyVersion; nz_ContextBindings := ∅ |}
  end.

Definition parseWorkflow (input : WorkflowInput) (inputs : gmap string json) : result issue Normalized :=
  let parse data filename :=
    normalized ← rmap_err IssueParse (Parse data filename (any_of <$> inputs));
    fail_if existsb (fun w => contains w "deprecated") (nz_Warnings normalized) with IssueLegacy ;; Ok normalized in
  match wi_Source input, wi_Document input with
  | Some source, None =>
      let filename := trim_space (wsrc_Filename source) in
      fail_if wsrc_Content source =s "" with IssueContent ;;
      parse (wsrc_Content source) (if filename =s "" then "workflow.yaml" else filename)
  | None, Some document => parse (json_text document) "workflow.json"
  | _, _ => Err IssueExactlyOne
  end.

(** The check of a request before the service starts with it *)
Definition prepare (request : RunStartRequest) : result issue Normalized :=
  normalized ← parseWorkflow (sq_Workflow request) (sq_Inputs request);
  _ ← rmap_err IssueBindings (ValidateContextBindings (nz_Document normalized) (sq_ContextBindings request));
  Ok normalized.
End workflow.

(** ** Capabilities *)

Inductive gap := GapSelection (node : string) (e : ResolveError) | GapDriver (node driver : string)
| GapTarget (node driver target : string) | GapNotReady (node diagnostic : string).

Definition resolvedSelection (normalized : Normalized) (node : Node) (driverOverride targetOverride defaultDriver : string)
    : result ResolveError (string * string) :=
  '(driver, target) ← ResolveAgent (d_Defaults (nz_Document normalized)) node;
  let driver := if trim_space driverOverride =s "" then driver else trim_space driverOverride in
  let driver := if driver =s "" then defaultDriver else driver in
  let target := if trim_space targetOverride =s "" then target else trim_space targetOverride in
  let target := if target =s "" then "local" else target in
  Ok (driver, target).

Definition node_gaps (byName : gmap string DriverCapabilityReport) (normalized : Normalized)
    (driverOverride targetOverride defaultDriver : string) (nodeID : string) : list gap :=
  let definition := node_at (nz_Document normalized) nodeID in
  if n_Type definition ≠s "agent" then [] else
  match resolvedSelection normalized definition driverOverride targetOverride defaultDriver with
  | Err e => [GapSelection nodeID e]
  | Ok (driver, target) =>
      match byName !! driver with
      | None => [GapDriver nodeID driver]
      | Some report =>
          (if contains_string (dr_Targets report) target then [] else [GapTarget nodeID driver target]) ++
          (if dr_Ready report then [] else [GapNotReady nodeID (dr_Diagnostic report)])
      end
  end.
Definition capability_gaps (reports : list DriverCapabilityReport) (normalized : Normalized)
    (driverOverride targetOverride defaultDriver : string) : list gap :=
  let byName := fold_left (fun m report => <[dr_Driver report := report]> m) reports ∅ in
  flat_map (node_gaps byName normalized driverOverride targetOverride defaultDriver) (nz_TopologicalOrder normalized).

(** ** The service

    A service has a journal.  The issues and gaps for which a request is refused
    are not in the data of the error. *)

(** The calls that change a run, each with the id and the hash of its request *)
Inductive core_call :=
| CallStart (request hash : string) (call : StartWorkflowRequest)
| CallResume (request hash : string) (run : string)
| CallCancel (request hash : string) (run : string).

Record app (C : Type) := { as_journal : journal; as_core : C; as_calls : list core_call }.
Arguments as_journal {C}. Arguments as_core {C}. Arguments as_calls {C}.
#[export] Instance AppError_files : FileErrors AppError := fun _ => internalError.

(** What a call finds: the clock at its three writes of the journal, the random
    part of a new run id, and what other processes do before each step *)
Record moment (C : Type) := {
  mo_begin : Z; mo_mark : Z; mo_commit : Z; mo_newID : option string; mo_others : nat -> app C -> app C }.
Arguments mo_begin {C}. Arguments mo_mark {C}. Arguments mo_commit {C}. Arguments mo_newID {C}. Arguments mo_others {C}.

Section service.
  Context {GR : GoRange} {SHA : Sha256} {C : Type} {CC : Core C} (document_decode : string -> string -> option Document).
  Context (defaultDriver : string).

Notation app_io := (io (app C) AppError).

Definition with_journal (s : app C) (d : journal) : app C :=
  {| as_journal := d; as_core := as_core s; as_calls := as_calls s |}.
Definition with_core (s : app C) (c : C) : app C :=
  {| as_journal := as_journal s; as_core := c; as_calls := as_calls s |}.

(** A call of the journal or the core, its error as a value *)
Definition in_journal {A} (m : journal_io A) : app_io (result JournalError A) := fun s fs =>
  match m (as_journal s) fs with
  | Returned a d fs => Returned (Ok a) (with_journal s d) fs
  | Raised e d fs => Returned (Err e) (with_journal s d) fs
  | Died d => Died (with_journal s d)
  end.
Definition in_core {A} (m : io C CoreError A) : app_io (result CoreError A) := fun s fs =>
  match m (as_core s) fs with
  | Returned a c fs => Returned (Ok a) (with_core s c) fs
  | Raised e c fs => Returned (Err e) (with_core s c) fs
  | Died c => Died (with_core s c)
  end.
Definition ask_core {A} (f : C -> A) : app_io A := fun s fs => Returned (f (as_core s)) s fs.
Definition record_call (call : core_call) : app_io unit := fun s fs =>
  Returned tt {| as_journal := as_journal s; as_core := as_core s; as_calls := as_calls s ++ [call] |} fs.

Definition validateExternalID (name value : string) : result AppError unit :=
  let value := trim_space value in
  let path := ("path", jstring ("$." +:+ name)) in
  fail_if value =s "" with NewError CodeInvalidArgument (name +:+ " is required") [path] ;;
  fail_if MaxRequestIDBytes <? len value
    with NewError CodeInvalidArgument (name +:+ " exceeds 256 bytes") [("maxBytes", jint MaxRequestIDBytes); path] ;;
  Ok tt.

Definition decodeJournalResponse {T} (decode : json -> option T) (record : ApplicationJournalRecord) : app_io T :=
  match (v ← json_parse (jr_Response record); decode v) with Some response => mret response | None => refuse internalError end.

Definition mark (at_ : moment C) (kind id requestHash : string) (response : json) : app_io ApplicationJournalRecord :=
  _ ← others (mo_others at_ 3);
  marked ← in_journal (MarkApplicationJournalMutated kind id requestHash (json_text response) (mo_mark at_));
  match marked with Ok record => mret record | Err e => refuse (mapJournalError e id) end.
Definition settle (at_ : moment C) (kind id requestHash : string) : app_io ApplicationJournalRecord :=
  _ ← others (mo_others at_ 4);
  committed ← in_journal (CommitApplicationJournal kind id requestHash (mo_commit at_));
  match committed with Ok record => mret record | Err e => refuse (mapJournalError e id) end.

Definition persistJournalResponse {T} (encode : T -> json) (decode : json -> option T) (at_ : moment C)
    (kind id requestHash : string) (response : T) : app_io T :=
  record ← mark at_ kind id requestHash (encode response);
  _ ← settle at_ kind id requestHash;
  if jr_Response record ≠s json_text (encode response) then decodeJournalResponse decode record else mret response.

(** The record that a pending journal entry is committed to, if it is not yet *)
Definition settled (at_ : moment C) (record : ApplicationJournalRecord) : app_io ApplicationJournalRecord :=
  if jr_State record =s JournalMutated
  then settle at_ (jr_Kind record) (jr_ID record) (jr_RequestHash record)
  else mret record.
Definition replayJournalResponse {T} (decode : json -> option T) (at_ : moment C) (record : ApplicationJournalRecord) : app_io T :=
  record ← settled at_ record; decodeJournalResponse decode record.
Definition replayActionJournalResponse (at_ : moment C) (record : ApplicationJournalRecord) : app_io RunActionResponse :=
  _ ← settled at_ record;
  match (v ← json_parse (jr_Response record); decode_action_error v) with
  | Some (Some e) => refuse e
  | _ => decodeJournalResponse decode_action_response record
  end.
(** persistActionError never returns: it raises the error it has recorded, or
    the reason why it could not. *)
Definition persistActionError {T} (at_ : moment C) (id requestHash : string) (e : AppError) : app_io T :=
  _ ← mark at_ "action" id requestHash (encode_action_error e);
  _ ← settle at_ "action" id requestHash;
  refuse e.

(** What the journal says of a request: nothing, that it is pending, or that it
    has been answered *)
Inductive told := Untold | Pending (record : ApplicationJournalRecord) | Told (record : ApplicationJournalRecord).
Definition consult (at_ : moment C) (kind id requestHash message : string) : app_io told :=
  _ ← others (mo_others at_ 0);
  record ← in_journal (ReadApplicationJournal kind id);
  match record with
  | Ok record =>
      if jr_RequestHash record ≠s requestHash then refuse (conflictError message [("id", jstring id)])
      else if (jr_State record =s JournalMutated) || (jr_State record =s JournalCommitted) then mret (Told record)
      else mret (Pending record)
  | Err (JournalFile FileNotExist) => mret Untold
  | Err _ => refuse internalError
  end.

(** The pending record of a request, begun now if there is none *)
Definition begun (at_ : moment C) (known : told) (kind id requestHash canonical : string) (plannedRunID : app_io string)
    : app_io ApplicationJournalRecord :=
  match known with
  | Pending record | Told record => mret record
  | Untold =>
      plannedRunID ← plannedRunID;
      _ ← others (mo_others at_ 1);
      record ← in_journal (BeginApplicationJournal kind id requestHash canonical plannedRunID (mo_begin at_));
      match record with Ok record => mret record | Err e => refuse (mapJournalError e id) end
  end.

(** ** Starting a run *)

Definition startResponse (snapshot : WorkflowSnapshot) : RunStartResponse := {|
  sp_APIVersion := ApplicationAPIVersion; sp_RunID := ws_ID snapshot; sp_StateVersion := ws_StateVersion snapshot;
  sp_Attach := "fishyume attach " +:+ ws_ID snapshot |}.

Definition newApplicationRunID (at_ : moment C) : app_io string :=
  match mo_newID at_ with Some value => mret ("run-" +:+ value) | None => refuse internalError end.

Definition start_call (request : RunStartRequest) (project : string) (normalized : Normalized)
    (record : ApplicationJournalRecord) : StartWorkflowRequest := {|
  sr_RunID := jr_PlannedRunID record; sr_InitializationTime := jr_CreatedAt record; sr_Project := project;
  sr_Driver := trim_space (sq_Driver request); sr_Target := trim_space (sq_Target request); sr_Normalized := normalized;
  sr_Inputs := sq_Inputs request; sr_ContextBindings := sq_ContextBindings request |}.

Definition carry_out_start (at_ : moment C) (request : RunStartRequest) (project : string) (normalized : Normalized)
    (requestHash canonical : string) (known : told) : app_io RunStartResponse :=
  let id := sq_ClientRequestID request in
  reports ← ask_core (core_reports project);
  match capability_gaps reports normalized (sq_Driver request) (sq_Target request) defaultDriver with
  | _ :: _ => refuse (NewError CodeAppUnavailable "workflow requires unavailable driver capabilities" [])
  | [] =>
      record ← begun at_ known "start" id requestHash canonical (newApplicationRunID at_);
      let call := start_call request project normalized record in
      _ ← others (mo_others at_ 2);
      _ ← record_call (CallStart id requestHash call);
      snapshot ← in_core (core_start call);
      match snapshot with
      | Err e => refuse (mapCoreError e "could not start run")
      | Ok snapshot =>
          persistJournalResponse encode_start_response decode_start_response at_ "start" id requestHash (startResponse snapshot)
      end
  end.

Definition runStartNormalized (at_ : moment C) (request : RunStartRequest) (project : string) (normalized : Normalized)
    : app_io RunStartResponse :=
  let '(requestHash, canonical) := canonicalRequest (encode_start request) in
  known ← consult at_ "start" (sq_ClientRequestID request) requestHash "clientRequestId is already bound to a different payload";
  match known with
  | Told record => replayJournalResponse decode_start_response at_ record
  | _ => carry_out_start at_ request project normalized requestHash canonical known
  end.

Definition RunStart (at_ : moment C) (request : RunStartRequest) : app_io RunStartResponse :=
  _ ← checked (fun e => e) (validateExternalID "clientRequestId" (sq_ClientRequestID request));
  let project := trim_space (sq_Project request) in
  if project =s "" then refuse (NewError CodeInvalidArgument "project is required" [("path", jstring "$.project")]) else
  match prepare document_decode request with
  | Err (IssueBindings _) => refuse (NewError CodeInvalidWorkflow "workflow context bindings are invalid" [])
  | Err _ => refuse (NewError CodeInvalidWorkflow "workflow is invalid" [])
  | Ok normalized => runStartNormalized at_ request project normalized
  end.

(** ** Acting on a run *)

Definition actionResponse (request : RunActionRequest) (snapshot : WorkflowSnapshot) : RunActionResponse :=
  let '(version, phase, conclusion) :=
    match ws_ActionReceipts snapshot !! aq_ActionID request with
    | Some receipt => (rc_StateVersion receipt, rc_Phase receipt, rc_Conclusion receipt)
    | None => (ws_StateVersion snapshot, ws_Phase snapshot, ws_Conclusion snapshot)
    end in
  {| ap_APIVersion := ApplicationAPIVersion; ap_ActionID := aq_ActionID request; ap_RunID := aq_RunID request;
     ap_Type := aq_Type request; ap_StateVersion := version; ap_Phase := phase; ap_Conclusion := conclusion |}.

Definition invalid (message path : string) : result AppError unit :=
  Err (NewError CodeInvalidArgument message [("path", jstring path)]).
Definition validateActionShape (request : RunActionRequest) (view : StatusView) : result AppError unit :=
  let type := aq_Type request in
  if negb ((type =s ActionApprove) || (type =s ActionReject) || (type =s ActionAnswer) || (type =s ActionRetry) || (type =s ActionCancel))
  then Err (NewError CodeInvalidArgument "unsupported action type" [("path", jstring "$.type"); ("value", jstring type)]) else
  if type =s ActionCancel then
    if (aq_NodeID request ≠s "") || is_some (aq_ExpectedAttempt request) || (aq_Reason request ≠s "") ||
       negb (Nat.eqb (size (aq_Answers request)) 0) || aq_AcknowledgeDuplicateRisk request
    then invalid "cancel action does not accept node fields" "$" else Ok tt
  else if aq_NodeID request =s "" then invalid "nodeId is required for node action" "$.nodeId" else
  match List.find (fun node => ns_ID node =s aq_NodeID request) (sv_Nodes view) with
  | None => Err (NewError CodeNotFound "node not found" [("nodeId", jstring (aq_NodeID request))])
  | Some node =>
      _ ← (if (type =s ActionAnswer) || (type =s ActionRetry) then
             match aq_ExpectedAttempt request with
             | None => invalid "expectedAttempt is required for answer and retry" "$.expectedAttempt"
             | Some expected =>
                 if expected <? 1 then invalid "expectedAttempt is required for answer and retry" "$.expectedAttempt"
                 else if negb (ns_CurrentAttempt node =? expected)
                 then Err (conflictError "attempt conflict"
                             [("currentAttempt", jint (ns_CurrentAttempt node)); ("expectedAttempt", jint expected)])
                 else Ok tt
             end
           else if is_some (aq_ExpectedAttempt request) then invalid "approval actions do not accept expectedAttempt" "$.expectedAttempt" else Ok tt);
      if (type ≠s ActionReject) && (aq_Reason request ≠s "") then invalid "reason is accepted only by reject" "$.reason" else
      if (type ≠s ActionAnswer) && negb (Nat.eqb (size (aq_Answers request)) 0) then invalid "answers are accepted only by answer" "$.answers" else
      if (type ≠s ActionRetry) && aq_AcknowledgeDuplicateRisk request
      then invalid "acknowledgeDuplicateRisk is accepted only by retry" "$.acknowledgeDuplicateRisk" else Ok tt
  end.

Definition version_conflict (request : RunActionRequest) (current : WorkflowSnapshot) : AppError :=
  conflictError "state version conflict"
    [("currentStateVersion", jint (ws_StateVersion current)); ("expectedStateVersion", jint (aq_ExpectedStateVersion request))].

Definition resume_action (request : RunActionRequest) (requestHash : string) : ResumeAction := {|
  ra_ActionID := aq_ActionID request; ra_ActionRequestHash := requestHash; ra_Type := aq_Type request;
  ra_NodeID := aq_NodeID request; ra_ExpectedAttempt := aq_ExpectedAttempt request; ra_Reason := aq_Reason request;
  ra_Answers := (if Nat.eqb (size (aq_Answers request)) 0 then None else Some (any_of <$> aq_Answers request));
  ra_AcknowledgeDuplicateRisk := aq_AcknowledgeDuplicateRisk request |}.

Definition core_action (request : RunActionRequest) (requestHash : string) : app_io (result CoreError WorkflowSnapshot) :=
  let expected := Some (aq_ExpectedStateVersion request) in
  if aq_Type request =s ActionCancel then
    _ ← record_call (CallCancel (aq_ActionID request) requestHash (aq_RunID request));
    in_core (core_cancel {| xr_RunID := aq_RunID request; xr_ExpectedStateVersion := expected;
                            xr_ActionID := aq_ActionID request; xr_ActionRequestHash := requestHash |})
  else
    _ ← record_call (CallResume (aq_ActionID request) requestHash (aq_RunID request));
    in_core (core_resume (aq_RunID request) expected (resume_action request requestHash)).

Definition answer_action (at_ : moment C) (request : RunActionRequest) (requestHash : string)
    (outcome : result CoreError WorkflowSnapshot) : app_io RunActionResponse :=
  let id := aq_ActionID request in
  match outcome with
  | Ok snapshot =>
      persistJournalResponse encode_action_response decode_action_response at_ "action" id requestHash (actionResponse request snapshot)
  | Err e =>
      let e := mapActionError e in
      if negb (terminalActionError e) then refuse e else
      match core_abort with
      | None => persistActionError at_ id requestHash e
      | Some abort =>
          aborted ← in_core (abort (aq_RunID request) id requestHash);
          match aborted with Err _ => refuse internalError | Ok _ => persistActionError at_ id requestHash e end
      end
  end.

Definition carry_out_action (at_ : moment C) (request : RunActionRequest) (requestHash canonical : string) (known : told)
    : app_io RunActionResponse :=
  let id := aq_ActionID request in
  view ← in_core (core_status (aq_RunID request));
  match view with
  | Err e => refuse (mapCoreError e "run not found")
  | Ok view =>
      match sv_Run view with
      | None => refuse (NewError CodeAppUnavailable "legacy run does not support Agent-native actions" [("runId", jstring (aq_RunID request))])
      | Some current =>
          match ws_ActionReceipts current !! id with
          | Some receipt =>
              if rc_RequestHash receipt ≠s requestHash
              then refuse (conflictError "actionId is already bound to a different payload" [("id", jstring id)])
              else persistJournalResponse encode_action_response decode_action_response at_ "action" id requestHash
                     (actionResponse request current)
          | None =>
              if negb (ws_StateVersion current =? aq_ExpectedStateVersion request) then
                match known with
                | Untold => refuse (version_conflict request current)
                | _ => persistActionError at_ id requestHash (version_conflict request current)
                end
              else
                _ ← match known with
                    | Untold => checked (fun e => e) (validateActionShape request view)
                    | _ => mret tt
                    end;
                _ ← begun at_ known "action" id requestHash canonical (mret (aq_RunID request));
                _ ← others (mo_others at_ 2);
                outcome ← core_action request requestHash;
                answer_action at_ request requestHash outcome
          end
      end
  end.

Definition RunAction (at_ : moment C) (request : RunActionRequest) : app_io RunActionResponse :=
  _ ← checked (fun e => e) (validateExternalID "actionId" (aq_ActionID request));
  if trim_space (aq_RunID request) =s "" then refuse (NewError CodeInvalidArgument "runId is required" [("path", jstring "$.runId")]) else
  if aq_ExpectedStateVersion request =? 0
  then refuse (NewError CodeInvalidArgument "expectedStateVersion is required" [("path", jstring "$.expectedStateVersion")]) else
  let '(requestHash, canonical) := canonicalRequest (encode_action request) in
  known ← consult at_ "action" (aq_ActionID request) requestHash "actionId is already bound to a different payload";
  match known with
  | Told record => replayActionJournalResponse at_ record
  | _ => carry_out_action at_ request requestHash canonical known
  end.

(** ** Recovery *)

(** One pending record; [Recover] looks no further than the error, if any. *)
Definition recover_record (at_ : moment C) (record : ApplicationJournalRecord) : app_io unit :=
  if jr_Kind record =s "start" then
    match (v ← json_parse (jr_Request record); decode_start v) with
    | None => refuse internalError
    | Some request => _ ← RunStart at_ request; mret tt
    end
  else if jr_Kind record =s "action" then
    match (v ← json_parse (jr_Request record); decode_action v) with
    | None => refuse internalError
    | Some request =>
        outcome ← attempt (RunAction at_ request);
        match outcome with
        | Ok _ => mret tt
        | Err e => if terminalActionError e then mret tt else refuse e
        end
    end
  else refuse internalError.
Fixpoint recover_records (at_ : nat -> moment C) (n : nat) (records : list ApplicationJournalRecord) : app_io unit :=
  match records with
  | [] => mret tt
  | record :: records => _ ← recover_record (at_ n) record; recover_records at_ (S n) records
  end.
(** [at_ n] is the moment of the n-th pending request. *)
Definition Recover (at_ : nat -> moment C) : app_io unit :=
  records ← in_journal ListPendingApplicationJournals;
  match records with Err _ => refuse internalError | Ok records => recover_records at_ 0 records end.
End service.
