(* ===== verification/ApplicationTheory.v ===== *)
(** * A request takes effect once

    RunStart and RunAction against the journal: every call of the core that
    changes a run is bound to the journal's record of the request, and a request
    that has been answered is answered the same ever after. *)

From S2P Require Import Prelude GoText Json JsonTree JsonTreeTheory JsonSound JsonStrings Routing Resolver.
From S2P Require Import Catalog Workflow Topology Template Validate Context Backend RunState Files RunStore.
From S2P Require Import Journal JournalTheory AppRequests Application ValidateTheory Scheduler SchedulerTheory.
From S2P Require Import Handoff.
#[local] Open Scope string_scope.
#[local] Open Scope list_scope.
#[local] Open Scope Z_scope.

Section theory.
  Context {GR : GoRange} {SHA : Sha256} {C : Type} {CC : Core C} (document_decode : string -> string -> option Document).
  Context (defaultDriver : string).

Notation app_io := (io (app C) AppError).

(** The entry of a request *)
Definition entry_of (kind id : string) (s : app C) : file ApplicationJournalRecord :=
  entry (applicationJournalPath kind id) (as_journal s).

(** A call carries the run id, the time and the hash that the journal has for
    its request. *)
Definition covered (s : app C) (c : core_call) : Prop :=
  match c with
  | CallStart id hash call => exists r, entry_of "start" id s = Holds r /\ jr_RequestHash r = hash /\
      sr_RunID call = jr_PlannedRunID r /\ sr_InitializationTime call = jr_CreatedAt r
  | CallResume id hash _ | CallCancel id hash _ => exists r, entry_of "action" id s = Holds r /\ jr_RequestHash r = hash
  end.

(** The journal goes along the steps, and no call is made: what other processes
    do to this one's files *)
Definition quiet (s s' : app C) : Prop :=
  journal_steps (as_journal s) (as_journal s') /\ as_calls s' = as_calls s.
(** or every call that is made is covered *)
Definition advances (s s' : app C) : Prop :=
  journal_steps (as_journal s) (as_journal s') /\
  (Forall (covered s) (as_calls s) -> Forall (covered s') (as_calls s')).

#[export] Instance quiet_preorder : PreOrder quiet.
Proof.
  split; [by intros s|]. intros s1 s2 s3 [H1 E1] [H2 E2]. split; [by etrans|congruence].
Qed.
#[export] Instance advances_preorder : PreOrder advances.
Proof. split; [by intros s|]. intros s1 s2 s3 [H1 E1] [H2 E2]. split; [by etrans|auto]. Qed.

Lemma journal_steps_entry kind id s s' r :
  journal_steps (as_journal s) (as_journal s') -> entry_of kind id s = Holds r ->
  exists r', entry_of kind id s' = Holds r' /\ later r r'.
Proof. intros Hs Hr. apply entry_steps_later. rewrite <- Hr. apply Hs. Qed.

Lemma covered_steps s s' c : journal_steps (as_journal s) (as_journal s') -> covered s c -> covered s' c.
Proof.
  intros Hs. destruct c; cbn; intros (r & Hr & Hc); destruct (journal_steps_entry _ _ _ _ _ Hs Hr) as (r' & Hr' & (Hk & Hi & Hh & Hp & Ht & _) & _);
    exists r'; (split; [done|]); intuition congruence.
Qed.

Lemma quiet_advances s s' : quiet s s' -> advances s s'.
Proof. intros [Hs Hc]. split; [done|]. rewrite Hc. intros Hall. eapply Forall_impl; [done|]. intros c. by apply covered_steps. Qed.

Lemma moves_quiet {A} (m : app_io A) s : moves quiet s m -> moves advances s m.
Proof. intros Hm fs. by apply quiet_advances. Qed.

(** The clock does not show the zero time, and the others keep to the steps. *)
Definition fair (at_ : moment C) : Prop :=
  mo_begin at_ <> 0 /\ mo_mark at_ <> 0 /\ mo_commit at_ <> 0 /\ forall k s, quiet s (mo_others at_ k s).

(** ** Quiet parts *)

Lemma quiet_leaves {A} (m : app_io A) s : leaves s m -> moves quiet s m.
Proof. intros Hm. by apply moves_leaves; [apply _|]. Qed.
Lemma quiet_bind {A B} (m : app_io A) (k : A -> app_io B) s :
  moves quiet s m -> (forall a fs s' fs', m s fs = Returned a s' fs' -> moves quiet s' (k a)) -> moves quiet s (m ≫= k).
Proof. intros Hm Hk. by apply moves_bind; [apply _|..]. Qed.
Lemma quiet_others at_ k s : fair at_ -> moves quiet s (others (mo_others at_ k) : app_io unit).
Proof. intros (_ & _ & _ & Ho) fs. apply Ho. Qed.
Lemma quiet_journal {A} (m : journal_io A) s : moves journal_steps (as_journal s) m -> moves quiet s (in_journal m).
Proof. intros Hm fs. specialize (Hm fs). unfold in_journal. by destruct (m (as_journal s) fs). Qed.
Lemma quiet_core {A} (m : io C CoreError A) s : moves quiet s (in_core m).
Proof. intros fs. unfold in_core. by destruct (m (as_core s) fs). Qed.
Lemma quiet_ask {A} (f : C -> A) s : moves quiet s (ask_core f).
Proof. by intros fs. Qed.

Lemma quiet_mark at_ kind id hash response s : fair at_ -> moves quiet s (mark at_ kind id hash response).
Proof.
  intros Hat. apply quiet_bind; [by apply quiet_others|]. intros _ fs s' fs' _. apply quiet_bind.
  - apply quiet_journal, mark_steps, Hat.
  - intros r fs1 s1 fs1' _. apply quiet_leaves. by destruct r.
Qed.
Lemma quiet_settle at_ kind id hash s : fair at_ -> moves quiet s (settle at_ kind id hash).
Proof.
  intros Hat. apply quiet_bind; [by apply quiet_others|]. intros _ fs s' fs' _. apply quiet_bind.
  - apply quiet_journal, commit_steps, Hat.
  - intros r fs1 s1 fs1' _. apply quiet_leaves. by destruct r.
Qed.
Lemma leaves_decode {T} (decode : json -> option T) r s : leaves s (decodeJournalResponse decode r : app_io T).
Proof. unfold decodeJournalResponse. by destruct (json_parse _ ≫= decode). Qed.
Lemma quiet_settled at_ r s : fair at_ -> moves quiet s (settled at_ r).
Proof. intros Hat. unfold settled. destruct (_ =s _); [by apply quiet_settle|by apply quiet_leaves]. Qed.
Lemma quiet_replay {T} (decode : json -> option T) at_ r s : fair at_ -> moves quiet s (replayJournalResponse decode at_ r).
Proof.
  intros Hat. apply quiet_bind; [by apply quiet_settled|]. intros r' fs s' fs' _. apply quiet_leaves, leaves_decode.
Qed.
Lemma quiet_replay_action at_ r s : fair at_ -> moves quiet s (replayActionJournalResponse at_ r).
Proof.
  intros Hat. apply quiet_bind; [by apply quiet_settled|]. intros r' fs s' fs' _. apply quiet_leaves.
  destruct (json_parse _ ≫= _) as [[e|]|]; [done|apply leaves_decode..].
Qed.
Lemma quiet_persist {T} (encode : T -> json) decode at_ kind id hash response s :
  fair at_ -> moves quiet s (persistJournalResponse encode decode at_ kind id hash response).
Proof.
  intros Hat. apply quiet_bind; [by apply quiet_mark|]. intros r fs s' fs' _.
  apply quiet_bind; [by apply quiet_settle|]. intros r1 fs1 s1 fs1' _. apply quiet_leaves.
  destruct (negb _); [apply leaves_decode|done].
Qed.
Lemma quiet_persist_error {T} at_ id hash e s : fair at_ -> moves quiet s (persistActionError (T := T) at_ id hash e).
Proof.
  intros Hat. apply quiet_bind; [by apply quiet_mark|]. intros r fs s' fs' _.
  apply quiet_bind; [by apply quiet_settle|]. intros r1 fs1 s1 fs1' _. by apply quiet_leaves.
Qed.
Lemma quiet_consult at_ kind id hash message s : fair at_ -> moves quiet s (consult at_ kind id hash message).
Proof.
  intros Hat. apply quiet_bind; [by apply quiet_others|]. intros _ fs s' fs' _. apply quiet_bind.
  - apply quiet_journal, moves_same. unfold ReadApplicationJournal. io_leaves.
  - intros r fs1 s1 fs1' _. apply quiet_leaves. destruct r as [r|[[]| | | | | | | | | |]]; try done.
    destruct (negb _); [done|]. by destruct (_ || _).
Qed.

(** ** Calls *)

(** What is known of a request: the entry behind it *)
Definition knows (kind id hash : string) (s : app C) (known : told) : Prop :=
  match known with
  | Untold => True
  | Pending r => entry_of kind id s = Holds r /\ belongs r kind id hash
  | Told r => entry_of kind id s = Holds r /\ belongs r kind id hash /\ answered r = true
  end.

Lemma in_journal_returned {A} (m : journal_io A) (s : app C) fs a s' fs' :
  in_journal m s fs = Returned (Ok a) s' fs' -> exists d, m (as_journal s) fs = Returned a d fs' /\ s' = with_journal s d.
Proof. unfold in_journal. destruct (m (as_journal s) fs) as [b d fs1|e d fs1|d]; intros [=]; subst. by eexists. Qed.

Lemma consult_returned at_ kind id hash message s fs known s' fs' :
  consult at_ kind id hash message s fs = Returned known s' fs' -> knows kind id hash s' known.
Proof.
  unfold consult. intros H. io_inv. match goal with r : result _ _ |- _ => destruct r as [r|e] end.
  - match goal with H : in_journal _ _ _ = _ |- _ => apply in_journal_returned in H as (d & H & ->) end.
    match goal with H : ReadApplicationJournal _ _ _ _ = _ |- _ => apply read_journal_returned in H as (-> & Hr & Hv & Hk & Hi) end.
    destruct (negb _) eqn:Hh; [done|]. bool_props.
    destruct (_ || _) eqn:Ha; io_inv; cbn; unfold entry_of, answered; cbn; by split_and!.
  - destruct e as [[]| | | | | | | | | |]; io_inv. done.
Qed.

Lemma begun_quiet at_ known kind id hash canonical plan s :
  fair at_ -> (forall s, leaves s plan) -> moves quiet s (begun at_ known kind id hash canonical plan).
Proof.
  intros Hat Hplan. destruct known; [|by apply quiet_leaves..]. apply quiet_bind; [by apply quiet_leaves|].
  intros run fs s1 fs1 _. apply quiet_bind; [by apply quiet_others|]. intros _ fs2 s2 fs2' _.
  apply quiet_bind; [apply quiet_journal, begin_steps, Hat|]. intros r fs3 s3 fs3' _. apply quiet_leaves. by destruct r.
Qed.

(** The record that a request is carried out under *)
Lemma begun_returned at_ known kind id hash canonical plan s fs r s' fs' :
  fair at_ -> knows kind id hash s known -> begun at_ known kind id hash canonical plan s fs = Returned r s' fs' ->
  exists r', entry_of kind id s' = Holds r' /\ same_binding r r' /\ belongs r' kind id hash.
Proof.
  intros Hat Hk H. destruct known as [|r0|r0]; cbn in H; io_inv.
  - match goal with r : result _ _ |- _ => destruct r as [r1|e] end; io_inv.
    match goal with H : in_journal _ _ _ = _ |- _ => apply in_journal_returned in H as (d & H & ->) end.
    match goal with H : BeginApplicationJournal _ _ _ _ _ _ _ _ = _ |- _ => apply begin_returned in H; [|apply Hat] end. done.
  - destruct Hk as [Hr Hb]. exists r. split_and!; [done|apply same_binding_refl|done].
  - destruct Hk as (Hr & Hb & _). exists r. split_and!; [done|apply same_binding_refl|done].
Qed.

Lemma advances_bind {A B} (m : app_io A) (k : A -> app_io B) s :
  moves quiet s m -> (forall a fs s' fs', m s fs = Returned a s' fs' -> moves advances s' (k a)) -> moves advances s (m ≫= k).
Proof. intros Hm Hk. by apply moves_bind; [apply _|apply moves_quiet|]. Qed.

Lemma record_call_advances c s : covered s c -> moves advances s (record_call c).
Proof.
  intros Hc fs. split; [done|]. cbn. intros Hall. apply Forall_app. split; [done|]. by constructor.
Qed.

Lemma others_steps at_ k s fs u s' fs' :
  fair at_ -> (others (mo_others at_ k) : app_io unit) s fs = Returned u s' fs' -> journal_steps (as_journal s) (as_journal s').
Proof. intros (_ & _ & _ & Ho) H. injection H as <- <- <-. apply Ho. Qed.

(** Carrying out a request of which [known] is known *)
Lemma carry_out_start_advances at_ request project normalized canonical known s :
  let hash := hashBytes (json_text (encode_start request)) in
  fair at_ -> knows "start" (sq_ClientRequestID request) hash s known ->
  moves advances s (carry_out_start defaultDriver at_ request project normalized hash canonical known).
Proof.
  intros hash Hat Hk. apply advances_bind; [apply quiet_ask|]. intros reports fs s1 fs1 Hs1. injection Hs1 as _ <- _.
  destruct (capability_gaps _ _ _ _ _); [|by apply moves_quiet, quiet_leaves].
  apply advances_bind.
  { apply begun_quiet; [done|]. intros s0. unfold newApplicationRunID. by destruct (mo_newID at_). }
  intros r fs2 s2 fs2' Hr. apply begun_returned in Hr as (r2 & Hr2 & Hb2 & Hbel); [|done..].
  apply advances_bind; [by apply quiet_others|]. intros u fs3 s3 fs3' Ho. apply others_steps in Ho; [|done].
  destruct (journal_steps_entry _ _ _ _ _ Ho Hr2) as (r3 & Hr3 & Hb3 & _).
  pose proof (same_binding_trans _ _ _ Hb2 Hb3) as (_ & _ & _ & Hp & Ht & _).
  apply moves_bind; [apply _| |].
  { apply record_call_advances. exists r3. destruct Hbel as (_ & _ & _ & Hh), Hb3 as (_ & _ & Hh3 & _).
    split_and!; cbn; congruence. }
  intros _ fs4 s4 fs4' _. apply advances_bind; [apply quiet_core|]. intros outcome fs5 s5 fs5' _. apply moves_quiet.
  destruct outcome; [by apply quiet_persist|by apply quiet_leaves].
Qed.

Lemma runStart_advances at_ request s :
  fair at_ -> moves advances s (RunStart document_decode defaultDriver at_ request).
Proof.
  intros Hat. unfold RunStart. apply advances_bind; [apply quiet_leaves, leaves_checked|]. intros _ fs s1 fs1 _.
  destruct (_ =s _); [by apply moves_quiet, quiet_leaves|]. destruct (prepare _ _) as [|[]]; [|by apply moves_quiet, quiet_leaves..].
  unfold runStartNormalized, canonicalRequest. cbv beta iota. apply advances_bind; [by apply quiet_consult|]. intros known fs2 s2 fs2' Hk%consult_returned.
  destruct known; [by apply carry_out_start_advances..|by apply moves_quiet, quiet_replay].
Qed.

Lemma core_action_advances request hash s :
  (exists r, entry_of "action" (aq_ActionID request) s = Holds r /\ jr_RequestHash r = hash) ->
  moves advances s (core_action request hash).
Proof.
  intros Hr. unfold core_action. destruct (_ =s _);
    (apply moves_bind; [apply _|by apply record_call_advances|]; intros _ fs s1 fs1 _; apply moves_quiet, quiet_core).
Qed.

Lemma answer_action_quiet at_ request hash outcome s : fair at_ -> moves quiet s (answer_action at_ request hash outcome).
Proof.
  intros Hat. unfold answer_action. destruct outcome as [snapshot|e]; [by apply quiet_persist|].
  destruct (negb _); [by apply quiet_leaves|]. destruct core_abort as [abort|]; [|by apply quiet_persist_error].
  apply quiet_bind; [apply quiet_core|]. intros aborted fs s1 fs1 _.
  destruct aborted; [by apply quiet_persist_error|by apply quiet_leaves].
Qed.

Lemma carry_out_action_advances at_ request canonical known s :
  let hash := hashBytes (json_text (encode_action request)) in
  fair at_ -> knows "action" (aq_ActionID request) hash s known ->
  moves advances s (carry_out_action at_ request hash canonical known).
Proof.
  intros hash Hat Hk. unfold carry_out_action. apply moves_bind; [apply _|apply moves_quiet, quiet_core|].
  intros view fs s1 fs1 Hs1. assert (knows "action" (aq_ActionID request) hash s1 known) as Hk1.
  { unfold in_core in Hs1. destruct (core_status _ _ _); by simplify_eq. }
  clear Hk Hs1. destruct view as [view|e]; [|by apply moves_quiet, quiet_leaves].
  destruct (sv_Run view) as [current|]; [|by apply moves_quiet, quiet_leaves].
  destruct (ws_ActionReceipts current !! _) as [receipt|].
  { apply moves_quiet. destruct (negb _); [by apply quiet_leaves|by apply quiet_persist]. }
  destruct (negb _).
  { apply moves_quiet. destruct known; [by apply quiet_leaves|by apply quiet_persist_error..]. }
  apply advances_bind; [apply quiet_leaves; destruct known; auto with files|]. intros u fs2 s2 fs2' Hu.
  assert (s2 = s1) as -> by (destruct known; io_inv; done).
  apply advances_bind; [by apply begun_quiet|]. intros r fs3 s3 fs3' Hr.
  apply begun_returned in Hr as (r2 & Hr2 & _ & Hbel); [|done..].
  apply advances_bind; [by apply quiet_others|]. intros u4 fs4 s4 fs4' Ho. apply others_steps in Ho; [|done].
  destruct (journal_steps_entry _ _ _ _ _ Ho Hr2) as (r3 & Hr3 & (_ & _ & Hh & _) & _).
  apply moves_bind; [apply _|apply core_action_advances|].
  - exists r3. split; [done|]. rewrite Hh. apply Hbel.
  - intros outcome fs5 s5 fs5' _. by apply moves_quiet, answer_action_quiet.
Qed.

Lemma runAction_advances at_ request s : fair at_ -> moves advances s (RunAction at_ request).
Proof.
  intros Hat. unfold RunAction. apply advances_bind; [apply quiet_leaves, leaves_checked|]. intros _ fs s1 fs1 _.
  destruct (_ =s _); [by apply moves_quiet, quiet_leaves|]. destruct (_ =? _); [by apply moves_quiet, quiet_leaves|].
  unfold canonicalRequest. cbv beta iota. apply advances_bind; [by apply quiet_consult|]. intros known fs2 s2 fs2' Hk%consult_returned.
  destruct known; [by apply carry_out_action_advances..|by apply moves_quiet, quiet_replay_action].
Qed.

(** ** Recovery and sequences of requests *)

Lemma recover_record_advances at_ r s : fair at_ -> moves advances s (recover_record document_decode defaultDriver at_ r).
Proof.
  intros Hat. unfold recover_record. destruct (_ =s _).
  - destruct (json_parse _ ≫= _); [|by apply moves_quiet, quiet_leaves].
    apply moves_bind; [apply _|by apply runStart_advances|]. intros _ fs s1 fs1 _. by apply moves_quiet, quiet_leaves.
  - destruct (_ =s _); [|by apply moves_quiet, quiet_leaves].
    destruct (json_parse _ ≫= _); [|by apply moves_quiet, quiet_leaves].
    apply moves_bind; [apply _| |].
    + intros fs. pose proof (runAction_advances at_ r0 s Hat fs) as Hm. unfold attempt. by destruct (RunAction at_ r0 s fs).
    + intros outcome fs s1 fs1 _. apply moves_quiet, quiet_leaves. destruct outcome as [|e]; [done|].
      by destruct (terminalActionError e).
Qed.

Lemma recover_advances at_ s : (forall n, fair (at_ n)) -> moves advances s (Recover document_decode defaultDriver at_).
Proof.
  intros Hat. apply advances_bind.
  { apply quiet_journal, moves_same. unfold ListPendingApplicationJournals.
    assert (forall paths d, leaves d (pending_of paths)) as Hp.
    { intros paths. induction paths as [|path paths IH]; intros d; cbn [pending_of]; [done|]. io_leaves. }
    io_leaves; apply Hp. }
  intros records fs s1 fs1 _. destruct records as [records|]; [|by apply moves_quiet, quiet_leaves].
  generalize 0%nat. clear fs fs1 s. revert s1. induction records as [|r records IH]; intros s n; cbn [recover_records].
  - by apply moves_quiet, quiet_leaves.
  - apply moves_bind; [apply _|by apply recover_record_advances|]. intros _ fs s' fs' _. apply IH.
Qed.
End theory.

(** * A service to evaluate

    A core with one ready driver that starts every run or none, a workflow, and
    requests for it. *)

#[local] Existing Instance demo_sha.
#[local] Existing Instance canonical_range.

Definition demo_snapshot (run : string) (version : Z) : WorkflowSnapshot := {|
  ws_ProtocolVersion := 2; ws_StateSchemaVersion := 3; ws_StateVersion := version; ws_ID := run; ws_WorkflowName := "diamond";
  ws_Project := "p"; ws_ResolvedDriver := "codex"; ws_ResolvedTarget := "local"; ws_DeprecationWarnings := [];
  ws_Backend := "codex"; ws_EffectiveConcurrency := 2; ws_Phase := PhaseRunning; ws_Conclusion := ""; ws_Reason := "";
  ws_Summary := ""; ws_Inputs := ∅; ws_TopologicalOrder := []; ws_Nodes := ∅; ws_ActiveNodeID := "";
  ws_CancelRequested := false; ws_ActionReceipts := ∅; ws_StateDir := "d"; ws_CreatedAt := 0; ws_UpdatedAt := 0 |}.

(** A core that keeps the versions of its runs *)
Notation demo_core := (gmap string Z).
Definition demo_error (text : string) : CoreError := {| ce_NotExist := false; ce_Text := text |}.
Definition demo_report : DriverCapabilityReport :=
  {| dr_Driver := "codex"; dr_Targets := ["local"]; dr_Ready := true; dr_Diagnostic := "" |}.
Definition demo_start (accepts : bool) (request : StartWorkflowRequest) : io demo_core CoreError WorkflowSnapshot := fun c fs =>
  if accepts then Returned (demo_snapshot (sr_RunID request) 1) (<[sr_RunID request := 1]> c) fs
  else Raised (demo_error "backend does not support the workflow") c fs.
Definition demo_bump (run : string) : io demo_core CoreError WorkflowSnapshot := fun c fs =>
  match c !! run with
  | Some n => Returned (demo_snapshot run (n + 1)) (<[run := n + 1]> c) fs
  | None => Raised (demo_error "run not found") c fs
  end.
Definition demo_status (run : string) : io demo_core CoreError StatusView := fun c fs =>
  match c !! run with
  | Some n => Returned {| sv_Run := Some (demo_snapshot run n); sv_Nodes := [] |} c fs
  | None => Raised (demo_error "run not found") c fs
  end.
Definition demo_Core (accepts : bool) : Core demo_core := {|
  core_reports := fun _ _ => [demo_report]; core_start := demo_start accepts; core_status := demo_status;
  core_resume := fun run _ _ => demo_bump run; core_cancel := fun request => demo_bump (xr_RunID request); core_abort := None |}.

Definition demo_decode (data filename : string) : option Document := Some diamond.
Definition demo_request (id project : string) : RunStartRequest := {|
  sq_Project := project; sq_Workflow := {| wi_Source := Some {| wsrc_Filename := ""; wsrc_Content := "nodes" |}; wi_Document := None |};
  sq_Inputs := ∅; sq_Driver := "codex"; sq_Target := ""; sq_ClientRequestID := id; sq_ContextBindings := ∅ |}.
Definition demo_action (id run : string) (version : Z) : RunActionRequest := {|
  aq_ActionID := id; aq_RunID := run; aq_Type := ActionCancel; aq_ExpectedStateVersion := version; aq_NodeID := "";
  aq_ExpectedAttempt := None; aq_Reason := ""; aq_Answers := ∅; aq_AcknowledgeDuplicateRisk := false |}.
Definition demo_moment (id : string) : moment demo_core := {|
  mo_begin := 10; mo_mark := 20; mo_commit := 30; mo_newID := Some id; mo_others := fun _ s => s |}.
Definition demo_empty : app demo_core := {| as_journal := ∅; as_core := ∅; as_calls := [] |}.

Definition demo_RunStart (accepts : bool) : moment demo_core -> RunStartRequest -> io (app demo_core) AppError RunStartResponse :=
  @RunStart canonical_range demo_sha _ (demo_Core accepts) demo_decode "codex".
Definition demo_started : io_end (app demo_core) AppError RunStartResponse :=
  demo_RunStart true (demo_moment "1") (demo_request "a" "/work/app") demo_empty [].
Example demo_start_works : reply_of demo_started =
  Some {| sp_APIVersion := ApplicationAPIVersion; sp_RunID := "run-1"; sp_StateVersion := 1; sp_Attach := "fishyume attach run-1" |}.
Proof. vm_compute. reflexivity. Qed.
