(* ===== verification/ApplicationOnce.v ===== *)
(** * A request is answered once

    Over any sequence of requests and recoveries, whatever fails and wherever the
    process dies: the calls that change a run agree on what they are made for, and
    a request that has been answered makes no further call. *)

From S2P Require Import Prelude GoText Json JsonTree JsonTreeTheory JsonSound JsonStrings Routing Resolver Catalog Workflow.
From S2P Require Import Topology Template Validate Context Backend RunState Files RunStore Journal JournalTheory AppRequests AppCodecs.
From S2P Require Import Application ApplicationTheory Handoff.
#[local] Open Scope string_scope.
#[local] Open Scope list_scope.
#[local] Open Scope Z_scope.

(** ** Sequences of requests *)

Inductive app_op (C : Type) :=
| OpStart (at_ : moment C) (request : RunStartRequest)
| OpAction (at_ : moment C) (request : RunActionRequest)
| OpRecover (at_ : nat -> moment C).
Arguments OpStart {C}. Arguments OpAction {C}. Arguments OpRecover {C}.

Section theory.
  Context {GR : GoRange} {SHA : Sha256} {C : Type} {CC : Core C} (document_decode : string -> string -> option Document).
  Context (defaultDriver : string).

Notation app_io := (io (app C) AppError).

(** What is left when an operation has met its fates *)
Definition after_op (op : app_op C) (fs : list fate) (s : app C) : app C :=
  match op with
  | OpStart at_ request => files_after (RunStart document_decode defaultDriver at_ request s fs)
  | OpAction at_ request => files_after (RunAction at_ request s fs)
  | OpRecover at_ => files_after (Recover document_decode defaultDriver at_ s fs)
  end.
Definition after_ops (ops : list (app_op C * list fate)) (s : app C) : app C :=
  fold_left (fun s '(op, fs) => after_op op fs s) ops s.
Definition fair_op (op : app_op C) : Prop :=
  match op with OpStart at_ _ | OpAction at_ _ => fair at_ | OpRecover at_ => forall n, fair (at_ n) end.

Lemma after_ops_advances ops s : Forall (fun '(op, _) => fair_op op) ops -> advances s (after_ops ops s).
Proof.
  intros Hops. revert s. induction Hops as [|[op fs] ops Hop _ IH]; intros s; [done|]. unfold after_ops in *. cbn [fold_left].
  etrans; [|apply IH]. destruct op; cbn [after_op fair_op] in *; [by apply runStart_advances|by apply runAction_advances|by apply recover_advances].
Qed.

(** Two calls for the same request *)
Definition agree (c1 c2 : core_call) : Prop :=
  match c1, c2 with
  | CallStart i1 h1 call1, CallStart i2 h2 call2 =>
      i1 = i2 -> h1 = h2 /\ sr_RunID call1 = sr_RunID call2 /\ sr_InitializationTime call1 = sr_InitializationTime call2
  | CallStart _ _ _, _ | _, CallStart _ _ _ => True
  | CallResume i1 h1 _, CallResume i2 h2 _ | CallResume i1 h1 _, CallCancel i2 h2 _
  | CallCancel i1 h1 _, CallResume i2 h2 _ | CallCancel i1 h1 _, CallCancel i2 h2 _ => i1 = i2 -> h1 = h2
  end.

Lemma covered_agree (s : app C) c1 c2 : covered s c1 -> covered s c2 -> agree c1 c2.
Proof.
  intros H1 H2. destruct c1, c2; cbn in *; try done; intros <-;
    destruct H1 as (r1 & Hr1 & H1), H2 as (r2 & Hr2 & H2); rewrite Hr1 in Hr2; simplify_eq; intuition congruence.
Qed.

(** C4: Whatever requests are made and recovered, however often the process
    fails or dies in between and other processes work on the journal: all calls
    that start a run for one client request carry the same run id, the same time
    and the same hash of the request, and all calls that act on a run for one
    action id the same hash. *)
Theorem requests_once ops s c1 c2 :
  Forall (fun '(op, _) => fair_op op) ops -> as_calls s = [] ->
  c1 ∈ as_calls (after_ops ops s) -> c2 ∈ as_calls (after_ops ops s) -> agree c1 c2.
Proof.
  intros Hops Hs H1 H2. destruct (after_ops_advances ops s Hops) as [_ Hall]. rewrite Hs in Hall.
  specialize (Hall (List.Forall_nil _)). rewrite List.Forall_forall in Hall.
  apply (covered_agree (after_ops ops s)); apply Hall; by apply list_elem_of_In.
Qed.

(** ** Answers *)

(** The journal has the answer of a request. *)
Definition recorded (kind id hash : string) (answer : json) (s : app C) : Prop :=
  exists r, entry_of kind id s = Holds r /\ belongs r kind id hash /\ answered r = true /\ json_parse (jr_Response r) = Some answer.

Lemma belongs_later r r' kind id hash : belongs r kind id hash -> later r r' -> belongs r' kind id hash.
Proof. intros (Hv & Hk & Hi & Hh) ((Hk' & Hi' & Hh' & _) & Hv' & _). split_and!; [auto|congruence..]. Qed.

Lemma recorded_steps kind id hash answer (s s' : app C) :
  journal_steps (as_journal s) (as_journal s') -> recorded kind id hash answer s -> recorded kind id hash answer s'.
Proof.
  intros Hs (r & Hr & Hb & Ha & Hp). destruct (journal_steps_entry _ _ _ _ _ Hs Hr) as (r' & Hr' & Hl). exists r'.
  split_and!; [done|by eapply belongs_later|by apply Hl|]. pose proof Hl as (_ & _ & Hans). destruct (Hans Ha) as [_ Hsame]. rewrite Hsame; [done|apply Hb].
Qed.

Lemma answered_valid r : valid_record r -> answered r = true -> json_valid (jr_Response r) = true.
Proof.
  intros (_ & _ & _ & [Hs|[_ Hv]])%valid_record_spec Ha; [|done]. unfold answered in Ha. by rewrite Hs in Ha.
Qed.
Lemma reread_answer r kind id hash :
  belongs r kind id hash -> answered r = true ->
  belongs (reread r) kind id hash /\ answered (reread r) = true /\ json_parse (jr_Response (reread r)) = json_parse (jr_Response r).
Proof.
  intros (Hv & Hk & Hi & Hh) Ha. destruct (valid_reread r Hv) as [Hv' _]. split_and!; [done..|].
  record_cbn. by apply json_parse_indented, answered_valid.
Qed.

(** The record that [mark] returns has the answer that is in the journal. *)
Lemma mark_returned (at_ : moment C) kind id hash v (s : app C) fs r s' fs' :
  fair at_ -> mark at_ kind id hash v s fs = Returned r s' fs' ->
  exists r', entry_of kind id s' = Holds r' /\ belongs r' kind id hash /\ answered r' = true /\
    json_parse (jr_Response r') = json_parse (jr_Response r).
Proof.
  intros Hat H. unfold mark in H. io_inv. match goal with r : result _ _ |- _ => destruct r as [r1|e]; io_inv end.
  match goal with H : in_journal _ _ _ = _ |- _ => apply in_journal_returned in H as (d & H & ->) end.
  match goal with H : MarkApplicationJournalMutated _ _ _ _ _ _ _ = _ |- _ => rename H into Hmark end.
  unfold MarkApplicationJournalMutated in Hmark. destruct (_ || _) eqn:Hjson; [done|].
  apply update_returned in Hmark as (r0 & _ & Hb & Hm & Hd). unfold entry_of. cbn [as_journal with_journal]. rewrite Hd.
  unfold mutate in Hm. destruct ((jr_State r0 =s JournalCommitted) || (jr_State r0 =s JournalMutated)) eqn:Ha.
  - rewrite fail_if_ok in Hm. destruct Hm as [_ [= <-]]. rewrite decide_True by done. exists r0.
    split_and!; [done|done| |done]. unfold answered. by rewrite orb_comm.
  - bool_props. injection Hm as <-. destruct Hb as (Hv & Hk & Hi & Hh).
    destruct (valid_with_state r0 JournalMutated (json_text v) (mo_mark at_)) as (Hv' & _ & Ha'); [done|apply Hat|done|by left|].
    destruct (reread_answer (with_state r0 JournalMutated (json_text v) (mo_mark at_)) kind id hash) as (Hb' & Ha'' & Hp); [by split_and!|done|].
    case_decide as Heq; [exists r0; rewrite Heq; by split_and!|]. eexists. split_and!; [reflexivity|done..].
Qed.

(** The same of [settle] *)
Lemma settle_returned (at_ : moment C) kind id hash answer (s : app C) fs r s' fs' :
  fair at_ -> recorded kind id hash answer s -> settle at_ kind id hash s fs = Returned r s' fs' ->
  recorded kind id hash answer s' /\ json_parse (jr_Response r) = Some answer.
Proof.
  intros Hat Hrec H. pose proof (moves_returned _ _ _ _ _ _ _ (quiet_settle at_ kind id hash s Hat) H) as [Hs _].
  split; [by eapply recorded_steps|]. unfold settle in H. io_inv.
  match goal with H : others _ _ _ = _ |- _ => apply others_steps in H; [|done]; rename H into Ho end.
  eapply recorded_steps in Hrec; [|exact Ho]. destruct Hrec as (r1 & Hr1 & _ & _ & Hp).
  match goal with r : result _ _ |- _ => destruct r as [r2|e]; io_inv end.
  match goal with H : in_journal _ _ _ = _ |- _ => apply in_journal_returned in H as (d & H & ->) end.
  match goal with H : CommitApplicationJournal _ _ _ _ _ _ = _ |- _ => apply update_returned in H as (r0 & Hr0 & _ & Hc & _) end.
  unfold entry_of in Hr1. rewrite Hr1 in Hr0. injection Hr0 as <-. unfold commit in Hc.
  destruct (_ =s _); [by injection Hc as <-|]. destruct (_ || _); [done|]. by injection Hc as <-.
Qed.

Lemma decode_returned {T} (decode : json -> option T) r (s : app C) fs a s' fs' :
  (decodeJournalResponse decode r : app_io T) s fs = Returned a s' fs' ->
  exists v, json_parse (jr_Response r) = Some v /\ decode v = Some a.
Proof.
  unfold decodeJournalResponse. destruct (json_parse (jr_Response r)) as [v|]; cbn; [|done].
  destruct (decode v) as [b|] eqn:Hv; [|done]. intros [= <- _ _]. by exists v.
Qed.

(** What is in the journal of a request that was answered with [response]: this
    or JSON equal to it *)
Lemma mark_equal (at_ : moment C) kind id hash v (s : app C) fs r s' fs' :
  mark at_ kind id hash v s fs = Returned r s' fs' -> jr_Response r = json_text v \/ equalJSON (jr_Response r) (json_text v) = true.
Proof.
  intros H. apply bind_inv in H as (u & s1 & fs1 & _ & H). apply bind_inv in H as (marked & s2 & fs2 & Hm & H).
  destruct marked as [r1|e]; [|done]. injection H as -> _ _. apply in_journal_returned in Hm as (d & Hm & _).
  unfold MarkApplicationJournalMutated in Hm. destruct (_ || _); [done|]. apply update_returned in Hm as (r0 & _ & _ & Hm & _).
  unfold mutate in Hm. destruct (_ || _); [|injection Hm as <-; by left]. rewrite fail_if_ok in Hm. destruct Hm as [Heq [= <-]].
  right. by apply negb_false_iff.
Qed.

(** A response that is returned is the one in the journal. *)
Lemma persist_returned {T} (encode : T -> json) (decode : json -> option T) h (at_ : moment C) kind id hash response (s : app C) fs a s' fs' :
  fair at_ -> persistJournalResponse encode decode at_ kind id hash response s fs = Returned a s' fs' ->
  json_ok h (encode a) -> Z.of_nat h <= maxNestingDepth -> decode (encode a) = Some a ->
  exists v r, recorded kind id hash v s' /\ decode v = Some a /\ json_parse (jr_Response r) = Some v /\
    (jr_Response r = json_text (encode response) \/ equalJSON (jr_Response r) (json_text (encode response)) = true).
Proof.
  intros Hat H Hok Hh Hdec. unfold persistJournalResponse in H. io_inv.
  match goal with H : mark _ _ _ _ _ _ _ = Returned _ _ _ |- _ => pose proof (mark_equal _ _ _ _ _ _ _ _ _ _ H) as Heq end.
  match goal with H : mark _ _ _ _ _ _ _ = Returned ?r _ _ |- _ => apply mark_returned in H as (r' & Hr' & Hb & Ha & Hp); [|done]; rename r into record end.
  match goal with H : settle _ _ _ _ ?s1 _ = Returned _ ?s2 _ |- _ =>
    pose proof (moves_returned _ _ _ _ _ _ _ (quiet_settle at_ kind id hash s1 Hat) H) as [Hsteps _] end.
  destruct (negb _) eqn:Htext.
  - pose proof H as (v & Hv & Hd)%decode_returned. exists v, record. split_and!; [|done..].
    pose proof (leaves_returned _ _ _ _ _ _ (leaves_decode decode record _) H) as ->.
    eapply recorded_steps; [exact Hsteps|]. exists r'. by rewrite Hp.
  - io_inv. bool_props. assert (json_parse (jr_Response record) = Some (encode a)) as Hrec by by rewrite Htext, (parse_text h).
    exists (encode a), record. split_and!; [|done..]. eapply recorded_steps; [exact Hsteps|]. exists r'. by rewrite Hp.
Qed.

Lemma knows_recorded kind id hash (s : app C) r :
  knows kind id hash s (Told r) -> exists v, json_parse (jr_Response r) = Some v /\ recorded kind id hash v s.
Proof.
  intros (Hr & Hb & Ha). pose proof (answered_valid r ltac:(apply Hb) Ha) as [v Hv]%json_valid_parses. exists v. split; [done|]. by exists r.
Qed.

(** A replayed record has the answer that is in the journal. *)
Lemma settled_returned (at_ : moment C) kind id hash r v (s : app C) fs r' s' fs' :
  fair at_ -> knows kind id hash s (Told r) -> json_parse (jr_Response r) = Some v -> settled at_ r s fs = Returned r' s' fs' ->
  recorded kind id hash v s' /\ json_parse (jr_Response r') = Some v.
Proof.
  intros Hat Hk Hv H. pose proof (knows_recorded _ _ _ _ _ Hk) as (v' & Hv' & Hrec). rewrite Hv in Hv'. injection Hv' as <-.
  destruct Hk as (_ & (_ & Hkind & Hid & Hhash) & _). unfold settled in H. destruct (_ =s _); [|io_inv; done].
  rewrite Hkind, Hid, Hhash in H. by eapply settle_returned.
Qed.
Lemma replay_returned {T} (decode : json -> option T) (at_ : moment C) kind id hash r v (s : app C) fs a s' fs' :
  fair at_ -> knows kind id hash s (Told r) -> json_parse (jr_Response r) = Some v ->
  replayJournalResponse decode at_ r s fs = Returned a s' fs' -> recorded kind id hash v s' /\ decode v = Some a.
Proof.
  intros Hat Hk Hv H. unfold replayJournalResponse in H. io_inv.
  match goal with H : settled _ _ _ _ = _ |- _ => eapply settled_returned in H as [Hrec Hp]; [|done..] end.
  pose proof H as (v' & Hv' & Hd)%decode_returned. rewrite Hp in Hv'. injection Hv' as <-. split; [|done].
  by pose proof (leaves_returned _ _ _ _ _ _ (leaves_decode decode _ _) H) as ->.
Qed.

(** ** Starting a run *)

Definition start_hash (request : RunStartRequest) : string := hashBytes (json_text (encode_start request)).

Lemma start_recorded at_ request s fs resp s' fs' :
  fair at_ -> RunStart document_decode defaultDriver at_ request s fs = Returned resp s' fs' -> start_fits resp ->
  exists v, recorded "start" (sq_ClientRequestID request) (start_hash request) v s' /\ decode_start_response v = Some resp.
Proof.
  intros Hat H Hfits. unfold RunStart in H. io_inv. destruct (_ =s _); [done|]. destruct (prepare _ _) as [normalized|[]]; [|done..].
  unfold runStartNormalized, canonicalRequest in H. cbv beta iota in H. io_inv.
  match goal with H : consult _ _ _ _ _ _ _ = _ |- _ => apply consult_returned in H as Hk end.
  match goal with k : told |- _ => destruct k as [|r|r] end.
  1, 2: unfold carry_out_start in H; io_inv; destruct (capability_gaps _ _ _ _ _); [|done]; io_inv;
    match goal with r : result CoreError _ |- _ => destruct r; [|done] end;
    eapply (persist_returned _ _ 1) in H; [destruct H as (v & ? & Hv & Hd & _); by exists v|done|apply encode_start_response_ok|by vm_compute|by apply decode_start_response_encode].
  pose proof (knows_recorded _ _ _ _ _ Hk) as (v & Hv & _). exists v. by eapply replay_returned.
Qed.

(** A request that has been answered is told so, if its payload is the same. *)
Lemma consult_answered (at_ : moment C) kind id hash hash' message v (s : app C) fs known s' fs' :
  fair at_ -> recorded kind id hash v s -> consult at_ kind id hash' message s fs = Returned known s' fs' ->
  hash' = hash /\ exists r, known = Told r /\ knows kind id hash s' (Told r) /\ json_parse (jr_Response r) = Some v.
Proof.
  intros Hat Hrec H. pose proof (moves_returned _ _ _ _ _ _ _ (quiet_consult at_ kind id hash' message s Hat) H) as [Hsteps _].
  eapply recorded_steps in Hrec as (r & Hr & Hb & Ha & Hp); [|exact Hsteps]. clear Hsteps.
  apply bind_inv in H as (u & s1 & fs1 & _ & H). apply bind_inv in H as (told & s2 & fs2 & Hread & H).
  destruct told as [r'|e].
  - apply in_journal_returned in Hread as (d & Hread & Hs2). apply read_journal_returned in Hread as (Hd & Hr' & _). subst d s2.
    destruct (negb _) eqn:Hh; [done|]. bool_props.
    assert (s' = with_journal s1 (as_journal s1)) as -> by (destruct (_ || _); io_inv; done).
    unfold entry_of in Hr. cbn [as_journal with_journal] in Hr. rewrite Hr' in Hr. injection Hr as ->.
    unfold answered in Ha. rewrite Ha in H. io_inv. split; [apply Hb|]. exists r. by split_and!.
  - exfalso. destruct e as [[]| | | | | | | | | |]; try discriminate H. unfold in_journal in Hread.
    destruct (ReadApplicationJournal _ _ _ _) as [r' d fs3|e d fs3|d] eqn:Hm; [done| |done]. injection Hread as -> <- ->. injection H as <- <- <-.
    apply read_journal_missing in Hm as [-> Hm]. unfold entry_of in Hr. cbn [as_journal with_journal] in Hr. congruence.
Qed.

(** Replaying never calls the core. *)
Lemma start_again_quiet at_ request hash v s :
  fair at_ -> recorded "start" (sq_ClientRequestID request) hash v s ->
  moves quiet s (RunStart document_decode defaultDriver at_ request).
Proof.
  intros Hat Hrec. unfold RunStart. apply quiet_bind; [apply quiet_leaves, leaves_checked|]. intros _ fs s1 fs1 [_ ->]%checked_inv.
  destruct (_ =s _); [by apply quiet_leaves|]. destruct (prepare _ _) as [|[]]; [|by apply quiet_leaves..].
  unfold runStartNormalized, canonicalRequest. cbv beta iota. apply quiet_bind; [by apply quiet_consult|].
  intros known fs2 s2 fs2' Hc. eapply consult_answered in Hc as (_ & r & -> & _); [|done..]. by apply quiet_replay.
Qed.
Lemma start_again_reply at_ request hash v s fs resp s' fs' :
  fair at_ -> recorded "start" (sq_ClientRequestID request) hash v s ->
  RunStart document_decode defaultDriver at_ request s fs = Returned resp s' fs' ->
  start_hash request = hash /\ decode_start_response v = Some resp.
Proof.
  intros Hat Hrec H. unfold RunStart in H. apply bind_inv in H as (u & s1 & fs1 & [_ ->]%checked_inv & H).
  destruct (_ =s _); [done|]. destruct (prepare _ _) as [|[]]; [|done..]. unfold runStartNormalized, canonicalRequest in H. cbv beta iota in H.
  apply bind_inv in H as (known & s2 & fs2 & Hc & H). eapply consult_answered in Hc as (Hhash & r & -> & Hk & Hp); [|done..].
  split; [done|]. by eapply replay_returned.
Qed.

(** Nothing fails, and there is an answer. *)
Lemma app_bind_works {A B} (m : app_io A) (k : A -> app_io B) s a s' : m s [] = Returned a s' [] -> (m ≫= k) s [] = k a s' [].
Proof. intros H. unfold mbind, io_bind. by rewrite H. Qed.
Lemma in_journal_works {A} (m : journal_io A) (s : app C) a d :
  m (as_journal s) [] = Returned a d [] -> in_journal m s [] = Returned (Ok a) (with_journal s d) [].
Proof. intros H. unfold in_journal. by rewrite H. Qed.

Lemma consult_works (at_ : moment C) kind id hash message v s :
  fair at_ -> recorded kind id hash v s ->
  exists r s', consult at_ kind id hash message s [] = Returned (Told r) s' [] /\ recorded kind id hash v s' /\
    knows kind id hash s' (Told r) /\ json_parse (jr_Response r) = Some v.
Proof.
  intros Hat Hrec. set (s1 := mo_others at_ 0 s). assert (recorded kind id hash v s1) as Hrec1.
  { eapply recorded_steps; [|exact Hrec]. apply Hat. }
  pose proof Hrec1 as (r & Hr & Hb & Ha & Hp). exists r, (with_journal s1 (as_journal s1)). split; [|by split_and!].
  unfold consult. rewrite (app_bind_works _ _ s tt s1) by done.
  rewrite (app_bind_works _ _ _ _ _ (in_journal_works _ _ _ _ (read_journal_works kind id hash r _ Hr Hb))).
  destruct Hb as (_ & _ & _ & ->). rewrite String.eqb_refl. cbn [negb]. unfold answered in Ha. by rewrite Ha.
Qed.
Lemma settle_works (at_ : moment C) kind id hash v s :
  fair at_ -> recorded kind id hash v s -> exists r s', settle at_ kind id hash s [] = Returned r s' [].
Proof.
  intros Hat Hrec. assert (recorded kind id hash v (mo_others at_ 4 s)) as (r & Hr & Hb & Ha & _).
  { eapply recorded_steps; [|exact Hrec]. apply Hat. }
  destruct (commit_works (mo_commit at_) r) as [r' Hr']; [apply Hb|done|].
  destruct (update_works kind id hash _ r r' _ Hr Hb Hr') as [d Hd].
  exists r', (with_journal (mo_others at_ 4 s) d). unfold settle. rewrite (app_bind_works _ _ s tt (mo_others at_ 4 s)) by done.
  by rewrite (app_bind_works _ _ _ _ _ (in_journal_works _ _ _ _ Hd)).
Qed.
Lemma settled_works (at_ : moment C) kind id hash r v s :
  fair at_ -> knows kind id hash s (Told r) -> recorded kind id hash v s -> exists r' s', settled at_ r s [] = Returned r' s' [].
Proof.
  intros Hat (_ & (_ & Hk & Hi & Hh) & _) Hrec. unfold settled. rewrite Hk, Hi, Hh.
  destruct (_ =s _); [by eapply settle_works|by eexists _, _].
Qed.
Lemma replay_works {T} (decode : json -> option T) (at_ : moment C) kind id hash r v a s :
  fair at_ -> knows kind id hash s (Told r) -> json_parse (jr_Response r) = Some v -> recorded kind id hash v s -> decode v = Some a ->
  exists s', replayJournalResponse decode at_ r s [] = Returned a s' [].
Proof.
  intros Hat Hk Hp Hrec Hd. destruct (settled_works at_ kind id hash r v s) as (r' & s' & Hs); [done..|].
  exists s'. unfold replayJournalResponse. rewrite (app_bind_works _ _ _ _ _ Hs).
  eapply settled_returned in Hs as [_ Hp']; [|done..]. unfold decodeJournalResponse. by rewrite Hp'; cbn; rewrite Hd.
Qed.

(** C5: A start request that has been answered is answered for good: whatever has
    become of the journal since, no later request of the same id calls the core, it
    gets this very response or none, and none if it asks for anything else; the
    same request does get it when nothing fails. *)
Theorem start_answered_once at_ request s fs resp s' fs' s1 at1 request1 fs1 :
  fair at_ -> RunStart document_decode defaultDriver at_ request s fs = Returned resp s' fs' -> start_fits resp ->
  fair at1 -> journal_steps (as_journal s') (as_journal s1) -> sq_ClientRequestID request1 = sq_ClientRequestID request ->
  let outcome := RunStart document_decode defaultDriver at1 request1 s1 fs1 in
  as_calls (files_after outcome) = as_calls s1 /\
  (forall resp1, reply_of outcome = Some resp1 -> resp1 = resp /\ start_hash request1 = start_hash request) /\
  (request1 = request -> fs1 = [] -> reply_of outcome = Some resp).
Proof.
  intros Hat H Hfits Hat1 Hsteps Hid outcome. eapply start_recorded in H as Hrec; [|done..]. destruct Hrec as (v & Hrec & Hv).
  eapply recorded_steps in Hrec; [|exact Hsteps]. rewrite <- Hid in Hrec. split_and!.
  - by eapply (start_again_quiet at1 request1 _ v s1 Hat1 Hrec fs1).
  - intros resp1 Hr. unfold outcome in *. destruct (RunStart _ _ at1 _ _ _) as [a s2 fs2| |] eqn:Hrun; [|done..]. injection Hr as ->.
    eapply start_again_reply in Hrun as [Hhash Hv']; [|done..]. rewrite Hv in Hv'. by injection Hv' as ->.
  - intros -> ->. unfold outcome. unfold RunStart in H |- *. apply bind_inv in H as (u & s2 & fs2 & [Hext _]%checked_inv & H).
    rewrite Hext. destruct (_ =s _) eqn:Hproject; [done|]. destruct (prepare _ _) as [normalized|[]] eqn:Hprep; [|done..].
    rewrite (app_bind_works _ _ s1 u s1) by done. unfold runStartNormalized, canonicalRequest. cbv beta iota.
    fold (start_hash request). destruct (consult_works at1 "start" (sq_ClientRequestID request) (start_hash request)
      "clientRequestId is already bound to a different payload" v s1) as (r & s3 & Hc & Hrec3 & Hk & Hp); [done..|].
    rewrite (app_bind_works _ _ _ _ _ Hc). destruct (replay_works decode_start_response at1 _ _ _ r v resp s3 Hat1 Hk Hp Hrec3 Hv) as [s4 Hs4].
    by rewrite Hs4.
Qed.

(** ** Acting on a run *)

Definition action_hash (request : RunActionRequest) : string := hashBytes (json_text (encode_action request)).

(** The entry tells a response and no error. *)
Definition tells (v : json) (resp : RunActionResponse) : Prop :=
  decode_action_response v = Some resp /\ forall e, decode_action_error v <> Some (Some e).

Lemma replay_action_returned (at_ : moment C) kind id hash r v (s : app C) fs a s' fs' :
  fair at_ -> knows kind id hash s (Told r) -> json_parse (jr_Response r) = Some v ->
  replayActionJournalResponse at_ r s fs = Returned a s' fs' -> recorded kind id hash v s' /\ tells v a.
Proof.
  intros Hat Hk Hv H. unfold replayActionJournalResponse in H. apply bind_inv in H as (r' & s1 & fs1 & Hs & H).
  eapply settled_returned in Hs as [Hrec _]; [|done..]. rewrite Hv, some_bind in H.
  assert (forall s2 fs2, (decodeJournalResponse decode_action_response r : app_io _) s1 fs1 = Returned a s2 fs2 ->
    s2 = s1 /\ decode_action_response v = Some a) as Hd.
  { intros s2 fs2 Hr. pose proof (leaves_returned _ _ _ _ _ _ (leaves_decode _ r _) Hr).
    apply decode_returned in Hr as (v' & Hv' & Hr). rewrite Hv in Hv'. by injection Hv' as <-. }
  unfold tells. destruct (decode_action_error v) as [[e|]|]; [done|..]; by destruct (Hd _ _ H) as [-> Ha].
Qed.
Lemma replay_action_works (at_ : moment C) kind id hash r v a s :
  fair at_ -> knows kind id hash s (Told r) -> json_parse (jr_Response r) = Some v -> recorded kind id hash v s -> tells v a ->
  exists s', replayActionJournalResponse at_ r s [] = Returned a s' [].
Proof.
  intros Hat Hk Hp Hrec [Hd He]. destruct (settled_works at_ kind id hash r v s) as (r' & s' & Hs); [done..|].
  exists s'. unfold replayActionJournalResponse. rewrite (app_bind_works _ _ _ _ _ Hs), Hp, some_bind.
  unfold decodeJournalResponse. rewrite Hp, some_bind, Hd. destruct (decode_action_error v) as [[e|]|] eqn:Hv; [by destruct (He e)|done..].
Qed.

Lemma no_error members : member "error" members = None -> forall e, decode_action_error (JObj members) <> Some (Some e).
Proof. intros Hm e. unfold decode_action_error, decode_members. rewrite some_bind. unfold field. by rewrite Hm. Qed.

Lemma response_tells r v : json_parse (jr_Response r) = Some v -> forall response,
  jr_Response r = json_text (encode_action_response response) \/
  equalJSON (jr_Response r) (json_text (encode_action_response response)) = true ->
  forall e, decode_action_error v <> Some (Some e).
Proof.
  intros Hv response Heq. assert (member "error" (fields_of [
    Some ("apiVersion", jstring (ap_APIVersion response)); Some ("actionId", jstring (ap_ActionID response));
    Some ("runId", jstring (ap_RunID response)); Some ("type", jstring (ap_Type response));
    Some ("stateVersion", jint (ap_StateVersion response)); Some ("phase", jstring (ap_Phase response));
    omitempty (ap_Conclusion response =s "") "conclusion" (jstring (ap_Conclusion response))]) = None) as Hnone by find_member.
  pose proof (parse_text 1 _ (encode_action_response_ok response) ltac:(by vm_compute)) as Hp.
  destruct Heq as [Heq|Heq].
  - rewrite Heq, Hp in Hv. injection Hv as <-. by apply no_error.
  - eapply equalJSON_member in Heq as (members & -> & Hm); [|done|exact Hp]. by apply no_error, Hm.
Qed.

Lemma persist_action_returned at_ id hash response (s : app C) fs resp s' fs' :
  fair at_ -> action_response_fits resp ->
  persistJournalResponse encode_action_response decode_action_response at_ "action" id hash response s fs = Returned resp s' fs' ->
  exists v, recorded "action" id hash v s' /\ tells v resp.
Proof.
  intros Hat Hfits H. eapply (persist_returned _ _ 1) in H as (v & r & Hrec & Hd & Hv & Heq);
    [|done|apply encode_action_response_ok|by vm_compute|by apply decode_action_response_encode].
  exists v. split; [done|]. split; [done|]. by eapply response_tells.
Qed.

Lemma refused_after {A B T} (m : app_io A) (k : app_io B) e (s : app C) fs (a : T) s' fs' :
  (_ ← m; _ ← k; refuse e) s fs <> Returned a s' fs'.
Proof. unfold mbind, io_bind. destruct (m s fs) as [b s1 fs1| |]; [|done..]. by destruct (k s1 fs1). Qed.
Lemma persist_error_returned {T} at_ id hash e (s : app C) fs (a : T) s' fs' :
  persistActionError at_ id hash e s fs <> Returned a s' fs'.
Proof. unfold persistActionError. apply refused_after. Qed.

Lemma action_recorded at_ request s fs resp s' fs' :
  fair at_ -> RunAction at_ request s fs = Returned resp s' fs' -> action_response_fits resp ->
  exists v, recorded "action" (aq_ActionID request) (action_hash request) v s' /\ tells v resp.
Proof.
  intros Hat H Hfits. unfold RunAction in H. apply bind_inv in H as (u & s1 & fs1 & _ & H). destruct (_ =s _); [done|].
  destruct (_ =? _); [done|]. unfold canonicalRequest in H. cbv beta iota in H. apply bind_inv in H as (known & s2 & fs2 & Hc & H).
  apply consult_returned in Hc as Hk.
  assert (carry_out_action at_ request (action_hash request) (json_text (encode_action request)) known s2 fs2 = Returned resp s' fs' \/
    exists r, known = Told r) as [Hcarry|[r ->]] by (destruct known; eauto).
  - clear H. unfold carry_out_action in Hcarry. apply bind_inv in Hcarry as (view & s3 & fs3 & _ & H). destruct view as [view|]; [|done].
    destruct (sv_Run view) as [current|]; [|done]. destruct (ws_ActionReceipts current !! _) as [receipt|].
    { destruct (negb _); [done|]. by eapply persist_action_returned. }
    destruct (negb _); [destruct known; [done|by apply persist_error_returned in H..]|].
    apply bind_inv in H as (u4 & s4 & fs4 & _ & H). apply bind_inv in H as (r5 & s5 & fs5 & _ & H).
    apply bind_inv in H as (u6 & s6 & fs6 & _ & H). apply bind_inv in H as (outcome & s7 & fs7 & _ & H).
    unfold answer_action in H. destruct outcome as [snapshot|e]; [by eapply persist_action_returned|].
    destruct (negb _); [done|]. destruct core_abort; [|by apply persist_error_returned in H].
    apply bind_inv in H as (aborted & s8 & fs8 & _ & H). destruct aborted; [by apply persist_error_returned in H|done].
  - pose proof (knows_recorded _ _ _ _ _ Hk) as (v & Hv & _). exists v. by eapply replay_action_returned.
Qed.

Lemma action_again_quiet at_ request hash v s :
  fair at_ -> recorded "action" (aq_ActionID request) hash v s -> moves quiet s (RunAction at_ request).
Proof.
  intros Hat Hrec. unfold RunAction. apply quiet_bind; [apply quiet_leaves, leaves_checked|]. intros _ fs s1 fs1 [_ ->]%checked_inv.
  destruct (_ =s _); [by apply quiet_leaves|]. destruct (_ =? _); [by apply quiet_leaves|].
  unfold canonicalRequest. cbv beta iota. apply quiet_bind; [by apply quiet_consult|].
  intros known fs2 s2 fs2' Hc. eapply consult_answered in Hc as (_ & r & -> & _); [|done..]. by apply quiet_replay_action.
Qed.
Lemma action_again_reply at_ request hash v s fs resp s' fs' :
  fair at_ -> recorded "action" (aq_ActionID request) hash v s -> RunAction at_ request s fs = Returned resp s' fs' ->
  action_hash request = hash /\ tells v resp.
Proof.
  intros Hat Hrec H. unfold RunAction in H. apply bind_inv in H as (u & s1 & fs1 & [_ ->]%checked_inv & H).
  destruct (_ =s _); [done|]. destruct (_ =? _); [done|]. unfold canonicalRequest in H. cbv beta iota in H.
  apply bind_inv in H as (known & s2 & fs2 & Hc & H). eapply consult_answered in Hc as (Hhash & r & -> & Hk & Hp); [|done..].
  split; [done|]. by eapply replay_action_returned.
Qed.

(** C6: An action that has been answered is answered for good: no later action of
    the same id calls the core, it gets this very response or none, and none if it
    is another action; the same action does get it when nothing fails. *)
Theorem action_answered_once at_ request s fs resp s' fs' s1 at1 request1 fs1 :
  fair at_ -> RunAction at_ request s fs = Returned resp s' fs' -> action_response_fits resp ->
  fair at1 -> journal_steps (as_journal s') (as_journal s1) -> aq_ActionID request1 = aq_ActionID request ->
  let outcome := RunAction at1 request1 s1 fs1 in
  as_calls (files_after outcome) = as_calls s1 /\
  (forall resp1, reply_of outcome = Some resp1 -> resp1 = resp /\ action_hash request1 = action_hash request) /\
  (request1 = request -> fs1 = [] -> reply_of outcome = Some resp).
Proof.
  intros Hat H Hfits Hat1 Hsteps Hid outcome. eapply action_recorded in H as Hrec; [|done..]. destruct Hrec as (v & Hrec & Hv).
  eapply recorded_steps in Hrec; [|exact Hsteps]. rewrite <- Hid in Hrec. split_and!.
  - by eapply (action_again_quiet at1 request1 _ v s1 Hat1 Hrec fs1).
  - intros resp1 Hr. unfold outcome in *. destruct (RunAction at1 _ _ _) as [a s2 fs2| |] eqn:Hrun; [|done..]. injection Hr as ->.
    eapply action_again_reply in Hrun as [Hhash [Hv' _]]; [|done..]. destruct Hv as [Hv _]. rewrite Hv in Hv'. by injection Hv' as ->.
  - intros -> ->. unfold outcome. unfold RunAction in H |- *. apply bind_inv in H as (u & s2 & fs2 & [Hext _]%checked_inv & H).
    rewrite Hext. destruct (_ =s _); [done|]. destruct (_ =? _); [done|].
    rewrite (app_bind_works _ _ s1 u s1) by done. unfold canonicalRequest. cbv beta iota.
    fold (action_hash request). destruct (consult_works at1 "action" (aq_ActionID request) (action_hash request)
      "actionId is already bound to a different payload" v s1) as (r & s3 & Hc & Hrec3 & Hk & Hp); [done..|].
    rewrite (app_bind_works _ _ _ _ _ Hc). destruct (replay_action_works at1 _ _ _ r v resp s3 Hat1 Hk Hp Hrec3 Hv) as [s4 Hs4].
    by rewrite Hs4.
Qed.
End theory.

(** ** A request that is made twice *)
#[local] Existing Instance demo_sha.
#[local] Existing Instance canonical_range.

Lemma demo_fair id : fair (demo_moment id).
Proof. by split_and!. Qed.

Definition demo_after : app demo_core := files_after demo_started.
Definition demo_response : RunStartResponse :=
  {| sp_APIVersion := ApplicationAPIVersion; sp_RunID := "run-1"; sp_StateVersion := 1; sp_Attach := "fishyume attach run-1" |}.

(** The process dies after the run has started, and the request comes again. *)
Definition demo_dies : list fate := repeat Works 8 ++ [Dies].
Definition demo_ops : list (app_op demo_core * list fate) :=
  [(OpStart (demo_moment "1") (demo_request "a" "/work/app"), demo_dies);
   (OpStart (demo_moment "2") (demo_request "a" "/work/app"), [])].
Definition demo_trace : app demo_core := @after_ops canonical_range demo_sha _ (demo_Core true) demo_decode "codex" demo_ops demo_empty.

Lemma requests_once_witness :
  match as_calls demo_trace with [c1; c2] => agree c1 c2 | _ => False end.
Proof.
  pose proof (@requests_once canonical_range demo_sha _ (demo_Core true) demo_decode "codex" demo_ops demo_empty) as H.
  assert (Forall (fun '(op, _) => fair_op op) demo_ops) as Hfair by (repeat constructor; try done; apply demo_fair).
  fold demo_trace in H. destruct (as_calls demo_trace) as [|c1 [|c2 [|c3 l]]] eqn:Hc;
    [vm_compute in Hc; discriminate Hc..| |vm_compute in Hc; discriminate Hc].
  apply (H c1 c2 Hfair); [reflexivity|by left|right; by left].
Defined.

Definition fates_left {D E A} (o : io_end D E A) : list fate := match o with Returned _ _ fs | Raised _ _ fs => fs | Died _ => [] end.
Lemma returned_reply {D E A} (o : io_end D E A) a fs : (reply_of o, fates_left o) = (Some a, fs) -> o = Returned a (files_after o) fs.
Proof. destruct o; intros [=]; by subst. Qed.
Lemma demo_started_returned : demo_started = Returned demo_response demo_after [].
Proof. unfold demo_after. apply (returned_reply demo_started). vm_compute. reflexivity. Qed.
Lemma demo_response_fits : start_fits demo_response.
Proof. vm_compute. by split_and!. Qed.

Lemma start_answered_once_witness :
  reply_of (demo_RunStart true (demo_moment "2") (demo_request "a" "/work/app") demo_after []) = Some demo_response /\
  as_calls (files_after (demo_RunStart true (demo_moment "2") (demo_request "a" "/else") demo_after [])) = as_calls demo_after.
Proof.
  pose proof demo_started_returned as Hs. pose proof demo_response_fits as Hfits.
  assert (journal_steps (as_journal demo_after) (as_journal demo_after)) as Hsteps by done.
  unfold demo_RunStart, demo_started in *. split.
  - pose proof (@start_answered_once canonical_range demo_sha _ (demo_Core true) demo_decode "codex" (demo_moment "1")
      (demo_request "a" "/work/app") demo_empty [] demo_response demo_after [] demo_after (demo_moment "2")
      (demo_request "a" "/work/app") [] (demo_fair "1") Hs Hfits (demo_fair "2") Hsteps eq_refl) as (_ & _ & H). exact (H eq_refl eq_refl).
  - pose proof (@start_answered_once canonical_range demo_sha _ (demo_Core true) demo_decode "codex" (demo_moment "1")
      (demo_request "a" "/work/app") demo_empty [] demo_response demo_after [] demo_after (demo_moment "2")
      (demo_request "a" "/else") [] (demo_fair "1") Hs Hfits (demo_fair "2") Hsteps eq_refl) as (H & _). exact H.
Defined.

(** The run is cancelled, twice. *)
Definition demo_RunAction : moment demo_core -> RunActionRequest -> io (app demo_core) AppError RunActionResponse :=
  @RunAction demo_sha _ (demo_Core true).
Definition demo_acted : io_end (app demo_core) AppError RunActionResponse :=
  demo_RunAction (demo_moment "1") (demo_action "x" "run-1" 1) demo_after [].
Definition demo_acted_after : app demo_core := files_after demo_acted.
Definition demo_action_response : RunActionResponse := {|
  ap_APIVersion := ApplicationAPIVersion; ap_ActionID := "x"; ap_RunID := "run-1"; ap_Type := ActionCancel; ap_StateVersion := 2;
  ap_Phase := PhaseRunning; ap_Conclusion := "" |}.

Lemma demo_acted_returned : demo_acted = Returned demo_action_response demo_acted_after [].
Proof. unfold demo_acted_after. apply (returned_reply demo_acted). vm_compute. reflexivity. Qed.
Lemma demo_action_response_fits : action_response_fits demo_action_response.
Proof. vm_compute. by split_and!. Qed.

Lemma action_answered_once_witness :
  reply_of (demo_RunAction (demo_moment "2") (demo_action "x" "run-1" 1) demo_acted_after []) = Some demo_action_response.
Proof.
  pose proof demo_acted_returned as Hs. pose proof demo_action_response_fits as Hfits.
  assert (journal_steps (as_journal demo_acted_after) (as_journal demo_acted_after)) as Hsteps by done.
  unfold demo_RunAction, demo_acted in *.
  pose proof (@action_answered_once demo_sha _ (demo_Core true) (demo_moment "1") (demo_action "x" "run-1" 1) demo_after []
    demo_action_response demo_acted_after [] demo_acted_after (demo_moment "2") (demo_action "x" "run-1" 1) []
    (demo_fair "1") Hs Hfits (demo_fair "2") Hsteps eq_refl) as (_ & _ & H). exact (H eq_refl eq_refl).
Defined.
