(* ===== verification/ApplicationRecovery.v ===== *)
(** * Recovering pending requests

    What the journal gives back of a request that was not answered, and what comes
    of it when the core does not accept it. *)

From S2P Require Import Prelude GoText Json JsonTree JsonTreeTheory JsonSound JsonStrings Routing Resolver Catalog Workflow.
From S2P Require Import Topology Template Validate Context Backend RunState Files RunStore Journal JournalTheory AppRequests AppCodecs.
From S2P Require Import Application ApplicationTheory Handoff ApplicationOnce.
#[local] Open Scope string_scope.
#[local] Open Scope list_scope.
#[local] Open Scope Z_scope.

Section theory.
  Context {GR : GoRange} {SHA : Sha256} {C : Type} {CC : Core C} (document_decode : string -> string -> option Document).
  Context (defaultDriver : string).

Notation app_io := (io (app C) AppError).

(** Nobody else works on the files. *)
Definition alone (at_ : moment C) : Prop := forall k s, mo_others at_ k s = s.

(** The request is begun and not answered. *)
Definition started (request : RunStartRequest) (r : ApplicationJournalRecord) (s : app C) : Prop :=
  entry_of "start" (sq_ClientRequestID request) s = Holds r /\ belongs r "start" (sq_ClientRequestID request) (start_hash request) /\
  jr_State r = JournalIntent /\ json_parse (jr_Request r) = Some (encode_start request).

(** The core does not start what the record stands for. *)
Definition refused (request : RunStartRequest) (r : ApplicationJournalRecord) : Prop :=
  forall normalized c fs, prepare document_decode request = Ok normalized ->
    reply_of (core_start (start_call request (trim_space (sq_Project request)) normalized r) c fs) = None.

(** It comes to nothing, and the journal stays as it is. *)
Definition fruitless {A} (s : app C) (m : app_io A) : Prop :=
  forall fs, as_journal (files_after (m s fs)) = as_journal s /\ reply_of (m s fs) = None.

Lemma fruitless_refuse {A} e s : fruitless s (refuse e : app_io A).
Proof. by intros fs. Qed.
Lemma fruitless_bind {A B} (m : app_io A) (k : A -> app_io B) s :
  (forall fs, as_journal (files_after (m s fs)) = as_journal s) ->
  (forall a fs s' fs', m s fs = Returned a s' fs' -> fruitless s' (k a)) -> fruitless s (m ≫= k).
Proof.
  intros Hm Hk fs. specialize (Hm fs). unfold mbind, io_bind. destruct (m s fs) as [a s' fs'|e s' fs'|s'] eqn:Hr; cbn in *; [|done..].
  rewrite <- Hm. by eapply Hk.
Qed.
Lemma fruitless_bind_l {A B} (m : app_io A) (k : A -> app_io B) s : fruitless s m -> fruitless s (m ≫= k).
Proof. intros Hm fs. specialize (Hm fs). unfold mbind, io_bind. destruct (m s fs) as [a s' fs'|e s' fs'|s']; destruct Hm as [Hj Hr]; [discriminate Hr|done..]. Qed.

Lemma journal_unchanged {A} (m : journal_io A) (s : app C) : leaves (as_journal s) m -> forall fs, as_journal (files_after (in_journal m s fs)) = as_journal s.
Proof. intros Hm fs. specialize (Hm fs). unfold in_journal. by destruct (m (as_journal s) fs). Qed.
Lemma others_alone (at_ : moment C) k s : alone at_ -> leaves s (others (mo_others at_ k) : app_io unit).
Proof. intros Hat fs. cbn. apply Hat. Qed.
Lemma others_alone_inv (at_ : moment C) k s fs u s' fs' : alone at_ -> (others (mo_others at_ k) : app_io unit) s fs = Returned u s' fs' -> s' = s.
Proof. intros Hat H. injection H as <- <- <-. apply Hat. Qed.

Lemma leaves_read_journal (kind id : string) (d : journal) : leaves d (ReadApplicationJournal kind id).
Proof. unfold ReadApplicationJournal. io_leaves. Qed.

Lemma leaves_list_pending (d : journal) : leaves d ListPendingApplicationJournals.
Proof.
  unfold ListPendingApplicationJournals. assert (forall paths : list (string * string), leaves d (pending_of paths)) as Hp.
  { intros paths. induction paths as [|path paths IH]; cbn [pending_of]; [done|]. io_leaves. }
  io_leaves; apply Hp.
Qed.

(** The record that is found is the one that is there. *)
Lemma consult_alone (at_ : moment C) kind id hash message (s : app C) :
  alone at_ -> (forall fs, as_journal (files_after (consult at_ kind id hash message s fs)) = as_journal s) /\
  forall r fs known s' fs', entry_of kind id s = Holds r -> jr_State r = JournalIntent ->
    consult at_ kind id hash message s fs = Returned known s' fs' -> known = Pending r /\ as_journal s' = as_journal s.
Proof.
  intros Hat. split.
  - intros fs. unfold consult, mbind, io_bind, others. rewrite Hat.
    pose proof (journal_unchanged _ s (leaves_read_journal kind id (as_journal s)) fs) as Hj.
    destruct (in_journal _ s fs) as [[r|[[]| | | | | | | | | |]] s1 fs1| |]; try done.
    destruct (negb _); [done|]. by destruct (_ || _).
  - intros r fs known s' fs' Hr Hs H. apply bind_inv in H as (u & s1 & fs1 & Ho & H). apply others_alone_inv in Ho as ->; [|done].
    apply bind_inv in H as (read & s2 & fs2 & Hread & H). destruct read as [r'|e].
    + apply in_journal_returned in Hread as (d & Hread & ->). apply read_journal_returned in Hread as (-> & Hr' & _).
      unfold entry_of in Hr. rewrite Hr in Hr'. injection Hr' as <-. destruct (negb _); [done|].
      rewrite Hs in H. by injection H as <- <- _.
    + exfalso. destruct e as [[]| | | | | | | | | |]; try discriminate H. unfold in_journal in Hread.
      destruct (ReadApplicationJournal _ _ _ _) as [r' d fs3|e d fs3|d] eqn:Hm; [done| |done]. injection Hread as -> <- ->.
      apply read_journal_missing in Hm as [_ Hm]. unfold entry_of in Hr. congruence.
Qed.

Lemma carry_out_refused (at_ : moment C) request project normalized hash canonical r (s : app C) :
  alone at_ -> (forall c fs, reply_of (core_start (start_call request project normalized r) c fs) = None) ->
  fruitless s (carry_out_start defaultDriver at_ request project normalized hash canonical (Pending r)).
Proof.
  intros Hat Href. unfold carry_out_start. apply fruitless_bind; [done|]. intros reports fs1 s1 fs1' [= _ <- _].
  destruct (capability_gaps _ _ _ _ _); [|apply fruitless_refuse]. apply fruitless_bind; [done|]. intros r' fs2 s2 fs2' [= <- <- _].
  apply fruitless_bind; [by intros fs; rewrite others_alone|]. intros u fs3 s3 fs3' Ho. apply others_alone_inv in Ho as ->; [|done].
  apply fruitless_bind; [done|]. intros u4 fs4 s4 fs4' [= _ <- _]. apply fruitless_bind.
  - intros fs. unfold in_core. by destruct (core_start _ _ _).
  - intros outcome fs5 s5 fs5' Hc. unfold in_core in Hc. cbn [as_core] in Hc. specialize (Href (as_core s) fs5).
    destruct (core_start _ _ fs5) as [snapshot c f|e c f|c]; [done| |done]. injection Hc as <- <- <-. apply fruitless_refuse.
Qed.

(** A start that the core refuses comes to nothing, as often as it is tried. *)
Lemma start_refused at_ request r s :
  alone at_ -> refused request r -> entry_of "start" (sq_ClientRequestID request) s = Holds r -> jr_State r = JournalIntent ->
  fruitless s (RunStart document_decode defaultDriver at_ request).
Proof.
  intros Hat Href Hr Hs. unfold RunStart. apply fruitless_bind; [intros fs; by rewrite leaves_checked|]. intros u fs1 s1 fs1' [_ ->]%checked_inv.
  destruct (_ =s _); [apply fruitless_refuse|]. destruct (prepare _ _) as [normalized|[]] eqn:Hprep; [|apply fruitless_refuse..].
  unfold runStartNormalized, canonicalRequest. cbv beta iota.
  destruct (consult_alone at_ "start" (sq_ClientRequestID request) (hashBytes (json_text (encode_start request)))
    "clientRequestId is already bound to a different payload" s Hat) as [Hj Hknown].
  apply fruitless_bind; [done|]. intros known fs2 s2 fs2' Hc. eapply Hknown in Hc as [-> _]; [|done..]. apply carry_out_refused; [done|]. intros c fs'. by apply Href.
Qed.

(** It is the oldest of the pending records. *)
Definition oldest (r : ApplicationJournalRecord) (d : journal) : Prop :=
  forall path r', entry path d = Holds r' -> jr_State r' <> JournalCommitted -> r' <> r -> journal_before r r' = true.

Lemma oldest_first (r : ApplicationJournalRecord) (d : journal) fs records d' fs' :
  oldest r d -> (exists path, path.1 = "start" /\ entry path d = Holds r) -> jr_State r <> JournalCommitted ->
  ListPendingApplicationJournals d fs = Returned records d' fs' -> d' = d /\ exists rest, records = r :: rest.
Proof.
  intros Hold (path & Hk & Hr) Hs H. apply list_pending_returned in H as (-> & Hsorted & Hin & Hall). split; [done|].
  pose proof (Hall path r Hk Hr Hs) as Hmem. destruct records as [|r0 rest]; [by apply elem_of_nil in Hmem|]. exists rest.
  f_equal. destruct (decide (r0 = r)) as [|Hne]; [done|]. exfalso. inversion Hsorted as [|? ? _ Hfirst]; subst.
  apply elem_of_cons in Hmem as [-> |Hmem]; [done|]. rewrite List.Forall_forall in Hfirst.
  specialize (Hfirst r (proj1 (list_elem_of_In _ _) Hmem)). unfold not_after in Hfirst.
  destruct (Hin r0) as (path0 & Hr0 & Hs0); [by left|]. rewrite (Hold path0 r0) in Hfirst; done.
Qed.

Lemma started_decodes h request r s :
  start_request_fits h request -> Z.of_nat (5 + h) <= maxNestingDepth -> started request r s ->
  (v ← json_parse (jr_Request r); decode_start v) = Some (recovered request).
Proof. intros Hfits Hh (_ & _ & _ & ->). rewrite some_bind. by eapply decode_start_encode. Qed.

(** C20: A start request that the core refuses stays in the journal as begun, since
    only the errors of actions are recorded; and as long as it is the oldest one,
    recovery comes to nothing, whatever fails, and changes nothing, so it will not
    succeed the next time either: no request after it is recovered, and the engine,
    which recovers before it serves, does not start. *)
Theorem refused_start_blocks_recovery h at_ request r s fs :
  (forall n, alone (at_ n)) -> start_request_fits h request -> Z.of_nat (5 + h) <= maxNestingDepth ->
  started request r s -> refused (recovered request) r -> oldest r (as_journal s) ->
  let outcome := Recover document_decode defaultDriver at_ s fs in
  reply_of outcome = None /\ as_journal (files_after outcome) = as_journal s.
Proof.
  intros Hat Hfits Hh Hst Href Hold outcome. cut (fruitless s (Recover document_decode defaultDriver at_)).
  { intros Hf. destruct (Hf fs) as [Hj Hr]. by split. }
  pose proof Hst as (Hr & (_ & Hk & _) & Hs & _). apply fruitless_bind.
  { apply journal_unchanged, leaves_list_pending. }
  intros records fs1 s1 fs1' Hl. destruct records as [records|]; [|apply fruitless_refuse].
  apply in_journal_returned in Hl as (d & Hl & ->). eapply oldest_first in Hl as [-> [rest ->]];
    [|done|by exists (applicationJournalPath "start" (sq_ClientRequestID request))|by rewrite Hs]. cbn [recover_records]. apply fruitless_bind_l.
  unfold recover_record. rewrite Hk, String.eqb_refl, (started_decodes h request r s) by done.
  apply fruitless_bind_l. by eapply start_refused.
Qed.

(** C26: What is recovered is what was asked for: the record that is begun for a
    start or an action request, read back from its file, decodes to the same
    request, up to the escapes in the text of a workflow document, with the same
    hash; and the response that is recorded decodes to the response. *)
Theorem journal_round_trip h start action started_ acted kind id hash run now :
  Z.of_nat (5 + h) <= maxNestingDepth -> start_request_fits h start -> action_request_fits h action ->
  start_fits started_ -> action_response_fits acted ->
  let written request := reread (intent_record kind id hash (canonicalRequest request).2 run now) in
  let answered_with response := reread (with_state (written (encode_start start)) JournalMutated (json_text response) now) in
  (v ← json_parse (jr_Request (written (encode_start start))); decode_start v) = Some (recovered start) /\
  canonicalRequest (encode_start (recovered start)) = canonicalRequest (encode_start start) /\
  (v ← json_parse (jr_Request (written (encode_action action))); decode_action v) = Some action /\
  (v ← json_parse (jr_Response (answered_with (encode_start_response started_))); decode_start_response v) = Some started_ /\
  (v ← json_parse (jr_Response (answered_with (encode_action_response acted))); decode_action_response v) = Some acted.
Proof.
  intros Hh Hstart Haction Hstarted Hacted. cbv zeta. unfold intent_record, canonicalRequest. record_cbn. cbn [snd].
  rewrite (parse_indented (5 + h)), (parse_indented (5 + h)) by (done || by apply encode_start_ok || by apply encode_action_ok).
  rewrite (parse_indented 1), (parse_indented 1) by (apply encode_start_response_ok || apply encode_action_response_ok || by vm_compute).
  rewrite !some_bind, encode_recovered. split_and!; [by eapply decode_start_encode|done|by eapply decode_action_encode|
    by apply decode_start_response_encode|by apply decode_action_response_encode].
Qed.
End theory.

(** ** A request that the core refuses *)
#[local] Existing Instance demo_sha.
#[local] Existing Instance canonical_range.

Definition demo_refused : app demo_core :=
  files_after (demo_RunStart false (demo_moment "1") (demo_request "a" "/work/app") demo_empty []).
Definition demo_canonical : string := (canonicalRequest (encode_start (demo_request "a" "/work/app"))).2.
Definition demo_record : ApplicationJournalRecord :=
  reread (intent_record "start" "a" (start_hash (demo_request "a" "/work/app")) demo_canonical "run-1" 10).

#[local] Instance file_eq_dec {A} `{EqDecision A} : EqDecision (file A).
Proof. solve_decision. Defined.
Lemma demo_refused_journal : as_journal demo_refused = {[ applicationJournalPath "start" "a" := Holds demo_record ]}.
Proof. refine (bool_decide_eq_true_1 _ _). vm_compute. reflexivity. Qed.
Lemma oldest_single path (r : ApplicationJournalRecord) : oldest r {[ path := Holds r ]}.
Proof.
  intros path' r'. unfold entry. destruct (decide (path' = path)) as [-> |Hne].
  - rewrite lookup_singleton_eq. intros [= ->] _ Hne. by destruct Hne.
  - by rewrite lookup_singleton_ne.
Qed.
Lemma demo_request_fits : start_request_fits 0 (demo_request "a" "/work/app").
Proof.
  split; [reflexivity|]. split; [by repeat split|]. split; [apply map_Forall_empty|]. do 3 (split; [reflexivity|]). apply map_Forall_empty.
Qed.
Lemma demo_record_valid : validateJournalRecord demo_record = Ok tt.
Proof. vm_compute. reflexivity. Qed.
Lemma demo_record_request : json_parse (jr_Request demo_record) = Some (encode_start (demo_request "a" "/work/app")).
Proof. apply (parse_indented 5); [apply (encode_start_ok 0), demo_request_fits|by vm_compute]. Qed.

Lemma refused_start_blocks_recovery_witness :
  reply_of (@Recover canonical_range demo_sha _ (demo_Core false) demo_decode "codex" (fun _ => demo_moment "2") demo_refused []) = None.
Proof.
  pose proof demo_request_fits as Hfits. pose proof demo_record_valid as Hvalid. pose proof demo_record_request as Hreq.
  pose proof demo_refused_journal as Hj.
  eapply (@refused_start_blocks_recovery canonical_range demo_sha _ (demo_Core false) demo_decode "codex" 0
    (fun _ => demo_moment "2") (demo_request "a" "/work/app") demo_record demo_refused []).
  - intros n k s. reflexivity.
  - exact Hfits.
  - by vm_compute.
  - split; [unfold entry_of, entry; rewrite Hj; by rewrite lookup_singleton_eq|].
    split; [by repeat split|]. split; [reflexivity|exact Hreq].
  - intros normalized c fs _. reflexivity.
  - rewrite Hj. apply oldest_single.
Defined.

Lemma journal_round_trip_witness :
  (v ← json_parse (jr_Request demo_record); decode_start v) = Some (recovered (demo_request "a" "/work/app")).
Proof.
  eapply (journal_round_trip 0 (demo_request "a" "/work/app") (demo_action "x" "run-1" 1) demo_response demo_action_response
    "start" "a" (start_hash (demo_request "a" "/work/app")) "run-1" 10).
  - by vm_compute.
  - apply demo_request_fits.
  - do 3 (split; [reflexivity|]). split; [by vm_compute|]. do 3 (split; [done|]). apply map_Forall_empty.
  - apply demo_response_fits.
  - apply demo_action_response_fits.
Defined.
