(* ===== verification/RunQueries.v ===== *)
(** * Reading runs through the application service

    internal/application/service.go: RunList, RunEvents and RunResult, which
    answer page by page and keep every response below MaxResponseBytes. *)

From S2P Require Import Prelude GoText Json JsonTree Routing Resolver Catalog Workflow Context RunState Files.
From S2P Require Import TeamContract AppRequests RunStore Journal Application Cursor.
#[local] Open Scope string_scope.
#[local] Open Scope list_scope.
#[local] Open Scope Z_scope.

Definition DefaultListLimit := 50.
Definition MaxListLimit := 100.
Definition DefaultEventLimit := 50.
Definition MaxEventLimit := 100.
Definition MaxEventWaitMS := 30000.
Definition MaxResponseBytes := 512 * 1024.

Definition formatTime (t : Z) : string := if t =? 0 then "" else rfc3339 t.

(** ** Requests and responses *)

Record RunFilter := { rf_Project : string; rf_Phase : string; rf_Conclusion : string }.
Record RunListRequest := { rl_Filter : RunFilter; rl_Cursor : string; rl_Limit : Z }.
Record RunSummary := {
  su_RunID : string; su_WorkflowName : string; su_Project : string; su_Driver : string; su_Target : string;
  su_Phase : string; su_Conclusion : string; su_StateVersion : Z; su_CreatedAt : string; su_UpdatedAt : string }.
Record RunListResponse := { rlr_APIVersion : string; rlr_Items : list RunSummary; rlr_NextCursor : string }.

Record RunEventsRequest := { re_RunID : string; re_AfterSequence : Z; re_Limit : Z; re_WaitMS : Z }.
Record Event := {
  e_RunID : string; e_Sequence : Z; e_Type : string; e_Phase : string; e_Conclusion : string; e_Reason : string;
  e_NodeID : string; e_NodePhase : string; e_Message : string; e_Timestamp : string }.
Record RunEventsResponse := {
  rer_APIVersion : string; rer_RunID : string; rer_Events : list Event; rer_NextAfterSequence : Z; rer_More : bool }.

(** Result: the lists are never nil; the usage has its two names. *)
Record ResultView := {
  v_Summary : string; v_Artifacts : list string; v_Warnings : list string; v_Checks : list string;
  v_Questions : list InputQuestion; v_Decision : string; v_Reason : string; v_Usage : Usage }.
Record NodeResult := { nr_NodeID : string; nr_Conclusion : string; nr_Result : option ResultView }.
Record RunResultResponse := {
  rr_APIVersion : string; rr_RunID : string; rr_Conclusion : string; rr_Summary : string;
  rr_Results : list NodeResult; rr_CompletedAt : string }.

#[export] Instance RunSummary_eq_dec : EqDecision RunSummary.
Proof. solve_decision. Defined.
#[export] Instance Event_eq_dec : EqDecision Event.
Proof. solve_decision. Defined.

(** ** json.Marshal of the responses *)

Definition text_field (name value : string) : option (string * json) := Some (name, jstring value).
Definition optional_text (name value : string) : option (string * json) := omitempty (value =s "") name (jstring value).

Definition encode_summary (r : RunSummary) : json :=
  jobject [text_field "runId" (su_RunID r); text_field "workflowName" (su_WorkflowName r); text_field "project" (su_Project r);
           text_field "driver" (su_Driver r); text_field "target" (su_Target r); text_field "phase" (su_Phase r);
           optional_text "conclusion" (su_Conclusion r); Some ("stateVersion", jint (su_StateVersion r));
           text_field "createdAt" (su_CreatedAt r); text_field "updatedAt" (su_UpdatedAt r)].
Definition encode_list (r : RunListResponse) : json :=
  jobject [text_field "apiVersion" (rlr_APIVersion r); Some ("items", jarray encode_summary (rlr_Items r));
           optional_text "nextCursor" (rlr_NextCursor r)].

Definition encode_event (e : Event) : json :=
  jobject [text_field "runId" (e_RunID e); Some ("sequence", jint (e_Sequence e)); text_field "type" (e_Type e);
           text_field "phase" (e_Phase e); optional_text "conclusion" (e_Conclusion e); optional_text "reason" (e_Reason e);
           optional_text "nodeId" (e_NodeID e); optional_text "nodePhase" (e_NodePhase e);
           optional_text "message" (e_Message e); text_field "timestamp" (e_Timestamp e)].
Definition encode_events (r : RunEventsResponse) : json :=
  jobject [text_field "apiVersion" (rer_APIVersion r); text_field "runId" (rer_RunID r);
           Some ("events", jarray encode_event (rer_Events r)); Some ("nextAfterSequence", jint (rer_NextAfterSequence r));
           Some ("more", jbool (rer_More r))].

(** The choices of a question: a copy that is nil when there are none *)
Definition encode_question (q : InputQuestion) : json :=
  jobject [text_field "id" (q_ID q); text_field "prompt" (q_Prompt q);
           Some ("choices", match q_Choices q with [] => jnull | choices => jarray jstring choices end);
           Some ("required", jbool (q_Required q))].
Definition encode_result (r : ResultView) : json :=
  jobject [optional_text "summary" (v_Summary r); Some ("artifacts", jarray jstring (v_Artifacts r));
           Some ("warnings", jarray jstring (v_Warnings r)); Some ("checks", jarray jstring (v_Checks r));
           Some ("questions", jarray encode_question (v_Questions r)); optional_text "decision" (v_Decision r);
           optional_text "reason" (v_Reason r);
           Some ("usage", jobject [Some ("inputTokensEstimated", jint (us_InputTokensEstimated (v_Usage r)));
                                   Some ("outputTokensEstimated", jint (us_OutputTokensEstimated (v_Usage r)))])].
Definition encode_node_result (r : NodeResult) : json :=
  jobject [text_field "nodeId" (nr_NodeID r); optional_text "conclusion" (nr_Conclusion r);
           match nr_Result r with Some v => Some ("result", encode_result v) | None => None end].
Definition encode_run_result (r : RunResultResponse) : json :=
  jobject [text_field "apiVersion" (rr_APIVersion r); text_field "runId" (rr_RunID r); text_field "conclusion" (rr_Conclusion r);
           optional_text "summary" (rr_Summary r); Some ("results", jarray encode_node_result (rr_Results r));
           text_field "completedAt" (rr_CompletedAt r)].

Definition within_bound (v : json) : bool := len (json_text v) <=? MaxResponseBytes.

(** ** Pages *)

Definition boundedLimit (value defaultValue maximum : Z) (path : string) : result AppError Z :=
  if value =? 0 then Ok defaultValue
  else if (value <? 1) || (maximum <? value)
  then Err (NewError CodeInvalidArgument (path +:+ " must be between 1 and " +:+ pretty maximum)
              [("max", jint maximum); ("path", jstring ("$." +:+ path))])
  else Ok value.

(** The loop that drops the last element of a response until the response fits:
    what is left of the first [n] elements, and the flag that there are more *)
Fixpoint fit {A} (within : list A -> bool -> bool) (items : list A) (n : nat) (more : bool) : list A * bool :=
  match n with
  | O => ([], more)
  | S n' => if within (take n items) more then (take n items, more) else fit within items n' true
  end.
(** At most [limit] of [items], as many as fit *)
Definition page {A} (within : list A -> bool -> bool) (limit : Z) (items : list A) : list A * bool :=
  let more := limit <? len_slice items in
  let items := if more then take (Z.to_nat limit) items else items in
  fit within items (length items) more.

(** ** The runs *)

Definition summarizeRun (snapshot : WorkflowSnapshot) : RunSummary := {|
  su_RunID := ws_ID snapshot; su_WorkflowName := ws_WorkflowName snapshot; su_Project := ws_Project snapshot;
  su_Driver := ws_ResolvedDriver snapshot; su_Target := ws_ResolvedTarget snapshot; su_Phase := ws_Phase snapshot;
  su_Conclusion := ws_Conclusion snapshot; su_StateVersion := ws_StateVersion snapshot;
  su_CreatedAt := formatTime (ws_CreatedAt snapshot); su_UpdatedAt := formatTime (ws_UpdatedAt snapshot) |}.

Definition rejected (wanted value : string) : bool := (wanted ≠s "") && (value ≠s wanted).
Definition selects (filter : RunFilter) (item : RunSummary) : bool :=
  negb (rejected (rf_Project filter) (su_Project item) || rejected (rf_Phase filter) (su_Phase item) ||
        rejected (rf_Conclusion filter) (su_Conclusion item)).

(** Newest first, by the text of the time *)
Definition run_before (x y : RunSummary) : bool :=
  if su_CreatedAt x ≠s su_CreatedAt y then String.ltb (su_CreatedAt y) (su_CreatedAt x) else String.ltb (su_RunID x) (su_RunID y).

(** The items after the one that the cursor names *)
Fixpoint after_cursor (cursor : string) (items : list RunSummary) : option (list RunSummary) :=
  match items with
  | [] => None
  | item :: items => if su_RunID item =s cursor then Some items else after_cursor cursor items
  end.

Definition list_response (items : list RunSummary) (cursor : string) : RunListResponse :=
  {| rlr_APIVersion := ApplicationAPIVersion; rlr_Items := items; rlr_NextCursor := cursor |}.
Definition list_fits (items : list RunSummary) (more : bool) : bool := within_bound (encode_list (list_response items "")).
(** The cursor is set after the response has been measured. *)
Definition list_page (limit : Z) (items : list RunSummary) : RunListResponse :=
  let '(items, more) := page list_fits limit items in
  list_response items (match last items with Some item => if more then encodeCursor (su_RunID item) else "" | None => "" end).

(** ** Reading from the core

    The rest of the interface Core of service.go *)
Class RunReader (C : Type) := {
  reader_runs : io C CoreError (list string);
  reader_events : string -> io C CoreError (list WorkflowEvent) }.

Section queries.
  Context {C : Type} {CC : Core C} {RC : RunReader C}.

Notation core_io := (io C AppError).

(** A call of the core, its error as a value *)
Definition tried {A} (m : io C CoreError A) : core_io (result CoreError A) := fun c fs =>
  match m c fs with
  | Returned a c fs => Returned (Ok a) c fs
  | Raised e c fs => Returned (Err e) c fs
  | Died c => Died c
  end.
Definition asked {A} (m : io C CoreError A) (message : string) : core_io A :=
  answer ← tried m; match answer with Ok a => mret a | Err e => refuse (mapCoreError e message) end.

(** The loop over the run ids; a run that cannot be read is passed over. *)
Fixpoint list_items (filter : RunFilter) (ids : list string) : core_io (list RunSummary) :=
  match ids with
  | [] => mret []
  | id :: ids =>
      view ← tried (core_status id);
      rest ← list_items filter ids;
      mret (match view with
            | Ok {| sv_Run := Some snapshot |} =>
                if selects filter (summarizeRun snapshot) then summarizeRun snapshot :: rest else rest
            | _ => rest
            end)
  end.

Definition RunList (request : RunListRequest) : core_io RunListResponse :=
  limit ← checked (fun e => e) (boundedLimit (rl_Limit request) DefaultListLimit MaxListLimit "limit");
  cursor ← checked (fun e => e) (decodeCursor (rl_Cursor request));
  ids ← asked reader_runs "could not list runs";
  items ← list_items (rl_Filter request) ids;
  let items := sort_slice run_before items in
  match (if cursor =s "" then Some items else after_cursor cursor items) with
  | None => refuse (NewError CodeInvalidArgument "cursor does not identify a run in the filtered result" [("path", jstring "$.cursor")])
  | Some items => mret (list_page limit items)
  end.

(** ** The events of a run *)

Definition event_view (event : WorkflowEvent) : Event := {|
  e_RunID := ev_RunID event; e_Sequence := ev_Sequence event; e_Type := ev_Type event; e_Phase := ev_Phase event;
  e_Conclusion := ev_Conclusion event; e_Reason := ev_Reason event; e_NodeID := ev_NodeID event;
  e_NodePhase := ev_NodePhase event; e_Message := ev_Message event; e_Timestamp := formatTime (ev_Timestamp event) |}.

Definition events_response (runID : string) (events : list Event) (next : Z) (more : bool) : RunEventsResponse := {|
  rer_APIVersion := ApplicationAPIVersion; rer_RunID := runID; rer_Events := events; rer_NextAfterSequence := next; rer_More := more |}.
Definition last_sequence (after : Z) (events : list Event) : Z :=
  match last events with Some e => e_Sequence e | None => after end.
Definition events_fit (runID : string) (after : Z) (events : list Event) (more : bool) : bool :=
  within_bound (encode_events (events_response runID events (last_sequence after events) more)).
Definition events_page (runID : string) (after limit : Z) (available : list Event) : RunEventsResponse :=
  let '(events, more) := page (events_fit runID after) limit available in
  (* when nothing is left, the number of the event that was dropped last *)
  let next := match events, available with [], e :: _ => e_Sequence e | _, _ => last_sequence after events end in
  events_response runID events next more.
Definition readEvents (runID : string) (after limit : Z) : io C CoreError RunEventsResponse :=
  persisted ← reader_events runID;
  mret (events_page runID after limit (map event_view (List.filter (fun event => negb (ev_Sequence event <=? after)) persisted))).

(** How the wait for an event ends: the caller gives up, or time runs out or an
    event comes, the core being then what others have made of it. *)
Inductive waited := GaveUp (why : string) | WokenUp (others : C -> C).

Definition RunEvents (wait : waited) (request : RunEventsRequest) : core_io RunEventsResponse :=
  if trim_space (re_RunID request) =s "" then refuse (NewError CodeInvalidArgument "runId is required" [("path", jstring "$.runId")]) else
  limit ← checked (fun e => e) (boundedLimit (re_Limit request) DefaultEventLimit MaxEventLimit "limit");
  if (re_WaitMS request <? 0) || (MaxEventWaitMS <? re_WaitMS request)
  then refuse (NewError CodeInvalidArgument "waitMs must be between 0 and 30000" [("max", jint MaxEventWaitMS); ("path", jstring "$.waitMs")]) else
  _ ← asked (core_status (re_RunID request)) "run not found";
  let read := asked (readEvents (re_RunID request) (re_AfterSequence request) limit) "could not read run events" in
  response ← read;
  match rer_Events response with
  | [] =>
      if 0 <? re_WaitMS request then
        match wait with
        | GaveUp why => refuse (NewError CodeInternal "event wait was cancelled" [("detail", jstring why)])
        | WokenUp change => _ ← others change; read
        end
      else mret response
  | _ => mret response
  end.

(** ** The result of a run *)

Definition nonNil (values : option (list string)) : list string := default [] values.
Definition mapResult (r : Result) : ResultView := {|
  v_Summary := r_Summary r; v_Artifacts := nonNil (r_Artifacts r); v_Warnings := nonNil (r_Warnings r);
  v_Checks := nonNil (r_Checks r); v_Questions := r_Questions r; v_Decision := r_Decision r; v_Reason := r_Reason r;
  v_Usage := r_Usage r |}.
(** The nodes in the order of the run; a name without a node is left out. *)
Definition node_results (order : list string) (nodes : list NodeSnapshot) : list NodeResult :=
  omap (fun nodeID =>
    node ← List.find (fun node => ns_ID node =s nodeID) nodes;
    Some {| nr_NodeID := ns_ID node; nr_Conclusion := ns_Conclusion node; nr_Result := mapResult <$> ns_Result node |}) order.

Definition RunResult (runID : string) : core_io RunResultResponse :=
  view ← asked (core_status runID) "run not found";
  match sv_Run view with
  | None => refuse (NewError CodeAppUnavailable "legacy run has no Agent-native result" [("runId", jstring runID)])
  | Some run =>
      if ws_Phase run ≠s PhaseCompleted
      then refuse (NewError CodeNotReady "run result is not ready" [("phase", jstring (ws_Phase run)); ("runId", jstring runID)]) else
      let response := {|
        rr_APIVersion := ApplicationAPIVersion; rr_RunID := ws_ID run; rr_Conclusion := ws_Conclusion run;
        rr_Summary := ws_Summary run; rr_Results := node_results (ws_TopologicalOrder run) (sv_Nodes view);
        rr_CompletedAt := formatTime (ws_UpdatedAt run) |} in
      if negb (within_bound (encode_run_result response)) then refuse internalError else mret response
  end.
End queries.
