(* ===== verification/RunQueriesTheory.v ===== *)
(** * What a caller sees page by page

    Following the cursors of RunList shows every selected run once; following the
    sequence numbers of RunEvents delivers every event that fits a response,
    and passes over those that do not. *)

From S2P Require Import Prelude GoText Json JsonTree JsonTreeTheory Routing Resolver Catalog Workflow Context RunState Files.
From S2P Require Import TeamContract AppRequests RunStore Journal Application ApplicationTheory Cursor RunQueries.
#[local] Open Scope string_scope.
#[local] Open Scope list_scope.
#[local] Open Scope Z_scope.

(** ** Pages *)

Section fit.
  Context {A : Type} (within : list A -> bool -> bool).

Lemma fit_spec items n more rest more' :
  fit within items n more = (rest, more') -> (n <= length items)%nat ->
  exists k, (k <= n)%nat /\ rest = take k items /\ more' = (more || (k <? n)%nat) /\ (rest = [] \/ within rest more' = true).
Proof.
  revert more. induction n as [|n IH]; cbn [fit]; intros more Hfit Hn.
  - injection Hfit as <- <-. exists 0%nat. rewrite orb_false_r. eauto.
  - destruct (within (take (S n) items) more) eqn:Hw.
    + injection Hfit as <- <-. exists (S n). rewrite Nat.ltb_irrefl, orb_false_r. eauto.
    + apply IH in Hfit as (k & Hk & -> & -> & Hend); [|lia]. exists k. split_and!; [lia|done| |done].
      destruct more; [done|]. symmetry. apply Nat.ltb_lt. lia.
Qed.

(** The first element is never dropped when it fits on its own. *)
Lemma fit_keeps_first items n more x rest :
  items = x :: rest -> (forall more, within [x] more = true) -> (0 < n)%nat -> (fit within items n more).1 <> [].
Proof.
  intros -> Hx. revert more. induction n as [|n IH]; intros more Hn; [lia|]. cbn [fit].
  destruct (within _ more) eqn:Hw; [done|]. destruct n as [|n]; [|apply IH; lia].
  cbn in Hw. by rewrite take_0, Hx in Hw.
Qed.

(** Nothing is left when every beginning of the list is too long. *)
Lemma fit_drops_all items n more :
  (forall k more, (0 < k)%nat -> within (take k items) more = false) -> fit within items n more = ([], more || (0 <? n)%nat).
Proof.
  intros Hw. revert more. induction n as [|n IH]; intros more; cbn [fit]; [by rewrite orb_false_r|].
  rewrite Hw, IH by lia. by destruct more.
Qed.

Lemma page_spec limit items rest more :
  page within limit items = (rest, more) -> 1 <= limit ->
  exists k, (k <= length items)%nat /\ rest = take k items /\ more = (k <? length items)%nat /\ (rest = [] \/ within rest more = true).
Proof.
  unfold page, len_slice. intros Hp Hl. destruct (limit <? Z.of_nat (length items)) eqn:Hlim.
  - apply Z.ltb_lt in Hlim. apply fit_spec in Hp as (k & Hk & -> & -> & Hend); [|lia].
    rewrite length_take in Hk. rewrite take_take, Nat.min_l in * by lia. exists k. split_and!; [lia|done| |done].
    cbn. symmetry. apply Nat.ltb_lt. lia.
  - apply fit_spec in Hp as (k & Hk & -> & -> & Hend); [|lia]. eauto.
Qed.

Lemma page_keeps_first limit x items :
  (forall more, within [x] more = true) -> 1 <= limit -> (page within limit (x :: items)).1 <> [].
Proof.
  intros Hx Hl. unfold page. destruct (limit <? _).
  - destruct (Z.to_nat limit) as [|n] eqn:Hn; [lia|]. cbn [take]. by eapply fit_keeps_first; [done|done|cbn; lia].
  - by eapply fit_keeps_first; [done|done|cbn; lia].
Qed.

Lemma page_drops_all limit x items :
  (forall k more, within (x :: take k items) more = false) -> 1 <= limit -> page within limit (x :: items) = ([], true).
Proof.
  intros Hw Hl. unfold page.
  assert (forall m k more, (0 < k)%nat -> within (take k (take m (x :: items))) more = false \/ take k (take m (x :: items)) = []) as Hall.
  { intros [|m] [|k] more Hk; [lia|by right|lia|left]. cbn [take]. rewrite take_take. apply Hw. }
  destruct (limit <? _).
  - destruct (Z.to_nat limit) as [|n] eqn:Hn; [lia|]. rewrite fit_drops_all; [by rewrite orb_true_l|].
    intros [|k] more Hk; [lia|]. cbn [take]. rewrite take_take. apply Hw.
  - rewrite fit_drops_all; [done|]. intros [|k] more Hk; [lia|]. cbn [take]. apply Hw.
Qed.

Lemma page_nil limit : 1 <= limit -> page within limit [] = ([], false).
Proof. intros Hl. unfold page. by assert (limit <? len_slice (@nil A) = false) as -> by (apply Z.ltb_ge; unfold len_slice; cbn; lia). Qed.
End fit.

Lemma boundedLimit_default limit default maximum path :
  0 <= limit <= maximum -> 1 <= default ->
  exists n, boundedLimit limit default maximum path = Ok n /\ 1 <= n.
Proof.
  intros Hl Hd. unfold boundedLimit. destruct (limit =? 0) eqn:H0; [by eexists|]. apply Z.eqb_neq in H0.
  assert ((limit <? 1) || (maximum <? limit) = false) as -> by (apply orb_false_iff; rewrite !Z.ltb_ge; lia).
  exists limit. split; [done|lia].
Qed.

(** ** Reading a core that is at rest *)

(** The call leaves the core [c] as it is and answers [r]. *)
Definition answers {C A} (c : C) (m : io C CoreError A) (r : result CoreError A) : Prop :=
  forall fs, m c fs = match r with Ok a => Returned a c fs | Err e => Raised e c fs end.

Lemma tried_answers {C A} (c : C) (m : io C CoreError A) r fs : answers c m r -> tried m c fs = Returned r c fs.
Proof. intros Hm. unfold tried. rewrite Hm. by destruct r. Qed.

Lemma asked_answers {C A} (c : C) (m : io C CoreError A) a message fs :
  answers c m (Ok a) -> asked m message c fs = Returned a c fs.
Proof. intros Hm. unfold asked. by rewrite (bind_returned _ _ _ _ _ _ _ (tried_answers _ _ _ fs Hm)). Qed.

(** ** The runs *)

(** The order of the listing is total and transitive. *)
Lemma run_before_asym x y : run_before x y = true -> run_before y x = false.
Proof.
  unfold run_before. rewrite (String.eqb_sym (su_CreatedAt y)). destruct (su_CreatedAt x =s su_CreatedAt y)%go; cbn; apply string_ltb_asym.
Qed.

Lemma not_run_before x y :
  not_after run_before x y <->
  String.ltb (su_CreatedAt y) (su_CreatedAt x) = true \/
  su_CreatedAt x = su_CreatedAt y /\ String.le (su_RunID x) (su_RunID y).
Proof.
  unfold not_after, run_before. destruct (su_CreatedAt y =s su_CreatedAt x)%go eqn:He; cbn.
  - apply String.eqb_eq in He. rewrite He, string_ltb_irrefl, string_not_ltb. split; [by right|by intros [?|[_ ?]]].
  - apply String.eqb_neq in He. split.
    + intros Hn. left. by apply string_ltb_total.
    + intros [Hlt|[? _]]; [by apply string_ltb_asym|congruence].
Qed.

Lemma run_before_ntrans x y z :
  not_after run_before x y -> not_after run_before y z -> not_after run_before x z.
Proof.
  rewrite !not_run_before. intros [Hxy|[Exy Hxy]] [Hyz|[Eyz Hyz]].
  - left. by eapply string_ltb_trans.
  - left. by rewrite <-Eyz.
  - left. by rewrite Exy.
  - right. split; [congruence|by etrans].
Qed.

Lemma after_cursor_app l item rest :
  NoDup (map su_RunID (l ++ item :: rest)) -> after_cursor (su_RunID item) (l ++ item :: rest) = Some rest.
Proof.
  induction l as [|x l IH]; cbn; intros Hnd; [by rewrite String.eqb_refl|]. apply NoDup_cons in Hnd as [Hx Hnd].
  destruct (su_RunID x =s su_RunID item)%go eqn:He; [|by apply IH]. apply String.eqb_eq in He. destruct Hx.
  rewrite He, map_app. apply elem_of_app. right. cbn. apply list_elem_of_here.
Qed.

Section runs.
  Context {C : Type} {CC : Core C} {RC : RunReader C}.

(** What the core says of its runs while it is at rest *)
Record listable (c : C) (ids : list string) (views : string -> result CoreError StatusView) : Prop := {
  li_ids : answers c reader_runs (Ok ids);
  li_distinct : NoDup ids;
  li_safe : forall id, id ∈ ids -> safe_id id = true;
  li_views : forall id, id ∈ ids -> answers c (core_status id) (views id);
  li_names : forall id v run, id ∈ ids -> views id = Ok v -> sv_Run v = Some run -> ws_ID run = id }.

Definition chosen (filter : RunFilter) (views : string -> result CoreError StatusView) (id : string) : option RunSummary :=
  match views id with
  | Ok {| sv_Run := Some run |} => if selects filter (summarizeRun run) then Some (summarizeRun run) else None
  | _ => None
  end.

Fixpoint collect_runs (pages : nat) (filter : RunFilter) (cursor : string) (limit : Z) (c : C) : option (list RunSummary) :=
  match pages with
  | O => None
  | S pages =>
      match RunList {| rl_Filter := filter; rl_Cursor := cursor; rl_Limit := limit |} c [] with
      | Returned r c _ =>
          if rlr_NextCursor r =s "" then Some (rlr_Items r)
          else rest ← collect_runs pages filter (rlr_NextCursor r) limit c; Some (rlr_Items r ++ rest)
      | _ => None
      end
  end.

Context (c : C) (ids : list string) (views : string -> result CoreError StatusView) (filter : RunFilter).
Context (Hlist : listable c ids views).

Lemma list_items_run some fs :
  (forall id, id ∈ some -> id ∈ ids) -> list_items filter some c fs = Returned (omap (chosen filter views) some) c fs.
Proof.
  revert fs. induction some as [|id some IH]; intros fs Hin; [done|]. cbn [list_items].
  assert (id ∈ ids /\ forall x, x ∈ some -> x ∈ ids) as [Hid Hrest] by set_solver.
  rewrite (bind_returned _ _ _ _ _ _ _ (tried_answers _ _ _ fs (li_views _ _ _ Hlist id Hid))).
  rewrite (bind_returned _ _ _ _ _ _ _ (IH fs Hrest)).
  cbn. generalize (omap (chosen filter views) some). intros rest. unfold chosen. destruct (views id) as [[[run|] nodes]|e]; [|done..]. by destruct (selects filter (summarizeRun run)).
Qed.

Definition listing : list RunSummary := sort_slice run_before (omap (chosen filter views) ids).

Lemma chosen_name id item : id ∈ ids -> chosen filter views id = Some item -> su_RunID item = id.
Proof.
  unfold chosen. intros Hid. destruct (views id) as [v|e] eqn:Hv; [|done]. destruct v as [[run|] nodes]; [|done].
  destruct (selects filter (summarizeRun run)); [|done]. intros [= <-]. by eapply li_names.
Qed.

Lemma listing_name item : item ∈ listing -> su_RunID item ∈ ids.
Proof.
  unfold listing. rewrite sort_slice_elem, list_elem_of_omap. intros (id & Hid & Hc). by rewrite (chosen_name id item).
Qed.

Lemma chosen_names some :
  (forall id, id ∈ some -> id ∈ ids) -> NoDup some -> NoDup (map su_RunID (omap (chosen filter views) some)).
Proof.
  induction some as [|id some IH]; intros Hin Hnd; cbn; [constructor|]. apply NoDup_cons in Hnd as [Hid Hnd].
  assert (forall x, x ∈ some -> x ∈ ids) as Hin' by (intros x Hx; apply Hin; by right).
  destruct (chosen filter views id) as [item|] eqn:Hc; [|by apply IH]. cbn. constructor; [|by apply IH].
  rewrite (chosen_name id item) by (done || (apply Hin; by left)).
  intros (other & Hn & (x & Hx & Hcx)%list_elem_of_omap)%list_elem_of_fmap. rewrite (chosen_name x other) in Hn by eauto. congruence.
Qed.

Lemma listing_distinct : NoDup (map su_RunID listing).
Proof. unfold listing. rewrite sort_slice_perm. apply chosen_names; [done|apply (li_distinct _ _ _ Hlist)]. Qed.

Lemma RunList_run cursor limit n items :
  boundedLimit limit DefaultListLimit MaxListLimit "limit" = Ok n ->
  decodeCursor cursor = Ok items.1 ->
  (if items.1 =s "" then Some listing else after_cursor items.1 listing) = Some items.2 ->
  RunList {| rl_Filter := filter; rl_Cursor := cursor; rl_Limit := limit |} c [] = Returned (list_page n items.2) c [].
Proof.
  intros Hn Hc Hi. unfold RunList. cbn [rl_Filter rl_Cursor rl_Limit]. rewrite Hn, Hc. cbn [checked].
  erewrite bind_returned by reflexivity. erewrite bind_returned by reflexivity.
  rewrite (bind_returned _ _ _ _ _ _ _ (asked_answers _ _ _ _ [] (li_ids _ _ _ Hlist))).
  erewrite bind_returned by (apply list_items_run; done). fold listing. by rewrite Hi.
Qed.

Context (Hfits : forall item more, item ∈ listing -> list_fits [item] more = true).

(** A page is a beginning of what is left; without a cursor it is all of it. *)
Lemma list_page_cases n rest :
  1 <= n -> (forall item, item ∈ rest -> item ∈ listing) ->
  (rlr_NextCursor (list_page n rest) = "" /\ rlr_Items (list_page n rest) = rest) \/
  exists l item after, rest = l ++ item :: after /\ rlr_Items (list_page n rest) = l ++ [item] /\
    rlr_NextCursor (list_page n rest) = encodeCursor (su_RunID item).
Proof.
  intros Hn Hin. unfold list_page. destruct (page list_fits n rest) as [items more] eqn:Hp.
  destruct (page_spec _ _ _ _ _ Hp Hn) as (k & Hk & -> & -> & _). destruct rest as [|x rest]; [left; by rewrite take_nil|].
  assert (take k (x :: rest) <> []) as Hne.
  { rewrite <-(f_equal fst Hp : _ = take k (x :: rest)). apply page_keeps_first; [|done]. intros more. apply Hfits, Hin. left. }
  assert (exists l item, take k (x :: rest) = l ++ [item]) as (l & item & Ht).
  { destruct (take k (x :: rest)) as [|? ? _] eqn:Ht using rev_ind; [done|by eauto]. }
  rewrite Ht, last_snoc. cbn [list_response rlr_NextCursor rlr_Items].
  pose proof (take_drop k (x :: rest)) as Hall. rewrite Ht in Hall.
  destruct (k <? length (x :: rest))%nat eqn:Hmore.
  - right. exists l, item, (drop k (x :: rest)). by rewrite <-Hall, <-app_assoc at 1.
  - left. apply Nat.ltb_ge in Hmore. split; [done|]. by rewrite <-Hall, drop_ge, app_nil_r by done.
Qed.

Lemma safe_id_cursor id : safe_id id = true -> id <> "" /\ len id <= 128.
Proof.
  unfold safe_id, match_ident, len. rewrite <-(String.string_of_list_ascii_of_string id) at 2 3.
  destruct (String.list_ascii_of_string id) as [|a l]; [done|]. intros [_ Hl%Nat.leb_le]%andb_true_iff. split; [done|].
  cbn [String.string_of_list_ascii String.length].
  assert (String.length (String.string_of_list_ascii l) = length l) as -> by (clear Hl; induction l; cbn; congruence). lia.
Qed.

Lemma collect_runs_from pages cursor limit pre rest :
  0 <= limit <= MaxListLimit -> listing = pre ++ rest ->
  (cursor = "" /\ pre = [] \/ exists l item, pre = l ++ [item] /\ cursor = encodeCursor (su_RunID item)) ->
  (length rest < pages)%nat -> collect_runs pages filter cursor limit c = Some rest.
Proof.
  intros Hlimit. destruct (boundedLimit_default limit DefaultListLimit MaxListLimit "limit") as (n & Hn & Hpos); [done|done|].
  revert cursor pre rest. induction pages as [|pages IH]; intros cursor pre rest Hall Hcursor Hlen; [lia|].
  assert (RunList {| rl_Filter := filter; rl_Cursor := cursor; rl_Limit := limit |} c [] = Returned (list_page n rest) c []) as Hrun.
  { destruct Hcursor as [[-> ->]|(l & item & -> & ->)].
    - apply (RunList_run "" limit n ("", rest)); [done|done|]. cbn. by rewrite Hall.
    - assert (item ∈ listing) as Hitem by (rewrite Hall; set_solver).
      destruct (safe_id_cursor (su_RunID item)) as [Hne Hshort]; [by apply (li_safe _ _ _ Hlist), listing_name|].
      apply (RunList_run _ limit n (su_RunID item, rest)); [done|by apply decodeCursor_encodeCursor|]. cbn [fst snd].
      apply String.eqb_neq in Hne. rewrite Hne. pose proof listing_distinct as Hnd. rewrite Hall, <-app_assoc in *. by apply after_cursor_app. }
  cbn [collect_runs]. rewrite Hrun.
  destruct (list_page_cases n rest Hpos) as [[-> ->]|(l & item & after & Hrest & -> & ->)]; [rewrite Hall; set_solver|done|].
  assert (item ∈ listing) as Hitem by (rewrite Hall, Hrest; set_solver).
  destruct (safe_id_cursor (su_RunID item)) as [Hne _]; [by apply (li_safe _ _ _ Hlist), listing_name|].
  apply encodeCursor_nonempty, String.eqb_neq in Hne. rewrite Hne.
  rewrite (IH _ (pre ++ l ++ [item]) after); [by cbn; rewrite Hrest, <-app_assoc| | |].
  - by rewrite Hall, Hrest, <-!app_assoc.
  - right. exists (pre ++ l), item. by rewrite app_assoc.
  - rewrite Hrest, length_app in Hlen. cbn in Hlen. lia.
Qed.
End runs.

(** C37: While the runs do not change, following the cursors of RunList shows the
    runs that the filter selects, each once, newest first (by the text of the
    time of creation, then by id), in the same order whatever the page size, if
    each summary fits a response on its own. *)
Theorem run_pages `{Core C, !RunReader C} (c : C) ids views filter limit :
  listable c ids views ->
  (forall id item more, id ∈ ids -> chosen filter views id = Some item -> list_fits [item] more = true) ->
  0 <= limit <= MaxListLimit ->
  exists shown, collect_runs (S (length ids)) filter "" limit c = Some shown /\
    shown ≡ₚ omap (chosen filter views) ids /\ NoDup (map su_RunID shown) /\ StronglySorted (not_after run_before) shown.
Proof.
  intros Hlist Hfits Hlimit. exists (listing ids views filter). split_and!.
  - eapply collect_runs_from with (pre := []); [done| |done|done|by left|].
    + intros item more (id & Hid & Hc)%sort_slice_elem%list_elem_of_omap. by eapply Hfits.
    + unfold listing. rewrite sort_slice_length. clear. induction ids as [|id ids IH]; cbn; [lia|].
      destruct (chosen filter views id); cbn; lia.
  - apply sort_slice_perm.
  - by eapply listing_distinct.
  - apply sort_slice_sorted; [apply run_before_asym|apply run_before_ntrans].
Qed.

(** The text of a time loses the zeros at the end of its nanoseconds, so a later
    run can come after an earlier one. *)
Example listing_not_chronological :
  let run id t := {|
    su_RunID := id; su_WorkflowName := "w"; su_Project := "p"; su_Driver := "codex"; su_Target := "local"; su_Phase := PhaseRunning;
    su_Conclusion := ""; su_StateVersion := 1; su_CreatedAt := formatTime t; su_UpdatedAt := formatTime t |} in
  map su_RunID (sort_slice run_before [run "run-late" 510000000; run "run-early" 500000000]) = ["run-early"; "run-late"].
Proof. vm_compute. reflexivity. Qed.

(** ** The events *)

(** Without white space the depth does not matter; an element of an array is no
    longer than the array, and a field no longer than its object. *)
Notation compact := (lay (fun _ => []) []).
Fixpoint lay_depth (v : json) : forall d d', compact d v = compact d' v.
Proof.
  intros d d'. destruct v as [text|body|items|members]; cbn [lay]; [done|done| |]; f_equal; f_equal.
  - assert (map (compact (S d)) items = map (compact (S d')) items) as ->; [|by destruct items].
    induction items as [|x items IH]; cbn [map]; [done|]. by rewrite IH, (lay_depth x (S d) (S d')).
  - set (member k w := lay_string k ++ ":"%char :: [] ++ w).
    assert (map (fun '(k, w) => member k (compact (S d) w)) members = map (fun '(k, w) => member k (compact (S d') w)) members)
      as Heq; [|unfold member in Heq; rewrite Heq; by destruct members].
    induction members as [|[k w] members IH]; cbn [map]; [done|]. by rewrite IH, (lay_depth w (S d) (S d')).
Qed.

Lemma length_lay_items_of nl d x items : x ∈ items -> (length x <= length (lay_items nl d items))%nat.
Proof.
  destruct items as [|y items]; [by intros ?%elem_of_nil|]. cbn [lay_items]. rewrite !length_app.
  intros [->|Hx]%elem_of_cons; [lia|]. induction items as [|z items IH]; [by apply elem_of_nil in Hx|].
  cbn [map concat]. rewrite length_app. cbn [length]. rewrite length_app. apply elem_of_cons in Hx as [->|Hx]; [lia|].
  specialize (IH Hx). lia.
Qed.

Lemma len_array v items : v ∈ items -> len (json_text v) <= len (json_text (JArr items)).
Proof.
  intros Hv. unfold json_text, json_print. rewrite !len_of_list. cbn [lay length]. rewrite length_app.
  pose proof (length_lay_items_of (fun _ => []) 0 (compact 1 v) (map (compact 1) items)) as Hl.
  rewrite (lay_depth v 0 1). specialize (Hl ltac:(apply list_elem_of_fmap; eauto)). cbn. lia.
Qed.

Lemma len_object name v fields : Some (name, v) ∈ fields -> len (json_text v) <= len (json_text (jobject fields)).
Proof.
  intros Hf. unfold json_text, json_print, jobject. rewrite !len_of_list. cbn [lay length]. rewrite length_app.
  set (show := fun '(k, w) => lay_string k ++ ":"%char :: [] ++ compact 1 w).
  pose proof (length_lay_items_of (fun _ => []) 0 (show (json_chars true 0 (to_list name), v)) (map show (fields_of fields))) as Hl.
  rewrite (lay_depth v 0 1). apply Nat2Z.inj_le. etrans; [|apply Nat.lt_le_incl, Nat.lt_succ_diag_r].
  etrans; [|apply Nat.le_add_r]. etrans; [|apply Hl].
  - unfold show. rewrite length_app. cbn. lia.
  - apply list_elem_of_fmap. eexists. split; [done|]. unfold fields_of. apply list_elem_of_In, in_flat_map.
    exists (Some (name, v)). split; [by apply list_elem_of_In|]. by left.
Qed.

(** An event is oversized when its own text is longer than a response may be. *)
Definition oversized (e : Event) : bool := MaxResponseBytes <? len (json_text (encode_event e)).

Lemma oversized_never_fits runID after events more e :
  e ∈ events -> oversized e = true -> events_fit runID after events more = false.
Proof.
  unfold oversized, events_fit, within_bound. intros He Hbig%Z.ltb_lt. apply Z.leb_gt. eapply Z.lt_le_trans; [exact Hbig|].
  etrans; [apply (len_array _ (map encode_event events))|]; [apply list_elem_of_fmap; eauto|].
  apply (len_object "events"). cbn. do 2 (apply elem_of_cons; right). apply list_elem_of_here.
Qed.

Notation increasing := (StronglySorted (fun x y => e_Sequence x < e_Sequence y)).
Definition beyond (after : Z) (events : list Event) : list Event := List.filter (fun e => negb (e_Sequence e <=? after)) events.

Lemma beyond_all after events : Forall (fun e => after < e_Sequence e) events -> beyond after events = events.
Proof.
  unfold beyond. induction 1 as [|e events He _ IH]; [done|]. cbn. apply Z.leb_gt in He. by rewrite He, IH.
Qed.
Lemma beyond_none after events : Forall (fun e => e_Sequence e <= after) events -> beyond after events = [].
Proof.
  unfold beyond. induction 1 as [|e events He _ IH]; [done|]. cbn. apply Z.leb_le in He. by rewrite He, IH.
Qed.

Lemma beyond_last l e rest : increasing (l ++ e :: rest) -> beyond (e_Sequence e) (l ++ e :: rest) = rest.
Proof.
  intros Hs. unfold beyond. rewrite List.filter_app. fold (beyond (e_Sequence e) l) (beyond (e_Sequence e) (e :: rest)).
  rewrite beyond_none.
  - cbn. rewrite Z.leb_refl. cbn. induction l as [|x l IH]; [|apply IH; by apply StronglySorted_cons in Hs as [_ ?]].
    apply StronglySorted_cons in Hs as [Hall _]. by apply beyond_all.
  - apply Forall_forall. intros x Hx. induction l as [|y l IH]; [by apply elem_of_nil in Hx|].
    apply StronglySorted_cons in Hs as [Hall Hs]. apply elem_of_cons in Hx as [->|Hx]; [|by apply IH].
    rewrite Forall_forall in Hall. apply Z.lt_le_incl, Hall. set_solver.
Qed.

(** What a page of events [available] is: an oversized event by itself is passed
    over, otherwise some events and what follows the last of them is still to
    come. *)
Lemma events_page_cases runID after limit e available :
  (oversized e = false -> forall more, events_fit runID after [e] more = true) -> 1 <= limit ->
  let r := events_page runID after limit (e :: available) in
  (oversized e = true /\ rer_Events r = [] /\ rer_NextAfterSequence r = e_Sequence e /\ rer_More r = true) \/
  exists l x rest, e :: available = l ++ x :: rest /\ rer_Events r = l ++ [x] /\ rer_NextAfterSequence r = e_Sequence x /\
    rer_More r = negb (bool_decide (rest = [])) /\ Forall (fun y => oversized y = false) (l ++ [x]).
Proof.
  intros Hfits Hl r. subst r. unfold events_page. destruct (oversized e) eqn:Hbig.
  - left. rewrite page_drops_all; [done| |done]. intros k more. by eapply oversized_never_fits; [apply list_elem_of_here|].
  - right. pose proof (page_keeps_first _ limit e available (Hfits eq_refl) Hl) as Hne.
    destruct (page _ limit (e :: available)) as [events more] eqn:Hp. cbn [fst] in Hne.
    destruct (page_spec _ _ _ _ _ Hp Hl) as (k & Hk & -> & -> & Hend).
    assert (exists l x, take k (e :: available) = l ++ [x]) as (l & x & Ht).
    { destruct (take k (e :: available)) as [|? ? _] eqn:Ht using rev_ind; [done|by eauto]. }
    rewrite Ht in *. exists l, x, (drop k (e :: available)).
    pose proof (take_drop k (e :: available)) as Hall. rewrite Ht, <-app_assoc in Hall. split_and!; [done|done| | |].
    + cbn. unfold last_sequence. rewrite last_snoc. by destruct l.
    + cbn [events_response rer_More]. case_bool_decide as Hd; cbn [negb].
      * apply Nat.ltb_ge. apply (f_equal length) in Hd. rewrite length_drop in Hd. cbn [length] in Hd |- *. lia.
      * apply Nat.ltb_lt. apply Nat.nle_gt. intros Hge. by apply Hd, drop_ge.
    + apply Forall_forall. intros y Hy. destruct (oversized y) eqn:Hy'; [|done].
      destruct Hend as [?|Hend]; [done|]. by rewrite (oversized_never_fits _ _ _ _ y) in Hend.
Qed.

Section events.
  Context {C : Type} {CC : Core C} {RC : RunReader C}.

(** Follow the sequence numbers until no more events are announced. *)
Fixpoint collect_events (pages : nat) (runID : string) (after limit : Z) (c : C) : option (list Event) :=
  match pages with
  | O => None
  | S pages =>
      match RunEvents (WokenUp (fun c => c)) {| re_RunID := runID; re_AfterSequence := after; re_Limit := limit; re_WaitMS := 0 |} c [] with
      | Returned r c _ =>
          if rer_More r then rest ← collect_events pages runID (rer_NextAfterSequence r) limit c; Some (rer_Events r ++ rest)
          else Some (rer_Events r)
      | _ => None
      end
  end.

Context (c : C) (runID : string) (view : StatusView) (log : list WorkflowEvent).
Context (Hid : trim_space runID <> "") (Hview : answers c (core_status runID) (Ok view)) (Hlog : answers c (reader_events runID) (Ok log)).
Let events : list Event := map event_view log.
Context (Hincreasing : increasing events).
Context (Hfits : forall e after more, e ∈ events -> oversized e = false -> events_fit runID after [e] more = true).

Lemma available_events after :
  map event_view (List.filter (fun event => negb (ev_Sequence event <=? after)) log) = beyond after events.
Proof.
  subst events. clear. unfold beyond. induction log as [|event l IH]; [done|]. cbn.
  destruct (ev_Sequence event <=? after); cbn; by rewrite IH.
Qed.

Lemma RunEvents_run after limit n :
  boundedLimit limit DefaultEventLimit MaxEventLimit "limit" = Ok n ->
  RunEvents (WokenUp (fun c => c)) {| re_RunID := runID; re_AfterSequence := after; re_Limit := limit; re_WaitMS := 0 |} c [] =
    Returned (events_page runID after n (beyond after events)) c [].
Proof.
  intros Hn. unfold RunEvents. cbn [re_RunID re_AfterSequence re_Limit re_WaitMS]. rewrite (proj2 (String.eqb_neq _ _) Hid), Hn.
  erewrite bind_returned by reflexivity. cbn [checked Z.ltb Z.compare orb MaxEventWaitMS].
  rewrite (bind_returned _ _ _ _ _ _ _ (asked_answers _ _ _ _ [] Hview)).
  assert (answers c (readEvents runID after n) (Ok (events_page runID after n (beyond after events)))) as Hread.
  { intros fs. unfold readEvents. rewrite (bind_returned _ _ _ _ _ _ _ (Hlog fs)). by rewrite available_events. }
  rewrite (bind_returned _ _ _ _ _ _ _ (asked_answers _ _ _ _ [] Hread)). by destruct (rer_Events _).
Qed.

Lemma collect_events_from pages after limit pre rest :
  0 <= limit <= MaxEventLimit -> events = pre ++ rest -> beyond after events = rest -> (length rest < pages)%nat ->
  collect_events pages runID after limit c = Some (List.filter (fun e => negb (oversized e)) rest).
Proof.
  intros Hlimit. destruct (boundedLimit_default limit DefaultEventLimit MaxEventLimit "limit") as (n & Hn & Hpos); [done|done|].
  revert after pre rest. induction pages as [|pages IH]; intros after pre rest Hall Hafter Hlen; [lia|].
  cbn [collect_events]. rewrite (RunEvents_run after limit n Hn), Hafter. destruct rest as [|e rest].
  { unfold events_page. by rewrite page_nil. }
  destruct (events_page_cases runID after n e rest) as [(Hbig & -> & -> & ->)|(l & x & last & Hrest & -> & -> & -> & Hsmall)];
    [intros Hs more; apply Hfits; [rewrite Hall; set_solver|done]|done| |].
  - rewrite (IH (e_Sequence e) (pre ++ [e]) rest); [cbn; by rewrite Hbig|by rewrite <-app_assoc| |cbn in Hlen; lia].
    rewrite Hall. apply beyond_last. by rewrite <-Hall.
  - assert (List.filter (fun e => negb (oversized e)) (e :: rest) =
            (l ++ [x]) ++ List.filter (fun e => negb (oversized e)) last) as ->.
    { rewrite Hrest. change (x :: last) with ([x] ++ last). rewrite app_assoc, List.filter_app. f_equal.
      clear -Hsmall. induction (l ++ [x]) as [|y k IH]; [done|]. apply Forall_cons in Hsmall as [Hy Hk]. cbn. by rewrite Hy, IH. }
    case_bool_decide as Hlast; cbn [negb]; [by rewrite Hlast, app_nil_r|].
    assert (length (e :: rest) = length (l ++ x :: last)) as Hsize by (by rewrite Hrest). rewrite length_app in Hsize. cbn in Hsize, Hlen.
    rewrite (IH (e_Sequence x) (pre ++ l ++ [x]) last); [done| | |lia].
    + rewrite Hall, Hrest. by rewrite <-!app_assoc.
    + assert (events = (pre ++ l) ++ x :: last) as Hsplit by (by rewrite Hall, Hrest, <-app_assoc).
      rewrite Hsplit. apply beyond_last. by rewrite <-Hsplit.
Qed.
End events.

(** While the log of a run is at rest, following NextAfterSequence from any
    number for as long as more events are announced ends, and delivers the
    events after that number that fit a response, each once and in order,
    whatever the page size; an event whose own text is longer than a response may
    be is passed over without an error. *)
Theorem event_pages `{Core C, !RunReader C} (c : C) runID view log after limit :
  trim_space runID <> "" -> answers c (core_status runID) (Ok view) -> answers c (reader_events runID) (Ok log) ->
  StronglySorted (fun x y => ev_Sequence x < ev_Sequence y) log ->
  (forall event after more, event ∈ log -> oversized (event_view event) = false ->
     events_fit runID after [event_view event] more = true) ->
  0 <= limit <= MaxEventLimit ->
  collect_events (S (length log)) runID after limit c =
    Some (List.filter (fun e => negb (oversized e)) (beyond after (map event_view log))).
Proof.
  intros Hid Hview Hlog Hsorted Hfits Hlimit.
  assert (increasing (map event_view log)) as Hinc.
  { clear -Hsorted. induction Hsorted as [|event log Hs IH Hall]; [constructor|]. cbn. constructor; [done|].
    apply Forall_map. eapply Forall_impl; [exact Hall|done]. }
  assert (exists pre, map event_view log = pre ++ beyond after (map event_view log)) as [pre Hpre].
  { clear -Hinc. induction Hinc as [|e events Hs [pre IH] Hall]; [by exists []|]. unfold beyond in *. cbn.
    destruct (Z.leb_spec (e_Sequence e) after) as [Hle|Hgt]; cbn; [exists (e :: pre); by rewrite IH at 1|].
    exists []. cbn. f_equal. symmetry. apply beyond_all. eapply Forall_impl; [exact Hall|]. cbn. lia. }
  eapply collect_events_from with (view := view) (log := log) (pre := pre); try done.
  - intros e after' more (event & -> & Hin)%list_elem_of_fmap. by apply Hfits.
  - assert (length (map event_view log) = length log) as Hsize by apply length_map. rewrite Hpre, length_app in Hsize. lia.
Qed.

(** ** Examples *)

Definition demo_event (sequence : Z) (message : string) : WorkflowEvent := {|
  ev_ProtocolVersion := 2; ev_RunID := "run-1"; ev_Sequence := sequence; ev_Type := "node.running"; ev_Phase := PhaseRunning;
  ev_Conclusion := ""; ev_Reason := ""; ev_NodeID := "a"; ev_NodePhase := ""; ev_Message := message; ev_Timestamp := 0 |}.
Definition demo_log : list WorkflowEvent := [demo_event 1 "one"; demo_event 3 "two"; demo_event 4 "three"].
Definition demo_reader : RunReader demo_core := {|
  reader_runs := fun c fs => Returned (sort_strings (map fst (map_to_list c))) c fs;
  reader_events := fun _ c fs => Returned demo_log c fs |}.
Definition demo_runs : demo_core := {["run-1" := 1; "run-2" := 3]}.
Definition every_run : RunFilter := {| rf_Project := ""; rf_Phase := ""; rf_Conclusion := "" |}.
Definition demo_views (run : string) : result CoreError StatusView :=
  match demo_runs !! run with
  | Some n => Ok {| sv_Run := Some (demo_snapshot run n); sv_Nodes := [] |}
  | None => Err (demo_error "run not found")
  end.

Lemma demo_listable : @listable demo_core (demo_Core true) demo_reader demo_runs ["run-1"; "run-2"] demo_views.
Proof.
  constructor.
  - done.
  - refine (bool_decide_eq_true_1 _ _). vm_compute. reflexivity.
  - intros id Hid. rewrite !elem_of_cons, elem_of_nil in Hid. by destruct Hid as [->|[->|[]]].
  - intros id Hid fs. rewrite !elem_of_cons, elem_of_nil in Hid. by destruct Hid as [->|[->|[]]].
  - intros id v run Hid. rewrite !elem_of_cons, elem_of_nil in Hid. destruct Hid as [->|[->|[]]]; cbn; intros [= <-] [= <-]; done.
Qed.
Lemma demo_summaries_fit :
  Forall (fun id => match chosen every_run demo_views id with Some item => list_fits [item] true = true | None => True end) ["run-1"; "run-2"].
Proof. repeat constructor; vm_compute; reflexivity. Qed.
Lemma demo_events_fit : Forall (fun event => events_fit "run-1" 0 [event_view event] true = true /\ events_fit "run-1" 0 [event_view event] false = true) demo_log.
Proof. repeat constructor; vm_compute; reflexivity. Qed.

Lemma run_pages_witness :
  exists shown, @collect_runs _ (demo_Core true) demo_reader 3 every_run "" 1 demo_runs = Some shown /\
    shown ≡ₚ omap (chosen every_run demo_views) ["run-1"; "run-2"].
Proof.
  destruct (@run_pages _ (demo_Core true) demo_reader demo_runs ["run-1"; "run-2"] demo_views every_run 1) as (shown & Hs & Hp & _).
  - exact demo_listable.
  - intros id item more Hid Hc. pose proof demo_summaries_fit as Hfit. rewrite Forall_forall in Hfit. specialize (Hfit id Hid).
    rewrite Hc in Hfit. exact Hfit.
  - unfold MaxListLimit. lia.
  - exists shown. split; [exact Hs|exact Hp].
Defined.

Lemma event_pages_witness :
  @collect_events _ (demo_Core true) demo_reader 4 "run-1" 1 1 demo_runs =
    Some (List.filter (fun e => negb (oversized e)) (beyond 1 (map event_view demo_log))).
Proof.
  refine (@event_pages _ (demo_Core true) demo_reader demo_runs "run-1"
    {| sv_Run := Some (demo_snapshot "run-1" 1); sv_Nodes := [] |} demo_log 1 1 _ _ _ _ _ _).
  - done.
  - done.
  - done.
  - repeat constructor.
  - intros event after more Hin _. pose proof demo_events_fit as Hfit. rewrite Forall_forall in Hfit. specialize (Hfit event Hin).
    destruct Hfit, more; done.
  - unfold MaxEventLimit. lia.
Defined.

Example demo_pages :
  map e_Message (default [] (@collect_events _ (demo_Core true) demo_reader 4 "run-1" 1 1 demo_runs)) = ["two"; "three"] /\
  map su_RunID (default [] (@collect_runs _ (demo_Core true) demo_reader 3 every_run "" 1 demo_runs)) = ["run-1"; "run-2"].
Proof. vm_compute. done. Qed.
