(* ===== verification/RunOps.v ===== *)
(** * The transitions of a run

    internal/run/service.go: loading and persisting a run, the guard of a
    controller and the transitions that a backend result causes.  A method
    that fails returns its error with the disk as it is then; its changes to
    values in memory are lost, as in the code, where they are local.  The
    mutexes make each of these methods one step of the controller; the
    event sinks only observe. *)

From S2P Require Import Prelude GoText Json Routing Resolver Catalog Workflow Topology Template Context Backend RunState Scheduler RunStore.
#[local] Open Scope string_scope.
#[local] Open Scope list_scope.
#[local] Open Scope Z_scope.

Section Runs.
Context `{GoRange} `{CatalogDigest} `{Service}.

(** ** Loading and persisting *)

Definition load_node (nodes : list NodeSnapshot) (id : string) : eff (list NodeSnapshot) :=
  node ← ReadNode id;
  _ ← lift (ErrNodeSnapshot id) (ValidateNodeSnapshot node);
  mret (nodes ++ [{|
    ns_ProtocolVersion := ns_ProtocolVersion node;
    ns_StateSchemaVersion := schema_at_least_1 (ns_StateSchemaVersion node);
    ns_RunID := ns_RunID node; ns_ID := ns_ID node; ns_Type := ns_Type node; ns_Phase := ns_Phase node;
    ns_Conclusion := ns_Conclusion node; ns_Reason := ns_Reason node; ns_Diagnostic := ns_Diagnostic node;
    ns_Result := ns_Result node; ns_PendingInputAnswer := ns_PendingInputAnswer node;
    ns_PendingRoutingTarget := ns_PendingRoutingTarget node; ns_CurrentAttempt := ns_CurrentAttempt node;
    ns_CreatedAt := ns_CreatedAt node; ns_UpdatedAt := ns_UpdatedAt node |}]).

Definition upgrade_run (run : WorkflowSnapshot) : WorkflowSnapshot := {|
  ws_ProtocolVersion := ws_ProtocolVersion run; ws_StateSchemaVersion := schema_at_least_1 (ws_StateSchemaVersion run);
  ws_StateVersion := ws_StateVersion run; ws_ID := ws_ID run; ws_WorkflowName := ws_WorkflowName run;
  ws_Project := ws_Project run; ws_ResolvedDriver := ws_ResolvedDriver run; ws_ResolvedTarget := ws_ResolvedTarget run;
  ws_DeprecationWarnings := ws_DeprecationWarnings run; ws_Backend := ws_Backend run;
  ws_EffectiveConcurrency := ws_EffectiveConcurrency run; ws_Phase := ws_Phase run; ws_Conclusion := ws_Conclusion run;
  ws_Reason := ws_Reason run; ws_Summary := ws_Summary run; ws_Inputs := ws_Inputs run;
  ws_TopologicalOrder := ws_TopologicalOrder run; ws_Nodes := ws_Nodes run; ws_ActiveNodeID := ws_ActiveNodeID run;
  ws_CancelRequested := ws_CancelRequested run; ws_ActionReceipts := ws_ActionReceipts run;
  ws_StateDir := ws_StateDir run; ws_CreatedAt := ws_CreatedAt run; ws_UpdatedAt := ws_UpdatedAt run |}.

Definition loadRun : eff (WorkflowSnapshot * list NodeSnapshot) :=
  run ← ReadSnapshot;
  _ ← lift ErrRunSnapshot (ValidateWorkflowSnapshot run);
  nodes ← each load_node [] (ws_TopologicalOrder run);
  mret (upgrade_run run, nodes).

(** The sequence number of the last event *)
Definition resetEventSequence : eff Z :=
  events ← ReadEvents;
  lift id (range_loop (fun sequence event =>
      fail_if ev_Sequence event <=? sequence with ErrEventSequence ;;
      Ok (ev_Sequence event))
    0 events).

(** persistRun; the incremented version is part of the caller's run. *)
Definition persistRun (run : WorkflowSnapshot) (node : option NodeSnapshot) (eventType message : string) : eff WorkflowSnapshot :=
  let run := set_version run (wrap_uint64 (ws_StateVersion run + 1)) in
  _ ← lift ErrRunSnapshot (ValidateWorkflowSnapshot run);
  _ ← WriteSnapshot run;
  sequence ← resetEventSequence;
  t ← now;
  _ ← AppendEvent {|
    ev_ProtocolVersion := protocolVersion; ev_RunID := ws_ID run; ev_Sequence := wrap_uint64 (sequence + 1);
    ev_Type := eventType; ev_Phase := ws_Phase run; ev_Conclusion := ws_Conclusion run; ev_Reason := ws_Reason run;
    ev_NodeID := match node with Some n => ns_ID n | None => "" end;
    ev_NodePhase := match node with Some n => ns_Phase n | None => "" end;
    ev_Message := message; ev_Timestamp := t |};
  mret run.

Definition validateAttemptSnapshot (a : AttemptSnapshot) : result SnapshotError unit :=
  ValidateAttemptSnapshotWithCatalogs (cp_CatalogByHash sv_catalogs) a.

Definition writeAttempt (a : AttemptSnapshot) (create : bool) : eff unit :=
  _ ← lift ErrAttemptSnapshot (validateAttemptSnapshot a);
  if create then WriteAttempt (at_NodeID a) (at_Number a) a else UpdateAttempt (at_NodeID a) (at_Number a) a.

(** [active] says that the service's controller of the run has the caller's
    generation and is not stopping. *)
Definition controllerMutation {A} (active : bool) (action : WorkflowSnapshot -> list NodeSnapshot -> eff A) : eff A :=
  throw_if negb active with ErrControllerInactive ;;
  loaded ← loadRun;
  let '(run, nodes) := loaded in
  throw_if ws_CancelRequested run || (ws_Phase run =s PhasePaused) || (ws_Phase run =s PhaseCancelling) ||
           (ws_Phase run =s PhaseCompleted) with ErrControllerInactive ;;
  action run nodes.

Definition find_node (nodes : list NodeSnapshot) (nodeID : string) : eff (nat * NodeSnapshot) := fun w =>
  match findNode nodes nodeID with Some found => Done found w | None => Failed (ErrUnknownNode nodeID) w end.

(** ** Results *)

Definition workflowQuestions (questions : list BackendQuestion) : list InputQuestion :=
  map (fun q => {| q_ID := bq_ID q; q_Prompt := bq_Prompt q; q_Choices := bq_Choices q; q_Required := bq_Required q |}) questions.

Definition workflowResultsEqual (left right : Result) : bool := json_Result left =s json_Result right.

Definition waitingWithResult (active : bool) (nodeID : string) (attemptNumber : Z) (reason message : string) (result : Result)
    : eff unit :=
  normalized ← ReadWorkflow;
  controllerMutation active (fun run nodes =>
    found ← find_node nodes nodeID;
    let '(index, node) := found in
    attempt ← ReadAttempt nodeID attemptNumber;
    let resultChanged := match ns_Result node with Some r => negb (workflowResultsEqual r result) | None => true end in
    let nodeChanged := resultChanged || negb (at_ResultConsumed attempt) || (at_Phase attempt ≠s NodePhaseWaiting) ||
      (at_Reason attempt ≠s reason) || (ns_Phase node ≠s NodePhaseWaiting) || (ns_Reason node ≠s reason) ||
      (ns_Diagnostic node ≠s message) in
    let before := run in
    t ← now;
    let attempt := attempt_with attempt NodePhaseWaiting (at_Conclusion attempt) reason true (at_SideEffectStatus attempt)
                     (at_FailureClass attempt) t (at_CompletedAt attempt) in
    let node := node_with node NodePhaseWaiting (ns_Conclusion node) reason message (Some result)
                  (ns_PendingInputAnswer node) (ns_PendingRoutingTarget node) t in
    let nodes := <[index := node]> nodes in
    let '(run, _, _) := aggregateRunState run nodes (nz_Document normalized) t in
    if negb nodeChanged && negb (aggregateRunStateChanged before run) then mret tt else
    run ← (if nodeChanged then
             _ ← WriteResult (ns_ID node) attemptNumber result;
             _ ← WriteNode (ns_ID node) node;
             _ ← writeAttempt attempt false;
             mret (set_summary run node)
           else mret run);
    _ ← persistRun run (Some node) (if nodeChanged then "node.waiting" else "run.waiting") message;
    mret tt).

Definition waitingIfChanged (active : bool) (nodeID : string) (attemptNumber : Z) (reason message : string) : eff bool :=
  normalized ← ReadWorkflow;
  controllerMutation active (fun run nodes =>
    found ← find_node nodes nodeID;
    let '(index, node) := found in
    attempt ← ReadAttempt nodeID attemptNumber;
    let nodeChanged := (at_Phase attempt ≠s NodePhaseWaiting) || (at_Reason attempt ≠s reason) ||
      (ns_Phase node ≠s NodePhaseWaiting) || (ns_Reason node ≠s reason) || (ns_Diagnostic node ≠s message) in
    let before := run in
    t ← now;
    let attempt := attempt_with attempt NodePhaseWaiting (at_Conclusion attempt) reason (at_ResultConsumed attempt)
                     (at_SideEffectStatus attempt) (at_FailureClass attempt) t (at_CompletedAt attempt) in
    let node := node_with node NodePhaseWaiting (ns_Conclusion node) reason message (ns_Result node)
                  (ns_PendingInputAnswer node) (ns_PendingRoutingTarget node) t in
    let nodes := <[index := node]> nodes in
    let '(run, _, _) := aggregateRunState run nodes (nz_Document normalized) t in
    if negb nodeChanged && negb (aggregateRunStateChanged before run) then mret false else
    run ← (if nodeChanged then
             _ ← WriteNode (ns_ID node) node;
             _ ← writeAttempt attempt false;
             mret (set_summary run node)
           else mret run);
    _ ← persistRun run (Some node) "node.waiting" message;
    mret true).

Definition waiting (active : bool) (nodeID : string) (attemptNumber : Z) (reason message : string) : eff unit :=
  _ ← waitingIfChanged active nodeID attemptNumber reason message;
  mret tt.

Definition finishIndeterminate (active : bool) (nodeID : string) (attemptNumber : Z) (message : string) : eff unit :=
  controllerMutation active (fun run nodes =>
    found ← find_node nodes nodeID;
    let '(_, node) := found in
    attempt ← ReadAttempt nodeID attemptNumber;
    t ← now;
    let attempt := attempt_with attempt NodePhaseCompleted ConclusionIndeterminate (at_Reason attempt) (at_ResultConsumed attempt)
                     SideEffectUnknown (at_FailureClass attempt) t (Some t) in
    let node := node_with node NodePhaseCompleted ConclusionIndeterminate "" message (ns_Result node)
                  (ns_PendingInputAnswer node) (ns_PendingRoutingTarget node) t in
    let run := set_run run PhaseRunning "" "" "" message t in
    _ ← writeAttempt attempt false;
    _ ← WriteNode (ns_ID node) node;
    _ ← persistRun (set_summary run node) (Some node) "node.completed" message;
    mret tt).
(** The text of a ValidateResult error *)
Definition ResultError_Error (e : ResultError) : string :=
  match e with
  | ErrSummaryRequired => "result summary is required"
  | ErrSummaryTooLong => "result summary exceeds 16384 bytes"
  | ErrListTooLong => "result list exceeds 256 items"
  | ErrTooManyQuestions => "result questions exceed 32 items"
  | ErrQuestionIdentity => "result question identity is incomplete"
  | ErrQuestionDuplicated id => "result question ID " +:+ quoted id +:+ " is duplicated"
  | ErrTooManyChoices => "result question choices exceed 256 items"
  | ErrArtifactTooLong => "artifact identifier exceeds 4096 bytes"
  | ErrResultTooLong => "result exceeds 65536 bytes"
  end.

Definition normalized_result (result : AgentResult) : Result := {|
  r_Summary := ar_Summary result; r_Artifacts := ar_Artifacts result; r_Warnings := ar_Warnings result;
  r_Checks := ar_Checks result; r_Questions := workflowQuestions (ar_Questions result);
  r_Usage := {| us_InputTokensEstimated := ar_InputTokensEstimated result;
                us_OutputTokensEstimated := ar_OutputTokensEstimated result |};
  r_Decision := ""; r_Reason := "" |}.

(** The mutation of a "succeeded" result *)
Definition finish_succeeded (nodeID : string) (attemptNumber : Z) (result : AgentResult)
    (run : WorkflowSnapshot) (nodes : list NodeSnapshot) : eff unit :=
  let normalized := normalized_result result in
  found ← find_node nodes nodeID;
  let '(_, node) := found in
  attempt ← ReadAttempt nodeID attemptNumber;
  t ← now;
  let attempt := attempt_with attempt NodePhaseCompleted ConclusionSucceeded (at_Reason attempt) true
                   (ar_SideEffectStatus result) (at_FailureClass attempt) t (Some t) in
  let node := node_with node NodePhaseCompleted ConclusionSucceeded "" "" (Some normalized)
                (ns_PendingInputAnswer node) (ns_PendingRoutingTarget node) t in
  _ ← WriteResult nodeID attemptNumber normalized;
  _ ← WriteNode nodeID node;
  _ ← writeAttempt attempt false;
  let run := set_run (set_summary run node) PhaseRunning (ws_Conclusion run) "" "" (r_Summary normalized) t in
  _ ← persistRun run (Some node) "node.completed" (r_Summary normalized);
  mret tt.

(** The mutation of a "failed" result *)
Definition finish_failed (nodeID : string) (attemptNumber : Z) (result : AgentResult)
    (run : WorkflowSnapshot) (nodes : list NodeSnapshot) : eff unit :=
  let normalized := normalized_result result in
  found ← find_node nodes nodeID;
  let '(_, node) := found in
  attempt ← ReadAttempt nodeID attemptNumber;
  t ← now;
  let sideEffect := if ar_SideEffectStatus result =s "" then SideEffectUnknown else ar_SideEffectStatus result in
  let attempt := attempt_with attempt NodePhaseCompleted ConclusionFailed (at_Reason attempt) true
                   sideEffect (ar_FailureClass result) t (Some t) in
  let node := node_with node NodePhaseCompleted ConclusionFailed "" (ar_Summary result) (Some normalized)
                (ns_PendingInputAnswer node) (ns_PendingRoutingTarget node) t in
  _ ← WriteResult nodeID attemptNumber normalized;
  _ ← WriteNode nodeID node;
  _ ← writeAttempt attempt false;
  let run := set_run (set_summary run node) PhaseRunning "" "" "" (ar_Summary result) t in
  _ ← persistRun run (Some node) "node.completed" (ws_Summary run);
  mret tt.

(** The boolean says whether the attempt is over. *)
Definition finishResult (active : bool) (nodeID : string) (attemptNumber : Z) (o : option AgentResult) : eff bool :=
  let wait reason message := _ ← waiting active nodeID attemptNumber reason message; mret false in
  match o with
  | None => wait ReasonCompletionMissing "Backend returned no result"
  | Some result =>
      let normalized := normalized_result result in
      let status := to_lower (ar_Status result) in
      if (status =s "succeeded") || (status =s "completed") then
        match ValidateResult normalized with
        | Err e => wait ReasonInvalidResult (ResultError_Error e)
        | Ok _ => _ ← controllerMutation active (finish_succeeded nodeID attemptNumber result); mret true
        end
      else if (status =s "failed") || (status =s "error") then
        match ValidateResult normalized with
        | Err e => wait ReasonInvalidResult (ResultError_Error e)
        | Ok _ => _ ← controllerMutation active (finish_failed nodeID attemptNumber result); mret true
        end
      else if contains_string ["needs_input"; "waiting_input"; "blocked"; "waitinginput"] status then
        if len_slice (r_Questions normalized) =? 0
        then wait ReasonInvalidResult "needs_input result requires at least one question"
        else match ValidateResult normalized with
             | Err e => wait ReasonInvalidResult (ResultError_Error e)
             | Ok _ => _ ← waitingWithResult active nodeID attemptNumber ReasonAgentWaitingInput (ar_Summary result) normalized;
                       mret false
             end
      else if (status =s "completion_missing") || (status =s "idle") then wait ReasonCompletionMissing (ar_Summary result)
      else if status =s "invalid_result" then wait ReasonInvalidResult (ar_Summary result)
      else if contains_string ["indeterminate"; "exited"; "lost"] status then
        _ ← finishIndeterminate active nodeID attemptNumber (ar_Summary result); mret true
      else wait ReasonCompletionMissing ("unrecognized Backend result status " +:+ ar_Status result)
  end.

(** ** Launching *)

Definition with_launch (a : AttemptSnapshot) (state : string) (execution : option ExecutionHandle) (now : Z) : AttemptSnapshot := {|
  at_ProtocolVersion := at_ProtocolVersion a; at_StateSchemaVersion := at_StateSchemaVersion a;
  at_RunID := at_RunID a; at_NodeID := at_NodeID a; at_Number := at_Number a; at_Phase := at_Phase a;
  at_Conclusion := at_Conclusion a; at_Reason := at_Reason a; at_ResolvedDriver := at_ResolvedDriver a;
  at_ResolvedTarget := at_ResolvedTarget a; at_Backend := at_Backend a; at_LaunchState := state;
  at_Execution := execution; at_ResultConsumed := at_ResultConsumed a;
  at_ContextCompilerVersion := at_ContextCompilerVersion a; at_ContextCompilerVersionV2 := at_ContextCompilerVersionV2 a;
  at_ContextManifestV2 := at_ContextManifestV2 a; at_ContextHash := at_ContextHash a;
  at_RoutingDecision := at_RoutingDecision a; at_ExecutionProfile := at_ExecutionProfile a;
  at_RoutingUsage := at_RoutingUsage a; at_SideEffectStatus := at_SideEffectStatus a; at_FailureClass := at_FailureClass a;
  at_MemoryUsage := at_MemoryUsage a; at_PromptHash := at_PromptHash a; at_StartedAt := at_StartedAt a;
  at_UpdatedAt := now; at_CompletedAt := at_CompletedAt a |}.

Definition beginBackendLaunch (active : bool) (nodeID : string) (number : Z) : eff unit :=
  throw_if negb active with ErrControllerInactive ;;
  loaded ← loadRun;
  throw_if ws_CancelRequested loaded.1 || (ws_Phase loaded.1 =s PhaseCancelling) || (ws_Phase loaded.1 =s PhaseCompleted)
    with ErrControllerInactive ;;
  attempt ← ReadAttempt nodeID number;
  t ← now;
  writeAttempt (with_launch attempt LaunchDispatching (at_Execution attempt) t) false.

Definition owns_execution (a : AttemptSnapshot) : option string :=
  match at_Execution a with Some h => if eh_ID h ≠s "" then Some (eh_ID h) else None | None => None end.

Definition markLaunchFinishedWithoutHandle (nodeID : string) (number : Z) : eff unit :=
  attempt ← ReadAttempt nodeID number;
  match owns_execution attempt with
  | Some _ => mret tt
  | None =>
      t ← now;
      writeAttempt (with_launch attempt LaunchFinishedWithoutHandle (at_Execution attempt) t) false
  end.

Definition persistExecutionHandle (nodeID : string) (number : Z) (backend : string) (handle : ExecutionHandle) : eff unit :=
  _ ← lift (fun _ => ErrBackend) (ValidateExecutionHandle handle);
  throw_if DriverName handle ≠s backend with ErrRoutingDriver (DriverName handle) ;;
  attempt ← ReadAttempt nodeID number;
  throw_if match owns_execution attempt with Some id => id ≠s eh_ID handle | None => false end with ErrBackend ;;
  t ← now;
  writeAttempt (with_launch attempt LaunchHandlePersisted (Some handle) t) false.

(** The mutation of pauseControllerOnError; [cause] is the text of the error. *)
Definition pauseControllerOnError (active : bool) (cause : string) : eff unit :=
  controllerMutation active (fun run _ =>
    t ← now;
    _ ← persistRun (set_run run PhaseWaiting (ws_Conclusion run) ReasonCompletionMissing (ws_ActiveNodeID run) cause t)
          None "run.waiting" cause;
    mret tt).

(** ** Scheduling (parallel_launch.go) *)

Definition set_concurrency (run : WorkflowSnapshot) (effective : Z) : WorkflowSnapshot := {|
  ws_ProtocolVersion := ws_ProtocolVersion run; ws_StateSchemaVersion := ws_StateSchemaVersion run;
  ws_StateVersion := ws_StateVersion run; ws_ID := ws_ID run; ws_WorkflowName := ws_WorkflowName run;
  ws_Project := ws_Project run; ws_ResolvedDriver := ws_ResolvedDriver run; ws_ResolvedTarget := ws_ResolvedTarget run;
  ws_DeprecationWarnings := ws_DeprecationWarnings run; ws_Backend := ws_Backend run;
  ws_EffectiveConcurrency := effective; ws_Phase := ws_Phase run; ws_Conclusion := ws_Conclusion run;
  ws_Reason := ws_Reason run; ws_Summary := ws_Summary run; ws_Inputs := ws_Inputs run;
  ws_TopologicalOrder := ws_TopologicalOrder run; ws_Nodes := ws_Nodes run; ws_ActiveNodeID := ws_ActiveNodeID run;
  ws_CancelRequested := ws_CancelRequested run; ws_ActionReceipts := ws_ActionReceipts run;
  ws_StateDir := ws_StateDir run; ws_CreatedAt := ws_CreatedAt run; ws_UpdatedAt := ws_UpdatedAt run |}.

(** The body of the three loops over the skipped nodes of a decision; [run]
    and the slice of nodes are updated in place. *)
Definition skip_node (reason diagnostic : string) (s : WorkflowSnapshot * list NodeSnapshot) (nodeID : string)
    : eff (WorkflowSnapshot * list NodeSnapshot) :=
  let '(run, nodes) := s in
  found ← find_node nodes nodeID;
  let '(index, node) := found in
  t ← now;
  let node := node_with node NodePhaseSkipped (ns_Conclusion node) reason diagnostic (ns_Result node)
                (ns_PendingInputAnswer node) (ns_PendingRoutingTarget node) t in
  _ ← WriteNode (ns_ID node) node;
  run ← persistRun (set_summary run node) (Some node) "node.skipped" (ns_Diagnostic node);
  mret (run, <[index := node]> nodes).

(** The part of scheduleBatch that skips what the scheduler decided to skip *)
Definition skip_decided (decision_upstream decision_conditions decision_policy : list string)
    (s : WorkflowSnapshot * list NodeSnapshot) : eff (WorkflowSnapshot * list NodeSnapshot) :=
  s ← each (skip_node ReasonUpstreamFailed "upstream failed") s decision_upstream;
  s ← each (skip_node ReasonConditionFalse "condition evaluated false") s decision_conditions;
  each (skip_node ReasonFailurePolicy "not scheduled after workflow failure") s decision_policy.

(** The body of the loop over the ready approvals *)
Definition ancestorSet (doc : Document) (nodeID : string) : gset string := ancestors doc nodeID.

Definition ready_approval (normalized : Normalized) (results : gmap string Result)
    (s : WorkflowSnapshot * list NodeSnapshot) (nodeID : string) : eff (WorkflowSnapshot * list NodeSnapshot) :=
  let '(run, nodes) := s in
  found ← find_node nodes nodeID;
  let '(index, node) := found in
  let definition := node_at (nz_Document normalized) nodeID in
  template ← lift ErrTemplate (ParseTemplate (n_Prompt definition) (d_Inputs (nz_Document normalized))
                                 (ancestorSet (nz_Document normalized) (ns_ID node)));
  prompt ← lift ErrTemplate (Render template (nz_Inputs normalized) results);
  t ← now;
  let node := node_with node NodePhaseWaiting (ns_Conclusion node) ReasonApprovalRequired prompt (ns_Result node)
                (ns_PendingInputAnswer node) (ns_PendingRoutingTarget node) t in
  let run := set_run run (ws_Phase run) (ws_Conclusion run) (ws_Reason run) (ws_ActiveNodeID run) prompt (ws_UpdatedAt run) in
  _ ← WriteNode (ns_ID node) node;
  run ← persistRun (set_summary run node) (Some node) "node.approval_required" prompt;
  mret (run, <[index := node]> nodes).

(** The end of a batch without launches: the run is aggregated. *)
Definition settle_run (normalized : Normalized) (run : WorkflowSnapshot) (nodes : list NodeSnapshot)
    : eff (WorkflowSnapshot * bool) :=
  let before := run in
  t ← now;
  let '(run, eventType, shouldStop) := aggregateRunState run nodes (nz_Document normalized) t in
  run ← (if (eventType ≠s "") && aggregateRunStateChanged before run
         then persistRun run None eventType (ws_Summary run) else mret run);
  mret (run, shouldStop).

(** scheduleBatch as far as it launches nothing: what the scheduler decided to
    skip is skipped, ready approvals wait, and a batch without ready agents
    ends with the aggregation.  The boolean is the stop flag. *)
Definition schedule_quiet (active : bool) (normalized : Normalized) (backendLimit : Z) : eff bool :=
  controllerMutation active (fun run nodes =>
    effective ← lift ErrSchedule (EffectiveConcurrency (d_MaxConcurrency (nz_Document normalized)) backendLimit);
    let run := set_concurrency run effective in
    decision ← lift ErrSchedule (PlanSchedule normalized run nodes backendLimit);
    s ← skip_decided (sd_SkipUpstream decision) (sd_SkipConditions decision) (sd_SkipFailurePolicy decision) (run, nodes);
    let results := results_of s.2 in
    s ← each (ready_approval normalized results) s (sd_ReadyApprovals decision);
    match sd_ReadyAgents decision with
    | [] => settled ← settle_run normalized s.1 s.2; mret settled.2
    | _ :: _ => mret false
    end).

(** ** Reconciliation (reconcile.go) *)

Record activeAttemptRef := { rf_nodeID : string; rf_attempt : Z }.
(** [oa_err]: the text of an error, with a flag for a cancelled context *)
Record observedAttempt := {
  oa_ref : activeAttemptRef; oa_observation : option ExecutionObservation; oa_err : option (bool * string);
  oa_settled : bool }.

Definition findActiveAttempts (nodes : list NodeSnapshot) : list activeAttemptRef :=
  omap (fun node =>
    if (ns_Type node =s "agent") && (0 <? ns_CurrentAttempt node) &&
       ((ns_Phase node =s NodePhaseRunning) || (ns_Phase node =s NodePhaseWaiting))
    then Some {| rf_nodeID := ns_ID node; rf_attempt := ns_CurrentAttempt node |} else None) nodes.

(** The loop over the observations; [progressed] is its variable. *)
Definition reconcile_result (active : bool) (progressed : bool) (result : observedAttempt) : eff bool :=
  let nodeID := rf_nodeID (oa_ref result) in
  let number := rf_attempt (oa_ref result) in
  let record reason message :=
    changed ← waitingIfChanged active nodeID number reason message;
    mret (progressed || changed) in
  if oa_settled result then mret progressed else
  match oa_err result with
  | Some (cancelled, text) =>
      if (cancelled : bool) then raise ErrContextDone else record ReasonCompletionMissing text
  | None =>
      match oa_observation result with
      | None => record ReasonCompletionMissing "Backend returned no execution observation"
      | Some observation =>
          let state := ob_State observation in
          if state =s ObservationTerminal then
            match ValidateExecutionObservation observation with
            | Err e => record ReasonInvalidResult (BackendError_Error e)
            | Ok _ => _ ← finishResult active nodeID number (ob_Result observation); mret true
            end
          else if state =s ObservationWaitingInput then
            record ReasonAgentWaitingInput
              (if ob_Diagnostic observation =s "" then "Agent is waiting for input" else ob_Diagnostic observation)
          else if state =s ObservationResultPending then
            record ReasonCompletionMissing
              (if ob_Diagnostic observation =s "" then "Agent result remained unavailable after bounded reconciliation"
               else ob_Diagnostic observation)
          else if state =s ObservationLost then
            _ ← finishIndeterminate active nodeID number "Agent execution was lost without a valid terminal result";
            mret true
          else if state =s ObservationActive then mret progressed
          else record ReasonCompletionMissing ("Backend returned unsupported observation state " +:+ quoted state)
      end
  end.

(** reconcileAttempts after the observations have been made: whether
    something changed and whether every active attempt waits *)
Definition reconcileAttempts (active : bool) (results : list observedAttempt) : eff (bool * bool) :=
  progressed ← each (reconcile_result active) false results;
  loaded ← loadRun;
  let nodes := loaded.2 in
  let refs := findActiveAttempts nodes in
  allWaiting ← each (fun (allWaiting : bool) ref =>
      found ← find_node nodes (rf_nodeID ref);
      mret (allWaiting && (ns_Phase found.2 =s NodePhaseWaiting))) (0 <? len_slice refs) refs;
  mret (progressed, allWaiting).
End Runs.
