(* ===== verification/RunActions.v ===== *)
(** * User actions on a run

    internal/run/service.go: approve, reject, retry and answer.  An action is
    planned as a list of node mutations; with an action id the plan is stored
    as an intent before the first mutation, so that a crashed action can be
    resumed, and a receipt in the run makes a repeated request idempotent.
    internal/run/routing.go: the route of the next attempt. *)

From S2P Require Import Prelude GoText Json Routing Resolver Catalog Workflow Topology Template Context Backend.
From S2P Require Import RunState Scheduler RunStore RunOps.
#[local] Open Scope string_scope.
#[local] Open Scope list_scope.
#[local] Open Scope Z_scope.

(** ** Receipts *)

(** The body of the range that looks for the oldest receipt *)
Definition older (oldest : string * Z) (entry : string * ActionReceipt) : string * Z :=
  let '(oldestID, oldestVersion) := oldest in
  let '(id, receipt) := entry in
  if (oldestID =s "") || (rc_StateVersion receipt <? oldestVersion) ||
     ((rc_StateVersion receipt =? oldestVersion) && String.ltb id oldestID)
  then (id, rc_StateVersion receipt) else (oldestID, oldestVersion).

Fixpoint evict `{GoRange} (fuel : nat) (receipts : gmap string ActionReceipt) : gmap string ActionReceipt :=
  if (Z.of_nat maxActionReceipts <? Z.of_nat (size receipts)) then
    match fuel with
    | O => receipts
    | S fuel => evict fuel (delete (foldl older ("", 0) (go_range "recordActionReceipt" receipts)).1 receipts)
    end
  else receipts.

(** recordActionReceipt; the loop deletes a receipt per iteration, so that the
    number of receipts is fuel enough. *)
Definition recordActionReceipt `{GoRange} (run : WorkflowSnapshot) (actionID requestHash : string) : WorkflowSnapshot :=
  if actionID =s "" then run else
  let receipts := <[actionID := {| rc_ActionID := actionID; rc_RequestHash := requestHash;
                                   rc_StateVersion := wrap_uint64 (ws_StateVersion run + 1);
                                   rc_Phase := ws_Phase run; rc_Conclusion := ws_Conclusion run |}]> (ws_ActionReceipts run) in
  set_receipts run (evict (size receipts) receipts).

(** ** Requests *)

Definition validateResumeAction (action : ResumeAction) : result RunError unit :=
  let has_reason := ra_Reason action ≠s "" in
  let ack := ra_AcknowledgeDuplicateRisk action in
  fail_if ra_NodeID action =s "" with ErrActionNode ;;
  if ra_Type action =s "approve" then
    fail_if has_reason || ack with ErrActionReason ;; Ok tt
  else if ra_Type action =s "reject" then
    fail_if ack with ErrActionReason ;; Ok tt
  else if ra_Type action =s "retry" then
    fail_if has_reason with ErrActionReason ;; Ok tt
  else if ra_Type action =s "answer" then
    fail_if match ra_ExpectedAttempt action with Some n => n <? 1 | None => true end with ErrActionAttempt ;;
    fail_if has_reason || ack with ErrActionReason ;; Ok tt
  else Err (ErrActionType (ra_Type action)).

Definition validateAnswerScalar (value : any) : bool :=
  match value with AString _ | ABool _ | ANumber _ | AFloat _ _ | AInt _ => true | ANil | AStrings _ | AOther => false end.

(** The body of the loop over the questions *)
Definition check_question (answers : gmap string any) (question : InputQuestion) : result RunError unit :=
  match answers !! q_ID question with
  | None => fail_if q_Required question with ErrAnswerMissing (q_ID question) ;; Ok tt
  | Some value =>
      fail_if negb (validateAnswerScalar value) with ErrAnswerScalar (q_ID question) ;;
      fail_if (0 <? len_slice (q_Choices question)) &&
              negb (match value with AString text => contains_string (q_Choices question) text | _ => false end)
        with ErrAnswerChoice (q_ID question) ;;
      Ok tt
  end.

Definition check_answer (questions : list InputQuestion) (entry : string * any) : result RunError unit :=
  fail_if negb (contains_string (map q_ID questions) entry.1) with ErrAnswerUnknown entry.1 ;;
  fail_if negb (validateAnswerScalar entry.2) with ErrAnswerScalar entry.1 ;;
  Ok tt.

(** json.Marshal of a map: the keys in sorted order *)
Definition json_map (m : gmap string any) : option string :=
  fields ← mapM (fun key => text ← json_marshal (default ANil (m !! key)); Some (key, text))
             (sort_strings (map_to_list m).*1);
  Some (json_object fields).

Definition json_questions (questions : list InputQuestion) : string := json_array (map json_InputQuestion questions).

Section Actions.
Context `{GoRange} `{CatalogDigest} `{Service}.

Definition validateAndEncodeAnswers (attempt : Z) (questions : list InputQuestion) (answers : option (gmap string any))
    : result RunError string :=
  let answers := default ∅ answers in
  _ ← range_loop (fun _ => check_question answers) tt questions;
  _ ← range_loop (fun _ => check_answer questions) tt (go_range "validateAndEncodeAnswers" answers);
  match json_map answers with
  | None => Err ErrAnswerEncoding
  | Some text =>
      Ok (json_object [("attempt", pretty attempt); ("questions", json_questions questions); ("answers", text)])
  end.

(** ** The route of the next attempt (routing.go) *)

Definition resolveAttemptRoutingWithCatalogs (driver : string) (requirement : RoutingRequirementV1)
    : eff (option RoutingDecisionV1) := fun w =>
  match cp_ActiveCatalog sv_catalogs (w_probes w) with
  | None => Failed ErrCatalogLoad w
  | Some (catalog, catalogHash) =>
      if negb (existsb (fun model => Driver (mc_Target model) =s driver) (cat_Models catalog)) then Done None w else
      let requirement := ApplyCodexProductPreference catalog driver requirement in
      match ResolveV1 {| rq_Catalog := catalog; rq_CatalogHash := catalogHash; rq_Requirement := requirement;
                         rq_Budget := {| bg_MaxCostUnits := rr_MaxCostUnits requirement;
                                         bg_ContextBytes := rr_MaxContextBytes requirement;
                                         bg_OutputBytes := rr_MaxOutputBytes requirement |} |} with
      | Err e => Failed (ErrRouting e) w
      | Ok decision =>
          if Driver (rd_Selected decision) ≠s driver then Failed (ErrRoutingDriver driver) w else Done (Some decision) w
      end
  end.

(** The gate of the catalog provider, when it has one; a probe is counted. *)
Definition ensureTargetAvailable (target : Target) : eff bool := fun w =>
  match cp_EnsureTargetAvailable sv_catalogs with
  | None => Done true w
  | Some gate =>
      Done (gate (w_probes w) target)
        {| w_disk := w_disk w; w_faults := w_faults w; w_ticks := w_ticks w; w_probes := S (w_probes w) |}
  end.

(** The loop over probeAttempt: [remaining] iterations are left after this one. *)
Fixpoint probe_routes (driver : string) (requirement : RoutingRequirementV1) (remaining : nat)
    : eff (option RoutingDecisionV1) :=
  decision ← resolveAttemptRoutingWithCatalogs driver requirement;
  match decision with
  | None => mret None
  | Some d =>
      ok ← ensureTargetAvailable (rd_Selected d);
      if (ok : bool) then mret (Some d) else
      match remaining with
      | O => raise ErrTargetUnavailable
      | S remaining => probe_routes driver requirement remaining
      end
  end.

Definition catalog_of (decision : RoutingDecisionV1) : eff CapabilityCatalogV1 := fun w =>
  match cp_CatalogByHash sv_catalogs (rd_CatalogHash decision) with
  | Some catalog => Done catalog w
  | None => Failed (ErrCatalogMissing (rd_CatalogHash decision)) w
  end.

(** The body of the loop of routingCostBeforeAttempt *)
Definition attempt_cost (nodeID : string) (nextAttempt total number : Z) : eff Z :=
  if nextAttempt <=? number then mret total else
  attempt ← ReadAttempt nodeID number;
  total ← match at_RoutingUsage attempt, at_RoutingDecision attempt with
          | Some _, None => raise ErrRoutingUsage
          | Some usage, Some decision =>
              catalog ← catalog_of decision;
              _ ← lift ErrRouting (ValidateRoutingUsageForDecision catalog decision usage);
              let expected := total + ru_CostUnits usage in
              throw_if negb (ru_CumulativeCostUnits usage =? expected) with ErrRoutingUsage ;;
              mret expected
          | None, Some decision =>
              _ ← lift ErrRouting (ValidateDecision decision);
              catalog ← catalog_of decision;
              cost ← lift ErrRouting (CostUnitsForTarget catalog (rd_Selected decision));
              mret (total + cost)
          | None, None => mret total
          end;
  throw_if MaxCostUnits <? total with ErrRoutingUsage ;;
  mret total.

Definition routingCostBeforeAttempt (nodeID : string) (nextAttempt : Z) : eff Z :=
  numbers ← ListAttempts nodeID;
  each (attempt_cost nodeID nextAttempt) 0 numbers.

(** The decision and the route index for a node with a pending target *)
Definition continue_route (node : NodeSnapshot) (pending : Target) : eff (RoutingDecisionV1 * Z) :=
  throw_if ns_CurrentAttempt node <? 1 with ErrPendingRoute ;;
  previous ← ReadAttempt (ns_ID node) (ns_CurrentAttempt node);
  match at_RoutingDecision previous with
  | None => raise ErrPendingRoute
  | Some decision =>
      if bool_decide (rd_Selected decision = pending)
      then mret (decision, match at_RoutingUsage previous with Some u => ru_RouteIndex u | None => 0 end)
      else
        next ← lift ErrRouting (AdvanceFallbackV1 decision);
        match next with
        | Some next =>
            throw_if negb (bool_decide (rd_Selected next = pending)) with ErrPendingRoute ;;
            mret (next, match at_RoutingUsage previous with Some u => ru_RouteIndex u + 1 | None => 1 end)
        | None => raise ErrPendingRoute
        end
  end.

Definition prepareAttemptRouting (node : NodeSnapshot) (driver : string) (requirement : RoutingRequirementV1)
    : eff (option (RoutingDecisionV1 * RoutingUsageV1)) :=
  resolved ← probe_routes driver requirement 2;
  match resolved with
  | None => mret None
  | Some decision =>
      route ← match ns_PendingRoutingTarget node with
              | Some pending => continue_route node pending
              | None => mret (decision, 0)
              end;
      let '(decision, routeIndex) := route in
      available ← ensureTargetAvailable (rd_Selected decision);
      throw_if negb available with ErrTargetUnavailable ;;
      throw_if Driver (rd_Selected decision) ≠s driver with ErrRoutingDriver driver ;;
      priorCost ← routingCostBeforeAttempt (ns_ID node) (ns_CurrentAttempt node + 1);
      catalog ← catalog_of decision;
      usage ← lift ErrRouting (ReserveRoutingUsageV1 catalog decision priorCost routeIndex);
      mret (Some (decision, usage))
  end.

Definition pendingRoutingTarget (node : NodeSnapshot) (allowFallback : bool) : eff (option Target) :=
  if ns_CurrentAttempt node <? 1 then mret None else
  previous ← ReadAttempt (ns_ID node) (ns_CurrentAttempt node);
  match at_RoutingDecision previous with
  | None => mret None
  | Some decision =>
      let dynamicRouting := match cp_EnsureTargetAvailable sv_catalogs with Some _ => true | None => false end in
      let classifiedUnavailable := at_FailureClass previous =s FailureModelUnavailablePreExecution in
      target ← (if allowFallback && (at_Conclusion previous =s ConclusionFailed) &&
                   (at_SideEffectStatus previous =s SideEffectNone) && (negb dynamicRouting || classifiedUnavailable)
                then next ← lift ErrRouting (AdvanceFallbackV1 decision);
                     mret (match next with Some next => rd_Selected next | None => rd_Selected decision end)
                else mret (rd_Selected decision));
      normalized ← ReadWorkflow;
      match d_Nodes (nz_Document normalized) !! ns_ID node with
      | None => raise (ErrWorkflowNode (ns_ID node))
      | Some definition =>
          selection ← lift ErrSelection (ResolveAgent (d_Defaults (nz_Document normalized)) definition);
          let preview := node_with node (ns_Phase node) (ns_Conclusion node) (ns_Reason node) (ns_Diagnostic node)
                           (ns_Result node) (ns_PendingInputAnswer node) (Some target) (ns_UpdatedAt node) in
          _ ← prepareAttemptRouting preview selection.1 (EffectiveRoutingRequirement (nz_Document normalized) definition);
          mret (Some target)
      end
  end.

(** ** Planning *)

Definition mutation (before after : NodeSnapshot) : actionNodeMutation := {| mt_Before := before; mt_After := after |}.

(** The set of the target and its descendants, in one pass over the order *)
Definition mark_descendants (normalized : Normalized) (target : string) : gset string :=
  foldl (fun descendants nodeID =>
      if existsb (fun dependency => seen_in dependency descendants) (n_DependsOn (node_at (nz_Document normalized) nodeID))
      then {[nodeID]} ∪ descendants else descendants)
    {[target]} (nz_TopologicalOrder normalized).

Definition reset_node (mutations : list actionNodeMutation) (nodeID : string) : eff (list actionNodeMutation) :=
  node ← ReadNode nodeID;
  if ns_Phase node =s NodePhaseSkipped then
    t ← now;
    mret (mutations ++ [mutation node
      (node_with node NodePhasePending "" "" (ns_Diagnostic node) None (ns_PendingInputAnswer node)
         (ns_PendingRoutingTarget node) t)])
  else mret mutations.

Definition planDownstreamReset (target : string) : eff (list actionNodeMutation) :=
  normalized ← ReadWorkflow;
  let ids := sort_strings (base.elements (mark_descendants normalized target ∖ {[target]})) in
  each reset_node [] ids.

(** ** Intents *)

Definition set_phase_applied (i : actionIntent) (phase : string) (applied : Z) : actionIntent := {|
  ai_Version := ai_Version i; ai_ActionID := ai_ActionID i; ai_RequestHash := ai_RequestHash i; ai_Type := ai_Type i;
  ai_NodeID := ai_NodeID i; ai_Phase := phase; ai_Applied := applied; ai_EventType := ai_EventType i;
  ai_Summary := ai_Summary i; ai_Action := ai_Action i; ai_Mutations := ai_Mutations i |}.

Definition prepareActionIntent (intent : actionIntent) : eff unit :=
  ids ← ListActionIntentIDs;
  match list_find (fun other => other <> ai_ActionID intent) ids with
  | Some (_, other) => raise (ErrPendingIntent other)
  | None => WriteActionIntent (ai_ActionID intent) intent
  end.

Definition finalizeAction (run : WorkflowSnapshot) (node : NodeSnapshot) (action : ResumeAction) (eventType summary : string)
    : eff WorkflowSnapshot :=
  t ← now;
  let run := set_cancel (set_run (set_summary run node) PhaseRunning "" "" "" summary t) false in
  let run := recordActionReceipt run (ra_ActionID action) (ra_ActionRequestHash action) in
  run ← persistRun run (Some node) eventType summary;
  if ra_ActionID action =s "" then mret run else
  _ ← RemoveActionIntent (ra_ActionID action);
  mret run.

(** The body of the loop over the mutations of an intent *)
Definition apply_mutation (action : ResumeAction) (s : WorkflowSnapshot * actionIntent) (entry : nat * actionNodeMutation)
    : eff (WorkflowSnapshot * actionIntent) :=
  let '(run, intent) := s in
  let '(index, m) := entry in
  current ← ReadNode (ns_ID (mt_After m));
  if Z.of_nat index <? ai_Applied intent then mret (set_summary run current, intent) else
  _ ← (if decide (current = mt_After m) then mret tt else
       throw_if negb (bool_decide (current = mt_Before m)) with ErrIntentConflict (ns_ID current) ;;
       WriteNode (ns_ID current) (mt_After m));
  let run := set_summary run (mt_After m) in
  if (ra_ActionID action ≠s "") && (ai_Applied intent <? Z.of_nat index + 1) then
    let intent := set_phase_applied intent (ai_Phase intent) (Z.of_nat index + 1) in
    _ ← WriteActionIntent (ra_ActionID action) intent;
    mret (run, intent)
  else mret (run, intent).

(** No caller passes an intent without mutations. *)
Definition applyActionIntent (run : WorkflowSnapshot) (action : ResumeAction) (intent : actionIntent) : eff WorkflowSnapshot :=
  match ai_Mutations intent with
  | [] => raise (ErrIntentEvidence (ai_ActionID intent))
  | first :: _ =>
      s ← each (apply_mutation action) (run, intent) (imap pair (ai_Mutations intent));
      finalizeAction s.1 (mt_After first) action (ai_EventType intent) (ai_Summary intent)
  end.

Definition resumeActionIntent (run : WorkflowSnapshot) (action : ResumeAction) (intent : actionIntent) : eff WorkflowSnapshot :=
  throw_if negb (ai_Version intent =? actionIntentVersion) ||
           ((ai_Phase intent ≠s actionIntentPlanned) && (ai_Phase intent ≠s actionIntentApplying)) ||
           (len_slice (ai_Mutations intent) =? 0) with ErrIntentEvidence (ai_ActionID intent) ;;
  intent ← (if ai_Phase intent =s actionIntentPlanned then
              let intent := set_phase_applied intent actionIntentApplying (ai_Applied intent) in
              _ ← WriteActionIntent (ra_ActionID action) intent;
              mret intent
            else mret intent);
  applyActionIntent run action intent.

Definition AbortActionIntent (actionID requestHash : string) : eff unit :=
  found ← ReadActionIntent actionID;
  match found with
  | None => mret tt
  | Some intent =>
      throw_if ai_RequestHash intent ≠s requestHash with ErrIntentHash ;;
      if (ai_Version intent =? actionIntentVersion) && (ai_Phase intent =s actionIntentPlanned) && (ai_Applied intent =? 0)
      then RemoveActionIntent actionID
      else mret tt
  end.

(** ** applyAction *)

(** What the type switch decides: a plan, or the repetition of a decision *)
Inductive action_plan :=
| Repeated (node : NodeSnapshot) (summary : string)
| Planned (mutations : list actionNodeMutation) (eventType summary : string).

Definition plan_approval (node : NodeSnapshot) (action : ResumeAction) : eff action_plan :=
  let decision := if ra_Type action =s "approve" then "approved" else "rejected" in
  let decided := match ns_Result node with Some r => r_Decision r | None => "" end in
  if decided ≠s "" then
    if (decided =s decision) && match ns_Result node with Some r => r_Reason r =s ra_Reason action | None => false end
    then mret (Repeated node ("approval " +:+ decision))
    else raise (ErrConflictingDecision (ns_ID node))
  else
    throw_if (ns_Type node ≠s "approval") || (ns_Phase node ≠s NodePhaseWaiting) || (ns_Reason node ≠s ReasonApprovalRequired)
      with ErrNotWaitingApproval (ns_ID node) ;;
    t ← now;
    let result := {| r_Summary := ""; r_Artifacts := None; r_Warnings := None; r_Checks := None; r_Questions := [];
                     r_Usage := {| us_InputTokensEstimated := 0; us_OutputTokensEstimated := 0 |};
                     r_Decision := decision; r_Reason := ra_Reason action |} in
    let conclusion := if decision =s "approved" then ConclusionSucceeded else ConclusionRejected in
    mret (Planned [mutation node (node_with node NodePhaseCompleted conclusion "" (ns_Diagnostic node) (Some result)
                                    (ns_PendingInputAnswer node) (ns_PendingRoutingTarget node) t)]
            "node.approval_decided" ("approval " +:+ decision)).

Definition plan_retry (node : NodeSnapshot) (action : ResumeAction) : eff action_plan :=
  let allowed := (ns_Phase node =s NodePhaseWaiting) &&
    ((ns_Reason node =s ReasonAgentWaitingInput) || (ns_Reason node =s ReasonCompletionMissing) ||
     (ns_Reason node =s ReasonInvalidResult)) in
  let allowed := allowed || ((ns_Phase node =s NodePhaseCompleted) &&
    ((ns_Conclusion node =s ConclusionFailed) || (ns_Conclusion node =s ConclusionIndeterminate))) in
  throw_if negb allowed || (ns_CurrentAttempt node <? 1) with ErrNotRetryable (ns_ID node) ;;
  throw_if (ns_Conclusion node =s ConclusionIndeterminate) && negb (ra_AcknowledgeDuplicateRisk action)
    with ErrDuplicateRisk (ns_ID node) ;;
  pendingRoute ← pendingRoutingTarget node true;
  t ← now;
  downstream ← planDownstreamReset (ns_ID node);
  mret (Planned (mutation node (node_with node NodePhaseReady "" "" (ns_Diagnostic node) None
                                  (ns_PendingInputAnswer node) pendingRoute t) :: downstream)
          "node.retry_requested" "explicit retry requested").

Definition plan_answer (node : NodeSnapshot) (action : ResumeAction) : eff action_plan :=
  let questions := match ns_Result node with Some r => r_Questions r | None => [] end in
  throw_if (ns_Type node ≠s "agent") || (ns_Phase node ≠s NodePhaseWaiting) || (ns_Reason node ≠s ReasonAgentWaitingInput) ||
           (len_slice questions =? 0) with ErrNotWaitingInput (ns_ID node) ;;
  throw_if match ra_ExpectedAttempt action with Some n => negb (n =? ns_CurrentAttempt node) | None => true end
    with ErrAttemptConflict (ns_CurrentAttempt node) ;;
  inputAnswer ← lift id (validateAndEncodeAnswers (ns_CurrentAttempt node) questions (ra_Answers action));
  pendingRoute ← pendingRoutingTarget node false;
  t ← now;
  downstream ← planDownstreamReset (ns_ID node);
  mret (Planned (mutation node (node_with node NodePhaseReady "" "" "" None (Some inputAnswer) pendingRoute t) :: downstream)
          "node.answer_submitted" "input answer submitted").

(** The switch over the type of the action *)
Definition plan_action (action : ResumeAction) : eff action_plan :=
  throw_if ra_NodeID action =s "" with ErrActionNode ;;
  node ← ReadNode (ra_NodeID action);
  if (ra_Type action =s "approve") || (ra_Type action =s "reject") then plan_approval node action
  else if ra_Type action =s "retry" then plan_retry node action
  else if ra_Type action =s "answer" then plan_answer node action
  else raise (ErrActionType (ra_Type action)).

Definition new_intent (action : ResumeAction) (mutations : list actionNodeMutation) (eventType summary : string) : actionIntent := {|
  ai_Version := actionIntentVersion; ai_ActionID := ra_ActionID action; ai_RequestHash := ra_ActionRequestHash action;
  ai_Type := ra_Type action; ai_NodeID := ra_NodeID action; ai_Phase := actionIntentPlanned; ai_Applied := 0;
  ai_EventType := eventType; ai_Summary := summary; ai_Action := action; ai_Mutations := mutations |}.

Definition applyAction (run : WorkflowSnapshot) (action : ResumeAction) : eff WorkflowSnapshot :=
  plan ← plan_action action;
  match plan with
  | Repeated node summary =>
      if ws_Phase run =s PhaseCompleted then mret run
      else finalizeAction run node action "node.approval_decided" summary
  | Planned mutations eventType summary =>
      let intent := new_intent action mutations eventType summary in
      let applying := set_phase_applied intent actionIntentApplying 0 in
      if ra_ActionID action =s "" then applyActionIntent run action applying else
      _ ← prepareActionIntent intent;
      _ ← WriteActionIntent (ra_ActionID action) applying;
      applyActionIntent run action applying
  end.

(** ** Resume *)

(** [_ = f()]: an error is dropped, not a crash *)
Definition ignore_error (m : eff unit) : eff unit := fun w =>
  match m w with Failed _ w' => Done tt w' | other => other end.

(** The body of the loop of hasSettledNeedsInput: [None] is "return false" *)
Definition settled_node (found : option bool) (node : NodeSnapshot) : eff (option bool) :=
  match found with
  | None => mret None
  | Some found =>
      if ns_Type node ≠s "agent" then mret (Some found)
      else if ns_Phase node =s NodePhaseRunning then mret None
      else if ns_Phase node ≠s NodePhaseWaiting then mret (Some found)
      else if ns_Reason node ≠s ReasonAgentWaitingInput then mret None
      else if (ns_CurrentAttempt node <? 1) ||
              match ns_Result node with Some r => len_slice (r_Questions r) =? 0 | None => true end then mret None
      else
        attempt ← ReadAttempt (ns_ID node) (ns_CurrentAttempt node);
        mret (if negb (at_ResultConsumed attempt) || (at_Phase attempt ≠s NodePhaseWaiting) ||
                 (at_Reason attempt ≠s ReasonAgentWaitingInput) then None else Some true)
  end.

Definition hasSettledNeedsInput (nodes : list NodeSnapshot) : eff bool :=
  found ← each settled_node (Some false) nodes;
  mret (default false found).

(** Resume between the lease and the start of the controller: the run, and
    whether a controller is started.  The run is of protocol version 2. *)
Definition resume_pending (run : WorkflowSnapshot) (action : ResumeAction) : eff (option WorkflowSnapshot) :=
  match ws_ActionReceipts run !! ra_ActionID action with
  | Some receipt =>
      throw_if rc_RequestHash receipt ≠s ra_ActionRequestHash action with ErrActionBound (ra_ActionID action) ;;
      _ ← ignore_error (RemoveActionIntent (ra_ActionID action));
      mret (Some run)
  | None =>
      found ← ReadActionIntent (ra_ActionID action);
      match found with
      | None => mret None
      | Some intent =>
          throw_if (ai_RequestHash intent ≠s ra_ActionRequestHash action) || (ai_Type intent ≠s ra_Type action) ||
                   (ai_NodeID intent ≠s ra_NodeID action) || negb (bool_decide (ai_Action intent = action))
            with ErrActionBound (ra_ActionID action) ;;
          run ← resumeActionIntent run action intent;
          mret (Some run)
      end
  end.

Definition resume_new (run : WorkflowSnapshot) (nodes : list NodeSnapshot) (expectedStateVersion : option Z)
    (action : option ResumeAction) : eff (WorkflowSnapshot * bool) :=
  throw_if match expectedStateVersion with Some v => negb (ws_StateVersion run =? v) | None => false end
    with ErrStateVersionConflict (default 0 expectedStateVersion) (ws_StateVersion run) ;;
  match action with
  | Some action =>
      _ ← lift id (validateResumeAction action);
      run ← applyAction run action;
      mret (run, ws_Phase run ≠s PhaseCompleted)
  | None =>
      if ws_Phase run =s PhaseCompleted then mret (run, false) else
      settled ← (if (ws_Phase run =s PhaseWaiting) && (ws_Reason run =s ReasonAgentWaitingInput)
                 then hasSettledNeedsInput nodes else mret false);
      if (settled : bool) then mret (run, false) else
      throw_if ws_CancelRequested run with ErrCancellationPending ;;
      if (ws_Phase run =s PhaseWaiting) && (ws_Reason run =s ReasonApprovalRequired) then mret (run, false) else
      t ← now;
      let run := set_run run PhaseRunning "" "" (ws_ActiveNodeID run) "controller resumed" t in
      run ← persistRun run None "run.resumed" (ws_Summary run);
      mret (run, ws_Phase run ≠s PhaseCompleted)
  end.

Definition Resume (expectedStateVersion : option Z) (action : option ResumeAction) : eff (WorkflowSnapshot * bool) :=
  _ ← resetEventSequence;
  loaded ← loadRun;
  let '(run, nodes) := loaded in
  pending ← match action with
            | Some action => if ra_ActionID action ≠s "" then
                               found ← resume_pending run action;
                               mret (pair (bool_decide (is_Some (ws_ActionReceipts run !! ra_ActionID action))) <$> found)
                             else mret None
            | None => mret None
            end;
  match pending with
  | Some (received, run) => mret (run, negb received && (ws_Phase run ≠s PhaseCompleted))
  | None => resume_new run nodes expectedStateVersion action
  end.

(** skipUnstarted *)
Definition skip_unstarted_node (reason : string) (run : WorkflowSnapshot) (nodeID : string) : eff WorkflowSnapshot :=
  node ← ReadNode nodeID;
  if (ns_Phase node =s NodePhasePending) || (ns_Phase node =s NodePhaseReady) ||
     ((ns_Phase node =s NodePhaseWaiting) && (ns_Type node =s "approval")) then
    t ← now;
    let node := node_with node NodePhaseSkipped (ns_Conclusion node) reason (ns_Diagnostic node) (ns_Result node)
                  (ns_PendingInputAnswer node) (ns_PendingRoutingTarget node) t in
    _ ← WriteNode nodeID node;
    mret (set_summary run node)
  else mret run.
Definition skipUnstarted (run : WorkflowSnapshot) (reason : string) : eff WorkflowSnapshot :=
  each (skip_unstarted_node reason) run (ws_TopologicalOrder run).
End Actions.
