(* ===== verification/RunReceipts.v ===== *)
(** * The receipts of a run

    recordActionReceipt keeps the 256 newest receipts: which ones does not
    depend on the order in which the map is enumerated, and the receipt of the
    action itself is always among them. *)

From S2P Require Import Prelude GoText Routing Resolver Catalog Workflow Context Backend RunState Scheduler.
From S2P Require Import RunStore RunOps RunActions.
From S2P Require Import SchedulerTheory.
#[local] Open Scope string_scope.
#[local] Open Scope list_scope.
#[local] Open Scope Z_scope.

(** The order of the code on receipts: by version, then by id *)
Definition before (a b : string * Z) : bool := (a.2 <? b.2) || ((a.2 =? b.2) && String.ltb a.1 b.1).

Lemma before_iff a b : before a b = true <-> a.2 < b.2 \/ (a.2 = b.2 /\ String.ltb a.1 b.1 = true).
Proof. unfold before. by rewrite orb_true_iff, andb_true_iff, Z.ltb_lt, Z.eqb_eq. Qed.

Lemma before_asym a b : before a b = true -> before b a = true -> False.
Proof.
  rewrite !before_iff. intros [Ha|[Ha Ha']] [Hb|[Hb Hb']]; try lia. apply string_ltb_asym in Ha'. congruence.
Qed.

Lemma before_trans a b c : before a b = true -> before b c = true -> before a c = true.
Proof.
  rewrite !before_iff. intros [Ha|[Ha Ha']] [Hb|[Hb Hb']]; try (left; lia). right. split; [lia|by eapply string_ltb_trans].
Qed.

Lemma not_before a b : before a b = false -> a = b \/ before b a = true.
Proof.
  destruct a as [i v], b as [j w]. intros Hb. destruct (decide (i = j /\ v = w)) as [[-> ->]|Hne]; [by left|right].
  apply before_iff. apply not_true_iff_false in Hb. rewrite before_iff in Hb. cbn in *.
  destruct (Z.eq_dec v w) as [->|Hv]; [|left; lia]. right. split; [done|].
  apply string_ltb_total; [naive_solver|]. apply not_true_iff_false. naive_solver.
Qed.

Lemma before_not_before a b c : before a b = true -> (c = b \/ before b c = true) -> c = a \/ before a c = true.
Proof. intros Hab [->|Hbc]; right; [done|by eapply before_trans]. Qed.

(** The pair that the code compares *)
Definition age (entry : string * ActionReceipt) : string * Z := (entry.1, rc_StateVersion entry.2).

Lemma older_spec oldest entry : older oldest entry = if (oldest.1 =s "") || before (age entry) oldest then age entry else oldest.
Proof.
  destruct oldest as [i v], entry as [j r]. unfold older, before, age. cbn. by rewrite orb_assoc.
Qed.

Lemma foldl_older l o :
  o.1 <> "" -> (forall e, e ∈ l -> e.1 <> "") ->
  (foldl older o l = o \/ foldl older o l ∈ map age l) /\
  (forall a, a = o \/ a ∈ map age l -> a = foldl older o l \/ before (foldl older o l) a = true).
Proof.
  revert o. induction l as [|e l IH]; intros o Ho Hl; cbn [foldl map].
  { split; [by left|]. intros a [->|Ha]; [by left|inversion Ha]. }
  rewrite older_spec. rewrite (proj2 (String.eqb_neq _ _) Ho). cbn [orb].
  assert (forall e, e ∈ l -> e.1 <> "") as Hl' by (intros e' He'; apply Hl; by right).
  destruct (before (age e) o) eqn:Eb.
  - destruct (IH (age e)) as [Hin Hmin]; [apply (Hl e); by left|done|]. split.
    + right. rewrite elem_of_cons. destruct Hin as [->|Hin]; [by left|by right].
    + intros a [->|Ha%elem_of_cons].
      * destruct (Hmin (age e)) as [Hm|Hm]; [by left|rewrite <-Hm; by right|right; by eapply before_trans].
      * apply Hmin. tauto.
  - destruct (IH o) as [Hin Hmin]; [done|done|]. split.
    + destruct Hin as [Hin|Hin]; [by left|right; by right].
    + intros a [->|[->|Ha]%elem_of_cons]; [apply Hmin; by left| |apply Hmin; by right].
      destruct (not_before _ _ Eb) as [->|Hlt]; [apply Hmin; by left|].
      destruct (Hmin o) as [Hm|Hm]; [by left|rewrite <-Hm; by right|right; by eapply before_trans].
Qed.

Section Receipts.
Context `{GoRange}.
Implicit Types m kept : gmap string ActionReceipt.

Definition oldest (m : gmap string ActionReceipt) : string :=
  (foldl older ("", 0) (go_range "recordActionReceipt" m)).1.

Lemma oldest_spec m :
  m <> ∅ -> m !! "" = None ->
  exists r, m !! oldest m = Some r /\
    forall id r', m !! id = Some r' -> id = oldest m \/ before (oldest m, rc_StateVersion r) (id, rc_StateVersion r') = true.
Proof.
  intros Hne Hempty. unfold oldest. remember (go_range "recordActionReceipt" m) as l eqn:El.
  assert (forall e, e ∈ l -> e.1 <> "") as Hl.
  { intros [id r] He Hid. cbn in Hid. subst id. rewrite El in He. apply go_range_elem in He. congruence. }
  destruct l as [|e l'].
  { exfalso. apply Hne. apply map_size_empty_inv. by rewrite <-(go_range_length "recordActionReceipt"), <-El. }
  cbn [foldl]. rewrite older_spec. cbn [fst String.eqb orb].
  destruct (foldl_older l' (age e)) as [Hin Hmin]; [apply (Hl e); by left|intros e' He'; apply Hl; by right|].
  assert (foldl older (age e) l' ∈ map age (e :: l')) as Hmem by (cbn; rewrite elem_of_cons; tauto).
  apply list_elem_of_fmap in Hmem as ([id r] & Hage & He). rewrite El in He. apply go_range_elem in He.
  exists r. rewrite Hage in *. split; [done|]. intros id' r' Hid'.
  destruct (Hmin (age (id', r'))) as [Hm|Hm].
  - apply (go_range_elem "recordActionReceipt") in Hid'. rewrite <-El in Hid'.
    apply elem_of_cons in Hid' as [<-|Hid']; [by left|right; by apply list_elem_of_fmap_2].
  - left. exact (f_equal fst Hm).
  - by right.
Qed.

(** [kept] is what remains of [m] when the oldest are dropped. *)
Definition newest_of (m kept : gmap string ActionReceipt) : Prop :=
  kept ⊆ m /\ size kept = Nat.min maxActionReceipts (size m) /\
  forall id r id' r', m !! id = Some r -> kept !! id = None -> kept !! id' = Some r' ->
    before (id, rc_StateVersion r) (id', rc_StateVersion r') = true.

Lemma newest_of_unique m kept kept' : newest_of m kept -> newest_of m kept' -> kept = kept'.
Proof.
  assert (forall k k', newest_of m k -> newest_of m k' -> forall id r, k !! id = Some r -> k' !! id = Some r) as Hsub.
  { intros k k' (Hk & Hs & Hold) (Hk' & Hs' & Hold') id r Hid. destruct (k' !! id) as [r'|] eqn:E.
    { f_equal. apply (lookup_weaken _ _ _ _ E) in Hk'. apply (lookup_weaken _ _ _ _ Hid) in Hk. congruence. }
    exfalso. assert (~ k' ⊆ k) as Hns.
    { intros Hkk. assert (size k' < size k)%nat; [|lia]. apply map_subset_size. split; [done|].
      intros Hkk'. apply (lookup_weaken _ _ _ _ Hid) in Hkk'. congruence. }
    apply Hns. apply map_subseteq_spec. intros id' r' Hid'. destruct (k !! id') as [r2|] eqn:E2.
    { f_equal. apply (lookup_weaken _ _ _ _ E2) in Hk. apply (lookup_weaken _ _ _ _ Hid') in Hk'. congruence. }
    exfalso. apply (before_asym (id, rc_StateVersion r) (id', rc_StateVersion r')).
    - eapply Hold'; [|done|done]. by eapply lookup_weaken.
    - eapply Hold; [|done|done]. by eapply lookup_weaken. }
  intros Hk Hk'. apply map_eq. intros id. apply option_eq. intros r. split; by apply Hsub.
Qed.

Lemma evict_newest fuel m : m !! "" = None -> (size m <= fuel + maxActionReceipts)%nat -> newest_of m (evict fuel m).
Proof.
  revert m. induction fuel as [|fuel IH]; intros m Hempty Hfuel; cbn [evict];
    destruct (Z.of_nat maxActionReceipts <? Z.of_nat (size m)) eqn:Es; bool_props;
    try (split; [done|]; split; [lia|]; intros; congruence); try lia.
  fold (oldest m).
  destruct (oldest_spec m) as (r0 & Hr0 & Hmin); [intros ->; rewrite map_size_empty in Es; unfold maxActionReceipts in Es; lia|done|].
  assert (size (delete (oldest m) m) = size m - 1)%nat as Hsize by (rewrite map_size_delete_Some; [lia|by eexists]).
  destruct (IH (delete (oldest m) m)) as (Hsub & Hsz & Hold).
  { apply lookup_delete_None. by right. }
  { lia. }
  split; [etrans; [exact Hsub|apply delete_subseteq]|]. split; [lia|].
  intros id r id' r' Hid Hnone Hid'. pose proof (lookup_weaken _ _ _ _ Hid' Hsub) as [Hne' Hm']%lookup_delete_Some.
  destruct (decide (id = oldest m)) as [->|Hne].
  - rewrite Hr0 in Hid. injection Hid as <-. destruct (Hmin _ _ Hm') as [->|Hb]; [done|exact Hb].
  - eapply Hold; [|done|done]. by rewrite lookup_delete_ne.
Qed.

(** The receipt that an action adds *)
Definition new_receipt (run : WorkflowSnapshot) (actionID requestHash : string) : ActionReceipt := {|
  rc_ActionID := actionID; rc_RequestHash := requestHash; rc_StateVersion := wrap_uint64 (ws_StateVersion run + 1);
  rc_Phase := ws_Phase run; rc_Conclusion := ws_Conclusion run |}.

(** The receipts of a valid snapshot: named, and not newer than the run *)
Definition receipts_ok (run : WorkflowSnapshot) : Prop :=
  ws_ActionReceipts run !! "" = None /\
  forall id r, ws_ActionReceipts run !! id = Some r -> rc_StateVersion r <= ws_StateVersion run.

Lemma record_newest run actionID requestHash :
  actionID <> "" -> ws_ActionReceipts run !! "" = None ->
  newest_of (<[actionID := new_receipt run actionID requestHash]> (ws_ActionReceipts run))
    (ws_ActionReceipts (recordActionReceipt run actionID requestHash)).
Proof.
  intros Hid Hempty. unfold recordActionReceipt. rewrite (proj2 (String.eqb_neq _ _) Hid). cbn [set_receipts run_with ws_ActionReceipts].
  fold (new_receipt run actionID requestHash). apply evict_newest; [by rewrite lookup_insert_ne|lia].
Qed.

(** A new receipt is not dropped. *)
Lemma record_kept run actionID requestHash :
  actionID <> "" -> receipts_ok run -> 0 <= ws_StateVersion run < 2 ^ 64 - 1 ->
  ws_ActionReceipts (recordActionReceipt run actionID requestHash) !! actionID = Some (new_receipt run actionID requestHash).
Proof.
  intros Hid [Hempty Hver] Hrange. destruct (record_newest run actionID requestHash Hid Hempty) as (Hsub & Hsize & Hold).
  set (kept := ws_ActionReceipts (recordActionReceipt run actionID requestHash)) in *.
  destruct (kept !! actionID) as [r|] eqn:E.
  { apply (lookup_weaken _ _ _ _ E) in Hsub. rewrite lookup_insert_eq in Hsub. congruence. }
  exfalso. assert (kept <> ∅) as Hne.
  { intros Hk. rewrite Hk, map_size_empty in Hsize. assert (size (<[actionID:=new_receipt run actionID requestHash]> (ws_ActionReceipts run)) <> 0%nat).
    { intros Hz%map_size_empty_inv. exact (insert_non_empty _ _ _ Hz). }
    unfold maxActionReceipts in Hsize. lia. }
  apply map_choose in Hne as (id' & r' & Hid').
  pose proof (Hold actionID _ id' r' (lookup_insert_eq _ _ _) E Hid') as Hb.
  pose proof (lookup_weaken _ _ _ _ Hid' Hsub) as Hm. assert (id' <> actionID) by congruence.
  rewrite lookup_insert_ne in Hm by done. apply Hver in Hm. unfold before in Hb. cbn in Hb. rewrite wrap_uint64_id in Hb by lia.
  apply orb_true_iff in Hb as [Hb|[Hb _]%andb_true_iff]; bool_props; lia.
Qed.
End Receipts.

(** Recording a receipt in a run whose receipts are named and not newer than
    the run keeps at most 256 receipts; nothing is dropped below that bound,
    and what is dropped is older than all that is kept (by state version, then
    by id); the new receipt is kept, at the version that the run is about to
    get; and which receipts are kept does not depend on the order in which Go
    enumerates the map. *)
Theorem recordActionReceipt_spec (R R' : GoRange) run actionID requestHash :
  actionID <> "" -> receipts_ok run -> 0 <= ws_StateVersion run < 2 ^ 64 - 1 ->
  let kept := ws_ActionReceipts (@recordActionReceipt R run actionID requestHash) in
  newest_of (<[actionID := new_receipt run actionID requestHash]> (ws_ActionReceipts run)) kept /\
  kept !! actionID = Some {| rc_ActionID := actionID; rc_RequestHash := requestHash; rc_StateVersion := ws_StateVersion run + 1;
                             rc_Phase := ws_Phase run; rc_Conclusion := ws_Conclusion run |} /\
  @recordActionReceipt R' run actionID requestHash = @recordActionReceipt R run actionID requestHash.
Proof.
  intros Hid Hok Hrange kept. split; [by apply record_newest; [|apply Hok]|]. split.
  - unfold kept. rewrite record_kept by done. unfold new_receipt. by rewrite wrap_uint64_id by lia.
  - assert (ws_ActionReceipts (@recordActionReceipt R' run actionID requestHash) = kept) as Heq.
    { eapply newest_of_unique; [apply (record_newest (H := R'))|apply record_newest]; by (done || apply Hok). }
    unfold kept in Heq. unfold recordActionReceipt in *. rewrite (proj2 (String.eqb_neq _ _) Hid) in *. cbn in Heq. by rewrite Heq.
Qed.

(** A run with 256 receipts, at the versions 0 to 6 *)
Definition full_run : WorkflowSnapshot :=
  set_receipts (sample_run []) (list_to_map (map (fun i =>
    let id := "action-" +:+ pretty (N.of_nat i) in
    (id, {| rc_ActionID := id; rc_RequestHash := "h"; rc_StateVersion := Z.of_nat i mod 7; rc_Phase := PhaseRunning;
            rc_Conclusion := "" |})) (seq 0 256))).

Lemma full_run_receipts : receipts_ok full_run /\ size (ws_ActionReceipts full_run) = 256%nat.
Proof.
  split; [split|]; [vm_compute; reflexivity| |vm_compute; reflexivity].
  assert (map_Forall (fun _ r => rc_StateVersion r <= 7) (ws_ActionReceipts full_run)) as Hall; [|exact Hall].
  apply (bool_decide_unpack _). vm_compute. exact I.
Qed.

(** The oldest receipt makes room for the new one. *)
Lemma recordActionReceipt_spec_witness :
  let kept := ws_ActionReceipts (@recordActionReceipt canonical_range full_run "new" "h") in
  kept !! "action-0" = None /\
  newest_of (<["new" := new_receipt full_run "new" "h"]> (ws_ActionReceipts full_run)) kept /\
  kept !! "new" = Some {| rc_ActionID := "new"; rc_RequestHash := "h"; rc_StateVersion := 7 + 1;
                          rc_Phase := PhaseRunning; rc_Conclusion := "" |} /\
  @recordActionReceipt canonical_range full_run "new" "h" = @recordActionReceipt canonical_range full_run "new" "h".
Proof.
  split; [vm_compute; reflexivity|].
  apply (recordActionReceipt_spec canonical_range canonical_range full_run "new" "h"); [discriminate|apply full_run_receipts|cbn; lia].
Defined.
