(* ===== verification/Cancellation.v ===== *)
(** * Cancellation of a run

    internal/run/cancellation.go and the cancellation methods of service.go:
    the intent to cancel is persisted first, then every active attempt is
    cancelled at its backend, then the outcomes are applied. *)

From S2P Require Import Prelude GoText Json Routing Resolver Catalog Workflow Topology Template Context Backend.
From S2P Require Import RunState Scheduler RunStore RunOps RunActions.
#[local] Open Scope string_scope.
#[local] Open Scope list_scope.
#[local] Open Scope Z_scope.

Record cancellationTarget := { ct_nodeID : string; ct_attempt : Z }.
Record cancellationOutcome := { cx_target : cancellationTarget; cx_confirmed : bool; cx_diagnostic : string }.
(** What the store keeps of a request to cancel *)
Record CancelRequest := { cq_ExpectedStateVersion : option Z; cq_ActionID : string; cq_ActionRequestHash : string }.

Section Cancel.
Context `{GoRange} `{CatalogDigest} `{Service}.

(** The loop that collects the active attempts and the name of their driver *)
Definition collect_target (s : list cancellationTarget * string) (node : NodeSnapshot)
    : eff (list cancellationTarget * string) :=
  let '(targets, backendName) := s in
  if (ns_Type node ≠s "agent") || (ns_CurrentAttempt node <? 1) ||
     ((ns_Phase node ≠s NodePhaseRunning) && (ns_Phase node ≠s NodePhaseWaiting)) then mret s else
  attempt ← ReadAttempt (ns_ID node) (ns_CurrentAttempt node);
  if (at_Phase attempt =s NodePhaseCompleted) && (at_Conclusion attempt =s ConclusionCancelled) then mret s else
  throw_if (backendName ≠s "") && (attemptDriver attempt ≠s backendName) with ErrMixedDrivers ;;
  mret (targets ++ [{| ct_nodeID := ns_ID node; ct_attempt := ns_CurrentAttempt node |}],
        if backendName =s "" then attemptDriver attempt else backendName).

(** markConcurrentCancellationIntent up to the question whether the driver can
    cancel concurrently: the targets and the name of their driver *)
Definition markConcurrentCancellationIntent (request : CancelRequest) : eff (list cancellationTarget * string) :=
  loaded ← loadRun;
  let '(run, nodes) := loaded in
  throw_if match cq_ExpectedStateVersion request with Some v => negb (ws_StateVersion run =? v) | None => false end
    with ErrStateVersionConflict (default 0 (cq_ExpectedStateVersion request)) (ws_StateVersion run) ;;
  if ws_Phase run =s PhaseCompleted then mret ([], "") else
  _ ← (if negb (ws_CancelRequested run) || (ws_Phase run ≠s PhaseCancelling) then
         t ← now;
         let run := set_cancel (set_run run PhaseCancelling "" "" (ws_ActiveNodeID run) "workflow cancellation requested" t) true in
         let run := recordActionReceipt run (cq_ActionID request) (cq_ActionRequestHash request) in
         _ ← persistRun run None "run.cancelling" (ws_Summary run);
         mret tt
       else mret tt);
  each collect_target ([], "") nodes.

(** cancelTarget: [waited] is what waitForCancellationHandle returned (or the
    text of its error), [found] the registry's answer for the driver and
    [cancelled] the answer of its Cancel *)
Definition cancelTarget (target : cancellationTarget) (waited : result string (AttemptSnapshot * option ExecutionHandle))
    (found : result string unit) (cancelled : result string (option CancelResult)) : cancellationOutcome :=
  let outcome confirmed diagnostic := {| cx_target := target; cx_confirmed := confirmed; cx_diagnostic := diagnostic |} in
  match waited with
  | Err text => outcome false text
  | Ok (attempt, handle) =>
      if at_Phase attempt =s NodePhaseCompleted then outcome true "" else
      match handle with
      | None => outcome true ""
      | Some _ =>
          match found with Err text => outcome false text | Ok _ =>
          match cancelled with
          | Err text => outcome false ("cancel Backend execution: " +:+ text)
          | Ok None => outcome false "Backend returned no cancellation result"
          | Ok (Some r) =>
              match ValidateCancelResult r with
              | Err e => outcome false (BackendError_Error e)
              | Ok _ =>
                  if ca_State r ≠s CancelConfirmed then
                    outcome false ("Backend did not confirm execution cancellation" +:+
                      (if trim_space (ca_Diagnostic r) ≠s "" then ": " +:+ ca_Diagnostic r else ""))
                  else outcome true ""
              end
          end end
      end
  end.

(** The variables of the loop over the outcomes *)
Record cancel_state := { cs_run : WorkflowSnapshot; cs_nodes : list NodeSnapshot; cs_unresolved : list string }.

Definition apply_outcome (s : cancel_state) (outcome : cancellationOutcome) : eff cancel_state :=
  found ← find_node (cs_nodes s) (ct_nodeID (cx_target outcome));
  let '(index, node) := found in
  attempt ← ReadAttempt (ns_ID node) (ct_attempt (cx_target outcome));
  t ← now;
  let diagnostic := if cx_diagnostic outcome =s "" then "cancellation was not confirmed" else cx_diagnostic outcome in
  let attempt :=
    if cx_confirmed outcome
    then attempt_with attempt NodePhaseCompleted ConclusionCancelled ReasonUserRequested (at_ResultConsumed attempt)
           (at_SideEffectStatus attempt) (at_FailureClass attempt) t (Some t)
    else attempt_with attempt NodePhaseWaiting "" ReasonCancelFailed (at_ResultConsumed attempt)
           (at_SideEffectStatus attempt) (at_FailureClass attempt) t None in
  let node :=
    if cx_confirmed outcome
    then node_with node NodePhaseCompleted ConclusionCancelled ReasonUserRequested "" (ns_Result node)
           (ns_PendingInputAnswer node) (ns_PendingRoutingTarget node) t
    else node_with node NodePhaseWaiting "" ReasonCancelFailed diagnostic (ns_Result node)
           (ns_PendingInputAnswer node) (ns_PendingRoutingTarget node) t in
  _ ← WriteNode (ns_ID node) node;
  _ ← writeAttempt attempt false;
  run ← persistRun (set_summary (cs_run s) node) (Some node)
          (if cx_confirmed outcome then "node.cancelled" else "node.cancel_failed") (ns_Diagnostic node);
  mret {| cs_run := run; cs_nodes := <[index := node]> (cs_nodes s);
          cs_unresolved := cs_unresolved s ++
            (if cx_confirmed outcome then [] else [ns_ID node +:+ ": " +:+ diagnostic]) |}.

(** The loop that skips what has not started *)
Definition cancel_unstarted (diagnostic : NodeSnapshot -> string) (run : WorkflowSnapshot) (node : NodeSnapshot)
    : eff WorkflowSnapshot :=
  if (ns_Phase node =s NodePhasePending) || (ns_Phase node =s NodePhaseReady) ||
     ((ns_Phase node =s NodePhaseWaiting) && (ns_Type node =s "approval")) then
    t ← now;
    let node := node_with node NodePhaseSkipped (ns_Conclusion node) ReasonWorkflowCancelled (diagnostic node) (ns_Result node)
                  (ns_PendingInputAnswer node) (ns_PendingRoutingTarget node) t in
    _ ← WriteNode (ns_ID node) node;
    mret (set_summary run node)
  else mret run.

Definition last_unconfirmed (outcomes : list cancellationOutcome) (default : string) : string :=
  foldl (fun active outcome => if cx_confirmed outcome then active else ct_nodeID (cx_target outcome)) default outcomes.

(** applyCancellationOutcomes: the run, or the error that sums up what was
    not cancelled *)
Definition applyCancellationOutcomes (outcomes : list cancellationOutcome) : eff WorkflowSnapshot :=
  loaded ← loadRun;
  let '(run, nodes) := loaded in
  if ws_Phase run =s PhaseCompleted then mret run else
  s ← each apply_outcome {| cs_run := run; cs_nodes := nodes; cs_unresolved := [] |} outcomes;
  let run := cs_run s in
  match cs_unresolved s with
  | _ :: _ =>
      t ← now;
      let summary := join "; " (cs_unresolved s) in
      let active := if len_slice (cs_unresolved s) =? 1 then last_unconfirmed outcomes "" else "" in
      let run := set_cancel (set_run run PhaseWaiting "" ReasonCancelFailed active summary t) true in
      _ ← persistRun run None "run.cancel_failed" summary;
      raise (ErrCancelUnresolved summary)
  | [] =>
      run ← each (cancel_unstarted (fun _ => "")) run (cs_nodes s);
      t ← now;
      let run := set_cancel (set_run run PhaseCompleted ConclusionCancelled ReasonUserRequested "" "workflow cancelled" t) true in
      persistRun run None "run.cancelled" (ws_Summary run)
  end.

(** ** The sequential path (service.go), used when a run is recovered *)

Definition markCancellationIntent : eff (string * Z) :=
  loaded ← loadRun;
  let '(run, nodes) := loaded in
  if ws_Phase run =s PhaseCompleted then mret ("", 0) else
  _ ← (if negb (ws_CancelRequested run) || (ws_Phase run ≠s PhaseCancelling) then
         t ← now;
         let run := set_cancel (set_run run PhaseCancelling "" "" (ws_ActiveNodeID run) "workflow cancellation requested" t) true in
         _ ← persistRun run None "run.cancelling" (ws_Summary run);
         mret tt
       else mret tt);
  match list_find (fun node => (0 <? ns_CurrentAttempt node) &&
                     ((ns_Phase node =s NodePhaseRunning) || (ns_Phase node =s NodePhaseWaiting)) = true) nodes with
  | Some (_, node) => mret (ns_ID node, ns_CurrentAttempt node)
  | None => mret ("", 0)
  end.

Definition persistCancelFailure (activeNodeID message : string) : eff WorkflowSnapshot :=
  loaded ← loadRun;
  let '(run, nodes) := loaded in
  t ← now;
  let run := set_cancel (set_run run PhaseWaiting "" ReasonCancelFailed (ws_ActiveNodeID run) message t) true in
  _ ← persistRun run (snd <$> findNode nodes activeNodeID) "run.cancel_failed" (ws_Summary run);
  raise (ErrCancelUnresolved message).

(** The body of the loop that cancels the active node *)
Definition cancel_active (activeNodeID : string) (s : WorkflowSnapshot * list NodeSnapshot) (node : NodeSnapshot)
    : eff (WorkflowSnapshot * list NodeSnapshot) :=
  let '(run, nodes) := s in
  if ns_ID node ≠s activeNodeID then mret (run, nodes ++ [node]) else
  _ ← (if 0 <? ns_CurrentAttempt node then
         attempt ← ReadAttempt (ns_ID node) (ns_CurrentAttempt node);
         if (at_Phase attempt ≠s NodePhaseCompleted) || (at_Conclusion attempt ≠s ConclusionCancelled) then
           t ← now;
           writeAttempt (attempt_with attempt NodePhaseCompleted ConclusionCancelled ReasonUserRequested
             (at_ResultConsumed attempt) (at_SideEffectStatus attempt) (at_FailureClass attempt) t (Some t)) false
         else mret tt
       else mret tt);
  t ← now;
  let node := node_with node NodePhaseCompleted ConclusionCancelled ReasonUserRequested (ns_Diagnostic node) (ns_Result node)
                (ns_PendingInputAnswer node) (ns_PendingRoutingTarget node) t in
  _ ← WriteNode (ns_ID node) node;
  mret (set_summary run node, nodes ++ [node]).

Definition finalizeCancellation (activeNodeID : string) : eff WorkflowSnapshot :=
  loaded ← loadRun;
  let '(run, nodes) := loaded in
  if ws_Phase run =s PhaseCompleted then mret run else
  s ← each (cancel_active activeNodeID) (run, []) nodes;
  let '(run, nodes) := s in
  run ← each (cancel_unstarted ns_Diagnostic) run nodes;
  t ← now;
  let run := set_cancel (set_run run PhaseCompleted ConclusionCancelled ReasonUserRequested "" "workflow cancelled" t) true in
  persistRun run (last (base.filter (fun node => ns_ID node = activeNodeID) nodes)) "run.cancelled" (ws_Summary run).
End Cancel.
