(* ===== verification/RunService.v ===== *)
(** * The operations of the run service on one run

    What a controller, a user or a restarted process does to a run, as a type
    of operations, and the disk after a sequence of them.  Each operation runs
    in a process of its own: it starts from what is on disk, with its own
    clock, and may fail or crash at any of its writes.  Operations on a run are
    serialised by the lease and the mutexes of the service. *)

From S2P Require Import Prelude GoText Routing Resolver Catalog Workflow Context Backend RunState Scheduler.
From S2P Require Import RunStore RunOps RunActions Cancellation.
#[local] Open Scope string_scope.
#[local] Open Scope list_scope.
#[local] Open Scope Z_scope.

Inductive operation :=
| Schedule (active : bool) (normalized : Normalized) (backendLimit : Z)
| Reconcile (active : bool) (results : list observedAttempt)
| Finish (active : bool) (nodeID : string) (attempt : Z) (result : option AgentResult)
| Pause (active : bool) (cause : string)
| BeginLaunch (active : bool) (nodeID : string) (attempt : Z)
| LaunchWithoutHandle (nodeID : string) (attempt : Z)
| LaunchWithHandle (nodeID : string) (attempt : Z) (backend : string) (handle : ExecutionHandle)
| ResumeRun (expectedStateVersion : option Z) (action : option ResumeAction)
| AbortIntent (actionID requestHash : string)
| CancelIntent (request : CancelRequest)
| CancelOutcomes (outcomes : list cancellationOutcome)
| CancelMark
| CancelFailure (activeNodeID message : string)
| CancelFinal (activeNodeID : string).

Section Service.
Context `{GoRange} `{CatalogDigest} `{Service}.

Definition forget {A} (m : eff A) : eff unit := _ ← m; mret tt.

Definition perform (o : operation) : eff unit :=
  match o with
  | Schedule active normalized backendLimit => forget (schedule_quiet active normalized backendLimit)
  | Reconcile active results => forget (reconcileAttempts active results)
  | Finish active nodeID attempt result => forget (finishResult active nodeID attempt result)
  | Pause active cause => pauseControllerOnError active cause
  | BeginLaunch active nodeID attempt => beginBackendLaunch active nodeID attempt
  | LaunchWithoutHandle nodeID attempt => markLaunchFinishedWithoutHandle nodeID attempt
  | LaunchWithHandle nodeID attempt backend handle => persistExecutionHandle nodeID attempt backend handle
  | ResumeRun expectedStateVersion action => forget (Resume expectedStateVersion action)
  | AbortIntent actionID requestHash => AbortActionIntent actionID requestHash
  | CancelIntent request => forget (markConcurrentCancellationIntent request)
  | CancelOutcomes outcomes => forget (applyCancellationOutcomes outcomes)
  | CancelMark => forget markCancellationIntent
  | CancelFailure activeNodeID message => forget (persistCancelFailure activeNodeID message)
  | CancelFinal activeNodeID => forget (finalizeCancellation activeNodeID)
  end.

(** A process that finds [d] on disk and meets [faults] *)
Definition boot (d : disk) (faults : list fault) : world :=
  {| w_disk := d; w_faults := faults; w_ticks := 0; w_probes := 0 |}.

(** The disk an outcome leaves *)
Definition disk_after {A} (o : outcome A) : disk :=
  match o with Done _ w => w_disk w | Failed _ w => w_disk w | Crashed d => d end.

Definition ended {A} (o : outcome A) : bool := match o with Done _ _ => true | _ => false end.

(** The disk after a sequence of operations and the number of those that did
    not end normally *)
Definition run_operation (s : disk * Z) (entry : operation * list fault) : disk * Z :=
  let o := perform entry.1 (boot s.1 entry.2) in
  (disk_after o, if ended o then s.2 else s.2 + 1).
Definition run_operations (d : disk) (ops : list (operation * list fault)) : disk * Z :=
  foldl run_operation (d, 0) ops.
End Service.
