(* ===== verification/RunExamples.v ===== *)
(** * A run to evaluate

    The diamond workflow after its first node has failed: the other nodes have
    been skipped, the run has completed, and the user retries the node. *)

From S2P Require Import Prelude GoText Routing Resolver ResolverTheory Catalog Workflow Topology Context.
From S2P Require Import Backend RunState Scheduler SchedulerTheory RunStore RunOps RunActions Cancellation.
From S2P Require Import RunService Json.
#[local] Open Scope string_scope.
#[local] Open Scope list_scope.
#[local] Open Scope Z_scope.

Definition no_catalogs : CatalogProvider := {|
  cp_ActiveCatalog := fun _ => None; cp_CatalogByHash := fun _ => None; cp_EnsureTargetAvailable := None |}.
#[export] Instance demo_service : Service := {| sv_now := fun ticks => 100 + Z.of_nat ticks; sv_catalogs := no_catalogs |}.

Definition demo_node (id phase conclusion reason : string) (attempt : Z) : NodeSnapshot := {|
  ns_ProtocolVersion := 2; ns_StateSchemaVersion := 3; ns_RunID := "r"; ns_ID := id; ns_Type := "agent";
  ns_Phase := phase; ns_Conclusion := conclusion; ns_Reason := reason; ns_Diagnostic := ""; ns_Result := None;
  ns_PendingInputAnswer := None; ns_PendingRoutingTarget := None; ns_CurrentAttempt := attempt;
  ns_CreatedAt := 0; ns_UpdatedAt := 0 |}.
Definition demo_attempt (phase conclusion : string) : AttemptSnapshot := {|
  at_ProtocolVersion := 2; at_StateSchemaVersion := 3; at_RunID := "r"; at_NodeID := "z"; at_Number := 1;
  at_Phase := phase; at_Conclusion := conclusion; at_Reason := ""; at_ResolvedDriver := "codex"; at_ResolvedTarget := "local";
  at_Backend := "codex"; at_LaunchState := LaunchPrepared; at_Execution := None; at_ResultConsumed := false;
  at_ContextCompilerVersion := ""; at_ContextCompilerVersionV2 := ""; at_ContextManifestV2 := None; at_ContextHash := "";
  at_RoutingDecision := None; at_ExecutionProfile := None; at_RoutingUsage := None; at_SideEffectStatus := "";
  at_FailureClass := ""; at_MemoryUsage := None; at_PromptHash := ""; at_StartedAt := 0; at_UpdatedAt := 0;
  at_CompletedAt := None |}.
Definition demo_event (sequence : Z) (type : string) : WorkflowEvent := {|
  ev_ProtocolVersion := 2; ev_RunID := "r"; ev_Sequence := sequence; ev_Type := type; ev_Phase := PhaseRunning;
  ev_Conclusion := ""; ev_Reason := ""; ev_NodeID := ""; ev_NodePhase := ""; ev_Message := ""; ev_Timestamp := 0 |}.

Definition demo_order : list string := ["z"; "b"; "c"; "a"].

(** The run after the failure *)
Definition demo_run : WorkflowSnapshot :=
  set_run (sample_run demo_order) PhaseCompleted ConclusionFailed ReasonUpstreamFailed "" "workflow completed" 0.
Definition demo_failed : disk := {|
  dk_snapshot := Some demo_run; dk_workflow := Some sample_normalized;
  dk_nodes := {[ "z" := demo_node "z" NodePhaseCompleted ConclusionFailed "" 1;
                 "b" := demo_node "b" NodePhaseSkipped "" ReasonUpstreamFailed 0;
                 "c" := demo_node "c" NodePhaseSkipped "" ReasonUpstreamFailed 0;
                 "a" := demo_node "a" NodePhaseSkipped "" ReasonUpstreamFailed 0 ]};
  dk_attempts := {[ ("z", 1) := demo_attempt NodePhaseCompleted ConclusionFailed ]};
  dk_results := ∅; dk_events := [demo_event 1 "run.created"; demo_event 2 "node.completed"]; dk_intents := ∅ |}.

(** The run before the result of "z" *)
Definition demo_running : disk := {|
  dk_snapshot := Some (sample_run demo_order); dk_workflow := Some sample_normalized;
  dk_nodes := {[ "z" := demo_node "z" NodePhaseRunning "" "" 1; "b" := demo_node "b" NodePhasePending "" "" 0;
                 "c" := demo_node "c" NodePhasePending "" "" 0; "a" := demo_node "a" NodePhasePending "" "" 0 ]};
  dk_attempts := {[ ("z", 1) := demo_attempt NodePhaseRunning "" ]};
  dk_results := ∅; dk_events := [demo_event 1 "run.created"]; dk_intents := ∅ |}.

Definition demo_retry : ResumeAction := {|
  ra_ActionID := "act-1"; ra_ActionRequestHash := "h"; ra_Type := "retry"; ra_NodeID := "z"; ra_ExpectedAttempt := None;
  ra_Reason := ""; ra_Answers := None; ra_AcknowledgeDuplicateRisk := false |}.

(** The plan of the retry *)
Definition demo_mutations : list actionNodeMutation :=
  match @plan_action canonical_range zero_digest demo_service demo_retry (boot demo_failed []) with
  | Done (Planned ms _ _) _ => ms
  | _ => []
  end.

Definition demo_result (status : string) : AgentResult := {|
  ar_Status := status; ar_Summary := "done"; ar_Artifacts := None; ar_Warnings := None; ar_Checks := None;
  ar_Questions := []; ar_InputTokensEstimated := 10; ar_OutputTokensEstimated := 20; ar_SideEffectStatus := "";
  ar_FailureClass := "" |}.

(** * Two requests that cannot be repeated

    The exactly-once theorem excludes plans with raw JSON text and requests
    that change when they are stored.  Both exclusions are needed. *)

(** The diamond whose first node asks an optional question *)
Definition asked : Result := {| r_Summary := "s"; r_Artifacts := None; r_Warnings := None; r_Checks := None;
  r_Questions := [{| q_ID := "q"; q_Prompt := "?"; q_Choices := []; q_Required := false |}];
  r_Usage := {| us_InputTokensEstimated := 0; us_OutputTokensEstimated := 0 |}; r_Decision := ""; r_Reason := "" |}.
Definition waiting_node : NodeSnapshot := {|
  ns_ProtocolVersion := 2; ns_StateSchemaVersion := 3; ns_RunID := "r"; ns_ID := "z"; ns_Type := "agent";
  ns_Phase := NodePhaseWaiting; ns_Conclusion := ""; ns_Reason := ReasonAgentWaitingInput; ns_Diagnostic := ""; ns_Result := Some asked;
  ns_PendingInputAnswer := None; ns_PendingRoutingTarget := None; ns_CurrentAttempt := 1;
  ns_CreatedAt := 0; ns_UpdatedAt := 0 |}.
Definition demo_asking : disk := {|
  dk_snapshot := Some (set_run (sample_run demo_order) PhaseWaiting "" ReasonAgentWaitingInput "z" "" 0); dk_workflow := Some sample_normalized;
  dk_nodes := <["z" := waiting_node]> (dk_nodes demo_running);
  dk_attempts := {[ ("z", 1) := demo_attempt NodePhaseWaiting "" ]};
  dk_results := ∅; dk_events := [demo_event 1 "run.created"]; dk_intents := ∅ |}.
Definition demo_answer (m : option (gmap string any)) : ResumeAction := {|
  ra_ActionID := "act-1"; ra_ActionRequestHash := "h"; ra_Type := "answer"; ra_NodeID := "z"; ra_ExpectedAttempt := Some 1;
  ra_Reason := ""; ra_Answers := m; ra_AcknowledgeDuplicateRisk := false |}.
Definition answer_request (m : option (gmap string any)) : operation := ResumeRun None (Some (demo_answer m)).

(** How the request ends when it is repeated after having met [faults] *)
Definition repeated (m : option (gmap string any)) (faults : list fault) : option RunError :=
  let d := (@run_operations canonical_range zero_digest _ demo_asking [(answer_request m, faults)]).1 in
  match @perform canonical_range zero_digest _ (answer_request m) (boot d []) with
  | Done _ _ => None
  | Failed e _ => Some e
  | Crashed _ => None
  end.

Definition one_answer : option (gmap string any) := Some {["q" := AString "yes"]}.

(** An answer that is not interrupted can be repeated; one that dies between
    the node and its progress marker conflicts with itself. *)
Example interrupted_answer_conflicts :
  repeated one_answer [] = None /\ repeated one_answer [Passes; Passes; Crashes] = None /\
  repeated one_answer [Passes; Passes; Passes; Crashes] = Some (ErrIntentConflict "z") /\
  repeated one_answer [Passes; Passes; Passes; Passes; Crashes] = None.
Proof. vm_compute. done. Qed.

(** An empty map of answers is not the same request after a crash; no answers
    at all are. *)
Example empty_answers_refused :
  repeated (Some ∅) [Passes; Crashes] = Some (ErrActionBound "act-1") /\ repeated None [Passes; Crashes] = None.
Proof. vm_compute. done. Qed.
