(* ===== verification/RunLogic.v ===== *)
(** * A crash Hoare logic for the run service

    [triple P m Q E]: from a disk that satisfies [P] the method [m] ends with a
    value and a disk in [Q], or it fails or is cut off by a crash, at whatever
    write, with a disk in [E].  The rules follow the monad. *)

From S2P Require Import Prelude GoText Routing Resolver Catalog Workflow Context Backend RunState Scheduler.
From S2P Require Import RunStore RunOps RunActions Cancellation RunService.
#[local] Open Scope string_scope.
#[local] Open Scope list_scope.
#[local] Open Scope Z_scope.

Definition ends {A} (o : outcome A) (Q : A -> disk -> Prop) (E : disk -> Prop) : Prop :=
  match o with Done a w => Q a (w_disk w) | Failed _ w => E (w_disk w) | Crashed d => E d end.

Definition triple {A} (P : disk -> Prop) (m : eff A) (Q : A -> disk -> Prop) (E : disk -> Prop) : Prop :=
  forall w, P (w_disk w) -> ends (m w) Q E.

Section Rules.
Context {A B : Type}.
Implicit Types (P E : disk -> Prop) (m : eff A).

Lemma triple_ret P E (a : A) : triple P (mret a) (fun a' d => a' = a /\ P d) E.
Proof. intros w Hw. done. Qed.

Lemma triple_raise P (e : RunError) (Q : A -> disk -> Prop) : triple P (raise e) Q P.
Proof. intros w Hw. done. Qed.

Lemma triple_bind P m (k : A -> eff B) Q Q' E :
  triple P m Q E -> (forall a, triple (Q a) (k a) Q' E) -> triple P (x ← m; k x) Q' E.
Proof.
  intros Hm Hk w Hw. specialize (Hm w Hw). unfold mbind, eff_bind. destruct (m w) as [a w'|e w'|d]; cbn in *; [by apply Hk|done|done].
Qed.

Lemma triple_consequence P P' m Q Q' E E' :
  triple P m Q E -> (forall d, P' d -> P d) -> (forall a d, Q a d -> Q' a d) -> (forall d, E d -> E' d) -> triple P' m Q' E'.
Proof. intros Hm HP HQ HE w Hw. specialize (Hm w (HP _ Hw)). destruct (m w); cbn in *; auto. Qed.

Lemma triple_lift {X} P (wrap : X -> RunError) (r : result X A) E :
  (forall d, P d -> E d) -> triple P (lift wrap r) (fun a d => P d /\ r = Ok a) E.
Proof. intros HE w Hw. unfold lift. destruct r; cbn; auto. Qed.

Lemma triple_read P what (f : disk -> option A) E :
  (forall d, P d -> E d) -> triple P (read what f) (fun a d => P d /\ f d = Some a) E.
Proof. intros HE w Hw. unfold read, mbind, eff_bind, get_disk. cbn. destruct (f (w_disk w)) eqn:Ef; cbn; auto. Qed.

(** The facts of the precondition *)
Lemma triple_pre P m Q E : (forall d, P d -> triple (eq d) m Q E) -> triple P m Q E.
Proof. intros Hm w Hw. by apply (Hm _ Hw). Qed.

Lemma triple_if P (b : bool) m m' Q E :
  (b = true -> triple P m Q E) -> (b = false -> triple P m' Q E) -> triple P (if b then m else m') Q E.
Proof. destruct b; auto. Qed.
End Rules.

Lemma triple_assoc {A B C} P (m : eff A) (j : A -> eff B) (k : B -> eff C) Q E :
  triple P (x ← m; y ← j x; k y) Q E -> triple P (y ← (x ← m; j x); k y) Q E.
Proof. intros Ht w Hw. specialize (Ht w Hw). unfold mbind, eff_bind in *. by destruct (m w). Qed.

Lemma triple_ret_bind {A B} P (a : A) (k : A -> eff B) Q E : triple P (k a) Q E -> triple P (x ← mret a; k x) Q E.
Proof. intros Ht. exact Ht. Qed.

Lemma triple_write (P : disk -> Prop) f (Q : disk -> Prop) (E : disk -> Prop) :
  (forall d, P d -> Q (f d)) -> (forall d, P d -> E d) -> triple P (write f) (fun _ => Q) E.
Proof.
  intros HQ HE w Hw. unfold write. destruct (w_faults w) as [|[] faults]; cbn; auto.
Qed.

Lemma triple_now `{Service} (P E : disk -> Prop) : triple P now (fun _ => P) E.
Proof. intros w Hw. done. Qed.

Lemma triple_get (P E : disk -> Prop) : triple P get_disk (fun d0 d => P d /\ d0 = d) E.
Proof. intros w Hw. done. Qed.

(** A loop with an invariant on its state *)
Lemma triple_each {S A} (I : S -> disk -> Prop) (E : disk -> Prop) (body : S -> A -> eff S) xs s :
  (forall s x, triple (I s) (body s x) I E) -> triple (I s) (each body s xs) I E.
Proof.
  intros Hbody. revert s. induction xs as [|x xs IH]; intros s; cbn [each].
  - intros w Hw. done.
  - eapply triple_bind; [apply Hbody|]. intros s'. apply IH.
Qed.

(** ** Relations between the disk before and after *)

(** [m] relates the disk before to the disk after by [R], crash or not. *)
Definition moves {A} (R : disk -> disk -> Prop) (m : eff A) : Prop :=
  forall w, R (w_disk w) (disk_after (m w)).

Section Moves.
Context (R : disk -> disk -> Prop) `{!PreOrder R}.

Lemma moves_ret {A} (a : A) : moves R (mret a).
Proof. intros w. cbn. reflexivity. Qed.
Lemma moves_raise {A} e : moves R (raise (A := A) e).
Proof. intros w. cbn. reflexivity. Qed.
Lemma moves_lift {X A} (wrap : X -> RunError) (r : result X A) : moves R (lift wrap r).
Proof. intros w. unfold lift. destruct r; cbn; reflexivity. Qed.
Lemma keeps_bind {A B} (m : eff A) (k : A -> eff B) : moves R m -> (forall a, moves R (k a)) -> moves R (x ← m; k x).
Proof.
  intros Hm Hk w. specialize (Hm w). unfold mbind, eff_bind. destruct (m w) as [a w'|e w'|d]; cbn in *; [|done..].
  etransitivity; [exact Hm|apply Hk].
Qed.
Lemma keeps_read {A} what (f : disk -> option A) : moves R (read what f).
Proof. intros w. unfold read, mbind, eff_bind, get_disk. cbn. destruct (f _); cbn; reflexivity. Qed.
Lemma moves_get : moves R get_disk.
Proof. intros w. cbn. reflexivity. Qed.
Lemma moves_now `{Service} : moves R now.
Proof. intros w. cbn. reflexivity. Qed.
Lemma keeps_write f : (forall d, R d (f d)) -> moves R (write f).
Proof. intros Hf w. unfold write. destruct (w_faults w) as [|[] faults]; cbn; auto; reflexivity. Qed.
Lemma moves_each {S A} (body : S -> A -> eff S) xs s : (forall s x, moves R (body s x)) -> moves R (each body s xs).
Proof.
  intros Hb. revert s. induction xs as [|x xs IH]; intros s; cbn [each]; [apply moves_ret|].
  apply keeps_bind; [apply Hb|]. intros s'. apply IH.
Qed.
End Moves.

(** The methods that leave the disk as it is, for every reflexive relation *)
Section Readers.
Context (R : disk -> disk -> Prop) `{!PreOrder R} `{GoRange} `{CatalogDigest} `{Service}.

Lemma moves_find_node nodes id : moves R (find_node nodes id).
Proof. intros w. unfold find_node. destruct (findNode nodes id); reflexivity. Qed.
Lemma moves_resolve driver requirement : moves R (resolveAttemptRoutingWithCatalogs driver requirement).
Proof. intros w. unfold resolveAttemptRoutingWithCatalogs. repeat case_match; reflexivity. Qed.
Lemma moves_ensure target : moves R (ensureTargetAvailable target).
Proof. intros w. unfold ensureTargetAvailable. case_match; reflexivity. Qed.
Lemma moves_catalog_of decision : moves R (catalog_of decision).
Proof. intros w. unfold catalog_of. case_match; reflexivity. Qed.
Lemma moves_ignore_error m : moves R m -> moves R (ignore_error m).
Proof. intros Hm w. specialize (Hm w). unfold ignore_error. destruct (m w); exact Hm. Qed.
End Readers.

Create HintDb moves.
#[export] Hint Constants Opaque : moves.
#[export] Hint Resolve moves_ret moves_raise moves_lift keeps_read moves_get moves_now moves_find_node moves_resolve
  moves_ensure moves_catalog_of : moves.

(** Follows the structure of a method; what is left are calls of other methods
    that the hints do not know. *)
Ltac moves_go :=
  repeat first
    [ solve [eauto 2 with moves typeclass_instances]
    | apply keeps_bind; [assumption || apply _ | | intros ?]
    | apply moves_each; [assumption || apply _ | intros ? ?]
    | apply moves_ignore_error
    | match goal with
      | |- moves _ (match ?x with _ => _ end) => destruct x
      end ].

Section Loading.
Context (R : disk -> disk -> Prop) `{!PreOrder R} `{GoRange} `{CatalogDigest} `{Service}.

Lemma moves_ReadNode id : moves R (ReadNode id).
Proof. unfold ReadNode. moves_go. Qed.
Lemma moves_ReadAttempt id number : moves R (ReadAttempt id number).
Proof. unfold ReadAttempt. moves_go. Qed.
Lemma moves_ReadSnapshot : moves R ReadSnapshot.
Proof. unfold ReadSnapshot. moves_go. Qed.
Lemma moves_ReadWorkflow : moves R ReadWorkflow.
Proof. unfold ReadWorkflow. moves_go. Qed.
Lemma moves_ReadActionIntent id : moves R (ReadActionIntent id).
Proof. unfold ReadActionIntent. moves_go. Qed.
Lemma moves_ListAttempts id : moves R (ListAttempts id).
Proof. unfold ListAttempts. moves_go. Qed.
Hint Resolve moves_ReadNode moves_ReadAttempt moves_ReadSnapshot moves_ReadWorkflow moves_ReadActionIntent
  moves_ListAttempts : moves.

Lemma moves_loadRun : moves R loadRun.
Proof. unfold loadRun, load_node. moves_go. Qed.
Lemma moves_resetEventSequence : moves R resetEventSequence.
Proof. unfold resetEventSequence, ReadEvents. moves_go. Qed.
Lemma moves_probe_routes driver requirement n : moves R (probe_routes driver requirement n).
Proof. induction n; cbn [probe_routes]; moves_go. Qed.
Hint Resolve moves_probe_routes : moves.
Lemma moves_pendingRoutingTarget node allow : moves R (pendingRoutingTarget node allow).
Proof.
  unfold pendingRoutingTarget, prepareAttemptRouting, continue_route, routingCostBeforeAttempt, attempt_cost. moves_go.
Qed.
Lemma moves_planDownstreamReset target : moves R (planDownstreamReset target).
Proof. unfold planDownstreamReset, reset_node. moves_go. Qed.
Hint Resolve moves_pendingRoutingTarget moves_planDownstreamReset : moves.
Lemma moves_plan_action action : moves R (plan_action action).
Proof. unfold plan_action, plan_approval, plan_retry, plan_answer. moves_go. Qed.
Lemma moves_hasSettledNeedsInput nodes : moves R (hasSettledNeedsInput nodes).
Proof. unfold hasSettledNeedsInput, settled_node. moves_go. Qed.
End Loading.
#[export] Hint Resolve moves_ReadNode moves_ReadAttempt moves_ReadSnapshot moves_ReadWorkflow moves_ReadActionIntent
  moves_ListAttempts moves_loadRun moves_resetEventSequence moves_plan_action moves_hasSettledNeedsInput : moves.

(** A step that is known to end *)
Lemma bind_done {A B} (m : eff A) (k : A -> eff B) w a w' : m w = Done a w' -> (x ← m; k x) w = k a w'.
Proof. intros Hm. unfold mbind, eff_bind. by rewrite Hm. Qed.

(** ** A logic that also promises success

    [sure P m Q E]: as [triple], and [m] fails or crashes only when a fault
    strikes; in a process that meets no fault it ends with a value. *)

Definition sure {A} (P : disk -> Prop) (m : eff A) (Q : A -> disk -> Prop) (E : disk -> Prop) : Prop :=
  forall w, P (w_disk w) ->
  match m w with
  | Done a w' => Q a (w_disk w') /\ (w_faults w = [] -> w_faults w' = [])
  | Failed _ w' => E (w_disk w') /\ w_faults w <> []
  | Crashed d => E d /\ w_faults w <> []
  end.

Section Sure.
Context {A B : Type}.
Implicit Types (P E : disk -> Prop) (m : eff A).

Lemma sure_ret (Q : A -> disk -> Prop) P E (a : A) : (forall d, P d -> Q a d) -> sure P (mret a) Q E.
Proof. intros Hq w Hw. split; [by apply Hq|done]. Qed.

Lemma sure_bind P m (k : A -> eff B) Q Q' E :
  sure P m Q E -> (forall a, sure (Q a) (k a) Q' E) -> sure P (x ← m; k x) Q' E.
Proof.
  intros Hm Hk w Hw. specialize (Hm w Hw). unfold mbind, eff_bind.
  destruct (m w) as [a w'|e w'|d]; [|done..]. destruct Hm as [Hq Hf]. specialize (Hk a w' Hq).
  destruct (k a w'); naive_solver.
Qed.

Lemma sure_consequence P P' m Q Q' E E' :
  sure P m Q E -> (forall d, P' d -> P d) -> (forall a d, Q a d -> Q' a d) -> (forall d, E d -> E' d) -> sure P' m Q' E'.
Proof. intros Hm HP HQ HE w Hw. specialize (Hm w (HP _ Hw)). destruct (m w); naive_solver. Qed.

Lemma sure_lift {X} P (wrap : X -> RunError) (r : result X A) a E : r = Ok a -> sure P (lift wrap r) (fun a' d => a' = a /\ P d) E.
Proof. intros -> w Hw. done. Qed.

Lemma sure_pre P m Q E : (forall d, P d -> sure (eq d) m Q E) -> sure P m Q E.
Proof. intros Hm w Hw. by apply (Hm _ Hw). Qed.
End Sure.

Lemma sure_write P f (Q : unit -> disk -> Prop) E :
  (forall d, P d -> Q tt (f d)) -> (forall d, P d -> E d) -> sure P (write f) Q E.
Proof.
  intros HQ HE w Hw. unfold write. destruct (w_faults w) as [|[] faults] eqn:Ef; cbn; split; auto; congruence.
Qed.

Lemma sure_now `{Service} P E : sure P now (fun _ => P) E.
Proof. intros w Hw. by split. Qed.

Lemma sure_get P E : sure P get_disk (fun d0 d => P d /\ d0 = d) E.
Proof. intros w Hw. by split. Qed.

Lemma sure_triple {A} P (m : eff A) Q E : sure P m Q E -> triple P m Q E.
Proof. intros Hm w Hw. specialize (Hm w Hw). unfold ends. destruct (m w); naive_solver. Qed.

(** A loop over numbered elements *)
Lemma sure_each_from {S A} (I : nat -> S -> disk -> Prop) E (body : S -> nat * A -> eff S) xs k s :
  (forall i x s, xs !! i = Some x -> sure (I (k + i)%nat s) (body s (k + i, x)%nat) (I (Datatypes.S (k + i))) E) ->
  sure (I k s) (each body s (imap (fun i x => (k + i, x)%nat) xs)) (I (k + length xs)%nat) E.
Proof.
  revert k s. induction xs as [|x xs IH]; intros k s Hb; cbn [imap each length].
  - rewrite Nat.add_0_r. by apply sure_ret.
  - pose proof (Hb 0%nat x s eq_refl) as H0. rewrite Nat.add_0_r in H0 |- *.
    eapply sure_bind; [exact H0|]. intros s'.
    replace (k + Datatypes.S (length xs))%nat with (Datatypes.S k + length xs)%nat by lia.
    rewrite (imap_ext _ (fun i y => (Datatypes.S k + i, y)%nat)); [apply IH|].
    + intros i y s2 Hi. replace (Datatypes.S k + i)%nat with (k + Datatypes.S i)%nat by lia. by apply Hb.
    + intros i y _. cbn. f_equal. lia.
Qed.

Lemma sure_each_imap {S A} (I : nat -> S -> disk -> Prop) E (body : S -> nat * A -> eff S) xs s :
  (forall i x s, xs !! i = Some x -> sure (I i s) (body s (i, x)) (I (Datatypes.S i)) E) ->
  sure (I 0%nat s) (each body s (imap pair xs)) (I (length xs)) E.
Proof. intros Hb. by apply (sure_each_from I E body xs 0). Qed.

(** ** Methods that meet no fault

    A method that only reads does the same whatever faults lie ahead. *)

Definition set_faults (f : list fault) (w : world) : world :=
  {| w_disk := w_disk w; w_faults := f; w_ticks := w_ticks w; w_probes := w_probes w |}.
Definition outcome_with_faults {A} (f : list fault) (o : outcome A) : outcome A :=
  match o with Done a w => Done a (set_faults f w) | Failed e w => Failed e (set_faults f w) | Crashed d => Crashed d end.
Definition steady {A} (m : eff A) : Prop := forall w f, m (set_faults f w) = outcome_with_faults f (m w).

Lemma steady_ret {A} (a : A) : steady (mret a).
Proof. done. Qed.
Lemma steady_raise {A} e : steady (raise (A := A) e).
Proof. done. Qed.
Lemma steady_lift {X A} (wrap : X -> RunError) (r : result X A) : steady (lift wrap r).
Proof. intros w f. unfold lift. by destruct r. Qed.
Lemma steady_bind {A B} (m : eff A) (k : A -> eff B) : steady m -> (forall a, steady (k a)) -> steady (x ← m; k x).
Proof.
  intros Hm Hk w f. unfold mbind, eff_bind. rewrite Hm. destruct (m w); cbn; [apply Hk|done..].
Qed.
Lemma steady_get : steady get_disk.
Proof. done. Qed.
Lemma steady_read {A} what (f : disk -> option A) : steady (read what f).
Proof. intros w fs. unfold read, mbind, eff_bind, get_disk. cbn. by destruct (f (w_disk w)). Qed.
Lemma steady_now `{Service} : steady now.
Proof. done. Qed.
Lemma steady_each {S A} (body : S -> A -> eff S) xs s : (forall s x, steady (body s x)) -> steady (each body s xs).
Proof.
  intros Hb. revert s. induction xs as [|x xs IH]; intros s; cbn [each]; [apply steady_ret|].
  apply steady_bind; [apply Hb|]. intros s'. apply IH.
Qed.

Create HintDb steady.
#[export] Hint Constants Opaque : steady.
#[export] Hint Resolve steady_ret steady_raise steady_lift steady_get steady_read steady_now : steady.

Ltac steady_go :=
  repeat first
    [ solve [eauto 2 with steady typeclass_instances]
    | apply steady_bind; [|intros ?]
    | apply steady_each; intros ? ?
    | match goal with |- steady (match ?x with _ => _ end) => destruct x end ].

Section Steady.
Context `{GoRange} `{CatalogDigest} `{Service}.

Lemma steady_ReadNode id : steady (ReadNode id).
Proof. unfold ReadNode. steady_go. Qed.
Lemma steady_ReadAttempt id number : steady (ReadAttempt id number).
Proof. unfold ReadAttempt. steady_go. Qed.
Lemma steady_ReadWorkflow : steady ReadWorkflow.
Proof. unfold ReadWorkflow. steady_go. Qed.
Lemma steady_ListAttempts id : steady (ListAttempts id).
Proof. unfold ListAttempts. steady_go. Qed.
Lemma steady_resolve driver requirement : steady (resolveAttemptRoutingWithCatalogs driver requirement).
Proof. intros w f. unfold resolveAttemptRoutingWithCatalogs. cbn [set_faults w_probes]. by repeat case_match. Qed.
Lemma steady_ensure target : steady (ensureTargetAvailable target).
Proof. intros w f. unfold ensureTargetAvailable. cbn [set_faults w_probes]. by case_match. Qed.
Lemma steady_catalog_of decision : steady (catalog_of decision).
Proof. intros w f. unfold catalog_of. by case_match. Qed.
Hint Resolve steady_ReadNode steady_ReadAttempt steady_ReadWorkflow steady_ListAttempts steady_resolve steady_ensure
  steady_catalog_of : steady.

Lemma steady_probe_routes driver requirement n : steady (probe_routes driver requirement n).
Proof. induction n; cbn [probe_routes]; steady_go. Qed.
Hint Resolve steady_probe_routes : steady.
Lemma steady_pendingRoutingTarget node allow : steady (pendingRoutingTarget node allow).
Proof.
  unfold pendingRoutingTarget, prepareAttemptRouting, continue_route, routingCostBeforeAttempt, attempt_cost. steady_go.
Qed.
Lemma steady_planDownstreamReset target : steady (planDownstreamReset target).
Proof. unfold planDownstreamReset, reset_node. steady_go. Qed.
Hint Resolve steady_pendingRoutingTarget steady_planDownstreamReset : steady.
Lemma steady_plan_action action : steady (plan_action action).
Proof. unfold plan_action, plan_approval, plan_retry, plan_answer. steady_go. Qed.

(** A plan does not depend on the faults ahead, and planning writes nothing. *)
Lemma plan_action_boot action d f plan w :
  plan_action action (boot d []) = Done plan w -> exists w', plan_action action (boot d f) = Done plan w' /\ w_disk w' = d /\ w_faults w' = f.
Proof.
  intros Hp. exists (set_faults f w). pose proof (steady_plan_action action (boot d []) f) as Hs.
  pose proof (moves_plan_action eq action (boot d [])) as Hm. rewrite Hp in Hs, Hm. split; [exact Hs|]. by split.
Qed.
End Steady.

(** ** Loops with a record of what has been done *)

Lemma triple_each_done {S A} (I : list A -> S -> disk -> Prop) (E : disk -> Prop) (body : S -> A -> eff S) xs s :
  (forall done_ x s, triple (I done_ s) (body s x) (I (done_ ++ [x])) E) -> triple (I [] s) (each body s xs) (I xs) E.
Proof.
  intros Hb. change xs with ([] ++ xs) at 2. generalize (@nil A) as done_. revert s.
  induction xs as [|x xs IH]; intros s done_; cbn [each].
  - rewrite app_nil_r. by intros w Hw.
  - eapply triple_bind; [apply Hb|]. intros s'. replace (done_ ++ x :: xs) with ((done_ ++ [x]) ++ xs) by (by rewrite <-app_assoc).
    apply IH.
Qed.

(** A method that keeps what [P] looks at *)
Lemma triple_moves {A} (R : disk -> disk -> Prop) (P : disk -> Prop) (m : eff A) :
  moves R m -> (forall d d', R d d' -> P d -> P d') -> triple P m (fun _ => P) (fun _ => True).
Proof. intros Hm HP w Hw. specialize (Hm w). destruct (m w); cbn in *; [by eapply HP|done|done]. Qed.

(** ** The node files *)

Definition same_nodes (d d' : disk) : Prop := dk_nodes d' = dk_nodes d.
#[export] Instance same_nodes_preorder : PreOrder same_nodes.
Proof. split; [by intros d|]. intros d1 d2 d3. unfold same_nodes. congruence. Qed.

Section Nodes.
Context `{GoRange} `{CatalogDigest} `{Service}.

Lemma same_nodes_persistRun run node eventType message : moves same_nodes (persistRun run node eventType message).
Proof. unfold persistRun, WriteSnapshot, AppendEvent. cbv zeta. moves_go; apply keeps_write; try apply _; by intros d. Qed.
Lemma same_nodes_writeAttempt a create : moves same_nodes (writeAttempt a create).
Proof. unfold writeAttempt, WriteAttempt, UpdateAttempt. moves_go; apply keeps_write; try apply _; by intros d. Qed.

(** A run that has been persisted is on disk. *)
Lemma persistRun_stores (P : disk -> Prop) run node eventType message :
  (forall d d', same_nodes d d' -> P d -> P d') ->
  triple P (persistRun run node eventType message)
    (fun run' d => P d /\ dk_snapshot d = Some run' /\ run' = set_version run (wrap_uint64 (ws_StateVersion run + 1)))
    (fun _ => True).
Proof.
  intros HP. unfold persistRun. set (run' := set_version run _).
  eapply triple_bind; [by apply triple_lift|]. intros [].
  eapply (triple_bind _ _ _ (fun _ d => P d /\ dk_snapshot d = Some run')).
  { apply triple_write; [|done]. intros d [Hd _]. split; [exact (HP d (set_snapshot run' d) eq_refl Hd)|done]. }
  intros []. eapply triple_bind; [apply (triple_moves eq); [apply moves_resetEventSequence, _|by intros d d' <-]|]. intros sequence.
  eapply triple_bind; [apply triple_now|]. intros t.
  eapply (triple_bind _ _ _ (fun _ d => P d /\ dk_snapshot d = Some run')).
  { apply triple_write; [|done]. intros d [Hd Hs]. split; [exact (HP d (add_event _ d) eq_refl Hd)|done]. }
  intros []. intros w [Hw Hs]. by split_and!.
Qed.
End Nodes.
