(* ===== verification/RunHistory.v ===== *)
(** * The history of a run

    Every operation of the run service, at whatever write it is cut off, keeps
    the event log a numbered sequence that only grows, the stored snapshot
    valid, and the state version in step with the log. *)

From S2P Require Import Prelude GoText Routing Resolver Catalog Workflow Context Backend RunState Scheduler.
From S2P Require Import RunStore RunOps RunActions Cancellation RunService RunLogic ResolverTheory RunExamples.
#[local] Open Scope string_scope.
#[local] Open Scope list_scope.
#[local] Open Scope Z_scope.

(** ** Invariants *)

(** The events are numbered from 1 (as long as an uint64 can number them). *)
Definition log_ok (events : list WorkflowEvent) : Prop :=
  Z.of_nat (length events) < 2 ^ 64 -> forall i e, events !! i = Some e -> ev_Sequence e = Z.of_nat i + 1.

Section History.
Context `{GoRange} `{CatalogDigest} `{Service}.

Record disk_ok (d : disk) : Prop := {
  ok_log : log_ok (dk_events d);
  ok_snapshot : exists s, dk_snapshot d = Some s /\ ValidateWorkflowSnapshot s = Ok tt /\ 0 <= ws_StateVersion s < 2 ^ 64 }.

(** [d] is [d0] with [es] appended to the log and the version advanced once
    per event, and [lag] times more *)
Definition advanced (d0 : disk) (lag : Z) (d : disk) : Prop :=
  exists es s0 s, dk_events d = dk_events d0 ++ es /\ dk_snapshot d0 = Some s0 /\ dk_snapshot d = Some s /\
    ws_StateVersion s = wrap_uint64 (ws_StateVersion s0 + len_slice es + lag).

(** During an operation that started on [d0]: the version on disk is [v]. *)
Definition at_version (d0 : disk) (v : Z) (d : disk) : Prop :=
  disk_ok d /\ advanced d0 0 d /\ ws_StateVersion <$> dk_snapshot d = Some v.

(** After an error or a crash at most one event is missing. *)
Definition interrupted (d0 d : disk) : Prop := disk_ok d /\ (advanced d0 0 d \/ advanced d0 1 d).

Definition same_history (d d' : disk) : Prop := dk_events d' = dk_events d /\ dk_snapshot d' = dk_snapshot d.
#[export] Instance same_history_preorder : PreOrder same_history.
Proof. split; [by intros d|]. intros d1 d2 d3 [E1 S1] [E2 S2]. split; congruence. Qed.

Lemma same_history_ok d d' : same_history d d' -> disk_ok d -> disk_ok d'.
Proof. intros [He Hs] [Hl Hsn]. split; [by rewrite He|by rewrite Hs]. Qed.

Lemma same_history_advanced d0 lag d d' : same_history d d' -> advanced d0 lag d -> advanced d0 lag d'.
Proof. intros [He Hs] (es & s0 & s & ?). exists es, s0, s. by rewrite He, Hs. Qed.

Lemma at_version_interrupted d0 v d : at_version d0 v d -> interrupted d0 d.
Proof. intros (Hok & Ha & _). split; [done|by left]. Qed.

Lemma start_version d : disk_ok d -> exists v, at_version d v d.
Proof.
  intros Hok. destruct (ok_snapshot d Hok) as (s & Hs & _ & Hr). exists (ws_StateVersion s).
  split; [done|]. split; [|by rewrite Hs]. exists [], s, s. rewrite app_nil_r. split_and!; [done..|].
  change (len_slice []) with 0. rewrite !Z.add_0_r. by rewrite wrap_uint64_id.
Qed.

(** A step that touches neither the log nor the snapshot *)
Lemma triple_quiet {A} d0 v (m : eff A) :
  moves same_history m -> triple (at_version d0 v) m (fun _ => at_version d0 v) (interrupted d0).
Proof.
  intros Hm w (Hok & Ha & Hv). specialize (Hm w).
  assert (at_version d0 v (disk_after (m w))) as Hat.
  { split; [by eapply same_history_ok|]. split; [by eapply same_history_advanced|].
    destruct Hm as [_ Hs]. by rewrite Hs. }
  destruct (m w); cbn in *; [done|by eapply at_version_interrupted..].
Qed.

(** ** Persisting *)

Lemma sequence_of_log events sequence start :
  range_loop (fun sequence event =>
      fail_if ev_Sequence event <=? sequence with ErrEventSequence ;; Ok (ev_Sequence event)) start events =
    (Ok sequence : result RunError Z) ->
  default start (ev_Sequence <$> last events) = sequence.
Proof.
  revert start. induction events as [|e events IH]; intros start; cbn [range_loop].
  - by intros [= <-].
  - destruct (ev_Sequence e <=? start); [discriminate|]. cbn. intros Hl%IH. rewrite last_cons. destruct (last events); cbn in *; exact Hl.
Qed.

Lemma log_ok_snoc events e sequence :
  log_ok events -> default 0 (ev_Sequence <$> last events) = sequence ->
  ev_Sequence e = wrap_uint64 (sequence + 1) -> log_ok (events ++ [e]).
Proof.
  intros Hlog Hlast He Hlen i e' Hi. rewrite length_app in Hlen. cbn in Hlen.
  assert (Z.of_nat (length events) < 2 ^ 64) as Hlen' by lia. specialize (Hlog Hlen').
  apply lookup_app_Some in Hi as [Hi|[Hge Hi]]; [by apply Hlog|].
  apply list_lookup_singleton_Some in Hi as [Hi <-].
  assert (sequence = Z.of_nat (length events)) as ->.
  { rewrite <-Hlast. destruct (last events) as [l|] eqn:El; cbn.
    - rewrite last_lookup in El. pose proof (lookup_lt_Some _ _ _ El). apply Hlog in El. rewrite El. lia.
    - apply last_None in El as ->. done. }
  rewrite He, wrap_uint64_id by lia. lia.
Qed.

Lemma wrap_wrap_add a b : wrap_uint64 (wrap_uint64 a + b) = wrap_uint64 (a + b).
Proof. unfold wrap_uint64. by rewrite Zplus_mod_idemp_l. Qed.

Lemma persistRun_triple d0 run node eventType message :
  triple (at_version d0 (ws_StateVersion run)) (persistRun run node eventType message)
    (fun run' d => at_version d0 (ws_StateVersion run') d) (interrupted d0).
Proof.
  unfold persistRun. set (run' := set_version run _).
  eapply triple_bind; [apply triple_lift; intros d Hd; by eapply at_version_interrupted|]. intros [].
  eapply (triple_bind _ _ _ (fun _ d => (disk_ok d /\ advanced d0 1 d) /\ dk_snapshot d = Some run')).
  { apply triple_write.
    - intros d (((Hlog & _) & (es & s0 & s & He & Hs0 & Hs & Hv) & Hver) & Hval). split; [|done].
      rewrite Hs in Hver. cbn in Hver. injection Hver as Hver.
      split; [split; [done|]|].
      + exists run'. split; [done|]. split; [done|]. cbn. unfold wrap_uint64. apply Z.mod_pos_bound. lia.
      + exists es, s0, run'. split_and!; [done..|]. cbn. rewrite <-Hver, Hv, wrap_wrap_add. f_equal. lia.
    - intros d [Hd _]. by eapply at_version_interrupted. }
  intros []. eapply (triple_bind _ _ _ (fun sequence d => ((disk_ok d /\ advanced d0 1 d) /\ dk_snapshot d = Some run') /\
      default 0 (ev_Sequence <$> last (dk_events d)) = sequence)).
  { unfold resetEventSequence, ReadEvents. intros w Hw. unfold mbind, eff_bind, get_disk, lift. cbn.
    destruct (range_loop _ _ _) as [sequence|e] eqn:El; cbn.
    - split; [done|]. by eapply sequence_of_log.
    - destruct Hw as [[? ?] _]. split; [done|by right]. }
  intros sequence. eapply triple_bind; [apply triple_now|]. intros t. cbn beta.
  eapply (triple_bind _ _ _ (fun _ d => at_version d0 (ws_StateVersion run') d)).
  { apply triple_write; intros d (((Hok & Ha) & Hs) & Hseq); [|split; [done|by right]].
    destruct Ha as (es & s0 & s & He & Hs0 & Hsn & Hv). split; [|split].
    - split; [|apply Hok]. cbn. by eapply log_ok_snoc; [apply Hok|exact Hseq|].
    - eexists (es ++ [_]), s0, s. cbn. rewrite He, <-app_assoc. split_and!; [reflexivity|done|done|].
      rewrite Hv. f_equal. unfold len_slice. rewrite length_app. cbn. lia.
    - cbn. by rewrite Hs. }
  intros []. intros w Hw. exact Hw.
Qed.

(** ** Writes beside the log and the snapshot *)

Lemma quiet_WriteNode id n : moves same_history (WriteNode id n).
Proof. unfold WriteNode. moves_go. apply keeps_write; [apply _|]. by intros d. Qed.
Lemma quiet_WriteResult id k r : moves same_history (WriteResult id k r).
Proof. unfold WriteResult. moves_go. apply keeps_write; [apply _|]. by intros d. Qed.
Lemma quiet_writeAttempt a create : moves same_history (writeAttempt a create).
Proof.
  unfold writeAttempt, WriteAttempt, UpdateAttempt. moves_go; apply keeps_write; try apply _; by intros d.
Qed.
Lemma quiet_WriteActionIntent id i : moves same_history (WriteActionIntent id i).
Proof. unfold WriteActionIntent. moves_go. apply keeps_write; [apply _|]. by intros d. Qed.
Lemma quiet_RemoveActionIntent id : moves same_history (RemoveActionIntent id).
Proof. unfold RemoveActionIntent. moves_go. apply keeps_write; [apply _|]. by intros d. Qed.
Hint Resolve quiet_WriteNode quiet_WriteResult quiet_writeAttempt quiet_WriteActionIntent quiet_RemoveActionIntent : moves.

(** ** Operations *)

(** A loaded run has the version of the disk. *)
Lemma loadRun_done w run nodes w' :
  loadRun w = Done (run, nodes) w' ->
  exists s, dk_snapshot (w_disk w) = Some s /\ run = upgrade_run s /\ ValidateWorkflowSnapshot s = Ok tt.
Proof.
  unfold loadRun, ReadSnapshot, read, lift, mbind, eff_bind, get_disk. cbn.
  destruct (dk_snapshot (w_disk w)) as [s|]; cbn; [|done].
  destruct (ValidateWorkflowSnapshot s) as [[]|e] eqn:Ev; cbn; [|done].
  destruct (each load_node [] _ w); cbn; [|done..]. intros Heq. injection Heq as <- <- <-. exists s. done.
Qed.

Lemma loadRun_triple d0 v :
  triple (at_version d0 v) loadRun (fun loaded => at_version d0 (ws_StateVersion loaded.1)) (interrupted d0).
Proof.
  intros w Hw. pose proof (moves_loadRun eq w) as Hm. pose proof (loadRun_done w) as Hl.
  destruct (loadRun w) as [[run nodes] w'|e w'|d]; cbn in *; rewrite <-Hm; [|by eapply at_version_interrupted..].
  destruct (Hl _ _ _ eq_refl) as (s & Hs & -> & _). destruct Hw as (? & ? & Hv). split; [done|]. split; [done|].
  rewrite Hs in *. cbn in *. congruence.
Qed.

(** [follows m]: during an operation [m] may run on any version, and it ends on
    some version *)
Definition follows {A} (m : eff A) : Prop :=
  forall d0 v, triple (at_version d0 v) m (fun _ d => exists v', at_version d0 v' d) (interrupted d0).

Lemma follows_bind {A B} (m : eff A) (k : A -> eff B) : follows m -> (forall a, follows (k a)) -> follows (x ← m; k x).
Proof.
  intros Hm Hk d0 v. eapply triple_bind; [apply Hm|]. intros a w [v' Hw]. by apply (Hk a d0 v').
Qed.

Lemma follows_quiet {A} (m : eff A) : moves same_history m -> follows m.
Proof.
  intros Hm d0 v. eapply triple_consequence; [by apply triple_quiet|done| |done]. intros a d Hd. by exists v.
Qed.

Lemma follows_controllerMutation {A} active (action : WorkflowSnapshot -> list NodeSnapshot -> eff A) :
  (forall run nodes d0, triple (at_version d0 (ws_StateVersion run)) (action run nodes)
     (fun _ d => exists v', at_version d0 v' d) (interrupted d0)) ->
  follows (controllerMutation active action).
Proof.
  intros Ha d0 v. unfold controllerMutation. apply triple_if; intros _.
  { intros w Hw. by eapply at_version_interrupted. }
  eapply triple_bind; [apply loadRun_triple|]. intros [run nodes]. cbn.
  apply triple_if; intros _; [|apply Ha]. intros w Hw. by eapply at_version_interrupted.
Qed.

Lemma persistRun_at d0 v run node eventType message :
  ws_StateVersion run = v ->
  triple (at_version d0 v) (persistRun run node eventType message)
    (fun run' d => at_version d0 (ws_StateVersion run') d) (interrupted d0).
Proof. intros <-. apply persistRun_triple. Qed.

Lemma persistRun_ends d0 v run node eventType message :
  ws_StateVersion run = v ->
  triple (at_version d0 v) (persistRun run node eventType message) (fun _ d => exists v', at_version d0 v' d) (interrupted d0).
Proof.
  intros Hv. eapply triple_consequence; [by apply (persistRun_at d0 v)|done| |done]. intros run' d Hd. eexists. exact Hd.
Qed.

Lemma triple_end {A} d0 v (a : A) :
  triple (at_version d0 v) (mret a) (fun _ d => exists v', at_version d0 v' d) (interrupted d0).
Proof. intros w Hw. by exists v. Qed.

Lemma triple_fail {A} d0 v e (Q : A -> disk -> Prop) : triple (at_version d0 v) (raise e) Q (interrupted d0).
Proof. intros w Hw. by eapply at_version_interrupted. Qed.

Lemma aggregate_version run nodes doc t : ws_StateVersion (aggregateRunState run nodes doc t).1.1 = ws_StateVersion run.
Proof. unfold aggregateRunState. repeat case_match; reflexivity. Qed.

Lemma receipt_version run actionID requestHash : ws_StateVersion (recordActionReceipt run actionID requestHash) = ws_StateVersion run.
Proof. unfold recordActionReceipt. by destruct (_ =s _). Qed.
End History.

#[export] Hint Resolve quiet_WriteNode quiet_WriteResult quiet_writeAttempt quiet_WriteActionIntent quiet_RemoveActionIntent : moves.

(** Follows a method that persists the run: at every call the version on disk
    is the one of the run that is passed on. *)
Ltac history_go :=
  repeat first
    [ apply triple_end | apply triple_fail
    | match goal with
      | |- triple _ (mbind _ (persistRun _ _ _ _)) _ _ =>
          eapply triple_bind; [apply persistRun_at; first [reflexivity | assumption] | intros ?; cbv beta]
      | |- triple _ (mbind _ (mret _)) _ _ => apply triple_ret_bind
      | |- triple _ (mbind _ (mbind _ _)) _ _ => apply triple_assoc
      | |- triple _ (mbind _ (let '(_, _) := aggregateRunState ?r ?n ?d ?t in _)) _ _ =>
          pose proof (aggregate_version r n d t); destruct (aggregateRunState r n d t) as [[? ?] ?]; cbn in *
      | |- triple _ (mbind _ (match ?b with _ => _ end)) _ _ => destruct b
      | |- triple _ (mbind _ _) _ _ => eapply triple_bind; [apply triple_quiet; solve [moves_go] | intros ?; cbv beta]
      | |- triple _ (let '(_, _) := aggregateRunState ?r ?n ?d ?t in _) _ _ =>
          pose proof (aggregate_version r n d t); destruct (aggregateRunState r n d t) as [[? ?] ?]; cbn in *
      | |- triple _ (match ?x with _ => _ end) _ _ => destruct x
      end ].

Create HintDb follows.
#[export] Hint Constants Opaque : follows.

Section Operations.
Context `{GoRange} `{CatalogDigest} `{Service}.

Lemma follows_waitingIfChanged active nodeID number reason message :
  follows (waitingIfChanged active nodeID number reason message).
Proof.
  apply follows_bind; [apply follows_quiet; moves_go|]. intros normalized.
  apply follows_controllerMutation. intros run nodes d0. history_go.
Qed.
Hint Resolve follows_waitingIfChanged : follows.

Lemma follows_waiting active nodeID number reason message : follows (waiting active nodeID number reason message).
Proof. apply follows_bind; [apply follows_waitingIfChanged|]. intros b. apply follows_quiet. moves_go. Qed.

Lemma follows_waitingWithResult active nodeID number reason message result :
  follows (waitingWithResult active nodeID number reason message result).
Proof.
  apply follows_bind; [apply follows_quiet; moves_go|]. intros normalized.
  apply follows_controllerMutation. intros run nodes d0. history_go.
Qed.

Lemma follows_finishIndeterminate active nodeID number message : follows (finishIndeterminate active nodeID number message).
Proof. apply follows_controllerMutation. intros run nodes d0. history_go. Qed.

Lemma follows_finish_succeeded active nodeID number result :
  follows (controllerMutation active (finish_succeeded nodeID number result)).
Proof. apply follows_controllerMutation. intros run nodes d0. unfold finish_succeeded. history_go. Qed.

Lemma follows_finish_failed active nodeID number result :
  follows (controllerMutation active (finish_failed nodeID number result)).
Proof. apply follows_controllerMutation. intros run nodes d0. unfold finish_failed. history_go. Qed.

Lemma follows_pauseControllerOnError active cause : follows (pauseControllerOnError active cause).
Proof. apply follows_controllerMutation. intros run nodes d0. history_go. Qed.
Hint Resolve follows_waiting follows_waitingWithResult follows_finishIndeterminate follows_finish_succeeded
  follows_finish_failed : follows.

(** Follows the calls of other methods *)
Ltac follows_go :=
  repeat first
    [ match goal with
      | |- follows (match ?x with _ => _ end) => destruct x
      | |- follows (mbind _ (match ?x with _ => _ end)) => destruct x
      end
    | solve [eauto 1 with follows nocore]
    | solve [apply follows_quiet; moves_go]
    | apply follows_bind; [|intros ?] ].

Lemma follows_finishResult active nodeID number o : follows (finishResult active nodeID number o).
Proof. unfold finishResult. cbv zeta. follows_go. Qed.
Hint Resolve follows_finishResult : follows.

Lemma follows_each {S A} (body : S -> A -> eff S) xs s : (forall s x, follows (body s x)) -> follows (each body s xs).
Proof.
  intros Hb. revert s. induction xs as [|x xs IH]; intros s; cbn [each]; [apply follows_quiet; moves_go|].
  apply follows_bind; [apply Hb|]. intros s'. apply IH.
Qed.

Lemma follows_reconcileAttempts active results : follows (reconcileAttempts active results).
Proof.
  unfold reconcileAttempts. apply follows_bind; [|intros ?; follows_go].
  apply follows_each. intros progressed result. unfold reconcile_result. cbv zeta. follows_go.
Qed.

(** ** Scheduling *)

Lemma skip_nodes_triple d0 reason diagnostic ids s :
  triple (at_version d0 (ws_StateVersion s.1)) (each (skip_node reason diagnostic) s ids)
    (fun s' => at_version d0 (ws_StateVersion s'.1)) (interrupted d0).
Proof.
  apply (triple_each (fun s => at_version d0 (ws_StateVersion s.1))). clear s. intros [run nodes] id. unfold skip_node.
  history_go. intros w Hw. exact Hw.
Qed.

Lemma ready_approvals_triple d0 normalized results ids s :
  triple (at_version d0 (ws_StateVersion s.1)) (each (ready_approval normalized results) s ids)
    (fun s' => at_version d0 (ws_StateVersion s'.1)) (interrupted d0).
Proof.
  apply (triple_each (fun s => at_version d0 (ws_StateVersion s.1))). clear s. intros [run nodes] id. unfold ready_approval.
  cbv zeta. history_go. intros w Hw. exact Hw.
Qed.

Lemma follows_schedule_quiet active normalized backendLimit : follows (schedule_quiet active normalized backendLimit).
Proof.
  apply follows_controllerMutation. intros run nodes d0.
  eapply triple_bind; [apply triple_quiet; moves_go|]. intros effective. cbv zeta beta.
  eapply triple_bind; [apply triple_quiet; moves_go|]. intros decision. unfold skip_decided.
  repeat apply triple_assoc.
  change (ws_StateVersion run) with (ws_StateVersion (set_concurrency run effective, nodes).1).
  eapply triple_bind; [apply skip_nodes_triple|]. intros s1.
  repeat apply triple_assoc. eapply triple_bind; [apply skip_nodes_triple|]. intros s2.
  eapply triple_bind; [apply skip_nodes_triple|]. intros s3.
  eapply triple_bind; [apply ready_approvals_triple|]. intros s4. unfold settle_run. history_go.
Qed.

(** ** Actions *)

(** Methods that take the run as it is on disk *)
Definition continues {A} (run : WorkflowSnapshot) (m : eff A) : Prop :=
  forall d0, triple (at_version d0 (ws_StateVersion run)) m (fun _ d => exists v', at_version d0 v' d) (interrupted d0).

Lemma finalizeAction_continues run run' node action eventType summary :
  ws_StateVersion run' = ws_StateVersion run -> continues run (finalizeAction run' node action eventType summary).
Proof.
  intros Hv d0. unfold finalizeAction. cbv zeta. eapply triple_bind; [apply triple_now|]. intros t. cbv beta.
  eapply triple_bind; [apply persistRun_at; rewrite receipt_version; exact Hv|]. intros run2. cbv beta. history_go.
Qed.

Lemma triple_keep {A} d0 v (X : Prop) (m : eff A) :
  moves same_history m ->
  triple (fun d => at_version d0 v d /\ X) m (fun _ d => at_version d0 v d /\ X) (interrupted d0).
Proof.
  intros Hm w [Hw HX]. pose proof (triple_quiet d0 v m Hm w Hw) as Ht. destruct (m w); cbn in *; done.
Qed.

Lemma apply_mutations_triple d0 action v ms s :
  triple (fun d => at_version d0 v d /\ ws_StateVersion s.1 = v) (each (apply_mutation action) s ms)
    (fun s' d => at_version d0 v d /\ ws_StateVersion s'.1 = v) (interrupted d0).
Proof.
  apply (triple_each (fun s d => at_version d0 v d /\ ws_StateVersion s.1 = v)). clear s. intros [run intent] [index m].
  unfold apply_mutation. eapply triple_bind; [apply triple_keep; moves_go|]. intros current. cbv beta zeta.
  apply triple_if; intros _; [by intros w Hw|].
  eapply triple_bind; [apply triple_keep; moves_go|]. intros [].
  apply triple_if; intros _; [|by intros w Hw].
  eapply triple_bind; [apply triple_keep; moves_go|]. intros []. by intros w Hw.
Qed.

Lemma applyActionIntent_continues run run' action intent :
  ws_StateVersion run' = ws_StateVersion run -> continues run (applyActionIntent run' action intent).
Proof.
  intros Hv d0. unfold applyActionIntent. destruct (ai_Mutations intent) as [|first rest]; [apply triple_fail|].
  eapply triple_bind; [eapply triple_consequence; [apply (apply_mutations_triple d0 action (ws_StateVersion run))|by intros d Hd|done|done]|].
  intros s w [Hw Hs]. by apply (finalizeAction_continues run s.1).
Qed.

Lemma resumeActionIntent_continues run action intent : continues run (resumeActionIntent run action intent).
Proof.
  intros d0. unfold resumeActionIntent. apply triple_if; intros _; [apply triple_fail|].
  eapply triple_bind; [apply triple_quiet; moves_go|]. intros intent'. by apply (applyActionIntent_continues run).
Qed.

Lemma continues_quiet {A} run (m : eff A) : moves same_history m -> continues run m.
Proof. intros Hm d0. apply (follows_quiet m Hm). Qed.

Lemma continues_after {A B} run (m : eff A) (k : A -> eff B) :
  moves same_history m -> (forall a, continues run (k a)) -> continues run (x ← m; k x).
Proof. intros Hm Hk d0. eapply triple_bind; [by apply triple_quiet|]. intros a. apply Hk. Qed.

Lemma continues_before {A B} run (m : eff A) (k : A -> eff B) :
  continues run m -> (forall a, follows (k a)) -> continues run (x ← m; k x).
Proof. intros Hm Hk d0. eapply triple_bind; [apply Hm|]. intros a w [v Hw]. by apply (Hk a d0 v). Qed.

Lemma quiet_prepareActionIntent intent : moves same_history (prepareActionIntent intent).
Proof. unfold prepareActionIntent, ListActionIntentIDs. moves_go. Qed.
Hint Resolve quiet_prepareActionIntent : moves.

Lemma applyAction_continues run action : continues run (applyAction run action).
Proof.
  unfold applyAction. apply continues_after; [moves_go|]. intros [node summary|mutations eventType summary]; cbv zeta.
  - destruct (ws_Phase run =s PhaseCompleted); [apply continues_quiet; moves_go|by apply (finalizeAction_continues run)].
  - destruct (ra_ActionID action =s ""); [by apply (applyActionIntent_continues run)|].
    apply continues_after; [moves_go|]. intros _. apply continues_after; [moves_go|]. intros _.
    by apply (applyActionIntent_continues run).
Qed.

Lemma resume_pending_continues run action : continues run (resume_pending run action).
Proof.
  unfold resume_pending. destruct (_ !! _) as [receipt|].
  - apply continues_quiet. moves_go.
  - apply continues_after; [moves_go|]. intros [intent|]; [|apply continues_quiet; moves_go].
    destruct (_ || _); [apply continues_quiet; moves_go|].
    apply continues_before; [apply resumeActionIntent_continues|]. intros run'. apply follows_quiet. moves_go.
Qed.

Lemma resume_new_continues run nodes expected action : continues run (resume_new run nodes expected action).
Proof.
  unfold resume_new. destruct (match expected with Some _ => _ | None => _ end); [apply continues_quiet; moves_go|].
  destruct action as [action|].
  - apply continues_after; [moves_go|]. intros _.
    apply continues_before; [apply applyAction_continues|]. intros run'. apply follows_quiet. moves_go.
  - destruct (_ =s _); [apply continues_quiet; moves_go|].
    apply continues_after; [moves_go|]. intros settled. intros d0. cbv zeta. history_go.
Qed.

(** Looking for a pending intent leaves the version alone when there is none. *)
Lemma triple_pending d0 run action received :
  triple (at_version d0 (ws_StateVersion run))
    (found ← resume_pending run action; mret (pair (received : bool) <$> found))
    (fun pending d => match pending with Some _ => exists v, at_version d0 v d | None => at_version d0 (ws_StateVersion run) d end)
    (interrupted d0).
Proof.
  eapply (triple_bind _ _ _ (fun found d => match found with
    | Some _ => exists v, at_version d0 v d | None => at_version d0 (ws_StateVersion run) d end)); [|by intros [run'|] w Hw].
  unfold resume_pending. destruct (_ !! _) as [receipt|].
  { apply triple_if; intros _; [apply triple_fail|].
    eapply triple_bind; [apply triple_quiet; moves_go|]. intros [] w Hw. by eexists. }
  eapply triple_bind; [apply triple_quiet; moves_go|]. intros [intent|]; [|by intros w Hw].
  apply triple_if; intros _; [apply triple_fail|].
  eapply triple_bind; [apply resumeActionIntent_continues|]. intros run' w Hw. exact Hw.
Qed.

Lemma follows_loaded {A} (k : WorkflowSnapshot * list NodeSnapshot -> eff A) :
  (forall run nodes, continues run (k (run, nodes))) -> follows (loaded ← loadRun; k loaded).
Proof. intros Hk d0 v. eapply triple_bind; [apply loadRun_triple|]. intros [run nodes]. apply Hk. Qed.

(** The repair of a run that Resume received before or resumed from its intent *)
Lemma follows_Resume expected action : follows (Resume expected action).
Proof.
  unfold Resume. apply follows_bind; [apply follows_quiet; moves_go|]. intros _. apply follows_loaded. intros run nodes d0.
  eapply (triple_bind _ _ _ (fun pending d => match pending with
    | Some _ => exists v, at_version d0 v d | None => at_version d0 (ws_StateVersion run) d end)).
  { destruct action as [action|]; [|by intros w Hw]. destruct (ra_ActionID action ≠s ""); [|by intros w Hw].
    apply triple_pending. }
  intros [[received run']|].
  - intros w Hw. exact Hw.
  - apply resume_new_continues.
Qed.

(** ** Cancellation *)

Lemma quiet_collect_target s node : moves same_history (collect_target s node).
Proof. unfold collect_target. moves_go. Qed.
Hint Resolve quiet_collect_target : moves.

Lemma follows_markConcurrentCancellationIntent request : follows (markConcurrentCancellationIntent request).
Proof.
  apply follows_loaded. intros run nodes d0. apply triple_if; intros _; [apply triple_fail|].
  apply triple_if; intros _; [history_go|]. apply continues_before; [|intros []; apply follows_quiet; moves_go].
  clear d0. intros d0. apply triple_if; intros _; [|apply triple_end].
  eapply triple_bind; [apply triple_now|]. intros t. cbv beta zeta.
  eapply triple_bind; [apply persistRun_at; by rewrite receipt_version|]. intros run'. cbv beta. history_go.
Qed.

Lemma follows_markCancellationIntent : follows markCancellationIntent.
Proof.
  apply follows_loaded. intros run nodes. destruct (_ =s _); [apply continues_quiet; moves_go|].
  apply continues_before; [|intros []; apply follows_quiet; moves_go]. intros d0. history_go.
Qed.

Lemma follows_persistCancelFailure activeNodeID message : follows (persistCancelFailure activeNodeID message).
Proof. apply follows_loaded. intros run nodes d0. cbv zeta. history_go. Qed.

(** A loop that writes nodes and passes the run on without persisting it *)
Lemma quiet_loop {A} d0 (body : WorkflowSnapshot -> A -> eff WorkflowSnapshot) xs run :
  (forall run x, triple (at_version d0 (ws_StateVersion run)) (body run x) (fun run' => at_version d0 (ws_StateVersion run')) (interrupted d0)) ->
  triple (at_version d0 (ws_StateVersion run)) (each body run xs) (fun run' => at_version d0 (ws_StateVersion run')) (interrupted d0).
Proof. intros Hb. apply (triple_each (fun run => at_version d0 (ws_StateVersion run))), Hb. Qed.

Lemma cancel_unstarted_triple d0 diagnostic run node :
  triple (at_version d0 (ws_StateVersion run)) (cancel_unstarted diagnostic run node)
    (fun run' => at_version d0 (ws_StateVersion run')) (interrupted d0).
Proof. unfold cancel_unstarted. cbv zeta. apply triple_if; intros _; [|by intros w Hw]. history_go. by intros w Hw. Qed.

Lemma apply_outcome_triple d0 s o :
  triple (at_version d0 (ws_StateVersion (cs_run s))) (apply_outcome s o)
    (fun s' => at_version d0 (ws_StateVersion (cs_run s'))) (interrupted d0).
Proof.
  unfold apply_outcome. eapply triple_bind; [apply triple_quiet; moves_go|]. intros [index node]. cbv zeta beta.
  history_go; by intros w Hw.
Qed.

Lemma follows_applyCancellationOutcomes outcomes : follows (applyCancellationOutcomes outcomes).
Proof.
  apply follows_loaded. intros run nodes d0. apply triple_if; intros _; [history_go|].
  eapply triple_bind; [apply (triple_each (fun s => at_version d0 (ws_StateVersion (cs_run s)))
    (interrupted d0) apply_outcome outcomes {| cs_run := run; cs_nodes := nodes; cs_unresolved := [] |}); apply apply_outcome_triple|].
  intros s. cbv beta zeta. destruct (cs_unresolved s).
  - eapply triple_bind; [apply quiet_loop; intros; apply cancel_unstarted_triple|]. intros run'. cbv beta zeta.
    eapply triple_bind; [apply triple_now|]. intros t. cbv beta.
    by apply persistRun_ends.
  - history_go.
Qed.

Lemma cancel_active_triple d0 activeNodeID s node :
  triple (at_version d0 (ws_StateVersion s.1)) (cancel_active activeNodeID s node)
    (fun s' => at_version d0 (ws_StateVersion s'.1)) (interrupted d0).
Proof.
  destruct s as [run nodes]. unfold cancel_active. apply triple_if; intros _; [by intros w Hw|]. cbv zeta.
  history_go; by intros w Hw.
Qed.

Lemma follows_finalizeCancellation activeNodeID : follows (finalizeCancellation activeNodeID).
Proof.
  apply follows_loaded. intros run nodes d0. apply triple_if; intros _; [history_go|].
  eapply triple_bind; [apply (triple_each (fun s => at_version d0 (ws_StateVersion s.1))
    (interrupted d0) (cancel_active activeNodeID) nodes (run, [])); intros; apply cancel_active_triple|].
  intros [run' nodes']. cbv beta zeta.
  eapply triple_bind; [apply quiet_loop; intros; apply cancel_unstarted_triple|]. intros run2. cbv beta zeta.
  eapply triple_bind; [apply triple_now|]. intros t. cbv beta.
  by apply persistRun_ends.
Qed.

(** ** Methods that do not touch the log *)

Lemma quiet_beginBackendLaunch active id number : moves same_history (beginBackendLaunch active id number).
Proof. unfold beginBackendLaunch. moves_go. Qed.
Lemma quiet_markLaunchFinishedWithoutHandle id number : moves same_history (markLaunchFinishedWithoutHandle id number).
Proof. unfold markLaunchFinishedWithoutHandle. moves_go. Qed.
Lemma quiet_persistExecutionHandle id number backend handle :
  moves same_history (persistExecutionHandle id number backend handle).
Proof. unfold persistExecutionHandle. moves_go. Qed.
Lemma quiet_AbortActionIntent id hash : moves same_history (AbortActionIntent id hash).
Proof. unfold AbortActionIntent. moves_go. Qed.
Hint Resolve follows_Resume follows_markConcurrentCancellationIntent follows_applyCancellationOutcomes
  follows_markCancellationIntent follows_persistCancelFailure follows_finalizeCancellation follows_reconcileAttempts
  follows_schedule_quiet follows_pauseControllerOnError : follows.
Hint Resolve quiet_beginBackendLaunch quiet_markLaunchFinishedWithoutHandle quiet_persistExecutionHandle
  quiet_AbortActionIntent : moves.

Lemma follows_perform o : follows (perform o).
Proof. destruct o; cbn [perform]; unfold forget; follows_go. Qed.

(** ** Sequences of operations *)

(** [d] extends [d0]: the log has grown, the version has advanced once per
    new event and [lag] times more, for a lag of at most [lost]. *)
Definition extends (d0 : disk) (lost : Z) (d : disk) : Prop :=
  exists lag, 0 <= lag <= lost /\ advanced d0 lag d.

Lemma advanced_trans d0 lag d lag' d' : advanced d0 lag d -> advanced d lag' d' -> advanced d0 (lag + lag') d'.
Proof.
  intros (es & s0 & s & He & Hs0 & Hs & Hv) (es' & s1 & s' & He' & Hs1 & Hs' & Hv').
  rewrite Hs in Hs1. injection Hs1 as <-. exists (es ++ es'), s0, s'. split_and!; [by rewrite He', He, app_assoc|done|done|].
  rewrite Hv', Hv, <-Z.add_assoc, wrap_wrap_add. f_equal. unfold len_slice. rewrite length_app. lia.
Qed.

Lemma run_operation_extends d0 s entry :
  disk_ok s.1 -> extends d0 s.2 s.1 ->
  disk_ok (run_operation s entry).1 /\ extends d0 (run_operation s entry).2 (run_operation s entry).1.
Proof.
  destruct s as [d lost], entry as [o faults]. cbn [fst snd]. intros Hok (lag & Hlag & Ha).
  destruct (start_version d Hok) as [v Hv]. pose proof (follows_perform o d v (boot d faults) Hv) as Hf.
  unfold run_operation. cbn [fst snd]. destruct (perform o (boot d faults)) as [[] w|e w|d'] eqn:E; cbn in Hf |- *.
  - destruct Hf as (v' & Hok' & Ha' & _). split; [done|]. exists lag. split; [done|].
    rewrite <-(Z.add_0_r lag). by eapply advanced_trans.
  - destruct Hf as (Hok' & [Ha'|Ha']); (split; [done|]); eexists; (split; [|by eapply advanced_trans]); lia.
  - destruct Hf as (Hok' & [Ha'|Ha']); (split; [done|]); eexists; (split; [|by eapply advanced_trans]); lia.
Qed.

(** C3: From a disk whose log is numbered 1..n and whose snapshot is valid, any
    sequence of operations (scheduling, results, launches, user actions,
    cancellation), each of which may fail or be cut off by a crash at any of
    its writes, leaves a disk with the same property: the log has only grown
    and is still numbered without gaps, the snapshot is valid, and the state
    version has advanced once per event, and at most once more for every
    operation that did not end normally. *)
Theorem run_history d ops :
  disk_ok d ->
  disk_ok (run_operations d ops).1 /\ extends d (run_operations d ops).2 (run_operations d ops).1.
Proof.
  intros Hok. unfold run_operations.
  assert (disk_ok (d, 0).1 /\ extends d (d, 0).2 (d, 0).1) as Hstart.
  { split; [done|]. exists 0. destruct (start_version d Hok) as (v & _ & Ha & _). by split. }
  revert Hstart. generalize (d, 0). induction ops as [|entry ops IH]; intros s [Hok' He]; [by split|].
  cbn [foldl]. apply IH. by apply run_operation_extends.
Qed.
End Operations.

(** The node succeeds while the second write of its result fails; the result
    is delivered again, the run is scheduled, then cancelled, and the
    cancellation dies before its first write. *)
Lemma run_history_witness :
  let ops := [(Finish true "z" 1 (Some (demo_result "succeeded")), [Passes; WriteFails]);
              (Finish true "z" 1 (Some (demo_result "succeeded")), []);
              (Schedule true SchedulerTheory.sample_normalized 2, []);
              (CancelIntent {| cq_ExpectedStateVersion := None; cq_ActionID := "stop"; cq_ActionRequestHash := "h" |}, [Crashes])] in
  disk_ok (H := canonical_range) (@run_operations canonical_range zero_digest _ demo_running ops).1 /\
  extends demo_running (@run_operations canonical_range zero_digest _ demo_running ops).2
    (@run_operations canonical_range zero_digest _ demo_running ops).1.
Proof.
  apply (@run_history canonical_range zero_digest _). split.
  - intros _ i e Hi. destruct i as [|i]; cbn in Hi; [injection Hi as <-; reflexivity|discriminate].
  - eexists. split; [reflexivity|]. split; [vm_compute; reflexivity|]. cbn. lia.
Defined.
