(* ===== verification/RunRecovery.v ===== *)
(** * Recovery of interrupted actions

    An action with an action id is planned, its plan is stored as an intent,
    the nodes are written one by one with a progress marker after each, and a
    receipt in the run makes it final.  Whatever writes fail and wherever the
    process dies, repeating the request applies the plan exactly once. *)

From S2P Require Import Files.
From S2P Require Import Prelude GoText Routing Resolver Catalog Workflow Context Backend RunState Scheduler.
From S2P Require Import RunConclusion RunStore RunOps RunActions RunReceipts Cancellation RunService RunLogic RunHistory.
From S2P Require Import ResolverTheory RunExamples.
#[local] Open Scope string_scope.
#[local] Open Scope list_scope.
#[local] Open Scope Z_scope.

(** ** What the recovery relies on *)

Definition node_of (m : actionNodeMutation) : string := ns_ID (mt_After m).

(** The nodes after the plan *)
Definition apply_plan (ms : list actionNodeMutation) (nodes : gmap string NodeSnapshot) : gmap string NodeSnapshot :=
  foldl (fun nodes m => <[node_of m := mt_After m]> nodes) nodes ms.

(** The events are numbered from 1. *)
Definition numbered (events : list WorkflowEvent) : Prop :=
  forall i e, events !! i = Some e -> ev_Sequence e = Z.of_nat i + 1.

Definition node_loads (nodes : gmap string NodeSnapshot) (id : string) : Prop :=
  safe_id id = true /\ exists n, nodes !! id = Some n /\ ValidateNodeSnapshot (reload_node 1 n) = Ok tt.

(** A mutation of a plan for [nodes] that survives being stored: no
    json.RawMessage, whose indentation depends on the file *)
Record mutation_ok (nodes : gmap string NodeSnapshot) (m : actionNodeMutation) : Prop := {
  mo_safe : safe_id (node_of m) = true;
  mo_same : ns_ID (mt_Before m) = node_of m;
  mo_before : nodes !! node_of m = Some (mt_Before m);
  mo_plain : ns_PendingInputAnswer (mt_Before m) = None /\ ns_PendingInputAnswer (mt_After m) = None;
  mo_valid : ValidateNodeSnapshot (mt_After m) = Ok tt }.

Record plan_ok (nodes : gmap string NodeSnapshot) (ms : list actionNodeMutation) : Prop := {
  po_nonempty : ms <> [];
  po_distinct : NoDup (map node_of ms);
  po_each : Forall (mutation_ok nodes) ms }.

Lemma reload_plain depth n : ns_PendingInputAnswer n = None -> reload_node depth n = n.
Proof. intros Hn. destruct n. cbn in *. by subst. Qed.

Lemma reload_plan nodes ms : plan_ok nodes ms -> map reload_mutation ms = ms.
Proof.
  intros [_ _ Hall]. induction Hall as [|m ms Hm _ IH]; [done|]. cbn [map]. rewrite IH. f_equal.
  destruct (mo_plain _ _ Hm) as [Hb Ha]. unfold reload_mutation. rewrite !reload_plain by done. by destruct m.
Qed.

Lemma apply_plan_other ms nodes id : id ∉ map node_of ms -> apply_plan ms nodes !! id = nodes !! id.
Proof.
  unfold apply_plan. revert nodes. induction ms as [|m ms IH]; intros nodes Hid; [done|]. cbn in *.
  apply not_elem_of_cons in Hid as [Hne Hid]. rewrite IH by done. by rewrite lookup_insert_ne.
Qed.

Lemma apply_plan_take_S ms i m nodes :
  ms !! i = Some m -> apply_plan (take (S i) ms) nodes = <[node_of m := mt_After m]> (apply_plan (take i ms) nodes).
Proof. intros Hi. unfold apply_plan. rewrite (take_S_r _ _ _ Hi), foldl_app. done. Qed.

(** Which snapshot of its node a mutation meets after [k] mutations *)
Lemma apply_plan_lookup ms nodes k i m :
  plan_ok nodes ms -> ms !! i = Some m ->
  apply_plan (take k ms) nodes !! node_of m = Some (if (i <? k)%nat then mt_After m else mt_Before m).
Proof.
  intros [_ Hnd Hall] Hi. pose proof (lookup_lt_Some _ _ _ Hi) as Hlen.
  assert (forall l, l ⊆+ ms -> node_of m ∉ map node_of l -> apply_plan l nodes !! node_of m = Some (mt_Before m)) as Hother.
  { intros l _ Hl. rewrite apply_plan_other by done. eapply Forall_lookup_1 in Hall; [|exact Hi]. apply Hall. }
  assert (map node_of ms !! i = Some (node_of m)) as Hid by by rewrite list_lookup_fmap, Hi.
  induction k as [|k IH].
  - apply (Hother []); [apply submseteq_nil_l|apply not_elem_of_nil].
  - destruct (ms !! k) as [mk|] eqn:Ek.
    + rewrite (apply_plan_take_S _ _ _ _ Ek). destruct (decide (i = k)) as [->|Hne].
      * rewrite Ek in Hi. injection Hi as ->. rewrite lookup_insert_eq. by rewrite (proj2 (Nat.ltb_lt k (S k))) by lia.
      * rewrite lookup_insert_ne.
        { rewrite IH. destruct (Nat.ltb_spec i k), (Nat.ltb_spec i (S k)); (done || lia). }
        intros Heq. apply Hne. eapply NoDup_lookup; [exact Hnd|exact Hid|]. by rewrite list_lookup_fmap, Ek, <-Heq.
    + apply lookup_ge_None in Ek. rewrite take_ge in IH |- * by lia. rewrite IH.
      destruct (Nat.ltb_spec i k), (Nat.ltb_spec i (S k)); (done || lia).
Qed.

Lemma apply_plan_loads ms nodes k id :
  plan_ok nodes ms -> node_loads nodes id -> node_loads (apply_plan (take k ms) nodes) id.
Proof.
  intros Hplan [Hsafe Hn]. split; [done|]. destruct (decide (id ∈ map node_of (take k ms))) as [Hin|Hin].
  - apply list_elem_of_fmap in Hin as (m & -> & Hm). apply list_elem_of_lookup in Hm as [i Hi].
    apply lookup_take_Some in Hi as [Hi Hk]. rewrite (apply_plan_lookup _ _ _ _ _ Hplan Hi).
    rewrite (proj2 (Nat.ltb_lt i k)) by lia. destruct Hplan as [_ _ Hall]. eapply Forall_lookup_1 in Hall; [|exact Hi].
    eexists. split; [done|]. rewrite reload_plain by apply Hall. apply Hall.
  - by rewrite apply_plan_other.
Qed.

Section Recovery.
Context `{GoRange} `{CatalogDigest} `{Service}.

(** ** Loading *)

Record loadable (run : WorkflowSnapshot) (d : disk) : Prop := {
  ld_snapshot : dk_snapshot d = Some run;
  ld_valid : ValidateWorkflowSnapshot run = Ok tt;
  ld_nodes : Forall (node_loads (dk_nodes d)) (ws_TopologicalOrder run);
  ld_events : numbered (dk_events d) }.

Lemma sequence_numbered events :
  numbered events ->
  range_loop (fun sequence event =>
      fail_if ev_Sequence event <=? sequence with ErrEventSequence ;; Ok (ev_Sequence event)) 0 events =
    (Ok (len_slice events) : result RunError Z).
Proof.
  intros Hnum. change 0 with (len_slice (@nil WorkflowEvent)). change events with ([] ++ events) at 2.
  assert (numbered ([] ++ events)) as Hall by done. clear Hnum. revert Hall. generalize (@nil WorkflowEvent) as done_.
  induction events as [|e events IH]; intros done_ Hall; cbn [range_loop].
  { by rewrite app_nil_r. }
  assert (ev_Sequence e = len_slice done_ + 1) as He.
  { apply (Hall (length done_) e). by rewrite lookup_app_r, Nat.sub_diag. }
  destruct (ev_Sequence e <=? len_slice done_) eqn:El; bool_props; [lia|]. cbn.
  replace (ev_Sequence e) with (len_slice (done_ ++ [e])) by (unfold len_slice in *; rewrite length_app; cbn; lia).
  rewrite IH; by rewrite <-app_assoc.
Qed.

Lemma resetEventSequence_runs w :
  numbered (dk_events (w_disk w)) -> resetEventSequence w = Done (len_slice (dk_events (w_disk w))) w.
Proof.
  intros Hn. unfold resetEventSequence, ReadEvents, mbind, eff_bind, get_disk, lift. cbn. by rewrite sequence_numbered.
Qed.

Lemma ReadNode_runs w id n :
  safe_id id = true -> dk_nodes (w_disk w) !! id = Some n -> ReadNode id w = Done (reload_node 1 n) w.
Proof.
  intros Hs Hn. unfold ReadNode, validateID, read, lift, mbind, eff_bind, get_disk. rewrite Hs. cbn. by rewrite Hn.
Qed.

Lemma load_nodes_runs w nodes ids :
  Forall (node_loads (dk_nodes (w_disk w))) ids -> exists nodes', each load_node nodes ids w = Done nodes' w.
Proof.
  revert nodes. induction ids as [|id ids IH]; intros nodes Hall; cbn [each]; [by eexists|].
  apply Forall_cons in Hall as [(Hs & n & Hn & Hv) Hall].
  assert (exists nodes2, load_node nodes id w = Done nodes2 w) as [nodes2 Hl].
  { eexists. unfold load_node. erewrite bind_done by (by apply ReadNode_runs). unfold lift. by rewrite Hv. }
  rewrite (bind_done _ _ _ _ _ Hl). by apply IH.
Qed.

Lemma loadRun_runs w run : loadable run (w_disk w) -> exists nodes, loadRun w = Done (upgrade_run run, nodes) w.
Proof.
  intros [Hs Hv Hn _]. destruct (load_nodes_runs w [] _ Hn) as [nodes Hl]. exists nodes.
  unfold loadRun, ReadSnapshot, read, lift, mbind, eff_bind, get_disk. rewrite Hs. cbn. rewrite Hv. cbn. by rewrite Hl.
Qed.

(** ** The snapshot that makes an action final *)

Lemma valid_receipts_ok run : ValidateWorkflowSnapshot run = Ok tt -> receipts_ok run.
Proof.
  intros [_ Hr]%valid_base. split.
  - destruct (ws_ActionReceipts run !! "") as [r|] eqn:E; [|done]. apply Hr, validate_receipt_ok in E. naive_solver.
  - intros id r Hid%Hr. apply validate_receipt_ok in Hid. naive_solver.
Qed.

(** ** The stages of an action *)

Context (run : WorkflowSnapshot) (d0 : disk) (action : ResumeAction) (ms : list actionNodeMutation).
Context (eventType summary : string).

(** The circumstances of the action: the run can be loaded, the counters do
    not overflow, the request is identified, survives being stored and is new. *)
Record startable : Prop := {
  st_loadable : loadable run d0;
  st_version : 0 <= ws_StateVersion run < 2 ^ 64 - 1;
  st_events : Z.of_nat (length (dk_events d0)) < 2 ^ 64 - 1;
  st_plan : plan_ok (dk_nodes d0) ms;
  st_id : ra_ActionID action <> "";
  st_hash : ra_ActionRequestHash action <> "";
  st_stored : reload_action action = action;
  st_new : ws_ActionReceipts run !! ra_ActionID action = None }.

Definition stored_intent (phase : string) (applied : nat) : actionIntent :=
  set_phase_applied (new_intent action ms eventType summary) phase (Z.of_nat applied).

(** [j] mutations are marked as applied, [k] nodes are written. *)
Record at_stage (phase : string) (j k : nat) (d : disk) : Prop := {
  sg_snapshot : dk_snapshot d = Some run;
  sg_events : dk_events d = dk_events d0;
  sg_intent : dk_intents d !! ra_ActionID action = Some (stored_intent phase j);
  sg_nodes : dk_nodes d = apply_plan (take k ms) (dk_nodes d0);
  sg_order : (j <= k <= S j /\ k <= length ms)%nat;
  sg_phase : phase = actionIntentPlanned \/ phase = actionIntentApplying }.

(** The plan is stored and may be partly applied. *)
Definition pending (d : disk) : Prop := exists phase j k, at_stage phase j k d.

(** The receipt is recorded and all nodes are written. *)
Definition finished (d : disk) : Prop :=
  dk_nodes d = apply_plan ms (dk_nodes d0) /\
  exists run' receipt, loadable run' d /\ ws_ActionReceipts run' !! ra_ActionID action = Some receipt /\
    rc_RequestHash receipt = ra_ActionRequestHash action.

(** Nothing is left to do. *)
Definition over (d : disk) : Prop := finished d /\ dk_intents d !! ra_ActionID action = None.

Definition cut_off (d : disk) : Prop := pending d \/ finished d.

Lemma stage_pending phase j k d : at_stage phase j k d -> pending d.
Proof. intros Hs. by exists phase, j, k. Qed.

Lemma stage_loadable phase j k d : startable -> at_stage phase j k d -> loadable run d.
Proof.
  intros [[Hs Hv Hn He] _ _ Hplan _ _ _ _] [Hs' He' _ Hn' _ _]. split; [done..| |by rewrite He'].
  rewrite Hn'. eapply Forall_impl; [exact Hn|]. intros id. by apply apply_plan_loads.
Qed.

Lemma sure_reset P E :
  (forall d, P d -> numbered (dk_events d)) ->
  sure P resetEventSequence (fun n d => P d /\ n = len_slice (dk_events d)) E.
Proof. intros Hn w Hw. rewrite resetEventSequence_runs by auto. done. Qed.

Lemma sure_loadRun P E run' :
  (forall d, P d -> loadable run' d) -> sure P loadRun (fun loaded d => P d /\ loaded.1 = upgrade_run run') E.
Proof. intros Hl w Hw. destruct (loadRun_runs w run' (Hl _ Hw)) as [nodes ->]. done. Qed.

(** What the loop does not change in the run *)
Definition same_base (r : WorkflowSnapshot) : Prop :=
  ws_StateSchemaVersion r = schema_at_least_1 (ws_StateSchemaVersion run) /\ ws_ActionReceipts r = ws_ActionReceipts run /\
  ws_StateVersion r = ws_StateVersion run /\ ws_TopologicalOrder r = ws_TopologicalOrder run.

(** The snapshot that finalizeAction writes *)
Definition final_run (r : WorkflowSnapshot) (node : NodeSnapshot) (text : string) (t : Z) : WorkflowSnapshot :=
  let r := set_cancel (set_run (set_summary r node) PhaseRunning "" "" "" text t) false in
  let r := recordActionReceipt r (ra_ActionID action) (ra_ActionRequestHash action) in
  set_version r (wrap_uint64 (ws_StateVersion r + 1)).

Lemma final_run_spec r node text t :
  startable -> same_base r ->
  let r' := final_run r node text t in
  ValidateWorkflowSnapshot r' = Ok tt /\ ws_TopologicalOrder r' = ws_TopologicalOrder run /\ ws_Phase r' = PhaseRunning /\
  exists receipt, ws_ActionReceipts r' !! ra_ActionID action = Some receipt /\
    rc_RequestHash receipt = ra_ActionRequestHash action.
Proof.
  intros [[_ Hv _ _] Hver _ _ Hid Hhash _ _] (Hschema & Hrec & Hversion & Htopo) r'.
  set (r1 := set_cancel (set_run (set_summary r node) PhaseRunning "" "" "" text t) false) in *.
  assert (receipts_ok r1) as Hok.
  { destruct (valid_receipts_ok _ Hv) as [He Hle]. unfold r1, receipts_ok. cbn. by rewrite Hrec, Hversion. }
  assert (ws_ActionReceipts r' = ws_ActionReceipts (recordActionReceipt r1 (ra_ActionID action) (ra_ActionRequestHash action))) as Hr' by done.
  assert (0 <= ws_StateVersion r1 < 2 ^ 64 - 1) as Hrange by (unfold r1; cbn; by rewrite Hversion).
  destruct (valid_base _ Hv) as [Hsch Hall].
  assert (ws_StateVersion r' = ws_StateVersion run + 1) as Hv'.
  { unfold r', final_run. fold r1. cbn. rewrite receipt_version. unfold r1. cbn. rewrite Hversion, wrap_uint64_id by lia. done. }
  assert (ws_Phase r' = PhaseRunning /\ ws_Conclusion r' = "" /\ ws_Reason r' = "" /\
          ws_StateSchemaVersion r' = ws_StateSchemaVersion r /\ ws_TopologicalOrder r' = ws_TopologicalOrder r) as (Hp & Hc & Hre & Hs & Ht).
  { unfold r', final_run, recordActionReceipt. rewrite (proj2 (String.eqb_neq _ _) Hid). done. }
  split_and!; [|congruence|done|].
  - apply validate_running; [done..|split].
    + rewrite Hs, Hschema. unfold schema_at_least_1. destruct (_ =? 0); [done|exact Hsch].
    + intros id rc Hrc. rewrite Hr' in Hrc. destruct (record_newest r1 _ (ra_ActionRequestHash action) Hid (proj1 Hok)) as (Hsub & _).
      apply (lookup_weaken _ _ _ _ Hrc) in Hsub. rewrite Hv'. apply validate_receipt_ok.
      apply lookup_insert_Some in Hsub as [[<- <-]|[_ Hsub]].
      * unfold new_receipt. cbn. rewrite Hversion, wrap_uint64_id by lia. split_and!; try done; lia.
      * unfold r1 in Hsub. cbn in Hsub. rewrite Hrec in Hsub. apply Hall, validate_receipt_ok in Hsub. naive_solver lia.
  - rewrite Hr', record_kept by done. by eexists.
Qed.

(** All nodes are written, the receipt is not yet recorded. *)
Definition written (d : disk) : Prop := exists phase j, at_stage phase j (length ms) d.

Lemma written_nodes d : written d -> dk_nodes d = apply_plan ms (dk_nodes d0) /\ dk_events d = dk_events d0.
Proof. intros (phase & j & Hs). split; [|apply Hs]. rewrite (sg_nodes _ _ _ _ Hs). by rewrite take_ge. Qed.

Lemma written_loadable d : startable -> written d -> loadable run d.
Proof. intros Hst (phase & j & Hs). by eapply stage_loadable. Qed.

Lemma finish_snapshot d r node text t :
  startable -> same_base r -> written d -> finished (set_snapshot (final_run r node text t) d).
Proof.
  intros Hst Hr Hw. destruct (final_run_spec r node text t Hst Hr) as (Hv & Ht & _ & rc & Hrc & Hh).
  destruct (written_nodes d Hw) as [Hn He]. split; [done|]. exists (final_run r node text t), rc. split; [|done].
  destruct (written_loadable d Hst Hw). split; [done|done|by rewrite Ht|done].
Qed.

Lemma finished_event d e :
  startable -> finished d -> dk_events d = dk_events d0 -> ev_Sequence e = wrap_uint64 (len_slice (dk_events d) + 1) ->
  finished (add_event e d).
Proof.
  intros Hst (Hn & run' & rc & [Hs Hv Hl Hnum] & Hrc) He Hseq. split; [done|]. exists run', rc. split; [|done].
  split; [done..|]. cbn. intros i e' [Hi|[Hi He']]%lookup_app_Some; [by apply Hnum|].
  apply list_lookup_singleton_Some in He' as [Hi' <-]. pose proof (st_events Hst). rewrite He in *. rewrite Hseq.
  unfold len_slice. rewrite wrap_uint64_id by lia. lia.
Qed.

Lemma finished_intents d m : finished d -> finished (set_intents m d).
Proof. intros (Hn & run' & rc & [Hs Hv Hl Hnum] & Hrc). split; [done|]. exists run', rc. by split. Qed.

Lemma finalizeAction_sure r node eventType' text :
  startable -> same_base r ->
  sure written (finalizeAction r node action eventType' text) (fun r' d => over d /\ ws_Phase r' = PhaseRunning) cut_off.
Proof.
  intros Hst Hr. unfold finalizeAction. cbv zeta. eapply sure_bind; [apply sure_now|]. intros t. cbv beta.
  eapply (sure_bind _ _ _ (fun r' d => finished d /\ ws_Phase r' = PhaseRunning)).
  - unfold persistRun. set (r' := set_version _ _). change r' with (final_run r node text t). clear r'.
    destruct (final_run_spec r node text t Hst Hr) as (Hv & _ & Hp & _). set (r' := final_run r node text t) in *.
    eapply sure_bind; [by apply sure_lift|]. intros []. cbv beta.
    eapply (sure_bind _ _ _ (fun _ d => finished d /\ dk_events d = dk_events d0)).
    { apply sure_write; intros d [_ Hw].
      - split; [by apply finish_snapshot|exact (proj2 (written_nodes d Hw))].
      - left. destruct Hw as (phase & j & Hs). by eapply stage_pending. }
    intros []. eapply sure_bind; [apply sure_reset; intros d [(_ & r2 & rc & Hl & _) _]; apply Hl|]. intros n. cbv beta.
    eapply sure_bind; [apply sure_now|]. intros t2. cbv beta.
    eapply (sure_bind _ _ _ (fun _ => finished)).
    { apply sure_write; intros d [[Hf He] ->]; [|by right]. by apply finished_event. }
    intros []. apply sure_ret. intros d Hd. split; [exact Hd|exact Hp].
  - intros r'. rewrite (proj2 (String.eqb_neq _ _) (st_id Hst)).
    eapply (sure_bind _ _ _ (fun _ d => over d /\ ws_Phase r' = PhaseRunning)); [|intros u; by apply sure_ret].
    unfold RemoveActionIntent. rewrite (proj2 (String.eqb_neq _ _) (st_id Hst)).
    eapply sure_bind; [apply sure_get|]. intros d'. cbv beta. apply sure_write; intros d [[Hf Hp] ->]; [|by right].
    split; [split|done]; [by apply finished_intents|]. cbn. apply lookup_delete_eq.
Qed.

(** The loop over the mutations, from [j] marked and [k] written ones *)
Definition loop_stage (phase : string) (j k i : nat) (s : WorkflowSnapshot * actionIntent) (d : disk) : Prop :=
  at_stage phase (Nat.max j i) (Nat.max k i) d /\ same_base s.1 /\ s.2 = stored_intent phase (Nat.max j i).

Lemma stage_reads phase j k i m :
  startable -> ms !! i = Some m ->
  sure (at_stage phase j k) (ReadNode (node_of m))
    (fun current d => at_stage phase j k d /\ current = if (i <? k)%nat then mt_After m else mt_Before m) cut_off.
Proof.
  intros Hst Hi w Hw. pose proof (st_plan Hst) as Hplan.
  assert (mutation_ok (dk_nodes d0) m) as Hm by (eapply Forall_lookup_1; [apply Hplan|exact Hi]).
  erewrite ReadNode_runs; [|apply Hm|rewrite (sg_nodes _ _ _ _ Hw); by apply apply_plan_lookup].
  split; [|done]. split; [done|]. apply reload_plain. destruct (i <? k)%nat; apply Hm.
Qed.

(** Writing the node of a mutation *)
Lemma stage_write phase i k m d :
  ms !! i = Some m -> at_stage phase i k d -> (k = i)%nat -> at_stage phase i (S i) (set_node (node_of m) (mt_After m) d).
Proof.
  intros Hi [Hs He Hin Hn Ho Hp] ->. pose proof (lookup_lt_Some _ _ _ Hi). split; [done..| |lia|done].
  cbn. by rewrite (apply_plan_take_S _ _ _ _ Hi), Hn.
Qed.

(** Marking a mutation as applied *)
Lemma stage_mark phase i d :
  at_stage phase i (S i) d ->
  at_stage phase (S i) (S i) (set_intents (<[ra_ActionID action := stored_intent phase (S i)]> (dk_intents d)) d).
Proof. intros [Hs He Hin Hn Ho Hp]. split; [done..| |done|lia|done]. cbn. by rewrite lookup_insert_eq. Qed.

Lemma apply_mutation_sure phase j k i m s :
  startable -> (j <= k <= S j)%nat -> ms !! i = Some m ->
  sure (loop_stage phase j k i s) (apply_mutation action s (i, m)) (loop_stage phase j k (S i)) cut_off.
Proof.
  intros Hst Hjk Hi. pose proof (st_plan Hst) as Hplan. pose proof (lookup_lt_Some _ _ _ Hi) as Hlen.
  assert (mutation_ok (dk_nodes d0) m) as Hm by (eapply Forall_lookup_1; [apply Hplan|exact Hi]).
  destruct s as [r intent]. unfold apply_mutation. apply sure_pre. intros d (Hsg & Hr & Hint). cbn [fst snd] in *. subst intent.
  eapply sure_bind.
  { eapply sure_consequence; [apply (stage_reads phase (Nat.max j i) (Nat.max k i) i m Hst Hi)|by intros d' <-|done|done]. }
  intros current. cbv beta. apply sure_pre. clear d Hsg. intros d [Hsg Hcur]. cbn [stored_intent set_phase_applied ai_Applied].
  destruct (Z.of_nat i <? Z.of_nat (Nat.max j i)) eqn:Elt; bool_props.
  { assert (i < j)%nat as Hij by lia. apply sure_ret. intros d' <-. replace (Nat.max j i) with (Nat.max j (S i)) in * by lia.
    replace (Nat.max k i) with (Nat.max k (S i)) in * by lia. done. }
  assert (j <= i)%nat as Hij by lia. replace (Nat.max j i) with i in * by lia.
  eapply (sure_bind _ _ _ (fun _ d => at_stage phase i (S i) d)).
  - destruct (decide (current = mt_After m)) as [Heq|Hne].
    + apply sure_ret. intros d' <-. destruct (Nat.ltb_spec i (Nat.max k i)) as [Hlt|Hge].
      * by replace (Nat.max k i) with (S i) in * by lia.
      * destruct Hsg as [Hs He Hin Hn Ho Hp]. replace (Nat.max k i) with i in * by lia. split; [done..| |lia|done].
        rewrite (apply_plan_take_S _ _ _ _ Hi), <-Hn. symmetry. apply insert_id.
        rewrite Hn, (apply_plan_lookup _ _ _ _ _ Hplan Hi), (proj2 (Nat.ltb_ge i i)) by lia. congruence.
    + destruct (Nat.ltb_spec i (Nat.max k i)) as [Hlt|Hge]; [done|]. subst current.
      rewrite bool_decide_true by done. cbn [negb]. rewrite (mo_same _ _ Hm). unfold WriteNode, validateID.
      rewrite (mo_safe _ _ Hm). cbn [negb]. eapply sure_bind; [by apply sure_lift|]. intros [].
      apply sure_write; intros d' [_ <-]; [apply (stage_write phase i (Nat.max k i)); [done|done|lia]|]. left. by eapply stage_pending.
  - intros []. cbv zeta. rewrite (proj2 (String.eqb_neq _ _) (st_id Hst)).
    rewrite (proj2 (Z.ltb_lt (Z.of_nat i) (Z.of_nat i + 1))) by lia. cbn [negb andb].
    assert (set_phase_applied (stored_intent phase i) phase (Z.of_nat i + 1) = stored_intent phase (S i)) as Hmark.
    { unfold stored_intent, set_phase_applied. cbn. f_equal. lia. }
    change (set_phase_applied _ _ _) with (set_phase_applied (stored_intent phase i) phase (Z.of_nat i + 1)). rewrite Hmark.
    eapply (sure_bind _ _ _ (fun _ d => at_stage phase (S i) (S i) d)).
    + unfold WriteActionIntent. rewrite (proj2 (String.eqb_neq _ _) (st_id Hst)).
      eapply sure_bind; [apply sure_get|]. intros d1. cbv beta.
      apply sure_write; intros d' [Hd' ->]; [by apply stage_mark|]. left. by eapply stage_pending.
    + intros []. apply sure_ret. intros d' Hd'. unfold loop_stage. replace (Nat.max j (S i)) with (S i) by lia.
      replace (Nat.max k (S i)) with (S i) by lia. done.
Qed.

Lemma applyActionIntent_sure r phase j k :
  startable -> same_base r ->
  sure (at_stage phase j k) (applyActionIntent r action (stored_intent phase j))
    (fun r' d => over d /\ ws_Phase r' = PhaseRunning) cut_off.
Proof.
  intros Hst Hr. unfold applyActionIntent. cbn [stored_intent set_phase_applied new_intent ai_Mutations].
  pose proof (po_nonempty _ _ (st_plan Hst)) as Hne. destruct ms as [|first rest] eqn:Ems; [done|]. rewrite <-Ems in *.
  apply sure_pre. intros d Hsg. pose proof (sg_order _ _ _ _ Hsg) as [Hjk Hkl].
  eapply (sure_bind _ _ _ (loop_stage phase j k (length ms))).
  - eapply sure_consequence; [apply (sure_each_imap (loop_stage phase j k) cut_off (apply_mutation action) ms (r, stored_intent phase j))| | |].
    + intros i m s Hi. by apply apply_mutation_sure.
    + intros d' <-. unfold loop_stage. by rewrite !Nat.max_0_r.
    + done.
    + done.
  - intros s. apply sure_pre. clear d Hsg. intros d (Hsg & Hs & _).
    eapply sure_consequence; [by apply (finalizeAction_sure s.1)| |done|done]. intros d' <-. exists phase, (Nat.max j (length ms)).
    by replace (Nat.max k (length ms)) with (length ms) in Hsg by lia.
Qed.

Lemma stored_fields phase j :
  ai_Version (stored_intent phase j) = actionIntentVersion /\ ai_Phase (stored_intent phase j) = phase /\
  ai_RequestHash (stored_intent phase j) = ra_ActionRequestHash action /\ ai_Type (stored_intent phase j) = ra_Type action /\
  ai_NodeID (stored_intent phase j) = ra_NodeID action /\ ai_Action (stored_intent phase j) = action /\
  ai_Mutations (stored_intent phase j) = ms.
Proof. done. Qed.

Lemma resumeActionIntent_sure r phase j k :
  startable -> same_base r ->
  sure (at_stage phase j k) (resumeActionIntent r action (stored_intent phase j))
    (fun r' d => over d /\ ws_Phase r' = PhaseRunning) cut_off.
Proof.
  intros Hst Hr. unfold resumeActionIntent. destruct (stored_fields phase j) as (-> & -> & _ & _ & _ & _ & ->).
  rewrite Z.eqb_refl. cbn [negb orb]. apply sure_pre. intros d Hsg.
  assert ((len_slice ms =? 0) = false) as ->.
  { pose proof (po_nonempty _ _ (st_plan Hst)). apply Z.eqb_neq. unfold len_slice. destruct ms; cbn; [done|lia]. }
  destruct (sg_phase _ _ _ _ Hsg) as [-> | ->]; cbn.
  - eapply (sure_bind _ _ _ (fun i d => at_stage actionIntentApplying j k d /\ i = stored_intent actionIntentApplying j)).
    + eapply (sure_bind _ _ _ (fun _ => at_stage actionIntentApplying j k)); [|intros []; apply sure_ret; intros d' Hd'; by split].
      unfold WriteActionIntent. rewrite (proj2 (String.eqb_neq _ _) (st_id Hst)).
      eapply sure_bind; [apply sure_get|]. intros d1. cbv beta. apply sure_write.
      * intros d' [<- ->]. destruct Hsg as [Hs He Hin Hn Ho Hp]. split; [done..| |done|done|by right]. cbn. by rewrite lookup_insert_eq.
      * intros d' [<- _]. left. by eapply stage_pending.
    + intros i. apply sure_pre. intros d' [Hd' ->]. eapply sure_consequence; [by apply applyActionIntent_sure|by intros ? <-|done|done].
  - eapply sure_bind; [by apply (sure_ret (fun i d' => i = stored_intent actionIntentApplying j /\ d' = d))|].
    intros i. apply sure_pre. intros d' [-> ->].
    eapply sure_consequence; [by apply applyActionIntent_sure|by intros ? <-|done|done].
Qed.

Lemma reload_stored phase j : startable -> reload_intent (stored_intent phase j) = stored_intent phase j.
Proof.
  intros Hst. unfold reload_intent, stored_intent. cbn. rewrite (st_stored Hst), (reload_plan _ _ (st_plan Hst)). done.
Qed.

Lemma same_base_upgrade : same_base (upgrade_run run).
Proof. done. Qed.

(** A repeated request on a pending action *)
Lemma resume_pending_sure expected :
  startable -> sure pending (Resume expected (Some action)) (fun _ => over) cut_off.
Proof.
  intros Hst. apply sure_pre. intros d (phase & j & k & Hsg).
  pose proof (stage_loadable _ _ _ _ Hst Hsg) as Hl. unfold Resume.
  eapply sure_bind; [apply sure_reset; intros ? <-; apply Hl|]. intros n. cbv beta.
  eapply sure_bind; [apply (sure_loadRun _ _ run); by intros ? [<- _]|]. intros [r nodes]. cbn [fst].
  rewrite (proj2 (String.eqb_neq _ _) (st_id Hst)). cbn [negb].
  apply sure_pre. intros d1 [[<- _] ->].
  eapply (sure_bind _ _ _ (fun found d => over d /\ exists r', found = Some (false, r'))).
  2:{ intros found. apply sure_pre. intros d2 [Hov [r' ->]]. apply sure_ret. by intros ? <-. }
  eapply (sure_bind _ _ _ (fun found d => over d /\ exists r', found = Some r')).
  - unfold resume_pending. cbn [upgrade_run ws_ActionReceipts]. rewrite (st_new Hst).
    eapply (sure_bind _ _ _ (fun found d' => d' = d /\ found = Some (stored_intent phase j))).
    + unfold ReadActionIntent. rewrite (proj2 (String.eqb_neq _ _) (st_id Hst)).
      eapply sure_bind; [apply sure_get|]. intros d2. cbv beta. apply sure_ret. intros d' [<- ->]. split; [done|].
      rewrite (sg_intent _ _ _ _ Hsg). cbn. by rewrite reload_stored.
    + intros found. apply sure_pre. intros d2 [-> ->]. destruct (stored_fields phase j) as (_ & _ & -> & -> & -> & -> & _).
      rewrite !String.eqb_refl, bool_decide_true by done. cbn [negb orb].
      eapply sure_bind; [eapply sure_consequence; [apply (resumeActionIntent_sure _ phase j k Hst same_base_upgrade)|by intros ? <-|done|done]|].
      intros r'. apply sure_ret. intros d' [Hov _]. split; [done|]. by eexists.
  - intros found. apply sure_pre. intros d2 [Hov [r' ->]]. apply sure_ret. intros ? <-. split; [done|]. cbn. rewrite (st_new Hst).
    rewrite bool_decide_false; [by eexists|]. by intros [? ?].
Qed.

(** A repeated request on a finished action returns the run. *)
Lemma resume_finished expected w :
  startable -> finished (w_disk w) ->
  match Resume expected (Some action) w with
  | Done _ w' => finished (w_disk w') /\ (w_faults w = [] -> over (w_disk w'))
  | Failed _ _ => False
  | Crashed d => finished d /\ w_faults w <> []
  end.
Proof.
  intros Hst Hf. pose proof Hf as (_ & run' & receipt & Hl & Hrc & Hh). unfold Resume.
  rewrite (bind_done _ _ _ _ _ (resetEventSequence_runs w (ld_events _ _ Hl))).
  destruct (loadRun_runs w run' Hl) as [nodes Hload]. rewrite (bind_done _ _ _ _ _ Hload).
  rewrite (proj2 (String.eqb_neq _ _) (st_id Hst)). cbn [negb].
  set (found := resume_pending _ _).
  assert (forall w', found w = Done (Some (upgrade_run run')) w' ->
    exists w2, (pending ← (f ← found; mret (pair (bool_decide (is_Some (ws_ActionReceipts (upgrade_run run') !! ra_ActionID action))) <$> f));
       match pending with
       | Some (received, r) => mret (r, negb received && (ws_Phase r ≠s PhaseCompleted))
       | None => resume_new (upgrade_run run') nodes expected (Some action)
       end) w = Done w2 w') as Hdone.
  { intros w' Hw'. eexists. erewrite bind_done; [|erewrite bind_done by exact Hw'; reflexivity]. reflexivity. }
  assert (found w = (_ ← ignore_error (RemoveActionIntent (ra_ActionID action)); mret (Some (upgrade_run run'))) w) as Hfound.
  { unfold found, resume_pending. cbn [upgrade_run ws_ActionReceipts]. rewrite Hrc, Hh, String.eqb_refl. done. }
  unfold RemoveActionIntent in Hfound. rewrite (proj2 (String.eqb_neq _ _) (st_id Hst)) in Hfound.
  unfold ignore_error, get_disk, write, mbind, eff_bind in Hfound. cbn in Hfound.
  destruct (w_faults w) as [|[] faults] eqn:Ef; cbn in Hfound.
  - destruct (Hdone _ Hfound) as [w2 ->]. split; [by apply finished_intents|]. intros _. split; [by apply finished_intents|].
    cbn. apply lookup_delete_eq.
  - destruct (Hdone _ Hfound) as [w2 ->]. split; [by apply finished_intents|done].
  - destruct (Hdone _ Hfound) as [w2 ->]. split; [done|done].
  - assert (forall k, (pending ← (f ← found; mret (pair (bool_decide (is_Some (ws_ActionReceipts (upgrade_run run') !! ra_ActionID action))) <$> f)); k pending) w
      = (Crashed (w_disk w) : outcome (WorkflowSnapshot * bool))) as ->.
    { intros k. unfold mbind, eff_bind. by rewrite Hfound. }
    done.
Qed.

(** ** The first request *)

Record first_request (expected : option Z) : Prop := {
  fr_intents : dk_intents d0 = ∅;
  fr_action : validateResumeAction action = Ok tt;
  fr_expected : match expected with Some v => ws_StateVersion run = v | None => True end;
  fr_plan : exists w, plan_action action (boot d0 []) = Done (Planned ms eventType summary) w }.

(** What follows the plan in applyAction *)
Lemma apply_planned_sure r :
  startable -> dk_intents d0 = ∅ -> same_base r ->
  sure (eq d0) (_ ← prepareActionIntent (stored_intent actionIntentPlanned 0);
                _ ← WriteActionIntent (ra_ActionID action) (stored_intent actionIntentApplying 0);
                applyActionIntent r action (stored_intent actionIntentApplying 0))
    (fun _ => over) (fun d => d = d0 \/ cut_off d).
Proof.
  intros Hst Hnone Hr.
  assert (forall phase, phase = actionIntentPlanned \/ phase = actionIntentApplying -> forall m,
    at_stage phase 0 0 (set_intents (<[ra_ActionID action := stored_intent phase 0]> m) d0)) as Hstage.
  { intros phase Hphase m. split; [apply (st_loadable Hst)|done| |done|lia|done]. cbn. apply lookup_insert_eq. }
  eapply (sure_bind _ _ _ (fun _ => at_stage actionIntentPlanned 0 0)).
  - unfold prepareActionIntent, ListActionIntentIDs.
    eapply (sure_bind _ _ _ (fun ids d => ids = [] /\ d = d0)).
    { eapply sure_bind; [apply sure_get|]. intros d1. cbv beta. apply sure_ret. intros d [<- ->]. by rewrite Hnone. }
    intros ids. apply sure_pre. intros d [-> ->]. cbn [list_find]. unfold WriteActionIntent.
    change (ai_ActionID (stored_intent actionIntentPlanned 0)) with (ra_ActionID action).
    rewrite (proj2 (String.eqb_neq _ _) (st_id Hst)). eapply sure_bind; [apply sure_get|]. intros d1. cbv beta.
    apply sure_write; intros d' [<- ->]; [apply Hstage; by left|by left].
  - intros []. eapply (sure_bind _ _ _ (fun _ => at_stage actionIntentApplying 0 0)).
    + unfold WriteActionIntent. rewrite (proj2 (String.eqb_neq _ _) (st_id Hst)).
      eapply sure_bind; [apply sure_get|]. intros d1. cbv beta. apply sure_write; intros d' [Hd' ->].
      * destruct Hd' as [Hs He Hin Hn Ho Hp]. split; [done..| |done|done|by right]. cbn. apply lookup_insert_eq.
      * right. left. by eapply stage_pending.
    + intros []. eapply sure_consequence; [by apply applyActionIntent_sure|done|by intros r' d [Hov _]|by right].
Qed.

Lemma resume_first expected w :
  startable -> first_request expected -> w = boot d0 (w_faults w) ->
  match Resume expected (Some action) w with
  | Done _ w' => over (w_disk w') /\ (w_faults w = [] -> w_faults w' = [])
  | Failed _ w' => (w_disk w' = d0 \/ cut_off (w_disk w')) /\ w_faults w <> []
  | Crashed d => (d = d0 \/ cut_off d) /\ w_faults w <> []
  end.
Proof.
  intros Hst [Hnone Hval Hexp [w0 Hplan]] Hboot. destruct (plan_action_boot _ _ (w_faults w) _ _ Hplan) as (w1 & Hp & Hd1 & Hf1).
  rewrite <-Hboot in Hp. assert (w_disk w = d0) as Hd by (by rewrite Hboot). pose proof (st_loadable Hst) as Hl. rewrite <-Hd in Hl.
  unfold Resume. rewrite (bind_done _ _ _ _ _ (resetEventSequence_runs w (ld_events _ _ Hl))).
  destruct (loadRun_runs w run Hl) as [nodes Hload]. rewrite (bind_done _ _ _ _ _ Hload).
  rewrite (proj2 (String.eqb_neq _ _) (st_id Hst)). cbn [negb].
  erewrite (bind_done _ _ _ None w).
  2:{ rewrite (bind_done _ _ _ None w); [reflexivity|]. unfold resume_pending. cbn [upgrade_run ws_ActionReceipts]. rewrite (st_new Hst).
      unfold ReadActionIntent. rewrite (proj2 (String.eqb_neq _ _) (st_id Hst)). unfold mbind, eff_bind, get_disk. cbn.
      by rewrite Hd, Hnone. }
  unfold resume_new.
  assert (match expected with Some v => negb (ws_StateVersion (upgrade_run run) =? v) | None => false end = false) as ->.
  { destruct expected; [|done]. cbn. rewrite Hexp. by rewrite Z.eqb_refl. }
  erewrite bind_done by (unfold lift; by rewrite Hval).
  assert (applyAction (upgrade_run run) action w =
    (_ ← prepareActionIntent (stored_intent actionIntentPlanned 0);
     _ ← WriteActionIntent (ra_ActionID action) (stored_intent actionIntentApplying 0);
     applyActionIntent (upgrade_run run) action (stored_intent actionIntentApplying 0)) w1) as Happly.
  { unfold applyAction. rewrite (bind_done _ _ _ _ _ Hp). cbv zeta. rewrite (proj2 (String.eqb_neq _ _) (st_id Hst)). done. }
  pose proof (apply_planned_sure (upgrade_run run) Hst Hnone same_base_upgrade w1 (eq_sym Hd1)) as Hs. rewrite <-Happly in Hs.
  unfold mbind, eff_bind. rewrite <-Hf1. destruct (applyAction _ _ w); cbn in *; exact Hs.
Qed.

(** ** Any number of interrupted requests *)

Lemma over_finished d : over d -> finished d.
Proof. by intros [Hf _]. Qed.

(** Where the requests have got to *)
Definition reached (d : disk) : Prop := d = d0 \/ cut_off d.

Lemma request_step expected d faults :
  startable -> first_request expected -> reached d ->
  reached (disk_after (perform (ResumeRun expected (Some action)) (boot d faults))) /\
  (faults = [] -> exists w', perform (ResumeRun expected (Some action)) (boot d faults) = Done tt w' /\ over (w_disk w')).
Proof.
  intros Hst Hfirst Hd. cbn [perform]. unfold forget, mbind, eff_bind. destruct Hd as [->|[Hp|Hf]].
  - pose proof (resume_first expected (boot d0 faults) Hst Hfirst eq_refl) as Hr. cbn in Hr.
    destruct (Resume _ _ _) as [a w'|e w'|d']; cbn in *; (split; [|try (intros ->; by destruct Hr as [_ []])]).
    + right. right. apply over_finished, Hr.
    + intros _. eexists. split; [done|apply Hr].
    + apply Hr.
    + apply Hr.
  - pose proof (resume_pending_sure expected Hst (boot d faults) Hp) as Hr. cbn in Hr.
    destruct (Resume _ _ _) as [a w'|e w'|d']; cbn in *; (split; [|try (intros ->; by destruct Hr as [_ []])]).
    + right. right. apply over_finished, Hr.
    + intros _. eexists. split; [done|apply Hr].
    + right. apply Hr.
    + right. apply Hr.
  - pose proof (resume_finished expected (boot d faults) Hst Hf) as Hr. cbn in Hr.
    destruct (Resume _ _ _) as [a w'|e w'|d']; cbn in *; [|done|]; (split; [|try (intros ->; by destruct Hr as [_ []])]).
    + right. right. exact (proj1 Hr).
    + intros ->. eexists. split; [done|]. by apply Hr.
    + right. right. exact (proj1 Hr).
Qed.
End Recovery.

(** C2: A request with an action id is applied exactly once.  However many
    times the request is sent and interrupted, at any of its writes, by a
    failed write or the death of the process, the next request that meets no
    fault ends normally; then every node that the plan mutates is as the plan
    says and no other node has changed, the receipt of the action is in the
    run and the intent file is gone.  (The plan carries no raw JSON text; see
    the findings for answers.) *)
Theorem action_applied_once `{GoRange} `{CatalogDigest} `{Service} run d0 action ms eventType summary expected :
  startable run d0 action ms -> first_request run d0 action ms eventType summary expected ->
  forall interruptions : list (list fault),
  let request := ResumeRun expected (Some action) in
  let d := (run_operations d0 (map (pair request) interruptions)).1 in
  exists w', perform request (boot d []) = Done tt w' /\
    dk_nodes (w_disk w') = apply_plan ms (dk_nodes d0) /\
    dk_intents (w_disk w') !! ra_ActionID action = None /\
    exists run' receipt, dk_snapshot (w_disk w') = Some run' /\
      ws_ActionReceipts run' !! ra_ActionID action = Some receipt /\ rc_RequestHash receipt = ra_ActionRequestHash action.
Proof.
  intros Hst Hfirst interruptions request d.
  assert (reached run d0 action ms eventType summary d) as Hd.
  { subst d. unfold run_operations. assert (reached run d0 action ms eventType summary (d0, 0).1) as Hstart by by left.
    revert Hstart. generalize (d0, 0). induction interruptions as [|f fs IH]; intros s Hs; [done|]. cbn [map foldl].
    apply IH. unfold run_operation. cbn [fst snd]. by apply request_step. }
  destruct (request_step _ _ _ _ _ _ expected d [] Hst Hfirst Hd) as [_ Hdone]. destruct (Hdone eq_refl) as (w' & Hw' & [Hf Hi]).
  exists w'. split; [done|]. destruct Hf as (Hn & run' & receipt & [Hs _ _ _] & Hrc & Hh). split; [done|]. split; [done|].
  by exists run', receipt.
Qed.

Lemma demo_plan_ok : plan_ok (dk_nodes demo_failed) demo_mutations.
Proof.
  split; [vm_compute; discriminate|apply (bool_decide_unpack _); vm_compute; exact I|].
  repeat (constructor; [split; vm_compute; (reflexivity || split; reflexivity)|]). constructor.
Qed.

(** The retry is sent four times: the first process dies after the second
    write, the second write of the second fails, the third dies at once. *)
Lemma action_applied_once_witness :
  let interruptions := [[Passes; Passes; Crashes]; [Passes; WriteFails]; [Crashes]] in
  let request := ResumeRun (Some 7) (Some demo_retry) in
  let d := (@run_operations canonical_range zero_digest _ demo_failed (map (pair request) interruptions)).1 in
  exists w', @perform canonical_range zero_digest _ request (boot d []) = Done tt w' /\
    dk_nodes (w_disk w') = apply_plan demo_mutations (dk_nodes demo_failed) /\
    dk_intents (w_disk w') !! "act-1" = None /\
    exists run' receipt, dk_snapshot (w_disk w') = Some run' /\
      ws_ActionReceipts run' !! "act-1" = Some receipt /\ rc_RequestHash receipt = "h".
Proof.
  apply (@action_applied_once canonical_range zero_digest _ demo_run demo_failed demo_retry demo_mutations
    "node.retry_requested" "explicit retry requested" (Some 7)).
  - split.
    + split; [reflexivity|vm_compute; reflexivity| |].
      * repeat (constructor; [split; [reflexivity|eexists; split; [reflexivity|vm_compute; reflexivity]]|]). constructor.
      * intros i e Hi. destruct i as [|[|i]]; cbn in Hi; [injection Hi as <-; reflexivity..|discriminate].
    + cbn. lia.
    + cbn. lia.
    + exact demo_plan_ok.
    + discriminate.
    + discriminate.
    + reflexivity.
    + reflexivity.
  - split; [reflexivity..|]. eexists. vm_compute. reflexivity.
Defined.
