(* ===== verification/RunTheory.v ===== *)
(** * What the methods of the run service do

    The guard of the controller, the reset of what a retried node held up, the
    aggregation of a run, and the cancellation. *)

From S2P Require Import Files.
From S2P Require Import Prelude GoText Routing Resolver Catalog Workflow Topology Context Backend RunState.
From S2P Require Import Scheduler RunStore RunOps RunActions Cancellation RunService RunLogic RunHistory.
From S2P Require Import ResolverTheory SchedulerTheory RunExamples.
#[local] Open Scope string_scope.
#[local] Open Scope list_scope.
#[local] Open Scope Z_scope.

(** ** The guard of the controller *)

(** A run that is being cancelled, paused or over *)
Definition halted (run : WorkflowSnapshot) : bool :=
  ws_CancelRequested run || (ws_Phase run =s PhasePaused) || (ws_Phase run =s PhaseCancelling) || (ws_Phase run =s PhaseCompleted).

(** The operations of a controller; [BeginLaunch] has a guard of its own. *)
Definition by_controller (o : operation) : bool :=
  match o with Schedule _ _ _ | Reconcile _ _ | Finish _ _ _ _ | Pause _ _ => true | _ => false end.

Definition halted_disk (d : disk) : Prop := exists run, dk_snapshot d = Some run /\ halted run = true.
Definition frozen (d d' : disk) : Prop := halted_disk d -> d' = d.
#[export] Instance frozen_preorder : PreOrder frozen.
Proof. split; [by intros d _|]. intros d1 d2 d3 H12 H23 Hh. rewrite (H12 Hh) in *. by apply H23. Qed.

Section Guard.
Context `{GoRange} `{CatalogDigest} `{Service}.

Lemma frozen_controllerMutation {A} active (action : WorkflowSnapshot -> list NodeSnapshot -> eff A) :
  moves frozen (controllerMutation active action).
Proof.
  intros w (run & Hs & Hh). unfold controllerMutation. destruct (negb active); [done|].
  pose proof (moves_loadRun eq w) as Hm. pose proof (loadRun_done w) as Hl. unfold mbind, eff_bind.
  destruct (loadRun w) as [[run' nodes] w'|e w'|d]; cbn in *; [|done..].
  destruct (Hl _ _ _ eq_refl) as (s & Hs' & -> & _). rewrite Hs in Hs'. injection Hs' as <-.
  cbn [upgrade_run ws_CancelRequested ws_Phase]. fold (halted run). by rewrite Hh.
Qed.

Hint Resolve frozen_controllerMutation : moves.
Lemma frozen_waitingIfChanged active id number reason message : moves frozen (waitingIfChanged active id number reason message).
Proof. unfold waitingIfChanged. moves_go. Qed.
Hint Resolve frozen_waitingIfChanged : moves.
Lemma frozen_finishResult active id number result : moves frozen (finishResult active id number result).
Proof. unfold finishResult, waiting, waitingWithResult, finishIndeterminate. cbv zeta. moves_go. Qed.
Hint Resolve frozen_finishResult : moves.
Lemma frozen_reconcile active results : moves frozen (reconcileAttempts active results).
Proof. unfold reconcileAttempts, reconcile_result, finishIndeterminate. cbv zeta. moves_go. Qed.
End Guard.
#[export] Hint Resolve frozen_controllerMutation frozen_finishResult frozen_reconcile : moves.

(** C13: A controller cannot touch a run that is being cancelled, paused or
    over: whatever results, observations, scheduling or errors it brings, the
    disk stays as it is. *)
Theorem halted_run_untouched `{GoRange} `{CatalogDigest} `{Service} d run o faults :
  dk_snapshot d = Some run -> halted run = true -> by_controller o = true ->
  disk_after (perform o (boot d faults)) = d.
Proof.
  intros Hs Hh Ho. assert (moves frozen (perform o)) as Hm.
  { destruct o; try discriminate; cbn [perform]; unfold forget, schedule_quiet, pauseControllerOnError; moves_go. }
  apply (Hm (boot d faults)). by exists run.
Qed.

Lemma halted_run_untouched_witness :
  disk_after (@perform canonical_range zero_digest _
    (Finish true "z" 1 (Some (demo_result "succeeded"))) (boot demo_failed [])) = demo_failed.
Proof.
  apply (@halted_run_untouched canonical_range zero_digest _ demo_failed demo_run); reflexivity.
Defined.

(** ** What a retry resets *)

Lemma elem_of_mark_prefix doc target order :
  dependencies_first doc order ->
  forall x, x ∈ foldl (fun descendants nodeID =>
        if existsb (fun dependency => seen_in dependency descendants) (n_DependsOn (node_at doc nodeID))
        then {[nodeID]} ∪ descendants else descendants) ({[target]} : gset string) order <->
    x = target \/ (x ∈ order /\ tc (depends_on doc) x target).
Proof.
  induction order as [|id order IH] using rev_ind; intros Hdf x.
  { cbn. rewrite elem_of_singleton. split; [by left|]. intros [->|[Hx _]]; [done|inversion Hx]. }
  assert (dependencies_first doc order) as Hdf'.
  { intros i y Hi. pose proof (lookup_lt_Some _ _ _ Hi). rewrite <-(take_app_le order [id] i) by lia.
    apply Hdf. by apply lookup_app_l_Some. }
  specialize (IH Hdf'). rewrite foldl_app. cbn [foldl]. set (marked := foldl _ _ order) in *.
  assert (existsb (fun dependency => seen_in dependency marked) (n_DependsOn (node_at doc id)) = true <->
          tc (depends_on doc) id target) as Hex.
  { rewrite existsb_exists. split.
    - intros (y & Hy & Hm%bool_decide_eq_true). apply list_elem_of_In in Hy. apply IH in Hm as [->|[_ Hm]]; [by apply tc_once|by eapply tc_l].
    - intros Ht. assert (Forall (fun y => y ∈ order) (depends doc id)) as Hdeps.
      { pose proof (Hdf (length order) id) as Hall. rewrite take_app_length in Hall. apply Hall. by rewrite lookup_app_r, Nat.sub_diag. }
      rewrite Forall_forall in Hdeps. inversion Ht as [? ? Hd|? y ? Hd Hy]; subst.
      + exists target. split; [by apply list_elem_of_In|]. apply bool_decide_eq_true, IH. by left.
      + exists y. split; [by apply list_elem_of_In|]. apply bool_decide_eq_true, IH. right. split; [by apply Hdeps|done]. }
  destruct (existsb _ _) eqn:E.
  - rewrite elem_of_union, elem_of_singleton, IH, elem_of_app, list_elem_of_singleton. apply proj1 in Hex. naive_solver.
  - rewrite IH, elem_of_app, list_elem_of_singleton. assert (~ tc (depends_on doc) id target) by (rewrite <-Hex; congruence).
    naive_solver.
Qed.

Lemma StronglySorted_filter {A} (R : A -> A -> Prop) (P : A -> Prop) `{forall x, Decision (P x)} l :
  StronglySorted R l -> StronglySorted R (base.filter P l).
Proof.
  induction 1 as [|x l Hs IH Hall]; [constructor|]. rewrite filter_cons. destruct (decide (P x)); [|done].
  constructor; [done|]. rewrite Forall_forall in *. intros y [_ Hy]%list_elem_of_filter. by apply Hall.
Qed.

Section Reset.
Context `{GoRange} `{CatalogDigest} `{Service}.

(** Every node of the order has a file of its own. *)
Definition nodes_stored (d : disk) (ids : list string) : Prop :=
  Forall (fun id => safe_id id = true /\ exists n, dk_nodes d !! id = Some n /\ ns_ID n = id) ids.

Definition skipped_on (d : disk) (id : string) : bool :=
  match dk_nodes d !! id with Some n => ns_Phase n =s NodePhaseSkipped | None => false end.

(** The mutation that makes a skipped node pending again *)
Definition resets (d : disk) (m : actionNodeMutation) : Prop :=
  exists n t, dk_nodes d !! ns_ID (mt_After m) = Some n /\ mt_Before m = reload_node 1 n /\
    mt_After m = node_with (reload_node 1 n) NodePhasePending "" "" (ns_Diagnostic n) None
                   (ns_PendingInputAnswer (reload_node 1 n)) (ns_PendingRoutingTarget n) t.

Lemma reset_node_runs ms id w :
  safe_id id = true /\ (exists n, dk_nodes (w_disk w) !! id = Some n /\ ns_ID n = id) ->
  exists ms' w', reset_node ms id w = Done (ms ++ ms') w' /\ w_disk w' = w_disk w /\
    map (fun m => ns_ID (mt_After m)) ms' = (if skipped_on (w_disk w) id then [id] else []) /\ Forall (resets (w_disk w)) ms'.
Proof.
  intros (Hsafe & n & Hn & Hid). unfold reset_node, skipped_on. rewrite Hn.
  assert (ReadNode id w = Done (reload_node 1 n) w) as Hread.
  { unfold ReadNode, validateID, read, lift, mbind, eff_bind, get_disk. rewrite Hsafe. cbn. by rewrite Hn. }
  rewrite (bind_done _ _ _ _ _ Hread). cbn [reload_node ns_Phase]. destruct (ns_Phase n =s NodePhaseSkipped).
  - eexists [_], _. split; [reflexivity|]. split; [done|]. cbn. rewrite Hid. split; [done|]. constructor; [|constructor].
    exists n, (sv_now (w_ticks w)). cbn. by rewrite Hid.
  - exists [], w. rewrite app_nil_r. by split_and!.
Qed.

Lemma reset_nodes_runs ids ms w :
  nodes_stored (w_disk w) ids ->
  exists ms' w', each reset_node ms ids w = Done (ms ++ ms') w' /\ w_disk w' = w_disk w /\
    map (fun m => ns_ID (mt_After m)) ms' = base.filter (fun id => skipped_on (w_disk w) id = true) ids /\
    Forall (resets (w_disk w)) ms'.
Proof.
  revert ms w. induction ids as [|id ids IH]; intros ms w Hall; cbn [each].
  { exists [], w. by rewrite app_nil_r. }
  apply Forall_cons in Hall as [Hid Hall]. destruct (reset_node_runs ms id w Hid) as (ms1 & w1 & Hr & Hd & Hm & Hf).
  rewrite (bind_done _ _ _ _ _ Hr). rewrite <-Hd in Hall. destruct (IH (ms ++ ms1) w1 Hall) as (ms2 & w2 & Hr2 & Hd2 & Hm2 & Hf2).
  rewrite Hd in *. exists (ms1 ++ ms2), w2. rewrite app_assoc. split; [done|]. split; [done|]. split; [|by apply Forall_app].
  rewrite map_app, Hm, Hm2, filter_cons. destruct (skipped_on (w_disk w) id); cbn.
  - by rewrite decide_True.
  - by rewrite decide_False.
Qed.

(** C14: A retry or an answer plans to reset exactly the skipped nodes that depend
    on the target, directly or through others, each once and in the order of
    their ids: the mutation of such a node starts from what is on disk and
    makes it pending, without conclusion, reason or result.  Planning writes
    nothing. *)
Theorem downstream_reset w target normalized :
  dk_workflow (w_disk w) = Some normalized ->
  TopologicalOrder (nz_Document normalized) = Ok (nz_TopologicalOrder normalized) ->
  nodes_stored (w_disk w) (nz_TopologicalOrder normalized) ->
  exists ms w', planDownstreamReset target w = Done ms w' /\ w_disk w' = w_disk w /\
    Forall (resets (w_disk w)) ms /\
    StronglySorted String.le (map (fun m => ns_ID (mt_After m)) ms) /\ NoDup (map (fun m => ns_ID (mt_After m)) ms) /\
    forall id, id ∈ map (fun m => ns_ID (mt_After m)) ms <->
      tc (depends_on (nz_Document normalized)) id target /\ skipped_on (w_disk w) id = true.
Proof.
  intros Hw Horder Hstored. set (doc := nz_Document normalized) in *. set (order := nz_TopologicalOrder normalized) in *.
  pose proof (TopologicalOrder_cases doc) as Hcases. rewrite Horder in Hcases. destruct Hcases as (_ & Hperm & Hdf).
  assert (NoDup order) as Hnd by (rewrite Hperm; apply NoDup_fst_map_to_list).
  assert (forall x y, tc (depends_on doc) x y -> x ∈ order) as Hin.
  { intros x y Ht. assert (exists z, depends_on doc x z) as [z Hz] by (inversion Ht; eauto).
    rewrite Hperm. unfold depends_on, depends, node_at in Hz. destruct (d_Nodes doc !! x) eqn:E; [|inversion Hz].
    apply list_elem_of_fmap. eexists (x, _). split; [done|]. by apply elem_of_map_to_list. }
  set (ids := sort_strings (base.elements (mark_descendants normalized target ∖ {[target]}))).
  assert (forall x, x ∈ ids <-> tc (depends_on doc) x target) as Hids.
  { intros x. unfold ids. rewrite sort_strings_perm, elem_of_elements, elem_of_difference, elem_of_singleton.
    assert (x ∈ mark_descendants normalized target <-> x = target \/ (x ∈ order /\ tc (depends_on doc) x target)) as ->
      by exact (elem_of_mark_prefix doc target order Hdf x).
    split; [tauto|]. intros Ht. split; [right; eauto|].
    intros ->. by eapply dependencies_first_irrefl; [| |eapply Hin|]. }
  assert (nodes_stored (w_disk w) ids) as Hids_stored.
  { apply Forall_forall. intros x Hx%Hids%Hin. unfold nodes_stored in Hstored. rewrite Forall_forall in Hstored. by apply Hstored. }
  destruct (reset_nodes_runs ids [] w Hids_stored) as (ms & w' & Hr & Hd & Hm & Hf). exists ms, w'.
  assert (planDownstreamReset target w = each reset_node [] ids w) as ->.
  { unfold planDownstreamReset. erewrite bind_done; [reflexivity|]. unfold ReadWorkflow, read, mbind, eff_bind, get_disk. cbn. by rewrite Hw. }
  split; [exact Hr|]. split; [done|]. split; [done|]. rewrite Hm. split; [|split].
  - apply StronglySorted_filter, sort_strings_sorted.
  - apply NoDup_filter. unfold ids. rewrite sort_strings_perm. apply NoDup_elements.
  - intros id. rewrite list_elem_of_filter, Hids. tauto.
Qed.
End Reset.

Lemma downstream_reset_witness :
  exists ms w', @planDownstreamReset demo_service "z" (boot demo_failed []) = Done ms w' /\ w_disk w' = demo_failed /\
    Forall (resets demo_failed) ms /\
    StronglySorted String.le (map (fun m => ns_ID (mt_After m)) ms) /\ NoDup (map (fun m => ns_ID (mt_After m)) ms) /\
    forall id, id ∈ map (fun m => ns_ID (mt_After m)) ms <->
      tc (depends_on diamond) id "z" /\ skipped_on demo_failed id = true.
Proof.
  apply (@downstream_reset canonical_range demo_service (boot demo_failed []) "z" sample_normalized).
  - reflexivity.
  - vm_compute. reflexivity.
  - repeat (constructor; [split; [reflexivity|eexists; split; reflexivity]|]). constructor.
Defined.
