(* ===== verification/CancelTheory.v ===== *)
(** * What a cancellation leaves behind

    applyCancellationOutcomes after the backends have answered. *)

From S2P Require Import Prelude GoText Routing Resolver Catalog Workflow Topology Context Backend RunState Scheduler.
From S2P Require Import RunStore RunOps RunActions Cancellation RunService RunLogic ResolverTheory SchedulerTheory RunExamples.
#[local] Open Scope string_scope.
#[local] Open Scope list_scope.
#[local] Open Scope Z_scope.

(** ** The nodes in memory and on disk *)

(** The file of [n] agrees with [n] on what decides its fate. *)
Definition mirror (d : disk) (n : NodeSnapshot) : Prop :=
  exists m, dk_nodes d !! ns_ID n = Some m /\ ns_ID m = ns_ID n /\ ns_Phase m = ns_Phase n /\ ns_Type m = ns_Type n /\
    ns_Conclusion m = ns_Conclusion n /\ ns_PendingRoutingTarget m = ns_PendingRoutingTarget n.

(** Every file is stored under the id of its node. *)
Definition keyed (d : disk) : Prop := forall id n, dk_nodes d !! id = Some n -> ns_ID n = id.

(** What the cancellation skips *)
Definition startable (n : NodeSnapshot) : bool :=
  (ns_Phase n =s NodePhasePending) || (ns_Phase n =s NodePhaseReady) ||
  ((ns_Phase n =s NodePhaseWaiting) && (ns_Type n =s "approval")).

Lemma mirror_same_nodes d d' n : same_nodes d d' -> mirror d n -> mirror d' n.
Proof. intros Hs (m & Hm & Hrest). exists m. by rewrite Hs. Qed.

Lemma mirrors_same_nodes d d' ns : same_nodes d d' -> Forall (mirror d) ns -> Forall (mirror d') ns.
Proof. intros Hs Hall. eapply Forall_impl; [exact Hall|]. intros n. by apply mirror_same_nodes. Qed.

Lemma mirror_written d n : mirror (set_node (ns_ID n) n d) n.
Proof. exists n. split; [apply lookup_insert_eq|done]. Qed.

Lemma mirror_other d n id n' : id <> ns_ID n -> mirror d n -> mirror (set_node id n' d) n.
Proof. intros Hne (m & Hm & Hrest). exists m. cbn. by rewrite lookup_insert_ne. Qed.

Lemma mirrors_update d ns i n n' :
  NoDup (map ns_ID ns) -> ns !! i = Some n -> ns_ID n' = ns_ID n -> Forall (mirror d) ns ->
  Forall (mirror (set_node (ns_ID n) n' d)) (<[i := n']> ns).
Proof.
  intros Hnd Hi Hid Hall. apply Forall_lookup. intros j m Hj. destruct (decide (i = j)) as [->|Hne].
  - rewrite list_lookup_insert_eq in Hj by by eapply lookup_lt_Some. injection Hj as <-. rewrite <-Hid. apply mirror_written.
  - rewrite list_lookup_insert_ne in Hj by done. apply mirror_other; [|by eapply Forall_lookup_1].
    intros Heq. apply Hne. eapply (NoDup_lookup (map ns_ID ns)); [done|..]; rewrite list_lookup_fmap; [by rewrite Hi|by rewrite Hj, Heq].
Qed.

Lemma map_ID_update ns i n n' : ns !! i = Some n -> ns_ID n' = ns_ID n -> map ns_ID (<[i := n']> ns) = map ns_ID ns.
Proof.
  intros Hi Hid. change (ns_ID <$> <[i := n']> ns = ns_ID <$> ns). rewrite list_fmap_insert, Hid. apply list_insert_id. by rewrite list_lookup_fmap, Hi.
Qed.

Lemma findNode_spec ns id i n : findNode ns id = Some (i, n) -> ns !! i = Some n /\ ns_ID n = id.
Proof.
  revert i. induction ns as [|m ns IH]; intros i; cbn; [done|]. destruct (String.eqb_spec (ns_ID m) id) as [<-|]; [by intros [= <- <-]|].
  destruct (findNode ns id) as [[j k]|]; [|done]. intros [= <- <-]. by apply IH.
Qed.

Section Cancel.
Context `{GoRange} `{CatalogDigest} `{Service}.

Lemma triple_find_node P ns id :
  triple P (find_node ns id) (fun found d => P d /\ ns !! found.1 = Some found.2 /\ ns_ID found.2 = id) (fun _ => True).
Proof.
  intros w Hw. unfold find_node. destruct (findNode ns id) as [[i n]|] eqn:E; cbn; [|done].
  split; [done|]. by apply findNode_spec.
Qed.

Lemma loadRun_mirrors d :
  keyed d ->
  triple (eq d) loadRun (fun loaded d' => d' = d /\ exists s, dk_snapshot d = Some s /\ loaded.1 = upgrade_run s /\
    map ns_ID loaded.2 = ws_TopologicalOrder s /\ Forall (mirror d) loaded.2) (fun _ => True).
Proof.
  intros Hkey. unfold loadRun. eapply triple_bind; [by apply triple_read|]. intros s.
  eapply triple_bind; [by apply triple_lift|]. intros [].
  eapply triple_bind.
  - eapply triple_consequence; [apply (triple_each_done (fun ids ns d' => d' = d /\ dk_snapshot d = Some s /\ map ns_ID ns = ids /\ Forall (mirror d) ns) (fun _ => True))| | |].
    + intros ids id ns. unfold load_node, ReadNode. apply triple_assoc.
      eapply triple_bind; [by apply triple_lift|]. intros [].
      apply triple_assoc. eapply triple_bind; [by apply triple_read|]. intros n. cbv beta.
      apply triple_ret_bind. eapply triple_bind; [by apply triple_lift|]. intros [].
      intros w [[[(Hd & Hs & Hids & Hall) _] Hn] _]. rewrite Hd in Hn. cbn. split; [done|]. split; [done|].
      pose proof (Hkey _ _ Hn) as Hid. split; [by rewrite map_app, Hids; cbn; rewrite Hid|].
      apply Forall_app. split; [done|]. constructor; [|constructor]. exists n. cbn. by rewrite Hid.
    + intros d' [[<- Hs] _]. split; [done|]. split; [exact Hs|]. split; [done|]. constructor.
    + done.
    + done.
  - intros ns w (Hd & Hs & Hids & Hall). cbn. split; [done|]. by exists s.
Qed.

End Cancel.

(** ** The loops *)

(** The state of the loop over the outcomes *)
Record outcomes_done (order : list string) (routes : list (option Target)) (pre : list cancellationOutcome) (s : cancel_state)
    (d : disk) : Prop := {
  od_order : ws_TopologicalOrder (cs_run s) = order;
  od_ids : map ns_ID (cs_nodes s) = order;
  od_routes : map ns_PendingRoutingTarget (cs_nodes s) = routes;
  od_mirror : Forall (mirror d) (cs_nodes s);
  od_confirmed : cs_unresolved s = [] -> Forall (fun o => cx_confirmed o = true /\
    exists n, n ∈ cs_nodes s /\ ns_ID n = ct_nodeID (cx_target o) /\ ns_Phase n = NodePhaseCompleted /\
      ns_Conclusion n = ConclusionCancelled) pre }.

Lemma elem_of_update (ns : list NodeSnapshot) i n n' m :
  ns !! i = Some n -> m ∈ <[i := n']> ns -> m = n' \/ m ∈ ns.
Proof.
  intros Hi [j Hj]%list_elem_of_lookup. destruct (decide (i = j)) as [->|Hne].
  - rewrite list_lookup_insert_eq in Hj by by eapply lookup_lt_Some. left. congruence.
  - rewrite list_lookup_insert_ne in Hj by done. right. by eapply list_elem_of_lookup_2.
Qed.

Lemma elem_of_update_other (ns : list NodeSnapshot) i n n' m :
  ns !! i = Some n -> m ∈ ns -> m = n \/ m ∈ <[i := n']> ns.
Proof.
  intros Hi [j Hj]%list_elem_of_lookup. destruct (decide (i = j)) as [->|Hne]; [left; congruence|]. right.
  apply (list_elem_of_lookup_2 _ j). by rewrite list_lookup_insert_ne.
Qed.

(** Assigning to the node of an outcome *)
Lemma outcomes_done_step order routes pre s d i n n' o run :
  NoDup order -> outcomes_done order routes pre s d -> cs_nodes s !! i = Some n -> ns_ID n = ct_nodeID (cx_target o) ->
  ns_ID n' = ns_ID n -> ns_PendingRoutingTarget n' = ns_PendingRoutingTarget n -> ws_TopologicalOrder run = order ->
  (cx_confirmed o = true -> ns_Phase n' = NodePhaseCompleted /\ ns_Conclusion n' = ConclusionCancelled) ->
  forall text d', same_nodes (set_node (ns_ID n) n' d) d' ->
  outcomes_done order routes (pre ++ [o])
    {| cs_run := run; cs_nodes := <[i := n']> (cs_nodes s);
       cs_unresolved := cs_unresolved s ++ (if cx_confirmed o then [] else [text]) |} d'.
Proof.
  intros Hnd [Ho Hids Hroutes Hall Hconf] Hi Hid Hid' Hroute Hrun Hcancel text d' Hd'. split; cbn.
  - done.
  - by rewrite (map_ID_update _ _ n).
  - rewrite <-Hroutes. change (ns_PendingRoutingTarget <$> <[i := n']> (cs_nodes s) = ns_PendingRoutingTarget <$> cs_nodes s).
    rewrite list_fmap_insert, Hroute. apply list_insert_id. by rewrite list_lookup_fmap, Hi.
  - eapply mirrors_same_nodes; [exact Hd'|]. eapply mirrors_update; [by rewrite Hids|done..].
  - intros [Hun Hlast]%app_eq_nil. destruct (cx_confirmed o) eqn:Ec; [|done]. destruct (Hcancel eq_refl) as [Hp Hc].
    assert (n' ∈ <[i := n']> (cs_nodes s)) as Hn'.
    { apply (list_elem_of_lookup_2 _ i). apply list_lookup_insert_eq. by eapply lookup_lt_Some. }
    apply Forall_app. split; [|constructor; [|constructor]; split; [done|]; exists n'; by rewrite Hid'].
    eapply Forall_impl; [by apply Hconf|]. intros o' (Hc' & m & Hm & Hmid & Hmp & Hmc). split; [done|].
    destruct (elem_of_update_other _ _ _ n' _ Hi Hm) as [->|Hm']; [exists n'; by rewrite Hid'|by exists m].
Qed.

Section Loops.
Context `{GoRange} `{CatalogDigest} `{Service}.

Lemma persistRun_order run node eventType message P :
  (forall d d', same_nodes d d' -> P d -> P d') ->
  triple P (persistRun run node eventType message)
    (fun run' d => P d /\ ws_TopologicalOrder run' = ws_TopologicalOrder run) (fun _ => True).
Proof.
  intros HP. eapply triple_consequence; [by apply persistRun_stores|done| |done]. by intros run' d (Hd & _ & ->).
Qed.

Lemma apply_outcome_done order routes pre o s :
  NoDup order -> triple (outcomes_done order routes pre s) (apply_outcome s o) (outcomes_done order routes (pre ++ [o])) (fun _ => True).
Proof.
  intros Hnd. unfold apply_outcome. eapply triple_bind; [apply triple_find_node|]. intros [i n]. cbn [fst snd].
  eapply triple_bind; [apply (triple_moves eq); [apply moves_ReadAttempt, _|by intros d d' <-]|]. intros attempt.
  eapply triple_bind; [apply triple_now|]. intros t. cbv beta zeta.
  set (n' := if cx_confirmed o then _ else _). set (attempt' := if cx_confirmed o then _ else _).
  assert (ns_ID n' = ns_ID n) as Hid' by (subst n'; by destruct (cx_confirmed o)).
  eapply (triple_bind _ _ _ (fun _ d => exists d1, outcomes_done order routes pre s d1 /\ cs_nodes s !! i = Some n /\
    ns_ID n = ct_nodeID (cx_target o) /\ same_nodes (set_node (ns_ID n) n' d1) d)).
  { unfold WriteNode. eapply triple_bind; [by apply triple_lift|]. intros []. apply triple_write; [|done].
    intros d [(Hod & Hi & Hid) _]. exists d. rewrite Hid'. by split_and!. }
  intros []. eapply triple_bind; [apply (triple_moves same_nodes); [apply same_nodes_writeAttempt|]|].
  { intros d d' Hd (d1 & Hod & Hi & Hid & Hs). exists d1. split_and!; [done..|]. by etransitivity. }
  intros []. eapply triple_bind; [apply persistRun_order|].
  { intros d d' Hd (d1 & Hod & Hi & Hid & Hs). exists d1. split_and!; [done..|]. by etransitivity. }
  intros run' w [(d1 & Hod & Hi & Hid & Hs) Horder]. cbn.
  eapply (outcomes_done_step _ _ _ _ _ _ _ _ _ _ Hnd Hod Hi Hid Hid'); [| | |exact Hs].
  - subst n'. by destruct (cx_confirmed o).
  - rewrite Horder. cbn. apply Hod.
  - intros Hc. subst n'. by rewrite Hc.
Qed.

(** Skipping what has not started *)
Definition skip (diagnostic : NodeSnapshot -> string) (t : Z) (n : NodeSnapshot) : NodeSnapshot :=
  node_with n NodePhaseSkipped (ns_Conclusion n) ReasonWorkflowCancelled (diagnostic n) (ns_Result n)
    (ns_PendingInputAnswer n) (ns_PendingRoutingTarget n) t.

(** [n'] is what the cancellation makes of [n]. *)
Definition stopped (n n' : NodeSnapshot) : Prop :=
  ns_ID n' = ns_ID n /\ ns_PendingRoutingTarget n' = ns_PendingRoutingTarget n /\ startable n' = false /\
  (startable n = true -> ns_Phase n' = NodePhaseSkipped) /\ (startable n = false -> n' = n).

Lemma cancel_unstarted_done diagnostic order ns pre n run :
  NoDup order -> map ns_ID ns = order ->
  triple (fun d => ws_TopologicalOrder run = order /\
            forall rest, ns = pre ++ rest -> exists pre', Forall2 stopped pre pre' /\ Forall (mirror d) (pre' ++ rest))
    (cancel_unstarted diagnostic run n)
    (fun run' d => ws_TopologicalOrder run' = order /\
            forall rest, ns = (pre ++ [n]) ++ rest -> exists pre', Forall2 stopped (pre ++ [n]) pre' /\ Forall (mirror d) (pre' ++ rest))
    (fun _ => True).
Proof.
  intros Hnd Hids. unfold cancel_unstarted. fold (startable n). destruct (startable n) eqn:Es.
  - eapply triple_bind; [apply triple_now|]. intros t. cbv beta zeta. fold (skip diagnostic t n). set (n' := skip diagnostic t n).
    unfold WriteNode. apply triple_assoc. eapply triple_bind; [by apply triple_lift|]. intros [].
    eapply (triple_bind _ _ _ (fun _ d => exists d1, d = set_node (ns_ID n') n' d1 /\ ws_TopologicalOrder run = order /\
      forall rest, ns = pre ++ rest -> exists pre', Forall2 stopped pre pre' /\ Forall (mirror d1) (pre' ++ rest))).
    { apply triple_write; [|done]. intros d [[Ho Hd] _]. by exists d. }
    intros [] w (d1 & Hd1 & Ho & Hd). cbn. rewrite Hd1. split; [done|]. intros rest Hns. rewrite <-app_assoc in Hns. cbn in Hns.
    destruct (Hd _ Hns) as (pre' & Hpre & Hall). exists (pre' ++ [n']). split.
    { apply Forall2_app; [done|]. constructor; [|constructor]. split_and!; [done..|]. by rewrite Es. }
    assert (map ns_ID (pre' ++ n :: rest) = order) as Hids'.
    { rewrite <-Hids, Hns, !map_app. f_equal. clear -Hpre. induction Hpre as [|x y l k Hxy _ IH]; cbn; [done|]. f_equal; [apply Hxy|done]. }
    rewrite <-app_assoc. cbn. replace (pre' ++ n' :: rest) with (<[length pre' := n']> (pre' ++ n :: rest)) by (rewrite insert_app_r_alt, Nat.sub_diag by lia; done).
    apply mirrors_update; [by rewrite Hids'|by rewrite lookup_app_r, Nat.sub_diag|done|done].
  - intros w (Ho & Hd). cbn. split; [done|]. intros rest Hns. rewrite <-app_assoc in Hns.
    destruct (Hd _ Hns) as (pre' & Hpre & Hall). exists (pre' ++ [n]). rewrite <-app_assoc. split; [|done].
    apply Forall2_app; [done|]. constructor; [|constructor]. split_and!; [done..|by rewrite Es|done].
Qed.

(** The run that a successful cancellation leaves *)
Definition cancelled_on (d0 : disk) (outcomes : list cancellationOutcome) (run : WorkflowSnapshot) (d : disk) : Prop :=
  exists s0 ns ns', dk_snapshot d0 = Some s0 /\
    map ns_ID ns = ws_TopologicalOrder s0 /\ Forall2 stopped ns ns' /\ Forall (mirror d) ns' /\
    (exists loaded, Forall (mirror d0) loaded /\ map ns_ID loaded = ws_TopologicalOrder s0 /\
       map ns_PendingRoutingTarget loaded = map ns_PendingRoutingTarget ns) /\
    Forall (fun o => cx_confirmed o = true /\ exists n, n ∈ ns /\ ns_ID n = ct_nodeID (cx_target o) /\
      ns_Phase n = NodePhaseCompleted /\ ns_Conclusion n = ConclusionCancelled) outcomes /\
    dk_snapshot d = Some run /\ ws_TopologicalOrder run = ws_TopologicalOrder s0 /\
    ws_Phase run = PhaseCompleted /\ ws_Conclusion run = ConclusionCancelled /\ ws_CancelRequested run = true.

Lemma applyCancellationOutcomes_done d0 s0 outcomes :
  keyed d0 -> dk_snapshot d0 = Some s0 -> NoDup (ws_TopologicalOrder s0) -> ws_Phase s0 <> PhaseCompleted ->
  triple (eq d0) (applyCancellationOutcomes outcomes) (cancelled_on d0 outcomes) (fun _ => True).
Proof.
  intros Hkey Hs0 Hnd Hphase. unfold applyCancellationOutcomes. eapply triple_bind; [by apply loadRun_mirrors|]. intros [run loaded].
  apply triple_pre. intros d (-> & s & Hs & Hrun & Hids & Hall). cbn [fst snd] in *. subst run. rewrite Hs0 in Hs. injection Hs as <-.
  cbn [upgrade_run ws_Phase]. rewrite (proj2 (String.eqb_neq _ _) Hphase).
  set (order := ws_TopologicalOrder s0) in *. set (routes := map ns_PendingRoutingTarget loaded).
  eapply (triple_bind _ _ _ (outcomes_done order routes outcomes)).
  { eapply triple_consequence; [apply (triple_each_done (outcomes_done order routes) (fun _ => True))| | |].
    - intros pre o s. by apply apply_outcome_done.
    - intros d <-. split; [done..|]. constructor.
    - done.
    - done. }
  intros s. apply triple_pre. intros d1 Hod. destruct (cs_unresolved s) as [|u us] eqn:Eu.
  2:{ intros w _. cbn. unfold mbind, eff_bind. cbn. by destruct (persistRun _ _ _ _ _). }
  pose proof (od_confirmed _ _ _ _ _ Hod Eu) as Hconf.
  pose proof (od_ids _ _ _ _ _ Hod) as Hids2. pose proof (od_routes _ _ _ _ _ Hod) as Hroutes.
  set (Pd := fun d => exists ns', Forall2 stopped (cs_nodes s) ns' /\ Forall (mirror d) ns').
  eapply (triple_bind _ _ _ (fun run d => ws_TopologicalOrder run = order /\ Pd d)).
  { eapply triple_consequence; [apply (triple_each_done (fun pre run d => ws_TopologicalOrder run = order /\
      forall rest, cs_nodes s = pre ++ rest -> exists pre', Forall2 stopped pre pre' /\ Forall (mirror d) (pre' ++ rest)) (fun _ => True))| | |].
    - intros pre n run. by apply cancel_unstarted_done.
    - intros d <-. split; [apply Hod|]. intros rest Hrest. exists []. split; [constructor|]. rewrite <-Hrest. apply Hod.
    - intros run d [Ho Hd]. split; [done|]. destruct (Hd []) as (ns' & Hst & Hm); [by rewrite app_nil_r|].
      exists ns'. by rewrite app_nil_r in Hm.
    - done. }
  intros run2. eapply triple_bind; [apply triple_now|]. intros t. cbv beta zeta.
  eapply triple_consequence; [apply (persistRun_stores (fun d => ws_TopologicalOrder run2 = order /\ Pd d))|done| |done].
  { intros d d' Hdd [Ho (ns' & Hst & Hm)]. split; [done|]. exists ns'. split; [done|]. by eapply mirrors_same_nodes. }
  intros run3 d [[Ho (ns' & Hst & Hm)] [Hsnap ->]]. exists s0, (cs_nodes s), ns'. split_and!; try done.
  exists loaded. by split_and!.
Qed.
End Loops.

Lemma startable_mirror d n : mirror d n -> startable n = false -> exists m, dk_nodes d !! ns_ID n = Some m /\ startable m = false.
Proof. intros (m & Hm & _ & Hp & Ht & _) Hs. exists m. split; [done|]. unfold startable in *. by rewrite Hp, Ht. Qed.

Lemma stopped_lookup ns ns' n : Forall2 stopped ns ns' -> n ∈ ns -> exists n', n' ∈ ns' /\ stopped n n'.
Proof.
  intros Hst [i Hi]%list_elem_of_lookup. destruct (Forall2_lookup_l _ _ _ _ _ Hst Hi) as (n' & Hi' & Hn). exists n'.
  split; [by eapply list_elem_of_lookup_2|done].
Qed.

(** C12: When the cancellation of a run reports success, whatever the backends
    and the store did on the way, every backend has confirmed, the snapshot on
    disk is a completed run with conclusion "cancelled", every attempted node
    is completed as cancelled and no node of the run can start any more: none
    is pending, ready or an approval that waits. *)
Theorem cancellation_settles `{GoRange} `{CatalogDigest} `{Service} d0 run outcomes faults run' w' :
  keyed d0 -> dk_snapshot d0 = Some run -> NoDup (ws_TopologicalOrder run) -> ws_Phase run <> PhaseCompleted ->
  applyCancellationOutcomes outcomes (boot d0 faults) = Done run' w' ->
  dk_snapshot (w_disk w') = Some run' /\ ws_Phase run' = PhaseCompleted /\ ws_Conclusion run' = ConclusionCancelled /\
  Forall (fun o => cx_confirmed o = true) outcomes /\
  (forall id, id ∈ ws_TopologicalOrder run -> exists n, dk_nodes (w_disk w') !! id = Some n /\ startable n = false) /\
  forall o, o ∈ outcomes -> exists n, dk_nodes (w_disk w') !! ct_nodeID (cx_target o) = Some n /\
    ns_Phase n = NodePhaseCompleted /\ ns_Conclusion n = ConclusionCancelled.
Proof.
  intros Hkey Hs Hnd Hp Hdone. pose proof (applyCancellationOutcomes_done d0 run outcomes Hkey Hs Hnd Hp (boot d0 faults) eq_refl) as Ht.
  rewrite Hdone in Ht. cbn in Ht. destruct Ht as (s0 & ns & ns' & Hs0 & Hids & Hst & Hm & _ & Hconf & Hsnap & _ & Hph & Hcon & _).
  rewrite Hs in Hs0. injection Hs0 as <-. rewrite Forall_forall in Hm. split_and!; [done..| | |].
  - eapply Forall_impl; [exact Hconf|]. by intros o [Hc _].
  - intros id Hid. rewrite <-Hids in Hid. apply list_elem_of_fmap in Hid as (n & -> & Hn).
    destruct (stopped_lookup _ _ _ Hst Hn) as (n' & Hn' & Hid' & _ & Hstop & _). rewrite <-Hid'. apply startable_mirror; [by apply Hm|done].
  - intros o Ho. rewrite Forall_forall in Hconf. destruct (Hconf o Ho) as (_ & n & Hn & <- & Hnp & Hnc).
    destruct (stopped_lookup _ _ _ Hst Hn) as (n' & Hn' & _ & _ & _ & _ & Hsame).
    assert (n' = n) as -> by (apply Hsame; unfold startable; by rewrite Hnp).
    destruct (Hm _ Hn') as (m & Hlook & _ & Hmp & _ & Hmc & _). exists m. split; [done|]. split; congruence.
Qed.

(** ** A cancelled run that cannot be read *)

Lemma loadRun_nodes_valid `{GoRange} d0 s0 :
  dk_snapshot d0 = Some s0 ->
  triple (eq d0) loadRun (fun _ _ => Forall (fun id => exists n, dk_nodes d0 !! id = Some n /\ ValidateNodeSnapshot (reload_node 1 n) = Ok tt)
    (ws_TopologicalOrder s0)) (fun _ => True).
Proof.
  intros Hs. unfold loadRun. eapply triple_bind; [by apply triple_read|]. intros s.
  eapply triple_bind; [by apply triple_lift|]. intros []. apply triple_pre. intros d [[<- Hs'] _]. rewrite Hs in Hs'. injection Hs' as <-.
  eapply triple_bind.
  - eapply triple_consequence; [apply (triple_each_done (fun ids _ d => d = d0 /\ Forall (fun id => exists n, dk_nodes d0 !! id = Some n /\
      ValidateNodeSnapshot (reload_node 1 n) = Ok tt) ids) (fun _ => True))| | |].
    + intros ids id ns. unfold load_node, ReadNode. apply triple_assoc. eapply triple_bind; [by apply triple_lift|]. intros [].
      apply triple_assoc. eapply triple_bind; [by apply triple_read|]. intros n. cbv beta. apply triple_ret_bind.
      eapply triple_bind; [by apply triple_lift|]. intros [] w [[[[Hd Hall] _] Hn] Hv]. rewrite Hd in Hn. cbn. split; [done|].
      apply Forall_app. split; [done|]. constructor; [|constructor]. by exists n.
    + by intros d <-.
    + done.
    + done.
  - intros ns w [_ Hall]. exact Hall.
Qed.

Lemma routed_needs_ready n route :
  ns_PendingRoutingTarget n = Some route -> ValidateNodeSnapshot n = Ok tt -> ns_Phase n = NodePhaseReady.
Proof.
  intros Hr Hv. unfold ValidateNodeSnapshot in Hv. apply bind_unit_ok in Hv as [_ Hv]. rewrite !fail_if_ok, Hr in Hv.
  destruct Hv as (_ & _ & _ & _ & _ & _ & Hv). apply bind_unit_ok in Hv as [_ Hv]. apply fail_if_ok in Hv as [Hv _].
  rewrite !orb_false_iff, negb_false_iff in Hv. destruct Hv as [[Hv _] _]. by apply String.eqb_eq.
Qed.

(** C32: A node that a retry has made ready keeps the route of its next attempt
    when the cancellation skips it, but a skipped node must have no pending
    route: after the cancellation of such a run has reported success, loading
    the run fails, in every process, and with it every operation on the run. *)
Theorem cancelled_run_unloadable `{GoRange} `{CatalogDigest} `{Service} d0 run outcomes faults run' w' id n route :
  keyed d0 -> dk_snapshot d0 = Some run -> NoDup (ws_TopologicalOrder run) -> ws_Phase run <> PhaseCompleted ->
  id ∈ ws_TopologicalOrder run -> dk_nodes d0 !! id = Some n -> ns_PendingRoutingTarget n = Some route ->
  applyCancellationOutcomes outcomes (boot d0 faults) = Done run' w' ->
  forall w2, w_disk w2 = w_disk w' -> ended (loadRun w2) = false.
Proof.
  intros Hkey Hs Hnd Hp Hid Hn Hroute Hdone w2 Hw2.
  pose proof (applyCancellationOutcomes_done d0 run outcomes Hkey Hs Hnd Hp (boot d0 faults) eq_refl) as Ht.
  rewrite Hdone in Ht. cbn in Ht. destruct Ht as (s0 & ns & ns' & Hs0 & Hids & Hst & Hm & (loaded & Hl & Hlids & Hroutes) & _ & Hsnap & Horder & _).
  rewrite Hs in Hs0. injection Hs0 as <-.
  assert (exists m, dk_nodes (w_disk w') !! id = Some m /\ ns_PendingRoutingTarget m = Some route /\ ns_Phase m <> NodePhaseReady) as (m & Hm' & Hmr & Hmp).
  { rewrite <-Hlids in Hid. apply list_elem_of_fmap in Hid as (l & -> & [i Hi]%list_elem_of_lookup).
    pose proof (Forall_lookup_1 _ _ _ _ Hl Hi) as (m0 & Hm0 & _ & _ & _ & _ & Hmr0). rewrite Hn in Hm0. injection Hm0 as <-.
    assert (map ns_PendingRoutingTarget ns !! i = Some (ns_PendingRoutingTarget l)) as Hr by (by rewrite <-Hroutes, list_lookup_fmap, Hi).
    assert (map ns_ID ns !! i = Some (ns_ID l)) as Hr2 by (by rewrite Hids, <-Hlids, list_lookup_fmap, Hi).
    rewrite list_lookup_fmap in Hr. rewrite list_lookup_fmap in Hr2. destruct (ns !! i) as [k|] eqn:Ek; [|done]. injection Hr as Hr. injection Hr2 as Hr2.
    destruct (Forall2_lookup_l _ _ _ _ _ Hst Ek) as (k' & Hk' & Hkid & Hkr & Hks & _).
    pose proof (Forall_lookup_1 _ _ _ _ Hm Hk') as (m & Hmm & _ & Hmph & _ & _ & Hmrt). exists m.
    rewrite <-Hr2, <-Hkid. split; [done|]. split; [congruence|]. intros Hready. rewrite Hmph in Hready. unfold startable in Hks.
    by rewrite Hready in Hks. }
  pose proof (loadRun_nodes_valid (w_disk w') run' Hsnap w2 (eq_sym Hw2)) as Hv.
  destruct (loadRun w2) as [a w3|e w3|d3]; [|done|done]. exfalso. cbn in Hv. rewrite Horder, Forall_forall in Hv.
  destruct (Hv id Hid) as (m2 & Hm2 & Hvalid). rewrite Hm' in Hm2. injection Hm2 as <-.
  apply Hmp. exact (routed_needs_ready (reload_node 1 m) route Hmr Hvalid).
Qed.

(** ** The diamond with a retried node, cancelled before it is scheduled *)

Definition demo_cancelling_run : WorkflowSnapshot :=
  set_cancel (set_run (sample_run demo_order) PhaseCancelling "" "" "" "workflow cancellation requested" 0) true.
Definition demo_cancelling : disk := {|
  dk_snapshot := Some demo_cancelling_run;
  dk_workflow := Some sample_normalized;
  dk_nodes := {[ "z" := demo_node "z" NodePhaseCompleted ConclusionSucceeded "" 1;
                 "b" := {| ns_ProtocolVersion := 2; ns_StateSchemaVersion := 3; ns_RunID := "r"; ns_ID := "b"; ns_Type := "agent";
                           ns_Phase := NodePhaseReady; ns_Conclusion := ""; ns_Reason := ""; ns_Diagnostic := "";
                           ns_Result := None; ns_PendingInputAnswer := None;
                           ns_PendingRoutingTarget := Some (Catalog.codex_target "gpt-5.6"); ns_CurrentAttempt := 1;
                           ns_CreatedAt := 0; ns_UpdatedAt := 0 |};
                 "c" := demo_node "c" NodePhaseRunning "" "" 1; "a" := demo_node "a" NodePhasePending "" "" 0 ]};
  dk_attempts := {[ ("c", 1) := demo_attempt NodePhaseRunning "" ]};
  dk_results := ∅; dk_events := [demo_event 1 "run.created"; demo_event 2 "run.cancelling"]; dk_intents := ∅ |}.
Definition demo_outcomes : list cancellationOutcome :=
  [{| cx_target := {| ct_nodeID := "c"; ct_attempt := 1 |}; cx_confirmed := true; cx_diagnostic := "" |}].

Lemma demo_cancelling_keyed : keyed demo_cancelling.
Proof.
  assert (map_Forall (fun id n => ns_ID n = id) (dk_nodes demo_cancelling)) as Hall; [|exact Hall].
  apply (bool_decide_unpack _). vm_compute. exact I.
Qed.

Lemma demo_order_NoDup : NoDup demo_order.
Proof. apply (bool_decide_unpack _). vm_compute. exact I. Qed.

Lemma cancellation_settles_witness :
  match @applyCancellationOutcomes canonical_range zero_digest _ demo_outcomes (boot demo_cancelling []) with
  | Done run' w' =>
      dk_snapshot (w_disk w') = Some run' /\ ws_Phase run' = PhaseCompleted /\ ws_Conclusion run' = ConclusionCancelled /\
      Forall (fun o => cx_confirmed o = true) demo_outcomes /\
      (forall id, id ∈ demo_order -> exists n, dk_nodes (w_disk w') !! id = Some n /\ startable n = false) /\
      forall o, o ∈ demo_outcomes -> exists n, dk_nodes (w_disk w') !! ct_nodeID (cx_target o) = Some n /\
        ns_Phase n = NodePhaseCompleted /\ ns_Conclusion n = ConclusionCancelled
  | _ => False
  end.
Proof.
  destruct (applyCancellationOutcomes demo_outcomes (boot demo_cancelling [])) as [run' w'|e w'|d] eqn:E;
    [|vm_compute in E; discriminate..].
  apply (@cancellation_settles canonical_range zero_digest _ demo_cancelling demo_cancelling_run demo_outcomes [] run' w');
    [exact demo_cancelling_keyed|reflexivity|exact demo_order_NoDup|discriminate|exact E].
Defined.

Lemma cancelled_run_unloadable_witness :
  match @applyCancellationOutcomes canonical_range zero_digest _ demo_outcomes (boot demo_cancelling []) with
  | Done run' w' => ended (@loadRun canonical_range w') = false
  | _ => False
  end.
Proof.
  destruct (applyCancellationOutcomes demo_outcomes (boot demo_cancelling [])) as [run' w'|e w'|d] eqn:E;
    [|vm_compute in E; discriminate..].
  eapply (@cancelled_run_unloadable canonical_range zero_digest _ demo_cancelling demo_cancelling_run demo_outcomes [] run' w' "b");
    [exact demo_cancelling_keyed|reflexivity|exact demo_order_NoDup|discriminate| |reflexivity|reflexivity|exact E|reflexivity].
  right. by left.
Defined.
