(* ===== verification/RouteConfig.v ===== *)
(** * Routing configuration: data, files and memory

    The types of internal/routingconfig/service.go and team_routes.go, the JSON
    files under the configuration root, and the memory of the service.

    A slice is a reference: the routes of the configuration in memory are an
    address, and [sv_arrays] holds the array there.  Copying the configuration
    copies the address.  The other slices are replaced as a whole or copied
    before they change, and are plain lists.

    Decoding is encoding/json with unknown fields refused; a file holds a value of
    its type or bytes that are refused.  The code decodes into structs that hold
    defaults, which a member that the file lacks leaves as they are; the service
    writes every member, and a file that somebody else has written stands here
    for the value its decoding gives.

    Times are nanoseconds since the beginning of year 1, so that 0 is the time
    that IsZero is about, and no other. *)

From S2P Require Import Prelude GoText Routing Resolver Catalog Context Files.
#[local] Open Scope string_scope.
#[local] Open Scope list_scope.
#[local] Open Scope Z_scope.

Definition APIVersion := "fishyume.config/v1".
Definition availabilityVersion := "fishyume.routing-availability/v1".
Definition discoveryVersion := "fishyume.driver-model-discovery/v1".
Definition teamDiscoveryVersion := "fishyume.team-driver-discovery/v1".
Definition maxMutationReceipts := 64.
Definition availabilityTTL := 24 * 3600 * 1000000000.

(** ** Errors *)

Inductive ConfigError :=
| Contract (code message : string)        (* *ContractError *)
| FileFailed (e : FileError)
| RegistryFailed (e : RegistryError)
| CatalogInvalid (e : ContractError)
| ConfigText (text : string).
#[export] Instance config_errors : FileErrors ConfigError := FileFailed.

(** ** Workflow routes *)

Record RouteSetting := { rs_RouteID : string; rs_Enabled : bool }.
Record mutationReceipt := { mu_MutationID : string; mu_RequestHash : string; mu_Revision : Z }.

(** Config with the receipts of configFile; [R] is how the routes are held. *)
Record configFile (R : Type) := {
  cf_SchemaVersion : string; cf_Revision : Z; cf_Routes : R; cf_UpdatedAt : Z; cf_Mutations : list mutationReceipt }.
Arguments cf_SchemaVersion {R}. Arguments cf_Revision {R}. Arguments cf_Routes {R}.
Arguments cf_UpdatedAt {R}. Arguments cf_Mutations {R}.

Definition AvailabilityUnknown := "unknown".
Definition AvailabilityAvailable := "available".
Definition AvailabilityUnavailable := "unavailable".
Record AvailabilityEntry := {
  ae_RouteID : string; ae_Model : string; ae_Status : string; ae_ReasoningEffort : string;
  ae_ObservedAt : option Z; ae_ExpiresAt : option Z; ae_Diagnostic : string }.
Record availabilityFile := { af_SchemaVersion : string; af_Entries : list AvailabilityEntry }.

(** codexprocess.ModelInfo *)
Record ModelInfo := {
  mi_ID : string; mi_Model : string; mi_DisplayName : string; mi_Description : string; mi_Hidden : bool;
  mi_Default : bool; mi_SupportedEfforts : list string; mi_DefaultEffort : string; mi_InputModalities : list string;
  mi_ServiceTiers : list string; mi_DefaultServiceTier : string; mi_SupportsPersonality : bool;
  mi_SupportsMultiAgentMode : bool }.
Record discoveryFile := { df_SchemaVersion : string; df_ObservedAt : Z; df_Models : list ModelInfo }.

Record ProductProfile := {
  pp_RouteID : string; pp_Model : string; pp_Qualified : bool; pp_DefaultEffort : string;
  pp_Efforts : list string; pp_UseCases : list string }.
Record RouteView := {
  rv_Profile : ProductProfile; rv_Discovered : bool; rv_Enabled : bool; rv_Availability : string;
  rv_Routable : bool; rv_Diagnostic : string }.

(** ** Team routes *)

Definition TeamRouteBuiltin := "builtin".
Definition TeamRouteUser := "user".
Definition TeamRouteLegacyImport := "legacy_import".
Record TeamRouteSetting := {
  tr_RouteID : string; tr_Driver : string; tr_Provider : string; tr_Model : string; tr_Enabled : bool; tr_Source : string }.
Record TeamDriverStatus := {
  ds_Driver : string; ds_Available : bool; ds_Executable : string; ds_Diagnostic : string; ds_ObservedAt : Z }.
Record teamDriverDiscoveryFile := { td_SchemaVersion : string; td_Drivers : list TeamDriverStatus }.
(** TeamRouteConfig with the receipts of teamConfigFile *)
Abbreviation teamConfigFile := (configFile (list TeamRouteSetting)).

#[export] Instance RouteSetting_eq_dec : EqDecision RouteSetting.
Proof. solve_decision. Defined.
#[export] Instance TeamRouteSetting_eq_dec : EqDecision TeamRouteSetting.
Proof. solve_decision. Defined.

(** ** The files *)

(** A directory of catalogs maps file names to files. *)
Abbreviation catalog_dir := (gmap string (file CapabilityCatalogV1)).
Record route_files := {
  rd_config : file (configFile (list RouteSetting));      (* config/routing.json *)
  rd_discovery : file discoveryFile;                      (* routing/discovery.json *)
  rd_available : file availabilityFile;                   (* routing/availability.json *)
  rd_catalogs : catalog_dir;                              (* routing/catalogs *)
  rd_team_config : file teamConfigFile;                   (* config/team-routing.json *)
  rd_team_drivers : file teamDriverDiscoveryFile;         (* routing/team-drivers.json *)
  rd_team_catalogs : catalog_dir }.                       (* routing/team-catalogs *)

Definition set_config v d := {|
  rd_config := v; rd_discovery := rd_discovery d; rd_available := rd_available d; rd_catalogs := rd_catalogs d;
  rd_team_config := rd_team_config d; rd_team_drivers := rd_team_drivers d; rd_team_catalogs := rd_team_catalogs d |}.
Definition set_discovery v d := {|
  rd_config := rd_config d; rd_discovery := v; rd_available := rd_available d; rd_catalogs := rd_catalogs d;
  rd_team_config := rd_team_config d; rd_team_drivers := rd_team_drivers d; rd_team_catalogs := rd_team_catalogs d |}.
Definition set_available v d := {|
  rd_config := rd_config d; rd_discovery := rd_discovery d; rd_available := v; rd_catalogs := rd_catalogs d;
  rd_team_config := rd_team_config d; rd_team_drivers := rd_team_drivers d; rd_team_catalogs := rd_team_catalogs d |}.
Definition set_catalog name v d := {|
  rd_config := rd_config d; rd_discovery := rd_discovery d; rd_available := rd_available d;
  rd_catalogs := <[name := v]> (rd_catalogs d); rd_team_config := rd_team_config d;
  rd_team_drivers := rd_team_drivers d; rd_team_catalogs := rd_team_catalogs d |}.
Definition set_team_config v d := {|
  rd_config := rd_config d; rd_discovery := rd_discovery d; rd_available := rd_available d; rd_catalogs := rd_catalogs d;
  rd_team_config := v; rd_team_drivers := rd_team_drivers d; rd_team_catalogs := rd_team_catalogs d |}.
Definition set_team_drivers v d := {|
  rd_config := rd_config d; rd_discovery := rd_discovery d; rd_available := rd_available d; rd_catalogs := rd_catalogs d;
  rd_team_config := rd_team_config d; rd_team_drivers := v; rd_team_catalogs := rd_team_catalogs d |}.
Definition set_team_catalog name v d := {|
  rd_config := rd_config d; rd_discovery := rd_discovery d; rd_available := rd_available d; rd_catalogs := rd_catalogs d;
  rd_team_config := rd_team_config d; rd_team_drivers := rd_team_drivers d;
  rd_team_catalogs := <[name := v]> (rd_team_catalogs d) |}.

Definition no_files : route_files := {|
  rd_config := Absent; rd_discovery := Absent; rd_available := Absent; rd_catalogs := ∅;
  rd_team_config := Absent; rd_team_drivers := Absent; rd_team_catalogs := ∅ |}.

(** writeJSONAtomic: what precedes the rename can fail, the rename changes the
    file at once.  The path picks the file, [set]. *)
Section files.
  Context {D : Type}.
Definition readJSONStrict {V} (get : D -> file V) : io D ConfigError V := readJSON get.
Definition writeJSONAtomic {V} (set : file V -> D -> D) (value : V) : io D ConfigError unit :=
  _ ← touch;
  call (fun d => (Ok tt, set (Holds value) d)).
(** The value, or [default] where there is no file; [wrap] names the file in other errors. *)
Definition read_or {V} (get : D -> file V) (default : V) (wrap : ConfigError -> ConfigError) : io D ConfigError V :=
  read ← attempt (readJSONStrict get);
  match read with
  | Ok value => mret value
  | Err (FileFailed FileNotExist) => mret default
  | Err e => refuse (wrap e)
  end.
End files.

(** ** The service *)

Record Service := {
  sv_config : configFile nat;
  sv_arrays : gmap nat (list RouteSetting);
  sv_discovery : discoveryFile;
  sv_available : availabilityFile;
  sv_registry : CatalogRegistry;
  sv_teamConfig : teamConfigFile;
  sv_teamDrivers : list TeamDriverStatus;
  sv_teamApplier : bool }.

(** The array behind the routes *)
Definition array_at (a : nat) (s : Service) : list RouteSetting := default [] (sv_arrays s !! a).
Definition routes_of (s : Service) : list RouteSetting := array_at (cf_Routes (sv_config s)) s.

Definition with_config v s := {|
  sv_config := v; sv_arrays := sv_arrays s; sv_discovery := sv_discovery s; sv_available := sv_available s;
  sv_registry := sv_registry s; sv_teamConfig := sv_teamConfig s; sv_teamDrivers := sv_teamDrivers s;
  sv_teamApplier := sv_teamApplier s |}.
Definition with_array (a : nat) v s := {|
  sv_config := sv_config s; sv_arrays := <[a := v]> (sv_arrays s); sv_discovery := sv_discovery s;
  sv_available := sv_available s; sv_registry := sv_registry s; sv_teamConfig := sv_teamConfig s;
  sv_teamDrivers := sv_teamDrivers s; sv_teamApplier := sv_teamApplier s |}.
Definition with_discovery v s := {|
  sv_config := sv_config s; sv_arrays := sv_arrays s; sv_discovery := v; sv_available := sv_available s;
  sv_registry := sv_registry s; sv_teamConfig := sv_teamConfig s; sv_teamDrivers := sv_teamDrivers s;
  sv_teamApplier := sv_teamApplier s |}.
Definition with_available v s := {|
  sv_config := sv_config s; sv_arrays := sv_arrays s; sv_discovery := sv_discovery s; sv_available := v;
  sv_registry := sv_registry s; sv_teamConfig := sv_teamConfig s; sv_teamDrivers := sv_teamDrivers s;
  sv_teamApplier := sv_teamApplier s |}.
Definition with_registry v s := {|
  sv_config := sv_config s; sv_arrays := sv_arrays s; sv_discovery := sv_discovery s; sv_available := sv_available s;
  sv_registry := v; sv_teamConfig := sv_teamConfig s; sv_teamDrivers := sv_teamDrivers s;
  sv_teamApplier := sv_teamApplier s |}.
Definition with_team_config v s := {|
  sv_config := sv_config s; sv_arrays := sv_arrays s; sv_discovery := sv_discovery s; sv_available := sv_available s;
  sv_registry := sv_registry s; sv_teamConfig := v; sv_teamDrivers := sv_teamDrivers s;
  sv_teamApplier := sv_teamApplier s |}.
Definition with_team_drivers v s := {|
  sv_config := sv_config s; sv_arrays := sv_arrays s; sv_discovery := sv_discovery s; sv_available := sv_available s;
  sv_registry := sv_registry s; sv_teamConfig := sv_teamConfig s; sv_teamDrivers := v;
  sv_teamApplier := sv_teamApplier s |}.
Definition with_applier v s := {|
  sv_config := sv_config s; sv_arrays := sv_arrays s; sv_discovery := sv_discovery s; sv_available := sv_available s;
  sv_registry := sv_registry s; sv_teamConfig := sv_teamConfig s; sv_teamDrivers := sv_teamDrivers s;
  sv_teamApplier := v |}.

(** A running service, its files, and what it gave to its TeamRouteApplier *)
Record world := {
  w_service : Service; w_files : route_files; w_applied : list (CapabilityCatalogV1 * list TeamDriverStatus) }.
Abbreviation route_io := (io world ConfigError).

Definition with_files v w := {| w_service := w_service w; w_files := v; w_applied := w_applied w |}.
Definition service : route_io Service := fun w fs => Returned (w_service w) w fs.
Definition memory (change : Service -> Service) : route_io unit := fun w fs =>
  Returned tt {| w_service := change (w_service w); w_files := w_files w; w_applied := w_applied w |} fs.
Definition in_files {V} (set : file V -> route_files -> route_files) (v : file V) (w : world) : world :=
  with_files (set v (w_files w)) w.

(** Adding a receipt: the last 64 are kept. *)
Definition add_receipt (receipts : list mutationReceipt) (receipt : mutationReceipt) : list mutationReceipt :=
  let receipts := receipts ++ [receipt] in
  drop (Z.to_nat (len_slice receipts - maxMutationReceipts)) receipts.
Definition find_receipt (mutationID : string) (receipts : list mutationReceipt) : option mutationReceipt :=
  List.find (fun receipt => mu_MutationID receipt =s mutationID) receipts.

(** ** Diagnostics *)

(** strings.Fields: the words between white space *)
Fixpoint fields_from (fuel : nat) (word l : list ascii) : list (list ascii) :=
  let word_end := match word with [] => [] | _ => [word] end in
  match fuel with
  | O => word_end
  | S fuel =>
      match strip_one space_encodings l with
      | Some rest => word_end ++ fields_from fuel [] rest
      | None => match l with [] => word_end | c :: l => fields_from fuel (word ++ [c]) l end
      end
  end.
Definition fields (s : string) : list string := map of_list (fields_from (S (String.length s)) [] (to_list s)).
Definition boundedDiagnostic (value : string) : string := of_list (take 1024 (to_list (join " " (fields value)))).

Example fields_demo : fields ("  codex" +:+ of_list (bytes [9; 194; 160]%N) +:+ "not  found ") = ["codex"; "not"; "found"] /\ fields "" = [].
Proof. vm_compute. done. Qed.
