(* ===== verification/TeamRoutes.v ===== *)
(** * Team routes

    internal/routingconfig/team_routes.go: the routes that teams may use, with
    their revisions, receipts, files and the catalog made of them.

    Each method holds the service's mutex until it calls the applier; that call,
    which is last, counts to the same step.  What LookPath and Abs find for a
    driver is [lookup], the environment's file of legacy routes is [legacy], and
    [apply] is the answer of the TeamRouteApplier. *)

From S2P Require Import Prelude GoText Routing Resolver Catalog Json Context Files RouteConfig.
#[local] Open Scope string_scope.
#[local] Open Scope list_scope.
#[local] Open Scope Z_scope.

(** ** Drivers *)

Inductive lookup := NotInPath | NoAbsolute (text : string) | FoundAt (path : string).

Definition discover_driver (find : string -> lookup) (now : Z) (name : string) : TeamDriverStatus :=
  match find name with
  | NotInPath => {| ds_Driver := name; ds_Available := false; ds_Executable := "";
                    ds_Diagnostic := name +:+ " CLI was not found"; ds_ObservedAt := now |}
  | NoAbsolute text => {| ds_Driver := name; ds_Available := false; ds_Executable := "";
                          ds_Diagnostic := boundedDiagnostic text; ds_ObservedAt := now |}
  | FoundAt path => {| ds_Driver := name; ds_Available := true; ds_Executable := path;
                       ds_Diagnostic := ""; ds_ObservedAt := now |}
  end.
Definition discoverTeamDrivers (find : string -> lookup) (now : Z) : teamDriverDiscoveryFile := {|
  td_SchemaVersion := teamDiscoveryVersion;
  td_Drivers := map (discover_driver find now) ["claude"; "codex"; "opencode"] |}.

(** ** Routes *)

Definition builtin_route (id driver provider model : string) : TeamRouteSetting := {|
  tr_RouteID := id; tr_Driver := driver; tr_Provider := provider; tr_Model := model; tr_Enabled := true;
  tr_Source := TeamRouteBuiltin |}.
Definition defaultTeamRoutes : list TeamRouteSetting := [
  builtin_route "claude/default/default" "claude" "default" "default";
  builtin_route "codex/architect/gpt-5.6-sol" "codex" "local" "gpt-5.6-sol";
  builtin_route "codex/reviewer/gpt-5.6-sol" "codex" "local" "gpt-5.6-sol";
  builtin_route "opencode/default/default" "opencode" "default" "default"].

Definition teamCapability (route : TeamRouteSetting) : ModelCapabilityV1 :=
  let premium := (tr_Driver route =s "codex") || (tr_Driver route =s "claude") in {|
  mc_ID := tr_RouteID route;
  mc_Target := {| Driver := tr_Driver route; Provider := tr_Provider route; Model := tr_Model route |};
  mc_Capabilities := SortCapabilities [CapabilityRepoRead; CapabilityStreaming; CapabilityToolUse];
  mc_ContextLimitBytes := if premium then 256 * 1024 else 128 * 1024;
  mc_MaxOutputBytes := if premium then 64 * 1024 else 32 * 1024;
  mc_Quality := if premium then QualityPremium else QualityBalanced;
  mc_Cost := if premium then CostHigh else CostMedium;
  mc_Latency := LatencyBalanced; mc_SupportsCancellation := true |}.

(** The text of a contract error of package routing *)
Definition contract_text (e : ContractError) : string :=
  if SubjectID e =s "" then Code e +:+ ": " +:+ Message e
  else Code e +:+ ": " +:+ Message e +:+ " (" +:+ SubjectID e +:+ ")".

Definition validateTeamRoute (route : TeamRouteSetting) : result ConfigError unit :=
  fail_if negb (contains_string ["codex"; "claude"; "opencode"] (tr_Driver route))
    with Contract "invalid_argument" "Team route Driver must be codex, claude, or opencode" ;;
  fail_if negb (String.prefix (tr_Driver route +:+ "/") (tr_RouteID route))
    with Contract "invalid_argument" "Team routeId must begin with its Driver name" ;;
  fail_if negb (contains_string [TeamRouteBuiltin; TeamRouteUser; TeamRouteLegacyImport] (tr_Source route))
    with Contract "invalid_config" "Team route source is invalid" ;;
  let model := teamCapability route in
  _ ← rmap_err (fun e => Contract "invalid_argument" (contract_text e)) (ValidateModelCapability model);
  fail_if (Driver (mc_Target model) ≠s tr_Driver route) || (trim_space (tr_RouteID route) ≠s tr_RouteID route)
          || (trim_space (tr_Provider route) ≠s tr_Provider route) || (trim_space (tr_Model route) ≠s tr_Model route)
    with Contract "invalid_argument" "Team route fields cannot contain surrounding whitespace" ;;
  Ok tt.

Definition validateTeamRoutes (routes : list TeamRouteSetting) : result ConfigError unit :=
  fail_if (len_slice routes =? 0) || (MaxCatalogModels <? len_slice routes)
    with Contract "invalid_config" "Team routes count is out of bounds" ;;
  _ ← range_loop (fun '(seen, last) route =>
        _ ← validateTeamRoute route;
        fail_if bool_decide (tr_RouteID route ∈ seen) || (last ≠s "") && String.leb (tr_RouteID route) last
          with Contract "invalid_config" "Team routes must have unique canonical routeIds" ;;
        Ok ({[tr_RouteID route]} ∪ seen, tr_RouteID route))
      (∅ : gset string, "") routes;
  Ok tt.

Definition validateTeamMutation (version mutationID : string) (revision : Z) : result ConfigError unit :=
  fail_if (version ≠s APIVersion) || (trim_space mutationID =s "") || (mutationID ≠s trim_space mutationID)
          || (256 <? len mutationID) || (revision <? 1)
    with Contract "invalid_argument" "valid schemaVersion, mutationId, and expectedRevision are required" ;;
  Ok tt.

Definition route_less (x y : TeamRouteSetting) : bool := String.ltb (tr_RouteID x) (tr_RouteID y).
Definition sort_routes (routes : list TeamRouteSetting) : list TeamRouteSetting := sort_slice route_less routes.

(** A later driver of the same name overwrites. *)
Definition driver_map (drivers : list TeamDriverStatus) : gmap string TeamDriverStatus :=
  fold_left (fun m driver => <[ds_Driver driver := driver]> m) drivers ∅.
Definition driver_available (drivers : list TeamDriverStatus) (name : string) : bool :=
  match driver_map drivers !! name with Some driver => ds_Available driver | None => false end.

Definition effectiveTeamCatalog (config : teamConfigFile) (drivers : list TeamDriverStatus)
    : result ConfigError CapabilityCatalogV1 :=
  let models := map teamCapability
    (List.filter (fun route => tr_Enabled route && driver_available drivers (tr_Driver route)) (cf_Routes config)) in
  fail_if len_slice models <? 2
    with Contract "capability_unavailable" "at least two enabled Team routes across installed Agent Drivers are required" ;;
  let catalog := CanonicalCatalogV1 {|
    cat_SchemaVersion := CapabilityCatalogV1Version; cat_PolicyVersion := RoutingPolicyV1Version; cat_Models := models |} in
  _ ← rmap_err CatalogInvalid (ValidateCatalog catalog);
  Ok catalog.

(** ** Responses and requests *)

Record TeamRouteView := {
  tv_Setting : TeamRouteSetting; tv_DriverAvailable : bool; tv_Effective : bool; tv_Diagnostic : string }.
Record TeamRoutesResponse := {
  trr_SchemaVersion : string; trr_Config : teamConfigFile; trr_Drivers : list TeamDriverStatus;
  trr_Routes : list TeamRouteView; trr_CatalogHash : string }.
Record TeamRouteUpsertRequest := {
  tu_SchemaVersion : string; tu_MutationID : string; tu_ExpectedRevision : Z; tu_RouteID : string;
  tu_Driver : string; tu_Provider : string; tu_Model : string; tu_Enabled : bool }.
Record TeamRouteRemoveRequest := {
  tm_SchemaVersion : string; tm_MutationID : string; tm_ExpectedRevision : Z; tm_RouteID : string }.
Record TeamRoutesMutationResponse := { tmr_Response : TeamRoutesResponse; tmr_Replayed : bool }.

Definition route_view (drivers : list TeamDriverStatus) (route : TeamRouteSetting) : TeamRouteView :=
  let driver := driver_map drivers !! tr_Driver route in
  let available := driver_available drivers (tr_Driver route) in {|
  tv_Setting := route; tv_DriverAvailable := available; tv_Effective := tr_Enabled route && available;
  tv_Diagnostic := if negb available then from_option ds_Diagnostic "" driver
                   else if negb (tr_Enabled route) then "route is disabled" else "" |}.

Definition upsert_json (r : TeamRouteUpsertRequest) : string := json_object [
  ("schemaVersion", json_string (tu_SchemaVersion r)); ("mutationId", json_string (tu_MutationID r));
  ("expectedRevision", pretty (tu_ExpectedRevision r)); ("routeId", json_string (tu_RouteID r));
  ("driver", json_string (tu_Driver r)); ("provider", json_string (tu_Provider r));
  ("model", json_string (tu_Model r)); ("enabled", json_bool (tu_Enabled r))].
Definition remove_json (r : TeamRouteRemoveRequest) : string := json_object [
  ("schemaVersion", json_string (tm_SchemaVersion r)); ("mutationId", json_string (tm_MutationID r));
  ("expectedRevision", pretty (tm_ExpectedRevision r)); ("routeId", json_string (tm_RouteID r))].

Section team.
  Context {SHA : Sha256} {CD : CatalogDigest}.
  Context (apply : CapabilityCatalogV1 -> list TeamDriverStatus -> option string).

Definition teamMutationHash (text : string) : string := hashBytes text.

Definition teamRoutesResponse (config : teamConfigFile) (drivers : list TeamDriverStatus)
    : result ConfigError TeamRoutesResponse :=
  hash ← match effectiveTeamCatalog config drivers with
         | Ok catalog => rmap_err CatalogInvalid (CatalogHash catalog)
         | Err _ => Ok ""
         end;
  Ok {| trr_SchemaVersion := APIVersion; trr_Config := config; trr_Drivers := drivers;
        trr_Routes := map (route_view drivers) (cf_Routes config); trr_CatalogHash := hash |}.

Definition persistTeamCatalog {D} (set : string -> file CapabilityCatalogV1 -> D -> D) (catalog : CapabilityCatalogV1)
    : io D ConfigError unit :=
  hash ← checked CatalogInvalid (CatalogHash catalog);
  writeJSONAtomic (set (hash +:+ ".json")) catalog.
Definition in_team_catalogs (name : string) : file CapabilityCatalogV1 -> world -> world := in_files (set_team_catalog name).

Definition ApplyTeamRoutes (catalog : CapabilityCatalogV1) (drivers : list TeamDriverStatus) : route_io unit := fun w fs =>
  match apply catalog drivers with
  | Some text => Raised (ConfigText text) w fs
  | None => Returned tt {| w_service := w_service w; w_files := w_files w; w_applied := w_applied w ++ [(catalog, drivers)] |} fs
  end.

Definition team_catalog_of (s : Service) : result ConfigError CapabilityCatalogV1 :=
  effectiveTeamCatalog (sv_teamConfig s) (sv_teamDrivers s).
Definition team_response_of (s : Service) : result ConfigError TeamRoutesResponse :=
  teamRoutesResponse (sv_teamConfig s) (sv_teamDrivers s).

Definition TeamCatalog : route_io CapabilityCatalogV1 := s ← service; checked id (team_catalog_of s).
Definition TeamRoutesGet : route_io TeamRoutesResponse := s ← service; checked id (team_response_of s).

Definition SetTeamRouteApplier : route_io unit :=
  _ ← memory (with_applier true);
  s ← service;
  match team_catalog_of s with
  | Err _ => mret tt
  | Ok catalog => ApplyTeamRoutes catalog (sv_teamDrivers s)
  end.

(** What a change of routes or drivers is followed by: the response is made, the
    catalog is written and given to the applier.  A catalog that cannot be made or
    written is no error. *)
Definition publish_routes : route_io TeamRoutesResponse :=
  s ← service;
  written ← attempt (catalog ← checked id (team_catalog_of s); _ ← persistTeamCatalog in_team_catalogs catalog; mret catalog);
  response ← checked id (team_response_of s);
  match written with
  | Err _ => mret response
  | Ok catalog =>
      _ ← (if sv_teamApplier s then ApplyTeamRoutes catalog (sv_teamDrivers s) else mret tt);
      mret response
  end.

Definition TeamRoutesRefresh (find : string -> lookup) (now : Z) : route_io TeamRoutesResponse :=
  let found := discoverTeamDrivers find now in
  _ ← memory (with_team_drivers (td_Drivers found));
  _ ← writeJSONAtomic (in_files set_team_drivers) found;
  publish_routes.

Definition changed_config (config : teamConfigFile) (routes : list TeamRouteSetting) (now : Z) (mutationID hash : string)
    : teamConfigFile :=
  let revision := wrap_int64 (cf_Revision config + 1) in {|
  cf_SchemaVersion := cf_SchemaVersion config; cf_Revision := revision; cf_Routes := routes; cf_UpdatedAt := now;
  cf_Mutations := add_receipt (cf_Mutations config) {| mu_MutationID := mutationID; mu_RequestHash := hash; mu_Revision := revision |} |}.

Definition mutateTeamRoutes (now : Z) (mutationID : string) (expectedRevision : Z) (requestHash : string)
    (change : list TeamRouteSetting -> result ConfigError (list TeamRouteSetting)) : route_io TeamRoutesMutationResponse :=
  s ← service;
  let config := sv_teamConfig s in
  match find_receipt mutationID (cf_Mutations config) with
  | Some receipt =>
      if mu_RequestHash receipt ≠s requestHash
      then refuse (Contract "conflict" "mutationId was already used with different content") else
      response ← checked id (team_response_of s);
      mret {| tmr_Response := response; tmr_Replayed := true |}
  | None =>
      if negb (expectedRevision =? cf_Revision config)
      then refuse (Contract "conflict" ("expected revision " +:+ pretty expectedRevision +:+ ", current revision is " +:+
                                        pretty (cf_Revision config))) else
      routes ← checked id (change (cf_Routes config));
      let routes := sort_routes routes in
      _ ← checked id (validateTeamRoutes routes);
      let changed := changed_config config routes now mutationID requestHash in
      _ ← memory (with_team_config changed);
      written ← attempt (writeJSONAtomic (in_files set_team_config) changed);
      match written with
      | Err e => _ ← memory (with_team_config config); refuse e
      | Ok _ =>
          response ← publish_routes;
          mret {| tmr_Response := response; tmr_Replayed := false |}
      end
  end.

(** The loop that replaces the first route of that id; a built-in route stays one. *)
Fixpoint replace_route (setting : TeamRouteSetting) (routes : list TeamRouteSetting) : option (list TeamRouteSetting) :=
  match routes with
  | [] => None
  | route :: routes =>
      if tr_RouteID route =s tr_RouteID setting then
        Some ((if tr_Source route =s TeamRouteBuiltin
               then {| tr_RouteID := tr_RouteID setting; tr_Driver := tr_Driver setting; tr_Provider := tr_Provider setting;
                       tr_Model := tr_Model setting; tr_Enabled := tr_Enabled setting; tr_Source := TeamRouteBuiltin |}
               else setting) :: routes)
      else rest ← replace_route setting routes; Some (route :: rest)
  end.
Definition upsert_route (setting : TeamRouteSetting) (routes : list TeamRouteSetting) : list TeamRouteSetting :=
  match replace_route setting routes with Some routes => routes | None => routes ++ [setting] end.

Definition TeamRouteUpsert (now : Z) (request : TeamRouteUpsertRequest) : route_io TeamRoutesMutationResponse :=
  let setting := {|
    tr_RouteID := trim_space (tu_RouteID request); tr_Driver := trim_space (tu_Driver request);
    tr_Provider := trim_space (tu_Provider request); tr_Model := trim_space (tu_Model request);
    tr_Enabled := tu_Enabled request; tr_Source := TeamRouteUser |} in
  _ ← checked id (validateTeamMutation (tu_SchemaVersion request) (tu_MutationID request) (tu_ExpectedRevision request));
  _ ← checked id (validateTeamRoute setting);
  mutateTeamRoutes now (tu_MutationID request) (tu_ExpectedRevision request) (teamMutationHash (upsert_json request))
    (fun routes => Ok (upsert_route setting routes)).

Definition remove_route (routeID : string) (routes : list TeamRouteSetting) : result ConfigError (list TeamRouteSetting) :=
  fail_if existsb (fun route => (tr_RouteID route =s routeID) && (tr_Source route =s TeamRouteBuiltin)) routes
    with Contract "invalid_argument" "built-in Team routes can be disabled but not removed" ;;
  Ok (List.filter (fun route => tr_RouteID route ≠s routeID) routes).

Definition TeamRouteRemove (now : Z) (request : TeamRouteRemoveRequest) : route_io TeamRoutesMutationResponse :=
  _ ← checked id (validateTeamMutation (tm_SchemaVersion request) (tm_MutationID request) (tm_ExpectedRevision request));
  if (trim_space (tm_RouteID request) =s "") || (tm_RouteID request ≠s trim_space (tm_RouteID request))
  then refuse (Contract "invalid_argument" "routeId is required without surrounding whitespace") else
  mutateTeamRoutes now (tm_MutationID request) (tm_ExpectedRevision request) (teamMutationHash (remove_json request))
    (remove_route (tm_RouteID request)).

(** ** Start-up *)

Definition legacy_route (model : ModelCapabilityV1) : TeamRouteSetting := {|
  tr_RouteID := mc_ID model; tr_Driver := Driver (mc_Target model); tr_Provider := Provider (mc_Target model);
  tr_Model := Model (mc_Target model); tr_Enabled := true; tr_Source := TeamRouteLegacyImport |}.

(** The team's configuration and drivers; [legacy] is the value of LoadCatalogFile
    where the environment names a file. *)
Definition loadTeamRoutes (find : string -> lookup) (now : Z) (legacy : option (result string CapabilityCatalogV1))
    : io route_files ConfigError (teamConfigFile * list TeamDriverStatus) :=
  read ← attempt (readJSONStrict rd_team_config);
  config ← match read with
           | Ok config => mret config
           | Err (FileFailed FileNotExist) =>
               routes ← match legacy with
                        | None => mret defaultTeamRoutes
                        | Some catalog => catalog ← checked ConfigText catalog; mret (map legacy_route (cat_Models catalog))
                        end;
               let config := {| cf_SchemaVersion := APIVersion; cf_Revision := 1; cf_Routes := sort_routes routes;
                                cf_UpdatedAt := now; cf_Mutations := [] |} in
               _ ← writeJSONAtomic set_team_config config;
               mret config
           | Err e => refuse e
           end;
  if (cf_SchemaVersion config ≠s APIVersion) || (cf_Revision config <? 1)
  then refuse (Contract "invalid_config" "Team route configuration version or revision is invalid") else
  _ ← checked id (validateTeamRoutes (cf_Routes config));
  let drivers := td_Drivers (discoverTeamDrivers find now) in
  _ ← read_or rd_team_drivers (discoverTeamDrivers find now) id;
  _ ← writeJSONAtomic set_team_drivers (discoverTeamDrivers find now);
  _ ← match effectiveTeamCatalog config drivers with
      | Ok catalog => persistTeamCatalog set_team_catalog catalog
      | Err _ => mret tt
      end;
  mret (config, drivers).

(** The names that ReadDir gives and whose extension is .json, in order *)
Definition json_names (dir : catalog_dir) : list string :=
  List.filter (fun name => bool_decide (suffix (to_list ".json") (to_list name))) (sort_strings (map fst (map_to_list dir))).

(** TeamCatalogHistory: a catalog counts if it is valid, whatever its name *)
Definition read_history (dir : route_files -> catalog_dir) (check : string -> CapabilityCatalogV1 -> result ConfigError unit)
    : io route_files ConfigError (list CapabilityCatalogV1) :=
  names ← call (fun d => (Ok (json_names (dir d)), d));
  (fix go (names : list string) : io route_files ConfigError (list CapabilityCatalogV1) :=
     match names with
     | [] => mret []
     | name :: names =>
         catalog ← readJSONStrict (fun d => default Absent (dir d !! name));
         _ ← checked id (check name catalog);
         rest ← go names;
         mret (catalog :: rest)
     end) names.
Definition TeamCatalogHistory : io route_files ConfigError (list CapabilityCatalogV1) :=
  read_history rd_team_catalogs (fun _ catalog => _ ← rmap_err CatalogInvalid (CatalogHash catalog); Ok tt).
End team.
