(* ===== verification/RoutingConfig.v ===== *)
(** * The routing configuration service

    internal/routingconfig/service.go: which models the engine may route to.  The
    configuration, what the Codex agent exposes and which models answered a probe
    decide the active catalog of the registry.

    Every section under the service's mutex is one function, with one reading of
    the clock.  The inspector's answers are arguments; while it is asked, and
    between the sections of EnsureTargetAvailable, other goroutines run
    ([others]).  A goroutine that copies the configuration copies the address of
    its routes: see RouteConfig. *)

From S2P Require Import Prelude GoText Routing Resolver Catalog Json Context Files RouteConfig TeamRoutes.
#[local] Open Scope string_scope.
#[local] Open Scope list_scope.
#[local] Open Scope Z_scope.

(** ** Profiles *)

Definition codex_profile (model : string) (efforts uses : list string) : ProductProfile := {|
  pp_RouteID := "codex/local/" +:+ model; pp_Model := model; pp_Qualified := true; pp_DefaultEffort := "medium";
  pp_Efforts := efforts; pp_UseCases := uses |}.
Definition ProductProfiles : list ProductProfile := [
  codex_profile "gpt-5.6-luna" ["low"; "medium"; "high"; "xhigh"; "max"] ["bounded low-cost work"; "independent comparison"];
  codex_profile "gpt-5.6-sol" ["low"; "medium"; "high"; "xhigh"; "max"; "ultra"]
    ["general workflow"; "repository implementation"; "complex reasoning"];
  codex_profile "gpt-5.6-terra" ["low"; "medium"; "high"; "xhigh"; "max"; "ultra"]
    ["quality-sensitive alternative"; "deep review"]].
Definition profileMap : gmap string ProductProfile :=
  fold_left (fun m profile => <[pp_RouteID profile := profile]> m) ProductProfiles ∅.

(** ** Predicates *)

Definition hasEnabledRoute (routes : list RouteSetting) : bool := existsb rs_Enabled routes.
Definition modelDiscovered (models : list ModelInfo) (model : string) : bool :=
  existsb (fun candidate => mi_Model candidate =s model) models.

Definition effectiveAvailability (entry : AvailabilityEntry) (now : Z) : string :=
  if (ae_Status entry ≠s AvailabilityAvailable) && (ae_Status entry ≠s AvailabilityUnavailable) then AvailabilityUnknown
  else match ae_ExpiresAt entry with
       | Some expires => if now <? expires then ae_Status entry else AvailabilityUnknown
       | None => AvailabilityUnknown
       end.

Definition validateConfig (config : configFile (list RouteSetting)) : result ConfigError unit :=
  fail_if (cf_SchemaVersion config ≠s APIVersion) || (cf_Revision config <? 1) || (cf_UpdatedAt config =? 0)
          || negb (len_slice (cf_Routes config) =? len_slice ProductProfiles)
    with Contract "invalid_config" "routing configuration header or route count is invalid" ;;
  _ ← range_loop (fun (seen : gset string) route =>
        fail_if match profileMap !! rs_RouteID route with None => true | Some _ => bool_decide (rs_RouteID route ∈ seen) end
          with Contract "invalid_config" "routing configuration contains an unknown or duplicate route" ;;
        Ok ({[rs_RouteID route]} ∪ seen)) ∅ (cf_Routes config);
  fail_if negb (hasEnabledRoute (cf_Routes config))
    with Contract "invalid_config" "at least one route must be enabled" ;;
  Ok tt.

(** The maps that the code fills from a list: a later element overwrites. *)
Definition enabled_map (routes : list RouteSetting) : gmap string bool :=
  fold_left (fun m setting => <[rs_RouteID setting := rs_Enabled setting]> m) routes ∅.
Definition entry_map (entries : list AvailabilityEntry) : gmap string AvailabilityEntry :=
  fold_left (fun m entry => <[ae_RouteID entry := entry]> m) entries ∅.
Definition enabled_in (routes : list RouteSetting) (id : string) : bool := default false (enabled_map routes !! id).

Definition setAvailability (entry : AvailabilityEntry) (entries : list AvailabilityEntry) : list AvailabilityEntry :=
  match list_find (fun e => ae_RouteID e = ae_RouteID entry) entries with
  | Some (index, _) => <[index := entry]> entries
  | None => sort_slice (fun x y => String.ltb (ae_RouteID x) (ae_RouteID y)) (entries ++ [entry])
  end.

(** ** The effective catalog *)

Definition with_models (models : list ModelCapabilityV1) (catalog : CapabilityCatalogV1) : CapabilityCatalogV1 := {|
  cat_SchemaVersion := cat_SchemaVersion catalog; cat_PolicyVersion := cat_PolicyVersion catalog; cat_Models := models |}.

Definition usable (routes : list RouteSetting) (models : list ModelInfo) (entries : list AvailabilityEntry) (now : Z)
    (model : ModelCapabilityV1) : bool :=
  enabled_in routes (mc_ID model) &&
  negb ((0 <? len_slice models) && negb (modelDiscovered models (Model (mc_Target model)))) &&
  match entry_map entries !! mc_ID model with
  | Some entry => effectiveAvailability entry now ≠s AvailabilityUnavailable
  | None => true
  end.
Definition effective_catalog (routes : list RouteSetting) (models : list ModelInfo) (entries : list AvailabilityEntry) (now : Z)
    : result ConfigError CapabilityCatalogV1 :=
  let base := BuiltinCodexCatalogV2 in
  match List.filter (usable routes models entries now) (cat_Models base) with
  | [] => Err (Contract "capability_unavailable" "no enabled Codex route is discovered and usable")
  | models => Ok (CanonicalCatalogV1 (with_models models base))
  end.
Definition buildEffectiveCatalog (now : Z) (s : Service) : result ConfigError CapabilityCatalogV1 :=
  effective_catalog (routes_of s) (df_Models (sv_discovery s)) (af_Entries (sv_available s)) now.

(** ** Requests and responses *)

Record ConfigUpdateRequest := {
  cu_SchemaVersion : string; cu_MutationID : string; cu_ExpectedRevision : Z; cu_RouteID : string; cu_Enabled : bool }.
Record ConfigUpdateResponse := { cur_Config : configFile (list RouteSetting); cur_Replayed : bool }.
Record ProbeRequest := { pb_SchemaVersion : string; pb_RouteIDs : list string }.
Record ProbeResult := { pr_Available : bool; pr_Diagnostic : string }.
Record ProbeResponse := { prr_Entries : list AvailabilityEntry; prr_CatalogHash : string }.
Record DiscoveryResponse := { dr_ObservedAt : Z; dr_Models : list ModelInfo; dr_Routes : list RouteView }.
Record EffectiveCatalogResponse := { ec_CatalogHash : string; ec_Catalog : CapabilityCatalogV1; ec_Routes : list RouteView }.
Record DriverView := {
  dv_Driver : string; dv_Provider : string; dv_WorkflowEligible : bool; dv_TeamEligible : bool; dv_Available : bool;
  dv_Executable : string; dv_Diagnostic : string; dv_ModelCount : Z; dv_LastDiscoveredAt : option Z }.

Definition ValidateReadRequest (schemaVersion : string) : result ConfigError unit :=
  fail_if schemaVersion ≠s APIVersion with Contract "unsupported_version" ("schemaVersion must be " +:+ APIVersion) ;; Ok tt.

(** cloneConfig copies the array; the receipts are not part of a Config. *)
Definition cloneConfig (s : Service) : configFile (list RouteSetting) :=
  let config := sv_config s in {|
  cf_SchemaVersion := cf_SchemaVersion config; cf_Revision := cf_Revision config; cf_Routes := routes_of s;
  cf_UpdatedAt := cf_UpdatedAt config; cf_Mutations := [] |}.
(** The configuration as it is written *)
Definition stored_config (s : Service) : configFile (list RouteSetting) :=
  let config := sv_config s in {|
  cf_SchemaVersion := cf_SchemaVersion config; cf_Revision := cf_Revision config; cf_Routes := routes_of s;
  cf_UpdatedAt := cf_UpdatedAt config; cf_Mutations := cf_Mutations config |}.

(** ** Views *)

Definition route_status (s : Service) (now : Z) (profile : ProductProfile) : RouteView :=
  let entry := entry_map (af_Entries (sv_available s)) !! pp_RouteID profile in
  let status := match entry with Some entry => effectiveAvailability entry now | None => AvailabilityUnknown end in
  let discovered := modelDiscovered (df_Models (sv_discovery s)) (pp_Model profile) in
  let enabled := enabled_in (routes_of s) (pp_RouteID profile) in {|
  rv_Profile := profile; rv_Discovered := discovered; rv_Enabled := enabled; rv_Availability := status;
  rv_Routable := pp_Qualified profile && discovered && enabled && (status =s AvailabilityAvailable);
  rv_Diagnostic := from_option ae_Diagnostic "" entry |}.
Definition routeViews (s : Service) (now : Z) : list RouteView := map (route_status s now) ProductProfiles.

Definition with_status (entry : AvailabilityEntry) (status : string) : AvailabilityEntry := {|
  ae_RouteID := ae_RouteID entry; ae_Model := ae_Model entry; ae_Status := status;
  ae_ReasoningEffort := ae_ReasoningEffort entry; ae_ObservedAt := ae_ObservedAt entry; ae_ExpiresAt := ae_ExpiresAt entry;
  ae_Diagnostic := ae_Diagnostic entry |}.
Definition allAvailability (s : Service) (now : Z) : list AvailabilityEntry :=
  map (fun profile =>
         match entry_map (af_Entries (sv_available s)) !! pp_RouteID profile with
         | Some entry => with_status entry (effectiveAvailability entry now)
         | None => {| ae_RouteID := pp_RouteID profile; ae_Model := pp_Model profile; ae_Status := AvailabilityUnknown;
                      ae_ReasoningEffort := ""; ae_ObservedAt := None; ae_ExpiresAt := None; ae_Diagnostic := "" |}
         end) ProductProfiles.

Definition driver_view (s : Service) (name : string) : DriverView :=
  let status := driver_map (sv_teamDrivers s) !! name in
  let models := len_slice (List.filter (fun route => (tr_Driver route =s name) && tr_Enabled route &&
                                                     driver_available (sv_teamDrivers s) (tr_Driver route))
                                       (cf_Routes (sv_teamConfig s))) in
  let found := len_slice (df_Models (sv_discovery s)) in
  let codex := name =s "codex" in {|
  dv_Driver := name; dv_Provider := if codex then "local" else "configured"; dv_WorkflowEligible := codex;
  dv_TeamEligible := 0 <? models; dv_Available := driver_available (sv_teamDrivers s) name;
  dv_Executable := from_option ds_Executable "" status; dv_Diagnostic := from_option ds_Diagnostic "" status;
  dv_ModelCount := if codex && (models <? found) then found else models;
  dv_LastDiscoveredAt := if codex && negb (df_ObservedAt (sv_discovery s) =? 0) then Some (df_ObservedAt (sv_discovery s)) else None |}.
Definition DriverList : route_io (list DriverView) :=
  s ← service; mret (map (driver_view s) ["claude"; "codex"; "opencode"]).

Section config.
  Context {SHA : Sha256} {CD : CatalogDigest}.

(** ** The active catalog *)

Definition catalog_name (hash : string) : string := hash +:+ ".json".
Definition persistActiveCatalog {D} (set : string -> file CapabilityCatalogV1 -> D -> D) (registry : CatalogRegistry)
    : io D ConfigError unit :=
  '(catalog, hash) ← checked RegistryFailed (ActiveCatalog registry);
  writeJSONAtomic (set (catalog_name hash)) catalog.
Definition in_catalogs (name : string) : file CapabilityCatalogV1 -> world -> world := in_files (set_catalog name).

Definition rebuildActiveCatalog (now : Z) : route_io unit :=
  s ← service;
  catalog ← checked id (buildEffectiveCatalog now s);
  '(registry, _) ← checked RegistryFailed (SetActive (sv_registry s) catalog);
  _ ← memory (with_registry registry);
  persistActiveCatalog in_catalogs registry.

(** Service.ActiveCatalog and Service.CatalogByHash ask the registry. *)
Definition Service_ActiveCatalog : route_io (CapabilityCatalogV1 * string) :=
  s ← service; checked RegistryFailed (ActiveCatalog (sv_registry s)).
Definition Service_CatalogByHash (hash : string) : route_io (option CapabilityCatalogV1) :=
  s ← service; mret (CatalogByHash (sv_registry s) hash).

Definition ConfigGet : route_io (configFile (list RouteSetting)) := s ← service; mret (cloneConfig s).
Definition Availability (now : Z) : route_io (list AvailabilityEntry) := s ← service; mret (allAvailability s now).
Definition EffectiveCatalog (now : Z) : route_io EffectiveCatalogResponse :=
  s ← service;
  '(catalog, hash) ← checked RegistryFailed (ActiveCatalog (sv_registry s));
  mret {| ec_CatalogHash := hash; ec_Catalog := catalog; ec_Routes := routeViews s now |}.

(** ** Changing the configuration *)

Definition updateRequestHash (request : ConfigUpdateRequest) : string :=
  hashBytes (json_object [("routeId", json_string (cu_RouteID request)); ("enabled", json_bool (cu_Enabled request))]).

(** The loop that sets the flag, in the array itself *)
Definition set_enabled (routeID : string) (enabled : bool) (routes : list RouteSetting) : list RouteSetting :=
  map (fun setting => if rs_RouteID setting =s routeID then {| rs_RouteID := rs_RouteID setting; rs_Enabled := enabled |} else setting) routes.
Definition next_config (now : Z) (mutationID hash : string) (config : configFile nat) : configFile nat :=
  let revision := wrap_int64 (cf_Revision config + 1) in {|
  cf_SchemaVersion := cf_SchemaVersion config; cf_Revision := revision; cf_Routes := cf_Routes config; cf_UpdatedAt := now;
  cf_Mutations := add_receipt (cf_Mutations config) {| mu_MutationID := mutationID; mu_RequestHash := hash; mu_Revision := revision |} |}.

Definition check_update (request : ConfigUpdateRequest) : result ConfigError unit :=
  fail_if (cu_SchemaVersion request ≠s APIVersion) || (trim_space (cu_MutationID request) =s "") || (256 <? len (cu_MutationID request))
    with Contract "invalid_argument" "valid schemaVersion and mutationId are required" ;;
  fail_if negb (bool_decide (is_Some (profileMap !! cu_RouteID request)))
    with Contract "invalid_argument" "routeId is not product-qualified" ;;
  Ok tt.

(** The rest of ConfigUpdate once the request is new and its revision the current one *)
Definition apply_update (now : Z) (request : ConfigUpdateRequest) (previous : configFile nat) : route_io ConfigUpdateResponse :=
  let a := cf_Routes previous in
  _ ← memory (fun s => with_array a (set_enabled (cu_RouteID request) (cu_Enabled request) (array_at a s)) s);
  s ← service;
  if negb (hasEnabledRoute (routes_of s)) then
    _ ← memory (with_config previous);
    refuse (Contract "invalid_argument" "at least one product-qualified route must remain enabled")
  else
    _ ← memory (with_config (next_config now (cu_MutationID request) (updateRequestHash request) previous));
    rebuilt ← attempt (rebuildActiveCatalog now);
    match rebuilt with
    | Err e => _ ← memory (with_config previous); refuse e
    | Ok _ =>
        s ← service;
        written ← attempt (writeJSONAtomic (in_files set_config) (stored_config s));
        match written with
        | Err e =>
            _ ← memory (with_config previous);
            _ ← attempt (rebuildActiveCatalog now);
            refuse e
        | Ok _ => s ← service; mret {| cur_Config := cloneConfig s; cur_Replayed := false |}
        end
    end.

Definition ConfigUpdate (now : Z) (request : ConfigUpdateRequest) : route_io ConfigUpdateResponse :=
  _ ← checked id (check_update request);
  s ← service;
  let config := sv_config s in
  match find_receipt (cu_MutationID request) (cf_Mutations config) with
  | Some receipt =>
      if mu_RequestHash receipt ≠s updateRequestHash request
      then refuse (Contract "conflict" "mutationId was already used with different content")
      else mret {| cur_Config := cloneConfig s; cur_Replayed := true |}
  | None =>
      if negb (cu_ExpectedRevision request =? cf_Revision config)
      then refuse (Contract "conflict" ("expected revision " +:+ pretty (cu_ExpectedRevision request) +:+
                                        ", current revision is " +:+ pretty (cf_Revision config)))
      else apply_update now request config
  end.

(** ** Discovery and probes *)

(** Discover with a present inspector and its answer *)
Definition Discover (now : Z) (answer : result string (list ModelInfo)) : route_io DiscoveryResponse :=
  models ← checked (fun text => Contract "discovery_failed" (boundedDiagnostic text)) answer;
  let found := {| df_SchemaVersion := discoveryVersion; df_ObservedAt := now; df_Models := models |} in
  _ ← memory (with_discovery found);
  _ ← writeJSONAtomic (in_files set_discovery) found;
  _ ← rebuildActiveCatalog now;
  s ← service;
  mret {| dr_ObservedAt := now; dr_Models := models; dr_Routes := routeViews s now |}.

Definition select_one (models : list ModelInfo) (acc : gset string * list ProductProfile) (id : string)
    : result ConfigError (gset string * list ProductProfile) :=
  let '(seen, selected) := acc in
  match profileMap !! id with
  | Some profile =>
      fail_if bool_decide (id ∈ seen) with Contract "invalid_argument" "routeIds contain an unknown or duplicate route" ;;
      fail_if (0 <? len_slice models) && negb (modelDiscovered models (pp_Model profile))
        with Contract "capability_unavailable" ("route " +:+ id +:+ " was not discovered by Codex") ;;
      Ok ({[id]} ∪ seen, selected ++ [profile])
  | None => Err (Contract "invalid_argument" "routeIds contain an unknown or duplicate route")
  end.
Definition selectedProfiles (s : Service) (routeIDs : list string) : result ConfigError (list ProductProfile) :=
  let routeIDs := match routeIDs with
                  | [] => map rs_RouteID (List.filter rs_Enabled (routes_of s))
                  | _ => routeIDs
                  end in
  '(_, selected) ← range_loop (select_one (df_Models (sv_discovery s))) (∅, []) routeIDs;
  Ok selected.

(** What the inspector says of a profile, and when it has said so *)
Abbreviation probes := (ProductProfile -> ProbeResult * Z).
Definition probe_entry (probe : probes) (profile : ProductProfile) : AvailabilityEntry :=
  let '(result, now) := probe profile in {|
  ae_RouteID := pp_RouteID profile; ae_Model := pp_Model profile;
  ae_Status := if pr_Available result then AvailabilityAvailable else AvailabilityUnavailable;
  ae_ReasoningEffort := pp_DefaultEffort profile; ae_ObservedAt := Some now; ae_ExpiresAt := Some (now + availabilityTTL);
  ae_Diagnostic := boundedDiagnostic (pr_Diagnostic result) |}.

Definition commit_probe (now : Z) (entries : list AvailabilityEntry) : route_io ProbeResponse :=
  _ ← memory (fun s => with_available {|
        af_SchemaVersion := af_SchemaVersion (sv_available s);
        af_Entries := fold_left (fun all entry => setAvailability entry all) entries (af_Entries (sv_available s)) |} s);
  s ← service;
  _ ← writeJSONAtomic (in_files set_available) (sv_available s);
  _ ← rebuildActiveCatalog now;
  s ← service;
  '(_, hash) ← checked RegistryFailed (ActiveCatalog (sv_registry s));
  mret {| prr_Entries := entries; prr_CatalogHash := hash |}.

Definition Probe (probe : probes) (others_run : world -> world) (now : Z) (request : ProbeRequest) : route_io ProbeResponse :=
  if pb_SchemaVersion request ≠s APIVersion
  then refuse (Contract "unsupported_version" ("schemaVersion must be " +:+ APIVersion)) else
  s ← service;
  profiles ← checked id (selectedProfiles s (pb_RouteIDs request));
  _ ← others others_run;
  commit_probe now (map (probe_entry probe) profiles).

(** The first section of EnsureTargetAvailable: the status of a target that may be used *)
Definition target_status (now : Z) (target : Target) (s : Service) : result ConfigError string :=
  let routeID := Driver target +:+ "/" +:+ Provider target +:+ "/" +:+ Model target in
  fail_if match profileMap !! routeID with Some profile => pp_Model profile ≠s Model target | None => true end
    with Contract "capability_unavailable" ("Codex route " +:+ routeID +:+ " is not product-qualified") ;;
  fail_if negb match List.find (fun setting => rs_RouteID setting =s routeID) (routes_of s) with
               | Some setting => rs_Enabled setting
               | None => false
               end
    with Contract "model_unavailable" ("Codex route " +:+ routeID +:+ " is disabled") ;;
  let models := df_Models (sv_discovery s) in
  fail_if (0 <? len_slice models) && negb (modelDiscovered models (Model target))
    with Contract "model_unavailable" ("Codex route " +:+ routeID +:+ " is not exposed by the installed Codex Agent") ;;
  Ok match List.find (fun entry => ae_RouteID entry =s routeID) (af_Entries (sv_available s)) with
     | Some entry => effectiveAvailability entry now
     | None => ""
     end.

(** The last loop: the first entry of the route whose status is known *)
Fixpoint known_status (routeID : string) (now : Z) (entries : list AvailabilityEntry) : option string :=
  match entries with
  | [] => None
  | entry :: entries =>
      let status := effectiveAvailability entry now in
      if (ae_RouteID entry =s routeID) && ((status =s AvailabilityAvailable) || (status =s AvailabilityUnavailable))
      then Some status else known_status routeID now entries
  end.

Definition EnsureTargetAvailable (probe : probes) (others_before others_during others_after : world -> world) (now1 now2 now3 : Z)
    (target : Target) : route_io unit :=
  if (Driver target ≠s "codex") || (Provider target ≠s "local")
  then refuse (Contract "capability_unavailable" "Workflow dynamic routing currently supports only codex/local") else
  let routeID := Driver target +:+ "/" +:+ Provider target +:+ "/" +:+ Model target in
  s ← service;
  status ← checked id (target_status now1 target s);
  if status =s AvailabilityAvailable then mret tt
  else if status =s AvailabilityUnavailable
  then refuse (Contract "model_unavailable" ("Codex route " +:+ routeID +:+ " is unavailable")) else
  _ ← others others_before;
  probed ← attempt (Probe probe others_during now2 {| pb_SchemaVersion := APIVersion; pb_RouteIDs := [routeID] |});
  _ ← others others_after;
  s ← service;
  let failed := Contract "model_unavailable" ("Codex route " +:+ routeID +:+ " failed its active probe") in
  match known_status routeID now3 (af_Entries (sv_available s)) with
  | Some status => if status =s AvailabilityAvailable then mret tt else refuse failed
  | None => match probed with Err e => refuse e | Ok _ => refuse failed end
  end.

(** ** Start-up *)

Definition default_config (now : Z) : configFile (list RouteSetting) := {|
  cf_SchemaVersion := APIVersion; cf_Revision := 1;
  cf_Routes := map (fun profile => {| rs_RouteID := pp_RouteID profile; rs_Enabled := true |}) ProductProfiles;
  cf_UpdatedAt := now; cf_Mutations := [] |}.

Definition load (now : Z) : io route_files ConfigError (configFile (list RouteSetting) * discoveryFile * availabilityFile) :=
  read ← attempt (readJSONStrict rd_config);
  config ← match read with
           | Ok config => mret config
           | Err (FileFailed FileNotExist) => _ ← writeJSONAtomic set_config (default_config now); mret (default_config now)
           | Err e => refuse e
           end;
  _ ← checked id (validateConfig config);
  discovery ← read_or rd_discovery {| df_SchemaVersion := discoveryVersion; df_ObservedAt := 0; df_Models := [] |} id;
  available ← read_or rd_available {| af_SchemaVersion := availabilityVersion; af_Entries := [] |} id;
  mret (config, discovery, available).

(** loadCatalogSnapshots: every file is named by the hash of its catalog *)
Definition check_snapshot (name : string) (catalog : CapabilityCatalogV1) : result ConfigError unit :=
  match CatalogHash catalog with
  | Ok hash => fail_if name ≠s catalog_name hash with ConfigText "routing catalog snapshot does not match its content hash" ;; Ok tt
  | Err _ => Err (ConfigText "routing catalog snapshot does not match its content hash")
  end.
Definition loadCatalogSnapshots : io route_files ConfigError (list CapabilityCatalogV1) := read_history rd_catalogs check_snapshot.

(** A slice's array as it is allocated: the only one there is *)
Definition in_memory (config : configFile (list RouteSetting)) : configFile nat := {|
  cf_SchemaVersion := cf_SchemaVersion config; cf_Revision := cf_Revision config; cf_Routes := 0%nat;
  cf_UpdatedAt := cf_UpdatedAt config; cf_Mutations := cf_Mutations config |}.

Definition NewService (find : string -> lookup) (legacy : option (result string CapabilityCatalogV1)) (now : Z)
    : io route_files ConfigError Service :=
  '(config, discovery, available) ← load now;
  '(teamConfig, teamDrivers) ← loadTeamRoutes find now legacy;
  historical ← loadCatalogSnapshots;
  active ← checked id (effective_catalog (cf_Routes config) (df_Models discovery) (af_Entries available) now);
  registry ← checked RegistryFailed (NewCatalogRegistry active (historical ++ [BuiltinCatalogV1]));
  _ ← persistActiveCatalog set_catalog registry;
  mret {| sv_config := in_memory config; sv_arrays := {[0%nat := cf_Routes config]}; sv_discovery := discovery;
          sv_available := available; sv_registry := registry; sv_teamConfig := teamConfig; sv_teamDrivers := teamDrivers;
          sv_teamApplier := false |}.
End config.
