(* ===== verification/RoutingSystem.v ===== *)
(** * The routing service over its life

    Its methods as requests, and the system that performs them: a process serves
    requests, any call can fail, the process ends or dies at any point, and a later
    one starts from the files. *)

From S2P Require Import Prelude GoText Routing Resolver Catalog Context Files RouteConfig TeamRoutes.
From S2P Require Import RoutingConfig CatalogTheory.
#[local] Open Scope string_scope.
#[local] Open Scope list_scope.
#[local] Open Scope Z_scope.

Section calls.
  Context {W : Type} (D : W -> Prop) (E : ConfigError -> W -> Prop).

Lemma ends_write {V} (set : file V -> W -> W) v (Q : unit -> W -> Prop) w :
  D w -> (forall e, E e w) -> Q tt (set (Holds v) w) -> ends D E Q w (writeJSONAtomic set v).
Proof.
  intros HD HE HQ. apply ends_bind. apply ends_call; [done|done|]. cbn. by apply ends_call.
Qed.

Lemma ends_read {V} (get : W -> file V) (Q : V -> W -> Prop) w :
  D w -> (forall e, E e w) -> (forall v, get w = Holds v -> Q v w) -> ends D E Q w (readJSONStrict get).
Proof. intros HD HE HQ. apply ends_call; [done|done|]. destruct (get w); auto. Qed.

(** What a read says is true, unless the call itself fails. *)
Lemma ends_read_attempt {V} (get : W -> file V) (Q : result ConfigError V -> W -> Prop) w :
  D w -> (forall v, get w = Holds v -> Q (Ok v) w) -> (get w = Absent -> Q (Err (FileFailed FileNotExist)) w) ->
  (forall f, f <> FileNotExist -> Q (Err (FileFailed f)) w) -> ends D E Q w (attempt (readJSONStrict get)).
Proof.
  intros HD Hok Habs Herr. apply ends_attempt. intros fs. unfold readJSONStrict, readJSON, call.
  destruct fs as [|[] fs]; destruct (get w) eqn:Hg; cbn; auto; by apply Herr.
Qed.

Lemma ends_read_or {V} (get : W -> file V) (v0 : V) wrap (Q : V -> W -> Prop) w :
  D w -> (forall e, E e w) -> (forall v, get w = Holds v -> Q v w) -> (get w = Absent -> Q v0 w) ->
  ends D E Q w (read_or get v0 wrap).
Proof.
  intros HD HE Hok Habs. apply ends_bind. apply ends_read_attempt; [done|..].
  - intros v Hv. apply ends_ret. auto.
  - intros Ha. apply ends_ret. auto.
  - intros f Hf. destruct f; [done|..]; by apply ends_refuse.
Qed.
End calls.

Lemma ends_service D E Q w : Q (w_service w) w -> ends D E Q w service.
Proof. by intros H fs. Qed.
Lemma ends_memory D E Q change w :
  Q tt {| w_service := change (w_service w); w_files := w_files w; w_applied := w_applied w |} -> ends D E Q w (memory change).
Proof. by intros H fs. Qed.

(** ** Requests *)

Inductive request :=
| AskUpdate (r : ConfigUpdateRequest)
| AskDiscover (answer : result string (list ModelInfo))
| AskProbe (entries : list AvailabilityEntry)            (* what the inspector has said *)
| AskRefresh (find : string -> lookup)
| AskUpsert (r : TeamRouteUpsertRequest)
| AskRemove (r : TeamRouteRemoveRequest)
| AskApplier.

Definition done_with {W X A} (m : io W X A) : io W X unit := _ ← m; mret tt.

Section system.
  Context {SHA : Sha256} {CD : CatalogDigest}.
  Context (apply : CapabilityCatalogV1 -> list TeamDriverStatus -> option string).

Definition perform (now : Z) (a : request) : route_io unit :=
  match a with
  | AskUpdate r => done_with (ConfigUpdate now r)
  | AskDiscover answer => done_with (Discover now answer)
  | AskProbe entries => done_with (commit_probe now entries)
  | AskRefresh find => done_with (TeamRoutesRefresh apply find now)
  | AskUpsert r => done_with (TeamRouteUpsert apply now r)
  | AskRemove r => done_with (TeamRouteRemove apply now r)
  | AskApplier => SetTeamRouteApplier apply
  end.

Inductive system := Running (w : world) | Stopped (d : route_files).
Definition files_of (y : system) : route_files := match y with Running w => w_files w | Stopped d => d end.

Definition performed (o : io_end world ConfigError unit) : system :=
  match o with Returned _ w _ | Raised _ w _ => Running w | Died w => Stopped (w_files w) end.
Definition started (o : io_end route_files ConfigError Service) : system :=
  match o with
  | Returned s d _ => Running {| w_service := s; w_files := d; w_applied := [] |}
  | Raised _ d _ | Died d => Stopped d
  end.

Inductive step : system -> system -> Prop :=
| step_perform (now : Z) (a : request) (w : world) (fs : list fate) : step (Running w) (performed (perform now a w fs))
| step_exit (w : world) : step (Running w) (Stopped (w_files w))
| step_start (find : string -> lookup) (legacy : option (result string CapabilityCatalogV1)) (now : Z) (d : route_files) (fs : list fate) :
    step (Stopped d) (started (NewService find legacy now d fs)).

(** A property of the files and of the service alone *)
Definition holds (F : route_files -> Prop) (S : Service -> Prop) (w : world) : Prop := F (w_files w) /\ S (w_service w).
Definition system_holds (F : route_files -> Prop) (S : Service -> Prop) (y : system) : Prop :=
  match y with Running w => holds F S w | Stopped d => F d end.

(** [m] keeps it however it goes; a service that dies leaves its files. *)
Abbreviation keeps F S w m := (ends (fun w => F (w_files w)) (fun _ => holds F S) (fun _ => holds F S) w m).

Lemma step_holds F S y y' :
  step y y' -> system_holds F S y ->
  (forall now a w, holds F S w -> keeps F S w (perform now a)) ->
  (forall find legacy now d, F d -> ends F (fun _ => F) (fun s d => F d /\ S s) d (NewService find legacy now)) ->
  system_holds F S y'.
Proof.
  intros Hstep Hy Hperform Hstart. destruct Hstep as [now a w fs|w|find legacy now d fs]; cbn in Hy.
  - specialize (Hperform now a w Hy fs). by destruct (perform now a w fs).
  - apply Hy.
  - specialize (Hstart find legacy now d Hy fs). by destruct (NewService find legacy now d fs).
Qed.
End system.

(** * What the routing service keeps

    An invariant of the service is made of what holds of its configuration, its
    registry and its team routes, and of the files of each.  [perform_keeps] and
    [NewService_keeps] reduce it to what it means for the few changes there are. *)

(** [read_history] returns every catalog of the directory. *)
Lemma read_history_ends dir check d (D : route_files -> Prop) (E : ConfigError -> route_files -> Prop) (Q : list CapabilityCatalogV1 -> route_files -> Prop) :
  D d -> (forall e, E e d) ->
  (forall l, (forall name c, suffix (to_list ".json") (to_list name) -> dir d !! name = Some (Holds c) -> c ∈ l) ->
             (forall c, c ∈ l -> exists name, check name c = Ok tt) -> Q l d) ->
  ends D E Q d (read_history dir check).
Proof.
  intros HD HE HQ. unfold read_history. apply ends_bind, ends_call; [done|done|].
  match goal with |- ends _ _ _ _ (?go _) => assert (forall names (Q : list CapabilityCatalogV1 -> route_files -> Prop),
    (forall l, (forall name c, name ∈ names -> dir d !! name = Some (Holds c) -> c ∈ l) ->
               (forall c, c ∈ l -> exists name, check name c = Ok tt) -> Q l d) -> ends D E Q d (go names)) as Hgo end.
  { intros names. induction names as [|name names IH]; intros P HP.
    - apply ends_ret, HP; [intros n c Hn; by apply not_elem_of_nil in Hn|intros c Hc; by apply not_elem_of_nil in Hc].
    - apply ends_bind, ends_read; [done|done|]. intros c Hc. apply ends_bind, ends_checked; [|done].
      intros [] Hcheck. apply ends_bind, IH. intros l Hall Hl. apply ends_ret, HP.
      + intros n c' [->|Hn]%elem_of_cons Hlook; [|by apply list_elem_of_further, (Hall n)].
        rewrite Hlook in Hc. cbn in Hc. injection Hc as ->. by apply list_elem_of_here.
      + intros c' [->|Hc']%elem_of_cons; [by exists name|by apply Hl]. }
  apply Hgo. intros l Hall Hl. apply HQ; [|done]. intros name c Hsuf Hlook. apply (Hall name); [|done].
  unfold json_names. apply list_elem_of_In, filter_In. split; [|by apply bool_decide_eq_true].
  apply list_elem_of_In. unfold sort_strings. rewrite sort_slice_elem. apply list_elem_of_fmap. exists (name, Holds c). split; [done|].
  by apply elem_of_map_to_list.
Qed.

Section keeps.
  Context {SHA : Sha256} {CD : CatalogDigest}.
  Context (apply : CapabilityCatalogV1 -> list TeamDriverStatus -> option string).
  (* before a request, and after it *)
  Context (SC0 SC : configFile nat -> Prop) (ST0 ST : teamConfigFile -> Prop) (SR : CatalogRegistry -> Prop).
  Context (FC : file (configFile (list RouteSetting)) -> Prop) (FR : catalog_dir -> Prop) (FT : file teamConfigFile -> Prop).

Definition files_ok (d : route_files) : Prop := FC (rd_config d) /\ FR (rd_catalogs d) /\ FT (rd_team_config d).
Definition service_ok (s : Service) : Prop := SC (sv_config s) /\ SR (sv_registry s) /\ ST (sv_teamConfig s).
Definition before_ok (s : Service) : Prop := SC0 (sv_config s) /\ SR (sv_registry s) /\ ST0 (sv_teamConfig s).

Record changes_kept : Prop := {
  kc_config : forall c, SC0 c -> SC c;
  kc_next : forall now id hash c, SC0 c -> SC (next_config now id hash c);
  kc_stored : forall s, SC (sv_config s) -> FC (Holds (stored_config s));
  kc_registry : forall r c r' h, SR r -> SetActive r c = Ok (r', h) -> SR r';
  kc_active : forall r c h m, SR r -> FR m -> ActiveCatalog r = Ok (c, h) -> FR (<[catalog_name h := Holds c]> m);
  kc_team : forall c, ST0 c -> ST c;
  kc_changed : forall c routes now id hash, ST0 c -> validateTeamRoutes routes = Ok tt -> ST (changed_config c routes now id hash);
  kc_team_stored : forall c, ST c -> FT (Holds c) }.

Context (kept : changes_kept).
Abbreviation ok := (holds files_ok service_ok).
Abbreviation keeps w m := (ends (fun w => files_ok (w_files w)) (fun _ => ok) (fun _ => ok) w m).

Lemma ok_files w : ok w -> files_ok (w_files w).
Proof. by intros []. Qed.

Lemma rebuild_keeps now w : ok w -> keeps w (rebuildActiveCatalog now).
Proof.
  intros Hok. unfold rebuildActiveCatalog. apply ends_bind, ends_service.
  apply ends_bind, ends_checked; [|done]. intros catalog _.
  apply ends_bind, ends_checked; [|done]. intros [registry h] Hset. apply ends_bind, ends_memory.
  destruct Hok as [Hf (Hc & Hr & Ht)]. pose proof (kc_registry kept _ _ _ _ Hr Hset) as Hr'.
  assert (holds files_ok service_ok {| w_service := with_registry registry (w_service w); w_files := w_files w; w_applied := w_applied w |}) as Hok
    by (split; [done|split_and!; done]).
  unfold persistActiveCatalog. apply ends_bind, ends_checked; [|done]. intros [catalog' h'] Hact.
  apply ends_write; [done|done|]. split; [|apply Hok]. destruct Hf as (Hfc & Hfr & Hft). split_and!; [done| |done].
  by apply (kc_active kept registry).
Qed.

Lemma publish_keeps w : ok w -> keeps w (publish_routes apply).
Proof.
  intros Hok. unfold publish_routes. apply ends_bind, ends_service. apply ends_bind, ends_attempt.
  assert (forall (r : result ConfigError CapabilityCatalogV1) w', ok w' -> keeps w' (response ← checked id (team_response_of (w_service w));
     match r with Err _ => mret response | Ok catalog =>
       _ ← (if sv_teamApplier (w_service w) then ApplyTeamRoutes apply catalog (sv_teamDrivers (w_service w)) else mret tt); mret response end)) as Hrest.
  { intros r w' Hok'. apply ends_bind, ends_checked; [|done]. intros response _. destruct r as [catalog|]; [|by apply ends_ret].
    apply ends_bind. apply ends_if; intros _; [|by apply ends_ret, ends_ret].
    intros fs. unfold ApplyTeamRoutes. destruct (apply _ _); [done|]. by apply (ends_ret (fun w => files_ok (w_files w)) (fun _ => ok)). }
  apply ends_bind, ends_checked; [intros catalog _|intros e _; exact (Hrest (Err e) w Hok)].
  apply ends_bind. unfold persistTeamCatalog. apply ends_bind, ends_checked; [intros h _|intros e _; exact (Hrest (Err (CatalogInvalid e)) w Hok)].
  apply ends_write; [by apply ok_files|intros e; exact (Hrest (Err e) w Hok)|]. apply ends_ret, (Hrest (Ok catalog)).
  destruct Hok as [Hf Hs]. by split.
Qed.

Lemma update_keeps now r w : holds files_ok before_ok w -> keeps w (ConfigUpdate now r).
Proof.
  intros [Hf (Hc & Hr & Ht)]. assert (holds files_ok service_ok w) as Hok
    by (split; [done|split_and!; [by apply (kc_config kept)|done|by apply (kc_team kept)]]).
  unfold ConfigUpdate. apply ends_bind, ends_checked; [intros _ _|done]. apply ends_bind, ends_service.
  destruct (find_receipt _ _) as [receipt|].
  { apply ends_if; intros _; [by apply ends_refuse|by apply ends_ret]. }
  apply ends_if; intros _; [by apply ends_refuse|]. unfold apply_update. apply ends_bind, ends_memory. apply ends_bind, ends_service.
  assert (forall w' e, ok w' -> keeps w' (_ ← memory (with_config (sv_config (w_service w))); (refuse e : route_io ConfigUpdateResponse))) as Hback.
  { intros w' e [Hf' (_ & Hr' & Ht')]. apply ends_bind, ends_memory, ends_refuse. split; [done|].
    split_and!; [by apply (kc_config kept)|done|done]. }
  apply ends_if; intros _.
  { apply Hback. split; [done|]. split_and!; [by apply (kc_config kept)|done|by apply (kc_team kept)]. }
  apply ends_bind, ends_memory. apply ends_bind, ends_attempt.
  eapply ends_mono; [apply rebuild_keeps|done| |].
  - split; [done|]. split_and!; [by apply (kc_next kept)|done|by apply (kc_team kept)].
  - intros e w' Hw'. by apply Hback.
  - intros u w' Hw'. apply ends_bind, ends_service. apply ends_bind, ends_attempt.
    apply ends_write; [by apply ok_files| |].
    + intros e. destruct Hw' as [Hf' (_ & Hr' & Ht')]. apply ends_bind, ends_memory. apply ends_bind, ends_attempt.
      eapply ends_mono; [apply rebuild_keeps|done| |].
      * split; [done|]. split_and!; [by apply (kc_config kept)|done|done].
      * intros e' w'' Hw''. by apply ends_refuse.
      * intros u2 w'' Hw''. by apply ends_refuse.
    + apply ends_bind, ends_service, ends_ret. destruct Hw' as [(Hfc & Hfr & Hft) Hs']. split; [|done].
      split_and!; [|done|done]. apply (kc_stored kept), Hs'.
Qed.

Lemma discover_keeps now answer w : ok w -> keeps w (Discover now answer).
Proof.
  intros Hok. unfold Discover. apply ends_bind, ends_checked; [intros models _|done]. apply ends_bind, ends_memory.
  apply ends_bind, ends_write; [by apply ok_files|done|]. apply ends_bind.
  eapply ends_mono; [by apply rebuild_keeps|done|done|]. intros u w' Hw'. by apply ends_bind, ends_service, ends_ret.
Qed.

Lemma probe_keeps now entries w : ok w -> keeps w (commit_probe now entries).
Proof.
  intros Hok. unfold commit_probe. apply ends_bind, ends_memory. apply ends_bind, ends_service.
  apply ends_bind, ends_write; [by apply ok_files|done|]. apply ends_bind.
  eapply ends_mono; [by apply rebuild_keeps|done|done|]. intros u w' Hw'. apply ends_bind, ends_service.
  apply ends_bind, ends_checked; [|done]. intros [catalog h] _. by apply ends_ret.
Qed.

Lemma refresh_keeps find now w : ok w -> keeps w (TeamRoutesRefresh apply find now).
Proof.
  intros Hok. unfold TeamRoutesRefresh. apply ends_bind, ends_memory. apply ends_bind, ends_write; [by apply ok_files|done|].
  by apply publish_keeps.
Qed.

Lemma mutate_keeps now id revision hash change w : holds files_ok before_ok w -> keeps w (mutateTeamRoutes apply now id revision hash change).
Proof.
  intros [Hf (Hc & Hr & Ht)]. assert (holds files_ok service_ok w) as Hok
    by (split; [done|split_and!; [by apply (kc_config kept)|done|by apply (kc_team kept)]]).
  unfold mutateTeamRoutes. apply ends_bind, ends_service. destruct (find_receipt _ _) as [receipt|].
  { apply ends_if; intros _; [by apply ends_refuse|]. apply ends_bind, ends_checked; [|done]. intros response _. by apply ends_ret. }
  apply ends_if; intros _; [by apply ends_refuse|]. apply ends_bind, ends_checked; [|done]. intros routes _.
  apply ends_bind, ends_checked; [|done]. intros [] Hvalid. apply ends_bind, ends_memory.
  pose proof (kc_changed kept _ _ now id hash Ht Hvalid) as Ht'. apply ends_bind, ends_attempt.
  apply ends_write; [done| |].
  - intros e. apply ends_bind, ends_memory, ends_refuse. split; [done|].
    split_and!; [by apply (kc_config kept)|done|by apply (kc_team kept)].
  - apply ends_bind. destruct Hf as (Hfc & Hfr & Hft). eapply ends_mono; [apply publish_keeps|done|done|].
    + split; [split_and!; [done|done|by apply (kc_team_stored kept)]|]. split_and!; [by apply (kc_config kept)|done|done].
    + intros response w' Hw'. by apply ends_ret.
Qed.

Lemma perform_keeps now a w : holds files_ok before_ok w -> keeps w (perform apply now a).
Proof.
  intros Hpre. assert (holds files_ok service_ok w) as Hok.
  { destruct Hpre as [Hf (Hc & Hr & Ht)]. split; [done|split_and!; [by apply (kc_config kept)|done|by apply (kc_team kept)]]. }
  destruct a; cbn [perform]; unfold done_with.
  - apply ends_bind. eapply ends_mono; [by apply update_keeps|done|done|]. intros ? ? ?. by apply ends_ret.
  - apply ends_bind. eapply ends_mono; [by apply discover_keeps|done|done|]. intros ? ? ?. by apply ends_ret.
  - apply ends_bind. eapply ends_mono; [by apply probe_keeps|done|done|]. intros ? ? ?. by apply ends_ret.
  - apply ends_bind. eapply ends_mono; [by apply refresh_keeps|done|done|]. intros ? ? ?. by apply ends_ret.
  - apply ends_bind. unfold TeamRouteUpsert. apply ends_bind, ends_checked; [intros _ _|done].
    apply ends_bind, ends_checked; [intros _ _|done].
    eapply ends_mono; [by apply mutate_keeps|done|done|]. intros ? ? ?. by apply ends_ret.
  - apply ends_bind. unfold TeamRouteRemove. apply ends_bind, ends_checked; [intros _ _|done].
    apply ends_if; intros _; [by apply ends_refuse|].
    eapply ends_mono; [by apply mutate_keeps|done|done|]. intros ? ? ?. by apply ends_ret.
  - unfold SetTeamRouteApplier. apply ends_bind, ends_memory. apply ends_bind, ends_service.
    destruct (team_catalog_of _); [|by apply ends_ret]. intros fs. unfold ApplyTeamRoutes. by destruct (apply _ _).
Qed.

(** ** Start-up *)

Record starts_kept : Prop := {
  ks_default : forall now, FC Absent -> FC (Holds (default_config now));
  ks_load : forall c, FC (Holds c) -> validateConfig c = Ok tt -> SC (in_memory c);
  ks_team_default : forall c, FT Absent -> FT (Holds c);
  ks_team_load : forall c, FT (Holds c) -> 1 <= cf_Revision c -> validateTeamRoutes (cf_Routes c) = Ok tt -> ST c;
  ks_registry : forall m l active r, FR m ->
    (forall name c, suffix (to_list ".json") (to_list name) -> m !! name = Some (Holds c) -> c ∈ l) ->
    (forall c, c ∈ l -> exists name, check_snapshot name c = Ok tt) ->
    NewCatalogRegistry active (l ++ [BuiltinCatalogV1]) = Ok r -> SR r }.
Context (start : starts_kept).
Abbreviation keeps_files d m Q := (ends files_ok (fun _ => files_ok) Q d m).

Definition loaded (r : configFile (list RouteSetting) * discoveryFile * availabilityFile) (d : route_files) : Prop :=
  files_ok d /\ FC (Holds r.1.1) /\ validateConfig r.1.1 = Ok tt.

Lemma load_keeps now d : files_ok d -> keeps_files d (load now) loaded.
Proof.
  intros Hok. unfold load. apply ends_bind.
  match goal with |- ends _ _ (fun a w' => ends _ _ _ _ (_ ≫= ?rest)) _ _ =>
    assert (forall config d, files_ok d -> FC (Holds config) -> keeps_files d (rest config) loaded) as Hrest end.
  { intros config d' Hd' Hc. apply ends_bind, ends_checked; [|done]. intros [] Hvalid.
    apply ends_bind. apply ends_read_or; [done|done| |]; intros; apply ends_bind; apply ends_read_or; try done; intros; by apply ends_ret. }
  apply ends_read_attempt; [done| | |].
  - intros config Hc. apply ends_bind, ends_ret. apply Hrest; [done|]. destruct Hok as [Hfc _]. by rewrite Hc in Hfc.
  - intros Ha. apply ends_bind, ends_bind, ends_write; [done|done|]. apply ends_ret. destruct Hok as (Hfc & Hfr & Hft).
    rewrite Ha in Hfc. pose proof (ks_default start now Hfc). apply Hrest; [by split_and!|done].
  - intros f Hf. apply ends_bind. destruct f; [done|..]; by apply ends_refuse.
Qed.

Lemma load_team_keeps find now legacy d : files_ok d ->
  keeps_files d (loadTeamRoutes find now legacy) (fun r d => files_ok d /\ ST r.1).
Proof.
  intros Hok. unfold loadTeamRoutes. apply ends_bind.
  match goal with |- ends _ _ (fun a w' => ends _ _ _ _ (_ ≫= ?rest)) _ _ =>
    assert (forall config d, files_ok d -> FT (Holds config) -> keeps_files d (rest config) (fun r d => files_ok d /\ ST r.1)) as Hrest end.
  { intros config d' Hd' Hc. apply ends_if; intros Hhead; [by apply ends_refuse|]. bool_props. apply ends_bind, ends_checked; [|done].
    intros [] Hvalid. pose proof (ks_team_load start config Hc ltac:(lia) Hvalid) as Hst. apply ends_bind.
    apply ends_read_or; [done|done| |]; intros; apply ends_bind, ends_write; try done;
      (apply ends_bind; destruct (effectiveTeamCatalog _ _) as [catalog|]; [|by apply ends_ret, ends_ret]);
      apply ends_bind, ends_checked; try done; intros h _; (apply ends_write; [done|done|]); by apply ends_ret. }
  apply ends_read_attempt; [done| | |].
  - intros config Hc. apply ends_bind, ends_ret. apply Hrest; [done|]. destruct Hok as (_ & _ & Hft). by rewrite Hc in Hft.
  - intros Ha. apply ends_bind. pose proof Hok as (Hfc & Hfr & Hft). rewrite Ha in Hft.
    apply ends_bind.
    match goal with |- ends _ _ (fun routes x => ends _ _ ?Q _ (@?k routes)) _ _ =>
      assert (forall routes, ends files_ok (fun _ => files_ok) Q d (k routes)) as Hnew end.
    { intros routes. cbv beta. apply ends_bind, ends_write; [done..|]. apply ends_ret.
      pose proof (ks_team_default start {| cf_SchemaVersion := APIVersion; cf_Revision := 1; cf_Routes := sort_routes routes;
        cf_UpdatedAt := now; cf_Mutations := [] |} Hft). apply Hrest; [by split_and!|done]. }
    destruct legacy as [catalog|]; [|apply ends_ret, Hnew].
    apply ends_bind, ends_checked; [|done]. intros catalog' _. apply ends_ret, Hnew.
  - intros f Hf. apply ends_bind. destruct f; [done|..]; by apply ends_refuse.
Qed.

Lemma NewService_keeps find legacy now d : files_ok d ->
  keeps_files d (NewService find legacy now) (fun s d => files_ok d /\ service_ok s).
Proof.
  intros Hok. unfold NewService. apply ends_bind. eapply ends_mono; [by apply load_keeps|done|done|].
  intros [[config discovery] available] d1 (Hd1 & Hc & Hvalid). cbn in Hc, Hvalid. apply ends_bind.
  eapply ends_mono; [by apply load_team_keeps|done|done|]. intros [teamConfig drivers] d2 [Hd2 Hst]. apply ends_bind.
  apply read_history_ends; [done|done|]. intros l Hall Hl. apply ends_bind, ends_checked; [|done]. intros active _.
  apply ends_bind, ends_checked; [|done]. intros registry Hnew. apply ends_bind.
  pose proof Hd2 as (Hfc & Hfr & Hft). pose proof (ks_registry start _ _ _ _ Hfr Hall Hl Hnew) as Hr.
  unfold persistActiveCatalog. apply ends_bind, ends_checked; [|done]. intros [catalog h] Hact.
  apply ends_write; [done..|]. apply ends_ret. split.
  - split_and!; [done| |done]. by apply (kc_active kept registry).
  - split_and!; [|done|done]. by apply (ks_load start).
Qed.
End keeps.

(** An invariant over every history *)
Lemma steps_keep `{SHA : Sha256} `{CD : CatalogDigest} apply SC ST SR FC FR FT y y' :
  changes_kept SC SC ST ST SR FC FR FT -> starts_kept SC ST SR FC FR FT ->
  rtc (step apply) y y' -> system_holds (files_ok FC FR FT) (service_ok SC ST SR) y -> system_holds (files_ok FC FR FT) (service_ok SC ST SR) y'.
Proof.
  intros Hk Hs. induction 1 as [|y1 y2 y3 Hstep _ IH]; [done|]. intros Hy. apply IH.
  eapply step_holds; [exact Hstep|exact Hy| |].
  - intros now a w Hw. by apply (perform_keeps apply SC SC ST ST SR FC FR FT Hk).
  - intros find legacy now d Hd. by apply (NewService_keeps SC SC ST ST SR FC FR FT Hk Hs).
Qed.
