(* ===== verification/RoutingConfigTheory.v ===== *)
(** * What the routing configuration guarantees

    Over every life of the service: an update that expects a revision is applied
    once, a catalog hash that was reported resolves for ever, and the team routes
    in memory are valid, so that their catalog fails only for want of routes.
    And four ways in which a refusal is not the end of a request: a refused update
    that is half applied, a discovery and an import that stop every later start,
    and a team route whose applier is not asked again. *)

From S2P Require Import Prelude GoText Routing Resolver Catalog CatalogTheory Context Files RouteConfig.
From S2P Require Import TeamRoutes RoutingConfig RoutingSystem ResolverTheory.
#[local] Open Scope string_scope.
#[local] Open Scope list_scope.
#[local] Open Scope Z_scope.

Section theory.
  Context {SHA : Sha256} {CD : CatalogDigest}.
  Context (apply : CapabilityCatalogV1 -> list TeamDriverStatus -> option string).
  Abbreviation step := (step apply).

(** ** Revisions *)

Definition revision_in {R} (lo hi : Z) (c : configFile R) : Prop := lo < cf_Revision c <= hi.
Definition stored_in {R} (lo hi : Z) (f : file (configFile R)) : Prop := exists c, f = Holds c /\ revision_in lo hi c.
Definition everywhere {A} (_ : A) : Prop := True.

(** Above [lo], and one higher at most than before *)
Lemma config_revisions lo hi : - 2 ^ 63 <= lo -> hi + 1 < 2 ^ 63 ->
  changes_kept (revision_in lo hi) (revision_in lo (hi + 1)) everywhere everywhere everywhere
    (stored_in lo (hi + 1)) everywhere everywhere.
Proof.
  intros Hlo Hhi. constructor; try done; unfold revision_in.
  - intros c. lia.
  - intros now id hash c Hc. cbn. rewrite wrap_int64_id; lia.
  - intros s Hs. by exists (stored_config s).
Qed.
Lemma team_revisions lo hi : - 2 ^ 63 <= lo -> hi + 1 < 2 ^ 63 ->
  changes_kept everywhere everywhere (revision_in lo hi) (revision_in lo (hi + 1)) everywhere
    everywhere everywhere (stored_in lo (hi + 1)).
Proof.
  intros Hlo Hhi. constructor; try done; unfold revision_in.
  - intros c. lia.
  - intros c routes now id hash Hc _. cbn. rewrite wrap_int64_id; lia.
  - intros c Hc. by exists c.
Qed.

Lemma config_revisions_start lo hi :
  starts_kept (revision_in lo hi) everywhere everywhere (stored_in lo hi) everywhere everywhere.
Proof. constructor; try done; [by intros now (c & ? & _)|]. intros c (c' & [= <-] & Hc) _. done. Qed.
Lemma team_revisions_start lo hi :
  starts_kept everywhere (revision_in lo hi) everywhere everywhere everywhere (stored_in lo hi).
Proof. constructor; try done; [by intros c (c' & ? & _)|]. intros c (c' & [= <-] & Hc) _ _. done. Qed.

Definition config_at (lo hi : Z) : system -> Prop :=
  system_holds (files_ok (stored_in lo hi) everywhere everywhere) (service_ok (revision_in lo hi) everywhere everywhere).
Definition team_at (lo hi : Z) : system -> Prop :=
  system_holds (files_ok everywhere everywhere (stored_in lo hi)) (service_ok everywhere (revision_in lo hi) everywhere).

Lemma stored_mono {R} lo hi hi' (f : file (configFile R)) : hi <= hi' -> stored_in lo hi f -> stored_in lo hi' f.
Proof. intros Hhi (c & -> & Hc). exists c. split; [done|]. unfold revision_in in *. lia. Qed.

(** One step raises the bound by one. *)
Lemma nsteps_rise (P : Z -> system -> Prop) n :
  (forall hi y y', hi + 1 < 2 ^ 63 -> step y y' -> P hi y -> P (hi + 1) y') ->
  forall hi y y', hi + Z.of_nat n < 2 ^ 63 -> relations.nsteps step n y y' -> P hi y -> P (hi + Z.of_nat n) y'.
Proof.
  intros Hone hi y y' Hhi Hsteps. revert hi Hhi.
  induction Hsteps as [y|n y1 y2 y3 Hstep _ IH]; intros hi Hhi Hy; [by rewrite Z.add_0_r|].
  replace (hi + Z.of_nat (S n)) with (hi + 1 + Z.of_nat n) in * by lia. apply IH; [lia|]. by apply (Hone hi y1); [lia|..].
Qed.

Lemma step_config lo hi y y' : - 2 ^ 63 <= lo -> hi + 1 < 2 ^ 63 -> step y y' -> config_at lo hi y -> config_at lo (hi + 1) y'.
Proof.
  intros Hlo Hhi Hstep Hy. pose proof (config_revisions lo hi Hlo Hhi) as Hk.
  destruct Hstep as [now a w fs|w|find legacy now d fs]; cbn in Hy.
  - destruct Hy as [(Hf & _ & _) Hs]. pose proof (perform_keeps apply _ _ _ _ _ _ _ _ Hk now a w) as Hr.
    specialize (Hr ltac:(split; [split_and!; [by apply (stored_mono lo hi); [lia|]|done|done]|done]) fs).
    by destruct (perform apply now a w fs).
  - destruct Hy as [(Hf & _ & _) _]. split_and!; [by apply (stored_mono lo hi); [lia|]|done|done].
  - destruct Hy as (Hf & _ & _).
    pose proof (NewService_keeps _ _ _ _ _ _ _ _ Hk (config_revisions_start lo (hi + 1)) find legacy now d) as Hr.
    specialize (Hr ltac:(split_and!; [by apply (stored_mono lo hi); [lia|]|done|done]) fs).
    by destruct (NewService find legacy now d fs).
Qed.

Lemma step_team lo hi y y' : - 2 ^ 63 <= lo -> hi + 1 < 2 ^ 63 -> step y y' -> team_at lo hi y -> team_at lo (hi + 1) y'.
Proof.
  intros Hlo Hhi Hstep Hy. pose proof (team_revisions lo hi Hlo Hhi) as Hk.
  destruct Hstep as [now a w fs|w|find legacy now d fs]; cbn in Hy.
  - destruct Hy as [(_ & _ & Hf) Hs]. pose proof (perform_keeps apply _ _ _ _ _ _ _ _ Hk now a w) as Hr.
    specialize (Hr ltac:(split; [split_and!; [done|done|by apply (stored_mono lo hi); [lia|]]|done]) fs).
    by destruct (perform apply now a w fs).
  - destruct Hy as [(_ & _ & Hf) _]. split_and!; [done|done|by apply (stored_mono lo hi); [lia|]].
  - destruct Hy as (_ & _ & Hf).
    pose proof (NewService_keeps _ _ _ _ _ _ _ _ Hk (team_revisions_start lo (hi + 1)) find legacy now d) as Hr.
    specialize (Hr ltac:(split_and!; [done|done|by apply (stored_mono lo hi); [lia|]]) fs).
    by destruct (NewService find legacy now d fs).
Qed.

(** An update that is applied expected the revision, and leaves the next one in memory and on disk. *)
Lemma rebuild_config now w fs u w' fs' (c : configFile nat) :
  rebuildActiveCatalog now w fs = Returned u w' fs' -> sv_config (w_service w) = c -> sv_config (w_service w') = c.
Proof.
  intros H Hc. assert (changes_kept (fun _ => False) (eq c) (fun _ => False) everywhere everywhere everywhere everywhere everywhere) as Hk
    by (constructor; done).
  pose proof (rebuild_keeps _ _ _ _ _ _ _ _ Hk now w) as Hr.
  assert (holds (files_ok everywhere everywhere everywhere) (service_ok (eq c) everywhere everywhere) w) as Hw by (split; split_and!; done).
  apply (ends_returned _ _ _ _ _ fs u w' fs') in Hr; [|done..]. destruct Hr as [_ [Hr _]]. done.
Qed.

Lemma update_applied now r w fs response w1 fs1 :
  ConfigUpdate now r w fs = Returned response w1 fs1 -> cur_Replayed response = false ->
  cf_Revision (sv_config (w_service w)) = cu_ExpectedRevision r /\
  cf_Revision (sv_config (w_service w1)) = wrap_int64 (cu_ExpectedRevision r + 1) /\
  rd_config (w_files w1) = Holds (stored_config (w_service w1)).
Proof.
  unfold ConfigUpdate. intros H Hrep. apply bind_inv in H as ([] & w2 & fs2 & [_ ->]%checked_inv & H).
  apply bind_inv in H as (s & w2 & fs3 & [= <- <- <-] & H).
  destruct (find_receipt _ _). { case_match; [done|]. by injection H as <- <- <-. }
  case_match eqn:He; [done|]. bool_props. rewrite He. split; [done|]. unfold apply_update in H.
  apply bind_inv in H as (u & w2 & fs3' & [= _ <- <-] & H). apply bind_inv in H as (s & w2 & fs4 & [= <- <- <-] & H).
  case_match; [by apply bind_inv in H as (? & ? & ? & [= _ <- <-] & H)|].
  apply bind_inv in H as (u2 & w2 & fs5 & [= _ <- <-] & H).
  apply bind_inv in H as ([u3|e] & w3 & fs6 & H3 & H); [|by apply bind_inv in H as (? & ? & ? & [= _ <- <-] & H)].
  apply attempt_ok in H3. eapply rebuild_config in H3; [|reflexivity]. cbn in H3.
  apply bind_inv in H as (s & w4 & fs7 & [= <- <- <-] & H).
  apply bind_inv in H as ([u5|e] & w5 & fs8 & H5 & H).
  - apply attempt_ok in H5. unfold writeJSONAtomic in H5. apply bind_inv in H5 as (u6 & w6 & fs9 & ->%touch_inv & H5).
    apply call_inv in H5. injection H5 as <- <-. apply bind_inv in H as (s & w4 & fs10 & [= <- <- <-] & H). injection H as <- <- <-.
    cbn. rewrite H3. done.
  - apply bind_inv in H as (? & ? & ? & [= _ <- <-] & H). by apply bind_inv in H as (? & ? & ? & ? & H).
Qed.

Lemma publish_team w fs response w' fs' c :
  publish_routes apply w fs = Returned response w' fs' -> sv_teamConfig (w_service w) = c -> rd_team_config (w_files w) = Holds c ->
  sv_teamConfig (w_service w') = c /\ rd_team_config (w_files w') = Holds c.
Proof.
  intros H Hc Hf.
  pose proof (publish_keeps apply everywhere (eq c) everywhere everywhere everywhere (eq (Holds c)) w) as Hr.
  assert (holds (files_ok everywhere everywhere (eq (Holds c))) (service_ok everywhere (eq c) everywhere) w) as Hw by (split; split_and!; done).
  apply (ends_returned _ _ _ _ _ fs response w' fs') in Hr; [|done..]. destruct Hr as [(_ & _ & Hr) (_ & _ & Hs)]. done.
Qed.

Lemma routes_mutated now id revision hash change w fs response w1 fs1 :
  mutateTeamRoutes apply now id revision hash change w fs = Returned response w1 fs1 -> tmr_Replayed response = false ->
  exists c, cf_Revision (sv_teamConfig (w_service w)) = revision /\ cf_Revision c = wrap_int64 (revision + 1) /\
            sv_teamConfig (w_service w1) = c /\ rd_team_config (w_files w1) = Holds c.
Proof.
  unfold mutateTeamRoutes. intros H Hrep. apply bind_inv in H as (s & w2 & fs2 & [= <- <- <-] & H).
  destruct (find_receipt _ _).
  { case_match; [done|]. apply bind_inv in H as (? & ? & ? & _ & H). by injection H as <- <- <-. }
  case_match eqn:He; [done|]. bool_props. rewrite He.
  apply bind_inv in H as (routes & w2 & fs3 & [_ ->]%checked_inv & H). apply bind_inv in H as (u & w2 & fs4 & [_ ->]%checked_inv & H).
  apply bind_inv in H as (u2 & w2 & fs5 & [= _ <- <-] & H).
  apply bind_inv in H as ([u3|e] & w3 & fs6 & H3 & H); [|by apply bind_inv in H as (? & ? & ? & [= _ <- <-] & H)].
  apply attempt_ok in H3. unfold writeJSONAtomic in H3. apply bind_inv in H3 as (u4 & w4 & fs7 & ->%touch_inv & H3).
  apply call_inv in H3. injection H3 as <- <-. apply bind_inv in H as (response' & w4 & fs8 & H4 & H). injection H as <- <- <-.
  eexists. split; [done|]. split; [|by eapply publish_team; [exact H4|..]]. done.
Qed.

(** C17: An update of the routing configuration, or of the team routes, that
    expects a revision is applied at most once: after it has been answered, through
    any requests, failed calls, crashes and restarts, no request that expects the
    same revision is applied again, whatever its mutation id and content; a retry
    is answered as a replay or refused.  The bound excludes the wrap-around of the
    revision, an int. *)
Theorem update_applied_once n w1 w2 :
  relations.nsteps step n (Running w1) (Running w2) ->
  (forall now r w fs response fs1 now' r' response' fs2 w3 fs3,
     ConfigUpdate now r w fs = Returned response w1 fs1 -> cur_Replayed response = false ->
     - 2 ^ 63 <= cu_ExpectedRevision r -> cu_ExpectedRevision r + 1 + Z.of_nat n < 2 ^ 63 ->
     cu_ExpectedRevision r' = cu_ExpectedRevision r ->
     ConfigUpdate now' r' w2 fs2 = Returned response' w3 fs3 -> cur_Replayed response' = true) /\
  (forall now id revision hash change w fs response fs1 now' id' hash' change' response' fs2 w3 fs3,
     mutateTeamRoutes apply now id revision hash change w fs = Returned response w1 fs1 -> tmr_Replayed response = false ->
     - 2 ^ 63 <= revision -> revision + 1 + Z.of_nat n < 2 ^ 63 ->
     mutateTeamRoutes apply now' id' revision hash' change' w2 fs2 = Returned response' w3 fs3 -> tmr_Replayed response' = true).
Proof.
  intros Hsteps. split.
  - intros now r w fs response fs1 now' r' response' fs2 w3 fs3 H Hrep Hlo Hhi Hr' H'. destruct (cur_Replayed response') eqn:Hrep'; [done|].
    apply update_applied in H as (_ & H1 & Hd); [|done]. apply update_applied in H' as (H2 & _); [|done].
    rewrite wrap_int64_id in H1 by lia. set (lo := cu_ExpectedRevision r) in *.
    assert (config_at lo (lo + 1 + Z.of_nat n) (Running w2)) as [_ [Hin _]].
    { apply (nsteps_rise (config_at lo) n) with (y := Running w1); [by intros; apply (step_config lo hi y)|lia|done|].
      split; [|split_and!; [unfold revision_in; lia|done|done]]. split_and!; [|done|done].
      exists (stored_config (w_service w1)). split; [done|]. unfold revision_in. cbn. lia. }
    unfold revision_in in Hin. lia.
  - intros now id revision hash change w fs response fs1 now' id' hash' change' response' fs2 w3 fs3 H Hrep Hlo Hhi H'.
    destruct (tmr_Replayed response') eqn:Hrep'; [done|].
    apply routes_mutated in H as (c & _ & H1 & Hc & Hd); [|done]. apply routes_mutated in H' as (_ & H2 & _); [|done].
    rewrite wrap_int64_id in H1 by lia.
    assert (team_at revision (revision + 1 + Z.of_nat n) (Running w2)) as [_ (_ & _ & Hin)].
    { apply (nsteps_rise (team_at revision) n) with (y := Running w1); [by intros; apply (step_team revision hi y)|lia|done|].
      split; [|split_and!; [done|done|unfold revision_in; rewrite Hc; lia]]. split_and!; [done|done|].
      exists c. split; [done|]. unfold revision_in. lia. }
    unfold revision_in in Hin. lia.
Qed.
End theory.

(** * The catalogs of the routing service, and its team routes

    A catalog hash that was reported resolves for ever.  The team routes in memory
    are always valid; hence their catalog fails only for want of routes. *)

Section theory.
  Context {SHA : Sha256} {CD : CatalogDigest}.
  Context (apply : CapabilityCatalogV1 -> list TeamDriverStatus -> option string).
  Abbreviation step := (step apply).

(** ** Catalogs *)

Lemma catalog_name_inj h h' : catalog_name h = catalog_name h' -> h = h'.
Proof.
  unfold catalog_name. intros H. apply (f_equal to_list) in H. rewrite !to_list_app in H. apply app_inv_tail in H.
  by rewrite <-(of_to_list h), H, of_to_list.
Qed.
Lemma catalog_name_json h : suffix (to_list ".json") (to_list (catalog_name h)).
Proof. unfold catalog_name. rewrite to_list_app. by exists (to_list h). Qed.

Lemma active_hash r c h : registry_inv r -> ActiveCatalog r = Ok (c, h) -> CatalogHash c = Ok h.
Proof.
  unfold ActiveCatalog, cloneCatalog. intros Hinv H. destruct (reg_catalogs r !! reg_activeHash r) as [c'|] eqn:Hl; [|done].
  injection H as -> <-. apply Hinv in Hl as [Hwf Hd]. by apply CatalogHash_ok.
Qed.

Definition known (h : string) (r : CatalogRegistry) : Prop := is_Some (reg_catalogs r !! h).
Definition written (h : string) (m : catalog_dir) : Prop := exists c, m !! catalog_name h = Some (Holds c) /\ CatalogHash c = Ok h.

Lemma set_active_step r c r' h : SetActive r c = Ok (r', h) -> registry_inv r -> registry_inv r' /\ reg_catalogs r ⊆ reg_catalogs r'.
Proof. intros H. apply registry_step_preserves. by eapply step_set_active. Qed.
Lemma known_mono h r r' : reg_catalogs r ⊆ reg_catalogs r' -> known h r -> known h r'.
Proof. intros Hsub [c Hc]. exists c. by eapply lookup_weaken. Qed.

(** A registered catalog is found under its hash. *)
Lemma register_known r c r' h h' : register r c = Ok (r', h) -> CatalogHash c = Ok h' -> known h' r'.
Proof.
  intros (-> & _ & _ & Hcs)%register_ok [Hwf Hd]%CatalogHash_ok. unfold known.
  assert (CanonicalCatalogV1 c = c) as Hcan.
  { apply (canonical_catalog_unique c c); try done; [|by apply ValidateCatalog_spec].
    eapply strictly_sorted_NoDup, Hwf. }
  subst h'. rewrite Hcan in Hcs. rewrite Hcs. destruct (reg_catalogs r !! catalog_digest c) eqn:Hl; [by rewrite Hl|].
  rewrite lookup_insert_eq. eauto.
Qed.

Lemma new_registry_known active l r c h : NewCatalogRegistry active l = Ok r -> c ∈ l -> CatalogHash c = Ok h -> known h r.
Proof.
  unfold NewCatalogRegistry. intros (r0 & Hloop & Hr)%bind_ok Hc Hh. apply bind_ok in Hr as ([r1 h1] & Hr & [= <-]).
  apply (known_mono h r0); [exact (register_mono _ _ _ _ Hr)|].
  apply list_elem_of_split in Hc as (l1 & l2 & ->). rewrite range_loop_app in Hloop.
  apply bind_ok in Hloop as (r2 & _ & Hloop). cbn in Hloop. apply bind_ok in Hloop as (r3 & H3 & Hloop).
  apply bind_ok in H3 as ([r4 h4] & H4 & [= <-]). pose proof (register_known _ _ _ _ _ H4 Hh) as Hk.
  eapply (range_loop_inv _ (fun s _ => known h s)); [|exact Hk|exact Hloop].
  intros s c' xs s' Hs Hb. apply bind_ok in Hb as ([s1 h5] & Hb & [= <-]). eapply known_mono; [by eapply register_mono|done].
Qed.

Lemma catalog_changes h : changes_kept everywhere everywhere everywhere everywhere (fun r => registry_inv r /\ known h r) everywhere (written h) everywhere.
Proof.
  constructor; try done.
  - intros r c r' h' [Hinv Hk] Hset. apply set_active_step in Hset as [Hinv' Hsub]; [|done]. split; [done|by eapply known_mono].
  - intros r c h' m [Hinv Hk] (c' & Hm & Hc') Hact. unfold written.
    destruct (decide (h' = h)) as [->|Hne].
    + exists c. rewrite lookup_insert_eq. split; [done|by eapply active_hash].
    + exists c'. rewrite lookup_insert_ne; [done|]. by intros ?%catalog_name_inj.
Qed.
Lemma catalog_starts h : starts_kept everywhere everywhere (fun r => registry_inv r /\ known h r) everywhere (written h) everywhere.
Proof.
  constructor; try done. intros m l active r (c & Hm & Hc) Hall _ Hnew. split; [by eapply registry_new_inv|].
  eapply new_registry_known; [exact Hnew| |exact Hc]. apply elem_of_app. left. eapply Hall; [apply catalog_name_json|exact Hm].
Qed.

Lemma registry_changes : changes_kept everywhere everywhere everywhere everywhere registry_inv everywhere everywhere everywhere.
Proof. constructor; try done. intros r c r' h Hinv Hset. by apply set_active_step in Hset as [? _]. Qed.
Lemma registry_starts : starts_kept everywhere everywhere registry_inv everywhere everywhere everywhere.
Proof. constructor; try done. intros m l active r _ _ _ Hnew. by eapply registry_new_inv. Qed.

Lemma registry_valid d w : rtc step (Stopped d) (Running w) -> registry_inv (sv_registry (w_service w)).
Proof.
  intros Hsteps. eapply (steps_keep apply _ _ _ _ _ _ _ _ registry_changes registry_starts) in Hsteps as [_ (_ & Hr & _)]; [done|].
  by split_and!.
Qed.

(** A rebuild leaves the active catalog in its file. *)
Lemma rebuild_written now w fs u w' fs' :
  rebuildActiveCatalog now w fs = Returned u w' fs' -> registry_inv (sv_registry (w_service w)) ->
  exists c h, ActiveCatalog (sv_registry (w_service w')) = Ok (c, h) /\ registry_inv (sv_registry (w_service w')) /\
              known h (sv_registry (w_service w')) /\ written h (rd_catalogs (w_files w')).
Proof.
  unfold rebuildActiveCatalog. intros H Hinv. apply bind_inv in H as (s & w1 & fs1 & [= <- <- <-] & H).
  apply bind_inv in H as (c & w1 & fs2 & [_ ->]%checked_inv & H). apply bind_inv in H as ([r h] & w1 & fs3 & [Hset ->]%checked_inv & H).
  unfold rmap_err in Hset. apply set_active_step in Hset as [Hinv' _]; [|done].
  apply bind_inv in H as (u1 & w1 & fs4 & [= _ <- <-] & H). unfold persistActiveCatalog in H.
  apply bind_inv in H as ([c' h'] & w2 & fs5 & [Hact ->]%checked_inv & H). unfold writeJSONAtomic in H.
  apply bind_inv in H as (u2 & w3 & fs6 & ->%touch_inv & H). apply call_inv in H. injection H as <- <-. cbn.
  exists c', h'. split; [done|]. split; [done|]. split.
  - unfold ActiveCatalog in Hact. destruct (reg_catalogs r !! reg_activeHash r) eqn:Hl; [|done]. injection Hact as _ <-. by exists c0.
  - exists c'. rewrite lookup_insert_eq. split; [done|]. exact (active_hash r c' h' Hinv' Hact).
Qed.

(** C18: A catalog hash that a probe has reported resolves for ever: whatever
    requests, failed calls, crashes and restarts follow, a service that runs answers
    CatalogByHash for it with a catalog of that hash, so that the decisions that
    name it can be replayed. *)
Theorem reported_catalog_survives d w now entries fs response w1 fs1 w2 :
  rtc step (Stopped d) (Running w) ->
  commit_probe now entries w fs = Returned response w1 fs1 ->
  rtc step (Running w1) (Running w2) ->
  exists c, CatalogByHash (sv_registry (w_service w2)) (prr_CatalogHash response) = Some c /\
            CatalogHash c = Ok (prr_CatalogHash response).
Proof.
  intros Hinv%registry_valid H Hsteps. unfold commit_probe in H.
  apply bind_inv in H as (u1 & w3 & fs2 & [= _ <- <-] & H). apply bind_inv in H as (s & w3 & fs3 & [= <- <- <-] & H).
  apply bind_inv in H as (u2 & w3 & fs4 & H3 & H). unfold writeJSONAtomic in H3. apply bind_inv in H3 as (u3 & w4 & fs5 & ->%touch_inv & H3).
  apply call_inv in H3. injection H3 as <- <-. apply bind_inv in H as (u4 & w5 & fs6 & H5 & H).
  apply rebuild_written in H5 as (c & h & Hact & Hinv1 & Hk & Hw); [|done].
  apply bind_inv in H as (s & w6 & fs7 & [= <- <- <-] & H). apply bind_inv in H as ([c' h'] & w6 & fs8 & [Hact' ->]%checked_inv & H).
  injection H as <- <- <-. cbn. rewrite Hact in Hact'. injection Hact' as <- <-.
  eapply (steps_keep apply _ _ _ _ _ _ _ _ (catalog_changes h) (catalog_starts h)) in Hsteps as [_ (_ & [Hinv2 [c2 Hc2]] & _)].
  - exists c2. unfold CatalogByHash, cloneCatalog. rewrite Hc2. split; [done|]. apply Hinv2 in Hc2 as [Hwf Hd]. by apply CatalogHash_ok.
  - split; split_and!; done.
Qed.

(** ** Team routes *)

Lemma validateTeamRoutes_spec routes :
  validateTeamRoutes routes = Ok tt ->
  1 <= len_slice routes <= MaxCatalogModels /\ Forall (fun route => validateTeamRoute route = Ok tt) routes /\
  strictly_sorted (map tr_RouteID routes).
Proof.
  unfold validateTeamRoutes. rewrite fail_if_ok, is_ok_bind_unit. intros [Hcount Hloop].
  rewrite (ordered_loop_ok tr_RouteID (fun route => validateTeamRoute route = Ok tt)) in Hloop.
  - bool_props. unfold len_slice in *. split; [lia|done].
  - intros route Hv Hid. unfold validateTeamRoute in Hv. rewrite fail_if_ok in Hv. destruct Hv as [_ Hv].
    rewrite fail_if_ok in Hv. destruct Hv as [Hp _]. rewrite Hid in Hp. by destruct (tr_Driver route).
  - intros seen last route s'. rewrite bind_unit_ok, fail_if_ok, orb_false_iff, bool_decide_eq_false, andb_false_iff, negb_false_iff, String.eqb_eq.
    naive_solver.
Qed.

Lemma valid_team_model route : validateTeamRoute route = Ok tt -> model_wf (teamCapability route).
Proof.
  unfold validateTeamRoute. rewrite !fail_if_ok. intros (_ & _ & _ & Hv). apply bind_ok in Hv as ([] & Hv & _).
  apply ValidateModelCapability_spec. destruct (ValidateModelCapability _) as [[]|]; [done|discriminate].
Qed.

Lemma filter_strictly_sorted {A} (key : A -> string) p l :
  strictly_sorted (map key l) -> strictly_sorted (map key (List.filter p l)).
Proof.
  unfold strictly_sorted. induction l as [|x l IH]; [done|]. cbn. intros [Hs Hall]%StronglySorted_inv. destruct (p x); [|by apply IH].
  cbn. constructor; [by apply IH|]. rewrite Forall_forall in *. intros y (z & -> & [Hz _]%list_elem_of_In%filter_In)%list_elem_of_fmap.
  apply Hall, list_elem_of_fmap. exists z. split; [done|by apply list_elem_of_In].
Qed.

Lemma team_changes : changes_kept everywhere everywhere (fun c => validateTeamRoutes (cf_Routes c) = Ok tt)
  (fun c => validateTeamRoutes (cf_Routes c) = Ok tt) everywhere everywhere everywhere everywhere.
Proof. by constructor. Qed.
Lemma team_starts : starts_kept everywhere (fun c => validateTeamRoutes (cf_Routes c) = Ok tt) everywhere everywhere everywhere everywhere.
Proof. by constructor. Qed.

(** The routes that a team can use now, as a catalog lists them *)
Definition effective_routes (s : Service) : list ModelCapabilityV1 :=
  map teamCapability (List.filter (fun route => tr_Enabled route && driver_available (sv_teamDrivers s) (tr_Driver route)) (cf_Routes (sv_teamConfig s))).

(** C19: In every service that runs, whatever requests, failures and restarts came
    before, the team routes in memory are valid, and the catalog made of them is
    refused only when fewer than two routes are enabled with their drivers
    installed: otherwise it is a valid catalog whose models are exactly these
    routes, in the order of their ids. *)
Theorem team_catalog_total d w :
  rtc step (Stopped d) (Running w) ->
  validateTeamRoutes (cf_Routes (sv_teamConfig (w_service w))) = Ok tt /\
  (len_slice (effective_routes (w_service w)) < 2 <-> is_ok (team_catalog_of (w_service w)) = false) /\
  (forall catalog, team_catalog_of (w_service w) = Ok catalog ->
     ValidateCatalog catalog = Ok tt /\ cat_Models catalog = effective_routes (w_service w)).
Proof.
  intros Hsteps. eapply (steps_keep apply _ _ _ _ _ _ _ _ team_changes team_starts) in Hsteps as [_ (_ & _ & Hv)]; [|by split_and!].
  split; [done|]. apply validateTeamRoutes_spec in Hv as (Hcount & Hvalid & Hsort).
  set (models := effective_routes (w_service w)).
  assert (2 <= len_slice models -> catalog_wf {| cat_SchemaVersion := CapabilityCatalogV1Version; cat_PolicyVersion := RoutingPolicyV1Version; cat_Models := models |}) as Hwf.
  { intros H2. constructor; cbn; [done|done| | |].
    - split; [lia|]. etrans; [|apply Hcount]. unfold models, effective_routes, len_slice. rewrite length_map.
      pose proof (List.filter_length_le (fun route => tr_Enabled route && driver_available (sv_teamDrivers (w_service w)) (tr_Driver route)) (cf_Routes (sv_teamConfig (w_service w)))). lia.
    - unfold models, effective_routes. apply List.Forall_map, List.Forall_forall. intros route [Hr _]%filter_In.
      apply valid_team_model. rewrite Forall_forall in Hvalid. by apply Hvalid, list_elem_of_In.
    - unfold models, effective_routes. rewrite map_map. cbn. by apply filter_strictly_sorted. }
  assert (team_catalog_of (w_service w) = if len_slice models <? 2
    then Err (Contract "capability_unavailable" "at least two enabled Team routes across installed Agent Drivers are required")
    else Ok {| cat_SchemaVersion := CapabilityCatalogV1Version; cat_PolicyVersion := RoutingPolicyV1Version; cat_Models := models |}) as ->.
  { unfold team_catalog_of, effectiveTeamCatalog. cbv zeta. fold (effective_routes (w_service w)). fold models.
    destruct (len_slice models <? 2) eqn:H2; [done|]. bool_props. specialize (Hwf H2).
    rewrite (proj2 (canonical_catalog_unique _ _ eq_refl eq_refl (reflexivity _) (strictly_sorted_NoDup _ (cw_order _ Hwf)))) by by apply ValidateCatalog_spec.
    by rewrite (proj2 (ValidateCatalog_spec _) Hwf). }
  destruct (len_slice models <? 2) eqn:H2; bool_props.
  - split; [|done]. split; intros _; [done|lia].
  - split; [split; [lia|done]|]. intros catalog [= <-]. split; [|done]. by apply ValidateCatalog_spec, Hwf.
Qed.
End theory.
