(* ===== verification/RoutingRefusals.v ===== *)
(** * Refusals of the routing service that are not the end of a request

    A refused update is half applied, since the configuration it goes back to
    shares its routes with the changed one.  A discovery that leaves no route, and an
    import of routes that are not valid, are refused after they have been written,
    and every later start finds them.  A change of the team routes whose applier
    fails is answered as done when it is repeated, without the applier. *)

From S2P Require Import Prelude GoText Routing Resolver ResolverTheory Catalog CatalogTheory Context Files.
From S2P Require Import RouteConfig TeamRoutes RoutingConfig RoutingSystem RoutingConfigTheory.
#[local] Open Scope string_scope.
#[local] Open Scope list_scope.
#[local] Open Scope Z_scope.

Lemma set_enabled_id id b r : rs_RouteID (if rs_RouteID r =s id then {| rs_RouteID := rs_RouteID r; rs_Enabled := b |} else r) = rs_RouteID r.
Proof. by case_match. Qed.

(** Clearing the flags of the only enabled route leaves none. *)
Lemma none_enabled id routes :
  Forall (fun r => rs_Enabled r = true -> rs_RouteID r = id) routes -> hasEnabledRoute (set_enabled id false routes) = false.
Proof.
  induction 1 as [|r routes Hr _ IH]; [done|]. cbn. unfold hasEnabledRoute, set_enabled in IH. rewrite IH, orb_false_r.
  destruct (rs_RouteID r =s id) eqn:E; [done|]. destruct (rs_Enabled r) eqn:He; [|done].
  bool_props. by destruct E; apply Hr.
Qed.

(** With no flag set no model of the base is usable. *)
Lemma enabled_map_false routes id b :
  Forall (fun r => rs_Enabled r = false) routes -> enabled_map routes !! id = Some b -> b = false.
Proof.
  unfold enabled_map. rewrite <-fold_left_rev_right. intros Hall. assert (Forall (fun r => rs_Enabled r = false) (rev routes)) as Hrev
    by (by apply List.Forall_rev). clear Hall. induction Hrev as [|r l Hr _ IH]; cbn; [by rewrite lookup_empty|].
  destruct (decide (id = rs_RouteID r)) as [->|Hne]; [rewrite lookup_insert_eq|by rewrite lookup_insert_ne].
  by intros [= <-].
Qed.
Lemma hasEnabledRoute_false routes : hasEnabledRoute routes = false <-> Forall (fun r => rs_Enabled r = false) routes.
Proof.
  unfold hasEnabledRoute. induction routes as [|r routes IH]; [done|]. cbn. rewrite orb_false_iff, IH, Forall_cons. done.
Qed.
Lemma filter_none {A} (p : A -> bool) l : (forall x, x ∈ l -> p x = false) -> List.filter p l = [].
Proof.
  induction l as [|x l IH]; intros H; [done|]. cbn. rewrite (H x) by apply list_elem_of_here.
  apply IH. intros y Hy. by apply H, list_elem_of_further.
Qed.
Lemma no_route_no_catalog routes models entries now :
  hasEnabledRoute routes = false -> is_ok (effective_catalog routes models entries now) = false.
Proof.
  intros Hnone%hasEnabledRoute_false. unfold effective_catalog. rewrite filter_none; [done|].
  intros m _. unfold usable, enabled_in. destruct (enabled_map routes !! mc_ID m) as [b|] eqn:Hb; [|done].
  by rewrite (enabled_map_false _ _ _ Hnone Hb).
Qed.

Section theory.
  Context {SHA : Sha256} {CD : CatalogDigest}.
  Context (apply : CapabilityCatalogV1 -> list TeamDriverStatus -> option string).
  Abbreviation step := (step apply).

(** Without a catalog a rebuild fails, and changes nothing. *)
Lemma rebuild_refused now w fs :
  is_ok (buildEffectiveCatalog now (w_service w)) = false -> exists e, rebuildActiveCatalog now w fs = Raised e w fs.
Proof.
  intros H. unfold rebuildActiveCatalog, mbind, io_bind, service, checked.
  destruct (buildEffectiveCatalog now (w_service w)) as [c|e]; [done|]. by eexists.
Qed.

(** ** A running service without an enabled route *)

Definition unrouted (w : world) : Prop := hasEnabledRoute (routes_of (w_service w)) = false.
Definition enables (a : request) : bool := match a with AskUpdate r => cu_Enabled r | _ => false end.
(** The process goes on with a request that enables no route, whatever calls of
    it fail. *)
Inductive serves : world -> world -> Prop :=
| serves_request now a w fs w' : enables a = false -> performed (perform apply now a w fs) = Running w' -> serves w w'.

Lemma unrouted_refused now w fs : unrouted w -> exists e, rebuildActiveCatalog now w fs = Raised e w fs.
Proof. intros Hw. apply rebuild_refused. by apply no_route_no_catalog. Qed.

Lemma set_disabled id routes : hasEnabledRoute routes = false -> hasEnabledRoute (set_enabled id false routes) = false.
Proof.
  rewrite !hasEnabledRoute_false. unfold set_enabled. rewrite Forall_map. intros H. eapply Forall_impl; [exact H|].
  intros r Hr. by case_match.
Qed.
Lemma routes_with_array s routes : routes_of (with_array (cf_Routes (sv_config s)) routes s) = routes.
Proof. unfold routes_of, array_at. cbn. by rewrite lookup_insert_eq. Qed.

(** No step of a method gives such a service a route. *)
Ltac stays_unrouted :=
  repeat (cbv beta; match goal with
  | |- ends _ _ _ _ (_ ≫= _) => apply ends_bind
  | |- ends _ _ _ _ service => apply ends_service
  | |- ends _ _ _ _ (memory _) => apply ends_memory
  | |- ends _ _ _ _ (checked _ _) => apply ends_checked; intros ? ?
  | |- ends _ _ _ _ (attempt _) => apply ends_attempt
  | |- ends _ _ _ _ (writeJSONAtomic _ _) => apply ends_write; [done|intros ?|]
  | |- ends _ _ _ _ (refuse _) => apply ends_refuse
  | |- ends _ _ _ _ (mret _) => apply ends_ret
  | |- ends _ _ _ _ (if _ then _ else _) => apply ends_if; intros ?
  | |- ends _ _ _ _ (let '(_, _) := ?x in _) => destruct x
  | |- ends _ _ _ _ (match ?x with _ => _ end) => destruct x
  | |- ends _ _ _ _ (ApplyTeamRoutes _ _ _) => intros fs; unfold ApplyTeamRoutes; destruct (apply _ _)
  end); try done.

Lemma update_unrouted now r w : unrouted w -> cu_Enabled r = false ->
  ends everywhere (fun _ => unrouted) (fun _ => unrouted) w (ConfigUpdate now r).
Proof.
  intros Hw Hoff. unfold ConfigUpdate. stays_unrouted. unfold apply_update. rewrite Hoff.
  pose proof (set_disabled (cu_RouteID r) _ Hw) as Hnone.
  assert (hasEnabledRoute (routes_of (with_array (cf_Routes (sv_config (w_service w)))
    (set_enabled (cu_RouteID r) false (routes_of (w_service w))) (w_service w))) = false) as Hleft by (by rewrite routes_with_array).
  apply ends_bind, ends_memory, ends_bind, ends_service, ends_if; intros Hb; [stays_unrouted|].
  apply negb_false_iff in Hb. pose proof (eq_trans (eq_sym Hb) Hleft). done.
Qed.

Lemma perform_unrouted now a w : unrouted w -> enables a = false ->
  ends everywhere (fun _ => unrouted) (fun _ => unrouted) w (perform apply now a).
Proof.
  intros Hw Ha. destruct a; cbn [perform enables] in *; unfold done_with.
  - apply ends_bind. eapply ends_mono; [by apply update_unrouted|done|done|]. intros ? ? ?. by apply ends_ret.
  - unfold Discover, rebuildActiveCatalog, persistActiveCatalog. stays_unrouted.
  - unfold commit_probe, rebuildActiveCatalog, persistActiveCatalog. stays_unrouted.
  - unfold TeamRoutesRefresh, publish_routes, persistTeamCatalog. stays_unrouted.
  - unfold TeamRouteUpsert, mutateTeamRoutes, publish_routes, persistTeamCatalog. stays_unrouted.
  - unfold TeamRouteRemove, mutateTeamRoutes, publish_routes, persistTeamCatalog. stays_unrouted.
  - unfold SetTeamRouteApplier. stays_unrouted.
Qed.

Lemma serves_unrouted w v : rtc serves w v -> unrouted w -> unrouted v.
Proof.
  induction 1 as [|w1 w2 w3 [now a w fs w' Ha Hp] _ IH]; [done|]. intros Hw. apply IH.
  pose proof (perform_unrouted now a w Hw Ha fs) as Hends. destruct (perform apply now a w fs); cbn in *; by simplify_eq.
Qed.

Lemma discover_refused now answer w fs : unrouted w -> reply_of (Discover now answer w fs) = None.
Proof.
  intros Hw. unfold Discover, checked. destruct answer as [models|]; [|done].
  unfold mbind, io_bind, mret, io_ret, memory. cbn [w_service w_files w_applied].
  destruct (writeJSONAtomic _ _ _ _) as [u w1 fs1| |] eqn:Hwrite; [|done..]. unfold writeJSONAtomic in Hwrite.
  apply bind_inv in Hwrite as (u1 & w2 & fs2 & ->%touch_inv & Hwrite). apply call_inv in Hwrite. injection Hwrite as _ <-.
  by edestruct unrouted_refused as [e ->].
Qed.
Lemma probe_refused now entries w fs : unrouted w -> reply_of (commit_probe now entries w fs) = None.
Proof.
  intros Hw. unfold commit_probe, mbind, io_bind, memory, service. cbn [w_service w_files w_applied].
  destruct (writeJSONAtomic _ _ _ _) as [u w1 fs1| |] eqn:Hwrite; [|done..]. unfold writeJSONAtomic in Hwrite.
  apply bind_inv in Hwrite as (u1 & w2 & fs2 & ->%touch_inv & Hwrite). apply call_inv in Hwrite. injection Hwrite as _ <-.
  by edestruct unrouted_refused as [e ->].
Qed.

(** C24: An update that would disable the last enabled route is refused, and its
    mutation, revision and files are as before; but the flag is cleared in memory,
    since the configuration it goes back to has the same array of routes.  From
    then on, for as long as the process serves requests of any kind, with any of
    their calls failing, and no update enables a route, no route is enabled, what
    is on disk notwithstanding, and every discovery and every probe fails.  (The
    files being as they were, a restart ends it.) *)
Theorem refused_update_leaks now r w fs :
  check_update r = Ok tt ->
  find_receipt (cu_MutationID r) (cf_Mutations (sv_config (w_service w))) = None ->
  cu_ExpectedRevision r = cf_Revision (sv_config (w_service w)) ->
  cu_Enabled r = false -> Forall (fun route => rs_Enabled route = true -> rs_RouteID route = cu_RouteID r) (routes_of (w_service w)) ->
  exists w',
    ConfigUpdate now r w fs = Raised (Contract "invalid_argument" "at least one product-qualified route must remain enabled") w' fs /\
    w_files w' = w_files w /\ sv_config (w_service w') = sv_config (w_service w) /\
    hasEnabledRoute (routes_of (w_service w')) = false /\
    (forall v, rtc serves w' v ->
       hasEnabledRoute (routes_of (w_service v)) = false /\
       (forall now' answer fs', reply_of (Discover now' answer v fs') = None) /\
       (forall now' entries fs', reply_of (commit_probe now' entries v fs') = None)).
Proof.
  intros Hcheck Hnew Hrev Hoff Honly. destruct w as [s d applied]. cbn [w_service w_files] in *.
  set (a := cf_Routes (sv_config s)). set (cleared := set_enabled (cu_RouteID r) false (routes_of s)).
  assert (hasEnabledRoute cleared = false) as Hnone by by apply none_enabled.
  set (s' := with_config (sv_config s) (with_array a cleared s)).
  assert (routes_of s' = cleared) as Hroutes by (unfold routes_of, array_at, s'; cbn; by rewrite lookup_insert_eq).
  set (w' := {| w_service := s'; w_files := d; w_applied := applied |}).
  assert (unrouted w') as Hw' by (unfold unrouted; cbn; by rewrite Hroutes).
  exists w'. split_and!; [|done|done|done|].
  - unfold ConfigUpdate. rewrite Hcheck. unfold mbind, io_bind, checked, service, mret, io_ret. cbn [w_service].
    rewrite Hnew, Hrev, Z.eqb_refl. cbn [negb]. unfold apply_update, mbind, io_bind, memory, service. cbn [w_service w_files w_applied].
    rewrite Hoff. fold a. change (set_enabled (cu_RouteID r) false (array_at a s)) with cleared.
    replace (routes_of (with_array a cleared s)) with cleared by (unfold routes_of, array_at; cbn; by rewrite lookup_insert_eq).
    by rewrite Hnone.
  - intros v Hv. pose proof (serves_unrouted _ _ Hv Hw') as Hvu. split_and!; [exact Hvu| |]; intros.
    + by apply discover_refused.
    + by apply probe_refused.
Qed.

(** ** What a start finds *)








(** ** Imported team routes *)

Definition bad_team_config (f : file teamConfigFile) : Prop :=
  exists c, f = Holds c /\ is_ok (validateTeamRoutes (cf_Routes c)) = false.
Lemma bad_team_changes : changes_kept (fun _ => False) everywhere (fun _ => False) (fun _ => False) everywhere everywhere everywhere bad_team_config.
Proof. by constructor. Qed.
Lemma bad_team_starts : starts_kept everywhere (fun _ => False) everywhere everywhere everywhere bad_team_config.
Proof. constructor; try done; [by intros c (c' & ? & _)|]. intros c (c' & [= <-] & Hc) _ Hv. by rewrite Hv in Hc. Qed.

(** Where there is no team configuration yet, a catalog named by the environment
    whose routes teams cannot use, valid as it may be, is refused by the import
    only after it has been written: no later start succeeds, also after the
    environment has been put right. *)
Theorem legacy_import_blocks_start find now catalog d :
  rd_team_config d = Absent ->
  is_ok (validateTeamRoutes (sort_routes (map legacy_route (cat_Models catalog)))) = false ->
  exists e d', loadTeamRoutes find now (Some (Ok catalog)) d [] = Raised e d' [] /\
    forall y, rtc step (Stopped d') y -> exists d'', y = Stopped d''.
Proof.
  intros Habs Hbad. set (config := {| cf_SchemaVersion := APIVersion; cf_Revision := 1;
    cf_Routes := sort_routes (map legacy_route (cat_Models catalog)); cf_UpdatedAt := now; cf_Mutations := [] |}).
  set (d' := set_team_config (Holds config) d). destruct (validateTeamRoutes (cf_Routes config)) as [|e] eqn:Hv; [by cbn in Hv; rewrite Hv in Hbad|].
  exists e, d'. split.
  - unfold loadTeamRoutes, readJSONStrict, readJSON, writeJSONAtomic, touch, call, attempt, mbind, io_bind, mret, io_ret, checked.
    rewrite Habs. cbn -[validateTeamRoutes sort_routes]. fold config. cbn in Hv. by rewrite Hv.
  - intros y Hsteps. assert (bad_team_config (rd_team_config d')) as Hbad' by (exists config; split; [done|by rewrite Hv]).
    assert (system_holds (files_ok everywhere everywhere bad_team_config) (service_ok everywhere (fun _ => False) everywhere) y) as Hy.
    { eapply (steps_keep apply _ _ _ _ _ _ _ _); [| |exact Hsteps|by split_and!].
      - destruct bad_team_changes. by constructor.
      - apply bad_team_starts. }
    destruct y as [w|d'']; [by destruct Hy as [_ (_ & _ & [])]|by exists d''].
Qed.
End theory.
