(* ===== verification/RoutingExamples.v ===== *)
(** * A routing service to evaluate

    A service that has started without files, on a machine with the Codex and
    OpenCode command lines, and the witnesses of the theorems about it.  The digest
    of a catalog is a checksum of the ids of its models. *)

From S2P Require Import Prelude GoText Routing Resolver Catalog Context Files Handoff.
From S2P Require Import RouteConfig TeamRoutes RoutingConfig RoutingSystem RoutingConfigTheory RoutingRefusals.
#[local] Open Scope string_scope.
#[local] Open Scope list_scope.
#[local] Open Scope Z_scope.
#[local] Existing Instance demo_sha.

Definition id_digest : CatalogDigest.
Proof.
  refine {| catalog_digest := fun c => of_list (hex_text 64 (checksum (join "," (map mc_ID (cat_Models c))))) |}.
  intros c. exact (hashBytes_hex (join "," (map mc_ID (cat_Models c)))).
Defined.
#[local] Existing Instance id_digest.

Definition demo_find (name : string) : lookup :=
  if name =s "claude" then NotInPath else FoundAt ("/usr/bin/" +:+ name).
Definition demo_apply (ok : bool) (catalog : CapabilityCatalogV1) (drivers : list TeamDriverStatus) : option string :=
  if ok then None else Some "driver cannot be registered".
Definition start_demo (legacy : option (result string CapabilityCatalogV1)) (d : route_files) : system :=
  started (NewService demo_find legacy 1000 d []).
(** Stands for what a call does not give *)
Definition no_world : world := {|
  w_service := {| sv_config := in_memory (default_config 0); sv_arrays := ∅;
                  sv_discovery := {| df_SchemaVersion := ""; df_ObservedAt := 0; df_Models := [] |};
                  sv_available := {| af_SchemaVersion := ""; af_Entries := [] |};
                  sv_registry := {| reg_activeHash := ""; reg_catalogs := ∅ |};
                  sv_teamConfig := {| cf_SchemaVersion := ""; cf_Revision := 0; cf_Routes := []; cf_UpdatedAt := 0; cf_Mutations := [] |};
                  sv_teamDrivers := []; sv_teamApplier := false |};
  w_files := no_files; w_applied := [] |}.
Definition world_of (y : system) : world := match y with Running w => w | Stopped _ => no_world end.
Definition demo_update (id : string) (revision : Z) (model : string) (enabled : bool) : ConfigUpdateRequest := {|
  cu_SchemaVersion := APIVersion; cu_MutationID := id; cu_ExpectedRevision := revision;
  cu_RouteID := "codex/local/" +:+ model; cu_Enabled := enabled |}.
Definition demo_upsert (id : string) (revision : Z) (enabled : bool) : TeamRouteUpsertRequest := {|
  tu_SchemaVersion := APIVersion; tu_MutationID := id; tu_ExpectedRevision := revision; tu_RouteID := "codex/writer/gpt-5.6-sol";
  tu_Driver := "codex"; tu_Provider := "local"; tu_Model := "gpt-5.6-sol"; tu_Enabled := enabled |}.

(** What a call that returns leaves, and what it answers *)
Definition world_after {A} (o : io_end world ConfigError A) : world :=
  match o with Returned _ w _ | Raised _ w _ => w | Died _ => no_world end.
Definition answer_of {A} (o : io_end world ConfigError A) (otherwise : A) : A :=
  match o with Returned a _ _ => a | _ => otherwise end.
Definition rest_of {A} (o : io_end world ConfigError A) : list fate :=
  match o with Returned _ _ fs | Raised _ _ fs => fs | Died _ => [] end.
Definition returns {W A} (o : io_end W ConfigError A) : bool := match o with Returned _ _ _ => true | _ => false end.
Lemma returns_eq {A} (o : io_end world ConfigError A) (otherwise : A) :
  returns o = true -> o = Returned (answer_of o otherwise) (world_after o) (rest_of o).
Proof. by destruct o. Qed.
Definition runs (y : system) : bool := match y with Running _ => true | Stopped _ => false end.
Lemma start_step legacy d :
  runs (start_demo legacy d) = true -> step (demo_apply true) (Stopped d) (Running (world_of (start_demo legacy d))).
Proof.
  intros H. replace (Running (world_of (start_demo legacy d))) with (start_demo legacy d) by by destruct (start_demo legacy d).
  apply (step_start _ demo_find legacy 1000 d []).
Qed.

Definition demo_world : world := world_of (start_demo None no_files).
Lemma demo_starts : runs (start_demo None no_files) = true.
Proof. vm_compute. reflexivity. Qed.
Lemma demo_reachable : rtc (step (demo_apply true)) (Stopped no_files) (Running demo_world).
Proof. exact (rtc_once _ _ (start_step None no_files demo_starts)). Qed.

(** Disabling luna, and the service after a restart *)
Definition disable_luna := demo_update "m-1" 1 "gpt-5.6-luna" false.
Definition no_answer : ConfigUpdateResponse := {| cur_Config := default_config 0; cur_Replayed := true |}.
Definition update : io_end world ConfigError ConfigUpdateResponse := ConfigUpdate 2000 disable_luna demo_world [].
Lemma demo_updates : returns update && negb (cur_Replayed (answer_of update no_answer)) = true.
Proof. vm_compute. reflexivity. Qed.
Definition restarted : system := start_demo None (w_files (world_after update)).
Lemma updated_restarts : runs restarted = true.
Proof. vm_compute. reflexivity. Qed.
Lemma demo_restart : relations.nsteps (step (demo_apply true)) 2 (Running (world_after update)) (Running (world_of restarted)).
Proof.
  apply (relations.nsteps_l _ _ _ (Stopped (w_files (world_after update))) _); [exact (step_exit _ (world_after update))|].
  exact (relations.nsteps_once _ _ (start_step None (w_files (world_after update)) updated_restarts)).
Qed.

(** The retry after the restart is a replay. *)
Definition retry : io_end world ConfigError ConfigUpdateResponse := ConfigUpdate 3000 disable_luna (world_of restarted) [].
Lemma retry_answers : returns retry = true.
Proof. vm_compute. reflexivity. Qed.
Lemma update_applied_once_witness : returns retry = true /\ cur_Replayed (answer_of retry no_answer) = true.
Proof.
  destruct (andb_prop _ _ demo_updates) as [Hret Hnew]. split; [exact retry_answers|].
  refine (proj1 (update_applied_once (demo_apply true) 2 _ _ demo_restart)
    2000 disable_luna demo_world [] _ _ 3000 disable_luna _ [] _ _
    (returns_eq update no_answer Hret) (proj1 (negb_true_iff _) Hnew) _ _ eq_refl (returns_eq retry no_answer retry_answers)); cbn; lia.
Defined.

(** A probe that luna does not answer, and a restart *)
Definition demo_probe (profile : ProductProfile) : ProbeResult * Z :=
  ({| pr_Available := pp_Model profile ≠s "gpt-5.6-luna"; pr_Diagnostic := " timed  out " |}, 2000).
Definition demo_entries : list AvailabilityEntry := map (probe_entry demo_probe) ProductProfiles.
Definition probing : io_end world ConfigError ProbeResponse := commit_probe 2000 demo_entries demo_world [].
Definition probe_answer : ProbeResponse := answer_of probing {| prr_Entries := []; prr_CatalogHash := "" |}.
Lemma demo_probes : returns probing = true.
Proof. vm_compute. reflexivity. Qed.
Definition probed_restart : system := start_demo None (w_files (world_after probing)).
Lemma probed_restarts : runs probed_restart = true.
Proof. vm_compute. reflexivity. Qed.
Lemma probed_steps : rtc (step (demo_apply true)) (Running (world_after probing)) (Running (world_of probed_restart)).
Proof.
  apply (rtc_l _ _ (Stopped (w_files (world_after probing)))); [exact (step_exit _ (world_after probing))|].
  exact (rtc_once _ _ (start_step None (w_files (world_after probing)) probed_restarts)).
Qed.
Lemma reported_catalog_survives_witness :
  exists c, CatalogByHash (sv_registry (w_service (world_of probed_restart))) (prr_CatalogHash probe_answer) = Some c /\
            CatalogHash c = Ok (prr_CatalogHash probe_answer).
Proof.
  exact (reported_catalog_survives (demo_apply true) no_files demo_world 2000 demo_entries [] probe_answer _ _ _
    demo_reachable (returns_eq probing _ demo_probes) probed_steps).
Defined.

Lemma team_catalog_total_witness : validateTeamRoutes (cf_Routes (sv_teamConfig (w_service demo_world))) = Ok tt.
Proof. exact (proj1 (team_catalog_total (demo_apply true) no_files demo_world demo_reachable)). Defined.

(** A service with one enabled route, which is then disabled *)
Definition only_sol_config : configFile (list RouteSetting) := {|
  cf_SchemaVersion := APIVersion; cf_Revision := 3; cf_UpdatedAt := 1000; cf_Mutations := [];
  cf_Routes := [{| rs_RouteID := "codex/local/gpt-5.6-luna"; rs_Enabled := false |};
                {| rs_RouteID := "codex/local/gpt-5.6-sol"; rs_Enabled := true |};
                {| rs_RouteID := "codex/local/gpt-5.6-terra"; rs_Enabled := false |}] |}.
Definition only_sol : world := {|
  w_service := with_config (in_memory only_sol_config) (with_array 0 (cf_Routes only_sol_config) (w_service no_world));
  w_files := set_config (Holds only_sol_config) no_files; w_applied := [] |}.
Definition disable_sol := demo_update "m-3" 3 "gpt-5.6-sol" false.
Lemma only_sol_enabled : Forall (fun route => rs_Enabled route = true -> rs_RouteID route = cu_RouteID disable_sol) (routes_of (w_service only_sol)).
Proof. repeat constructor; done. Qed.
Lemma only_sol_ready : check_update disable_sol = Ok tt.
Proof. vm_compute. reflexivity. Qed.
Lemma refused_update_leaks_witness : exists w',
  ConfigUpdate 4000 disable_sol only_sol [] =
    Raised (Contract "invalid_argument" "at least one product-qualified route must remain enabled") w' [] /\
  hasEnabledRoute (routes_of (w_service w')) = false /\
  forall v, rtc (serves (demo_apply true)) w' v ->
    hasEnabledRoute (routes_of (w_service v)) = false /\
    forall answer, reply_of (Discover 5000 answer v []) = None.
Proof.
  destruct (refused_update_leaks (demo_apply true) 4000 disable_sol only_sol [] only_sol_ready eq_refl eq_refl eq_refl only_sol_enabled)
    as (w' & H & _ & _ & Hnone & Hever).
  exists w'. split; [exact H|split; [exact Hnone|]]. intros v Hv. destruct (Hever v Hv) as (Hroutes & Hdiscover & _).
  split; [exact Hroutes|]. intros answer. exact (Hdiscover 5000 answer []).
Defined.


(** ** A change of team routes whose applier fails

    The change is written and its receipt kept; the error tells the caller to
    retry, and the retry is a replay that does not ask the applier. *)
Definition with_team_applier (w : world) : world :=
  {| w_service := with_applier true (w_service w); w_files := w_files w; w_applied := [] |}.
Definition add_writer := demo_upsert "t-1" 1 true.
Definition failed_upsert : io_end world ConfigError TeamRoutesMutationResponse :=
  TeamRouteUpsert (demo_apply false) 2000 add_writer (with_team_applier demo_world) [].
Definition repeated_upsert : io_end world ConfigError TeamRoutesMutationResponse :=
  TeamRouteUpsert (demo_apply true) 3000 add_writer (world_after failed_upsert) [].
Example applier_not_repeated :
  returns failed_upsert = false /\ returns repeated_upsert = true /\
  length (cf_Routes (sv_teamConfig (w_service (world_after repeated_upsert)))) = 5%nat /\
  w_applied (world_after repeated_upsert) = [].
Proof. vm_compute. done. Qed.

(** ** An update that cannot be written

    It is reported as failed, and its mutation and revision are taken back; but the
    route stays disabled in memory and the active catalog is without it. *)
Definition unwritten : io_end world ConfigError ConfigUpdateResponse :=
  ConfigUpdate 2000 disable_luna demo_world [Works; Works; Fails].
Definition active_models (w : world) : list string :=
  match ActiveCatalog (sv_registry (w_service w)) with Ok (catalog, _) => map mc_ID (cat_Models catalog) | Err _ => [] end.
Example unwritten_update_applies :
  returns unwritten = false /\ cf_Revision (sv_config (w_service (world_after unwritten))) = 1 /\
  active_models demo_world = ["codex/local/gpt-5.6-luna"; "codex/local/gpt-5.6-sol"; "codex/local/gpt-5.6-terra"] /\
  active_models (world_after unwritten) = ["codex/local/gpt-5.6-sol"; "codex/local/gpt-5.6-terra"].
Proof. vm_compute. done. Qed.
