(* ===== verification/MemoryRecord.v ===== *)
(** * Memory records and their times

    The Memory part of internal/contextcompiler/contract_v2.go: records, their
    JSON and ValidateMemoryRecordV1; and time.Parse for RFC 3339, which the
    validators of records and receipts use. *)

From S2P Require Import Prelude GoText Json JsonTree JsonTreeTheory JsonStrings Context TeamContract.
#[local] Open Scope string_scope.
#[local] Open Scope list_scope.
#[local] Open Scope Z_scope.

(** ** time.Parse

    [parse_rfc3339 s] is the instant in nanoseconds since the beginning of year 1,
    as in [rfc3339].  Hours may have one digit and a fraction any number of digits,
    of which nine count; offsets go to 24 hours and 60 minutes. *)

Definition leap_year (year : Z) : bool :=
  (year mod 4 =? 0) && (negb (year mod 100 =? 0) || (year mod 400 =? 0)).
Definition days_in (month year : Z) : Z :=
  if month =? 2 then if leap_year year then 29 else 28
  else if (month =? 4) || (month =? 6) || (month =? 9) || (month =? 11) then 30 else 31.
(** The days from 1 January of year 1 *)
Definition days_of (year month day : Z) : Z :=
  let y := if month <=? 2 then year - 1 else year in
  let mp := if month <=? 2 then month + 9 else month - 3 in
  365 * y + y / 4 - y / 100 + y / 400 + (153 * mp + 2) / 5 + day - 1 - 306.

(** A number of exactly [k] digits; one or two digits; a character *)
Definition number (k : nat) (l : list ascii) : option (Z * list ascii) :=
  if (length (take k l) =? k)%nat && forallb is_digit (take k l) then Some (decimal (take k l), drop k l) else None.
Definition hour (l : list ascii) : option (Z * list ascii) :=
  match number 2 l with Some r => Some r | None => number 1 l end.
Definition expect (c : ascii) (l : list ascii) : option (list ascii) :=
  match l with a :: l => if Ascii.eqb a c then Some l else None | [] => None end.

(** parseNanoseconds of the fraction, if there is one *)
Definition nanoseconds (l : list ascii) : Z * list ascii :=
  match l with
  | point :: c :: _ =>
      if one_of ".," point && is_digit c then
        let l := tail l in
        let ds := take 9 (run_of_digits l) in
        (decimal ds * 10 ^ (9 - Z.of_nat (length ds)), digits l)
      else (0, l)
  | _ => (0, l)
  end.
(** The zone's offset in seconds *)
Definition zone (l : list ascii) : option (Z * list ascii) :=
  match l with
  | c :: rest =>
      if Ascii.eqb c "Z" then Some (0, rest) else
      '(hours, l) ← number 2 rest;
      l ← expect ":" l;
      '(minutes, l) ← number 2 l;
      let offset := (hours * 60 + minutes) * 60 in
      if (24 <? hours) || (60 <? minutes) then None
      else if Ascii.eqb c "+" then Some (offset, l)
      else if Ascii.eqb c "-" then Some (- offset, l)
      else None
  | [] => None
  end.

Definition parse_time (l : list ascii) : option Z :=
  '(year, l) ← number 4 l; l ← expect "-" l;
  '(month, l) ← number 2 l; l ← expect "-" l;
  '(day, l) ← number 2 l; l ← expect "T" l;
  '(hours, l) ← hour l; l ← expect ":" l;
  '(minutes, l) ← number 2 l; l ← expect ":" l;
  '(seconds, l) ← number 2 l;
  let '(ns, l) := nanoseconds l in
  '(offset, l) ← zone l;
  if (month <? 1) || (12 <? month) || (23 <? hours) || (59 <? minutes) || (59 <? seconds) || negb (bool_decide (l = []))
     || (day <? 1) || (days_in month year <? day)
  then None
  else Some ((days_of year month day * 86400 + hours * 3600 + minutes * 60 + seconds - offset) * 1000000000 + ns).
Definition parse_rfc3339 (s : string) : option Z := parse_time (to_list s).

Example parse_epoch : parse_rfc3339 "1970-01-01T00:00:00Z" = Some (719162 * 86400 * 1000000000).
Proof. vm_compute. reflexivity. Qed.
Example parse_offset : parse_rfc3339 "2024-02-29T3:02:03,5+02:00" = parse_rfc3339 "2024-02-29T01:02:03.500Z".
Proof. vm_compute. reflexivity. Qed.
Example parse_no_leap_day : parse_rfc3339 "2023-02-29T00:00:00Z" = None.
Proof. vm_compute. reflexivity. Qed.

(** ** Records *)

Definition MemoryRecordV1Version := "fishyume.memory/v1".
Definition MaxMemoryContentBytes := 16 * 1024.
Definition MaxProjectMemoryRecords := 2048.
Definition MaxMemorySupersedes := 16.
Definition MemoryDecision := "decision".
Definition MemoryConstraint := "constraint".
Definition MemoryFact := "fact".
Definition MemoryProcedure := "procedure".
Definition MemoryPreference := "preference".
Definition MemoryActive := "active".
Definition MemorySuperseded := "superseded".
Definition MemoryDeleted := "deleted".
Definition MemoryWriterUser := "user".
Definition MemoryWriterHostAgent := "host_agent".
Definition MemoryWriterMigration := "migration".
Definition MemoryWriterEngine := "engine".

Record MemoryProvenanceV1 := {
  mv_Writer : string; mv_Source : string; mv_SourceVersion : string; mv_SourceHash : string; mv_Reason : string }.
Record MemoryRetentionV1 := { mt_ExpiresAt : string; mt_MaxUses : Z }.
Record MemoryRecordV1 := {
  mr_SchemaVersion : string; mr_ID : string; mr_Project : string; mr_Type : string; mr_Scope : string;
  mr_Content : string; mr_ContentHash : string; mr_Sensitivity : string; mr_Provenance : MemoryProvenanceV1;
  mr_CreatedAt : string; mr_UpdatedAt : string; mr_Supersedes : list string; mr_State : string; mr_StateReason : string;
  mr_UseCount : Z; mr_Retention : MemoryRetentionV1 }.
#[export] Instance MemoryProvenanceV1_eq_dec : EqDecision MemoryProvenanceV1.
Proof. solve_decision. Defined.
#[export] Instance MemoryRetentionV1_eq_dec : EqDecision MemoryRetentionV1.
Proof. solve_decision. Defined.
#[export] Instance MemoryRecordV1_eq_dec : EqDecision MemoryRecordV1.
Proof. solve_decision. Defined.

Definition encode_provenance (p : MemoryProvenanceV1) : json := jobject [
  Some ("writer", jstring (mv_Writer p)); Some ("source", jstring (mv_Source p));
  Some ("sourceVersion", jstring (mv_SourceVersion p)); Some ("sourceHash", jstring (mv_SourceHash p));
  Some ("reason", jstring (mv_Reason p))].
Definition encode_retention (r : MemoryRetentionV1) : json := jobject [
  omitempty (mt_ExpiresAt r =s "") "expiresAt" (jstring (mt_ExpiresAt r));
  omitempty (mt_MaxUses r =? 0) "maxUses" (jint (mt_MaxUses r))].
Definition encode_record (r : MemoryRecordV1) : json := jobject [
  Some ("schemaVersion", jstring (mr_SchemaVersion r)); Some ("id", jstring (mr_ID r));
  Some ("project", jstring (mr_Project r)); Some ("type", jstring (mr_Type r)); Some ("scope", jstring (mr_Scope r));
  omitempty (mr_Content r =s "") "content" (jstring (mr_Content r)); Some ("contentHash", jstring (mr_ContentHash r));
  Some ("sensitivity", jstring (mr_Sensitivity r)); Some ("provenance", encode_provenance (mr_Provenance r));
  Some ("createdAt", jstring (mr_CreatedAt r)); Some ("updatedAt", jstring (mr_UpdatedAt r));
  Some ("supersedes", jarray jstring (mr_Supersedes r)); Some ("state", jstring (mr_State r));
  omitempty (mr_StateReason r =s "") "stateReason" (jstring (mr_StateReason r)); Some ("useCount", jint (mr_UseCount r));
  Some ("retention", encode_retention (mr_Retention r))].

(** ContractError.Error *)
Definition context_code (code : ContextErrorCode) : string :=
  match code with
  | CodeContextInvalidComponent => "context_invalid_component"
  | CodeContextRequiredMissing => "context_required_missing"
  | CodeContextBudgetUnsatisfiable => "context_budget_unsatisfiable"
  | CodeContextSourceUnavailable => "context_source_unavailable"
  | CodeContextHashMismatch => "context_hash_mismatch"
  | CodeContextVersionUnsupported => "context_version_unsupported"
  | CodeMemoryInvalidRecord => "memory_invalid_record"
  | CodeMemoryConflict => "memory_conflict"
  | CodeMemoryNotFound => "memory_not_found"
  end.
Definition context_error_text (e : ContextError) : string :=
  context_code (ce_Code e) +:+ ": " +:+ ce_Message e +:+ (if ce_SubjectID e ≠s "" then " (" +:+ ce_SubjectID e +:+ ")" else "").

Definition validMemoryType (value : string) : bool :=
  (value =s MemoryDecision) || (value =s MemoryConstraint) || (value =s MemoryFact) || (value =s MemoryProcedure) ||
  (value =s MemoryPreference).
Definition validMemoryState (value : string) : bool :=
  (value =s MemoryActive) || (value =s MemorySuperseded) || (value =s MemoryDeleted).
Definition validMemoryWriter (value : string) : bool :=
  (value =s MemoryWriterUser) || (value =s MemoryWriterHostAgent) || (value =s MemoryWriterMigration).

(** sort.StringsAreSorted *)
Fixpoint strings_sorted (l : list string) : bool :=
  match l with a :: ((b :: _) as rest) => negb (String.ltb b a) && strings_sorted rest | _ => true end.

(** The loop over the superseded identities *)
Definition check_superseded (id : string) (seen : gset string) (superseded : string) : result ContextError (gset string) :=
  fail_if negb (contract_id superseded) || (superseded =s id)
    with contractError CodeMemoryConflict "Memory supersedes contains an invalid identity" id ;;
  fail_if seen_in superseded seen
    with contractError CodeMemoryConflict "Memory supersedes contains a duplicate identity" id ;;
  Ok ({[superseded]} ∪ seen).

Section validation.
  Context {SHA : Sha256}.

Definition ValidateMemoryRecordV1 (record : MemoryRecordV1) : result ContextError unit :=
  let id := mr_ID record in
  let invalid message := contractError CodeMemoryInvalidRecord message id in
  fail_if mr_SchemaVersion record ≠s MemoryRecordV1Version
    with contractError CodeContextVersionUnsupported "unsupported Memory record version" id ;;
  fail_if negb (contract_id id) || unclean (mr_Project record) || (4096 <? len (mr_Project record)) ||
          unclean (mr_Scope record) || (256 <? len (mr_Scope record))
    with invalid "Memory identity, project, or scope is invalid" ;;
  fail_if negb (validMemoryType (mr_Type record)) || negb (validMemoryState (mr_State record)) ||
          negb (validMemoryWriter (mv_Writer (mr_Provenance record)))
    with invalid "Memory type, state, or writer is invalid" ;;
  fail_if (mr_Sensitivity record ≠s SensitivityPublic) && (mr_Sensitivity record ≠s SensitivityProject)
    with invalid "sensitive content cannot be stored as long-term Memory" ;;
  let p := mr_Provenance record in
  fail_if bad_provenance (mv_Source p) (mv_SourceVersion p) (mv_SourceHash p) || unclean (mv_Reason p) || (1024 <? len (mv_Reason p))
    with invalid "Memory provenance is invalid" ;;
  match parse_rfc3339 (mr_CreatedAt record) with
  | None => Err (invalid "Memory creation time must be RFC3339")
  | Some createdAt =>
      fail_if match parse_rfc3339 (mr_UpdatedAt record) with None => true | Some updatedAt => updatedAt <? createdAt end
        with invalid "Memory update time must be RFC3339 and not precede creation" ;;
      fail_if (mr_State record ≠s MemoryActive) && (trim_space (mr_StateReason record) =s "")
        with invalid "non-active Memory requires a state reason" ;;
      fail_if (mr_StateReason record ≠s trim_space (mr_StateReason record)) || (1024 <? len (mr_StateReason record))
        with invalid "Memory state reason exceeds its bound" ;;
      _ ← (if mr_State record =s MemoryDeleted then
             fail_if (mr_Content record ≠s "") || negb (validHash (mr_ContentHash record))
               with invalid "deleted Memory must retain only a valid content hash" ;;
             Ok tt
           else
             fail_if (trim_space (mr_Content record) =s "") || (MaxMemoryContentBytes <? len (mr_Content record)) ||
                     (mr_ContentHash record ≠s hashBytes (mr_Content record))
               with contractError CodeContextHashMismatch "Memory content is empty, oversized, or does not match its hash" id ;;
             Ok tt);
      fail_if (MaxMemorySupersedes <? len_slice (mr_Supersedes record)) || negb (strings_sorted (mr_Supersedes record))
        with invalid "Memory supersedes must be bounded and sorted" ;;
      _ ← range_loop (check_superseded id) ∅ (mr_Supersedes record);
      let maxUses := mt_MaxUses (mr_Retention record) in
      fail_if (maxUses <? 0) || (10000 <? maxUses) || (mr_UseCount record <? 0) || (0 <? maxUses) && (maxUses <? mr_UseCount record)
        with invalid "Memory maxUses is outside its bound" ;;
      fail_if (mt_ExpiresAt (mr_Retention record) ≠s "") &&
              match parse_rfc3339 (mt_ExpiresAt (mr_Retention record)) with None => true | Some expiresAt => expiresAt <=? createdAt end
        with invalid "Memory expiry must be RFC3339 and after creation" ;;
      Ok tt
  end.
End validation.

(** ** Times that are written are read back *)

Lemma civil_year days year month day :
  days_of year month day = days -> 1 <= month <= 12 -> 1 <= day <= 31 -> 0 <= days < 3652059 -> 1 <= year <= 9999.
Proof.
  intros <- Hm Hd. unfold days_of. destruct (month <=? 2) eqn:H2; bool_props.
  - assert (306 <= (153 * (month + 9) + 2) / 5 <= 337) as Hmp by (Z.to_euclidean_division_equations; lia).
    revert Hmp. generalize ((153 * (month + 9) + 2) / 5). intros mp Hmp Hd'. Z.to_euclidean_division_equations; lia.
  - assert (0 <= (153 * (month - 3) + 2) / 5 <= 275) as Hmp by (Z.to_euclidean_division_equations; lia).
    revert Hmp. generalize ((153 * (month - 3) + 2) / 5). intros mp Hmp Hd'. Z.to_euclidean_division_equations; lia.
Qed.

(** [s] is [n] in [k] digits. *)
Definition written (k : nat) (n : Z) (s : string) : Prop :=
  length (to_list s) = k /\ forallb is_digit (to_list s) = true /\ decimal (to_list s) = n.

Lemma number_written k n s rest : written k n s -> number k (to_list s ++ rest) = Some (n, rest).
Proof.
  intros (Hk & Hd & <-). unfold number. rewrite take_app_length', drop_app_length' by done. by rewrite Hk, Nat.eqb_refl, Hd.
Qed.

Lemma decimal_app l1 l2 : decimal (l1 ++ l2) = decimal l1 * 10 ^ Z.of_nat (length l2) + decimal l2.
Proof.
  induction l2 as [|c l2 IH] using rev_ind; [cbn; rewrite app_nil_r; lia|].
  rewrite app_assoc, !decimal_snoc, IH, length_app. cbn [length]. rewrite Nat2Z.inj_add, Z.pow_add_r by lia. cbn. lia.
Qed.

Lemma digit_value c : is_digit c = true -> 0 <= Z.of_N (N_of_ascii c) - 48 <= 9.
Proof. unfold is_digit, char_in. rewrite andb_true_iff, !N.leb_le. lia. Qed.

Lemma decimal_bound l : forallb is_digit l = true -> 0 <= decimal l < 10 ^ Z.of_nat (length l).
Proof.
  induction l as [|c l IH] using rev_ind; [by cbn|]. rewrite forallb_app, andb_true_iff. intros [Hl Hc].
  rewrite decimal_snoc, length_app. cbn [length forallb] in *. rewrite andb_true_r in Hc. apply digit_value in Hc. specialize (IH Hl).
  rewrite Nat2Z.inj_add, Z.pow_add_r by lia. cbn. lia.
Qed.

(** The digits of a positive number, of which the first is not 0 *)
Lemma pretty_pos p : exists k, written (S k) (Z.pos p) (pretty (Z.pos p)) /\ 10 ^ Z.of_nat k <= Z.pos p < 10 ^ Z.of_nat (S k).
Proof.
  change (pretty (Z.pos p)) with (pretty (N.pos p)). destruct (pretty_N_digits (N.pos p)) as (c & l & Hl & Hd & Hv & Hz).
  exists (length l). unfold written. rewrite Hl. pose proof (decimal_bound _ Hd) as Hb. rewrite Hv in Hb.
  split; [by split_and!|]. split; [|apply Hb]. cbn [forallb] in Hd. apply andb_true_iff in Hd as [Hc Hd].
  pose proof (digit_value c Hc). pose proof (decimal_bound l Hd). change (c :: l) with ([c] ++ l) in Hv. rewrite decimal_app in Hv.
  change (decimal [c]) with (Z.of_N (N_of_ascii c) - 48) in Hv. destruct (Ascii.eqb c "0") eqn:Hc0.
  - apply Ascii.eqb_eq in Hc0 as ->. rewrite (Hz eq_refl) in Hv. by cbn in Hv.
  - assert (Z.of_N (N_of_ascii c) <> 48); [|nia]. intros H48. apply Ascii.eqb_neq in Hc0. apply Hc0.
    rewrite <-(ascii_N_embedding c). replace (N_of_ascii c) with 48%N by lia. done.
Qed.

(** The digits of [n], of which there are [k] *)
Lemma pretty_written (k : nat) n : (0 < k)%nat -> 0 <= n < 10 ^ Z.of_nat k -> (k = 1%nat \/ 10 ^ (Z.of_nat k - 1) <= n) -> written k n (pretty n).
Proof.
  intros Hpos Hn Hlow. destruct n as [|p|p]; [destruct Hlow as [->|Hlow]; [done|]|..]; [|..|lia].
  { pose proof (Z.pow_pos_nonneg 10 (Z.of_nat k - 1)). lia. }
  destruct (pretty_pos p) as (m & Hw & Hm). replace k with (S m); [done|].
  assert (Z.of_nat m < Z.of_nat k) by (apply (Z.pow_lt_mono_r_iff 10); lia).
  destruct Hlow as [->|Hlow]; [lia|]. assert (Z.of_nat k - 1 < Z.of_nat (S m)) by (apply (Z.pow_lt_mono_r_iff 10); lia). lia.
Qed.

Lemma written_zero k n s : written k n s -> written (S k) n ("0" +:+ s).
Proof.
  intros (Hk & Hd & <-). unfold written. change (to_list ("0" +:+ s)) with ("0"%char :: to_list s).
  split_and!; [cbn; by rewrite Hk|done|]. change ("0"%char :: to_list s) with (["0"%char] ++ to_list s).
  rewrite decimal_app. change (decimal ["0"%char]) with 0. lia.
Qed.

Lemma two_digits_written n : 0 <= n < 100 -> written 2 n (two_digits n).
Proof.
  intros Hn. unfold two_digits. destruct (n <? 10) eqn:H; bool_props; [apply written_zero, pretty_written|apply pretty_written]; cbn; lia.
Qed.

Lemma four_digits_written n : 0 <= n < 10000 -> written 4 n (four_digits n).
Proof.
  intros Hn. unfold four_digits. repeat case_match; bool_props.
  - apply (written_zero 3 n ("00" +:+ pretty n)), (written_zero 2 n ("0" +:+ pretty n)), written_zero, pretty_written; cbn; lia.
  - apply (written_zero 3 n ("0" +:+ pretty n)), written_zero, pretty_written; cbn; lia.
  - apply written_zero, pretty_written; cbn; lia.
  - apply pretty_written; cbn; lia.
Qed.

(** ** The fraction *)

Lemma drop_zeros_spec l : exists k, l = repeat "0"%char k ++ drop_zeros l /\ forall c r, drop_zeros l = c :: r -> Ascii.eqb c "0" = false.
Proof.
  induction l as [|c l (k & Hl & Hc)]; [by exists O|]. cbn [drop_zeros]. destruct (Ascii.eqb c "0") eqn:H0.
  - apply Ascii.eqb_eq in H0 as ->. exists (S k). split; [|done]. cbn [repeat app]. by rewrite Hl at 1.
  - exists O. split; [done|]. intros a r [= -> _]. done.
Qed.

Lemma decimal_zeros k : decimal (repeat "0"%char k) = 0.
Proof. induction k as [|k IH]; [done|]. cbn [repeat]. change (decimal (["0"%char] ++ repeat "0"%char k) = 0). by rewrite decimal_app, IH. Qed.

Lemma digits_stop l c rest : forallb is_digit l = true -> is_digit c = false -> digits (l ++ c :: rest) = c :: rest.
Proof. intros Hl Hc. induction l as [|a l IH]; cbn in *; [by rewrite Hc|]. apply andb_true_iff in Hl as [-> Hl]. by apply IH. Qed.

Lemma nanoseconds_fraction ns c rest : 0 <= ns < 1000000000 -> is_digit c = false -> one_of ".," c = false ->
  nanoseconds (to_list (fraction ns) ++ c :: rest) = (ns, c :: rest).
Proof.
  intros Hns Hc Hp. unfold fraction. destruct (ns =? 0) eqn:H0; bool_props.
  { subst ns. cbn [to_list app]. unfold nanoseconds. destruct rest; [done|]. by rewrite Hp. }
  destruct (pretty_written 10 (1000000000 + ns)) as (Hk & Hd & Hv); [lia|cbn; lia|right; cbn; lia|].
  destruct (to_list (pretty (1000000000 + ns))) as [|a l] eqn:Hl; [done|]. cbn [length] in Hk. apply Nat.succ_inj in Hk.
  cbn [forallb] in Hd. apply andb_true_iff in Hd as [Ha Hd]. pose proof (decimal_bound l Hd) as Hb. rewrite Hk in Hb.
  change (a :: l) with ([a] ++ l) in Hv. rewrite decimal_app, Hk in Hv. change (decimal [a]) with (Z.of_N (N_of_ascii a) - 48) in Hv.
  apply digit_value in Ha. cbn in Hv, Hb. assert (decimal l = ns) as Hdec by lia. clear Hv Ha Hl.
  assert (take 9 (reverse (a :: l)) = reverse l) as ->.
  { rewrite reverse_cons. apply take_app_length'. by rewrite length_reverse. }
  destruct (drop_zeros_spec (reverse l)) as (k & Hr & Hlast). set (m := drop_zeros (reverse l)) in *. clearbody m.
  assert (l = reverse m ++ repeat "0"%char k) as Hm.
  { rewrite <-(reverse_involutive l), Hr, reverse_app. f_equal. unfold reverse. by rewrite <-rev_alt, List.rev_repeat. }
  assert (decimal (reverse m) * 10 ^ Z.of_nat k = ns) as Hval.
  { rewrite <-Hdec. rewrite Hm. rewrite decimal_app, decimal_zeros, repeat_length. lia. }
  assert (length (reverse m) + k = 9)%nat as Hlen by (rewrite <-Hk, Hm; by rewrite length_app, repeat_length).
  assert (forallb is_digit (reverse m) = true) as Hdm by (rewrite Hm, forallb_app in Hd; by apply andb_true_iff in Hd as [-> _]).
  destruct (reverse m) as [|x r] eqn:Hrm; [cbn in Hval; lia|].
  change (to_list ("." +:+ of_list (x :: r)) ++ c :: rest) with ("."%char :: x :: (to_list (of_list r) ++ c :: rest)).
  rewrite to_of_list. cbn [nanoseconds tail].
  assert (is_digit x = true) as -> by (cbn in Hdm; by apply andb_true_iff in Hdm as [-> _]). cbn [one_of existsb orb andb].
  change (x :: r ++ c :: rest) with ((x :: r) ++ c :: rest). unfold run_of_digits. rewrite digits_stop by done.
  rewrite length_app, Nat.add_sub, take_app_length, take_ge by lia. f_equal. rewrite <-Hval. f_equal. f_equal. lia.
Qed.

#[local] Ltac Zify.zify_post_hook ::= Z.to_euclidean_division_equations.
(** The day of the March year lies in its month. *)
Lemma civil_ok days year month day : civil days = (year, month, day) ->
  days_of year month day = days /\ 1 <= month <= 12 /\ 1 <= day <= days_in month year.
Proof.
  unfold civil. set (doe := (days + 306) mod 146097). set (era := (days + 306) / 146097).
  assert (0 <= doe < 146097) as Hdoe by (subst doe; lia).
  assert (days + 306 = era * 146097 + doe) as Hdays by (subst doe era; lia).
  clearbody doe era. 
  set (yoe := (doe - doe / 1460 + doe / 36524 - doe / 146096) / 365).
  assert (0 <= yoe <= 399) as Hyoe by (subst yoe; lia).
  set (doy := doe - (365 * yoe + yoe / 4 - yoe / 100)).
  assert (0 <= doy <= 365) as Hdoy by (subst doy yoe; lia).
  assert (doy = 365 -> (yoe + 1) mod 4 = 0 /\ ((yoe + 1) mod 100 <> 0 \/ yoe = 399)) as Hleap by (subst doy yoe; lia).
  assert (doe = 365 * yoe + yoe / 4 - yoe / 100 + doy) as Hdoe' by (subst doy; lia). clearbody doy yoe.
  set (mp := (5 * doy + 2) / 153). set (dom := doy - (153 * mp + 2) / 5 + 1).
  assert (0 <= mp <= 11) as Hmp by (subst mp; lia).
  assert (1 <= dom <= 31) as Hday by (subst dom mp; lia).
  assert (mp = 1 \/ mp = 3 \/ mp = 6 \/ mp = 8 -> dom <= 30) as Hshort by (subst dom mp; lia).
  assert (mp = 11 -> dom = doy - 336) as Hfeb by (subst dom; lia).
  assert (doy = (153 * mp + 2) / 5 + dom - 1) as Hdoy' by (subst dom; lia). clearbody dom mp.
  intros [= <- <- <-]. unfold days_of, days_in.
  destruct (mp <? 10) eqn:H10; [apply Z.ltb_lt in H10|apply Z.ltb_ge in H10].
  - assert ((mp + 3 <=? 2) = false) as -> by lia. assert ((mp + 3 =? 2) = false) as -> by lia.
    replace (mp + 3 - 3) with mp by lia. split; [clear Hshort Hleap Hfeb; lia|]. split; [lia|].
    destruct ((mp + 3 =? 4) || (mp + 3 =? 6) || (mp + 3 =? 9) || (mp + 3 =? 11)) eqn:Hm; bool_props; lia.
  - assert ((mp - 9 <=? 2) = true) as -> by lia.
    replace (mp - 9 + 9) with mp by lia. replace (yoe + era * 400 + 1 - 1) with (yoe + era * 400) by lia.
    split; [clear Hshort Hleap Hfeb; lia|]. split; [lia|].
    destruct (mp - 9 =? 2) eqn:H2; bool_props; [|replace ((mp - 9 =? 4) || (mp - 9 =? 6) || (mp - 9 =? 9) || (mp - 9 =? 11)) with false by lia; lia].
    unfold leap_year. destruct (decide (doy = 365)) as [H365|]; [|destruct (_ && _); lia].
    specialize (Hleap H365). replace (yoe + era * 400 + 1) with (yoe + 1 + era * 400) by lia.
    replace ((yoe + 1 + era * 400) mod 4) with 0 by lia. cbn [Z.eqb andb].
    destruct Hleap as [_ [Hy|Hy]].
    + replace ((yoe + 1 + era * 400) mod 100 =? 0) with false by lia. cbn. lia.
    + replace ((yoe + 1 + era * 400) mod 400 =? 0) with true by lia. rewrite orb_true_r. lia.
Qed.

Lemma days_in_month month year : days_in month year <= 31.
Proof. unfold days_in. repeat case_match; lia. Qed.

Lemma hour_written n s rest : written 2 n s -> hour (to_list s ++ rest) = Some (n, rest).
Proof. intros H. unfold hour. by rewrite (number_written 2 n). Qed.

(** What time.Format writes for an instant of the years 1 to 9999 in RFC 3339,
    with all its nanoseconds, time.Parse reads as that instant. *)
Theorem rfc3339_round_trip t : 0 <= t < 3652059 * 86400 * 1000000000 -> parse_rfc3339 (rfc3339 t) = Some t.
Proof.
  intros Ht. unfold rfc3339. set (days := t / 1000000000 / 86400). set (clock := t / 1000000000 mod 86400).
  assert (0 <= days < 3652059) as Hdays by (subst days; lia). assert (0 <= clock < 86400) as Hclock by (subst clock; lia).
  assert (t = (days * 86400 + clock) * 1000000000 + t mod 1000000000) as Ht' by (subst days clock; lia).
  assert (0 <= t mod 1000000000 < 1000000000) as Hns by lia. clearbody days clock. revert Ht' Hns. generalize (t mod 1000000000). intros ns -> Hns.
  destruct (civil days) as [[year month] day] eqn:Hc. apply civil_ok in Hc as (Hd & Hm & Hday).
  pose proof (days_in_month month year). apply (civil_year days year month day) in Hdays as Hy; [|lia..].
  unfold parse_rfc3339. rewrite !to_list_app. unfold parse_time.
  assert (forall c rest, expect c (to_list (String c "") ++ rest) = Some rest) as Hexpect.
  { intros c rest. cbn. by rewrite Ascii.eqb_refl. }
  rewrite (number_written 4 year) by (apply four_digits_written; lia). cbn [mbind option_bind]. rewrite Hexpect. cbn [mbind option_bind].
  rewrite (number_written 2 month) by (apply two_digits_written; lia). cbn [mbind option_bind]. rewrite Hexpect. cbn [mbind option_bind].
  rewrite (number_written 2 day) by (apply two_digits_written; lia). cbn [mbind option_bind]. rewrite Hexpect. cbn [mbind option_bind].
  rewrite (hour_written (clock / 3600)) by (apply two_digits_written; lia). cbn [mbind option_bind]. rewrite Hexpect. cbn [mbind option_bind].
  rewrite (number_written 2 (clock / 60 mod 60)) by (apply two_digits_written; lia). cbn [mbind option_bind]. rewrite Hexpect. cbn [mbind option_bind].
  rewrite (number_written 2 (clock mod 60)) by (apply two_digits_written; lia). cbn [mbind option_bind].
  change (to_list "Z") with ["Z"%char]. rewrite nanoseconds_fraction by done. cbn [zone Ascii.eqb eqb].
  rewrite !(proj2 (Z.ltb_ge _ _)) by lia. cbn. f_equal. rewrite Hd. lia.
Qed.
