(* ===== verification/MemoryCatalog.v ===== *)
(** * The Memory catalogs

    internal/store/memory_catalog.go: one catalog of Memory records for each
    project, in a file that is read, validated, changed and replaced as a whole
    under a lock between processes; receipts that make mutations repeatable; and
    internal/application/memory.go over it.

    A project is a directory; its catalog lies under the hash of its path.  What
    the operating system says about the path is an input ([resolved]), as is the
    clock.  A file holds a catalog, or bytes that are none together with the error
    their decoding ends in.  The platform is not Windows, and the fault injector of
    the tests is left out. *)

From S2P Require Import Prelude GoText Json JsonTree Routing Files Context TeamContract AppRequests Cursor RunQueries MemoryRecord.
#[local] Open Scope string_scope.
#[local] Open Scope list_scope.
#[local] Open Scope Z_scope.

Definition MemoryCatalogVersion := "fishyume.memory-catalog/v1".
Definition MaxMemoryReceipts := 4096.
Definition MaxMemoryCatalogBytes := 64 * 1024 * 1024.
Definition DefaultMemoryListLimit := 50.
Definition MaxMemoryListLimit := 100.
Definition memorySourceVersion := "fishyume.application/v1".

Inductive MemoryStoreErrorCode :=
| MemoryStoreInvalid | MemoryStoreConflict | MemoryStoreNotFound | MemoryStoreCorrupt | MemoryStoreUnsupported
| MemoryStoreUnavailable.
Record MemoryStoreError := memoryError { me_Code : MemoryStoreErrorCode; me_Message : string }.
Definition unavailable (message : string) : MemoryStoreError := memoryError MemoryStoreUnavailable message.
Definition corrupt (message : string) : MemoryStoreError := memoryError MemoryStoreCorrupt message.
Definition invalid (message : string) : MemoryStoreError := memoryError MemoryStoreInvalid message.
Definition conflict (message : string) : MemoryStoreError := memoryError MemoryStoreConflict message.
Definition notFound (message : string) : MemoryStoreError := memoryError MemoryStoreNotFound message.

Record MemoryMutationReceiptV1 := {
  mc_MutationID : string; mc_RequestHash : string; mc_Operation : string; mc_Writer : string; mc_Reason : string;
  mc_Revision : Z; mc_RecordID : string; mc_AffectedIDs : list string; mc_CreatedAt : string }.
Record MemoryCatalogV1 := {
  mg_SchemaVersion : string; mg_Project : string; mg_ProjectHash : string; mg_Revision : Z;
  mg_Records : list MemoryRecordV1; mg_Receipts : list MemoryMutationReceiptV1 }.
#[export] Instance MemoryMutationReceiptV1_eq_dec : EqDecision MemoryMutationReceiptV1.
Proof. solve_decision. Defined.
#[export] Instance MemoryCatalogV1_eq_dec : EqDecision MemoryCatalogV1.
Proof. solve_decision. Defined.

Record canonicalCreateRequest := {
  cc_Type : string; cc_Content : string; cc_Sensitivity : string; cc_Writer : string; cc_Reason : string;
  cc_ExpiresAt : string; cc_MaxUses : Z }.
Record MemoryCreateInput := { mi_Project : string; mi_MutationID : string; mi_Request : canonicalCreateRequest }.
Record MemorySupersedeInput := {
  ms_Project : string; ms_MutationID : string; ms_Supersedes : list string; ms_Request : canonicalCreateRequest }.
Record MemoryDeleteInput := {
  mx_Project : string; mx_MutationID : string; mx_RecordID : string; mx_Writer : string; mx_Reason : string }.
Record MemoryConsumeInput := {
  mu_Project : string; mu_Mutation : string; mu_RecordIDs : list string; mu_Why : string }.
Record MemoryMutationResult := {
  mm_Revision : Z; mm_RecordID : string; mm_AffectedIDs : list string; mm_Replayed : bool }.
Record MemoryListFilter := { mf_Type : string; mf_State : string; mf_Sensitivity : string; mf_Writer : string }.
Record MemoryListInput := { ml_Project : string; ml_Filter : MemoryListFilter; ml_Cursor : string; ml_Limit : Z }.
Record MemoryRecordMetadata := {
  md_SchemaVersion : string; md_ID : string; md_Project : string; md_Type : string; md_Scope : string;
  md_ContentHash : string; md_Sensitivity : string; md_Provenance : MemoryProvenanceV1; md_CreatedAt : string;
  md_UpdatedAt : string; md_Supersedes : list string; md_State : string; md_StateReason : string; md_UseCount : Z;
  md_Retention : MemoryRetentionV1 }.
Record MemoryListResult := { mo_Revision : Z; mo_Items : list MemoryRecordMetadata; mo_NextCursor : string }.
Record memoryProjectIdentity := { mp_canonical : string; mp_normalized : string; mp_hash : string }.
Record memoryListCursor := { mk_Version : Z; mk_Revision : Z; mk_LastID : string; mk_FilterHash : string }.

(** ** JSON *)

Definition encode_create (r : canonicalCreateRequest) : json := jobject [
  Some ("type", jstring (cc_Type r)); Some ("content", jstring (cc_Content r));
  Some ("sensitivity", jstring (cc_Sensitivity r)); Some ("writer", jstring (cc_Writer r));
  Some ("reason", jstring (cc_Reason r)); omitempty (cc_ExpiresAt r =s "") "expiresAt" (jstring (cc_ExpiresAt r));
  omitempty (cc_MaxUses r =? 0) "maxUses" (jint (cc_MaxUses r))].
Definition encode_supersede (targets : list string) (r : canonicalCreateRequest) : json := jobject [
  Some ("supersedes", jarray jstring targets); Some ("create", encode_create r)].
Definition encode_delete (recordID writer reason : string) : json := jobject [
  Some ("recordId", jstring recordID); Some ("writer", jstring writer); Some ("reason", jstring reason)].
Definition encode_consume (ids : list string) (reason : string) : json := jobject [
  Some ("recordIds", jarray jstring ids); Some ("reason", jstring reason)].
Definition encode_filter (f : MemoryListFilter) : json := jobject [
  omitempty (mf_Type f =s "") "type" (jstring (mf_Type f)); omitempty (mf_State f =s "") "state" (jstring (mf_State f));
  omitempty (mf_Sensitivity f =s "") "sensitivity" (jstring (mf_Sensitivity f));
  omitempty (mf_Writer f =s "") "writer" (jstring (mf_Writer f))].
Definition encode_receipt (r : MemoryMutationReceiptV1) : json := jobject [
  Some ("mutationId", jstring (mc_MutationID r)); Some ("requestHash", jstring (mc_RequestHash r));
  Some ("operation", jstring (mc_Operation r)); Some ("writer", jstring (mc_Writer r));
  Some ("reason", jstring (mc_Reason r)); Some ("revision", jint (mc_Revision r));
  Some ("recordId", jstring (mc_RecordID r)); Some ("affectedIds", jarray jstring (mc_AffectedIDs r));
  Some ("createdAt", jstring (mc_CreatedAt r))].
Definition encode_catalog (c : MemoryCatalogV1) : json := jobject [
  Some ("schemaVersion", jstring (mg_SchemaVersion c)); Some ("project", jstring (mg_Project c));
  Some ("projectHash", jstring (mg_ProjectHash c)); Some ("revision", jint (mg_Revision c));
  Some ("records", jarray encode_record (mg_Records c)); Some ("receipts", jarray encode_receipt (mg_Receipts c))].
Definition encode_cursor (c : memoryListCursor) : json := jobject [
  Some ("version", jint (mk_Version c)); Some ("revision", jint (mk_Revision c));
  Some ("lastId", jstring (mk_LastID c)); Some ("filterHash", jstring (mk_FilterHash c))].

(** ** Validation of requests *)

Definition validateMutationIdentity (value : string) : result MemoryStoreError unit :=
  fail_if negb (valid_utf8 value) || unclean value || (256 <? len value)
    with invalid "mutationId must be non-empty valid UTF-8 within 256 bytes" ;;
  Ok tt.
Definition validAuditReason (value : string) : bool :=
  valid_utf8 value && negb (unclean value) && (len value <=? 1024).
Definition validMemoryReceiptWriter (value : string) : bool := validMemoryWriter value || (value =s MemoryWriterEngine).
Definition validReceiptOperation (value : string) : bool :=
  (value =s "create") || (value =s "supersede") || (value =s "delete") || (value =s "consume").
Definition validMemoryRecordID (value : string) : bool :=
  match to_list value with
  | [] => false
  | c :: _ =>
      (len value <=? 128) && is_lower c &&
      forallb (fun c => is_lower c || is_digit c || one_of "._:-" c) (to_list value)
  end.
(** hex.DecodeString of 64 characters that lower-casing does not change *)
Definition validHashString (value : string) : bool :=
  (len value =? 64) && (value =s to_lower value) && forallb is_hex (to_list value).
Fixpoint hasDuplicateStrings (values : list string) : bool :=
  match values with a :: ((b :: _) as rest) => (b =s a) || hasDuplicateStrings rest | _ => false end.

Definition validateMemoryCreateRequest (mutationID : string) (request : canonicalCreateRequest) : result MemoryStoreError unit :=
  _ ← validateMutationIdentity mutationID;
  fail_if negb (valid_utf8 (cc_Content request)) || (trim_space (cc_Content request) =s "") ||
          (MaxMemoryContentBytes <? len (cc_Content request))
    with invalid "Memory content must be non-empty valid UTF-8 within 16 KiB" ;;
  fail_if negb (validMemoryType (cc_Type request)) ||
          (cc_Sensitivity request ≠s SensitivityPublic) && (cc_Sensitivity request ≠s SensitivityProject) ||
          negb (validMemoryWriter (cc_Writer request)) || negb (validAuditReason (cc_Reason request)) ||
          (cc_MaxUses request <? 0) || (10000 <? cc_MaxUses request)
    with invalid "Memory type, sensitivity, writer, reason, or retention is invalid" ;;
  fail_if (cc_ExpiresAt request ≠s "") && match parse_rfc3339 (cc_ExpiresAt request) with None => true | Some _ => false end
    with invalid "Memory expiry must be RFC3339" ;;
  Ok tt.

Definition validateMemoryFilter (filter : MemoryListFilter) : result MemoryStoreError unit :=
  fail_if (mf_Type filter ≠s "") && negb (validMemoryType (mf_Type filter)) with invalid "Memory type filter is invalid" ;;
  fail_if (mf_State filter ≠s "") && negb (validMemoryState (mf_State filter)) with invalid "Memory state filter is invalid" ;;
  fail_if (mf_Sensitivity filter ≠s "") && (mf_Sensitivity filter ≠s SensitivityPublic) && (mf_Sensitivity filter ≠s SensitivityProject)
    with invalid "Memory sensitivity filter is invalid" ;;
  fail_if (mf_Writer filter ≠s "") && negb (validMemoryWriter (mf_Writer filter)) with invalid "Memory writer filter is invalid" ;;
  Ok tt.

(** ** Searching *)

(** sort.Search: the bounds [i] and [j] close in on the first index where [f] holds. *)
Fixpoint search_loop (fuel : nat) (f : nat -> bool) (i j : nat) : nat :=
  match fuel with
  | O => i
  | S fuel =>
      if (i <? j)%nat then
        let h := ((i + j) / 2)%nat in
        if f h then search_loop fuel f i h else search_loop fuel f (S h) j
      else i
  end.
Definition sort_Search (n : nat) (f : nat -> bool) : nat := search_loop n f 0 n.

Definition findMemoryRecord (records : list MemoryRecordV1) (id : string) : option nat :=
  let index := sort_Search (length records)
    (fun index => match records !! index with Some record => negb (String.ltb (mr_ID record) id) | None => true end) in
  match records !! index with
  | Some record => if mr_ID record =s id then Some index else None
  | None => None
  end.
Definition findMemoryReceipt (receipts : list MemoryMutationReceiptV1) (mutationID : string) : option MemoryMutationReceiptV1 :=
  List.find (fun receipt => mc_MutationID receipt =s mutationID) receipts.

(** ** Projects *)

(** filepath.Clean of a Unix path; the last elements come first in [stack]. *)
Definition clean_element (rooted : bool) (stack : list string) (element : string) : list string :=
  if (element =s "") || (element =s ".") then stack
  else if element =s ".." then
    match stack with
    | [] => if rooted then [] else [".."]
    | top :: rest => if top =s ".." then ".." :: stack else rest
    end
  else element :: stack.
Definition Clean (path : string) : string :=
  let rooted := String.prefix "/" path in
  let out := join "/" (reverse (foldl (clean_element rooted) [] (split_on "/" path))) in
  if rooted then "/" +:+ out else if out =s "" then "." else out.
Example clean_rooted : Clean "/a//b/./../c/" = "/a/c". Proof. vm_compute. reflexivity. Qed.
Example clean_relative : Clean "../a/../.." = "../..". Proof. vm_compute. reflexivity. Qed.

(** What filepath.Abs, filepath.EvalSymlinks and os.Stat say about a project *)
Inductive resolved := NotAbsolute | NotResolved | NotDirectory | Directory (canonical : string).

Definition normalizeMemoryProject (project : string) : string := Clean project.

(** The catalog files by project hash; bytes that are no catalog, or one with a
    list missing, come with the error that reading them ends in. *)
Abbreviation memory_files := (gmap string (file (MemoryStoreError + MemoryCatalogV1))).
Definition catalog_file (hash : string) (d : memory_files) : file (MemoryStoreError + MemoryCatalogV1) := default Absent (d !! hash).
#[export] Instance memory_file_errors : FileErrors MemoryStoreError := fun _ => unavailable "".
Abbreviation memory_io := (io memory_files MemoryStoreError).

Section catalog.
  Context {SHA : Sha256}.

Definition resolveMemoryProject (find : string -> resolved) (project : string) : result MemoryStoreError memoryProjectIdentity :=
  fail_if negb (valid_utf8 project) || unclean project || (4096 <? len project)
    with invalid "project must be a bounded canonicalizable directory path" ;;
  match find project with
  | NotAbsolute => Err (invalid "project path cannot be made absolute")
  | NotResolved => Err (invalid "project path cannot be resolved")
  | NotDirectory => Err (invalid "project path is not a directory")
  | Directory path =>
      let canonical := Clean path in
      let normalized := normalizeMemoryProject canonical in
      Ok {| mp_canonical := canonical; mp_normalized := normalized; mp_hash := hashBytes normalized |}
  end.

Definition canonicalHash (value : json) : string := hashBytes (json_text value).
Definition zero_byte : string := String (ch 0) "".
(** The first 16 bytes of the digest *)
Definition memoryRecordID (projectHash operation mutationID : string) : string :=
  "memory-" +:+ String.substring 0 32 (hashBytes (projectHash +:+ zero_byte +:+ operation +:+ zero_byte +:+ mutationID)).

(** ** Validation of a catalog *)

Definition check_record (identity : memoryProjectIdentity) (loop : gset string * string) (record : MemoryRecordV1)
    : result MemoryStoreError (gset string * string) :=
  let '(recordIDs, lastID) := loop in
  fail_if String.leb (mr_ID record) lastID
    with corrupt "Memory catalog records are duplicated or not in canonical order" ;;
  fail_if (normalizeMemoryProject (mr_Project record) ≠s mp_normalized identity) || (mr_Scope record ≠s "project") ||
          negb (valid_utf8 (mr_Content record))
    with corrupt "Memory record project, scope, or content encoding is invalid" ;;
  _ ← rmap_err (fun _ => corrupt "Memory catalog contains an invalid record") (ValidateMemoryRecordV1 record);
  Ok ({[mr_ID record]} ∪ recordIDs, mr_ID record).

Definition check_affected (recordIDs : gset string) (affectedID : string) : result MemoryStoreError unit :=
  fail_if negb (validMemoryRecordID affectedID) with corrupt "Memory receipt contains an invalid affected record ID" ;;
  fail_if negb (seen_in affectedID recordIDs) with corrupt "Memory receipt references a missing affected record" ;;
  Ok tt.

(** The switch on the operation.  The record of a supersede receipt is found,
    since its identity is among the catalog's. *)
Definition check_operation (records : list MemoryRecordV1) (receipt : MemoryMutationReceiptV1) : result MemoryStoreError unit :=
  let affected := mc_AffectedIDs receipt in
  if mc_Operation receipt =s "create" then
    fail_if negb (len_slice affected =? 0) with corrupt "Memory create receipt has affected records" ;; Ok tt
  else if mc_Operation receipt =s "supersede" then
    let mismatch := corrupt "Memory supersede receipt does not match its replacement" in
    match findMemoryRecord records (mc_RecordID receipt) ≫= (records !!.) with
    | None => Err mismatch
    | Some record =>
        fail_if (len_slice affected <? 1) || (MaxMemorySupersedes <? len_slice affected) ||
                negb (bool_decide (mr_Supersedes record = affected))
          with mismatch ;;
        Ok tt
    end
  else if mc_Operation receipt =s "delete" then
    fail_if negb (bool_decide (affected = [mc_RecordID receipt]))
      with corrupt "Memory delete receipt does not match its tombstone" ;; Ok tt
  else if mc_Operation receipt =s "consume" then
    fail_if (mc_Writer receipt ≠s MemoryWriterEngine) || (MaxSelectedMemoryRecords - 1 <? len_slice affected) ||
            match affected with [] => false | first :: _ => String.leb first (mc_RecordID receipt) end
      with corrupt "Memory consume receipt exceeds its bound" ;; Ok tt
  else
    fail_if mc_Writer receipt =s MemoryWriterEngine
      with corrupt "Memory engine writer is only valid for consume receipts" ;; Ok tt.

Definition check_receipt (catalog : MemoryCatalogV1) (recordIDs : gset string) (loop : gset string * Z)
    (receipt : MemoryMutationReceiptV1) : result MemoryStoreError (gset string * Z) :=
  let '(receiptIDs, lastRevision) := loop in
  fail_if negb (is_ok (validateMutationIdentity (mc_MutationID receipt))) || negb (validHashString (mc_RequestHash receipt)) ||
          negb (validMemoryReceiptWriter (mc_Writer receipt)) || negb (validAuditReason (mc_Reason receipt)) ||
          (mc_Revision receipt =? 0) || (mg_Revision catalog <? mc_Revision receipt) || (mc_Revision receipt <=? lastRevision) ||
          negb (validReceiptOperation (mc_Operation receipt)) || negb (validMemoryRecordID (mc_RecordID receipt)) ||
          negb (strings_sorted (mc_AffectedIDs receipt)) || hasDuplicateStrings (mc_AffectedIDs receipt)
    with corrupt "Memory catalog contains an invalid receipt" ;;
  fail_if seen_in (mc_MutationID receipt) receiptIDs
    with corrupt "Memory catalog contains duplicate mutation receipts" ;;
  fail_if negb (seen_in (mc_RecordID receipt) recordIDs)
    with corrupt "Memory receipt references a missing record" ;;
  _ ← range_loop (fun _ affectedID => check_affected recordIDs affectedID) tt (mc_AffectedIDs receipt);
  _ ← check_operation (mg_Records catalog) receipt;
  fail_if match parse_rfc3339 (mc_CreatedAt receipt) with None => true | Some _ => false end
    with corrupt "Memory receipt timestamp is invalid" ;;
  Ok ({[mc_MutationID receipt]} ∪ receiptIDs, mc_Revision receipt).

Definition validateMemoryCatalog (catalog : MemoryCatalogV1) (identity : memoryProjectIdentity) : result MemoryStoreError unit :=
  fail_if mg_SchemaVersion catalog ≠s MemoryCatalogVersion
    with memoryError MemoryStoreUnsupported "Memory catalog schema version is unsupported" ;;
  fail_if negb (valid_utf8 (mg_Project catalog)) || (normalizeMemoryProject (mg_Project catalog) ≠s mp_normalized identity) ||
          (mg_ProjectHash catalog ≠s mp_hash identity)
    with corrupt "Memory catalog project identity does not match its directory" ;;
  fail_if (MaxProjectMemoryRecords <? len_slice (mg_Records catalog)) || (MaxMemoryReceipts <? len_slice (mg_Receipts catalog))
    with corrupt "Memory catalog collections are missing or exceed their bounds" ;;
  '(recordIDs, _) ← range_loop (check_record identity) (∅, "") (mg_Records catalog);
  '(_, lastRevision) ← range_loop (check_receipt catalog recordIDs) (∅, 0) (mg_Receipts catalog);
  fail_if (mg_Revision catalog =? 0) && (negb (len_slice (mg_Records catalog) =? 0) || negb (len_slice (mg_Receipts catalog) =? 0)) ||
          (0 <? mg_Revision catalog) && ((len_slice (mg_Receipts catalog) =? 0) || negb (lastRevision =? mg_Revision catalog))
    with corrupt "Memory catalog revision does not match its durable receipts" ;;
  Ok tt.

(** ** The file of a catalog *)

(** A call that fails with an error of its own *)
Definition or_fail {A} (message : string) (m : memory_io A) : memory_io A :=
  tried ← attempt m;
  match tried with Ok a => mret a | Err _ => refuse (unavailable message) end.

Definition new_catalog (identity : memoryProjectIdentity) : MemoryCatalogV1 := {|
  mg_SchemaVersion := MemoryCatalogVersion; mg_Project := mp_canonical identity; mg_ProjectHash := mp_hash identity;
  mg_Revision := 0; mg_Records := []; mg_Receipts := [] |}.

Definition readMemoryCatalog (identity : memoryProjectIdentity) : memory_io MemoryCatalogV1 :=
  opened ← or_fail "Memory catalog cannot be read" (call (fun d => (Ok (catalog_file (mp_hash identity) d), d)));
  match opened with
  | Absent => mret (new_catalog identity)
  | _ =>
      _ ← or_fail "Memory catalog metadata cannot be read" touch;
      _ ← or_fail "Memory catalog cannot be read within its bound" touch;
      match opened with
      | Holds (inr catalog) =>
          _ ← checked id (validateMemoryCatalog catalog identity);
          mret catalog
      | Holds (inl e) => refuse e
      | _ => refuse (corrupt "Memory catalog is empty, oversized, invalid UTF-8, or malformed JSON")
      end
  end.

(** The length of json.MarshalIndent's text *)
Definition catalog_size (catalog : MemoryCatalogV1) : Z := len_slice (json_pretty 0 (encode_catalog catalog)).

Definition writeMemoryCatalog (identity : memoryProjectIdentity) (catalog : MemoryCatalogV1) : memory_io unit :=
  if MaxMemoryCatalogBytes <? catalog_size catalog + 1
  then refuse (unavailable "Memory catalog cannot be encoded within its bound") else
  _ ← or_fail "Memory catalog temporary file cannot be created" touch;
  _ ← or_fail "Memory catalog temporary permissions cannot be set" touch;
  _ ← or_fail "Memory catalog temporary file cannot be written" touch;
  _ ← or_fail "Memory catalog temporary file cannot be synchronized" touch;
  _ ← or_fail "Memory catalog temporary file cannot be closed" touch;
  _ ← or_fail "Memory catalog cannot be atomically replaced"
        (call (fun d => (Ok tt, <[mp_hash identity := Holds (inr catalog)]> d)));
  or_fail "Memory catalog directory cannot be synchronized" touch.

(** The directory, the lock, the removal of stale temporary files, and [action]
    on the catalog of the file *)
Definition withMemoryCatalog {A} (identity : memoryProjectIdentity) (action : MemoryCatalogV1 -> memory_io A) : memory_io A :=
  _ ← or_fail "Memory project directory cannot be created" touch;
  _ ← or_fail "Memory catalog lock cannot be acquired" touch;
  _ ← or_fail "stale Memory catalog temporary files cannot be removed" touch;
  catalog ← readMemoryCatalog identity;
  action catalog.

(** ** Mutations *)

Definition with_records (records : list MemoryRecordV1) (c : MemoryCatalogV1) : MemoryCatalogV1 := {|
  mg_SchemaVersion := mg_SchemaVersion c; mg_Project := mg_Project c; mg_ProjectHash := mg_ProjectHash c;
  mg_Revision := mg_Revision c; mg_Records := records; mg_Receipts := mg_Receipts c |}.
(** The catalog with the next revision and the receipt of the change; the oldest
    receipt gives way. *)
Definition with_receipt (mutationID requestHash operation writer reason recordID : string) (affectedIDs : list string)
    (now : Z) (c : MemoryCatalogV1) : MemoryCatalogV1 :=
  let revision := wrap_uint64 (mg_Revision c + 1) in
  let receipts := mg_Receipts c ++ [{|
    mc_MutationID := mutationID; mc_RequestHash := requestHash; mc_Operation := operation; mc_Writer := writer;
    mc_Reason := reason; mc_Revision := revision; mc_RecordID := recordID; mc_AffectedIDs := affectedIDs;
    mc_CreatedAt := rfc3339 now |}] in {|
  mg_SchemaVersion := mg_SchemaVersion c; mg_Project := mg_Project c; mg_ProjectHash := mg_ProjectHash c;
  mg_Revision := revision; mg_Records := mg_Records c;
  mg_Receipts := if MaxMemoryReceipts <? len_slice receipts
                 then drop (length receipts - Z.to_nat MaxMemoryReceipts) receipts else receipts |}.

(** A change: the record it is about, the others it affects, and the new catalog *)
Abbreviation change := (MemoryCatalogV1 -> memoryProjectIdentity -> Z -> result MemoryStoreError (string * list string * MemoryCatalogV1)).

Definition mutateMemory (find : string -> resolved) (now : Z) (project mutationID operation writer reason : string)
    (request : json) (apply : change) : memory_io MemoryMutationResult :=
  identity ← checked id (resolveMemoryProject find project);
  let requestHash := canonicalHash request in
  withMemoryCatalog identity (fun catalog =>
    match findMemoryReceipt (mg_Receipts catalog) mutationID with
    | Some receipt =>
        if (mc_Operation receipt ≠s operation) || (mc_RequestHash receipt ≠s requestHash)
        then refuse (conflict "mutationId is already bound to a different canonical request")
        else mret {| mm_Revision := mc_Revision receipt; mm_RecordID := mc_RecordID receipt;
                     mm_AffectedIDs := mc_AffectedIDs receipt; mm_Replayed := true |}
    | None =>
        '(recordID, affectedIDs, changed) ← checked id (apply catalog identity now);
        let catalog := with_receipt mutationID requestHash operation writer reason recordID affectedIDs now changed in
        _ ← checked id (validateMemoryCatalog catalog identity);
        _ ← writeMemoryCatalog identity catalog;
        mret {| mm_Revision := mg_Revision catalog; mm_RecordID := recordID; mm_AffectedIDs := affectedIDs; mm_Replayed := false |}
    end).

Definition buildMemoryRecord (project id : string) (supersedes : list string) (request : canonicalCreateRequest) (now : Z)
    : MemoryRecordV1 :=
  let source := if cc_Writer request =s MemoryWriterHostAgent then "fishyume.mcp"
                else if cc_Writer request =s MemoryWriterMigration then "fishyume.migration" else "fishyume.cli" in
  let stamp := rfc3339 now in {|
  mr_SchemaVersion := MemoryRecordV1Version; mr_ID := id; mr_Project := project; mr_Type := cc_Type request;
  mr_Scope := "project"; mr_Content := cc_Content request; mr_ContentHash := hashBytes (cc_Content request);
  mr_Sensitivity := cc_Sensitivity request;
  mr_Provenance := {| mv_Writer := cc_Writer request; mv_Source := source; mv_SourceVersion := memorySourceVersion;
                      mv_SourceHash := hashBytes (source +:+ zero_byte +:+ memorySourceVersion); mv_Reason := cc_Reason request |};
  mr_CreatedAt := stamp; mr_UpdatedAt := stamp; mr_Supersedes := supersedes; mr_State := MemoryActive; mr_StateReason := "";
  mr_UseCount := 0; mr_Retention := {| mt_ExpiresAt := cc_ExpiresAt request; mt_MaxUses := cc_MaxUses request |} |}.

Definition record_less (x y : MemoryRecordV1) : bool := String.ltb (mr_ID x) (mr_ID y).
(** append and sort.Slice *)
Definition add_record (record : MemoryRecordV1) (records : list MemoryRecordV1) : list MemoryRecordV1 :=
  sort_slice record_less (records ++ [record]).
Definition validate_stored (record : MemoryRecordV1) : result MemoryStoreError unit :=
  rmap_err (fun e => invalid (context_error_text e)) (ValidateMemoryRecordV1 record).

Definition create_change (mutationID : string) (request : canonicalCreateRequest) : change := fun catalog identity now =>
  fail_if MaxProjectMemoryRecords <=? len_slice (mg_Records catalog) with conflict "project Memory record limit reached" ;;
  let id := memoryRecordID (mp_hash identity) "create" mutationID in
  fail_if bool_decide (is_Some (findMemoryRecord (mg_Records catalog) id))
    with conflict "computed Memory record identity already exists" ;;
  let record := buildMemoryRecord (mg_Project catalog) id [] request now in
  _ ← validate_stored record;
  Ok (id, [], with_records (add_record record (mg_Records catalog)) catalog).

Definition CreateMemory (find : string -> resolved) (now : Z) (input : MemoryCreateInput) : memory_io MemoryMutationResult :=
  let request := mi_Request input in
  _ ← checked id (validateMemoryCreateRequest (mi_MutationID input) request);
  mutateMemory find now (mi_Project input) (mi_MutationID input) "create" (cc_Writer request) (cc_Reason request)
    (encode_create request) (create_change (mi_MutationID input) request).

Definition supersede_record (reason : string) (now : Z) (r : MemoryRecordV1) : MemoryRecordV1 := {|
  mr_SchemaVersion := mr_SchemaVersion r; mr_ID := mr_ID r; mr_Project := mr_Project r; mr_Type := mr_Type r;
  mr_Scope := mr_Scope r; mr_Content := mr_Content r; mr_ContentHash := mr_ContentHash r; mr_Sensitivity := mr_Sensitivity r;
  mr_Provenance := mr_Provenance r; mr_CreatedAt := mr_CreatedAt r; mr_UpdatedAt := rfc3339 now;
  mr_Supersedes := mr_Supersedes r; mr_State := MemorySuperseded; mr_StateReason := reason; mr_UseCount := mr_UseCount r;
  mr_Retention := mr_Retention r |}.
Definition delete_record (reason : string) (now : Z) (r : MemoryRecordV1) : MemoryRecordV1 := {|
  mr_SchemaVersion := mr_SchemaVersion r; mr_ID := mr_ID r; mr_Project := mr_Project r; mr_Type := mr_Type r;
  mr_Scope := mr_Scope r; mr_Content := ""; mr_ContentHash := mr_ContentHash r; mr_Sensitivity := mr_Sensitivity r;
  mr_Provenance := mr_Provenance r; mr_CreatedAt := mr_CreatedAt r; mr_UpdatedAt := rfc3339 now;
  mr_Supersedes := mr_Supersedes r; mr_State := MemoryDeleted; mr_StateReason := reason; mr_UseCount := mr_UseCount r;
  mr_Retention := mr_Retention r |}.
Definition use_record (now : Z) (r : MemoryRecordV1) : MemoryRecordV1 := {|
  mr_SchemaVersion := mr_SchemaVersion r; mr_ID := mr_ID r; mr_Project := mr_Project r; mr_Type := mr_Type r;
  mr_Scope := mr_Scope r; mr_Content := mr_Content r; mr_ContentHash := mr_ContentHash r; mr_Sensitivity := mr_Sensitivity r;
  mr_Provenance := mr_Provenance r; mr_CreatedAt := mr_CreatedAt r; mr_UpdatedAt := rfc3339 now;
  mr_Supersedes := mr_Supersedes r; mr_State := mr_State r; mr_StateReason := mr_StateReason r;
  mr_UseCount := wrap_int64 (mr_UseCount r + 1); mr_Retention := mr_Retention r |}.

(** The indexes of the records to supersede, all of them active *)
Definition supersede_index (catalog : MemoryCatalogV1) (indexes : list nat) (id : string) : result MemoryStoreError (list nat) :=
  match findMemoryRecord (mg_Records catalog) id with
  | None => Err (notFound "Memory record to supersede was not found")
  | Some index =>
      fail_if match mg_Records catalog !! index with Some record => mr_State record ≠s MemoryActive | None => true end
        with conflict "only active Memory records may be superseded" ;;
      Ok (indexes ++ [index])
  end.
(** A change of the record at an index that was found *)
Definition change_record (f : MemoryRecordV1 -> MemoryRecordV1) (records : list MemoryRecordV1) (index : nat)
    : result MemoryStoreError (list MemoryRecordV1) :=
  match records !! index with
  | Some record => _ ← validate_stored (f record); Ok (<[index := f record]> records)
  | None => Ok records
  end.

Definition supersede_change (mutationID : string) (targets : list string) (request : canonicalCreateRequest) : change :=
  fun catalog identity now =>
  fail_if MaxProjectMemoryRecords <=? len_slice (mg_Records catalog) with conflict "project Memory record limit reached" ;;
  indexes ← range_loop (supersede_index catalog) [] targets;
  let id := memoryRecordID (mp_hash identity) "supersede" mutationID in
  fail_if bool_decide (is_Some (findMemoryRecord (mg_Records catalog) id))
    with conflict "computed Memory record identity already exists" ;;
  let replacement := buildMemoryRecord (mg_Project catalog) id targets request now in
  _ ← validate_stored replacement;
  records ← range_loop (change_record (supersede_record (cc_Reason request) now)) (mg_Records catalog) indexes;
  Ok (id, targets, with_records (add_record replacement records) catalog).

Definition check_targets (targets : list string) : result MemoryStoreError unit :=
  fail_if (len_slice targets <? 1) || (MaxMemorySupersedes <? len_slice targets) || hasDuplicateStrings targets
    with invalid "supersedes must contain 1..16 unique record IDs" ;;
  fail_if negb (forallb validMemoryRecordID targets) with invalid "supersedes contains an invalid record ID" ;;
  Ok tt.
Definition SupersedeMemory (find : string -> resolved) (now : Z) (input : MemorySupersedeInput) : memory_io MemoryMutationResult :=
  let targets := sort_strings (ms_Supersedes input) in
  let request := ms_Request input in
  _ ← checked id (validateMemoryCreateRequest (ms_MutationID input) request);
  _ ← checked id (check_targets targets);
  mutateMemory find now (ms_Project input) (ms_MutationID input) "supersede" (cc_Writer request) (cc_Reason request)
    (encode_supersede targets request) (supersede_change (ms_MutationID input) targets request).

Definition delete_change (recordID reason : string) : change := fun catalog identity now =>
  match findMemoryRecord (mg_Records catalog) recordID with
  | None => Err (notFound "Memory record was not found")
  | Some index =>
      fail_if match mg_Records catalog !! index with Some record => mr_State record =s MemoryDeleted | None => true end
        with conflict "Memory record is already deleted" ;;
      records ← change_record (delete_record reason now) (mg_Records catalog) index;
      Ok (recordID, [recordID], with_records records catalog)
  end.
Definition DeleteMemory (find : string -> resolved) (now : Z) (input : MemoryDeleteInput) : memory_io MemoryMutationResult :=
  _ ← checked id (validateMutationIdentity (mx_MutationID input));
  _ ← checked id (fail_if negb (validMemoryRecordID (mx_RecordID input)) || negb (validMemoryWriter (mx_Writer input)) ||
                          negb (validAuditReason (mx_Reason input))
                    with invalid "delete request is invalid" ;; Ok tt);
  mutateMemory find now (mx_Project input) (mx_MutationID input) "delete" (mx_Writer input) (mx_Reason input)
    (encode_delete (mx_RecordID input) (mx_Writer input) (mx_Reason input)) (delete_change (mx_RecordID input) (mx_Reason input)).

(** The first loop: every record can be used once more. *)
Definition check_use (records : list MemoryRecordV1) (now : Z) (id : string) : result MemoryStoreError unit :=
  match findMemoryRecord records id ≫= (records !!.) with
  | None => Err (notFound "Memory record was not found")
  | Some record =>
      let retention := mr_Retention record in
      fail_if mr_State record ≠s MemoryActive with conflict "selected Memory record is not active" ;;
      fail_if (mt_ExpiresAt retention ≠s "") &&
              match parse_rfc3339 (mt_ExpiresAt retention) with None => true | Some expiry => expiry <=? now end
        with conflict "selected Memory record is expired" ;;
      fail_if (0 <? mt_MaxUses retention) && (mt_MaxUses retention <=? mr_UseCount record)
        with conflict "selected Memory record has reached maxUses" ;;
      Ok tt
  end.
(** The second loop: each is used. *)
Definition use_one (now : Z) (records : list MemoryRecordV1) (id : string) : list MemoryRecordV1 :=
  match findMemoryRecord records id with
  | Some index => alter (use_record now) index records
  | None => records
  end.
Definition consume_change (ids : list string) : change := fun catalog identity now =>
  _ ← range_loop (fun _ id => check_use (mg_Records catalog) now id) tt ids;
  Ok (hd "" ids, tail ids, with_records (foldl (use_one now) (mg_Records catalog) ids) catalog).
Definition check_consume (ids : list string) (input : MemoryConsumeInput) : result MemoryStoreError unit :=
  fail_if (len_slice ids =? 0) || (MaxSelectedMemoryRecords <? len_slice ids) || hasDuplicateStrings ids ||
          negb (is_ok (validateMutationIdentity (mu_Mutation input))) || negb (validAuditReason (mu_Why input))
    with invalid "Memory consume request is invalid" ;;
  fail_if negb (forallb validMemoryRecordID ids) with invalid "Memory consume contains an invalid record ID" ;;
  Ok tt.
Definition ConsumeMemory (find : string -> resolved) (now : Z) (input : MemoryConsumeInput) : memory_io MemoryMutationResult :=
  let ids := sort_strings (mu_RecordIDs input) in
  _ ← checked id (check_consume ids input);
  mutateMemory find now (mu_Project input) (mu_Mutation input) "consume" MemoryWriterEngine (mu_Why input)
    (encode_consume ids (mu_Why input)) (consume_change ids).

(** ** Reading *)

Definition GetMemory (find : string -> resolved) (project recordID : string) : memory_io (MemoryRecordV1 * Z) :=
  _ ← checked id (fail_if negb (validMemoryRecordID recordID) with invalid "Memory record ID is invalid" ;; Ok tt);
  identity ← checked id (resolveMemoryProject find project);
  withMemoryCatalog identity (fun catalog =>
    match findMemoryRecord (mg_Records catalog) recordID ≫= (mg_Records catalog !!.) with
    | None => refuse (notFound "Memory record was not found")
    | Some record => mret (record, mg_Revision catalog)
    end).

Definition memoryMatches (record : MemoryRecordV1) (filter : MemoryListFilter) : bool :=
  ((mf_Type filter =s "") || (mr_Type record =s mf_Type filter)) &&
  ((mf_State filter =s "") || (mr_State record =s mf_State filter)) &&
  ((mf_Sensitivity filter =s "") || (mr_Sensitivity record =s mf_Sensitivity filter)) &&
  ((mf_Writer filter =s "") || (mv_Writer (mr_Provenance record) =s mf_Writer filter)).
Definition memoryMetadata (r : MemoryRecordV1) : MemoryRecordMetadata := {|
  md_SchemaVersion := mr_SchemaVersion r; md_ID := mr_ID r; md_Project := mr_Project r; md_Type := mr_Type r;
  md_Scope := mr_Scope r; md_ContentHash := mr_ContentHash r; md_Sensitivity := mr_Sensitivity r;
  md_Provenance := mr_Provenance r; md_CreatedAt := mr_CreatedAt r; md_UpdatedAt := mr_UpdatedAt r;
  md_Supersedes := mr_Supersedes r; md_State := mr_State r; md_StateReason := mr_StateReason r;
  md_UseCount := mr_UseCount r; md_Retention := mr_Retention r |}.

(** readUniqueJSONValue: no object names a member twice. *)
Fixpoint unique_keys (v : json) : bool :=
  match v with
  | JArr items => (fix go l := match l with [] => true | x :: l => unique_keys x && go l end) items
  | JObj members =>
      negb (has_dup [] (map (fun m => string_of_body m.1) members)) &&
      (fix go l := match l with [] => true | (_, x) :: l => unique_keys x && go l end) members
  | _ => true
  end.
(** A member that the cursor's struct has, with a value of its type *)
Definition cursor_member (m : list ascii * json) : bool :=
  let '(name, v) := m in
  let fits {A} (decode : json -> option A) := is_null v || match decode v with Some _ => true | None => false end in
  if same_name "version" name then fits decode_goint
  else if same_name "revision" name then fits decode_uint64
  else if same_name "lastId" name || same_name "filterHash" name then fits decode_string
  else false.
Definition parse_cursor (data : string) : option memoryListCursor :=
  v ← json_parse data;
  members ← decode_members v;
  version ← field 0 decode_goint members "version"; revision ← field 0 decode_uint64 members "revision";
  lastID ← field "" decode_string members "lastId"; filterHash ← field "" decode_string members "filterHash";
  if unique_keys v && forallb cursor_member members && valid_utf8 data
  then Some {| mk_Version := version; mk_Revision := revision; mk_LastID := lastID; mk_FilterHash := filterHash |} else None.

Definition encodeMemoryCursor (cursor : memoryListCursor) : string := EncodeToString (json_text (encode_cursor cursor)).
Definition decodeMemoryCursor (value : string) : result MemoryStoreError memoryListCursor :=
  let refused := Err (invalid "Memory list cursor is invalid") in
  if value =s "" then Ok {| mk_Version := 1; mk_Revision := 0; mk_LastID := ""; mk_FilterHash := "" |}
  else if 1024 <? len value then refused
  else match DecodeString value ≫= parse_cursor with
       | None => refused
       | Some cursor =>
           if negb (mk_Version cursor =? 1) || (mk_Revision cursor =? 0) || negb (validMemoryRecordID (mk_LastID cursor)) ||
              negb (validHashString (mk_FilterHash cursor))
           then refused else Ok cursor
       end.

Definition page_limit (limit : Z) : result MemoryStoreError Z :=
  let limit := if limit =? 0 then DefaultMemoryListLimit else limit in
  fail_if (limit <? 1) || (MaxMemoryListLimit <? limit) with invalid "Memory list limit must be between 1 and 100" ;;
  Ok limit.
(** The page after [lastID] *)
Definition memory_page (limit : Z) (filter : MemoryListFilter) (filterHash lastID : string) (catalog : MemoryCatalogV1)
    : MemoryListResult :=
  let matches := List.filter (fun record => String.ltb lastID (mr_ID record) && memoryMatches record filter) (mg_Records catalog) in
  let shown := take (Z.to_nat limit) matches in {|
  mo_Revision := mg_Revision catalog; mo_Items := map memoryMetadata shown;
  mo_NextCursor :=
    match last shown with
    | Some record =>
        if len_slice shown <? len_slice matches
        then encodeMemoryCursor {| mk_Version := 1; mk_Revision := mg_Revision catalog; mk_LastID := mr_ID record; mk_FilterHash := filterHash |}
        else ""
    | None => ""
    end |}.

Definition ListMemory (find : string -> resolved) (input : MemoryListInput) : memory_io MemoryListResult :=
  limit ← checked id (page_limit (ml_Limit input));
  _ ← checked id (validateMemoryFilter (ml_Filter input));
  let filterHash := canonicalHash (encode_filter (ml_Filter input)) in
  cursor ← checked id (decodeMemoryCursor (ml_Cursor input));
  identity ← checked id (resolveMemoryProject find (ml_Project input));
  withMemoryCatalog identity (fun catalog =>
    if (ml_Cursor input ≠s "") && (negb (mk_Revision cursor =? mg_Revision catalog) || (mk_FilterHash cursor ≠s filterHash))
    then refuse (conflict "Memory list cursor no longer matches the catalog revision or filter")
    else mret (memory_page limit (ml_Filter input) filterHash (mk_LastID cursor) catalog)).
End catalog.

(** ** The service's requests

    internal/application/memory.go: the store's operations with the writer of the
    caller, responses within their bound and the errors of the protocol. *)

Record MemoryCreateRequest := {
  mq_Project : string; mq_MutationID : string; mq_Type : string; mq_Content : string; mq_Sensitivity : string;
  mq_Reason : string; mq_ExpiresAt : string; mq_MaxUses : Z }.
Record MemorySupersedeRequest := { mz_Create : MemoryCreateRequest; mz_Supersedes : list string }.
Record MemoryDeleteRequest := { mw_Project : string; mw_MutationID : string; mw_RecordID : string; mw_Reason : string }.
Record MemoryMutationResponse := { mn_APIVersion : string; mn_Result : MemoryMutationResult }.
Record MemoryGetResponse := { mh_APIVersion : string; mh_Revision : Z; mh_Record : MemoryRecordV1 }.
Record MemoryListResponse := { mj_APIVersion : string; mj_Result : MemoryListResult }.

Definition encode_mutation_response (r : MemoryMutationResponse) : json := jobject [
  Some ("apiVersion", jstring (mn_APIVersion r)); Some ("revision", jint (mm_Revision (mn_Result r)));
  Some ("recordId", jstring (mm_RecordID (mn_Result r))); Some ("affectedIds", jarray jstring (mm_AffectedIDs (mn_Result r)));
  Some ("replayed", jbool (mm_Replayed (mn_Result r)))].
Definition encode_get_response (r : MemoryGetResponse) : json := jobject [
  Some ("apiVersion", jstring (mh_APIVersion r)); Some ("revision", jint (mh_Revision r));
  Some ("record", encode_record (mh_Record r))].
Definition encode_metadata (r : MemoryRecordMetadata) : json := jobject [
  Some ("schemaVersion", jstring (md_SchemaVersion r)); Some ("id", jstring (md_ID r));
  Some ("project", jstring (md_Project r)); Some ("type", jstring (md_Type r)); Some ("scope", jstring (md_Scope r));
  Some ("contentHash", jstring (md_ContentHash r)); Some ("sensitivity", jstring (md_Sensitivity r));
  Some ("provenance", encode_provenance (md_Provenance r)); Some ("createdAt", jstring (md_CreatedAt r));
  Some ("updatedAt", jstring (md_UpdatedAt r)); Some ("supersedes", jarray jstring (md_Supersedes r));
  Some ("state", jstring (md_State r)); omitempty (md_StateReason r =s "") "stateReason" (jstring (md_StateReason r));
  Some ("useCount", jint (md_UseCount r)); Some ("retention", encode_retention (md_Retention r))].
Definition encode_list_response (r : MemoryListResponse) : json := jobject [
  Some ("apiVersion", jstring (mj_APIVersion r)); Some ("revision", jint (mo_Revision (mj_Result r)));
  Some ("items", jarray encode_metadata (mo_Items (mj_Result r)));
  omitempty (mo_NextCursor (mj_Result r) =s "") "nextCursor" (jstring (mo_NextCursor (mj_Result r)))].

Definition store_code (code : MemoryStoreErrorCode) : string :=
  match code with
  | MemoryStoreInvalid => "memory_invalid_record" | MemoryStoreConflict => "memory_conflict"
  | MemoryStoreNotFound => "memory_not_found" | MemoryStoreCorrupt => "memory_catalog_corrupt"
  | MemoryStoreUnsupported => "context_version_unsupported" | MemoryStoreUnavailable => "memory_store_unavailable"
  end.
Definition mapMemoryError (e : MemoryStoreError) : AppError :=
  let data := [("storeCode", jstring (store_code (me_Code e)))] in
  match me_Code e with
  | MemoryStoreInvalid => NewError CodeInvalidArgument (me_Message e) data
  | MemoryStoreConflict => NewError CodeConflict (me_Message e) data
  | MemoryStoreNotFound => NewError CodeNotFound (me_Message e) data
  | _ => NewError CodeInternal "Memory catalog is unavailable or invalid" data
  end.

Section service.
  Context {SHA : Sha256}.
  (** [memory] is whether the service has been given a store. *)
  Context (memory : bool) (find : string -> resolved).

Definition from_store {A} (m : memory_io A) : io memory_files AppError A := fun d fs =>
  if memory then
    match m d fs with
    | Returned a d fs => Returned a d fs
    | Raised e d fs => Raised (mapMemoryError e) d fs
    | Died d => Died d
    end
  else Raised (NewError CodeInternal "Memory store is unavailable" []) d fs.
Definition bounded {A} (encode : A -> json) (response : A) : io memory_files AppError A :=
  if within_bound (encode response) then mret response else refuse internalError.
Definition memoryMutationResponse (result : MemoryMutationResult) : MemoryMutationResponse :=
  {| mn_APIVersion := ApplicationAPIVersion; mn_Result := result |}.
Definition canonical_create (writer : string) (r : MemoryCreateRequest) : canonicalCreateRequest := {|
  cc_Type := mq_Type r; cc_Content := mq_Content r; cc_Sensitivity := mq_Sensitivity r; cc_Writer := writer;
  cc_Reason := mq_Reason r; cc_ExpiresAt := mq_ExpiresAt r; cc_MaxUses := mq_MaxUses r |}.

Definition memoryCreate (now : Z) (request : MemoryCreateRequest) (writer : string) : io memory_files AppError MemoryMutationResponse :=
  result ← from_store (CreateMemory find now {| mi_Project := mq_Project request; mi_MutationID := mq_MutationID request;
                                                mi_Request := canonical_create writer request |});
  bounded encode_mutation_response (memoryMutationResponse result).
Definition MemoryCreate now request := memoryCreate now request MemoryWriterUser.
Definition MemoryCreateHost now request := memoryCreate now request MemoryWriterHostAgent.

Definition MemoryGet (project recordID : string) : io memory_files AppError MemoryGetResponse :=
  '(record, revision) ← from_store (GetMemory find project recordID);
  bounded encode_get_response {| mh_APIVersion := ApplicationAPIVersion; mh_Revision := revision; mh_Record := record |}.
Definition MemoryList (request : MemoryListInput) : io memory_files AppError MemoryListResponse :=
  result ← from_store (ListMemory find request);
  bounded encode_list_response {| mj_APIVersion := ApplicationAPIVersion; mj_Result := result |}.

Definition memorySupersede (now : Z) (request : MemorySupersedeRequest) (writer : string) : io memory_files AppError MemoryMutationResponse :=
  let create := mz_Create request in
  result ← from_store (SupersedeMemory find now {| ms_Project := mq_Project create; ms_MutationID := mq_MutationID create;
                                                   ms_Supersedes := mz_Supersedes request; ms_Request := canonical_create writer create |});
  mret (memoryMutationResponse result).
Definition MemorySupersede now request := memorySupersede now request MemoryWriterUser.
Definition MemorySupersedeHost now request := memorySupersede now request MemoryWriterHostAgent.

Definition memoryDelete (now : Z) (request : MemoryDeleteRequest) (writer : string) : io memory_files AppError MemoryMutationResponse :=
  result ← from_store (DeleteMemory find now {| mx_Project := mw_Project request; mx_MutationID := mw_MutationID request;
                                                mx_RecordID := mw_RecordID request; mx_Writer := writer; mx_Reason := mw_Reason request |});
  mret (memoryMutationResponse result).
Definition MemoryDelete now request := memoryDelete now request MemoryWriterUser.
Definition MemoryDeleteHost now request := memoryDelete now request MemoryWriterHostAgent.
End service.
