(* ===== verification/MemoryTheory.v ===== *)
(** * What the Memory catalogs keep

    [memory_step] is one mutation of a catalog, with calls that fail and processes
    that die; the theorems are about everything that can follow.  A mutation is
    carried out once as long as its receipt lives; a record never goes back or
    away, and is granted to consumers as often as it allows at most.  At the end
    a project to evaluate. *)

From S2P Require Import Prelude GoText Json JsonTree JsonTreeTheory JsonStrings Routing Files Context TeamContract Handoff.
From S2P Require Import AppRequests AppCodecs Cursor RunQueries MemoryRecord MemoryCatalog.
#[local] Open Scope string_scope.
#[local] Open Scope list_scope.
#[local] Open Scope Z_scope.

Section theory.
  Context {SHA : Sha256}.
  Implicit Types d : memory_files.

(** ** What a mutation does to the files *)

(** The catalog of a project, as a method finds it *)
Definition loaded (identity : memoryProjectIdentity) d (catalog : MemoryCatalogV1) : Prop :=
  catalog_file (mp_hash identity) d = Absent /\ catalog = new_catalog identity \/
  catalog_file (mp_hash identity) d = Holds (inr catalog) /\ validateMemoryCatalog catalog identity = Ok tt.

Lemma loaded_unique identity d c1 c2 : loaded identity d c1 -> loaded identity d c2 -> c1 = c2.
Proof. intros [[H1 ->]|[H1 _]] [[H2 ->]|[H2 _]]; congruence. Qed.

Section stays.
  Context (D : memory_files -> Prop) (E : MemoryStoreError -> memory_files -> Prop).

Lemma ends_fail {A} message (m : memory_io A) (Q : A -> memory_files -> Prop) d :
  ends D (fun _ => E (unavailable message)) Q d m -> ends D E Q d (or_fail message m).
Proof.
  intros H. apply ends_bind, ends_attempt. intros fs. specialize (H fs). destruct (m d fs); [by intros fs1..|done].
Qed.

Lemma ends_touched message (Q : unit -> memory_files -> Prop) d :
  D d -> E (unavailable message) d -> Q tt d -> ends D E Q d (or_fail message touch).
Proof. intros HD HE HQ. by apply ends_fail, ends_call. Qed.

Lemma ends_with {A} identity (action : MemoryCatalogV1 -> memory_io A) (Q : A -> memory_files -> Prop) d :
  D d -> (forall e, E e d) -> (forall catalog, loaded identity d catalog -> ends D E Q d (action catalog)) ->
  ends D E Q d (withMemoryCatalog identity action).
Proof.
  intros HD HE HQ. do 3 (apply ends_bind, ends_touched; [done..|]).
  apply ends_bind, ends_bind, ends_fail, ends_call; [done..|]. destruct (catalog_file (mp_hash identity) d) as [|v|] eqn:Hf.
  - apply ends_ret, HQ. by left.
  - do 2 (apply ends_bind, ends_touched; [done..|]). destruct v as [e|catalog]; [by apply ends_refuse|].
    apply ends_bind, ends_checked; [|done]. intros [] Hv. apply ends_ret, HQ. by right.
  - do 2 (apply ends_bind, ends_touched; [done..|]). by apply ends_refuse.
Qed.

Lemma ends_stored identity catalog (Q : unit -> memory_files -> Prop) d :
  let d' := <[mp_hash identity := Holds (inr catalog)]> d in
  D d -> (forall e, E e d) -> D d' -> (forall e, E e d') -> Q tt d' -> ends D E Q d (writeMemoryCatalog identity catalog).
Proof.
  intros d' HD HE HD' HE' HQ. apply ends_if; intros _; [by apply ends_refuse|].
  do 5 (apply ends_bind, ends_touched; [done..|]). apply ends_bind, ends_fail, ends_call; [done..|]. by apply ends_touched.
Qed.
End stays.

(** Without failing calls the catalog is found. *)
Lemma run_with {A} identity (action : MemoryCatalogV1 -> memory_io A) d catalog :
  loaded identity d catalog -> withMemoryCatalog identity action d [] = action catalog d [].
Proof.
  intros Hl. unfold withMemoryCatalog, readMemoryCatalog, or_fail, attempt, mbind, io_bind, touch, call. cbn.
  destruct Hl as [[Hf ->]|[Hf Hv]]; rewrite Hf; cbn; [done|by rewrite Hv].
Qed.

Definition replay_of (receipt : MemoryMutationReceiptV1) : MemoryMutationResult := {|
  mm_Revision := mc_Revision receipt; mm_RecordID := mc_RecordID receipt; mm_AffectedIDs := mc_AffectedIDs receipt;
  mm_Replayed := true |}.

Lemma run_replay find now project mutationID operation writer reason request apply d identity catalog receipt :
  resolveMemoryProject find project = Ok identity -> loaded identity d catalog ->
  findMemoryReceipt (mg_Receipts catalog) mutationID = Some receipt -> mc_Operation receipt = operation ->
  mc_RequestHash receipt = canonicalHash request ->
  mutateMemory find now project mutationID operation writer reason request apply d [] = Returned (replay_of receipt) d [].
Proof.
  intros Hid Hl Hf Hop Hhash. unfold mutateMemory. rewrite Hid.
  etrans; [apply (run_with identity _ d catalog Hl)|]. cbv beta. by rewrite Hf, Hop, Hhash, !String.eqb_refl.
Qed.

(** The change that a mutation has made to the files, if it has made one *)
Record changes (identity : memoryProjectIdentity) (mutationID operation requestHash writer reason : string) (now : Z)
    (apply : MemoryCatalogV1 -> memoryProjectIdentity -> Z -> result MemoryStoreError (string * list string * MemoryCatalogV1))
    (recordID : string) (affectedIDs : list string) d (before after : MemoryCatalogV1) : Prop := {
  ch_loaded : loaded identity d before;
  ch_new : findMemoryReceipt (mg_Receipts before) mutationID = None;
  ch_apply : exists changed, apply before identity now = Ok (recordID, affectedIDs, changed) /\
    after = with_receipt mutationID requestHash operation writer reason recordID affectedIDs now changed;
  ch_valid : validateMemoryCatalog after identity = Ok tt }.

Lemma mutate_ends find now project mutationID operation writer reason request apply d :
  let changes identity := changes identity mutationID operation (canonicalHash request) writer reason now apply in
  let made d' := exists identity recordID affectedIDs before after, resolveMemoryProject find project = Ok identity /\
    changes identity recordID affectedIDs d before after /\ d' = <[mp_hash identity := Holds (inr after)]> d in
  ends (fun d' => d' = d \/ made d') (fun _ d' => d' = d \/ made d')
    (fun r d' =>
       (exists identity catalog receipt, resolveMemoryProject find project = Ok identity /\ loaded identity d catalog /\
          findMemoryReceipt (mg_Receipts catalog) mutationID = Some receipt /\ mc_Operation receipt = operation /\
          mc_RequestHash receipt = canonicalHash request /\ r = replay_of receipt /\ d' = d) \/
       (exists identity recordID affectedIDs before after, resolveMemoryProject find project = Ok identity /\
          changes identity recordID affectedIDs d before after /\ d' = <[mp_hash identity := Holds (inr after)]> d /\
          r = {| mm_Revision := mg_Revision after; mm_RecordID := recordID; mm_AffectedIDs := affectedIDs; mm_Replayed := false |}))
    d (mutateMemory find now project mutationID operation writer reason request apply).
Proof.
  intros ch made. apply ends_bind, ends_checked; [|by left]. intros identity Hid.
  apply ends_with; [by left|by left|]. intros catalog Hload. destruct (findMemoryReceipt _ _) as [receipt|] eqn:Hfind.
  - apply ends_if; intros Hsame; [by apply ends_refuse; left|]. apply orb_false_iff in Hsame as [Hop Hhash].
    apply negb_false_iff, String.eqb_eq in Hop, Hhash. apply ends_ret. left. by exists identity, catalog, receipt.
  - apply ends_bind, ends_checked; [|by left]. intros [[recordID affected] changed] Happly.
    apply ends_bind, ends_checked; [|by left]. intros [] Hvalid.
    assert (ch identity recordID affected d catalog (with_receipt mutationID (canonicalHash request) operation writer reason recordID affected now changed)) as Hch.
    { split; [done..| |done]. by exists changed. }
    assert (made (<[mp_hash identity := Holds (inr (with_receipt mutationID (canonicalHash request) operation writer reason recordID affected now changed))]> d)) as Hmade.
    { by eexists _, _, _, _, _. }
    apply ends_bind, ends_stored; [by left|by left|by right|by right|]. apply ends_ret. right. by eexists _, _, _, _, _.
Qed.

(** ** The four mutations *)

Inductive memory_call :=
| CallCreate (input : MemoryCreateInput)
| CallSupersede (input : MemorySupersedeInput)
| CallDelete (input : MemoryDeleteInput)
| CallConsume (input : MemoryConsumeInput).

Definition perform find now (c : memory_call) : memory_io MemoryMutationResult :=
  match c with
  | CallCreate input => CreateMemory find now input
  | CallSupersede input => SupersedeMemory find now input
  | CallDelete input => DeleteMemory find now input
  | CallConsume input => ConsumeMemory find now input
  end.

Definition call_project (c : memory_call) : string :=
  match c with
  | CallCreate i => mi_Project i | CallSupersede i => ms_Project i | CallDelete i => mx_Project i | CallConsume i => mu_Project i
  end.
Definition call_mutation (c : memory_call) : string :=
  match c with
  | CallCreate i => mi_MutationID i | CallSupersede i => ms_MutationID i | CallDelete i => mx_MutationID i
  | CallConsume i => mu_Mutation i
  end.
Definition call_operation (c : memory_call) : string :=
  match c with CallCreate _ => "create" | CallSupersede _ => "supersede" | CallDelete _ => "delete" | CallConsume _ => "consume" end.
Definition call_writer (c : memory_call) : string :=
  match c with
  | CallCreate i => cc_Writer (mi_Request i) | CallSupersede i => cc_Writer (ms_Request i) | CallDelete i => mx_Writer i
  | CallConsume _ => MemoryWriterEngine
  end.
Definition call_reason (c : memory_call) : string :=
  match c with
  | CallCreate i => cc_Reason (mi_Request i) | CallSupersede i => cc_Reason (ms_Request i) | CallDelete i => mx_Reason i
  | CallConsume i => mu_Why i
  end.
Definition call_request (c : memory_call) : json :=
  match c with
  | CallCreate i => encode_create (mi_Request i)
  | CallSupersede i => encode_supersede (sort_strings (ms_Supersedes i)) (ms_Request i)
  | CallDelete i => encode_delete (mx_RecordID i) (mx_Writer i) (mx_Reason i)
  | CallConsume i => encode_consume (sort_strings (mu_RecordIDs i)) (mu_Why i)
  end.
Definition call_change (c : memory_call)
    : MemoryCatalogV1 -> memoryProjectIdentity -> Z -> result MemoryStoreError (string * list string * MemoryCatalogV1) :=
  match c with
  | CallCreate i => create_change (mi_MutationID i) (mi_Request i)
  | CallSupersede i => supersede_change (ms_MutationID i) (sort_strings (ms_Supersedes i)) (ms_Request i)
  | CallDelete i => delete_change (mx_RecordID i) (mx_Reason i)
  | CallConsume i => consume_change (sort_strings (mu_RecordIDs i))
  end.
Definition call_check (c : memory_call) : result MemoryStoreError unit :=
  match c with
  | CallCreate i => validateMemoryCreateRequest (mi_MutationID i) (mi_Request i)
  | CallSupersede i =>
      _ ← validateMemoryCreateRequest (ms_MutationID i) (ms_Request i);
      check_targets (sort_strings (ms_Supersedes i))
  | CallDelete i =>
      _ ← validateMutationIdentity (mx_MutationID i);
      fail_if negb (validMemoryRecordID (mx_RecordID i)) || negb (validMemoryWriter (mx_Writer i)) || negb (validAuditReason (mx_Reason i))
        with invalid "delete request is invalid" ;; Ok tt
  | CallConsume i => check_consume (sort_strings (mu_RecordIDs i)) i
  end.

Lemma perform_mutates find now c d fs :
  perform find now c d fs =
  (_ ← checked id (call_check c);
   mutateMemory find now (call_project c) (call_mutation c) (call_operation c) (call_writer c) (call_reason c)
     (call_request c) (call_change c)) d fs.
Proof.
  destruct c as [i|i|i|i]; cbn [perform call_check]; [done| | |done].
  - unfold SupersedeMemory. by destruct (validateMemoryCreateRequest _ _) as [[]|].
  - unfold DeleteMemory. by destruct (validateMutationIdentity _) as [[]|].
Qed.

Definition call_changes (c : memory_call) now identity recordID affectedIDs d before after : Prop :=
  call_check c = Ok tt /\ changes identity (call_mutation c) (call_operation c) (canonicalHash (call_request c)) (call_writer c)
    (call_reason c) now (call_change c) recordID affectedIDs d before after.
Definition result_of (recordID : string) (affectedIDs : list string) (after : MemoryCatalogV1) : MemoryMutationResult := {|
  mm_Revision := mg_Revision after; mm_RecordID := recordID; mm_AffectedIDs := affectedIDs; mm_Replayed := false |}.

(** A mutation changes nothing, or the catalog of its project as [call_changes]
    says; it answers from a receipt, or with what it has changed. *)
Lemma perform_ends find now c d fs :
  (files_after (perform find now c d fs) = d \/
   exists identity recordID affectedIDs before after, resolveMemoryProject find (call_project c) = Ok identity /\
     call_changes c now identity recordID affectedIDs d before after /\
     files_after (perform find now c d fs) = <[mp_hash identity := Holds (inr after)]> d) /\
  (forall r d' fs', perform find now c d fs = Returned r d' fs' ->
     exists identity, resolveMemoryProject find (call_project c) = Ok identity /\
     ((exists catalog receipt, loaded identity d catalog /\
         findMemoryReceipt (mg_Receipts catalog) (call_mutation c) = Some receipt /\ mc_Operation receipt = call_operation c /\
         mc_RequestHash receipt = canonicalHash (call_request c) /\ r = replay_of receipt /\ d' = d) \/
      (exists recordID affectedIDs before after, call_changes c now identity recordID affectedIDs d before after /\
         d' = <[mp_hash identity := Holds (inr after)]> d /\ r = result_of recordID affectedIDs after))).
Proof.
  rewrite perform_mutates. unfold call_changes. destruct (call_check c) as [[]|e]; [|split; [by left|done]].
  change (mbind _ (checked id (Ok ())) d fs) with
    (mutateMemory find now (call_project c) (call_mutation c) (call_operation c) (call_writer c) (call_reason c) (call_request c) (call_change c) d fs).
  pose proof (mutate_ends find now (call_project c) (call_mutation c) (call_operation c) (call_writer c) (call_reason c)
    (call_request c) (call_change c) d fs) as H. cbv zeta in H.
  destruct (mutateMemory _ _ _ _ _ _ _ _ _ d fs) as [r d' fs'|e d' fs'|d']; cbn [files_after] in *;
    [|split; [|done]; destruct H as [->|(identity & id & affected & before & after & Hr & Hch & ->)]; [by left|right; by exists identity, id, affected, before, after]..].
  split.
  - destruct H as [(identity & catalog & receipt & _ & _ & _ & _ & _ & _ & ->)|(identity & id & affected & before & after & Hr & Hch & -> & _)]; [by left|].
    right. by exists identity, id, affected, before, after.
  - intros r1 d1 fs1 [= <- <- <-].
    destruct H as [(identity & catalog & receipt & Hid & H)|(identity & id & affected & before & after & Hid & H)];
      exists identity; (split; [done|]); [left; by exists catalog, receipt|right; exists id, affected, before, after; naive_solver].
Qed.

(** ** What validateMemoryCatalog accepts *)

Definition record_ok (identity : memoryProjectIdentity) (r : MemoryRecordV1) : Prop :=
  normalizeMemoryProject (mr_Project r) = mp_normalized identity /\ mr_Scope r = "project" /\
  valid_utf8 (mr_Content r) = true /\ ValidateMemoryRecordV1 r = Ok tt.

Lemma check_record_ok identity ids last r s : check_record identity (ids, last) r = Ok s <->
  record_ok identity r /\ String.ltb last (mr_ID r) = true /\ s = ({[mr_ID r]} ∪ ids, mr_ID r).
Proof.
  unfold check_record, record_ok. rewrite !fail_if_ok, bind_any_ok, string_leb_false, !orb_false_iff, !negb_false_iff, !String.eqb_eq.
  destruct (ValidateMemoryRecordV1 r) as [[]|]; cbn; naive_solver.
Qed.

Lemma last_from {A} (x d : A) l : List.last (x :: l) d = List.last l x.
Proof. revert x d. induction l as [|y l IH]; intros x d; [done|]. transitivity (List.last (y :: l) d); [done|]. by rewrite !IH. Qed.

Lemma check_records_ok identity ids last l s : range_loop (check_record identity) (ids, last) l = Ok s <->
  Forall (record_ok identity) l /\ strictly_sorted (last :: map mr_ID l) /\
  s = (list_to_set (map mr_ID l) ∪ ids, List.last (map mr_ID l) last).
Proof.
  revert ids last. induction l as [|r l IH]; intros ids last; cbn [range_loop map].
  - cbn [list_to_set List.last]. rewrite (left_id_L ∅ (∪)). split; [intros [= <-]|by intros (_ & _ & ->)].
    split; [constructor|]. split; [by repeat constructor|done].
  - rewrite bind_ok, Forall_cons, strictly_sorted_cons2. setoid_rewrite check_record_ok.
    rewrite last_from.
    assert (list_to_set (mr_ID r :: map mr_ID l) ∪ ids = list_to_set (map mr_ID l) ∪ ({[mr_ID r]} ∪ ids :> gset string)) as -> by (cbn; set_solver).
    split.
    + intros (? & (Hr & Hlt & ->) & (Hall & Hs & ->)%IH). done.
    + intros ([Hr Hall] & [Hlt Hs] & ->). eexists. split; [done|]. by apply IH.
Qed.

Record receipt_ok (c : MemoryCatalogV1) (ids : gset string) (r : MemoryMutationReceiptV1) : Prop := {
  ro_mutation : validateMutationIdentity (mc_MutationID r) = Ok tt;
  ro_hash : validHashString (mc_RequestHash r) = true;
  ro_writer : validMemoryReceiptWriter (mc_Writer r) = true;
  ro_reason : validAuditReason (mc_Reason r) = true;
  ro_revision : mc_Revision r <> 0 /\ mc_Revision r <= mg_Revision c;
  ro_known : validReceiptOperation (mc_Operation r) = true;
  ro_id : validMemoryRecordID (mc_RecordID r) = true;
  ro_sorted : strings_sorted (mc_AffectedIDs r) = true;
  ro_nodup : hasDuplicateStrings (mc_AffectedIDs r) = false;
  ro_record : mc_RecordID r ∈ ids;
  ro_affected : Forall (fun id => validMemoryRecordID id = true /\ id ∈ ids) (mc_AffectedIDs r);
  ro_operation : check_operation (mg_Records c) r = Ok tt;
  ro_created : is_Some (parse_rfc3339 (mc_CreatedAt r)) }.

Lemma check_receipt_ok c ids seen last r s : check_receipt c ids (seen, last) r = Ok s <->
  receipt_ok c ids r /\ last < mc_Revision r /\ mc_MutationID r ∉ seen /\ s = ({[mc_MutationID r]} ∪ seen, mc_Revision r).
Proof.
  unfold check_receipt. rewrite !fail_if_ok, !bind_unit_ok, !fail_if_ok, range_loop_unit, !orb_false_iff, !negb_false_iff.
  unfold seen_in. rewrite bool_decide_eq_false, bool_decide_eq_true, is_ok_unit, Z.eqb_neq, Z.ltb_ge, Z.leb_gt.
  assert (Forall (fun id => check_affected ids id = Ok tt) (mc_AffectedIDs r) <->
          Forall (fun id => validMemoryRecordID id = true /\ id ∈ ids) (mc_AffectedIDs r)) as ->.
  { apply Forall_proper; [|done]. intros id. unfold check_affected, seen_in.
    rewrite !fail_if_ok, !negb_false_iff, bool_decide_eq_true. naive_solver. }
  assert (match parse_rfc3339 (mc_CreatedAt r) with Some _ => false | None => true end = false <-> is_Some (parse_rfc3339 (mc_CreatedAt r))) as ->.
  { destruct (parse_rfc3339 _); split; [eauto|done|done|intros [x Hx]; discriminate Hx]. }
  split.
  - intros (((((((((((? & ?) & ?) & ?) & ?) & ?) & ?) & ?) & ?) & ?) & ?) & ? & ? & ? & ? & ? & [= <-]). split; [by split|done].
  - intros ([? ? ? ? [? ?] ? ? ? ? ? ? ? ?] & ? & ? & ->). naive_solver.
Qed.

(** The revision of the last receipt *)
Definition last_revision (l : list MemoryMutationReceiptV1) (from : Z) : Z := List.last (map mc_Revision l) from.
Definition rising (from : Z) (l : list MemoryMutationReceiptV1) : Prop := StronglySorted Z.lt (from :: map mc_Revision l).

Lemma rising_cons from r l : rising from (r :: l) <-> from < mc_Revision r /\ rising (mc_Revision r) l.
Proof.
  unfold rising. cbn [map]. split.
  - by intros [[Hlt _]%Forall_cons Hs]%StronglySorted_cons.
  - intros [Hlt Hs]. apply StronglySorted_cons. split; [|done]. apply Forall_cons. split; [done|].
    apply StronglySorted_cons in Hs as [Hall _]. eapply Forall_impl; [exact Hall|]. cbn. lia.
Qed.

Lemma check_receipts_ok c ids seen last l s : range_loop (check_receipt c ids) (seen, last) l = Ok s <->
  Forall (receipt_ok c ids) l /\ rising last l /\ NoDup (map mc_MutationID l) /\ Forall (fun r => mc_MutationID r ∉ seen) l /\
  s = (list_to_set (map mc_MutationID l) ∪ seen, last_revision l last).
Proof.
  unfold last_revision. revert seen last s. induction l as [|r l IH]; intros seen last s; cbn [range_loop map].
  - cbn [list_to_set List.last]. rewrite (left_id_L ∅ (∪)). split; [intros [= <-]|by intros (_ & _ & _ & _ & ->)].
    split_and!; [constructor|by repeat constructor|constructor..|done].
  - rewrite bind_ok. setoid_rewrite check_receipt_ok. rewrite last_from.
    assert (list_to_set (mc_MutationID r :: map mc_MutationID l) ∪ seen =
            list_to_set (map mc_MutationID l) ∪ ({[mc_MutationID r]} ∪ seen :> gset string)) as -> by (cbn; set_solver).
    rewrite rising_cons, !Forall_cons, NoDup_cons, list_elem_of_fmap. split.
    + intros (? & (Hr & Hlt & Hnew & ->) & (Hall & Hs & Hnd & Hseen & ->)%IH). rewrite Forall_forall in Hseen.
      split_and!; try done; [|apply Forall_forall; intros x Hx; specialize (Hseen x Hx); set_solver].
      intros (x & Hx & Hin). apply (Hseen x Hin). set_solver.
    + intros ([Hr Hall] & [Hlt Hs] & [Hni Hnd] & [Hnew Hseen] & ->). eexists. split; [done|]. apply IH. split_and!; [done..| |done].
      rewrite Forall_forall in Hseen |- *. intros x Hx. specialize (Hseen x Hx). rewrite not_elem_of_union, not_elem_of_singleton.
      split; [|done]. intros Heq. apply Hni. by exists x.
Qed.

Definition ids_of (c : MemoryCatalogV1) : gset string := list_to_set (map mr_ID (mg_Records c)).
Record catalog_ok (c : MemoryCatalogV1) (identity : memoryProjectIdentity) : Prop := {
  co_version : mg_SchemaVersion c = MemoryCatalogVersion;
  co_project : valid_utf8 (mg_Project c) = true /\ normalizeMemoryProject (mg_Project c) = mp_normalized identity /\
               mg_ProjectHash c = mp_hash identity;
  co_counts : len_slice (mg_Records c) <= MaxProjectMemoryRecords /\ len_slice (mg_Receipts c) <= MaxMemoryReceipts;
  co_records : Forall (record_ok identity) (mg_Records c);
  co_ordered : strictly_sorted ("" :: map mr_ID (mg_Records c));
  co_receipts : Forall (receipt_ok c (ids_of c)) (mg_Receipts c);
  co_rising : rising 0 (mg_Receipts c);
  co_once : NoDup (map mc_MutationID (mg_Receipts c));
  co_revision : mg_Revision c = 0 /\ mg_Records c = [] /\ mg_Receipts c = [] \/
                0 < mg_Revision c /\ mg_Receipts c <> [] /\ last_revision (mg_Receipts c) 0 = mg_Revision c \/
                mg_Revision c < 0 }.

Lemma len_slice_nil {A} (l : list A) : len_slice l = 0 <-> l = [].
Proof. unfold len_slice. destruct l; cbn; split; first [done|lia]. Qed.

Lemma revision_condition {A B} (revision last : Z) (records : list A) (receipts : list B) :
  (revision =? 0) && (negb (len_slice records =? 0) || negb (len_slice receipts =? 0)) ||
  (0 <? revision) && ((len_slice receipts =? 0) || negb (last =? revision)) = false <->
  revision = 0 /\ records = [] /\ receipts = [] \/ 0 < revision /\ receipts <> [] /\ last = revision \/ revision < 0.
Proof.
  rewrite <-(len_slice_nil records), <-(len_slice_nil receipts).
  destruct (revision =? 0) eqn:E0, (0 <? revision) eqn:E1, (len_slice records =? 0) eqn:E2, (len_slice receipts =? 0) eqn:E3, (last =? revision) eqn:E4;
    bool_props; cbn; split; try done; lia.
Qed.

Theorem validate_catalog_spec c identity : validateMemoryCatalog c identity = Ok tt <-> catalog_ok c identity.
Proof.
  unfold validateMemoryCatalog. rewrite !fail_if_ok, !orb_false_iff, !negb_false_iff, !String.eqb_eq, !Z.ltb_ge, !bind_ok.
  setoid_rewrite check_records_ok. split.
  - intros (Hv & [[Hu Hn] Hh] & [Hc1 Hc2] & ? & (Hrec & Hord & ->) & Hrest).
    apply bind_ok in Hrest as (s & (Hro & Hri & Hnd & _ & ->)%check_receipts_ok & Hrev). cbn in Hrev.
    apply fail_if_ok in Hrev as [Hrev _]. rewrite (right_id_L ∅ (∪)) in Hro. split; [done..|].
    apply revision_condition, Hrev.
  - intros [Hv (Hu & Hn & Hh) [Hc1 Hc2] Hrec Hord Hro Hri Hnd Hrev]. split_and!; [done..|].
    eexists. split; [split_and!; [done..|reflexivity]|]. cbn. rewrite bind_ok.
    eexists. split; [apply check_receipts_ok; split_and!; [by rewrite (right_id_L ∅ (∪))|done|done|by apply Forall_forall|reflexivity]|].
    cbn. apply fail_if_ok. split; [|done]. by apply revision_condition.
Qed.

(** ** Receipts *)

Definition memory_step d d' : Prop := exists find now c fs, d' = files_after (perform find now c d fs).

(** The file of the project holds this catalog, and it is valid. *)
Definition stored (identity : memoryProjectIdentity) d (c : MemoryCatalogV1) : Prop :=
  catalog_file (mp_hash identity) d = Holds (inr c) /\ catalog_ok c identity.

(** Of two projects with the same hash only one finds the catalog valid. *)
Lemma catalog_ok_same c i1 i2 : mp_normalized i1 = mp_normalized i2 -> mp_hash i1 = mp_hash i2 -> catalog_ok c i1 -> catalog_ok c i2.
Proof.
  intros Hn Hh []. split; try done; [by rewrite <-Hn, <-Hh|]. eapply Forall_impl; [done|]. unfold record_ok. by rewrite Hn.
Qed.

Lemma catalog_file_insert hash hash' f d :
  catalog_file hash (<[hash' := f]> d) = if decide (hash' = hash) then f else catalog_file hash d.
Proof. unfold catalog_file. destruct (decide (hash' = hash)) as [->|Hne]; [by rewrite lookup_insert_eq|by rewrite lookup_insert_ne]. Qed.

Lemma loaded_stored identity i d c c' : stored identity d c -> mp_hash i = mp_hash identity -> loaded i d c' ->
  c' = c /\ mp_normalized i = mp_normalized identity.
Proof.
  intros [Hf Hok] Hh [[Hf' _]|[Hf' Hv%validate_catalog_spec]]; rewrite Hh in Hf'; [congruence|].
  rewrite Hf in Hf'. injection Hf' as ->. split; [done|].
  destruct (co_project _ _ Hok) as (_ & <- & _). by destruct (co_project _ _ Hv) as (_ & <- & _).
Qed.

(** A change replaces the records and nothing else. *)
Lemma change_records c catalog identity now recordID affectedIDs changed :
  call_change c catalog identity now = Ok (recordID, affectedIDs, changed) -> exists records, changed = with_records records catalog.
Proof.
  destruct c as [i|i|i|i]; cbn [call_change]; intros H.
  - unfold create_change in H. apply fail_if_ok in H as [_ H]. apply fail_if_ok in H as [_ H]. apply bind_any_ok in H as [_ [= <- <- <-]]. eauto.
  - unfold supersede_change in H. apply fail_if_ok in H as [_ H]. apply bind_ok in H as (indexes & _ & H). apply fail_if_ok in H as [_ H].
    apply bind_any_ok in H as [_ H]. apply bind_ok in H as (records & _ & [= <- <- <-]). eauto.
  - unfold delete_change in H. destruct (findMemoryRecord _ _); [|done]. apply fail_if_ok in H as [_ H].
    apply bind_ok in H as (records & _ & [= <- <- <-]). eauto.
  - unfold consume_change in H. apply bind_any_ok in H as [_ [= <- <- <-]]. eauto.
Qed.

(** A change depends on the hash of the project. *)
Lemma change_identity c catalog i1 i2 now : mp_hash i1 = mp_hash i2 -> call_change c catalog i2 now = call_change c catalog i1 now.
Proof. intros Hh. destruct c; cbn; unfold create_change, supersede_change; by rewrite ?Hh. Qed.

Definition receipt_of (c : memory_call) now (recordID : string) (affectedIDs : list string) (revision : Z) : MemoryMutationReceiptV1 := {|
  mc_MutationID := call_mutation c; mc_RequestHash := canonicalHash (call_request c); mc_Operation := call_operation c;
  mc_Writer := call_writer c; mc_Reason := call_reason c; mc_Revision := revision; mc_RecordID := recordID;
  mc_AffectedIDs := affectedIDs; mc_CreatedAt := rfc3339 now |}.
Definition newest (l : list MemoryMutationReceiptV1) : list MemoryMutationReceiptV1 :=
  if MaxMemoryReceipts <? len_slice l then drop (length l - Z.to_nat MaxMemoryReceipts) l else l.

Lemma changes_after c now identity recordID affectedIDs d before after :
  call_changes c now identity recordID affectedIDs d before after ->
  catalog_ok after identity /\
  mg_Revision after = wrap_uint64 (mg_Revision before + 1) /\
  mg_Receipts after = newest (mg_Receipts before ++ [receipt_of c now recordID affectedIDs (mg_Revision after)]) /\
  exists changed, call_change c before identity now = Ok (recordID, affectedIDs, changed) /\ mg_Records after = mg_Records changed.
Proof.
  intros [_ [Hload Hnew (changed & Hchange & ->) Hvalid]]. apply validate_catalog_spec in Hvalid.
  destruct (change_records _ _ _ _ _ _ _ Hchange) as [records ->]. split_and!; [done..|]. by exists (with_records records before).
Qed.

Lemma last_revision_app l r from : last_revision (l ++ [r]) from = mc_Revision r.
Proof. unfold last_revision. rewrite map_app. apply List.last_last. Qed.

Lemma rising_app from l1 r l2 : rising from (l1 ++ r :: l2) -> mc_Revision r + Z.of_nat (length l2) <= last_revision (l1 ++ r :: l2) from.
Proof.
  unfold last_revision. revert from. induction l1 as [|x l1 IH]; intros from; cbn [app].
  - intros [_ H]%rising_cons. cbn [map]. rewrite last_from. revert r H. clear. induction l2 as [|y l2 IH]; intros r H; [cbn; lia|].
    apply rising_cons in H as [Hlt H]. cbn [map length]. rewrite last_from. specialize (IH y H). lia.
  - intros [_ H]%rising_cons. cbn [map]. rewrite last_from. by apply IH.
Qed.

Lemma newest_last l r from : last_revision (newest (l ++ [r])) from = mc_Revision r.
Proof.
  unfold newest. case_match; [|apply last_revision_app]. rewrite length_app. cbn [length].
  rewrite drop_app_le by (unfold MaxMemoryReceipts; lia). apply last_revision_app.
Qed.

(** A receipt stays until 4096 mutations have come after it. *)
Lemma newest_keeps l r receipt from : rising from (l ++ [r]) -> receipt ∈ l ->
  receipt ∈ newest (l ++ [r]) \/ mc_Revision receipt + MaxMemoryReceipts <= mc_Revision r.
Proof.
  intros Hrise (l1 & l2 & ->)%list_elem_of_split. unfold newest. destruct (MaxMemoryReceipts <? _) eqn:Hmax; [|left; set_solver].
  rewrite <-app_assoc in *. cbn [app] in *. pose proof (rising_app from l1 receipt (l2 ++ [r]) Hrise) as Hle.
  replace (l1 ++ receipt :: l2 ++ [r]) with ((l1 ++ receipt :: l2) ++ [r]) in * by by rewrite <-app_assoc.
  rewrite last_revision_app in Hle. rewrite !length_app in Hle |- *. cbn [length] in *.
  destruct (decide (Z.of_nat (length l2) + 1 < MaxMemoryReceipts)) as [Hlt|Hge]; [left|right; lia].
  rewrite <-app_assoc. cbn [app]. rewrite drop_app_le; [|rewrite length_app; cbn [length]; unfold MaxMemoryReceipts in *; lia]. apply elem_of_app. right. apply list_elem_of_here.
Qed.

Lemma rising_snoc from l r : rising from (l ++ [r]) <-> rising from l /\ last_revision l from < mc_Revision r.
Proof.
  unfold last_revision. revert from. induction l as [|x l IH]; intros from; cbn [app].
  - rewrite rising_cons. cbn. unfold rising. cbn [map]. split; [intros [? _]|intros [_ ?]]; (split; [|done || by repeat constructor]); [by repeat constructor|done].
  - rewrite !rising_cons, IH. cbn [map]. rewrite last_from. naive_solver.
Qed.

Lemma last_drop k l from : (k < length l)%nat -> last_revision (drop k l) from = last_revision l from.
Proof.
  unfold last_revision. revert l from. induction k as [|k IH]; intros [|x l] from Hk; cbn [length] in *; try lia; [done|].
  cbn [drop map]. destruct l as [|y l]; [cbn in Hk; lia|]. rewrite IH by (cbn in *; lia). cbn [map]. by rewrite !last_from.
Qed.

Lemma newest_rises l r : len_slice l <= MaxMemoryReceipts -> l <> [] -> rising 0 l -> rising 0 (newest (l ++ [r])) -> rising 0 (l ++ [r]).
Proof.
  intros Hlen Hne Hl. unfold newest. destruct (MaxMemoryReceipts <? _) eqn:Hmax; [|done]. apply Z.ltb_lt in Hmax.
  unfold len_slice, MaxMemoryReceipts in *. rewrite length_app in *. cbn [length] in *. rewrite drop_app_le by lia.
  intros [_ Hr]%rising_snoc. rewrite last_drop in Hr by lia. by apply rising_snoc.
Qed.

Lemma find_receipt_in l receipt : NoDup (map mc_MutationID l) -> receipt ∈ l -> findMemoryReceipt l (mc_MutationID receipt) = Some receipt.
Proof.
  unfold findMemoryReceipt. intros Hnd (l1 & l2 & ->)%list_elem_of_split. rewrite map_app in Hnd. apply NoDup_app in Hnd as (_ & Hl1 & _).
  induction l1 as [|x l1 IH]; cbn [app List.find]; [by rewrite String.eqb_refl|].
  destruct (String.eqb_spec (mc_MutationID x) (mc_MutationID receipt)) as [Heq|_].
  - destruct (Hl1 (mc_MutationID x)); cbn; [apply list_elem_of_here|rewrite Heq; apply list_elem_of_here].
  - apply IH. intros y Hy. apply Hl1. cbn. by apply list_elem_of_further.
Qed.

Lemma receipts_positive c identity : catalog_ok c identity -> mg_Receipts c <> [] ->
  0 < mg_Revision c /\ last_revision (mg_Receipts c) 0 = mg_Revision c.
Proof.
  intros Hok Hne. destruct (co_revision _ _ Hok) as [(_ & _ & H)|[(H & _ & Hl)|Hneg]]; [done|done|].
  pose proof (co_rising _ _ Hok) as Hx. pose proof (co_receipts _ _ Hok) as Hro. destruct (mg_Receipts c) as [|x l]; [done|].
  apply rising_cons in Hx as [Hx _]. apply Forall_cons in Hro as [[_ _ _ _ [_ Hle] _ _ _ _ _ _ _ _] _]. lia.
Qed.

(** What a change of a catalog with receipts is *)
Lemma change_rises c now identity recordID affectedIDs d before after :
  call_changes c now identity recordID affectedIDs d before after -> catalog_ok before identity -> mg_Receipts before <> [] ->
  rising 0 (mg_Receipts before ++ [receipt_of c now recordID affectedIDs (mg_Revision after)]) /\
  mg_Revision before < mg_Revision after.
Proof.
  intros (Hok & _ & Hrec & _)%changes_after Hbefore Hne. pose proof (co_rising _ _ Hok) as Hri. rewrite Hrec in Hri.
  apply newest_rises in Hri; [|apply Hbefore|done|apply Hbefore]. split; [done|]. apply rising_snoc in Hri as [_ Hlt]. cbn in Hlt.
  by destruct (receipts_positive _ _ Hbefore Hne) as [_ <-].
Qed.

(** A step leaves the catalog of a project alone or changes it. *)
Lemma step_stored identity d d' c : stored identity d c -> memory_step d d' ->
  stored identity d' c \/
  exists call now recordID affectedIDs after, call_changes call now identity recordID affectedIDs d c after /\ stored identity d' after.
Proof.
  intros Hst (find & now & call & fs & ->).
  destruct (proj1 (perform_ends find now call d fs)) as [->|(i & id & affected & before & after & _ & Hch & ->)]; [by left|].
  destruct (decide (mp_hash i = mp_hash identity)) as [Hh|Hother].
  2: { left. destruct Hst as [Hf Hok]. split; [|done]. by rewrite catalog_file_insert, decide_False. }
  destruct Hch as [Hcheck [Hl Hnew (changed & Happly & Hafter) Hvalid]]. destruct (loaded_stored _ _ _ _ _ Hst Hh Hl) as [-> Hn].
  assert (catalog_ok after identity) as Hok by by apply (catalog_ok_same _ i), validate_catalog_spec.
  right. exists call, now, id, affected, after. split; [|split; [by rewrite catalog_file_insert, decide_True|done]].
  split; [done|]. split; [right; split; [apply Hst|apply validate_catalog_spec, Hst]|done| |by apply validate_catalog_spec].
  exists changed. split; [|done]. rewrite <-Happly. apply change_identity. done.
Qed.

Lemma step_keeps_receipt identity d d' c receipt : stored identity d c -> receipt ∈ mg_Receipts c -> memory_step d d' ->
  exists c', stored identity d' c' /\ mg_Revision c <= mg_Revision c' /\ mg_Receipts c' <> [] /\
    (receipt ∈ mg_Receipts c' \/ mc_Revision receipt + MaxMemoryReceipts <= mg_Revision c').
Proof.
  intros Hst Hin Hstep. assert (mg_Receipts c <> []) as Hne by (intros H; rewrite H in Hin; by apply not_elem_of_nil in Hin).
  destruct (step_stored _ _ _ _ Hst Hstep) as [Hst'|(call & now & id & affected & after & Hch & Hst')].
  { exists c. split_and!; [done|lia|done|by left]. }
  destruct Hst as [_ Hok]. destruct (change_rises _ _ _ _ _ _ _ _ Hch Hok Hne) as [Hri Hlt]. apply changes_after in Hch as (Hok' & _ & Hrec & _).
  exists after. split_and!; [done|lia|..].
  - intros Hnil. destruct (co_revision _ _ Hok') as [(H0 & _)|[(_ & H0 & _)|H0]]; [|done|];
      destruct (receipts_positive _ _ Hok Hne); lia.
  - rewrite Hrec. by apply (newest_keeps _ _ receipt) in Hri.
Qed.

Lemma steps_keep_receipt identity d d' c receipt : stored identity d c -> receipt ∈ mg_Receipts c -> rtc memory_step d d' ->
  exists c', stored identity d' c' /\ (receipt ∈ mg_Receipts c' \/ mc_Revision receipt + MaxMemoryReceipts <= mg_Revision c').
Proof.
  intros Hst Hin Hsteps. assert (mg_Receipts c <> []) as Hne by (intros H; rewrite H in Hin; by apply not_elem_of_nil in Hin).
  assert (receipt ∈ mg_Receipts c \/ mc_Revision receipt + MaxMemoryReceipts <= mg_Revision c) as Hor by by left. clear Hin.
  revert c Hst Hne Hor. induction Hsteps as [d|d d1 d2 Hstep Hsteps IH]; intros c Hst Hne Hor; [by exists c|].
  destruct Hor as [Hin|Hold].
  - destruct (step_keeps_receipt _ _ _ _ _ Hst Hin Hstep) as (c1 & Hst1 & _ & Hne1 & Hor1). by apply (IH c1).
  - destruct (mg_Receipts c) as [|x l] eqn:Hl; [done|].
    assert (x ∈ mg_Receipts c) as Hx by (rewrite Hl; apply list_elem_of_here).
    destruct (step_keeps_receipt _ _ _ _ x Hst Hx Hstep) as (c1 & Hst1 & Hle & Hne1 & _).
    apply (IH c1); [done..|]. right. lia.
Qed.

Definition replayed (r : MemoryMutationResult) : MemoryMutationResult := {|
  mm_Revision := mm_Revision r; mm_RecordID := mm_RecordID r; mm_AffectedIDs := mm_AffectedIDs r; mm_Replayed := true |}.

(** What a mutation that has been carried out leaves *)
Lemma answered find now c d fs r d1 fs1 : perform find now c d fs = Returned r d1 fs1 -> mm_Replayed r = false ->
  exists identity catalog, resolveMemoryProject find (call_project c) = Ok identity /\ stored identity d1 catalog /\
    receipt_of c now (mm_RecordID r) (mm_AffectedIDs r) (mm_Revision r) ∈ mg_Receipts catalog.
Proof.
  intros H Hrep. destruct (proj2 (perform_ends find now c d fs) _ _ _ H) as (identity & Hid & [(? & ? & _ & _ & _ & _ & -> & _)|(id & affected & before & after & Hch & -> & ->)]); [done|].
  exists identity, after. apply changes_after in Hch as (Hok & _ & Hrec & _). split_and!; [done| |].
  - split; [by rewrite catalog_file_insert, decide_True|done].
  - rewrite Hrec. cbn [mm_RecordID mm_AffectedIDs mm_Revision result_of]. generalize (receipt_of c now id affected (mg_Revision after)). intros receipt.
    unfold newest. case_match; [|set_solver]. rewrite drop_app_le; [set_solver|]. rewrite length_app. unfold MaxMemoryReceipts. cbn. lia.
Qed.

(** C23: A mutation of a project's Memory that has been answered is carried out
    once: whatever other mutations, failures and crashes follow, a mutation with
    its id changes nothing as long as fewer than 4096 revisions have passed, the
    same request is given the same answer, and a different one is refused. *)
Theorem memory_mutation_once find now c d fs r d1 fs1 d2 find' now' c' fs' identity catalog :
  perform find now c d fs = Returned r d1 fs1 -> mm_Replayed r = false -> rtc memory_step d1 d2 ->
  resolveMemoryProject find (call_project c) = Ok identity ->
  catalog_file (mp_hash identity) d2 = Holds (inr catalog) -> mg_Revision catalog < mm_Revision r + MaxMemoryReceipts ->
  resolveMemoryProject find' (call_project c') = Ok identity -> call_mutation c' = call_mutation c ->
  let same := call_operation c' = call_operation c /\ canonicalHash (call_request c') = canonicalHash (call_request c) in
  files_after (perform find' now' c' d2 fs') = d2 /\
  (forall r' d3 fs3, perform find' now' c' d2 fs' = Returned r' d3 fs3 -> r' = replayed r /\ same) /\
  (same -> call_check c' = Ok tt -> perform find' now' c' d2 [] = Returned (replayed r) d2 []).
Proof.
  intros H Hrep Hsteps Hid Hfile Hrev Hid' Hmut same. destruct (answered _ _ _ _ _ _ _ _ H Hrep) as (i & c1 & Hi & Hst & Hin).
  rewrite Hid in Hi. injection Hi as <-. destruct (steps_keep_receipt _ _ _ _ _ Hst Hin Hsteps) as (c2 & Hst2 & [Hin2|Hold]);
    pose proof (proj1 Hst2) as Hf2; rewrite Hfile in Hf2; injection Hf2 as <-; [|cbn in Hold; lia].
  set (receipt := receipt_of c now (mm_RecordID r) (mm_AffectedIDs r) (mm_Revision r)) in *.
  assert (findMemoryReceipt (mg_Receipts catalog) (call_mutation c') = Some receipt) as Hfound.
  { rewrite Hmut. apply (find_receipt_in _ receipt); [apply Hst2|done]. }
  assert (forall c3, loaded identity d2 c3 -> c3 = catalog) as Hload by by intros c3 Hl; apply (loaded_stored identity identity d2 catalog c3).
  destruct (perform_ends find' now' c' d2 fs') as [Hafter Hret]. rewrite Hid' in *. split_and!.
  - destruct Hafter as [?|(i3 & id & affected & before & after & [= <-] & [_ [Hl Hnew _ _]] & _)]; [done|]. apply Hload in Hl as ->. congruence.
  - intros r' d3 fs3 (i3 & [= <-] & [(c3 & receipt' & ->%Hload & Hfound' & Hop & Hreq & -> & _)|(id & affected & before & after & [_ [Hl Hnew _ _]] & _)])%Hret.
    + rewrite Hfound in Hfound'. injection Hfound' as <-. done.
    + apply Hload in Hl as ->. congruence.
  - intros [Hop Hhash] Hcheck. rewrite perform_mutates, Hcheck.
    apply (run_replay _ _ _ _ _ _ _ _ _ _ identity catalog receipt); [done|right; split; [done|apply validate_catalog_spec, Hst2]|done|by symmetry..].
Qed.

(** ** Searching *)

Lemma search_loop_ext fuel f g i j : (forall k, f k = g k) -> search_loop fuel f i j = search_loop fuel g i j.
Proof. intros Hfg. revert i j. induction fuel as [|fuel IH]; intros i j; cbn [search_loop]; [done|]. rewrite Hfg. destruct (i <? j)%nat; [|done]. destruct (g ((i + j) / 2)%nat); apply IH. Qed.

(** What is found has the identity asked for. *)
Lemma find_record_some records id index : findMemoryRecord records id = Some index ->
  exists r, records !! index = Some r /\ mr_ID r = id.
Proof.
  unfold findMemoryRecord. destruct (records !! _) as [r|] eqn:Hr; [|done]. destruct (String.eqb_spec (mr_ID r) id); [|done].
  intros [= <-]. by exists r.
Qed.

(** Only the identities matter. *)
Lemma find_record_ids l l' id : map mr_ID l = map mr_ID l' -> findMemoryRecord l id = findMemoryRecord l' id.
Proof.
  intros Heq. assert (forall k, mr_ID <$> l !! k = mr_ID <$> l' !! k) as Hk.
  { intros k. etrans; [symmetry; exact (list_lookup_fmap mr_ID l k)|]. etrans; [|exact (list_lookup_fmap mr_ID l' k)]. exact (f_equal (.!! k) Heq). }
  assert (length l = length l') as Hlen by (rewrite <-(length_map mr_ID l), Heq; apply length_map).
  unfold findMemoryRecord, sort_Search. rewrite Hlen. erewrite (search_loop_ext _ _ (fun k => match l' !! k with
    | Some record => negb (String.ltb (mr_ID record) id) | None => true end)).
  - set (index := search_loop _ _ _ _). specialize (Hk index). destruct (l !! index), (l' !! index); cbn in Hk; try done. by injection Hk as ->.
  - intros k. specialize (Hk k). destruct (l !! k), (l' !! k); cbn in Hk; try done. by injection Hk as ->.
Qed.

(** Below the result of a binary search the predicate is false, from there on
    true, if it is monotone. *)
Lemma search_loop_spec fuel f i j : (j - i <= fuel)%nat -> (i <= j)%nat ->
  (forall a b, (a <= b)%nat -> f a = true -> f b = true) -> (forall a, (a < i)%nat -> f a = false) ->
  let k := search_loop fuel f i j in
  (i <= k <= j)%nat /\ (forall a, (a < k)%nat -> f a = false) /\ ((k < j)%nat -> f k = true).
Proof.
  intros Hfuel Hij Hmono. revert i j Hfuel Hij. induction fuel as [|fuel IH]; intros i j Hfuel Hij Hlow; cbn [search_loop].
  { split_and!; [lia|lia|done|lia]. }
  destruct (i <? j)%nat eqn:Hlt; [apply Nat.ltb_lt in Hlt|apply Nat.ltb_ge in Hlt; split_and!; [lia|lia|done|lia]].
  assert (i <= (i + j) / 2 < j)%nat as Hh by (split; [apply Nat.div_le_lower_bound|apply Nat.div_lt_upper_bound]; lia).
  destruct (f ((i + j) / 2)%nat) eqn:Hf.
  - destruct (IH i ((i + j) / 2)%nat) as (? & ? & Hk); [lia|lia|done|]. split_and!; [lia|lia|done|]. intros Hkj.
    destruct (decide (search_loop fuel f i ((i + j) / 2) < (i + j) / 2)%nat) as [Hs|Hs]; [by apply Hk|].
    by replace (search_loop fuel f i ((i + j) / 2)) with ((i + j) / 2)%nat by lia.
  - destruct (IH (S ((i + j) / 2)) j) as (? & ? & ?); [lia|lia| |by split_and!; [lia|lia|..]].
    intros a Ha. destruct (f a) eqn:Hfa; [|done]. rewrite <-Hf. symmetry. apply (Hmono a); [lia|done].
Qed.

(** In a sorted list the binary search finds what is there. *)
Lemma find_record_sorted l k r : strictly_sorted (map mr_ID l) -> l !! k = Some r -> findMemoryRecord l (mr_ID r) = Some k.
Proof.
  intros Hs Hk. set (f := fun index => match l !! index with Some record => negb (String.ltb (mr_ID record) (mr_ID r)) | None => true end).
  assert (forall a b x y, (a < b)%nat -> l !! a = Some x -> l !! b = Some y -> String.ltb (mr_ID x) (mr_ID y) = true) as Hlt.
  { intros a b x y Hab Ha Hb. rewrite <-(take_drop (S a) l), map_app in Hs.
    apply (StronglySorted_app_1_elem_of _ _ _ (mr_ID x) (mr_ID y)) in Hs; [done|..]; apply list_elem_of_fmap_2, list_elem_of_lookup.
    - exists a. rewrite lookup_take_lt by lia. done.
    - exists (b - S a)%nat. rewrite lookup_drop. by replace (S a + (b - S a))%nat with b by lia. }
  destruct (search_loop_spec (length l) f 0 (length l)) as (Hb & Hlow & Hhigh); [lia|lia| |lia|].
  { intros a b Hab. unfold f. destruct (l !! b) as [y|] eqn:Hy; [|done].
    destruct (l !! a) as [x|] eqn:Hx; [|apply lookup_ge_None in Hx; apply lookup_lt_Some in Hy; lia].
    intros Hxr%negb_true_iff. apply negb_true_iff. destruct (decide (a = b)) as [->|Hne]; [congruence|].
    destruct (String.ltb (mr_ID y) (mr_ID r)) eqn:Hyr; [|done]. rewrite <-Hxr. symmetry. apply (string_ltb_trans _ (mr_ID y)); [|done].
    apply (Hlt a b x y); [lia|done..]. }
  unfold findMemoryRecord, sort_Search. fold f. set (m := search_loop _ f _ _) in *.
  assert (m = k) as ->; [|by rewrite Hk, String.eqb_refl]. pose proof (lookup_lt_Some _ _ _ Hk).
  destruct (decide (m < k)%nat) as [Hmk|Hmk].
  - assert (f m = true) as Hm by (apply Hhigh; lia). unfold f in Hm. destruct (lookup_lt_is_Some_2 l m ltac:(lia)) as [x Hx]. rewrite Hx in Hm.
    rewrite (Hlt m k x r) in Hm by done. done.
  - destruct (decide (k < m)%nat) as [Hkm|]; [|lia]. specialize (Hlow k Hkm). unfold f in Hlow. rewrite Hk in Hlow.
    by rewrite string_ltb_irrefl in Hlow.
Qed.

(** ** Records *)

Inductive record_step (r : MemoryRecordV1) : MemoryRecordV1 -> Prop :=
| record_stays : record_step r r
| record_used now : mr_State r = MemoryActive -> record_step r (use_record now r)
| record_superseded reason now : mr_State r = MemoryActive -> record_step r (supersede_record reason now r)
| record_deleted reason now : mr_State r <> MemoryDeleted -> record_step r (delete_record reason now r).

(** The records of a catalog after a change: each after at most one step, and
    perhaps a new one *)
Definition moved (before after : list MemoryRecordV1) : Prop :=
  exists l, Forall2 record_step before l /\ (after = l \/ exists r, after = add_record r l).

Lemma moved_in before after r : moved before after -> r ∈ before -> exists r', r' ∈ after /\ record_step r r'.
Proof.
  intros (l & Hall & Hafter) [k Hk]%list_elem_of_lookup. destruct (Forall2_lookup_l _ _ _ _ _ Hall Hk) as (r' & Hk' & Hstep).
  exists r'. split; [|done]. apply list_elem_of_lookup_2 in Hk'. destruct Hafter as [->|[x ->]]; [done|].
  apply sort_slice_elem, elem_of_app. by left.
Qed.

Lemma stays l : Forall2 record_step l l.
Proof. apply Forall_Forall2_diag, Forall_forall. intros r _. constructor. Qed.

Lemma change_record_ok f records index records' : change_record f records index = Ok records' ->
  match records !! index with Some r => records' = <[index := f r]> records | None => records' = records end.
Proof. unfold change_record. destruct (records !! index) as [r|]; [|by intros [= <-]]. by intros [_ [= <-]]%bind_any_ok. Qed.

Lemma supersede_indexes catalog targets indexes0 indexes : range_loop (supersede_index catalog) indexes0 targets = Ok indexes ->
  Forall (fun index => exists r, mg_Records catalog !! index = Some r /\ mr_State r = MemoryActive) indexes0 ->
  Forall (fun index => exists r, mg_Records catalog !! index = Some r /\ mr_State r = MemoryActive) indexes.
Proof.
  intros H H0. revert indexes0 H H0. induction targets as [|id targets IH]; intros indexes0 H H0; cbn [range_loop] in H; [by injection H as <-|].
  apply bind_ok in H as (indexes1 & H1 & H). apply (IH _ H). unfold supersede_index in H1.
  destruct (findMemoryRecord _ _) as [index|] eqn:Hf; [|done]. apply fail_if_ok in H1 as [Hs [= <-]].
  apply Forall_app. split; [done|]. apply Forall_singleton. apply find_record_some in Hf as (r & Hr & _). exists r. split; [done|].
  rewrite Hr in Hs. by apply negb_false_iff, String.eqb_eq in Hs.
Qed.

Lemma supersede_moves reason now before indexes l l' :
  range_loop (change_record (supersede_record reason now)) l indexes = Ok l' ->
  Forall (fun index => exists r, before !! index = Some r /\ mr_State r = MemoryActive) indexes ->
  Forall2 (fun r r' => r' = r \/ mr_State r = MemoryActive /\ r' = supersede_record reason now r) before l ->
  Forall2 (fun r r' => r' = r \/ mr_State r = MemoryActive /\ r' = supersede_record reason now r) before l'.
Proof.
  revert l. induction indexes as [|index indexes IH]; intros l H Hidx Hl; cbn [range_loop] in H; [by injection H as <-|].
  apply bind_ok in H as (l1 & H1%change_record_ok & H). apply Forall_cons in Hidx as [(r & Hr & Hactive) Hidx]. apply (IH _ H Hidx).
  destruct (Forall2_lookup_l _ _ _ _ _ Hl Hr) as (r1 & Hr1 & Hstep). rewrite Hr1 in H1. subst l1.
  rewrite <-(list_insert_id before index r Hr). apply Forall2_insert; [done|]. right. split; [done|]. by destruct Hstep as [->|[_ ->]].
Qed.

(** Every selected record is used once. *)
Lemma use_all now records ids : NoDup (map mr_ID records) -> NoDup ids -> (forall id, id ∈ ids -> is_Some (findMemoryRecord records id)) ->
  foldl (use_one now) records ids = map (fun r => if bool_decide (mr_ID r ∈ ids) then use_record now r else r) records.
Proof.
  revert records. induction ids as [|id ids IH]; intros records Hnd Hids Hfound; cbn [foldl].
  { rewrite <-(map_id records) at 1. apply map_ext. intros r. by rewrite bool_decide_false by apply not_elem_of_nil. }
  apply NoDup_cons in Hids as [Hni Hids].
  assert (use_one now records id = map (fun r => if mr_ID r =s id then use_record now r else r) records) as Hone.
  { unfold use_one. destruct (Hfound id) as [index Hf]; [apply list_elem_of_here|]. rewrite Hf. apply find_record_some in Hf as (r & Hr & <-).
    apply list_eq. intros k. change (map ?f records) with (f <$> records). rewrite list_lookup_fmap. destruct (decide (index = k)) as [<-|Hne].
    - rewrite list_lookup_alter_eq, Hr. cbn. by rewrite String.eqb_refl.
    - rewrite list_lookup_alter_ne by done. destruct (records !! k) as [x|] eqn:Hx; [|done]. cbn.
      destruct (String.eqb_spec (mr_ID x) (mr_ID r)) as [Heq|]; [|done]. destruct Hne. apply (NoDup_lookup (map mr_ID records) index k (mr_ID r)); [done|..].
      + apply list_lookup_fmap_Some. by exists r.
      + apply list_lookup_fmap_Some. by exists x. }
  rewrite Hone.
  assert (map mr_ID (map (fun r => if mr_ID r =s id then use_record now r else r) records) = map mr_ID records) as Hsame.
  { rewrite map_map. apply map_ext. intros r. by destruct (mr_ID r =s id). }
  rewrite IH; [|by rewrite Hsame|done|].
  - rewrite map_map. apply map_ext. intros r. destruct (String.eqb_spec (mr_ID r) id) as [Heq|Hne]; cbn [mr_ID use_record].
    + rewrite bool_decide_false by by rewrite Heq. by rewrite bool_decide_true by (rewrite Heq; apply list_elem_of_here).
    + rewrite (bool_decide_ext (mr_ID r ∈ id :: ids) (mr_ID r ∈ ids)); [done|]. rewrite elem_of_cons. naive_solver.
  - intros x Hx. rewrite (find_record_ids _ records) by done. by apply Hfound, list_elem_of_further.
Qed.

Lemma sorted_distinct values : strings_sorted values = true -> hasDuplicateStrings values = false -> strictly_sorted values.
Proof.
  induction values as [|a [|b values] IH]; intros Hs Hd; [constructor|by repeat constructor|].
  change (negb (String.ltb b a) && strings_sorted (b :: values) = true) in Hs. change ((b =s a) || hasDuplicateStrings (b :: values) = false) in Hd.
  apply andb_true_iff in Hs as [Hab Hs]. apply orb_false_iff in Hd as [Hne Hd].
  apply strictly_sorted_cons2. split; [|by apply IH]. apply negb_true_iff in Hab. apply String.eqb_neq in Hne.
  destruct (String.ltb a b) eqn:Hlt; [done|]. apply string_ltb_total in Hlt; [|done]. congruence.
Qed.

Lemma sort_strings_ascending l : strings_sorted (sort_strings l) = true.
Proof.
  pose proof (sort_strings_sorted l) as H. induction (sort_strings l) as [|a [|b m] IH]; [done..|].
  change (negb (String.ltb b a) && strings_sorted (b :: m) = true). apply StronglySorted_cons in H as [Hall H].
  rewrite (IH H), andb_true_r. apply negb_true_iff.
  apply Forall_cons in Hall as [Hab _]. by apply string_not_ltb.
Qed.

(** The selected records of a consume request *)
Definition selected (c : memory_call) : list string :=
  match c with CallConsume i => sort_strings (mu_RecordIDs i) | _ => [] end.

(** What a change does to the records: a consume uses those that are selected,
    once each; no other change uses one. *)
Lemma change_moves c catalog identity now recordID affectedIDs changed :
  catalog_ok catalog identity -> call_check c = Ok tt -> call_change c catalog identity now = Ok (recordID, affectedIDs, changed) ->
  moved (mg_Records catalog) (mg_Records changed) /\
  match c with
  | CallConsume _ => mg_Records changed = map (fun r => if bool_decide (mr_ID r ∈ selected c) then use_record now r else r) (mg_Records catalog) /\
                     Forall (fun r => mr_ID r ∈ selected c -> mr_State r = MemoryActive) (mg_Records catalog)
  | _ => True
  end.
Proof.
  intros Hok Hcheck H. destruct c as [i|i|i|i]; cbn [call_change call_check selected] in *.
  - split; [|done]. unfold create_change in H. apply fail_if_ok in H as [_ H]. apply fail_if_ok in H as [_ H]. apply bind_any_ok in H as [_ [= <- <- <-]].
    exists (mg_Records catalog). split; [apply stays|]. right. by eexists.
  - split; [|done]. unfold supersede_change in H. apply fail_if_ok in H as [_ H]. apply bind_ok in H as (indexes & Hidx & H). apply fail_if_ok in H as [_ H].
    apply bind_any_ok in H as [_ H]. apply bind_ok in H as (records & Hrec & [= <- <- <-]).
    exists records. split; [|right; by eexists]. apply supersede_indexes in Hidx; [|constructor].
    apply (supersede_moves _ _ (mg_Records catalog)) in Hrec; [|done|apply Forall_Forall2_diag, Forall_forall; by left].
    eapply Forall2_impl; [exact Hrec|]. intros r r' [->|[Hactive ->]]; by constructor.
  - split; [|done]. unfold delete_change in H. destruct (findMemoryRecord _ _) as [index|] eqn:Hf; [|done]. apply fail_if_ok in H as [Hs H].
    apply bind_ok in H as (records & Hrec%change_record_ok & [= <- <- <-]). apply find_record_some in Hf as (r & Hr & _). rewrite Hr in *. subst records.
    exists (<[index := delete_record (mx_Reason i) now r]> (mg_Records catalog)). split; [|by left].
    rewrite <-(list_insert_id (mg_Records catalog) index r Hr) at 1. apply Forall2_insert; [apply stays|]. constructor.
    by apply String.eqb_neq.
  - unfold consume_change in H. apply bind_any_ok in H as [Huse [= <- <- <-]]. apply is_ok_unit in Huse. rewrite range_loop_unit in Huse.
    unfold check_consume in Hcheck. apply fail_if_ok in Hcheck as [Hdup _]. rewrite !orb_false_iff in Hdup. destruct Hdup as [[[_ Hdup] _] _].
    set (ids := sort_strings (mu_RecordIDs i)) in *. 
    assert (NoDup ids) as Hids by (apply strictly_sorted_NoDup, sorted_distinct; [apply sort_strings_ascending|done]).
    assert (strictly_sorted (map mr_ID (mg_Records catalog))) as Hsort by apply (proj1 (StronglySorted_cons _ _ _) (co_ordered _ _ Hok)).
    assert (NoDup (map mr_ID (mg_Records catalog))) as Hnd by by apply strictly_sorted_NoDup.
    rewrite Forall_forall in Huse.
    assert (Forall (fun r => mr_ID r ∈ ids -> mr_State r = MemoryActive) (mg_Records catalog)) as Hactive.
    { apply Forall_forall. intros r [k Hk]%list_elem_of_lookup Hin. specialize (Huse _ Hin). unfold check_use in Huse.
      rewrite (find_record_sorted _ k r) in Huse by done. cbn in Huse. rewrite Hk in Huse. apply fail_if_ok in Huse as [Hs _].
      by apply negb_false_iff, String.eqb_eq in Hs. }
    cbn [mg_Records with_records]. rewrite use_all; [|done|done|].
    2: { intros id Hin. specialize (Huse id Hin). unfold check_use in Huse. by destruct (findMemoryRecord (mg_Records catalog) id). }
    split; [|done]. eexists. split; [|by left]. apply Forall2_fmap_r. apply Forall_Forall2_diag. eapply Forall_impl; [exact Hactive|].
    intros r Hr. unfold compose. case_bool_decide; [|constructor]. constructor. auto.
Qed.

(** What a valid record says about its uses and its state *)
Lemma record_facts r : ValidateMemoryRecordV1 r = Ok tt ->
  validMemoryState (mr_State r) = true /\ 0 <= mr_UseCount r /\
  (0 < mt_MaxUses (mr_Retention r) -> mr_UseCount r <= mt_MaxUses (mr_Retention r)) /\
  (mr_State r = MemoryDeleted -> mr_Content r = "").
Proof.
  unfold ValidateMemoryRecordV1. intros H. do 5 (apply fail_if_ok in H as [? H]). destruct (parse_rfc3339 (mr_CreatedAt r)); [|done].
  do 3 (apply fail_if_ok in H as [? H]). apply bind_unit_ok in H as [Hcontent H]. apply fail_if_ok in H as [_ H]. apply bind_any_ok in H as [_ H].
  apply fail_if_ok in H as [Huse _]. rewrite !orb_false_iff, andb_false_iff, !Z.ltb_ge in Huse.
  split_and!; [|lia|lia|].
  - repeat match goal with H : _ || _ = false |- _ => apply orb_false_iff in H as [? ?] end. by apply negb_false_iff.
  - intros Hd. rewrite Hd in Hcontent. cbn in Hcontent. apply fail_if_ok in Hcontent as [[Hc _]%orb_false_iff _].
    by apply negb_false_iff, String.eqb_eq in Hc.
Qed.

Definition state_rank (state : string) : Z :=
  if state =s MemoryActive then 0 else if state =s MemorySuperseded then 1 else 2.

(** What can have become of a record *)
Record record_after (r r' : MemoryRecordV1) : Prop := {
  ra_same : mr_ID r' = mr_ID r /\ mr_Project r' = mr_Project r /\ mr_Type r' = mr_Type r /\ mr_Scope r' = mr_Scope r /\
    mr_ContentHash r' = mr_ContentHash r /\ mr_Sensitivity r' = mr_Sensitivity r /\ mr_Provenance r' = mr_Provenance r /\
    mr_CreatedAt r' = mr_CreatedAt r /\ mr_Supersedes r' = mr_Supersedes r /\ mr_Retention r' = mr_Retention r;
  ra_content : mr_Content r' = if mr_State r' =s MemoryDeleted then "" else mr_Content r;
  ra_state : validMemoryState (mr_State r') = true /\ state_rank (mr_State r) <= state_rank (mr_State r');
  ra_uses : mr_UseCount r <= mr_UseCount r' < 2 ^ 63;
  ra_retired : mr_State r <> MemoryActive -> mr_UseCount r' = mr_UseCount r }.

Lemma valid_states state : validMemoryState state = true -> state = MemoryActive \/ state = MemorySuperseded \/ state = MemoryDeleted.
Proof. unfold validMemoryState. rewrite !orb_true_iff, !String.eqb_eq. tauto. Qed.

Lemma record_after_trans r1 r2 r3 : record_after r1 r2 -> record_after r2 r3 -> record_after r1 r3.
Proof.
  intros [(? & ? & ? & ? & ? & ? & ? & ? & ? & ?) Hc1 [Hv1 Hs1] Hu1 Hr1] [(? & ? & ? & ? & ? & ? & ? & ? & ? & ?) Hc2 [Hv2 Hs2] Hu2 Hr2]. split.
  - split_and!; congruence.
  - rewrite Hc2. destruct (String.eqb_spec (mr_State r3) MemoryDeleted) as [|Hne]; [done|]. rewrite Hc1.
    destruct (String.eqb_spec (mr_State r2) MemoryDeleted) as [Heq|]; [|done]. exfalso.
    apply valid_states in Hv2 as [Hv2|[Hv2|Hv2]]; rewrite Heq, Hv2 in Hs2; vm_compute in Hs2; done.
  - split; [done|lia].
  - lia.
  - intros Hne. rewrite Hr2; [by apply Hr1|]. intros Ha. rewrite Ha in Hs1. change (state_rank MemoryActive) with 0 in Hs1.
    unfold state_rank in Hs1. apply String.eqb_neq in Hne. rewrite Hne in Hs1. by destruct (mr_State r1 =s MemorySuperseded).
Qed.

Lemma record_step_after r r' : ValidateMemoryRecordV1 r = Ok tt -> ValidateMemoryRecordV1 r' = Ok tt -> mr_UseCount r < 2 ^ 63 ->
  record_step r r' -> record_after r r'.
Proof.
  intros (Hv & Hu & _ & Hd)%record_facts (Hv' & Hu' & _ & Hd')%record_facts Hmax Hstep. split.
  - by destruct Hstep.
  - destruct (String.eqb_spec (mr_State r') MemoryDeleted) as [|Hne]; [by apply Hd'|]. by destruct Hstep.
  - split; [done|]. destruct Hstep as [|now Ha|reason now Ha|reason now Ha]; cbn [mr_State use_record supersede_record delete_record]; [done|done|by rewrite Ha|].
    unfold state_rank at 1. by repeat case_match.
  - destruct Hstep; cbn [mr_UseCount use_record supersede_record delete_record] in *; try lia. revert Hu'. unfold wrap_int64. intros Hu'.
    Z.to_euclidean_division_equations. lia.
  - intros Hne. by destruct Hstep.
Qed.

(** ** The life of a record *)

Lemma call_moves call now identity recordID affectedIDs d c c' : stored identity d c ->
  call_changes call now identity recordID affectedIDs d c c' ->
  moved (mg_Records c) (mg_Records c') /\
  match call with
  | CallConsume _ => mg_Records c' = map (fun r => if bool_decide (mr_ID r ∈ selected call) then use_record now r else r) (mg_Records c) /\
                     Forall (fun r => mr_ID r ∈ selected call -> mr_State r = MemoryActive) (mg_Records c)
  | _ => True
  end.
Proof.
  intros [_ Hok] Hch. pose proof (proj1 Hch) as Hcheck. apply changes_after in Hch as (_ & _ & _ & changed & Happly & ->).
  by apply (change_moves _ _ _ _ _ _ _ Hok Hcheck Happly).
Qed.

Lemma stored_record identity d c r : stored identity d c -> r ∈ mg_Records c -> ValidateMemoryRecordV1 r = Ok tt.
Proof. intros [_ Hok] Hr. pose proof (co_records _ _ Hok) as H. rewrite Forall_forall in H. by apply H. Qed.

Lemma record_after_refl r : ValidateMemoryRecordV1 r = Ok tt -> mr_UseCount r < 2 ^ 63 -> record_after r r.
Proof. intros H Hmax. by apply record_step_after; [..|constructor]. Qed.

Lemma step_keeps_record identity d d' c r : stored identity d c -> r ∈ mg_Records c -> mr_UseCount r < 2 ^ 63 -> memory_step d d' ->
  exists c' r', stored identity d' c' /\ r' ∈ mg_Records c' /\ record_after r r'.
Proof.
  intros Hst Hr Hmax Hstep. pose proof (stored_record _ _ _ _ Hst Hr) as Hv.
  destruct (step_stored _ _ _ _ Hst Hstep) as [Hst'|(call & now & id & affected & after & Hch & Hst')].
  { exists c, r. split_and!; [done..|by apply record_after_refl]. }
  destruct (call_moves _ _ _ _ _ _ _ _ Hst Hch) as [Hmoved _]. destruct (moved_in _ _ _ Hmoved Hr) as (r' & Hr' & Hrs).
  exists after, r'. split_and!; [done..|]. apply record_step_after; [done|by apply (stored_record _ _ _ _ Hst')|done..].
Qed.

(** Over everything that can happen to a project's Memory a record stays: its
    identity and provenance, and its text until it is deleted; it goes from active
    to superseded to deleted and never back; its uses are counted up, never beyond
    what it allows, and no more once it is superseded or deleted. *)
Theorem memory_records_stay identity d d' c r :
  stored identity d c -> r ∈ mg_Records c -> mr_UseCount r < 2 ^ 63 -> rtc memory_step d d' ->
  exists c' r', stored identity d' c' /\ r' ∈ mg_Records c' /\ record_after r r' /\
    (0 < mt_MaxUses (mr_Retention r) -> mr_UseCount r' <= mt_MaxUses (mr_Retention r)).
Proof.
  intros Hst Hr Hmax Hsteps.
  assert (exists c' r', stored identity d' c' /\ r' ∈ mg_Records c' /\ record_after r r') as (c' & r' & Hst' & Hr' & Ha).
  { revert c r Hst Hr Hmax. induction Hsteps as [d|d d1 d2 Hstep Hsteps IH]; intros c r Hst Hr Hmax.
    - exists c, r. split_and!; [done..|]. apply record_after_refl; [by apply (stored_record _ _ _ _ Hst)|done].
    - destruct (step_keeps_record _ _ _ _ _ Hst Hr Hmax Hstep) as (c1 & r1 & Hst1 & Hr1 & Ha1).
      destruct (IH c1 r1 Hst1 Hr1) as (c2 & r2 & ? & ? & ?); [apply Ha1|]. exists c2, r2. split_and!; [done..|by apply (record_after_trans _ r1)]. }
  exists c', r'. split_and!; [done..|]. destruct (record_facts r') as (_ & _ & Hb & _); [by apply (stored_record _ _ _ _ Hst')|].
  by destruct (ra_same _ _ Ha) as (_ & _ & _ & _ & _ & _ & _ & _ & _ & <-).
Qed.

(** [memory_trace identity id d n d']: on the way from [d] to [d'], among everything
    that happens, [n] answers have granted a use of the record. *)
Inductive memory_trace (identity : memoryProjectIdentity) (id : string) : memory_files -> nat -> memory_files -> Prop :=
| trace_end d : memory_trace identity id d 0 d
| trace_step d d1 n d2 : memory_step d d1 -> memory_trace identity id d1 n d2 -> memory_trace identity id d n d2
| trace_grant d find now input fs r d1 fs1 n d2 :
    ConsumeMemory find now input d fs = Returned r d1 fs1 -> mm_Replayed r = false ->
    resolveMemoryProject find (mu_Project input) = Ok identity -> id ∈ mu_RecordIDs input ->
    memory_trace identity id d1 n d2 -> memory_trace identity id d (S n) d2.

Lemma grant_uses identity find now input d fs r d1 fs1 c x : stored identity d c -> x ∈ mg_Records c -> mr_UseCount x < 2 ^ 63 ->
  ConsumeMemory find now input d fs = Returned r d1 fs1 -> mm_Replayed r = false ->
  resolveMemoryProject find (mu_Project input) = Ok identity -> mr_ID x ∈ mu_RecordIDs input ->
  exists c' x', stored identity d1 c' /\ x' ∈ mg_Records c' /\ record_after x x' /\ mr_UseCount x' = mr_UseCount x + 1.
Proof.
  intros Hst Hx Hmax H Hrep Hid Hin.
  destruct (proj2 (perform_ends find now (CallConsume input) d fs) _ _ _ H) as (i & Hi & [(? & ? & _ & _ & _ & _ & -> & _)|(id & affected & before & c' & Hch & -> & ->)]); [done|].
  cbn [call_project] in Hi. rewrite Hid in Hi. injection Hi as <-.
  destruct (loaded_stored identity identity d c before Hst eq_refl) as [-> _]; [apply Hch|].
  destruct (call_moves _ _ _ _ _ _ _ _ Hst Hch) as [_ [Hrec Hactive]].
  assert (stored identity (<[mp_hash identity := Holds (inr c')]> d) c') as Hst'.
  { split; [by rewrite catalog_file_insert, decide_True|]. by apply changes_after in Hch as [Hok _]. }
  assert (mr_ID x ∈ selected (CallConsume input)) as Hsel by by apply sort_slice_elem.
  assert (use_record now x ∈ mg_Records c') as Hx'.
  { rewrite Hrec. apply list_elem_of_fmap. exists x. by rewrite bool_decide_true. }
  exists c', (use_record now x). rewrite Forall_forall in Hactive.
  assert (record_after x (use_record now x)) as Ha.
  { apply record_step_after; [by apply (stored_record _ _ _ _ Hst)|by apply (stored_record _ _ _ _ Hst')|done|]. constructor. by apply Hactive. }
  split_and!; [done..|]. destruct (record_facts x) as (_ & Hlow & _); [by apply (stored_record _ _ _ _ Hst)|].
  pose proof (ra_uses _ _ Ha) as Hu. cbn [mr_UseCount use_record] in *. unfold wrap_int64 in *. Z.to_euclidean_division_equations. lia.
Qed.

(** However mutations, failures and crashes interleave, a record with a limit
    of uses is granted to consumers that often at most. *)
Theorem memory_uses_bounded identity d n d' c r :
  stored identity d c -> r ∈ mg_Records c -> mr_UseCount r < 2 ^ 63 -> 0 < mt_MaxUses (mr_Retention r) ->
  memory_trace identity (mr_ID r) d n d' -> mr_UseCount r + Z.of_nat n <= mt_MaxUses (mr_Retention r).
Proof.
  intros Hst Hr Hmax Hlim Htrace. remember (mr_ID r) as id eqn:Hid. revert c r Hid Hst Hr Hmax Hlim.
  induction Htrace as [d|d d1 n d2 Hstep _ IH|d find now input fs a d1 fs1 n d2 H Hrep Hres Hin _ IH]; intros c r -> Hst Hr Hmax Hlim.
  - destruct (record_facts r) as (_ & _ & Hb & _); [by apply (stored_record _ _ _ _ Hst)|]. specialize (Hb Hlim). lia.
  - destruct (step_keeps_record _ _ _ _ _ Hst Hr Hmax Hstep) as (c1 & r1 & Hst1 & Hr1 & [(Hid & _ & _ & _ & _ & _ & _ & _ & _ & Hret) _ _ Hu _]).
    rewrite <-Hret. specialize (IH c1 r1). rewrite Hret in *. specialize (IH (eq_sym Hid) Hst1 Hr1 (proj2 Hu) Hlim). lia.
  - destruct (grant_uses _ _ _ _ _ _ _ _ _ _ _ Hst Hr Hmax H Hrep Hres Hin) as (c1 & r1 & Hst1 & Hr1 & [(Hid & _ & _ & _ & _ & _ & _ & _ & _ & Hret) _ _ Hu _] & Hone).
    specialize (IH c1 r1). rewrite Hret in *. specialize (IH (eq_sym Hid) Hst1 Hr1 (proj2 Hu) Hlim). lia.
Qed.
End theory.

(** ** A project to evaluate *)

(** Record identities are made of the first half of a digest. *)
Definition half_digest : Sha256.
Proof.
  refine {| hashBytes := fun s => of_list (hex_text 32 (checksum s) ++ hex_text 32 (checksum s)) |}; intros s;
    destruct (hex_text_hex 32 (checksum s)) as [Hlen Hhex].
  - unfold Context.validHash. rewrite to_of_list, forallb_app, Hhex. cbn [andb]. rewrite andb_true_r. apply Z.eqb_eq. unfold len.
    by rewrite length_of_list, length_app, Hlen.
  - unfold to_lower. by rewrite to_of_list, map_app, hex_text_lower.
Defined.
#[local] Existing Instance half_digest.

Definition demo_directory (project : string) : resolved := Directory project.
(** Some time in 2025 *)
Definition demo_time : Z := 63880000000 * 1000000000.
Definition demo_note (mutationID content : string) : memory_call := CallCreate {|
  mi_Project := "/work/project"; mi_MutationID := mutationID;
  mi_Request := {| cc_Type := MemoryDecision; cc_Content := content; cc_Sensitivity := SensitivityProject;
                   cc_Writer := MemoryWriterUser; cc_Reason := "agreed"; cc_ExpiresAt := ""; cc_MaxUses := 2 |} |}.
Definition demo_identity : memoryProjectIdentity :=
  {| mp_canonical := "/work/project"; mp_normalized := "/work/project"; mp_hash := hashBytes "/work/project" |}.
Definition demo_first : io_end memory_files MemoryStoreError MemoryMutationResult :=
  perform demo_directory demo_time (demo_note "m-1" "use tabs") ∅ [].
Definition demo_answer : MemoryMutationResult :=
  {| mm_Revision := 1; mm_RecordID := memoryRecordID (mp_hash demo_identity) "create" "m-1"; mm_AffectedIDs := []; mm_Replayed := false |}.
(** Another note, whose last call fails *)
Definition demo_files : memory_files :=
  files_after (perform demo_directory (demo_time + 5) (demo_note "m-2" "no tabs") (files_after demo_first) (replicate 12 Works ++ [Fails])).
Definition demo_catalog : MemoryCatalogV1 :=
  match catalog_file (mp_hash demo_identity) demo_files with Holds (inr catalog) => catalog | _ => new_catalog demo_identity end.

Lemma demo_first_answers : demo_first = Returned demo_answer (files_after demo_first) [].
Proof. vm_compute. reflexivity. Qed.
Lemma demo_catalog_stored : catalog_file (mp_hash demo_identity) demo_files = Holds (inr demo_catalog).
Proof. vm_compute. reflexivity. Qed.
Example demo_second_written : mg_Revision demo_catalog = 2. Proof. vm_compute. reflexivity. Qed.
Lemma demo_few_revisions : mg_Revision demo_catalog < mm_Revision demo_answer + MaxMemoryReceipts.
Proof. vm_compute. reflexivity. Qed.

Lemma memory_mutation_once_witness :
  perform demo_directory (demo_time + 9) (demo_note "m-1" "use tabs") demo_files [] = Returned (replayed demo_answer) demo_files [] /\
  forall fs, files_after (perform demo_directory (demo_time + 9) (demo_note "m-1" "other text") demo_files fs) = demo_files.
Proof.
  assert (rtc memory_step (files_after demo_first) demo_files) as Hsteps by (apply rtc_once; by eexists _, _, _, _).
  split.
  - apply (memory_mutation_once demo_directory demo_time (demo_note "m-1" "use tabs") ∅ [] demo_answer (files_after demo_first) []
      demo_files demo_directory (demo_time + 9) (demo_note "m-1" "use tabs") [] demo_identity demo_catalog
      demo_first_answers eq_refl Hsteps eq_refl demo_catalog_stored demo_few_revisions eq_refl eq_refl); [by split|vm_compute; reflexivity].
  - intros fs. apply (memory_mutation_once demo_directory demo_time (demo_note "m-1" "use tabs") ∅ [] demo_answer (files_after demo_first) []
      demo_files demo_directory (demo_time + 9) (demo_note "m-1" "other text") fs demo_identity demo_catalog
      demo_first_answers eq_refl Hsteps eq_refl demo_catalog_stored demo_few_revisions eq_refl eq_refl).
Defined.

(** The check that only a consume is the engine's stands where no operation gets. *)
Definition by_engine (r : MemoryMutationReceiptV1) : MemoryMutationReceiptV1 := {|
  mc_MutationID := mc_MutationID r; mc_RequestHash := mc_RequestHash r; mc_Operation := mc_Operation r;
  mc_Writer := MemoryWriterEngine; mc_Reason := mc_Reason r; mc_Revision := mc_Revision r; mc_RecordID := mc_RecordID r;
  mc_AffectedIDs := mc_AffectedIDs r; mc_CreatedAt := mc_CreatedAt r |}.
Example engine_receipts_accepted :
  map mc_Operation (mg_Receipts demo_catalog) = ["create"; "create"] /\
  validateMemoryCatalog {|
    mg_SchemaVersion := mg_SchemaVersion demo_catalog; mg_Project := mg_Project demo_catalog;
    mg_ProjectHash := mg_ProjectHash demo_catalog; mg_Revision := mg_Revision demo_catalog; mg_Records := mg_Records demo_catalog;
    mg_Receipts := map by_engine (mg_Receipts demo_catalog) |} demo_identity = Ok tt.
Proof. vm_compute. done. Qed.
